(* ===== verification/_CoqProject ===== *)
-Q . S2P
Prelude.v
BinFile.v
ByteStream.v
ColType.v
Hasher.v
HashChain.v
Undo.v
Table.v
RwLock.v
RwLockProofs.v
Vbbm.v
VbbmProofs.v
Vss.v
VssProofs.v
VssWrite.v
VssUndo.v
CopyLocks.v
SlaveNode.v
SlaveProofs.v
Samples.v
NodeTheorems.v
VssTheorems.v
VbbmTheorems.v
StdMap.v
Session.v
SessionProofs.v
SessionTheorems.v
AutoInc.v
OidServer.v
OidProofs.v
OidAlloc.v
OidTheorems.v
TableLock.v
TableLockProofs.v
ResourceGraph.v
ResourceProofs.v
ExtentMap.v
EmCp.v
EmCreate.v
EmDelete.v
EmQuery.v
EmFile.v
EmSpace.v
EmFree.v
EmInv.v
EmKeeps.v
EmPlace.v
EmLayout.v
EmRollback.v
EmHwm.v
EmCpProofs.v
EmReserve.v
EmLoad.v
EmTheorems.v
EmTheorems2.v
NodeEm.v
Wire.v
SlaveComm.v
SlaveServe.v
DbrmClient.v
ClientWorker.v
ClientProofs.v
ServeProofs.v
MasterNode.v
MasterProofs.v
MasterServers.v
DbrmReads.v
DbrmServers.v
ServerCalls.v
ServerProofs.v
NodeEmProofs.v
WorkerTheorems.v
JournalTheorems.v
ReadTheorems.v
ClusterTheorems.v
ServerTheorems.v
ColumnScan.v
LbidList.v
ScanProofs.v
PartitionTheorems.v
