(* ===== verification/Prelude.v ===== *)
(** * InfiniDB block resolution and column scans: a verification library

    The block resolution manager (BRM, [src/versioning/BRM]) is the part of InfiniDB
    that knows where every block of the database is and which version of it a query
    may read.  A controller node serialises the requests; every worker node applies
    them to structures in shared memory, takes an image of each cell before it is
    written, and is then told to confirm the changes or to undo them.  Scans of
    columns ([src/primitives], [src/dbcon/joblist]) use what it keeps: they read the
    blocks of the extents of a column, report the range of the values they saw, which
    the BRM stores with the extent, and pass over extents whose range rules the
    filters of a query out.

    ** The parts and the files that model them

    - Data structures of the worker, in shared memory:
      - [undoable.cpp]: [Undo].  The log holds a destination (segment and cell) and
        the old contents; restoring into a segment that is no longer mapped is a
        fault, a record of a pointer restores nothing.
      - [vbbm.cpp], the version buffer block manager, a map from (LBID, version) to
        (file, block) with the allocation of the version buffer files: [Vbbm],
        with [VbbmProofs].
      - [vss.cpp], the version substitution structure, which versions of a block
        exist and where they are: [Vss], with [VssProofs], [VssWrite] and [VssUndo]
        (undo, save and load).  [Table] holds what the two tables share; [Hasher] and
        [HashChain] their hash function ([utils/common/hasher.h]) and chains.
      - [copylocks.cpp]: [CopyLocks].
      - [extentmap.cpp], the extents of every column and dictionary file with their
        high water marks and value ranges, and the free list of LBIDs:
        [ExtentMap] (tables, locks, growth, [deleteExtent], the free list), [EmCp]
        (casual partitioning), [EmCreate] (new extents), [EmDelete] (deletion,
        rollback, partitions), [EmQuery] (lookups, HWMs, [checkConsistency]),
        [EmFile] (save and load).
    - The worker itself, [slavedbrmnode.cpp]: [SlaveNode], and [NodeEm] for its calls
      on the extent map.
    - The worker process, [slavecomm.cpp]: [SlaveComm] (the arguments and replies of
      the commands), [SlaveServe] (the loop, confirm and undo, the journal, the
      snapshots and the replay of the journal).
    - Messages: [ByteStream] ([utils/messageqcpp/bytestream.cpp]) and [Wire] (the
      commands, codes and types of [brmtypes.h], [brmtypes.cpp],
      [logicalpartition.h]).
    - The client, [dbrm.cpp]: [DbrmClient], the calls whose commands go to the
      workers; [DbrmServers], the calls of the controller's own servers;
      [DbrmReads], the calls that read the tables in shared memory.
    - The controller, [masterdbrmnode.cpp]: [MasterNode], the commands for the
      workers, their two phases, and halt, resume, read-only and reload;
      [MasterServers], the handlers of its own servers and [msgProcessor].
    - [utils/rwlock/rwlock.cpp], the lock of every shared table, with
      [mastersegmenttable.cpp] and [rwlockmonitor.cpp]: [RwLock].
    - The controller's own state:
      - [sessionmanagerserver.cpp], transaction ids and the system catalog version:
        [Session], over the standard map of [StdMap];
      - [tablelockserver.cpp] with [TableLockInfo] of [brmtypes.cpp]: [TableLock];
      - [lbidresourcegraph.cpp], [rgnode.cpp], [resourcenode.cpp],
        [transactionnode.cpp], waits for blocks and deadlocks: [ResourceGraph];
      - [autoincrementmanager.cpp]: [AutoInc];
      - [oidserver.cpp], the bitmap of object ids and the version buffer files:
        [OidServer].
    - Column scans: [ColumnScan] is the primitive [p_Col] with its filters
      ([primitives/linux-port/column.cpp], the regular expressions of LIKE from
      [dictionary.cpp]) and the command that issues it
      ([primproc/columncommand.cpp]); [LbidList] the collection of value ranges and
      the predicates on them ([dbcon/joblist/lbidlist.cpp]), the flags of the extents
      a query scans ([tuple-bps.cpp]), the filters of a step ([pcolstep.cpp]) and
      [isNull] of [calpontsystemcatalog.h].
    - [BinFile]: little-endian files; [ColType]: the column types of
      [calpontsystemcatalog.h].

    ** How the code is represented

    C++ integers are [Z] with their wrap-around written out ([u32], [i32], ...).
    Arrays in shared memory are lists read and written by index, where an index out of
    range is the exception [Segfault]. An operation is a function of type [M S A := S
    -> outcome A * S]: the state it leaves is there after an exception too. [catch] is
    [catch (exception &)]: it handles the C++ exceptions and not faults. Locks are
    counters and flags of the state; a worker that asks for a table lock it already
    holds sleeps forever, which is [Deadlock]; sleeping calls are explicit values that
    a later step resumes, so that interleavings are sequences of steps. A message is
    the list of its bytes; a stream that is read is a state of type [list Z]. The
    network between the controller and its workers, and the other threads of the
    controller, are functions of a clock: whether a write or read throws, whether
    somebody has asked to halt or resume. System calls of the OID server take what
    goes wrong from a list of events. What a worker does not decide itself is the
    record [World]. The threads that share a read/write lock are a step relation: a
    step is one critical section, one wait or one wake-up, and the counters are part
    of the state.
    The bytes of a block and of a filter are lists; reading past their end is
    [Segfault].  The matcher of regular expressions and the loading of a block are
    arguments of the definitions that use them.  Floating point values are compared
    by an integer of the same order as the number.
    The build without [BRM_DEBUG] is modelled.

    Fuel: a walk along a hash chain has the length of the storage array as fuel,
    the depth first search the number of nodes plus one, [growUntil] and
    [gatherBlocks] the number of blocks asked for plus one, the loop of
    [checkConsistency] the number of entries plus one, a byte of the OID bitmap 18
    rounds, a sequence read from a message and the replay of a journal the number of
    bytes plus one.  A command of the controller may be tried again any number of
    times, and its fuel is the number of attempts; the loops that wait for a lock or
    for a slot have as fuel the number of times they are woken.  The loop of a scan
    has the number of its rows plus one.  Running out is the exception
    [OutOfFuel], and the theorems show it does not happen where the invariants hold.

    ** What is proved

    - Versions ([NodeTheorems], [VssTheorems], [VbbmTheorems], [SessionTheorems]): a
      query keeps reading its snapshot while other transactions write; a committed
      version is visible; rolling a transaction back leaves exactly the entries that
      were there; each table implements a map, also when it grows; the allocation of
      the version buffer; undoing; saving and loading.
    - Extents ([EmTheorems], [EmTheorems2]): every LBID is in one extent or one free
      range, after any sequence of calls, of undone creations and of loads of saved
      files (undoing a deletion breaks this); new extents go to a fresh place and keep
      the files disjoint; a failed load is taken back exactly; the lookups are inverse
      to each other; HWMs; value ranges computed from old data are refused, and merged
      ranges contain their parts; deletion; undo; save and load; [checkConsistency].
      The supporting files are [EmSpace] (ranges and coverage), [EmFree]
      ([deleteExtent]), [EmInv] (creation), [EmKeeps] (every operation keeps the
      invariant; the start), [EmPlace] and [EmLayout] (the files of a column),
      [EmRollback] (rollback and deletion), [EmHwm] (HWMs and undo), [EmCpProofs],
      [EmReserve], [EmLoad] (loading and [checkConsistency]).
    - Controller ([SessionTheorems], [TableLockProofs], [ResourceProofs], [AutoInc]):
      the session manager's counters under any interleaving, restart, progress of
      waiting calls, if no session has two calls that wait; exclusion of table locks;
      deadlock detection is exact; autoincrement ranges do not overlap.
    - The read/write lock ([RwLockProofs]): however the threads interleave and time
      out, a writer excludes everybody else, the counters are exact, and nobody who
      waits is forgotten, as long as every request that expires can be revoked.
    - The client's reads ([ReadTheorems]): looking many blocks up at once is reading
      each in the snapshot; the extents a transaction wrote to; locks of ranges read
      ahead, on the copy locks ([CopyLocks]).
    - The worker ([WorkerTheorems], over [NodeEmProofs]): every call on the extent map
      that reaches an idle worker answers and keeps the invariants of all structures;
      deleting an object; undoing the end of a load; restart from the three files.
    - Object ids ([OidTheorems], over [OidProofs] and [OidAlloc]): no id is given out
      twice, whatever system calls fail; when none fails, a free block is found when
      there is one, and the version buffer files survive a restart.
    - The journal ([JournalTheorems], over [ServeProofs]): it holds the confirmed
      commands since the last snapshot, and replaying it carries out exactly these;
      this gives the node back if every undo was exact.
    - The system ([ClusterTheorems], over [ClientWorker], [ClientProofs],
      [MasterProofs]; [ServerTheorems], over [ServerCalls] and [ServerProofs]): what a
      client sends is what the workers carry out, for each of 32 calls; a call over a
      network that works returns what the operation of the node returns and leaves all
      workers with the same node; workers that disagree (about a command that is not
      about partitions) stop the controller; a call of the controller's servers
      returns what the server's operation returns, errors included; the owner of a
      table lock changes only when the process that owns it is gone.
    - Column scans ([PartitionTheorems], over [ScanProofs]): a scan returns exactly
      the rows that satisfy the filters, of the blocks up to the last; filters parsed
      into arrays or a set select what the list of filters selects; the ranges that
      scans report, that [UpdateMinMax] collects and [setExtentsMaxMin] stores bound
      the values of the extent, so that an extent that is passed over has no row for
      the query. These hold for filters without NULL and without rounded constants,
      and not for every type: each statement says which.
    - Behaviour that differs from what the code means, each as a theorem about a
      concrete run: [delete_undo_loses_extent], [deleteEmptyCol_drops_data],
      [getBlocks_loses_entry], [vss_grow_then_undo_faults], [commit_undo_loses_count],
      [waiting_twice_leaks_slot], [woken_then_released_faults], [replay_other_lbids],
      [torn_record_runs], [begin_copy_keeps_lock], [partition_divergence_unreported],
      [lost_request_blocks], [mst_never_initializes], [client_reads_old_version],
      [null_filter_eliminates], [rounded_filter_eliminates], [char1_range_wrong],
      [float_set_misses_zero], [umedint_empty_rows_seen], [like_reads_past] and
      others.

    ** What is not modelled

    Attaching and creating the shared memory segments; the semaphores of the
    operating system below the read/write lock; sockets, threads and the acceptance
    of connections; printing the journal; errors of the operating system while a file
    is written, except where the code acts on them; text dumps; the configuration
    file, whose values are parameters.  Of queries, only scans of columns and
    the elimination of extents are modelled: not the parser and the plans, the other
    job steps, dictionary primitives, joins, aggregation, row groups, the block cache
    and its I/O.  Nor are the write engine, administration, and the vendored
    libraries. *)

From stdpp Require Export base list gmap strings.
From Stdlib Require Export ZArith Lia.

#[export] Set Default Goal Selector "!".

Declare Scope brm_scope.
Delimit Scope brm_scope with brm.
#[global] Open Scope Z_scope.
#[global] Open Scope brm_scope.

(** ** Outcomes of C++ code

    [Ret] is a normal return; [Exn] an exception, or one of the ways a
    C++ function has no result: an access outside the object it indexes
    ([Segfault]), a loop whose fuel ran out ([OutOfFuel], the model's sign
    of a loop that does not terminate) and a wait for a lock the caller itself
    holds ([Deadlock]). *)

Inductive exn :=
  | Segfault
  | OutOfFuel
  | Deadlock
  | AssertFailure
  | InvalidArgument
  | LogicError
  | RuntimeError
  | OverflowError
  | IosFailure
  | EofException
  | VBBMBufferOverFlow
  | BadAlloc
  | UnderflowError
  | LengthError
  | ProtocolError
  | NotExcl
  | IDBExcept (code : Z).

#[global] Instance exn_eq_dec : EqDecision exn.
Proof. solve_decision. Defined.

Inductive outcome (A : Type) :=
  | Ret (a : A)
  | Exn (e : exn).
Arguments Ret {A} a.
Arguments Exn {A} e.

#[global] Instance outcome_eq_dec {A} `{EqDecision A} : EqDecision (outcome A).
Proof. solve_decision. Defined.

#[global] Instance outcome_ret : MRet outcome := @Ret.
#[global] Instance outcome_bind : MBind outcome :=
  fun A B f m => match m with Ret a => f a | Exn e => Exn e end.

(** A value read through a checked access, or a segmentation fault. *)
Definition deref {A} (o : option A) : outcome A :=
  match o with Some a => Ret a | None => Exn Segfault end.

(** Stateful code keeps the state it had reached when it throws: the caller's
    handlers see the partial update, as in C++. *)
Definition M (S A : Type) : Type := S → outcome A * S.

#[global] Instance M_ret {S} : MRet (M S) := fun A a s => (Ret a, s).
#[global] Instance M_bind {S} : MBind (M S) :=
  fun A B f m s => match m s with
                   | (Ret a, s') => f a s'
                   | (Exn e, s') => (Exn e, s')
                   end.

Definition throw {S A} (e : exn) : M S A := fun s => (Exn e, s).
Definition gets {S A} (f : S → A) : M S A := fun s => (Ret (f s), s).
Definition modify {S} (f : S → S) : M S unit := fun s => (Ret tt, f s).
Definition lift {S A} (o : outcome A) : M S A := fun s => (o, s).

(** Run stateful code on a component of a larger state. *)
Definition zoom {S T A} (get : S → T) (set : T → S → S) (m : M T A) : M S A :=
  fun s => let '(r, t) := m (get s) in (r, set t s).

(** [for x in l: body x], stopping at the first exception. *)
Fixpoint forM {S A} (l : list A) (f : A → M S unit) : M S unit :=
  match l with
  | [] => mret tt
  | x :: l' => f x ≫= fun _ => forM l' f
  end.

(** [catch (exception &e)]: faults and divergence are not exceptions. *)
Definition is_exception (e : exn) : bool :=
  match e with Segfault | OutOfFuel | Deadlock => false | _ => true end.

Definition catch {S A} (op : M S A) (handler : exn → M S A) : M S A := fun s =>
  match op s with
  | (Exn e, s') => if is_exception e then handler e s' else (Exn e, s')
  | r => r
  end.

(** ** Arrays indexed by C integers

    Reading outside the array is [None]; a write outside it leaves the array
    alone, so every write of the model is preceded by a checked read. *)

Definition zget {A} (l : list A) (i : Z) : option A :=
  if i <? 0 then None else l !! Z.to_nat i.

Definition zset {A} (l : list A) (i : Z) (x : A) : list A :=
  if i <? 0 then l else <[Z.to_nat i := x]> l.

Definition zlength {A} (l : list A) : Z := Z.of_nat (length l).

Notation "l .[ i ]" := (zget l i) (at level 1, left associativity, format "l .[ i ]") : brm_scope.
Notation "l .[ i <- x ]" := (zset l i x) (at level 1, left associativity) : brm_scope.

(** ** Machine integers *)

Definition wrap_u (w : Z) (x : Z) : Z := x mod 2 ^ w.
Definition wrap_s (w : Z) (x : Z) : Z :=
  let y := x mod 2 ^ w in if y <? 2 ^ (w - 1) then y else y - 2 ^ w.

Abbreviation u8 := (wrap_u 8).
Abbreviation u16 := (wrap_u 16).
Abbreviation u32 := (wrap_u 32).
Abbreviation u64 := (wrap_u 64).
Abbreviation i32 := (wrap_s 32).
Abbreviation i64 := (wrap_s 64).

(** The code of success of the calls ([brmtypes.h]). *)
Definition ERR_OK : Z := 0.

(** [for (i = start; i < start + n; i++)] as the list of its indices. *)
Definition zseq (start : Z) (n : Z) : list Z :=
  (fun k : nat => start + Z.of_nat k) <$> seq 0 (Z.to_nat n).

(** Little-endian image of an integer, [n] bytes long. *)
Fixpoint le_bytes (n : nat) (x : Z) : list Z :=
  match n with
  | O => []
  | S n' => x mod 256 :: le_bytes n' (x / 256)
  end.

Fixpoint le_value (l : list Z) : Z :=
  match l with
  | [] => 0
  | b :: l' => b + 256 * le_value l'
  end.

(** Number of list elements that satisfy a boolean test. *)
Definition count {A} (p : A → bool) (l : list A) : Z :=
  zlength (List.filter p l).

(** ** Automation *)

Create HintDb brm discriminated.
Create Rewrite HintDb zarr.

(** Case analysis on every boolean comparison and [if] in sight. *)
Ltac zbool :=
  repeat match goal with
  | H : (_ <? _) = true |- _ => apply Z.ltb_lt in H
  | H : (_ <? _) = false |- _ => apply Z.ltb_ge in H
  | H : (_ <=? _) = true |- _ => apply Z.leb_le in H
  | H : (_ <=? _) = false |- _ => apply Z.leb_gt in H
  | H : (_ =? _) = true |- _ => apply Z.eqb_eq in H
  | H : (_ =? _) = false |- _ => apply Z.eqb_neq in H
  | H : (_ && _) = true |- _ => apply andb_true_iff in H as [? ?]
  | H : (_ && _) = false |- _ => apply andb_false_iff in H
  | H : (_ || _) = true |- _ => apply orb_true_iff in H
  | H : (_ || _) = false |- _ => apply orb_false_iff in H as [? ?]
  | H : negb _ = true |- _ => apply negb_true_iff in H
  | H : negb _ = false |- _ => apply negb_false_iff in H
  end.

Ltac case_if :=
  match goal with
  | |- context [if ?cond then _ else _] => destruct cond eqn:?; zbool
  | H : context [if ?cond then _ else _] |- _ => destruct cond eqn:?; zbool
  end.

(** ** Running monadic code *)

Create Rewrite HintDb run.

Lemma bind_ret {S A B} (m : M S A) (f : A → M S B) s a s' :
  m s = (Ret a, s') → (m ≫= f) s = f a s'.
Proof. unfold mbind, M_bind. by intros ->. Qed.

Lemma bind_exn {S A B} (m : M S A) (f : A → M S B) s e s' :
  m s = (Exn e, s') → (m ≫= f) s = (Exn e, s').
Proof. unfold mbind, M_bind. by intros ->. Qed.

Lemma bind_inv {S A B} (m : M S A) (k : A → M S B) s b s' :
  (m ≫= k) s = (Ret b, s') → ∃ a s1, m s = (Ret a, s1) ∧ k a s1 = (Ret b, s').
Proof. unfold mbind, M_bind. destruct (m s) as [[a|e] s1]; [|done]. intros H. by exists a, s1. Qed.

Lemma mret_run {S A B} (a : A) (f : A → M S B) s : (mret a ≫= f) s = f a s.
Proof. done. Qed.

Lemma lift_run {S A B} (a : A) (f : A → M S B) s : (lift (Ret a) ≫= f) s = f a s.
Proof. done. Qed.

Lemma lift_exn_run {S A B} e (f : A → M S B) s : (lift (Exn e) ≫= f) s = (Exn e, s).
Proof. done. Qed.

Lemma deref_Some {A} (a : A) : deref (Some a) = Ret a.
Proof. done. Qed.

Lemma assoc_run {S A B C} (m : M S A) (f : A → M S B) (g : B → M S C) s :
  ((m ≫= f) ≫= g) s = (m ≫= fun a => f a ≫= g) s.
Proof. unfold mbind, M_bind. by destruct (m s) as [[] ?]. Qed.

Lemma forM_app {S A} (l1 l2 : list A) (f : A → M S unit) s :
  forM (l1 ++ l2) f s = (forM l1 f ≫= fun _ => forM l2 f) s.
Proof.
  revert s. induction l1 as [|x l1 IH]; intros s; [done|]. cbn [app forM].
  rewrite assoc_run. unfold mbind, M_bind in *. destruct (f x s) as [[[]|] s']; [|done]. apply IH.
Qed.

#[export] Hint Rewrite @mret_run @lift_run @lift_exn_run @deref_Some @assoc_run : run.

(** ** Arrays: lemmas *)

Section Arrays.
Context {A : Type}.
Implicit Types (l : list A) (i j : Z) (x y : A).

Lemma zget_range l i x : l.[i] = Some x → 0 ≤ i < zlength l.
Proof.
  unfold zget, zlength. case_if; [done|]. intros ?%lookup_lt_Some. lia.
Qed.

Lemma zget_is_Some l i : 0 ≤ i < zlength l → is_Some (l.[i]).
Proof.
  unfold zget, zlength. intros [??]. case_if; [lia|]. apply lookup_lt_is_Some. lia.
Qed.

Lemma zget_None l i : ¬ (0 ≤ i < zlength l) → l.[i] = None.
Proof.
  intros H. destruct (l.[i]) eqn:E; [|done]. by apply zget_range in E.
Qed.

Lemma zget_nat l (n : nat) : l.[Z.of_nat n] = l !! n.
Proof. unfold zget. case_if; [lia|]. by rewrite Nat2Z.id. Qed.

Lemma zlength_zset l i x : zlength (l.[i <- x]) = zlength l.
Proof. unfold zset, zlength. case_if; [done|]. by rewrite length_insert. Qed.

Lemma zlength_nonneg l : 0 ≤ zlength l.
Proof. unfold zlength. lia. Qed.

Lemma zget_zset_eq l i x : 0 ≤ i < zlength l → (l.[i <- x]).[i] = Some x.
Proof.
  unfold zset, zget, zlength. intros [??]. case_if; [lia|].
  apply list_lookup_insert_eq. lia.
Qed.

Lemma zget_zset_ne l i j x : i ≠ j → (l.[i <- x]).[j] = l.[j].
Proof.
  unfold zset, zget. intros Hne. destruct (i <? 0) eqn:?; [done|]. zbool.
  case_if; [done|]. apply list_lookup_insert_ne. lia.
Qed.

Lemma zget_zset l i j x y :
  l.[i] = Some y →
  (l.[i <- x]).[j] = if decide (i = j) then Some x else l.[j].
Proof.
  intros H%zget_range. case_decide as Hd.
  - subst. by apply zget_zset_eq.
  - by apply zget_zset_ne.
Qed.

Lemma zset_id l i x : l.[i] = Some x → l.[i <- x] = l.
Proof.
  unfold zget, zset. case_if; [done|]. intros. by apply list_insert_id.
Qed.

Lemma zset_zset l i x y : (l.[i <- x]).[i <- y] = l.[i <- y].
Proof. unfold zset. case_if; [done|]. apply list_insert_insert_eq. Qed.

Lemma zset_comm l i j x y :
  i ≠ j → (l.[i <- x]).[j <- y] = (l.[j <- y]).[i <- x].
Proof.
  unfold zset. intros. destruct (i <? 0) eqn:?; [done|].
  destruct (j <? 0) eqn:?; [done|]. zbool. apply list_insert_insert_ne. lia.
Qed.

Lemma zget_elem_of l x : x ∈ l ↔ ∃ i, l.[i] = Some x.
Proof.
  rewrite list_elem_of_lookup. split.
  - intros [n ?]. exists (Z.of_nat n). by rewrite zget_nat.
  - intros [i Hi]. pose proof (zget_range _ _ _ Hi). exists (Z.to_nat i).
    rewrite <- zget_nat, Z2Nat.id; [done|lia].
Qed.

Lemma list_zget_ext l1 l2 : (∀ i, l1.[i] = l2.[i]) → l1 = l2.
Proof. intros H. apply list_eq. intros n. by rewrite <- !zget_nat. Qed.

Lemma zlength_cons x l : zlength (x :: l) = zlength l + 1.
Proof. unfold zlength. cbn [length]. lia. Qed.

Lemma zlength_app l1 l2 : zlength (l1 ++ l2) = zlength l1 + zlength l2.
Proof. unfold zlength. rewrite length_app. lia. Qed.

#[export] Instance zlength_perm : Proper ((≡ₚ) ==> (=)) (@zlength A).
Proof. intros l1 l2 Hp. unfold zlength. by rewrite Hp. Qed.
End Arrays.

#[export] Hint Rewrite @zlength_zset : zarr.
#[export] Hint Resolve zget_range zlength_nonneg : brm.

(** ** Bits and widths: lemmas *)

Lemma wrap_u_bound w x : 0 ≤ w → 0 ≤ wrap_u w x < 2 ^ w.
Proof. intros. apply Z.mod_pos_bound. by apply Z.pow_pos_nonneg. Qed.

Lemma wrap_u_small w x : 0 ≤ x < 2 ^ w → wrap_u w x = x.
Proof. apply Z.mod_small. Qed.

Lemma wrap_s_small w x : 0 < w → - 2 ^ (w - 1) ≤ x < 2 ^ (w - 1) → wrap_s w x = x.
Proof.
  intros Hw Hx. unfold wrap_s.
  assert (2 ^ w = 2 * 2 ^ (w - 1)) as Hp.
  { rewrite <- Z.pow_succ_r by lia. f_equal. lia. }
  destruct (decide (0 ≤ x)).
  - rewrite Z.mod_small by lia. by case_if; [|lia].
  - assert (x mod 2 ^ w = x + 2 ^ w) as ->.
    { symmetry. apply (Z.mod_unique _ _ (-1)); lia. }
    case_if; lia.
Qed.

Lemma bits_bound w x : 0 ≤ w → 0 ≤ x → (∀ i, w ≤ i → Z.testbit x i = false) → x < 2 ^ w.
Proof.
  intros Hw Hx Hb. destruct (decide (x < 2 ^ w)) as [|Hge]; [done|].
  assert (0 < 2 ^ w) by (by apply Z.pow_pos_nonneg).
  assert (0 < x) by lia.
  assert (w ≤ Z.log2 x) as Hl by (apply Z.log2_le_pow2; lia).
  apply Hb in Hl. by rewrite Z.bit_log2 in Hl.
Qed.

Lemma testbit_above w x i : 0 ≤ x < 2 ^ w → w ≤ i → Z.testbit x i = false.
Proof.
  intros [? ?] ?. destruct (decide (x = 0)) as [->|]; [apply Z.bits_0|].
  apply Z.bits_above_log2; [done|].
  assert (Z.log2 x < w) by (apply Z.log2_lt_pow2; lia). lia.
Qed.

Lemma lxor_bound w x y :
  0 ≤ w → 0 ≤ x < 2 ^ w → 0 ≤ y < 2 ^ w → 0 ≤ Z.lxor x y < 2 ^ w.
Proof.
  intros Hw Hx Hy. assert (0 ≤ Z.lxor x y) by (apply Z.lxor_nonneg; lia).
  split; [done|]. apply bits_bound; [done..|]. intros i Hi.
  by rewrite Z.lxor_spec, !(testbit_above w).
Qed.

Lemma lor_bound w x y :
  0 ≤ w → 0 ≤ x < 2 ^ w → 0 ≤ y < 2 ^ w → 0 ≤ Z.lor x y < 2 ^ w.
Proof.
  intros Hw Hx Hy. assert (0 ≤ Z.lor x y) by (apply Z.lor_nonneg; lia).
  split; [done|]. apply bits_bound; [done..|]. intros i Hi.
  by rewrite Z.lor_spec, !(testbit_above w).
Qed.

Lemma shiftr_bound w x n : 0 ≤ n → 0 ≤ x < 2 ^ w → 0 ≤ Z.shiftr x n < 2 ^ w.
Proof.
  intros Hn Hx. rewrite Z.shiftr_div_pow2 by done.
  assert (0 < 2 ^ n) by (by apply Z.pow_pos_nonneg).
  split; [apply Z.div_pos; lia|].
  apply (Z.le_lt_trans _ x); [|lia]. apply Z.div_le_upper_bound; nia.
Qed.

Lemma wrap_u_lxor w x y :
  0 ≤ w → 0 ≤ x < 2 ^ w → wrap_u w (Z.lxor x y) = Z.lxor x (wrap_u w y).
Proof.
  intros Hw Hx. unfold wrap_u. apply Z.bits_inj'. intros i Hi.
  rewrite Z.lxor_spec. destruct (decide (i < w)).
  - by rewrite !Z.mod_pow2_bits_low, Z.lxor_spec by lia.
  - rewrite !Z.mod_pow2_bits_high by lia. by rewrite (testbit_above w) by lia.
Qed.

#[export] Hint Resolve wrap_u_bound lxor_bound lor_bound shiftr_bound : brm.

(** ** Little-endian images: lemmas *)

Definition is_byte (b : Z) : Prop := 0 ≤ b < 256.

Lemma length_le_bytes n x : length (le_bytes n x) = n.
Proof. revert x. induction n; intros; simpl; [done|]. by rewrite IHn. Qed.

Lemma le_bytes_byte n x : Forall is_byte (le_bytes n x).
Proof.
  revert x. induction n; intros; simpl; constructor; [|done].
  apply Z.mod_pos_bound. lia.
Qed.

Lemma le_value_bytes n x : le_value (le_bytes n x) = x mod 2 ^ (8 * Z.of_nat n).
Proof.
  revert x. induction n as [|n IH]; intros x.
  - by rewrite Z.mod_1_r.
  - cbn [le_bytes le_value]. rewrite IH.
    replace (8 * Z.of_nat (S n)) with (8 + 8 * Z.of_nat n) by lia.
    rewrite Z.pow_add_r by lia. change (2 ^ 8) with 256.
    assert (0 < 2 ^ (8 * Z.of_nat n)) by (apply Z.pow_pos_nonneg; lia).
    rewrite Z.rem_mul_r by lia. lia.
Qed.

Lemma le_value_bound l : Forall is_byte l → 0 ≤ le_value l < 2 ^ (8 * zlength l).
Proof.
  unfold zlength. induction 1 as [|b l Hb _ IH]; [done|]. cbn [le_value length].
  replace (8 * Z.of_nat (S (length l))) with (8 + 8 * Z.of_nat (length l)) by lia.
  rewrite Z.pow_add_r by lia. unfold is_byte in Hb. change (2 ^ 8) with 256. lia.
Qed.

Lemma le_bytes_value l : Forall is_byte l → le_bytes (length l) (le_value l) = l.
Proof.
  induction 1 as [|b l Hb _ IH]; [done|]. cbn [length le_value le_bytes].
  unfold is_byte in Hb.
  replace (b + 256 * le_value l) with (b + le_value l * 256) by lia.
  rewrite Z.mod_add, Z.div_add by lia.
  rewrite (Z.mod_small b), (Z.div_small b), Z.add_0_l by done. by rewrite IH.
Qed.

Lemma le_bytes_mod n x : le_bytes n (x mod 2 ^ (8 * Z.of_nat n)) = le_bytes n x.
Proof. rewrite <- (le_value_bytes n x). pose proof (le_bytes_value (le_bytes n x) (le_bytes_byte n x)) as H. by rewrite length_le_bytes in H. Qed.

(** ** Index ranges *)

Lemma zseq_app start n1 n2 :
  0 ≤ n1 → 0 ≤ n2 → zseq start (n1 + n2) = zseq start n1 ++ zseq (start + n1) n2.
Proof.
  intros H1 H2. unfold zseq. rewrite Z2Nat.inj_add, seq_app, fmap_app by done. f_equal.
  replace (0 + Z.to_nat n1)%nat with (Z.to_nat n1 + 0)%nat by lia.
  rewrite <- fmap_add_seq, <- list_fmap_compose.
  apply list_fmap_ext. intros ? ? _. simpl. lia.
Qed.

Lemma zseq_elem start n x : x ∈ zseq start n ↔ start ≤ x < start + n.
Proof.
  unfold zseq. rewrite list_elem_of_fmap. setoid_rewrite elem_of_seq. split.
  - intros (k & -> & Hk). lia.
  - intros Hx. exists (Z.to_nat (x - start)). lia.
Qed.

Lemma zseq_mod start n B c :
  0 < B → c * B ≤ start → start + n ≤ (c + 1) * B →
  (fun x => x mod B) <$> zseq start n = zseq (start - c * B) n.
Proof.
  intros HB H1 H2. unfold zseq. rewrite <- list_fmap_compose. apply list_fmap_ext.
  intros j k Hk. apply lookup_seq in Hk as [-> Hk]. simpl.
  symmetry. apply (Z.mod_unique _ _ c); lia.
Qed.

Lemma zseq_cons start n : 0 ≤ n → zseq start (n + 1) = start :: zseq (start + 1) n.
Proof.
  intros Hn. rewrite (Z.add_comm n 1), zseq_app by lia.
  assert (zseq start 1 = [start]) as ->; [|done].
  change (zseq start 1) with [start + Z.of_nat 0]. by rewrite Z.add_0_r.
Qed.

Lemma zseq_nil start : zseq start 0 = [].
Proof. done. Qed.

Lemma zseq_nodup start n : NoDup (zseq start n).
Proof. unfold zseq. apply NoDup_fmap_2; [|apply NoDup_seq]. intros x y. lia. Qed.

Lemma length_zseq start n : length (zseq start n) = Z.to_nat n.
Proof. unfold zseq. by rewrite length_fmap, length_seq. Qed.

Lemma zget_fmap {A B} (f : A → B) l i : (f <$> l).[i] = f <$> l.[i].
Proof. unfold zget. case_if; [done|]. apply list_lookup_fmap. Qed.

Lemma zget_middle {A} (l1 l2 : list A) x : (l1 ++ x :: l2).[zlength l1] = Some x.
Proof. unfold zlength. rewrite zget_nat. by apply list_lookup_middle. Qed.

Lemma zset_middle {A} (l1 l2 : list A) x y : (l1 ++ x :: l2).[zlength l1 <- y] = l1 ++ y :: l2.
Proof.
  unfold zset, zlength. case_if; [lia|]. rewrite Nat2Z.id, insert_app_r_alt, Nat.sub_diag by lia. done.
Qed.
