(* ===== verification/BinFile.v ===== *)
(** * Binary files and struct images

    The BRM saves its tables by writing structs as they lie in memory (little
    endian, 64-bit layout).  A file is a list of bytes; [IDBDataFile::read(buf, n)]
    returns fewer than [n] bytes at the end of the file, which every caller
    treats as an error. *)

From S2P Require Import Prelude.

(** [in->read(buf, n) == n]: the bytes read and the rest of the file. *)
Definition read (n : nat) (file : list Z) : option (list Z * list Z) :=
  if decide (n ≤ length file)%nat then Some (take n file, drop n file) else None.

(** Unsigned and two's-complement integers of [n] bytes. *)
Definition get_u (bs : list Z) : Z := le_value bs.
Definition get_s (bs : list Z) : Z := wrap_s (8 * zlength bs) (le_value bs).

(** Bytes [[i, i + n)] of a struct. *)
Definition field (i n : nat) (bs : list Z) : list Z := take n (drop i bs).

(** Values that fit. *)
Definition fits_s (n : nat) (x : Z) : bool :=
  (- 2 ^ (8 * Z.of_nat n - 1) <=? x) && (x <? 2 ^ (8 * Z.of_nat n - 1)).
Definition fits_u (n : nat) (x : Z) : bool := (0 <=? x) && (x <? 2 ^ (8 * Z.of_nat n)).

Lemma read_app n a b : length a = n → read n (a ++ b) = Some (a, b).
Proof.
  intros <-. unfold read. rewrite decide_True; [|rewrite length_app; lia].
  by rewrite take_app_length, drop_app_length.
Qed.

Lemma read_short n file : (length file < n)%nat → read n file = None.
Proof. intros. unfold read. by rewrite decide_False by lia. Qed.

Lemma get_u_bytes n x : fits_u n x = true → get_u (le_bytes n x) = x.
Proof.
  unfold fits_u, get_u. intros. zbool. rewrite le_value_bytes. by apply Z.mod_small.
Qed.

Lemma wrap_s_mod w x : wrap_s w (x mod 2 ^ w) = wrap_s w x.
Proof. unfold wrap_s. by rewrite Zmod_mod. Qed.

Lemma get_s_bytes n x : (0 < n)%nat → fits_s n x = true → get_s (le_bytes n x) = x.
Proof.
  unfold fits_s, get_s, zlength. intros Hn Hx. zbool.
  rewrite length_le_bytes, le_value_bytes, wrap_s_mod. apply wrap_s_small; lia.
Qed.

Lemma field_0 n a b : length a = n → field 0 n (a ++ b) = a.
Proof. intros <-. unfold field. by rewrite drop_0, take_app_length. Qed.

Lemma field_app i n a b : (length a ≤ i)%nat → field i n (a ++ b) = field (i - length a) n b.
Proof. intros. unfold field. by rewrite drop_app_ge. Qed.

Lemma field_all n a : length a = n → field 0 n a = a.
Proof. intros <-. unfold field. by rewrite drop_0, firstn_all. Qed.

(** Take a struct image apart. *)
Ltac solve_field :=
  repeat (rewrite field_app by (rewrite ?length_le_bytes; cbn; lia));
  rewrite ?length_le_bytes; cbn [Nat.sub];
  first [ rewrite field_0 by (rewrite ?length_le_bytes; done)
        | rewrite field_all by (rewrite ?length_le_bytes; done) ];
  first [ rewrite get_s_bytes by (lia || done) | rewrite get_u_bytes by done ].
