(* ===== verification/ByteStream.v ===== *)
(** * Messages ([bytestream.cpp], [bytestream.h])

    A [ByteStream] is the list of the bytes left to read.  [bs << x] appends the
    image of [x]; [bs >> x] takes as many bytes as [x] has, or throws and takes
    nothing.  A [codec] is a type with both operators and their law. *)

From S2P Require Import Prelude BinFile.

(** Code that reads from a stream. *)
Abbreviation Get := (M (list Z)).

(** ** Integers *)

Definition put8 (x : Z) : list Z := le_bytes 1 x.
Definition put16 (x : Z) : list Z := le_bytes 2 x.
Definition put32 (x : Z) : list Z := le_bytes 4 x.
Definition put64 (x : Z) : list Z := le_bytes 8 x.

(** [peek] and the advance of the pointer. *)
Definition get_n (n : nat) : Get Z := fun bs =>
  if decide (n ≤ length bs)%nat then (Ret (get_u (take n bs)), drop n bs) else (Exn UnderflowError, bs).

Definition get8 : Get Z := get_n 1.
Definition get16 : Get Z := get_n 2.
Definition get32 : Get Z := get_n 4.
Definition get64 : Get Z := get_n 8.

(** [peek(uint8_t)] *)
Definition peek8 (bs : list Z) : outcome Z := (get8 bs).1.

(** ** Strings *)

Definition put_string (s : list Z) : list Z := put32 (zlength s) ++ s.

(** [operator>>(string&)]: nothing is taken when it throws. *)
Definition get_string : Get (list Z) := fun bs =>
  match get32 bs with
  | (Exn e, _) => (Exn e, bs)
  | (Ret q, rest) =>
      let len := i32 q in
      if len <? 0 then (Exn ProtocolError, bs)
      else if zlength bs <? u32 (len + 4) then (Exn UnderflowError, bs)
      else (Ret (take (Z.to_nat len) rest), drop (Z.to_nat len) rest)
  end.

(** ** Sequences *)

(** [for (i = 0; i < n; i++) { bs >> x; l.push_back(x); }]: an element has at least
    one byte, so the loop ends, at the latest by an exception, within one round
    more than there are bytes. *)
Fixpoint get_times {A} (fuel : nat) (n : Z) (get : Get A) : Get (list A) :=
  match fuel with
  | O => throw OutOfFuel
  | S fuel' =>
      if n <=? 0 then mret []
      else
        x ← get;
        l ← get_times fuel' (n - 1) get;
        mret (x :: l)
  end.

Definition get_count {A} (n : Z) (get : Get A) : Get (list A) := fun bs => get_times (S (length bs)) n get bs.

(** [serializeVector] and [serializeSet], [deserializeVector] and [deserializeSet]
    (of the elements in their order). *)
Definition put_vector {A} (put : A → list Z) (l : list A) : list Z := put64 (zlength l) ++ (l ≫= put).
Definition get_vector {A} (get : Get A) : Get (list A) := n ← get64; get_count n get.

(** [serializeInlineVector]: the array as it lies in memory. *)
Definition put_inline {A} (image : A → list Z) (l : list A) : list Z := put64 (zlength l) ++ (l ≫= image).

(** [deserializeInlineVector]: copies before it looks whether the bytes are there. *)
Definition copy_array {A} (size : nat) (parse : list Z → A) (n : Z) : Get (list A) := fun bs =>
  if zlength bs <? Z.of_nat size * n then (Exn Segfault, bs)
  else (Ret ((fun i => parse (field (size * i) size bs)) <$> seq 0 (Z.to_nat n)), drop (size * Z.to_nat n) bs).

Definition get_inline {A} (size : nat) (parse : list Z → A) : Get (list A) := n ← get64; copy_array size parse n.

(** ** Reading back *)

Create Rewrite HintDb wire.

Lemma get_n_put n x tl : get_n n (le_bytes n x ++ tl) = (Ret (x mod 2 ^ (8 * Z.of_nat n)), tl).
Proof.
  unfold get_n. rewrite decide_True by (rewrite length_app, length_le_bytes; lia).
  rewrite take_app_length', drop_app_length' by by rewrite length_le_bytes.
  unfold get_u. by rewrite le_value_bytes.
Qed.

Lemma get8_put x tl : get8 (put8 x ++ tl) = (Ret (u8 x), tl).
Proof. apply (get_n_put 1). Qed.
Lemma get16_put x tl : get16 (put16 x ++ tl) = (Ret (u16 x), tl).
Proof. apply (get_n_put 2). Qed.
Lemma get32_put x tl : get32 (put32 x ++ tl) = (Ret (u32 x), tl).
Proof. apply (get_n_put 4). Qed.
Lemma get64_put x tl : get64 (put64 x ++ tl) = (Ret (u64 x), tl).
Proof. apply (get_n_put 8). Qed.

(** The next step of a reader, by what was written. *)
Lemma get_bind {A B} (get : Get A) (k : A → Get B) bs a tl : get bs = (Ret a, tl) → (get ≫= k) bs = k a tl.
Proof. apply bind_ret. Qed.

Lemma u_of_u w x : 0 ≤ x < 2 ^ w → wrap_u w x = x.
Proof. apply Z.mod_small. Qed.

Lemma s_of_u w x : 0 < w → - 2 ^ (w - 1) ≤ x < 2 ^ (w - 1) → wrap_s w (wrap_u w x) = x.
Proof. intros Hw Hx. unfold wrap_u. rewrite wrap_s_mod. by apply wrap_s_small. Qed.

Lemma length_put n x : length (le_bytes n x) = n.
Proof. apply length_le_bytes. Qed.

Lemma get_string_put s tl : zlength s < 2 ^ 31 - 4 → get_string (put_string s ++ tl) = (Ret s, tl).
Proof.
  intros Hs. pose proof (zlength_nonneg s). unfold get_string, put_string. rewrite <- app_assoc, get32_put.
  rewrite u_of_u by lia. rewrite wrap_s_small by lia.
  assert (zlength s <? 0 = false) as -> by (apply Z.ltb_ge; lia).
  assert (zlength (put32 (zlength s) ++ s ++ tl) <? u32 (zlength s + 4) = false) as ->.
  { apply Z.ltb_ge. rewrite u_of_u by lia. unfold zlength. rewrite !length_app. unfold put32. rewrite length_put. lia. }
  unfold zlength. by rewrite Nat2Z.id, take_app_length, drop_app_length.
Qed.

(** ** Codecs *)

Record codec (A : Type) := mkCodec {
  c_put : A → list Z;
  c_get : Get A;
  c_fits : A → Prop;
  c_law a tl : c_fits a → c_get (c_put a ++ tl) = (Ret a, tl);
  c_size a : (1 ≤ length (c_put a))%nat;
}.
Arguments mkCodec {A}.
Arguments c_put {A}.
Arguments c_get {A}.
Arguments c_fits {A}.
Arguments c_law {A}.
Arguments c_size {A}.

(** The elements are read back one by one; [f] is what the reader makes of what was
    written. *)
Lemma get_times_map {A B} (put : A → list Z) (get : Get B) (f : A → B) l fuel tl :
  (∀ x tl, x ∈ l → get (put x ++ tl) = (Ret (f x), tl)) → (∀ x, (1 ≤ length (put x))%nat) →
  (length (l ≫= put) < fuel)%nat → get_times fuel (zlength l) get ((l ≫= put) ++ tl) = (Ret (f <$> l), tl).
Proof.
  intros Hl Hs. revert fuel. induction l as [|x l IH]; intros fuel Hf; (destruct fuel as [|fuel]; [lia|]); [done|].
  cbn [get_times]. rewrite zlength_cons. pose proof (zlength_nonneg l).
  assert (zlength l + 1 <=? 0 = false) as -> by (apply Z.leb_gt; lia). replace (zlength l + 1 - 1) with (zlength l) by lia.
  cbn [mbind list_bind] in *. rewrite length_app in Hf. pose proof (Hs x). rewrite <- app_assoc.
  rewrite (get_bind _ _ _ _ _ (Hl x _ (list_elem_of_here _ _))). erewrite get_bind; [reflexivity|].
  apply IH; [|lia]. intros y tl' Hy. apply Hl. by right.
Qed.

Lemma get_count_map {A B} (put : A → list Z) (get : Get B) (f : A → B) l tl :
  (∀ x tl, x ∈ l → get (put x ++ tl) = (Ret (f x), tl)) → (∀ x, (1 ≤ length (put x))%nat) →
  get_count (zlength l) get ((l ≫= put) ++ tl) = (Ret (f <$> l), tl).
Proof. intros Hl Hs. unfold get_count. apply get_times_map; [done|done|]. rewrite length_app. lia. Qed.

Lemma get_count_put {A} (c : codec A) l tl :
  Forall (c_fits c) l → get_count (zlength l) (c_get c) ((l ≫= c_put c) ++ tl) = (Ret l, tl).
Proof.
  intros Hl. rewrite (get_count_map _ _ id); [by rewrite list_fmap_id| |apply c_size].
  intros x tl' Hx. apply c_law. by eapply Forall_forall in Hl.
Qed.

Lemma get_vector_put {A} (c : codec A) l tl :
  Forall (c_fits c) l → zlength l < 2 ^ 64 → get_vector (c_get c) (put_vector (c_put c) l ++ tl) = (Ret l, tl).
Proof.
  intros Hl Hn. pose proof (zlength_nonneg l). unfold get_vector, put_vector. rewrite <- app_assoc.
  rewrite (get_bind _ _ _ _ _ (get64_put _ _)), u_of_u by lia. by apply get_count_put.
Qed.

(** Reading ends: an element that is read takes a byte, and there are more rounds
    than bytes. *)
Lemma get_times_ends {A} (get : Get A) fuel n bs e bs' :
  (∀ b x b', get b = (Ret x, b') → (length b' < length b)%nat) →
  (∀ b e b', get b = (Exn e, b') → e ≠ OutOfFuel) →
  (length bs < fuel)%nat → get_times fuel n get bs = (Exn e, bs') → e ≠ OutOfFuel.
Proof.
  intros Hget Hexn. revert n bs e bs'. induction fuel as [|fuel IH]; intros n bs e bs' Hf Hr; [lia|].
  cbn [get_times] in Hr. case_if; [done|]. unfold mbind, M_bind in Hr. destruct (get bs) as [[x|e1] b1] eqn:Hg.
  - destruct (get_times fuel (n - 1) get b1) as [[l|e2] b2] eqn:Ht; [done|]. injection Hr as <- <-.
    eapply IH; [|exact Ht]. specialize (Hget _ _ _ Hg). lia.
  - injection Hr as <- <-. by eapply Hexn.
Qed.

(** The law of an array, from that of a struct. *)
Lemma get_inline_put {A} (image : A → list Z) size parse l tl :
  (0 < size)%nat → (∀ x, x ∈ l → length (image x) = size ∧ parse (image x) = x) → zlength l < 2 ^ 64 →
  get_inline size parse (put_inline image l ++ tl) = (Ret l, tl).
Proof.
  intros Hs Himg Hn. pose proof (zlength_nonneg l). unfold get_inline, put_inline. rewrite <- app_assoc.
  rewrite (get_bind _ _ _ _ _ (get64_put _ _)), u_of_u by lia. unfold copy_array.
  assert (length (l ≫= image) = size * length l)%nat as Hlen.
  { clear Hn H. induction l as [|x l IH]; [cbn; lia|]. cbn [mbind list_bind length]. rewrite length_app.
    destruct (Himg x) as [-> _]; [by left|]. rewrite IH; [lia|]. intros y Hy. apply Himg. by right. }
  assert (zlength ((l ≫= image) ++ tl) <? Z.of_nat size * zlength l = false) as ->.
  { apply Z.ltb_ge. unfold zlength. rewrite length_app, Hlen. lia. }
  unfold zlength. rewrite Nat2Z.id. f_equal; [|by apply drop_app_length'].
  f_equal. apply list_eq_same_length with (length l); [done|by rewrite length_fmap, length_seq|].
  intros i x y Hi Hx Hy. rewrite list_lookup_fmap, lookup_seq_lt in Hx by done. injection Hx as <-. cbn [Nat.add].
  assert (field (size * i) size ((l ≫= image) ++ tl) = image y) as ->; [|apply Himg; by eapply list_elem_of_lookup_2].
  clear Hn H Hlen. revert i Hi Hy. induction l as [|z l IH]; intros i Hi Hy; [done|]. cbn [mbind list_bind].
  destruct (Himg z) as [Hz _]; [by left|]. rewrite <- app_assoc. destruct i as [|i].
  - injection Hy as ->. rewrite Nat.mul_0_r. by apply field_0.
  - rewrite field_app by lia. replace (size * S i - length (image z))%nat with (size * i)%nat by lia.
    apply IH; [intros w Hw; apply Himg; by right|cbn in Hi; lia|done].
Qed.
