(* ===== verification/ColType.v ===== *)
(** * Column types ([dbcon/execplan/calpontsystemcatalog.h])

    The types a column can have, as far as the block resolution manager looks at
    them: which are unsigned and which are compared as strings. *)

From S2P Require Import Prelude.

(** [CalpontSystemCatalog::ColDataType] *)
Inductive ColDataType :=
  | BIT | TINYINT | CHAR | SMALLINT | DECIMAL | MEDINT | INT | FLOAT | DATE | BIGINT | DOUBLE
  | DATETIME | VARCHAR | VARBINARY | CLOB | BLOB | UTINYINT | USMALLINT | UDECIMAL | UMEDINT | UINT
  | UFLOAT | UBIGINT | UDOUBLE | NUM_OF_COL_DATA_TYPE | LONGDOUBLE | STRINT.

Definition isUnsigned (t : ColDataType) : bool :=
  match t with
  | UTINYINT | USMALLINT | UMEDINT | UINT | UBIGINT => true
  | _ => false
  end.

(** [isCharType] *)
Definition isCharType (t : ColDataType) : bool :=
  match t with VARCHAR | CHAR => true | _ => false end.
