(* ===== verification/Hasher.v ===== *)
(** * The hash functions of [utils/common/hasher.h]

    [Hasher], [Hasher_r] and [Hasher128] are the Murmur3 variants the version
    tables, the joins and the aggregations share.  Bytes are integers in
    [0, 256); every arithmetic step is truncated to the width of its C++
    operand.  The theorems: results stay within their width (so that the bucket
    index of the hash tables is in range), and the re-entrant [Hasher_r] followed
    by [finalize] is [Hasher]. *)

From S2P Require Import Prelude.

Definition rotl32 (x r : Z) : Z :=
  Z.lor (u32 (Z.shiftl x r)) (Z.shiftr x (32 - r)).

Definition rotl64 (x r : Z) : Z :=
  Z.lor (u64 (Z.shiftl x r)) (Z.shiftr x (64 - r)).

Definition fmix32 (h : Z) : Z :=
  let h := Z.lxor h (Z.shiftr h 16) in
  let h := u32 (h * 0x85ebca6b) in
  let h := Z.lxor h (Z.shiftr h 13) in
  let h := u32 (h * 0xc2b2ae35) in
  Z.lxor h (Z.shiftr h 16).

Definition fmix64 (k : Z) : Z :=
  let k := Z.lxor k (Z.shiftr k 33) in
  let k := u64 (k * 0xff51afd7ed558ccd) in
  let k := Z.lxor k (Z.shiftr k 33) in
  let k := u64 (k * 0xc4ceb9fe1a85ec53) in
  Z.lxor k (Z.shiftr k 33).

(** ** [Hasher] and [Hasher_r]: Murmur3, 32 bits *)

Definition c1_32 : Z := 0xcc9e2d51.
Definition c2_32 : Z := 0x1b873593.

(** The mixing of one word into [k1], shared by the body and the tail. *)
Definition mix_k1 (k1 : Z) : Z :=
  u32 (rotl32 (u32 (k1 * c1_32)) 15 * c2_32).

(** One iteration of the body loop: the word [k1 = blocks[i]]. *)
Definition body_step (h1 k1 : Z) : Z :=
  u32 (rotl32 (Z.lxor h1 (mix_k1 k1)) 13 * 5 + 0xe6546b64).

(** The body loop over the 4-byte blocks; what is left is the tail. *)
Fixpoint body_loop (h1 : Z) (data : list Z) : Z * list Z :=
  match data with
  | b0 :: b1 :: b2 :: b3 :: rest =>
      body_loop (body_step h1 (le_value [b0; b1; b2; b3])) rest
  | _ => (h1, data)
  end.

(** The fall-through [switch (len & 3)] on the tail bytes. *)
Definition tail_step (h1 : Z) (tail : list Z) : Z :=
  match tail with
  | [t0; t1; t2] =>
      Z.lxor h1 (mix_k1 (Z.lxor (Z.lxor (Z.shiftl t2 16) (Z.shiftl t1 8)) t0))
  | [t0; t1] => Z.lxor h1 (mix_k1 (Z.lxor (Z.shiftl t1 8) t0))
  | [t0] => Z.lxor h1 (mix_k1 t0)
  | _ => h1
  end.

(** [Hasher_r::operator()(data, len, seed)], with [len] the length of [data]. *)
Definition Hasher_r (data : list Z) (seed : Z) : Z :=
  let '(h1, tail) := body_loop seed data in tail_step h1 tail.

(** [Hasher_r::finalize(seed, len)]; [len] is a [uint32_t] parameter. *)
Definition finalize (seed len : Z) : Z := fmix32 (Z.lxor seed (u32 len)).

(** [Hasher::operator()(data, len)]: [h1 ^= len] truncates the 64-bit length. *)
Definition Hasher (data : list Z) : Z :=
  let '(h1, tail) := body_loop 0 data in
  let h1 := tail_step h1 tail in
  fmix32 (u32 (Z.lxor h1 (zlength data))).

(** ** [Hasher128]: Murmur3 x64-128, of which the first word is returned *)

Definition c1_64 : Z := 0x87c37b91114253d5.
Definition c2_64 : Z := 0x4cf5ad432745937f.

Definition mix128_k1 (k1 : Z) : Z := u64 (rotl64 (u64 (k1 * c1_64)) 31 * c2_64).
Definition mix128_k2 (k2 : Z) : Z := u64 (rotl64 (u64 (k2 * c2_64)) 33 * c1_64).

Definition body128_step (h : Z * Z) (k1 k2 : Z) : Z * Z :=
  let '(h1, h2) := h in
  let h1 := Z.lxor h1 (mix128_k1 k1) in
  let h1 := u64 (rotl64 h1 27 + h2) in
  let h1 := u64 (h1 * 5 + 0x52dce729) in
  let h2 := Z.lxor h2 (mix128_k2 k2) in
  let h2 := u64 (rotl64 h2 31 + h1) in
  let h2 := u64 (h2 * 5 + 0x38495ab5) in
  (h1, h2).

(** [n] 16-byte blocks of [data], and the bytes that are left. *)
Fixpoint body128_loop (n : nat) (h : Z * Z) (data : list Z) : (Z * Z) * list Z :=
  match n with
  | O => (h, data)
  | S n' =>
      body128_loop n'
        (body128_step h (le_value (take 8 data)) (le_value (take 8 (drop 8 data))))
        (drop 16 data)
  end.

(** The tail: bytes 8..14 go to [k2], bytes 0..7 to [k1], when present. *)
Definition tail128_step (h : Z * Z) (tail : list Z) : Z * Z :=
  let '(h1, h2) := h in
  let k1 := le_value (take 8 tail) in
  let k2 := le_value (drop 8 tail) in
  let h2 := if (8 <? zlength tail) then Z.lxor h2 (mix128_k2 k2) else h2 in
  let h1 := if (0 <? zlength tail) then Z.lxor h1 (mix128_k1 k1) else h1 in
  (h1, h2).

Definition Hasher128 (data : list Z) : Z :=
  let len := u64 (zlength data) in
  let '(h, tail) := body128_loop (length data / 16) (0, 0) data in
  let '(h1, h2) := tail128_step h tail in
  let h1 := Z.lxor h1 len in
  let h2 := Z.lxor h2 len in
  let h1 := u64 (h1 + h2) in
  let h2 := u64 (h2 + h1) in
  let h1 := fmix64 h1 in
  let h2 := fmix64 h2 in
  u64 (h1 + h2).

(** ** Reference vectors of the published algorithm *)

Example hasher_empty : Hasher [] = 0.
Proof. reflexivity. Qed.

(** "hello" and "test" *)
Example hasher_hello : Hasher [104; 101; 108; 108; 111] = 0x248bfa47.
Proof. reflexivity. Qed.

Example hasher_test : Hasher [116; 101; 115; 116] = 0xba6bd213.
Proof. reflexivity. Qed.

Example hasher128_hello : Hasher128 [104; 101; 108; 108; 111] = 0xcbd8a7b341bd9b02.
Proof. reflexivity. Qed.

(** ** Widths *)

Lemma rotl32_bound x r : 0 ≤ r ≤ 32 → 0 ≤ x < 2 ^ 32 → 0 ≤ rotl32 x r < 2 ^ 32.
Proof.
  intros. unfold rotl32.
  apply lor_bound; [lia|by apply wrap_u_bound|by apply shiftr_bound; [lia|]].
Qed.

Lemma mix_k1_bound k : 0 ≤ mix_k1 k < 2 ^ 32.
Proof. by apply wrap_u_bound. Qed.

Lemma body_step_bound h k : 0 ≤ body_step h k < 2 ^ 32.
Proof. by apply wrap_u_bound. Qed.

Lemma fmix32_bound h : 0 ≤ fmix32 h < 2 ^ 32.
Proof.
  unfold fmix32. apply lxor_bound; [lia|by apply wrap_u_bound|].
  apply shiftr_bound; [lia|]. by apply wrap_u_bound.
Qed.

(** The body loop works in steps of four bytes. *)
Lemma quad_ind (P : list Z → Prop) :
  (∀ l, (length l < 4)%nat → P l) →
  (∀ a b c d l, P l → P (a :: b :: c :: d :: l)) →
  ∀ l, P l.
Proof.
  intros Hs Hq. fix IH 1. intros l.
  destruct l as [|a [|b [|c [|d l]]]]; [apply Hs; simpl; lia..|].
  apply Hq, IH.
Qed.

Lemma body_loop_bound h data :
  0 ≤ h < 2 ^ 32 → 0 ≤ (body_loop h data).1 < 2 ^ 32.
Proof.
  revert h. induction data as [l Hl|a b c d l IH] using quad_ind; intros h Hh.
  - destruct l as [|? [|? [|? [|? ?]]]]; simpl in Hl; [done..|lia].
  - apply IH, body_step_bound.
Qed.

Lemma tail_step_bound h t : 0 ≤ h < 2 ^ 32 → 0 ≤ tail_step h t < 2 ^ 32.
Proof.
  intros Hh. unfold tail_step.
  destruct t as [|? [|? [|? [|? ?]]]]; [done| | | |done];
    (apply lxor_bound; [lia|done|apply mix_k1_bound]).
Qed.

Lemma Hasher_r_bound data seed : 0 ≤ seed < 2 ^ 32 → 0 ≤ Hasher_r data seed < 2 ^ 32.
Proof.
  intros Hs. unfold Hasher_r. pose proof (body_loop_bound seed data Hs) as Hb.
  destruct (body_loop seed data) as [h t]. by apply tail_step_bound.
Qed.

Lemma Hasher_bound data : 0 ≤ Hasher data < 2 ^ 32.
Proof.
  unfold Hasher. destruct (body_loop 0 data). apply fmix32_bound.
Qed.

Lemma Hasher_nonneg data : 0 ≤ Hasher data.
Proof. apply Hasher_bound. Qed.
#[export] Hint Resolve Hasher_nonneg Hasher_bound : brm.

(** ** The re-entrant hasher *)

Lemma body_loop_app h d1 d2 :
  (length d1 mod 4 = 0)%nat →
  body_loop h (d1 ++ d2) = body_loop (body_loop h d1).1 d2 ∧ (body_loop h d1).2 = [].
Proof.
  revert h. induction d1 as [l Hl|a b c d l IH] using quad_ind; intros h Hm.
  - destruct l as [|? [|? [|? [|? ?]]]]; simpl in *; [done|lia..].
  - cbn [body_loop app]. apply IH.
    replace (length (a :: b :: c :: d :: l)) with (length l + 1 * 4)%nat in Hm
      by (simpl; lia).
    by rewrite Nat.Div0.mod_add in Hm.
Qed.

Lemma Hasher_r_app d1 d2 seed :
  (length d1 mod 4 = 0)%nat →
  Hasher_r (d1 ++ d2) seed = Hasher_r d2 (Hasher_r d1 seed).
Proof.
  intros Hm. destruct (body_loop_app seed d1 d2 Hm) as [Happ Htl].
  unfold Hasher_r. rewrite Happ.
  destruct (body_loop seed d1) as [h1 t1]; simpl in *. by subst.
Qed.

Lemma Hasher_finalize data :
  Hasher data = finalize (Hasher_r data 0) (zlength data).
Proof.
  unfold Hasher, finalize, Hasher_r.
  pose proof (body_loop_bound 0 data ltac:(lia)) as Hb.
  destruct (body_loop 0 data) as [h t]. simpl in Hb.
  rewrite wrap_u_lxor; [done|lia|by apply tail_step_bound].
Qed.

(** Hashing in pieces: [Hasher_r] over the parts, then [finalize] with the total
    length, is [Hasher] of the whole, provided the first part is whole words. *)
Theorem incremental_hash d1 d2 :
  (length d1 mod 4 = 0)%nat →
  Hasher (d1 ++ d2) =
    finalize (Hasher_r d2 (Hasher_r d1 0)) (zlength (d1 ++ d2)).
Proof. intros. by rewrite Hasher_finalize, Hasher_r_app. Qed.
