(* ===== verification/HashChain.v ===== *)
(** * Hash chains in shared memory

    The version tables (VSS and VBBM) are arrays of entries threaded into
    singly linked lists by an index field [next]; [-1] ends a list and an [lbid]
    of [-1] marks an empty slot.  This file has the loop that walks such a list
    and the theory of well-formed chains: what a walk computes, and that linking,
    unlinking and in-place updates keep the chains well formed. *)

From S2P Require Import Prelude.

(** An entry of a chained table, with the two fields the chains need. *)
Class ChainNode (E : Type) := {
  n_lbid : E → Z;
  n_next : E → Z;
  set_n_lbid : Z → E → E;
  set_n_next : Z → E → E;
}.

Class ChainNodeLaws (E : Type) `{ChainNode E} := {
  n_lbid_set_lbid z e : n_lbid (set_n_lbid z e) = z;
  n_next_set_lbid z e : n_next (set_n_lbid z e) = n_next e;
  n_lbid_set_next z e : n_lbid (set_n_next z e) = n_lbid e;
  n_next_set_next z e : n_next (set_n_next z e) = z;
  set_next_set_next y z e : set_n_next y (set_n_next z e) = set_n_next y e;
}.

Definition usedb {E} `{ChainNode E} (e : E) : bool := negb (n_lbid e =? -1).
Definition used {E} `{ChainNode E} (e : E) : Prop := n_lbid e ≠ -1.

(** [while (i != -1) { e = &storage[i]; body; i = e->next; }]
    The body updates the loop's variables ([inl]) or returns ([inr]). *)
Fixpoint walk {E A R} `{ChainNode E} (fuel : nat) (stor : list E)
    (body : Z → E → A → A + R) (i : Z) (a : A) : outcome (A + R) :=
  if i =? -1 then Ret (inl a)
  else match fuel with
       | O => Exn OutOfFuel
       | S fuel' =>
           match stor.[i] with
           | None => Exn Segfault
           | Some e =>
               match body i e a with
               | inl a' => walk fuel' stor body (n_next e) a'
               | inr r => Ret (inr r)
               end
           end
       end.

(** The body of [getIndex]: stop at the first entry that passes [p], keeping
    the index visited before it. *)
Definition find_body {E} (p : E → bool) (i : Z) (e : E) (prev : Z) : Z + (Z * Z) :=
  if p e then inr (i, prev) else inl i.

(** [while (storage[i].lbid != -1) i++]: no bound is checked, so running past
    the array is a fault. *)
Fixpoint find_empty {E} `{ChainNode E} (fuel : nat) (stor : list E) (i : Z) : outcome Z :=
  match stor.[i] with
  | None => Exn Segfault
  | Some e =>
      if n_lbid e =? -1 then Ret i
      else match fuel with
           | O => Exn OutOfFuel
           | S fuel' => find_empty fuel' stor (i + 1)
           end
  end.

(** [storage[i].lbid = -1] and the repair of the predecessor's link, or of the
    bucket when there is no predecessor. *)
Definition unlink {E} `{ChainNode E} (bk : list Z) (st : list E) (b prev i : Z)
    (e : E) : option (list Z * list E) :=
  let st1 := st.[i <- set_n_lbid (-1) e] in
  if prev =? -1 then Some (bk.[b <- n_next e], st1)
  else match st1.[prev] with
       | Some ep => Some (bk, st1.[prev <- set_n_next (n_next e) ep])
       | None => None
       end.

(** ** Chains *)

Section Chains.
Context {E : Type} `{CN : ChainNode E} `{!ChainNodeLaws E}.
Implicit Types (st : list E) (e : E) (l : list Z) (bk : list Z).

(** [chain st h l]: following [next] from [h] visits the indices [l]. *)
Inductive chain st : Z → list Z → Prop :=
  | chain_nil : chain st (-1) []
  | chain_cons i e l :
      st.[i] = Some e → chain st (n_next e) l → chain st i (i :: l).

(** What a walk over the indices [l] computes. *)
Fixpoint fold_exit {A R} st (body : Z → E → A → A + R) l (a : A) : A + R :=
  match l with
  | [] => inl a
  | i :: l' =>
      match st.[i] with
      | None => inl a
      | Some e => match body i e a with
                  | inl a' => fold_exit st body l' a'
                  | inr r => inr r
                  end
      end
  end.

Lemma usedb_true e : usedb e = true ↔ used e.
Proof. unfold usedb, used. rewrite negb_true_iff. apply Z.eqb_neq. Qed.

Lemma usedb_false e : usedb e = false ↔ n_lbid e = -1.
Proof. unfold usedb. rewrite negb_false_iff. apply Z.eqb_eq. Qed.

Lemma chain_head st h l : chain st h l → h = default (-1) (head l).
Proof. by destruct 1. Qed.

Lemma chain_range st h l i : chain st h l → i ∈ l → is_Some (st.[i]).
Proof.
  induction 1 as [|j e l Hj Hc IH]; [by rewrite elem_of_nil|].
  rewrite elem_of_cons. intros [->|?]; eauto.
Qed.

Lemma chain_det st h l l' : chain st h l → chain st h l' → l = l'.
Proof.
  intros Hc. revert l'. induction Hc as [|i e l Hi Hc IH]; intros l' Hc'.
  - inversion Hc' as [|? ? ? Hj]; [done|]. apply zget_range in Hj. lia.
  - inversion Hc' as [|? e' l2 Hj Hc2]; subst.
    + apply zget_range in Hi. lia.
    + simplify_eq. f_equal. by apply IH.
Qed.

Lemma NoDup_range_length (l : list Z) (n : Z) :
  NoDup l → (∀ i, i ∈ l → 0 ≤ i < n) → (length l ≤ Z.to_nat n)%nat.
Proof.
  intros Hnd Hr.
  assert (NoDup (Z.to_nat <$> l)) as Hnd'.
  { apply NoDup_fmap_2_strong; [|done]. intros x y Hx Hy Heq.
    apply Hr in Hx, Hy. lia. }
  rewrite <- (length_fmap Z.to_nat), <- (length_seq (Z.to_nat n) 0).
  apply NoDup_incl_length; [by apply NoDup_ListNoDup|].
  intros k Hk. rewrite <- list_elem_of_In in Hk |- *.
  apply list_elem_of_fmap in Hk as (z & -> & Hz). apply Hr in Hz.
  apply elem_of_seq. lia.
Qed.

Lemma chain_length st h l :
  chain st h l → NoDup l → (length l ≤ length st)%nat.
Proof.
  intros Hc Hnd. etransitivity.
  - apply (NoDup_range_length l (zlength st)); [done|].
    intros i Hi. destruct (chain_range _ _ _ _ Hc Hi) as [e He].
    by apply zget_range in He.
  - unfold zlength. lia.
Qed.

Lemma walk_chain {A R} st (body : Z → E → A → A + R) h l a fuel :
  chain st h l → (length l ≤ fuel)%nat →
  walk fuel st body h a = Ret (fold_exit st body l a).
Proof.
  intros Hc. revert a fuel. induction Hc as [|i e l Hi Hc IH]; intros a fuel Hf.
  - by destruct fuel.
  - destruct fuel as [|fuel]; [simpl in Hf; lia|]. simpl.
    assert (i =? -1 = false) as ->.
    { apply Z.eqb_neq. apply zget_range in Hi. lia. }
    rewrite Hi. destruct (body i e a); [|done]. apply IH. simpl in Hf. lia.
Qed.

Lemma chain_frame st st' h l :
  (∀ i e, i ∈ l → st.[i] = Some e →
     ∃ e', st'.[i] = Some e' ∧ n_next e' = n_next e) →
  chain st h l → chain st' h l.
Proof.
  intros Hf Hc. induction Hc as [|i e l Hi Hc IH]; [constructor|].
  destruct (Hf i e ltac:(set_solver) Hi) as (e' & He' & Hn).
  econstructor; [done|]. rewrite Hn. apply IH. intros j ej Hj. apply Hf. set_solver.
Qed.

Lemma chain_zset st h l i e e' :
  st.[i] = Some e → (i ∈ l → n_next e' = n_next e) →
  chain st h l → chain (st.[i <- e']) h l.
Proof.
  intros Hi Hn. apply chain_frame. intros j ej Hj Hej.
  rewrite (zget_zset _ _ _ _ _ Hi). case_decide; simplify_eq; eauto.
Qed.

Lemma chain_app_inv st h l1 i l2 : chain st h (l1 ++ i :: l2) → chain st i (i :: l2).
Proof.
  revert h. induction l1 as [|j l1 IH]; intros h Hc; simpl in Hc.
  - pose proof (chain_head _ _ _ Hc). simpl in *. by subst.
  - inversion Hc; subst. eauto.
Qed.

Lemma chain_drop_head st h i e l : chain st h (i :: l) → st.[i] = Some e →
  h = i ∧ chain st (n_next e) l.
Proof. intros Hc Hi. inversion Hc; subst. by simplify_eq. Qed.

Lemma chain_suffix st h l1 l2 : chain st h (l1 ++ l2) → chain st (default (-1) (head l2)) l2.
Proof.
  revert h. induction l1 as [|j l1 IH]; intros h Hc; simpl in Hc.
  - pose proof (chain_head _ _ _ Hc) as Hh. by rewrite Hh in Hc.
  - inversion Hc; subst. eauto.
Qed.

Lemma chain_next st h l1 i l2 e :
  chain st h (l1 ++ i :: l2) → st.[i] = Some e → n_next e = default (-1) (head l2).
Proof.
  intros Hc Hi. apply chain_suffix in Hc. simpl in Hc.
  apply chain_drop_head with (e := e) in Hc as [_ Hc]; [|done]. by apply chain_head in Hc.
Qed.

(** Skipping the node after [p]. *)
Lemma chain_skip st h l1 p i l2 ep ei :
  chain st h (l1 ++ p :: i :: l2) → NoDup (l1 ++ p :: i :: l2) →
  st.[p] = Some ep → st.[i] = Some ei →
  chain (st.[p <- set_n_next (n_next ei) ep]) h (l1 ++ p :: l2).
Proof.
  intros Hc Hnd Hp Hi. revert h Hc. induction l1 as [|j l1 IH]; intros h Hc; simpl in *.
  - apply chain_drop_head with (e := ep) in Hc as [-> Hc]; [|done].
    apply chain_drop_head with (e := ei) in Hc as [_ Hc]; [|done].
    econstructor.
    + rewrite (zget_zset _ _ _ _ _ Hp). by case_decide.
    + rewrite n_next_set_next. apply (chain_zset _ _ _ _ ep); [done| |done].
      intros Hin. apply NoDup_cons in Hnd as [Hnd _]. set_solver.
  - inversion Hc as [|? e ? Hj Hc']; subst. apply NoDup_cons in Hnd as [Hnj Hnd].
    econstructor; [|by apply IH].
    rewrite zget_zset_ne; [done|]. set_solver.
Qed.

(** ** Well-formed tables

    The chain of bucket [b] visits, without repetition, exactly the used
    entries whose hash is [b]. *)
Definition bucket_ok (hash : E → Z) st (b : Z) l : Prop :=
  NoDup l ∧ ∀ i, i ∈ l ↔ ∃ e, st.[i] = Some e ∧ used e ∧ hash e = b.

Definition hs_wf (hash : E → Z) bk st : Prop :=
  ∀ b h, bk.[b] = Some h → ∃ l, chain st h l ∧ bucket_ok hash st b l.

(** The hash looks at neither link. *)
Definition hash_stable (hash : E → Z) : Prop :=
  ∀ z e, hash (set_n_next z e) = hash e.

Lemma bucket_ok_ne hash st b l i e0 e' :
  bucket_ok hash st b l → st.[i] = Some e0 →
  (¬ used e0 ∨ hash e0 ≠ b) → (¬ used e' ∨ hash e' ≠ b) →
  bucket_ok hash (st.[i <- e']) b l ∧ i ∉ l.
Proof.
  intros [Hnd Hl] Hi H0 H'.
  assert (i ∉ l) as Hni.
  { rewrite Hl. intros (e & ? & ? & ?). simplify_eq. naive_solver. }
  split; [|done]. split; [done|]. intros j. rewrite Hl.
  setoid_rewrite (zget_zset _ _ _ _ _ Hi). case_decide; naive_solver.
Qed.

(** In-place update of an entry that keeps its link and its key. *)
Lemma hs_wf_update hash bk st i e e' :
  hs_wf hash bk st → st.[i] = Some e →
  n_next e' = n_next e → (used e' ↔ used e) → hash e' = hash e →
  hs_wf hash bk (st.[i <- e']).
Proof.
  intros Hwf Hi Hn Hu Hh b h Hb. destruct (Hwf b h Hb) as (l & Hc & Hnd & Hl).
  exists l. split; [by apply (chain_zset _ _ _ _ e)|]. split; [done|].
  intros j. rewrite Hl. setoid_rewrite (zget_zset _ _ _ _ _ Hi).
  case_decide; naive_solver.
Qed.

(** Linking a new entry at the head of its bucket. *)
Lemma hs_wf_link hash bk st b h i e0 e :
  hs_wf hash bk st → hash_stable hash → bk.[b] = Some h →
  st.[i] = Some e0 → ¬ used e0 → used e → hash e = b →
  hs_wf hash (bk.[b <- i]) (st.[i <- set_n_next h e]).
Proof.
  intros Hwf Hst Hb Hi H0 Hu Hh b' h' Hb'.
  assert (used (set_n_next h e)) as Hu' by (unfold used; by rewrite n_lbid_set_next).
  rewrite (zget_zset _ _ _ _ _ Hb) in Hb'. case_decide as Hd.
  - subst b'. simplify_eq. destruct (Hwf _ h Hb) as (l & Hc & Hnd & Hl).
    assert (h' ∉ l) as Hni by (rewrite Hl; naive_solver).
    exists (h' :: l). split; [|split].
    + econstructor; [rewrite (zget_zset _ _ _ _ _ Hi); by case_decide|].
      rewrite n_next_set_next. by apply (chain_zset _ _ _ _ e0).
    + by constructor.
    + intros j. rewrite elem_of_cons, Hl. setoid_rewrite (zget_zset _ _ _ _ _ Hi).
      case_decide; [|naive_solver]. subst. rewrite <- (Hst h e). naive_solver.
  - destruct (Hwf b' h' Hb') as (l & Hc & Hok).
    destruct (bucket_ok_ne hash st b' l i e0 (set_n_next h e)) as [Hok' Hni]; auto.
    { right. by rewrite Hst, Hh. }
    exists l. split; [|done]. by apply (chain_zset _ _ _ _ e0).
Qed.

Definition prev_of (l : list Z) : Z := default (-1) (last l).

(** What a table stores, its links left out. *)
Definition node_body e : E := set_n_next 0 e.
Definition content st : list E := node_body <$> st.

Lemma node_body_next z e : node_body (set_n_next z e) = node_body e.
Proof. apply set_next_set_next. Qed.

Lemma node_body_lbid e : n_lbid (node_body e) = n_lbid e.
Proof. apply n_lbid_set_next. Qed.

Lemma used_body e e' : node_body e = node_body e' → used e → used e'.
Proof. intros Hb. unfold used. by rewrite <- node_body_lbid, Hb, node_body_lbid. Qed.

Lemma content_zset st i e : content (st.[i <- e]) = (content st).[i <- node_body e].
Proof. unfold content, zset. case_if; [done|]. apply list_fmap_insert. Qed.

Lemma content_zget st i : (content st).[i] = node_body <$> st.[i].
Proof. unfold content, zget. case_if; [done|]. apply list_lookup_fmap. Qed.

Lemma zlength_content st : zlength (content st) = zlength st.
Proof. unfold zlength, content. by rewrite length_fmap. Qed.

Lemma content_zset_next st i e z :
  st.[i] = Some e → content (st.[i <- set_n_next z e]) = content st.
Proof.
  intros Hi. rewrite content_zset, node_body_next. apply zset_id.
  by rewrite content_zget, Hi.
Qed.

Lemma prev_of_nil : prev_of [] = -1.
Proof. done. Qed.

Lemma prev_of_snoc l p : prev_of (l ++ [p]) = p.
Proof. unfold prev_of. by rewrite last_snoc. Qed.

(** The other buckets do not see the unlinking of [i] from bucket [b]. *)
Lemma bucket_unlink_other hash st b b' h' l' i e p ep n :
  hash_stable hash → b' ≠ b →
  chain st h' l' → bucket_ok hash st b' l' →
  st.[i] = Some e → used e → hash e = b →
  (st.[i <- set_n_lbid (-1) e]).[p] = Some ep → used ep → hash ep = b →
  let st' := (st.[i <- set_n_lbid (-1) e]).[p <- set_n_next n ep] in
  chain st' h' l' ∧ bucket_ok hash st' b' l'.
Proof.
  intros Hst Hne Hc Hok Hi Hu Hh Hp Hup Hhp st'.
  destruct (bucket_ok_ne hash st b' l' i e (set_n_lbid (-1) e)) as [Hok1 Hni]; auto.
  { right. congruence. }
  { left. unfold used. rewrite n_lbid_set_lbid. lia. }
  destruct (bucket_ok_ne hash (st.[i <- set_n_lbid (-1) e]) b' l' p ep (set_n_next n ep))
    as [Hok2 Hnp]; auto.
  { right. congruence. }
  { right. rewrite Hst. congruence. }
  split; [|done]. apply (chain_zset _ _ _ _ ep); [done|done|].
  by apply (chain_zset _ _ _ _ e).
Qed.

Lemma bucket_ok_drop hash st b l1 i l2 e :
  bucket_ok hash st b (l1 ++ i :: l2) → st.[i] = Some e →
  bucket_ok hash (st.[i <- set_n_lbid (-1) e]) b (l1 ++ l2).
Proof.
  intros [Hnd Hl] Hi.
  assert (i ∉ l1 ++ l2) as Hni.
  { apply NoDup_app in Hnd as (? & ? & [? ?]%NoDup_cons). set_solver. }
  split.
  - apply NoDup_app in Hnd as (? & Hd & [? ?]%NoDup_cons).
    apply NoDup_app. split; [done|]. split; [set_solver|done].
  - intros j. setoid_rewrite (zget_zset _ _ _ _ _ Hi). case_decide as Hd.
    + subst. split; [done|]. intros (e' & ? & Hu & _). simplify_eq.
      unfold used in Hu. by rewrite n_lbid_set_lbid in Hu.
    + rewrite <- Hl. set_solver.
Qed.

Lemma used_set_next z e : used (set_n_next z e) ↔ used e.
Proof. unfold used. by rewrite n_lbid_set_next. Qed.

Lemma bucket_ok_next hash st b l p ep n :
  hash_stable hash → bucket_ok hash st b l → st.[p] = Some ep →
  bucket_ok hash (st.[p <- set_n_next n ep]) b l.
Proof.
  intros Hst [Hnd Hl] Hp. split; [done|]. intros j. rewrite Hl.
  setoid_rewrite (zget_zset _ _ _ _ _ Hp). case_decide; [|done]. subst.
  split; intros (e & ? & ? & ?); simplify_eq; eexists; split; eauto;
    revert select (used _); rewrite used_set_next, ?Hst; eauto.
Qed.

(** Unlinking the node [i] found in bucket [b] after the prefix [l1]: the
    table stays well formed, bucket [b] loses [i] and nothing else changes. *)
Lemma hs_wf_unlink hash bk st b h l1 i l2 e :
  hs_wf hash bk st → hash_stable hash → bk.[b] = Some h →
  chain st h (l1 ++ i :: l2) → st.[i] = Some e →
  ∃ bk' st' h',
    unlink bk st b (prev_of l1) i e = Some (bk', st') ∧
    hs_wf hash bk' st' ∧ bk'.[b] = Some h' ∧ chain st' h' (l1 ++ l2) ∧
    zlength bk' = zlength bk ∧
    content st' = (content st).[i <- node_body (set_n_lbid (-1) e)] ∧
    st'.[i] = Some (set_n_lbid (-1) e).
Proof.
  intros Hwf Hst Hb Hc Hi.
  destruct (Hwf b h Hb) as (l & Hc' & Hok).
  rewrite (chain_det _ _ _ _ Hc' Hc) in Hok. clear l Hc'.
  assert (used e ∧ hash e = b) as [Hu Hh].
  { destruct Hok as [_ Hl]. destruct (proj1 (Hl i)) as (e' & ? & ? & ?); [set_solver|].
    by simplify_eq. }
  set (st1 := st.[i <- set_n_lbid (-1) e]).
  assert (bucket_ok hash st1 b (l1 ++ l2)) as Hok1 by by apply bucket_ok_drop.
  assert (chain st1 h (l1 ++ i :: l2)) as Hc1.
  { apply (chain_zset _ _ _ _ e); [done| |done]. intros _. by rewrite n_next_set_lbid. }
  assert (st1.[i] = Some (set_n_lbid (-1) e)) as Hi1.
  { unfold st1. rewrite (zget_zset _ _ _ _ _ Hi). by case_decide. }
  unfold unlink. fold st1.
  destruct l1 as [|p l1' _] using rev_ind.
  - rewrite prev_of_nil. simpl in *.
    assert (chain st1 (n_next e) l2) as Hc2.
    { rewrite <- (n_next_set_lbid (-1) e). by eapply chain_drop_head in Hc1 as [_ ?]. }
    eexists _, _, (n_next e). split; [done|]. split.
    { intros b' h' Hb'. rewrite (zget_zset _ _ _ _ _ Hb) in Hb'. case_decide.
      - subst b'. simplify_eq. by exists l2.
      - destruct (Hwf b' h' Hb') as (l' & Hcl & Hokl). exists l'.
        destruct (bucket_ok_ne hash st b' l' i e (set_n_lbid (-1) e)) as [Hok2 Hni]; auto.
        { right. congruence. }
        { left. unfold used. rewrite n_lbid_set_lbid. lia. }
        split; [|done]. by apply (chain_zset _ _ _ _ e). }
    split; [rewrite (zget_zset _ _ _ _ _ Hb); by case_decide|].
    split; [done|]. split; [apply zlength_zset|]. split; [apply content_zset|done].
  - rewrite prev_of_snoc. rewrite <- app_assoc in *. simpl in *.
    assert (NoDup (l1' ++ p :: i :: l2)) as Hnd by by destruct Hok.
    assert (p ≠ i) as Hpi.
    { apply NoDup_app in Hnd as (_ & _ & [? _]%NoDup_cons). set_solver. }
    destruct (proj1 (proj2 Hok p)) as (ep & Hp & Hup & Hhp); [set_solver|].
    assert (st1.[p] = Some ep) as Hp1 by (unfold st1; by rewrite zget_zset_ne).
    rewrite Hp1. assert (p =? -1 = false) as ->.
    { apply Z.eqb_neq. apply zget_range in Hp. lia. }
    eexists _, _, h. split; [done|]. split.
    { intros b' h' Hb'. destruct (decide (b' = b)) as [->|Hne].
      - simplify_eq. exists (l1' ++ p :: l2). split.
        + rewrite <- (n_next_set_lbid (-1) e). by eapply chain_skip.
        + by apply bucket_ok_next.
      - destruct (Hwf b' h' Hb') as (l' & Hcl & Hokl). exists l'.
        by apply (bucket_unlink_other hash st b b' h' l' i e p ep). }
    split; [done|]. split.
    { rewrite <- (n_next_set_lbid (-1) e). by eapply chain_skip. }
    split; [done|]. split.
    { rewrite content_zset_next by done. apply content_zset. }
    by rewrite zget_zset_ne.
Qed.

Lemma bucket_used hash bk st b h l i e :
  hs_wf hash bk st → bk.[b] = Some h → chain st h l → i ∈ l → st.[i] = Some e →
  used e ∧ hash e = b.
Proof.
  intros Hwf Hb Hc Hi He. destruct (Hwf b h Hb) as (l' & Hc' & _ & Hl).
  rewrite (chain_det _ _ _ _ Hc Hc') in Hi. apply Hl in Hi as (e' & ? & ? & ?). by simplify_eq.
Qed.

Lemma bucket_complete hash bk st b h l i e :
  hs_wf hash bk st → bk.[b] = Some h → chain st h l →
  st.[i] = Some e → used e → hash e = b → i ∈ l.
Proof.
  intros Hwf Hb Hc Hi Hu Hh. destruct (Hwf b h Hb) as (l' & Hc' & _ & Hl).
  rewrite (chain_det _ _ _ _ Hc Hc'). apply Hl. eauto.
Qed.

Lemma content_slot st st' i e0 j e' :
  content st' = (content st).[i <- e0] → j ≠ i → st'.[j] = Some e' →
  ∃ e, st.[j] = Some e ∧ node_body e = node_body e'.
Proof.
  intros Hcon Hne Hj. assert ((content st').[j] = Some (node_body e')) as Hc by by rewrite content_zget, Hj.
  rewrite Hcon, zget_zset_ne, content_zget in Hc by done.
  destruct (st.[j]) as [e|]; [|done]. exists e. by simplify_eq/=.
Qed.

(** ** Looking for an empty slot *)

(** When all slots below [i] are used and some slot is empty, the scan stops at
    the first empty slot. *)
Lemma find_empty_spec st fuel i :
  0 ≤ i → (zlength st - i ≤ Z.of_nat fuel) →
  (∃ j e, i ≤ j ∧ st.[j] = Some e ∧ ¬ used e) →
  ∃ j e, find_empty fuel st i = Ret j ∧ i ≤ j ∧ st.[j] = Some e ∧ ¬ used e ∧
         ∀ k ek, i ≤ k < j → st.[k] = Some ek → used ek.
Proof.
  revert i. induction fuel as [|fuel IH]; intros i Hi Hf (j & e & Hj & He & Hu);
    pose proof (zget_range _ _ _ He) as Hr; [lia|].
  destruct (zget_is_Some st i ltac:(lia)) as [ei Hei].
  simpl. rewrite Hei. destruct (n_lbid ei =? -1) eqn:Hl; zbool.
  - exists i, ei. unfold used. repeat split; auto; lia.
  - destruct (decide (j = i)) as [->|]; [simplify_eq; by exfalso; apply Hu|].
    destruct (IH (i + 1)) as (j' & e' & Hfe & Hj' & He' & Hu' & Hall); [lia|lia|exists j, e; split; [lia|done]|].
    exists j', e'. split; [done|]. split; [lia|]. split; [done|]. split; [done|].
    intros k ek Hk Hek. destruct (decide (k = i)) as [->|]; [by simplify_eq|].
    apply (Hall k ek); [lia|done].
Qed.

(** ** Searching a chain *)

Lemma prev_of_cons i l : prev_of (i :: l) = default i (last l).
Proof. unfold prev_of. rewrite last_cons. by destruct (last l). Qed.

Lemma fold_find st p h l prev :
  chain st h l →
  (∃ l1 i l2 e, l = l1 ++ i :: l2 ∧ st.[i] = Some e ∧ p e = true ∧
     (∀ j ej, j ∈ l1 → st.[j] = Some ej → p ej = false) ∧
     fold_exit st (find_body p) l prev = inr (i, default prev (last l1)))
  ∨ ((∀ j ej, j ∈ l → st.[j] = Some ej → p ej = false) ∧
     fold_exit st (find_body p) l prev = inl (default prev (last l))).
Proof.
  intros Hc. revert prev. induction Hc as [|i e l Hi Hc IH]; intros prev.
  - right. split; [|done]. intros j ej Hj. by apply elem_of_nil in Hj.
  - simpl. rewrite Hi. unfold find_body at 1 3. destruct (p e) eqn:Hp.
    + left. exists [], i, l, e. repeat split; auto. intros j ej Hj. by apply elem_of_nil in Hj.
    + destruct (IH i) as [(l1 & k & l2 & ek & -> & Hk & Hpk & Hall & Hf)|[Hall Hf]].
      * left. exists (i :: l1), k, l2, ek. repeat split; auto.
        { intros j ej Hj Hej. apply elem_of_cons in Hj as [->|Hj]; [by simplify_eq|eauto]. }
        rewrite Hf, last_cons. by destruct (last l1).
      * right. split.
        { intros j ej Hj Hej. apply elem_of_cons in Hj as [->|Hj]; [by simplify_eq|eauto]. }
        rewrite Hf, last_cons. by destruct (last l).
Qed.

(** Searching the bucket of a key: the walk ends, and finds an entry exactly
    when the table has one. *)
Lemma walk_find hash bk st b h p :
  hs_wf hash bk st → bk.[b] = Some h → (∀ e, p e = true → used e → hash e = b) →
  (∃ l1 i l2 e, chain st h (l1 ++ i :: l2) ∧ st.[i] = Some e ∧ p e = true ∧ used e ∧
     walk (length st) st (find_body p) h (-1) = Ret (inr (i, prev_of l1)))
  ∨ ((∀ i e, st.[i] = Some e → used e → p e = false) ∧
     ∃ prev, walk (length st) st (find_body p) h (-1) = Ret (inl prev)).
Proof.
  intros Hwf Hb Hp. destruct (Hwf b h Hb) as (l & Hc & Hnd & Hl).
  rewrite (walk_chain st (find_body p) h l (-1) (length st)); [|done|by eapply chain_length].
  destruct (fold_find st p h l (-1) Hc) as
    [(l1 & i & l2 & e & -> & Hi & Hpe & _ & ->)|[Hall ->]].
  - left. exists l1, i, l2, e. destruct (proj1 (Hl i)) as (e' & ? & ? & ?); [set_solver|].
    by simplify_eq.
  - right. split; [|eauto]. intros i e Hi Hu. destruct (p e) eqn:Hpe; [|done].
    rewrite <- Hpe. apply (Hall i e); [|done]. apply Hl. eauto.
Qed.

(** ** The entries of a table, as a list up to order *)

Definition entries st : list E := List.filter usedb (content st).

Lemma usedb_body e : usedb (node_body e) = usedb e.
Proof. unfold usedb. by rewrite node_body_lbid. Qed.

Lemma elem_of_entries st x :
  x ∈ entries st ↔ ∃ i e, st.[i] = Some e ∧ used e ∧ x = node_body e.
Proof.
  unfold entries, content. rewrite list_elem_of_In, filter_In, <- list_elem_of_In.
  rewrite list_elem_of_fmap. setoid_rewrite zget_elem_of. split.
  - intros [(e & -> & i & Hi) Hu]. rewrite usedb_body in Hu.
    exists i, e. split; [done|]. split; [by apply usedb_true|done].
  - intros (i & e & Hi & Hu & ->). rewrite usedb_body.
    split; [eauto|by apply usedb_true].
Qed.

(** Replacing one slot replaces one entry. *)
Lemma entries_zset st i e :
  st.[i] = Some e →
  ∃ rest, ∀ e', entries (st.[i <- e']) ≡ₚ
                (if usedb e' then [node_body e'] else []) ++ rest.
Proof.
  intros Hi. pose proof (zget_range _ _ _ Hi) as Hr. unfold zget in Hi.
  destruct (i <? 0) eqn:Hneg; [done|]. zbool.
  set (n := Z.to_nat i) in *.
  exists (List.filter usedb (content (take n st)) ++ List.filter usedb (content (drop (S n) st))).
  intros e'. unfold zset, entries, content.
  replace (i <? 0) with false by (symmetry; by apply Z.ltb_ge). fold n.
  rewrite insert_take_drop; [|by eapply lookup_lt_Some].
  rewrite fmap_app, List.filter_app. simpl. rewrite usedb_body.
  destruct (usedb e'); simpl; [|done]. by rewrite <- Permutation_middle.
Qed.

Lemma entries_id st i e :
  st.[i] = Some e →
  ∃ rest, entries st ≡ₚ (if usedb e then [node_body e] else []) ++ rest ∧
          ∀ e', entries (st.[i <- e']) ≡ₚ (if usedb e' then [node_body e'] else []) ++ rest.
Proof.
  intros Hi. destruct (entries_zset st i e Hi) as [rest Hr]. exists rest. split; [|done].
  rewrite <- (Hr e). by rewrite zset_id.
Qed.

Lemma entries_content st st' : content st = content st' → entries st = entries st'.
Proof. unfold entries. by intros ->. Qed.

Lemma content_content st : content (content st) = content st.
Proof.
  unfold content. rewrite <- list_fmap_compose. apply list_fmap_ext. intros k x _. simpl.
  apply node_body_next.
Qed.

Lemma count_entries st : count usedb st = zlength (entries st).
Proof.
  unfold count, zlength, entries, content. f_equal.
  induction st as [|e st IH]; [done|]. simpl. rewrite usedb_body.
  destruct (usedb e); simpl; by rewrite IH.
Qed.

Lemma entries_replicate n e : usedb e = false → entries (replicate n e) = [].
Proof.
  intros He. unfold entries, content. rewrite fmap_replicate.
  induction n as [|n IH]; [done|]. simpl. by rewrite usedb_body, He.
Qed.
Lemma used_filter st : Forall used (List.filter usedb st).
Proof.
  apply Forall_forall. intros e He. apply list_elem_of_In, filter_In in He as [_ He].
  by apply usedb_true.
Qed.

Lemma entries_filter st : node_body <$> List.filter usedb st = entries st.
Proof.
  unfold entries, content. induction st as [|e l IH]; [done|]. simpl.
  rewrite usedb_body. destruct (usedb e); csimpl; by rewrite IH.
Qed.

Lemma entries_app st st' : entries (st ++ st') = entries st ++ entries st'.
Proof. unfold entries, content. by rewrite fmap_app, List.filter_app. Qed.

Lemma entries_le st : zlength (entries st) ≤ zlength st.
Proof.
  rewrite <- count_entries. unfold count, zlength. apply Nat2Z.inj_le, filter_length_le.
Qed.

Lemma entries_take st n : zlength (entries (take n st)) ≤ zlength st.
Proof.
  etransitivity; [apply entries_le|]. unfold zlength. rewrite length_take. lia.
Qed.
(** ** A rule for loops over a bucket

    [P done a] is an invariant of the loop's variables [a] after the entries
    [done] were visited; [Q] holds of what the body returns. *)

Lemma fold_exit_rule {A R} st (body : Z → E → A → A + R) l h a
    (P : list E → A → Prop) (Q : R → Prop) pre :
  chain st h l → P pre a →
  (∀ seen i e a, i ∈ l → st.[i] = Some e → P seen a →
     match body i e a with inl a' => P (seen ++ [e]) a' | inr r => Q r end) →
  match fold_exit st body l a with
  | inl a' => ∃ es, P (pre ++ es) a' ∧ Forall2 (fun i e => st.[i] = Some e) l es
  | inr r => Q r
  end.
Proof.
  intros Hc. revert pre a. induction Hc as [|i e l Hi Hc IH]; intros pre a HP Hstep; simpl.
  - exists []. by rewrite app_nil_r.
  - rewrite Hi. specialize (Hstep pre i e a ltac:(set_solver) Hi HP) as H1.
    destruct (body i e a) as [a'|r]; [|done].
    specialize (IH (pre ++ [e]) a' H1
      ltac:(intros s2 i2 e2 a2 ?; apply Hstep; set_solver)).
    destruct (fold_exit st body l a') as [a''|r]; [|done].
    destruct IH as (es & HP' & Hf). exists (e :: es). rewrite <- app_assoc in HP'.
    split; [done|]. by constructor.
Qed.

Lemma walk_rule {A R} hash bk st b h (body : Z → E → A → A + R) a
    (P : list E → A → Prop) (Q : R → Prop) :
  hs_wf hash bk st → bk.[b] = Some h → P [] a →
  (∀ seen i e a, st.[i] = Some e → used e → hash e = b → P seen a →
     match body i e a with inl a' => P (seen ++ [e]) a' | inr r => Q r end) →
  ∃ r, walk (length st) st body h a = Ret r ∧
    match r with
    | inl a' => ∃ es, P es a' ∧ ∀ e, e ∈ es ↔ ∃ i, st.[i] = Some e ∧ used e ∧ hash e = b
    | inr r => Q r
    end.
Proof.
  intros Hwf Hb HP Hstep. destruct (Hwf b h Hb) as (l & Hc & Hnd & Hl).
  eexists. split; [eapply walk_chain; [done|by eapply chain_length]|].
  assert (∀ seen i e a, i ∈ l → st.[i] = Some e → P seen a →
    match body i e a with inl a' => P (seen ++ [e]) a' | inr r => Q r end) as Hstep'.
  { intros seen i e a' Hi He. apply Hl in Hi as (e' & ? & ? & ?). simplify_eq. by apply Hstep. }
  pose proof (fold_exit_rule st body l h a P Q [] Hc HP Hstep') as Hr.
  destruct (fold_exit st body l a) as [a'|r]; [|done].
  destruct Hr as (es & HP' & Hf). exists es. split; [done|]. intros e. split.
  - intros (k & Hk)%list_elem_of_lookup.
    destruct (Forall2_lookup_r _ _ _ _ _ Hf Hk) as (i & Hik & Hi). exists i.
    destruct (proj1 (Hl i)) as (e' & ? & ? & ?); [by eapply list_elem_of_lookup_2|]. by simplify_eq.
  - intros (i & Hi & Hu & Hh). assert (i ∈ l) as (k & Hk)%list_elem_of_lookup by (apply Hl; eauto).
    destruct (Forall2_lookup_l _ _ _ _ _ Hf Hk) as (e' & Hke & He'). simplify_eq.
    by eapply list_elem_of_lookup_2.
Qed.
End Chains.

#[global] Arguments entries : simpl never.
#[global] Arguments content : simpl never.
#[global] Arguments node_body : simpl never.
#[global] Arguments usedb : simpl never.
