(* ===== verification/Undo.v ===== *)
(** * Undoing changes to shared memory ([undoable.cpp], [undoable.h])

    Every BRM structure in shared memory inherits [Undoable]: before it changes
    a cell it pushes an image of the cell ([ImageDelta]); [undoChanges] copies the
    images back in reverse order, [confirmChanges] drops them.  An image holds a
    raw pointer, so it also remembers which shared memory segment it points
    into: copying it back after that segment was unmapped is a fault.

    [recorded] is the contract of an operation whose changes can be undone; it
    composes, and [recorded_undo] turns it into the statement that [undoChanges]
    gives the old memory back. *)

From S2P Require Import Prelude.

Definition ID_MAXSIZE : Z := 200.

(** [start] is the segment the pointer points into, [data] the cell and its old
    contents. *)
Record ImageDelta (D : Type) := mkImageDelta { start : Z; data : D }.
Arguments mkImageDelta {D} _ _.
Arguments start {D} _.
Arguments data {D} _.

(** How the cells of a memory are restored, in which segment they lie, and how
    large their images are. *)
Class Restorable (D Mem : Type) := {
  restore : D → Mem → Mem;
  segment_of : D → Mem → Z;
  delta_size : D → Z;
}.

Record undoable (D Mem : Type) := mkUndoable {
  u_mem : Mem;
  undoRecords : list (ImageDelta D);
}.
Arguments mkUndoable {D Mem} _ _.
Arguments u_mem {D Mem} _.
Arguments undoRecords {D Mem} _.

Section Undo.
Context {D Mem : Type} `{R : Restorable D Mem}.
Implicit Types (s : undoable D Mem) (m : Mem) (d : D).

Definition upd_mem (f : Mem → Mem) : M (undoable D Mem) unit :=
  modify (fun s => mkUndoable (f (u_mem s)) (undoRecords s)).

Definition get_mem : M (undoable D Mem) Mem := gets u_mem.

(** [Undoable::makeUndoRecord(start, size)] *)
Definition makeUndoRecord (d : D) : M (undoable D Mem) unit := fun s =>
  if ID_MAXSIZE <? delta_size d then (Exn OverflowError, s)
  else (Ret tt, mkUndoable (u_mem s)
                  (undoRecords s ++ [mkImageDelta (segment_of d (u_mem s)) d])).

(** One [memcpy] of [undoChanges]. *)
Definition copy_back (r : ImageDelta D) : M (undoable D Mem) unit := fun s =>
  if start r =? segment_of (data r) (u_mem s)
  then (Ret tt, mkUndoable (restore (data r) (u_mem s)) (undoRecords s))
  else (Exn Segfault, s).

(** [Undoable::confirmChanges()] *)
Definition confirmChanges : M (undoable D Mem) unit :=
  modify (fun s => mkUndoable (u_mem s) []).

(** [Undoable::undoChanges()] *)
Definition undoChanges : M (undoable D Mem) unit := fun s =>
  (forM (rev (undoRecords s)) copy_back ≫= fun _ => confirmChanges) s.
End Undo.

Lemma get_mem_run {D Mem A} (f : Mem → M (undoable D Mem) A) s :
  (get_mem ≫= f) s = f (u_mem s) s.
Proof. done. Qed.

Lemma upd_mem_run {D Mem A} (g : Mem → Mem) (f : unit → M (undoable D Mem) A) s :
  (upd_mem g ≫= f) s = f tt (mkUndoable (g (u_mem s)) (undoRecords s)).
Proof. done. Qed.

#[export] Hint Rewrite @get_mem_run @upd_mem_run : run.

(** ** The contract of an undoable operation *)

Class RestorableLaws (D Mem : Type) `{Restorable D Mem} := {
  segment_restore (d d' : D) (m : Mem) :
    segment_of d (restore d' m) = segment_of d m;
  delta_small (d : D) : delta_size d ≤ ID_MAXSIZE;
}.

Section UndoTheory.
Context {D Mem : Type} `{R : Restorable D Mem} `{!RestorableLaws D Mem}.
Implicit Types (s : undoable D Mem) (m : Mem) (d : D) (ds : list D).

Definition restore_all ds m : Mem := foldr restore m ds.

(** The images that pushing [ds] in memory [m] leaves in the log. *)
Definition images m ds : list (ImageDelta D) :=
  (fun d => mkImageDelta (segment_of d m) d) <$> ds.

Lemma makeUndoRecord_run d s :
  makeUndoRecord d s = (Ret tt, mkUndoable (u_mem s) (undoRecords s ++ images (u_mem s) [d])).
Proof.
  unfold makeUndoRecord. pose proof (delta_small d) as Hd.
  case_if; [lia|done].
Qed.

Lemma makeUndoRecord_bind {A} d (f : unit → M (undoable D Mem) A) s :
  (makeUndoRecord d ≫= f) s =
    f tt (mkUndoable (u_mem s) (undoRecords s ++ images (u_mem s) [d])).
Proof. unfold mbind, M_bind. by rewrite makeUndoRecord_run. Qed.

Lemma restore_all_app ds1 ds2 m :
  restore_all (ds1 ++ ds2) m = restore_all ds1 (restore_all ds2 m).
Proof. apply foldr_app. Qed.

Lemma segment_restore_all d ds m : segment_of d (restore_all ds m) = segment_of d m.
Proof.
  induction ds as [|d' ds IH]; [done|]. cbn. by rewrite segment_restore.
Qed.

Lemma copy_back_all ds s m0 :
  (∀ d, segment_of d (u_mem s) = segment_of d m0) →
  forM (rev (images m0 ds)) copy_back s =
    (Ret tt, mkUndoable (restore_all ds (u_mem s)) (undoRecords s)).
Proof.
  revert s. induction ds as [|d ds IH] using rev_ind; intros [m l] Hseg; [done|].
  unfold images. rewrite fmap_app, rev_app_distr, restore_all_app. simpl.
  unfold mbind, M_bind, copy_back at 1. simpl. rewrite Hseg, Z.eqb_refl.
  apply IH. intros d'. simpl. by rewrite segment_restore.
Qed.

(** [recorded E op]: whatever [op] does from [s], the images it pushed bring
    the memory back to that of [s], up to [E]. *)
Definition recorded {A} (E : Mem → Mem → Prop) (s : undoable D Mem)
    (res : outcome A * undoable D Mem) : Prop :=
  ∃ ds, undoRecords res.2 = undoRecords s ++ images (u_mem s) ds ∧
        (∀ d, segment_of d (u_mem res.2) = segment_of d (u_mem s)) ∧
        E (restore_all ds (u_mem res.2)) (u_mem s).

(** Relations the images respect. *)
Class UndoRel (E : Mem → Mem → Prop) := {
  ur_pre :: PreOrder E;
  ur_restore d :: Proper (E ==> E) (restore d);
}.

#[export] Instance eq_undo_rel : UndoRel (=).
Proof. split; [apply _|]. intros d x y ->. done. Qed.

Lemma restore_all_rel (E : Mem → Mem → Prop) `{!UndoRel E} ds m m' :
  E m m' → E (restore_all ds m) (restore_all ds m').
Proof. intros HE. induction ds as [|d ds IH]; [done|]. cbn. by f_equiv. Qed.

Lemma images_segment m m' ds :
  (∀ d, segment_of d m = segment_of d m') → images m ds = images m' ds.
Proof. intros H. unfold images. apply list_fmap_ext. intros. by rewrite H. Qed.

Lemma recorded_ret {A} E `{!UndoRel E} s (r : outcome A) : recorded E s (r, s).
Proof. exists []. split; [by rewrite app_nil_r|]. split; [done|]. simpl. reflexivity. Qed.

(** One operation after another. *)
Lemma recorded_trans {A B} E `{!UndoRel E} s (res1 : outcome A * undoable D Mem)
    (res2 : outcome B * undoable D Mem) :
  recorded E s res1 → recorded E res1.2 res2 → recorded E s res2.
Proof.
  intros (ds1 & Hl1 & Hs1 & HE1) (ds2 & Hl2 & Hs2 & HE2).
  exists (ds1 ++ ds2). split; [|split].
  - rewrite Hl2, Hl1, <- app_assoc. f_equal. unfold images at 3. rewrite fmap_app.
    f_equal. by apply images_segment.
  - intros d. by rewrite Hs2.
  - rewrite restore_all_app. etransitivity; [|exact HE1].
    by apply restore_all_rel.
Qed.

Lemma recorded_bind {A B} E `{!UndoRel E} (op : M (undoable D Mem) A)
    (f : A → M (undoable D Mem) B) s :
  recorded E s (op s) →
  (∀ a s', op s = (Ret a, s') → recorded E s' (f a s')) →
  recorded E s ((op ≫= f) s).
Proof.
  intros Hop Hf. unfold mbind, M_bind. destruct (op s) as [[a|e] s'] eqn:Heq.
  - apply (recorded_trans E s (Ret a, s')); [done|]. by apply Hf.
  - destruct Hop as (ds & ?). by exists ds.
Qed.

(** A cell is imaged and then written. *)
Lemma recorded_write E `{!UndoRel E} d (f : Mem → Mem) s :
  E (restore d (f (u_mem s))) (u_mem s) →
  (∀ d', segment_of d' (f (u_mem s)) = segment_of d' (u_mem s)) →
  recorded E s ((makeUndoRecord d ≫= fun _ => upd_mem f) s).
Proof.
  intros HE Hseg. unfold mbind, M_bind. rewrite makeUndoRecord_run.
  exists [d]. simpl. split; [done|]. split; [done|]. done.
Qed.

(** A write whose effect [E] does not see needs no image. *)
Lemma recorded_upd E `{!UndoRel E} (f : Mem → Mem) s :
  E (f (u_mem s)) (u_mem s) →
  (∀ d', segment_of d' (f (u_mem s)) = segment_of d' (u_mem s)) →
  recorded E s (upd_mem f s).
Proof.
  intros HE Hseg. exists []. simpl. split; [by rewrite app_nil_r|]. done.
Qed.

(** Once [d] is imaged, what it restores may change freely. *)
Lemma recorded_cover {A} E E' `{!UndoRel E} d (rest : M (undoable D Mem) A) s :
  (∀ m, E' m (u_mem s) → E (restore d m) (u_mem s)) →
  recorded E' (makeUndoRecord d s).2 (rest (makeUndoRecord d s).2) →
  recorded E s ((makeUndoRecord d ≫= fun _ => rest) s).
Proof.
  intros HE (ds & Hl & Hs & HE'). unfold mbind, M_bind.
  rewrite makeUndoRecord_run in *. simpl in *.
  exists (d :: ds). split; [|split].
  - rewrite Hl, <- app_assoc. done.
  - done.
  - cbn. by apply HE.
Qed.

(** Rules for the three idioms of the code, in continuation form. *)
Lemma recorded_get {A} E (k : Mem → M (undoable D Mem) A) s :
  recorded E s (k (u_mem s) s) → recorded E s ((get_mem ≫= k) s).
Proof. done. Qed.

Lemma recorded_lift {A B} E `{!UndoRel E} (o : outcome A) (k : A → M (undoable D Mem) B) s :
  (∀ a, o = Ret a → recorded E s (k a s)) → recorded E s ((lift o ≫= k) s).
Proof.
  intros Hk. unfold mbind, M_bind, lift. destruct o; [by apply Hk|by apply recorded_ret].
Qed.

Definition written (d : D) (f : Mem → Mem) s : undoable D Mem :=
  mkUndoable (f (u_mem s)) (undoRecords s ++ images (u_mem s) [d]).

Lemma written_run {A} d f (k : M (undoable D Mem) A) s :
  (makeUndoRecord d ≫= fun _ => upd_mem f ≫= fun _ => k) s = k (written d f s).
Proof. unfold mbind, M_bind. by rewrite makeUndoRecord_run. Qed.

Lemma written_run_last d f s :
  (makeUndoRecord d ≫= fun _ => upd_mem f) s = (Ret tt, written d f s).
Proof. unfold mbind, M_bind. by rewrite makeUndoRecord_run. Qed.

Lemma recorded_write_k {A} E `{!UndoRel E} d (f : Mem → Mem) (k : M (undoable D Mem) A) s :
  E (restore d (f (u_mem s))) (u_mem s) →
  (∀ d', segment_of d' (f (u_mem s)) = segment_of d' (u_mem s)) →
  recorded E (written d f s) (k (written d f s)) →
  recorded E s ((makeUndoRecord d ≫= fun _ => upd_mem f ≫= fun _ => k) s).
Proof.
  intros HE Hseg (ds & Hl & Hs & HE2). rewrite written_run.
  exists (d :: ds). split; [|split].
  - rewrite Hl. unfold written. simpl. rewrite <- app_assoc. f_equal.
    cbn. f_equal. by apply images_segment.
  - intros d'. by rewrite Hs.
  - cbn. etransitivity; [|exact HE]. by f_equiv.
Qed.

Lemma recorded_upd_k {A} E `{!UndoRel E} (f : Mem → Mem) (k : M (undoable D Mem) A) s :
  E (f (u_mem s)) (u_mem s) →
  (∀ d', segment_of d' (f (u_mem s)) = segment_of d' (u_mem s)) →
  recorded E (mkUndoable (f (u_mem s)) (undoRecords s))
             (k (mkUndoable (f (u_mem s)) (undoRecords s))) →
  recorded E s ((upd_mem f ≫= fun _ => k) s).
Proof.
  intros HE Hseg Hk. apply recorded_bind; [done|by apply recorded_upd|].
  intros [] s' [= <-]. done.
Qed.

Lemma recorded_weaken {A} E (E' : Mem → Mem → Prop) s (res : outcome A * undoable D Mem) :
  (∀ m m', E m m' → E' m m') → recorded E s res → recorded E' s res.
Proof. intros HE (ds & ? & ? & ?). exists ds. eauto. Qed.

Lemma recorded_forM {A} E `{!UndoRel E} (l : list A) (f : A → M (undoable D Mem) unit) s :
  (∀ x s', x ∈ l → recorded E s' (f x s')) → recorded E s (forM l f s).
Proof.
  revert s. induction l as [|x l IH]; intros s Hf; simpl; [by apply recorded_ret|].
  apply recorded_bind; [done| |].
  - apply Hf. set_solver.
  - intros _ s' _. apply IH. intros. apply Hf. set_solver.
Qed.

(** The point of it all: undoing a recorded operation gives the memory back. *)
Lemma recorded_undo_rel {A} E s (res : outcome A * undoable D Mem) :
  undoRecords s = [] → recorded E s res →
  ∃ m', undoChanges res.2 = (Ret tt, mkUndoable m' []) ∧ E m' (u_mem s).
Proof.
  intros H0 (ds & Hl & Hs & HE). unfold undoChanges, mbind, M_bind.
  rewrite Hl, H0, app_nil_l. rewrite copy_back_all; [|done]. eexists. split; [reflexivity|]. done.
Qed.

Lemma recorded_undo {A} s (res : outcome A * undoable D Mem) :
  undoRecords s = [] → recorded (=) s res →
  undoChanges res.2 = (Ret tt, mkUndoable (u_mem s) []).
Proof. intros H0 Hr. by destruct (recorded_undo_rel (=) s res H0 Hr) as (m' & -> & ->). Qed.

(** Images of another segment under a recorded operation: undoing it faults. *)
Lemma stale_undo_faults {A} E s (res : outcome A * undoable D Mem) r log :
  undoRecords s = log ++ [r] → recorded E s res →
  start r ≠ segment_of (data r) (u_mem s) →
  (undoChanges res.2).1 = Exn Segfault.
Proof.
  intros H0 (ds & Hl & Hs & _) Hstale. unfold undoChanges, mbind, M_bind.
  rewrite Hl, H0, rev_app_distr, forM_app. unfold mbind, M_bind. rewrite copy_back_all; [|done].
  rewrite rev_app_distr. cbn [rev app forM]. unfold mbind, M_bind, copy_back at 1. cbn [u_mem].
  rewrite segment_restore_all, Hs. by case_if.
Qed.
End UndoTheory.

#[export] Hint Rewrite @makeUndoRecord_bind using apply _ : run.
