(* ===== verification/Table.v ===== *)
(** * The shared-memory layout the VSS and the VBBM have in common

    Both tables live in one shared memory segment: a header, (for the VBBM) an
    array of version buffer files, an array of hash buckets and an array of
    entries.  The segment is found through a [MSTEntry] of the master segment
    table.  This file has that layout, the images [makeUndoRecord] takes of its
    cells, and the removal of one entry from its chain, which the two tables
    spell in the same way. *)

From S2P Require Import Prelude HashChain Undo.

(** [MSTEntry] of mastersegmenttable.h *)
Record MSTEntry := mkMST {
  tableShmkey : Z;
  allocdSize : Z;
  mst_currentSize : Z;
}.

Class SizeOf (T : Type) := sizeof : Z.
#[global] Arguments sizeof T {_}.

(** The header fields that both tables have. *)
Class HeaderOps (H : Type) := {
  h_currentSize : H → Z;
  set_h_currentSize : Z → H → H;
}.

Record shmtable (H F E : Type) := mkTbl {
  t_info : MSTEntry;
  t_hdr : H;
  t_files : list F;
  t_buckets : list Z;
  t_stor : list E;
}.
Arguments mkTbl {H F E} _ _ _ _ _.
Arguments t_info {H F E} _.
Arguments t_hdr {H F E} _.
Arguments t_files {H F E} _.
Arguments t_buckets {H F E} _.
Arguments t_stor {H F E} _.

(** The cells images are taken of: the header, the size field alone, a file, a
    bucket, an entry. *)
Inductive delta (H F E : Type) :=
  | DHdr (h : H)
  | DSize (n : Z)
  | DFile (i : Z) (f : F)
  | DBucket (i v : Z)
  | DStor (i : Z) (e : E).
Arguments DHdr {H F E} _.
Arguments DSize {H F E} _.
Arguments DFile {H F E} _ _.
Arguments DBucket {H F E} _ _.
Arguments DStor {H F E} _ _.

Section Layout.
Context {H F E : Type} `{HO : HeaderOps H} `{SizeOf H} `{SizeOf F} `{SizeOf E}.

Definition set_hdr (h : H) (m : shmtable H F E) : shmtable H F E :=
  mkTbl (t_info m) h (t_files m) (t_buckets m) (t_stor m).
Definition set_file (i : Z) (f : F) (m : shmtable H F E) : shmtable H F E :=
  mkTbl (t_info m) (t_hdr m) ((t_files m).[i <- f]) (t_buckets m) (t_stor m).
Definition set_bucket (i v : Z) (m : shmtable H F E) : shmtable H F E :=
  mkTbl (t_info m) (t_hdr m) (t_files m) ((t_buckets m).[i <- v]) (t_stor m).
Definition set_stor (i : Z) (e : E) (m : shmtable H F E) : shmtable H F E :=
  mkTbl (t_info m) (t_hdr m) (t_files m) (t_buckets m) ((t_stor m).[i <- e]).

#[global] Instance table_restorable : Restorable (delta H F E) (shmtable H F E) := {
  restore d m :=
    match d with
    | DHdr h => set_hdr h m
    | DSize n => set_hdr (set_h_currentSize n (t_hdr m)) m
    | DFile i f => set_file i f m
    | DBucket i v => set_bucket i v m
    | DStor i e => set_stor i e m
    end;
  segment_of _ m := tableShmkey (t_info m);
  delta_size d :=
    match d with
    | DHdr _ => sizeof H
    | DSize _ => 4
    | DFile _ _ => sizeof F
    | DBucket _ _ => 4
    | DStor _ _ => sizeof E
    end;
}.
End Layout.

(** A table in shared memory together with its undo log. *)
Abbreviation utable H F E := (undoable (delta H F E) (shmtable H F E)).

Section UnlinkEntry.
Context {H F E : Type} `{HO : HeaderOps H} `{SizeOf H} `{SizeOf F} `{SizeOf E}
  `{ChainNode E}.

(** Empty slot [i] and take it out of the chain of bucket [b], in which [prev]
    precedes it. *)
Definition unlinkEntry (b prev i : Z) : M (utable H F E) unit :=
  m ← get_mem;
  e ← lift (deref ((t_stor m).[i]));
  makeUndoRecord (DStor i e) ≫= fun _ =>
  upd_mem (set_stor i (set_n_lbid (-1) e)) ≫= fun _ =>
  if prev =? -1 then
    old ← lift (deref ((t_buckets m).[b]));
    makeUndoRecord (DBucket b old) ≫= fun _ =>
    upd_mem (set_bucket b (n_next e))
  else
    m1 ← get_mem;
    ep ← lift (deref ((t_stor m1).[prev]));
    makeUndoRecord (DStor prev ep) ≫= fun _ =>
    upd_mem (set_stor prev (set_n_next (n_next e) ep)).
End UnlinkEntry.

(** ** Lemmas *)

Class TableLaws (H F E : Type) `{HeaderOps H} `{SizeOf H} `{SizeOf F} `{SizeOf E} := {
  sizes_fit : sizeof H ≤ ID_MAXSIZE ∧ sizeof F ≤ ID_MAXSIZE ∧ sizeof E ≤ ID_MAXSIZE;
}.

#[global] Instance table_restorable_laws {H F E} `{TableLaws H F E} :
  RestorableLaws (delta H F E) (shmtable H F E).
Proof.
  split.
  - intros d d' m. by destruct d'.
  - intros d. destruct sizes_fit as (? & ? & ?). unfold delta_size, table_restorable.
    unfold ID_MAXSIZE in *. destruct d; lia.
Qed.

Section TableTheory.
Context {H F E : Type} `{TL : TableLaws H F E} `{CN : ChainNode E} `{!ChainNodeLaws E}.
Implicit Types (m : shmtable H F E) (s : utable H F E).

Lemma restore_set_stor m i e e' :
  (t_stor m).[i] = Some e → restore (DStor i e) (set_stor i e' m) = m.
Proof.
  destruct m as [? ? ? ? st]. simpl. intros Hi. unfold set_stor. simpl.
  by rewrite zset_zset, zset_id.
Qed.

Lemma restore_set_bucket m i v v' :
  (t_buckets m).[i] = Some v → restore (DBucket i v) (set_bucket i v' m) = m.
Proof.
  destruct m. simpl. intros Hi. unfold set_bucket. simpl. by rewrite zset_zset, zset_id.
Qed.

Lemma restore_set_file m i f f' :
  (t_files m).[i] = Some f → restore (DFile i f) (set_file i f' m) = m.
Proof.
  destruct m. simpl. intros Hi. unfold set_file. simpl. by rewrite zset_zset, zset_id.
Qed.

(** Equality of memories up to the header. *)
Definition eq_upto_hdr m m' : Prop := set_hdr (t_hdr m') m = m'.

#[export] Instance eq_upto_hdr_rel : UndoRel eq_upto_hdr.
Proof.
  split.
  - split.
    + intros []. done.
    + intros [] [] [] Hxy Hyz. unfold eq_upto_hdr, set_hdr in *. simpl in *. congruence.
  - intros d [] [] Hxy. unfold eq_upto_hdr, set_hdr in *. simpl in *. simplify_eq.
    by destruct d.
Qed.

Lemma eq_upto_hdr_eq m m' : m = m' → eq_upto_hdr m m'.
Proof. intros ->. by destruct m'. Qed.

Lemma restore_hdr_upto m m0 : eq_upto_hdr m m0 → restore (DHdr (t_hdr m0)) m = m0.
Proof. done. Qed.

Lemma recorded_set_stor s i e e' :
  (t_stor (u_mem s)).[i] = Some e →
  recorded (=) s ((makeUndoRecord (DStor i e) ≫= fun _ => upd_mem (set_stor i e')) s).
Proof. intros. apply recorded_write; [apply _|by apply restore_set_stor|done]. Qed.

Lemma recorded_set_bucket s i v v' :
  (t_buckets (u_mem s)).[i] = Some v →
  recorded (=) s ((makeUndoRecord (DBucket i v) ≫= fun _ => upd_mem (set_bucket i v')) s).
Proof. intros. apply recorded_write; [apply _|by apply restore_set_bucket|done]. Qed.

Lemma unlinkEntry_recorded b prev i s : recorded (=) s (unlinkEntry b prev i s).
Proof.
  unfold unlinkEntry. apply recorded_get.
  apply recorded_lift; [apply _|]. intros e He.
  destruct ((t_stor (u_mem s)).[i]) as [e'|] eqn:Hi; simplify_eq/=.
  apply recorded_write_k; [apply _|by apply restore_set_stor|done|].
  case_if.
  - apply recorded_lift; [apply _|]. intros v Hv.
    destruct ((t_buckets (u_mem s)).[b]) eqn:Hb; simplify_eq/=.
    by apply recorded_set_bucket.
  - apply recorded_get, recorded_lift; [apply _|]. intros ep Hep.
    destruct ((t_stor (u_mem (written (DStor i e) (set_stor i (set_n_lbid (-1) e)) s))).[prev])
      eqn:Hp; simplify_eq/=.
    by apply recorded_set_stor.
Qed.

(** On a well-formed chain the removal does not fault, and leaves the table well
    formed with slot [i] empty and nothing else changed. *)
Lemma unlinkEntry_spec hash b h l1 i l2 e s :
  hs_wf hash (t_buckets (u_mem s)) (t_stor (u_mem s)) → hash_stable hash →
  (t_buckets (u_mem s)).[b] = Some h →
  chain (t_stor (u_mem s)) h (l1 ++ i :: l2) → (t_stor (u_mem s)).[i] = Some e →
  ∃ bk' st' h' log',
    unlinkEntry b (prev_of l1) i s =
      (Ret tt, mkUndoable (mkTbl (t_info (u_mem s)) (t_hdr (u_mem s)) (t_files (u_mem s)) bk' st')
                          log') ∧
    hs_wf hash bk' st' ∧ bk'.[b] = Some h' ∧ chain st' h' (l1 ++ l2) ∧
    zlength bk' = zlength (t_buckets (u_mem s)) ∧
    content st' = (content (t_stor (u_mem s))).[i <- node_body (set_n_lbid (-1) e)] ∧
    st'.[i] = Some (set_n_lbid (-1) e).
Proof.
  intros Hwf Hst Hb Hc Hi.
  destruct (hs_wf_unlink hash _ _ b h l1 i l2 e Hwf Hst Hb Hc Hi)
    as (bk' & st' & h' & Hun & Hrest).
  exists bk', st', h'. unfold unlink in Hun. unfold unlinkEntry.
  unfold mbind at 1, M_bind at 1, get_mem at 1, gets. rewrite Hi.
  unfold mbind at 1, M_bind at 1. cbn [lift deref]. rewrite written_run.
  destruct (prev_of l1 =? -1) eqn:Hp.
  - simplify_eq. rewrite Hb. unfold mbind at 1, M_bind at 1. cbn [lift deref].
    rewrite written_run_last. eauto.
  - unfold mbind at 1, M_bind at 1, get_mem, gets. cbn [u_mem written t_stor set_stor].
    destruct ((t_stor (u_mem s)).[i <- set_n_lbid (-1) e].[prev_of l1]) eqn:Hpe; simplify_eq.
    unfold mbind at 1, M_bind at 1. cbn [lift deref]. rewrite written_run_last. eauto.
Qed.
End TableTheory.

(** ** The structural invariant of a table *)

(** The bucket an entry belongs to when there are [n] buckets. *)
Class KeyHash (E : Type) := key_hash : Z → E → Z.

Class KeyHashLaws (E : Type) `{ChainNode E} `{KeyHash E} := {
  key_hash_next n z e : key_hash n (set_n_next z e) = key_hash n e;
  key_hash_range n e : 0 < n → 0 ≤ key_hash n e < n;
}.

Section Struct.
Context {E : Type} `{CN : ChainNode E} `{!ChainNodeLaws E} `{KH : KeyHash E}
  `{!KeyHashLaws E}.
Implicit Types (st : list E) (bk : list Z) (e : E).

(** The chains are well formed for [nb] buckets, and no slot below the low water
    mark [lwm] is empty. *)
Record tstruct (nb : Z) bk st (lwm : Z) : Prop := mkTstruct {
  ts_buckets : zlength bk = nb;
  ts_nb : 0 < nb;
  ts_wf : hs_wf (key_hash nb) bk st;
  ts_lwm : 0 ≤ lwm ≤ zlength st;
  ts_below i e : 0 ≤ i < lwm → st.[i] = Some e → used e;
}.

Lemma key_hash_stable n : hash_stable (key_hash (E := E) n).
Proof. intros z e. apply key_hash_next. Qed.

Lemma tstruct_bucket nb bk st lwm e :
  tstruct nb bk st lwm → ∃ h, bk.[key_hash nb e] = Some h.
Proof.
  intros [Hb Hn _ _ _]. apply zget_is_Some. rewrite Hb. by apply key_hash_range.
Qed.

(** An empty table. *)
Lemma tstruct_empty nb n e0 :
  0 < nb → usedb e0 = false →
  tstruct nb (replicate (Z.to_nat nb) (-1)) (replicate n e0) 0.
Proof.
  intros Hn He. split.
  - unfold zlength. rewrite length_replicate. lia.
  - done.
  - intros b h Hb. exists []. unfold zget in Hb. case_if; [done|].
    apply lookup_replicate in Hb as [-> _]. split; [constructor|]. split; [constructor|].
    intros i. split; [by rewrite elem_of_nil|]. intros (e & Hi & Hu & _).
    unfold zget in Hi. case_if; [done|]. apply lookup_replicate in Hi as [-> _].
    apply usedb_true in Hu. congruence.
  - unfold zlength. lia.
  - intros. lia.
Qed.

(** Linking an entry into the first empty slot. *)
Lemma tstruct_link nb bk st lwm lwm' i e0 e h :
  tstruct nb bk st lwm → bk.[key_hash nb e] = Some h →
  st.[i] = Some e0 → ¬ used e0 → used e →
  (∀ k ek, 0 ≤ k < i → st.[k] = Some ek → used ek) → (lwm' = i ∨ lwm' = i + 1) →
  tstruct nb (bk.[key_hash nb e <- i]) (st.[i <- set_n_next h e]) lwm' ∧
  entries (st.[i <- set_n_next h e]) ≡ₚ node_body e :: entries st.
Proof.
  intros [Hb Hn Hwf Hlwm Hbelow] Hh Hi H0 Hu Hfirst Hl'.
  pose proof (zget_range _ _ _ Hi) as Hr. split; [split|].
  - by rewrite zlength_zset.
  - done.
  - apply (hs_wf_link _ _ _ _ _ _ e0); auto using key_hash_stable.
  - rewrite zlength_zset. lia.
  - intros k ek Hk. rewrite (zget_zset _ _ _ _ _ Hi). case_decide.
    + intros [= <-]. by apply used_set_next.
    + apply Hfirst. lia.
  - destruct (entries_id st i e0 Hi) as (rest & H1 & H2).
    rewrite H2, H1. assert (usedb e0 = false) as ->.
    { destruct (usedb e0) eqn:Hue; [|done]. by apply usedb_true in Hue. }
    assert (usedb (set_n_next h e) = true) as -> by (apply usedb_true; by apply used_set_next).
    simpl. by rewrite node_body_next.
Qed.

(** Unlinking an entry: [st'] has the contents of [st] with slot [i] emptied. *)
Lemma tstruct_unlink nb bk st lwm bk' st' i e :
  tstruct nb bk st lwm → st.[i] = Some e → used e →
  zlength bk' = zlength bk → hs_wf (key_hash nb) bk' st' →
  content st' = (content st).[i <- node_body (set_n_lbid (-1) e)] →
  tstruct nb bk' st' (Z.min lwm i) ∧ entries st ≡ₚ node_body e :: entries st' ∧
  zlength st' = zlength st.
Proof.
  intros [Hb Hn Hwf Hlwm Hbelow] Hi Hu Hb' Hwf' Hcon.
  pose proof (zget_range _ _ _ Hi) as Hr.
  assert (zlength st' = zlength st) as Hlen.
  { rewrite <- (zlength_content st'), <- (zlength_content st), Hcon. apply zlength_zset. }
  split; [split|split; [|done]].
  - congruence.
  - done.
  - done.
  - lia.
  - intros k ek Hk Hek.
    assert ((content st').[k] = Some (node_body ek)) as Hc by by rewrite content_zget, Hek.
    rewrite Hcon, zget_zset_ne, content_zget in Hc by lia.
    destruct (st.[k]) as [e'|] eqn:Hk'; [|done]. cbn in Hc.
    injection Hc as Hc. assert (used e') as Hu' by (apply (Hbelow k e'); [lia|done]).
    unfold used in *. by rewrite <- (node_body_lbid ek), <- Hc, node_body_lbid.
  - rewrite <- content_zset in Hcon. rewrite (entries_content _ _ Hcon).
    destruct (entries_id st i e Hi) as (rest & -> & H2). rewrite H2.
    assert (usedb e = true) as -> by by apply usedb_true.
    assert (usedb (set_n_lbid (-1) e) = false) as ->.
    { apply usedb_false. apply n_lbid_set_lbid. }
    done.
Qed.

(** A table with fewer entries than slots has an empty slot. *)
Lemma empty_slot st :
  zlength (entries st) < zlength st → ∃ i e, st.[i] = Some e ∧ ¬ used e.
Proof.
  intros Hlt. destruct (decide (Forall (fun e => usedb e = true) st)) as [Hall|Hex].
  - exfalso. rewrite <- count_entries in Hlt. unfold count, zlength in Hlt.
    rewrite forallb_filter_id in Hlt; [lia|]. apply forallb_forall. intros x Hx.
    rewrite Forall_forall in Hall. apply Hall. by apply list_elem_of_In.
  - apply not_Forall_Exists in Hex; [|apply _]. apply Exists_exists in Hex as (e & He & Hue).
    apply zget_elem_of in He as [i Hi]. exists i, e. split; [done|].
    by rewrite <- usedb_true.
Qed.

(** The slot [_insert] chooses. *)
Lemma tstruct_find_empty nb bk st lwm :
  tstruct nb bk st lwm → zlength (entries st) < zlength st →
  ∃ i e0, find_empty (length st) st lwm = Ret i ∧ st.[i] = Some e0 ∧ ¬ used e0 ∧
          ∀ k ek, 0 ≤ k < i → st.[k] = Some ek → used ek.
Proof.
  intros [Hb Hn Hwf Hlwm Hbelow] Hlt.
  destruct (empty_slot st Hlt) as (j & ej & Hj & Huj).
  destruct (find_empty_spec st (length st) lwm) as (i & e0 & Hf & Hle & Hi & Hu & Hall).
  - lia.
  - unfold zlength. lia.
  - exists j, ej. split; [|done]. destruct (decide (j < lwm)); [|lia].
    exfalso. apply Huj. apply (Hbelow j); [|done]. apply zget_range in Hj. lia.
  - exists i, e0. repeat split; auto. intros k ek Hk Hek.
    destruct (decide (k < lwm)); [by apply (Hbelow k); [lia|]|].
    apply (Hall k); [lia|done].
Qed.

(** An update in place that keeps key and link. *)
Lemma tstruct_update nb bk st lwm i e e' :
  tstruct nb bk st lwm → st.[i] = Some e →
  n_next e' = n_next e → n_lbid e' = n_lbid e → key_hash nb e' = key_hash nb e →
  tstruct nb bk (st.[i <- e']) lwm.
Proof.
  intros [Hb Hn Hwf Hlwm Hbelow] Hi Hnx Hlb Hk. split; auto.
  - apply (hs_wf_update _ _ _ _ e); auto. unfold used. by rewrite Hlb.
  - by rewrite zlength_zset.
  - intros k ek Hkr. rewrite (zget_zset _ _ _ _ _ Hi). case_decide; [|by apply Hbelow].
    intros [= <-]. subst. unfold used. rewrite Hlb. by apply (Hbelow k e).
Qed.
End Struct.

(** ** Re-inserting a list of entries

    [copyVBBM], [copyVSS] and the loaders insert entries one by one; [ins] is the
    insertion, [G] what it keeps of the memory. *)

Section Reload.
Context {H F E : Type} `{HO : HeaderOps H} `{SizeOf H} `{SizeOf F} `{SizeOf E}
  `{CN : ChainNode E} `{!ChainNodeLaws E}.
Context (ins : E → M (utable H F E) unit) (cap : Z)
  (Inv : shmtable H F E → Prop) (G : utable H F E → utable H F E → Prop).
Context `{!PreOrder G}.
Hypothesis ins_spec : ∀ e s,
  used e → Inv (u_mem s) → zlength (entries (t_stor (u_mem s))) < cap →
  ∃ s', ins e s = (Ret tt, s') ∧ Inv (u_mem s') ∧ G s s' ∧
        entries (t_stor (u_mem s')) ≡ₚ node_body e :: entries (t_stor (u_mem s)).

Lemma reload_spec l s :
  Forall used l → Inv (u_mem s) → zlength (entries (t_stor (u_mem s))) + zlength l ≤ cap →
  ∃ s', forM l ins s = (Ret tt, s') ∧ Inv (u_mem s') ∧ G s s' ∧
        entries (t_stor (u_mem s')) ≡ₚ (node_body <$> l) ++ entries (t_stor (u_mem s)).
Proof.
  intros Hl. revert s. induction Hl as [|e l He Hl IH]; intros s Hinv Hlen.
  - exists s. done.
  - unfold zlength in Hlen. simpl in Hlen.
    destruct (ins_spec e s He Hinv) as (s1 & Hr & Hinv1 & HG1 & He1).
    { unfold zlength in *. lia. }
    destruct (IH s1 Hinv1) as (s2 & Hr2 & Hinv2 & HG2 & He2).
    { unfold zlength in *. rewrite He1. simpl. lia. }
    exists s2. simpl. unfold mbind, M_bind. rewrite Hr, Hr2.
    split; [done|]. split; [done|]. split; [by etransitivity|].
    rewrite He2, He1. symmetry. apply Permutation_middle.
Qed.
End Reload.

(** ** A table as a finite map *)

Section Keyed.
Context {E : Type} `{CN : ChainNode E} `{!ChainNodeLaws E} {K : Type} `{Countable K}.
Context (ekey : E → K).
Hypothesis ekey_body : ∀ e, ekey (node_body e) = ekey e.
Implicit Types (st : list E) (e : E).

Definition tabmap st : gmap K E := list_to_map ((fun e => (ekey e, e)) <$> entries st).

Definition keys_unique st : Prop := NoDup (ekey <$> entries st).

Lemma keyed_fst (l : list E) : ((fun e => (ekey e, e)) <$> l).*1 = ekey <$> l.
Proof. rewrite <- list_fmap_compose. done. Qed.

Lemma tabmap_lookup st k b :
  keys_unique st →
  tabmap st !! k = Some b ↔ ∃ i e, st.[i] = Some e ∧ used e ∧ ekey e = k ∧ b = node_body e.
Proof.
  intros Hu. unfold tabmap. rewrite <- elem_of_list_to_map; [|by rewrite keyed_fst].
  rewrite list_elem_of_fmap. split.
  - intros (e & [= -> ->] & (i & e' & Hi & Hue & ->)%elem_of_entries).
    exists i, e'. repeat split; auto.
  - intros (i & e & Hi & Hue & <- & ->). exists (node_body e). rewrite ekey_body.
    split; [done|]. apply elem_of_entries. eauto.
Qed.

Lemma tabmap_None st k :
  (∀ i e, st.[i] = Some e → used e → ekey e ≠ k) ↔ tabmap st !! k = None.
Proof.
  unfold tabmap. rewrite <- not_elem_of_list_to_map, keyed_fst. split.
  - intros Hn. rewrite list_elem_of_fmap. intros (e & -> & (i & e' & Hi & Hu & ->)%elem_of_entries).
    rewrite ekey_body in Hn. by apply (Hn i e').
  - intros Hn i e Hi Hu <-. apply Hn. rewrite <- ekey_body. apply list_elem_of_fmap_2.
    apply elem_of_entries. eauto.
Qed.

Lemma tabmap_perm st st' :
  keys_unique st → entries st ≡ₚ entries st' → tabmap st' = tabmap st ∧ keys_unique st'.
Proof.
  intros Hu Hp. split.
  - symmetry. apply list_to_map_proper; [by rewrite keyed_fst|]. by rewrite Hp.
  - unfold keys_unique. by rewrite <- Hp.
Qed.

Lemma tabmap_cons st st' e :
  keys_unique st → tabmap st !! ekey e = None → entries st' ≡ₚ node_body e :: entries st →
  tabmap st' = <[ekey e := node_body e]> (tabmap st) ∧ keys_unique st'.
Proof.
  intros Hu Hn Hp.
  assert (NoDup (ekey <$> node_body e :: entries st)) as Hnd.
  { csimpl. rewrite ekey_body. constructor; [|done].
    by apply not_elem_of_list_to_map in Hn; rewrite keyed_fst in Hn. }
  split; [|unfold keys_unique; by rewrite Hp].
  unfold tabmap. rewrite (list_to_map_proper _ ((fun e => (ekey e, e)) <$> node_body e :: entries st)).
  - csimpl. by rewrite ekey_body.
  - rewrite keyed_fst. by rewrite Hp.
  - by rewrite Hp.
Qed.

Lemma tabmap_uncons st st' e :
  keys_unique st → entries st ≡ₚ node_body e :: entries st' →
  tabmap st' = delete (ekey e) (tabmap st) ∧ keys_unique st'.
Proof.
  intros Hu Hp. unfold keys_unique in Hu. rewrite Hp in Hu. csimpl in Hu.
  rewrite ekey_body in Hu. apply NoDup_cons in Hu as [Hn Hu].
  assert (tabmap st' !! ekey e = None) as Hnone.
  { apply not_elem_of_list_to_map. by rewrite keyed_fst. }
  destruct (tabmap_cons st' st e Hu Hnone Hp) as [-> _].
  split; [|done]. by rewrite delete_insert_id.
Qed.

(** Uniqueness says that a key determines its slot. *)
Lemma keys_unique_slot st i j ei ej :
  keys_unique st → st.[i] = Some ei → st.[j] = Some ej → used ei → used ej →
  ekey ei = ekey ej → i = j.
Proof.
  intros Hu Hi Hj Hui Huj Hk. destruct (decide (i = j)) as [|Hne]; [done|]. exfalso.
  destruct (entries_id st i ei Hi) as (rest & Hp & Hset).
  assert (node_body ej ∈ rest) as Hin.
  { assert (node_body ej ∈ entries (st.[i <- set_n_lbid (-1) ei])) as Hin.
    { apply elem_of_entries. exists j, ej. rewrite zget_zset_ne by done. done. }
    rewrite Hset in Hin. assert (usedb (set_n_lbid (-1) ei) = false) as Hf.
    { apply usedb_false, n_lbid_set_lbid. }
    by rewrite Hf in Hin. }
  unfold keys_unique in Hu. rewrite Hp in Hu.
  assert (usedb ei = true) as Ht by by apply usedb_true.
  rewrite Ht in Hu. csimpl in Hu. apply NoDup_cons in Hu as [Hn _]. apply Hn.
  rewrite ekey_body, Hk, <- ekey_body. by apply list_elem_of_fmap_2.
Qed.
End Keyed.
