(* ===== verification/RwLock.v ===== *)
(** * The read/write lock of the shared tables ([utils/rwlock/rwlock.cpp])

    The lock is four counters and three semaphores in shared memory.  Every call
    takes the semaphore [MUTEX], looks at the counters and changes them, and gives
    [MUTEX] back; a call that cannot have the lock then sleeps on [READERS] or
    [WRITERS] until the thread that lets it in has counted it as a holder and posted
    the semaphore.

    A call is therefore a sequence of steps of its thread, between which any other
    thread may run: the wait for [MUTEX], the piece of code that holds it (a
    function of the shared state), the wait for [READERS] or [WRITERS].  [rw_step] is
    the step of one thread, [sys_step] that of a set of threads, and a schedule is a
    list of (thread, action).  The four counters are [int]s and wrap around.

    Also here: the objects that share a lock by its key, the table of segments that
    is built on five locks ([mastersegmenttable.cpp]), and the thread that watches a
    lock ([rwlockmonitor.cpp]). *)

From S2P Require Import Prelude Table.

(** ** The shared state ([struct State]) *)

Inductive SemNum := MUTEX | READERS | WRITERS.

Record RWState := mkRW {
  writerswaiting : Z;
  writing : Z;
  readerswaiting : Z;
  reading : Z;
  sem_mutex : Z;
  sem_readers : Z;
  sem_writers : Z;
}.

(** [struct LockState], the counters as a caller sees them. *)
Record LockState := mkLS {
  ls_writerswaiting : Z;
  ls_writing : Z;
  ls_readerswaiting : Z;
  ls_reading : Z;
  mutexLocked : bool;
}.

#[global] Instance RWState_eq_dec : EqDecision RWState.
Proof. solve_decision. Defined.

Definition set_writerswaiting (x : Z) (s : RWState) : RWState :=
  mkRW x (writing s) (readerswaiting s) (reading s) (sem_mutex s) (sem_readers s) (sem_writers s).
Definition set_writing (x : Z) (s : RWState) : RWState :=
  mkRW (writerswaiting s) x (readerswaiting s) (reading s) (sem_mutex s) (sem_readers s) (sem_writers s).
Definition set_readerswaiting (x : Z) (s : RWState) : RWState :=
  mkRW (writerswaiting s) (writing s) x (reading s) (sem_mutex s) (sem_readers s) (sem_writers s).
Definition set_reading (x : Z) (s : RWState) : RWState :=
  mkRW (writerswaiting s) (writing s) (readerswaiting s) x (sem_mutex s) (sem_readers s) (sem_writers s).

Definition sem (n : SemNum) (s : RWState) : Z :=
  match n with MUTEX => sem_mutex s | READERS => sem_readers s | WRITERS => sem_writers s end.

Definition set_sem (n : SemNum) (x : Z) (s : RWState) : RWState :=
  match n with
  | MUTEX => mkRW (writerswaiting s) (writing s) (readerswaiting s) (reading s) x (sem_readers s) (sem_writers s)
  | READERS => mkRW (writerswaiting s) (writing s) (readerswaiting s) (reading s) (sem_mutex s) x (sem_writers s)
  | WRITERS => mkRW (writerswaiting s) (writing s) (readerswaiting s) (reading s) (sem_mutex s) (sem_readers s) x
  end.

(** What the constructor of [RWLockShmImpl] puts into a new segment. *)
Definition fresh_state (excl : bool) : RWState :=
  mkRW 0 (if excl then 1 else 0) 0 0 1 0 0.

(** [RWLock::up] and [RWLock::down]: [None] is a thread that cannot go on yet.  A
    [down] that does not block throws [wouldblock] instead. *)
Definition up (n : SemNum) (s : RWState) : RWState := set_sem n (sem n s + 1) s.
Definition down (n : SemNum) (s : RWState) : option RWState :=
  if 0 <? sem n s then Some (set_sem n (sem n s - 1) s) else None.

Definition inc (x : Z) : Z := i32 (x + 1).
Definition dec (x : Z) : Z := i32 (x - 1).

(** [while (readerswaiting > 0) { --readerswaiting; up(READERS); }] *)
Fixpoint wake_loop (fuel : nat) (s : RWState) : RWState :=
  match fuel with
  | O => s
  | S fuel' =>
      if 0 <? readerswaiting s
      then wake_loop fuel' (up READERS (set_readerswaiting (dec (readerswaiting s)) s))
      else s
  end.
Definition wake_readers (s : RWState) : RWState := wake_loop (Z.to_nat (readerswaiting s)) s.

(** [RETURN_STATE] *)
Definition return_state (mutex : bool) (s : RWState) : LockState :=
  mkLS (writerswaiting s) (writing s) (readerswaiting s) (reading s) mutex.

(** [CHECKSAFETY] and [CHECKLIVENESS], the invariants a debug build tests. *)
Definition CHECKSAFETY (s : RWState) : bool :=
  ((reading s =? 0) && ((writing s =? 0) || (writing s =? 1)))
  || ((0 <? reading s) && (writing s =? 0)).

Definition CHECKLIVENESS (s : RWState) : bool :=
  (negb ((0 <? readerswaiting s) || (0 <? writerswaiting s)) || ((0 <? reading s) || (0 <? writing s)))
  || (negb ((reading s =? 0) && (writing s =? 0))
      || ((readerswaiting s =? 0) && (writerswaiting s =? 0))).

(** ** The code that holds [MUTEX]

    Each function runs from after its [down(MUTEX)] to the [up(MUTEX)] that ends the
    piece, and says how the call goes on: it returns, or it waits. *)

Inductive Result :=
  | Returned
  | WouldBlock
  | GotLock
  | TimedOut (state : option LockState)
  | IsState (state : LockState).

Inductive Next :=
  | Return (r : Result)
  | DownReaders
  | DownWriters (timed : option bool).

Definition read_lock (block : bool) (s : RWState) : RWState * Next :=
  if (0 <? writerswaiting s) || (0 <? writing s) then
    if negb block then (up MUTEX s, Return WouldBlock)
    else (up MUTEX (set_readerswaiting (inc (readerswaiting s)) s), DownReaders)
  else (up MUTEX (set_reading (inc (reading s)) s), Return Returned).

Definition read_lock_priority (block : bool) (s : RWState) : RWState * Next :=
  if 0 <? writing s then
    if negb block then (up MUTEX s, Return WouldBlock)
    else (up MUTEX (set_readerswaiting (inc (readerswaiting s)) s), DownReaders)
  else (up MUTEX (set_reading (inc (reading s)) s), Return Returned).

Definition read_unlock (s : RWState) : RWState * Next :=
  let s1 :=
    if 0 <? reading s then
      let s := set_reading (dec (reading s)) s in
      if (0 <? writerswaiting s) && (reading s =? 0) then
        let s := set_writerswaiting (dec (writerswaiting s)) s in
        up WRITERS (set_writing (inc (writing s)) s)
      else s
    else s in
  (up MUTEX s1, Return Returned).

Definition write_lock (block : bool) (s : RWState) : RWState * Next :=
  if (0 <? writing s) || (0 <? reading s) then
    if negb block then (up MUTEX s, Return WouldBlock)
    else (up MUTEX (set_writerswaiting (inc (writerswaiting s)) s), DownWriters None)
  else (up MUTEX (set_writing (inc (writing s)) s), Return Returned).

(** [timed_write_lock] up to its wait for [WRITERS]; [want] says whether the caller
    passed a [LockState] to fill in. *)
Definition timed_write_lock (want : bool) (s : RWState) : RWState * Next :=
  if (0 <? writing s) || (0 <? reading s) then
    (up MUTEX (set_writerswaiting (inc (writerswaiting s)) s), DownWriters (Some want))
  else (up MUTEX (set_writing (inc (writing s)) s), Return GotLock).

(** The end of [timed_write_lock], when the wait for [WRITERS] has timed out and
    [MUTEX] was taken again to revoke the request. *)
Definition revoke (want : bool) (s : RWState) : RWState * Next :=
  let out s := if want then Some (return_state false s) else None in
  if writerswaiting s =? 0 then
    match down WRITERS s with
    | None => (up MUTEX s, Return (TimedOut (out s)))
    | Some s => (up MUTEX s, Return GotLock)
    end
  else
    let s := set_writerswaiting (dec (writerswaiting s)) s in
    let s :=
      if (writing s =? 0) && (writerswaiting s =? 0)
      then wake_readers (set_reading (i32 (reading s + readerswaiting s)) s)
      else s in
    (up MUTEX s, Return (TimedOut (out s))).

Definition write_unlock (s : RWState) : RWState * Next :=
  let s := set_writing (dec (writing s)) s in
  let s1 :=
    if 0 <? writerswaiting s then
      let s := set_writerswaiting (dec (writerswaiting s)) s in
      up WRITERS (set_writing (inc (writing s)) s)
    else if 0 <? readerswaiting s then
      wake_readers (set_reading (readerswaiting s) s)
    else s in
  (up MUTEX s1, Return Returned).

Definition upgrade_to_write (s : RWState) : RWState * Next :=
  let s1 := if 0 <? reading s then set_reading (dec (reading s)) s else s in
  if (0 <? reading s) && (reading s1 =? 0) then
    (up MUTEX (set_writing (inc (writing s1)) s1), Return Returned)
  else if (0 <? writing s1) || (0 <? reading s1) then
    (up MUTEX (set_writerswaiting (inc (writerswaiting s1)) s1), DownWriters None)
  else (up MUTEX (set_writing (inc (writing s1)) s1), Return Returned).

Definition downgrade_to_read (s : RWState) : RWState * Next :=
  let s := set_writing (dec (writing s)) s in
  let s := if 0 <? readerswaiting s then wake_readers (set_reading (readerswaiting s) s) else s in
  (up MUTEX (set_reading (inc (reading s)) s), Return Returned).

Definition getLockState (s : RWState) : RWState * Next :=
  (up MUTEX s, Return (IsState (return_state false s))).

(** [RWLock::reset], which does not take [MUTEX]. *)
Definition rw_reset (s : RWState) : RWState :=
  let s := set_reading 0 (set_readerswaiting 0 (set_writing 0 (set_writerswaiting 0 s))) in
  let drain n s := if 0 <? sem n s then set_sem n 0 s else s in
  up MUTEX (drain WRITERS (drain READERS (drain MUTEX s))).

(** ** Threads *)

Inductive RWCall :=
  | ReadLock (block : bool)
  | ReadLockPriority (block : bool)
  | ReadUnlock
  | WriteLock (block : bool)
  | TimedWriteLock (want : bool)
  | WriteUnlock
  | UpgradeToWrite
  | DowngradeToRead
  | GetLockState.

(** What the caller has of the lock, by what its calls have returned. *)
Inductive Held := HNone | HRead | HWrite.

Definition held_is (a b : Held) : bool :=
  match a, b with HNone, HNone | HRead, HRead | HWrite, HWrite => true | _, _ => false end.

(** Where a thread is: outside any call (with the result of the last one), before
    [MUTEX], with [MUTEX], at [down(READERS)], at [down(WRITERS)] or
    [timed_down(WRITERS)], and before and with the [MUTEX] that a timed request
    needs to be revoked. *)
Inductive Thread :=
  | Outside (h : Held) (last : option Result)
  | AtMutex (h : Held) (c : RWCall)
  | Inside (h : Held) (c : RWCall)
  | AtReaders
  | AtWriters (timed : option bool)
  | AtRevoke (want : bool)
  | InRevoke (want : bool).

Definition rw_body (c : RWCall) : RWState → RWState * Next :=
  match c with
  | ReadLock block => read_lock block
  | ReadLockPriority block => read_lock_priority block
  | ReadUnlock => read_unlock
  | WriteLock block => write_lock block
  | TimedWriteLock want => timed_write_lock want
  | WriteUnlock => write_unlock
  | UpgradeToWrite => upgrade_to_write
  | DowngradeToRead => downgrade_to_read
  | GetLockState => getLockState
  end.

(** What the result of a call gives its caller. *)
Definition held_after (h : Held) (c : RWCall) (r : Result) : Held :=
  match c, r with
  | (ReadLock _ | ReadLockPriority _ | DowngradeToRead), Returned => HRead
  | (WriteLock _ | UpgradeToWrite), Returned => HWrite
  | TimedWriteLock _, GotLock => HWrite
  | (ReadUnlock | WriteUnlock), Returned => HNone
  | _, _ => h
  end.

(** Which calls a caller may make: it locks what it does not hold and releases what
    it holds. *)
Definition lawful (h : Held) (c : RWCall) : bool :=
  match c with
  | ReadLock _ | ReadLockPriority _ | WriteLock _ | TimedWriteLock _ => held_is h HNone
  | ReadUnlock | UpgradeToWrite => held_is h HRead
  | WriteUnlock | DowngradeToRead => held_is h HWrite
  | GetLockState => true
  end.

Definition goes_on (h : Held) (c : RWCall) (n : Next) : Thread :=
  match n with
  | Return r => Outside (held_after h c r) (Some r)
  | DownReaders => AtReaders
  | DownWriters timed => AtWriters timed
  end.

(** The next step of a thread: a new call, going on, or the end of a wait that has a
    time limit.  [timed_down] gives up only when its last attempt found the semaphore
    at 0.  The counters that are then copied out are read without [MUTEX]: [seen] is
    what the reads happen to find. *)
Inductive Action :=
  | ACall (c : RWCall)
  | AGo
  | AExpire (seen : LockState).

Definition unguarded (want : bool) (seen : LockState) : option LockState :=
  if want then Some (mkLS (ls_writerswaiting seen) (ls_writing seen) (ls_readerswaiting seen)
                       (ls_reading seen) true)
  else None.

Definition rw_step (a : Action) (s : RWState) (t : Thread) : option (RWState * Thread) :=
  match a, t with
  | ACall c, Outside h _ => Some (s, AtMutex h c)
  | AGo, AtMutex h c => s' ← down MUTEX s; Some (s', Inside h c)
  | AGo, Inside h c => let '(s', n) := rw_body c s in Some (s', goes_on h c n)
  | AGo, AtReaders => s' ← down READERS s; Some (s', Outside HRead (Some Returned))
  | AGo, AtWriters timed =>
      s' ← down WRITERS s;
      Some (s', Outside HWrite (Some (match timed with None => Returned | Some _ => GotLock end)))
  | AGo, AtRevoke want => s' ← down MUTEX s; Some (s', InRevoke want)
  | AGo, InRevoke want =>
      let '(s', n) := revoke want s in Some (s', goes_on HNone (TimedWriteLock want) n)
  | AExpire seen, AtMutex h (TimedWriteLock want) =>
      if sem MUTEX s =? 0 then Some (s, Outside h (Some (TimedOut (unguarded want seen)))) else None
  | AExpire seen, AtMutex h GetLockState =>
      if sem MUTEX s =? 0 then
        Some (s, Outside h (IsState <$> unguarded true seen))
      else None
  | AExpire _, AtWriters (Some want) =>
      if sem WRITERS s =? 0 then Some (s, AtRevoke want) else None
  | AExpire seen, AtRevoke want =>
      if sem MUTEX s =? 0 then Some (s, Outside HNone (Some (TimedOut (unguarded want seen)))) else None
  | _, _ => None
  end.

(** ** The threads that share a lock *)

Record System := mkSys { shared : RWState; threads : list Thread }.

(** The first instance of a lock may start with the write lock. *)
Definition sys_start (excl : bool) (n : nat) : System :=
  mkSys (fresh_state excl) (Outside (if excl then HWrite else HNone) None :: replicate n (Outside HNone None)).

Definition sys_step (i : nat) (a : Action) (c : System) : option System :=
  t ← threads c !! i;
  p ← rw_step a (shared c) t;
  Some (mkSys p.1 (<[i := p.2]> (threads c))).

Definition call_ok (a : Action) (t : Thread) : bool :=
  match a, t with ACall c, Outside h _ => lawful h c | _, _ => true end.

(** A request that could not be revoked within ten seconds. *)
Definition gives_up (a : Action) (t : Thread) : bool :=
  match a, t with AExpire _, AtRevoke _ => true | _, _ => false end.

(** The systems that threads which keep to [lawful] can reach; [lost] counts the
    requests that were given up without being revoked. *)
Inductive reachable (excl : bool) (n : nat) : Z → System → Prop :=
  | reach_start : reachable excl n 0 (sys_start excl n)
  | reach_step lost c i a t c' :
      reachable excl n lost c →
      threads c !! i = Some t → call_ok a t = true →
      sys_step i a c = Some c' →
      reachable excl n (lost + Z.b2z (gives_up a t)) c'.

(** Running a schedule; [None] when a step is not possible or not lawful. *)
Definition checked_step (i : nat) (a : Action) (c : System) : option (bool * System) :=
  t ← threads c !! i;
  c' ← sys_step i a c;
  if call_ok a t then Some (gives_up a t, c') else None.

Fixpoint sys_run (l : list (nat * Action)) (lost : Z) (c : System) : option (Z * System) :=
  match l with
  | [] => Some (lost, c)
  | (i, a) :: l' => p ← checked_step i a c; sys_run l' (lost + Z.b2z p.1) p.2
  end.

(** ** The objects that share a lock

    [makeRWLockShmImpl] keeps one object per key and process; the constructor creates
    the segment of the key or attaches to it. *)

Record ShmWorld := mkWorld {
  segments : gmap Z RWState;
  lockMap : gset Z;
  mst_segment : option (list MSTEntry);
  mst_instance : bool;
}.

Definition RWLockShmImpl (key : Z) (excl : bool) : M ShmWorld unit := fun w =>
  match segments w !! key with
  | None => (Ret tt, mkWorld (<[key := fresh_state excl]> (segments w)) (lockMap w)
                       (mst_segment w) (mst_instance w))
  | Some _ => if excl then (Exn NotExcl, w) else (Ret tt, w)
  end.

(** The result is what [*excl] holds afterwards. *)
Definition makeRWLockShmImpl (key : Z) (excl : option bool) : M ShmWorld (option bool) :=
  known ← gets (fun w => bool_decide (key ∈ lockMap w));
  if known : bool then mret ((fun _ => false) <$> excl)
  else
    _ ← RWLockShmImpl key (default false excl);
    _ ← modify (fun w => mkWorld (segments w) ({[key]} ∪ lockMap w) (mst_segment w) (mst_instance w));
    mret excl.

(** ** The master segment table *)

Definition EMTable : Z := 0.
Definition EMFreeList : Z := 1.
Definition VBBMSegment : Z := 2.
Definition VSSSegment : Z := 3.
Definition CLSegment : Z := 4.
Definition nTables : Z := 5.

(** [ShmKeys] without [WANT_EM_BRM_UID], in the order of [RWLockKeys]. *)
Definition RWLockKeys : list Z := [0x20000; 0x30000; 0x40000; 0x10000; 0x50000].

Definition zeroed_mst : list MSTEntry := replicate 5 (mkMST 0 0 0).

(** [MasterSegmentTableImpl]: a segment that is created is truncated to its size,
    which fills it with zeros. *)
Definition makeMSTSegment : M ShmWorld unit :=
  modify (fun w =>
    if mst_instance w then w
    else mkWorld (segments w) (lockMap w) (Some (default zeroed_mst (mst_segment w))) true).

Definition initMSTData : M ShmWorld unit :=
  modify (fun w => mkWorld (segments w) (lockMap w) (Some zeroed_mst) (mst_instance w)).

(** The constructor; its result is the calls it makes on the first lock before it
    returns, which may have to wait. *)
Definition MasterSegmentTable : M ShmWorld (list RWCall) :=
  let initializer := false in
  excl ← makeRWLockShmImpl (RWLockKeys !!! 0%nat) (Some initializer);
  _ ← forM [1; 2; 3; 4]%nat (fun i => _ ← makeRWLockShmImpl (RWLockKeys !!! i) None; mret tt);
  _ ← makeMSTSegment;
  if default initializer excl then
    _ ← initMSTData;
    mret [WriteUnlock]
  else mret [ReadLockPriority true; ReadUnlock].

(** The calls on a table: which lock, which call, and the entry that is returned
    when the call of the lock is over ([None] is NULL). *)
Record TableCall := mkTC {
  tc_lock : Z;
  tc_call : RWCall;
  tc_entry : Result → option Z;
}.

Definition in_tables (num : Z) : bool := negb ((num <? 0) || (nTables - 1 <? num)).

Definition null_if_blocked (num : Z) (r : Result) : option Z :=
  match r with WouldBlock => None | _ => Some num end.

Definition getTable_read (num : Z) (block : bool) : outcome TableCall :=
  if negb (in_tables num) then Exn InvalidArgument
  else if negb block then Ret (mkTC num (ReadLock false) (null_if_blocked num))
  else Ret (mkTC num (ReadLock true) (fun _ => Some num)).

Definition getTable_write (num : Z) (block : bool) : outcome TableCall :=
  if negb (in_tables num) then Exn InvalidArgument
  else if negb block then Ret (mkTC num (WriteLock false) (null_if_blocked num))
  else Ret (mkTC num (WriteLock true) (fun _ => Some num)).

Definition getTable_upgrade (num : Z) : outcome TableCall :=
  if negb (in_tables num) then Exn InvalidArgument
  else Ret (mkTC num UpgradeToWrite (fun _ => None)).

Definition getTable_downgrade (num : Z) : outcome TableCall :=
  if negb (in_tables num) then Exn InvalidArgument
  else Ret (mkTC num DowngradeToRead (fun _ => None)).

Definition releaseTable_read (num : Z) : outcome TableCall :=
  if (num <? 0) || (nTables <=? num) then Exn InvalidArgument
  else Ret (mkTC num ReadUnlock (fun _ => None)).

Definition releaseTable_write (num : Z) : outcome TableCall :=
  if (num <? 0) || (nTables <=? num) then Exn InvalidArgument
  else Ret (mkTC num WriteUnlock (fun _ => None)).

(** ** The lock monitor ([RWLockMonitor::operator()]) *)

Inductive LogMessage := M0092 | M0093 | M0094 | M0095.

Record MonitorTurn := mkTurn {
  mt_calls : list RWCall;
  mt_log : option LogMessage;
  mt_reported : bool;
  mt_stop : bool;
}.

(** One turn of the loop after [timed_write_lock] has returned [r]. *)
Definition monitor_turn (die lockStatus reported : bool) (r : Result) : MonitorTurn :=
  if die then mkTurn [] None reported true
  else
    let report m := if negb reported then Some m else None in
    match r with
    | TimedOut (Some state) =>
        if mutexLocked state then mkTurn [] (report M0092) true false
        else if 0 <? ls_reading state then
          mkTurn (replicate (Z.to_nat (ls_reading state)) ReadUnlock) (report M0094) true false
        else if (0 <? ls_writing state) && negb lockStatus then
          mkTurn [] (report M0093) true false
        else mkTurn [] None reported false
    | GotLock => mkTurn [WriteUnlock] (if reported then Some M0095 else None) false false
    | _ => mkTurn [] None reported false
    end.
