(* ===== verification/RwLockProofs.v ===== *)
(** * Proofs about the read/write lock

    The invariant counts: each counter of the lock is a number of threads plus the
    posts that nobody has taken yet.  Every step keeps it, whichever thread makes it;
    mutual exclusion, the tests of the debug build, and that no waiting thread is
    forgotten follow. *)

From S2P Require Import Prelude Table RwLock.

(** ** Counting threads *)

Lemma count_cons {A} (p : A → bool) x l : count p (x :: l) = Z.b2z (p x) + count p l.
Proof. unfold count. cbn. destruct (p x); cbn [Z.b2z]; [rewrite zlength_cons|]; lia. Qed.

Lemma count_insert {A} (p : A → bool) l i x y :
  l !! i = Some x → count p (<[i := y]> l) = count p l - Z.b2z (p x) + Z.b2z (p y).
Proof.
  revert i. induction l as [|z l IH]; intros [|i] Hi; try done; cbn in Hi.
  - injection Hi as ->. change (<[0%nat := y]> (x :: l)) with (y :: l). rewrite !count_cons. lia.
  - change (<[S i := y]> (z :: l)) with (z :: <[i := y]> l). rewrite !count_cons, (IH i Hi). lia.
Qed.

Lemma count_bound {A} (p : A → bool) l : 0 ≤ count p l ≤ zlength l.
Proof. unfold count, zlength. pose proof (List.filter_length_le p l). lia. Qed.

Lemma count_pos {A} (p : A → bool) l i x : l !! i = Some x → p x = true → 0 < count p l.
Proof.
  intros Hi Hp. revert i Hi. induction l as [|z l IH]; intros [|i] Hi; try done; cbn in Hi; rewrite count_cons.
  - injection Hi as ->. rewrite Hp. pose proof (count_bound p l). cbn. lia.
  - pose proof (IH i Hi). destruct (p z); cbn; lia.
Qed.

Lemma count_pos_inv {A} (p : A → bool) l : 0 < count p l → ∃ i x, l !! i = Some x ∧ p x = true.
Proof.
  induction l as [|z l IH]; [done|]. rewrite count_cons. destruct (p z) eqn:Hp.
  - intros _. by exists 0%nat, z.
  - intros H. destruct IH as (i & x & Hi & Hx); [by cbn in H|]. by exists (S i), x.
Qed.

Lemma count_two {A} (p : A → bool) l i j x y :
  i ≠ j → l !! i = Some x → l !! j = Some y → p x = true → p y = true → 2 ≤ count p l.
Proof.
  intros Hij Hi Hj Hx Hy. revert i j Hij Hi Hj. induction l as [|z l IH]; [done|].
  intros [|i] [|j] Hij Hi Hj; cbn in Hi, Hj; try done; rewrite count_cons.
  - injection Hi as ->. rewrite Hx. pose proof (count_pos p l j y Hj Hy). cbn. lia.
  - injection Hj as ->. rewrite Hy. pose proof (count_pos p l i x Hi Hx). cbn. lia.
  - pose proof (IH i j ltac:(lia) Hi Hj). destruct (p z); cbn; lia.
Qed.

(** What a thread holds: a call that releases the lock holds it until it is carried
    out; a thread that waits holds nothing. *)
Definition holds (t : Thread) : Held :=
  match t with Outside h _ | AtMutex h _ | Inside h _ => h | _ => HNone end.
Definition is_reader (t : Thread) : bool := held_is (holds t) HRead.
Definition is_writer (t : Thread) : bool := held_is (holds t) HWrite.
Definition waits_read (t : Thread) : bool := match t with AtReaders => true | _ => false end.
Definition waits_write (t : Thread) : bool :=
  match t with AtWriters _ | AtRevoke _ | InRevoke _ => true | _ => false end.
Definition has_mutex (t : Thread) : bool :=
  match t with Inside _ _ | InRevoke _ => true | _ => false end.

(** A call in progress is one its caller was allowed to make. *)
Definition thread_ok (t : Thread) : bool :=
  match t with AtMutex h c | Inside h c => lawful h c | _ => true end.

(** ** The invariant *)

Record rw_inv (lost : Z) (s : RWState) (ts : list Thread) : Prop := mkInv {
  inv_lost : 0 ≤ lost;
  inv_writing : writing s = count is_writer ts + sem_writers s;
  inv_reading : reading s = count is_reader ts + sem_readers s;
  inv_rwait : readerswaiting s + sem_readers s = count waits_read ts;
  inv_wwait : writerswaiting s + sem_writers s = count waits_write ts + lost;
  inv_mutex : sem_mutex s + count has_mutex ts = 1;
  inv_pos : 0 ≤ sem_mutex s ∧ 0 ≤ sem_readers s ∧ 0 ≤ sem_writers s
            ∧ 0 ≤ readerswaiting s ∧ 0 ≤ writerswaiting s;
  inv_excl : writing s ≤ 1 ∧ (writing s = 0 ∨ reading s = 0);
  inv_wlive : writerswaiting s = 0 ∨ 0 < reading s + writing s;
  inv_rlive : readerswaiting s = 0 ∨ 0 < writing s + writerswaiting s;
  inv_ok : ∀ i t, ts !! i = Some t → thread_ok t = true;
}.

Lemma count_replicate {A} (p : A → bool) n x : count p (replicate n x) = if p x then Z.of_nat n else 0.
Proof.
  induction n as [|n IH]; [by destruct (p x)|]. cbn [replicate]. rewrite count_cons, IH.
  destruct (p x); cbn [Z.b2z]; lia.
Qed.

Lemma start_inv excl n : rw_inv 0 (shared (sys_start excl n)) (threads (sys_start excl n)).
Proof.
  split; cbn [shared threads sys_start]; rewrite ?count_cons, ?count_replicate; destruct excl; try (cbn; lia).
  all: intros [|i] t; [by intros [= <-]|]; by intros (-> & _)%lookup_replicate.
Qed.

(** Waking the readers. *)
Lemma i32_small x : - 2 ^ 31 ≤ x < 2 ^ 31 → i32 x = x.
Proof. intros. apply wrap_s_small; lia. Qed.

Lemma wake_run s :
  0 ≤ readerswaiting s < 2 ^ 31 →
  wake_readers s =
    mkRW (writerswaiting s) (writing s) 0 (reading s) (sem_mutex s)
      (sem_readers s + readerswaiting s) (sem_writers s).
Proof.
  unfold wake_readers. intros Hs. remember (Z.to_nat (readerswaiting s)) as n eqn:Hn.
  revert s Hs Hn. induction n as [|n IH]; intros s Hs Hn; cbn [wake_loop].
  - destruct s; cbn in *. f_equal; lia.
  - rewrite (proj2 (Z.ltb_lt _ _)) by lia. unfold dec. rewrite i32_small by lia.
    rewrite IH; destruct s; cbn in *; [f_equal; lia|lia|lia].
Qed.

(** ** Every step keeps it *)

Lemma count_has {A} (p : A → bool) l i x : l !! i = Some x → Z.b2z (p x) ≤ count p l.
Proof.
  intros Hi. destruct (p x) eqn:Hp; cbn.
  - pose proof (count_pos p l i x Hi Hp). lia.
  - apply count_bound.
Qed.

(** A change of the shared state and of one thread keeps the invariant when the
    counters follow what the thread becomes. *)
Lemma rw_change lost s ts i t lost' s' t' :
  rw_inv lost s ts → ts !! i = Some t → thread_ok t' = true →
  (let d p := Z.b2z (p t') - Z.b2z (p t) in
   (∀ p, Z.b2z (p t) ≤ count p ts ≤ zlength ts) →
   (∀ p, count p ts + d p ≤ zlength ts) →
   0 ≤ lost' ∧
   writing s' = count is_writer ts + d is_writer + sem_writers s' ∧
   reading s' = count is_reader ts + d is_reader + sem_readers s' ∧
   readerswaiting s' + sem_readers s' = count waits_read ts + d waits_read ∧
   writerswaiting s' + sem_writers s' = count waits_write ts + d waits_write + lost' ∧
   sem_mutex s' + count has_mutex ts + d has_mutex = 1 ∧
   (0 ≤ sem_mutex s' ∧ 0 ≤ sem_readers s' ∧ 0 ≤ sem_writers s'
    ∧ 0 ≤ readerswaiting s' ∧ 0 ≤ writerswaiting s') ∧
   (writing s' ≤ 1 ∧ (writing s' = 0 ∨ reading s' = 0)) ∧
   (writerswaiting s' = 0 ∨ 0 < reading s' + writing s') ∧
   (readerswaiting s' = 0 ∨ 0 < writing s' + writerswaiting s')) →
  rw_inv lost' s' (<[i := t']> ts).
Proof.
  intros Hinv Hi Hok H. cbv zeta in H. destruct H as (? & ? & ? & ? & ? & ? & ? & ? & ? & ?).
  - intros p. split; [by apply count_has with i|apply count_bound].
  - intros p. pose proof (count_insert p ts i t t' Hi). pose proof (count_bound p (<[i := t']> ts)).
    unfold zlength in *. rewrite length_insert in *. lia.
  - split; rewrite ?(count_insert _ ts i t t' Hi); try lia.
    intros j u. destruct (decide (i = j)) as [->|].
    + rewrite list_lookup_insert_eq by by eapply lookup_lt_Some. by intros [= <-].
    + rewrite list_lookup_insert_ne by done. apply (inv_ok _ _ _ Hinv).
Qed.

(** Reduces the goals that [rw_change] leaves to arithmetic on the counters. *)
Ltac counters :=
  lazymatch goal with
  | Hinv : rw_inv _ _ _ |- _ =>
      destruct Hinv as [? ? ? ? ? ? ? ? ? ? _];
      let Hd := fresh "Hd" in let Hu := fresh "Hu" in
      cbv zeta; intros Hd Hu;
      pose proof (Hd is_reader); pose proof (Hd is_writer); pose proof (Hd waits_read);
      pose proof (Hd waits_write); pose proof (Hd has_mutex);
      pose proof (Hu is_reader); pose proof (Hu is_writer); pose proof (Hu waits_read);
      pose proof (Hu waits_write); pose proof (Hu has_mutex);
      clear Hd Hu;
      cbn [is_reader is_writer waits_read waits_write has_mutex holds held_is Z.b2z goes_on held_after] in *;
      cbn in *;
      unfold inc, dec in *;
      rewrite ?i32_small by lia;
      lia
  end.

Lemma down_inv n s s' : down n s = Some s' → 0 < sem n s ∧ s' = set_sem n (sem n s - 1) s.
Proof. unfold down. case_if; [|done]. by intros [= <-]. Qed.

Section Steps.
Context (lost : Z) (s : RWState) (ts : list Thread) (i : nat).
Context (Hinv : rw_inv lost s ts) (Hn : zlength ts + lost < 2 ^ 30).

(** The counters do not overflow. *)
Lemma inv_bounds :
  0 ≤ writerswaiting s < 2 ^ 30 ∧ 0 ≤ writing s ≤ 1 ∧ 0 ≤ readerswaiting s < 2 ^ 30
  ∧ 0 ≤ reading s ∧ reading s + readerswaiting s < 2 ^ 31 - 1.
Proof using Hinv Hn.
  pose proof (count_bound is_reader ts). pose proof (count_bound is_writer ts).
  pose proof (count_bound waits_read ts). pose proof (count_bound waits_write ts).
  destruct Hinv as [? ? ? ? ? ? ? ? ? ? _]. lia.
Qed.

Lemma body_keeps h c s' n :
  ts !! i = Some (Inside h c) → rw_body c s = (s', n) → rw_inv lost s' (<[i := goes_on h c n]> ts).
Proof using Hinv Hn.
  intros Hi Hb. pose proof (inv_ok _ _ _ Hinv _ _ Hi) as Hok. pose proof inv_bounds as Hbd.
  destruct s as [ww w rw r m sr sw]. cbn in Hok, Hbd.
  destruct c; cbn in Hok; destruct h; try done;
    unfold rw_body, read_lock, read_lock_priority, read_unlock, write_lock, timed_write_lock, write_unlock,
      upgrade_to_write, downgrade_to_read, getLockState, inc, dec in Hb;
    cbn -[wake_readers Z.ltb Z.eqb] in Hb; rewrite ?(i32_small (w - 1)), ?i32_small in Hb by lia;
    repeat (case_if; cbn -[wake_readers Z.ltb Z.eqb] in Hb); injection Hb as <- <-;
    rewrite ?wake_run by (cbn; lia);
    (eapply rw_change; [exact Hinv|exact Hi|done|cbn; counters]).
Qed.

Lemma revoke_keeps want s' n :
  ts !! i = Some (InRevoke want) → revoke want s = (s', n) →
  rw_inv lost s' (<[i := goes_on HNone (TimedWriteLock want) n]> ts).
Proof using Hinv Hn.
  intros Hi Hb. pose proof inv_bounds as Hbd. destruct s as [ww w rw r m sr sw]. cbn in Hbd.
  unfold revoke, down, inc, dec in Hb. cbn -[wake_readers Z.ltb Z.eqb] in Hb.
  rewrite ?i32_small in Hb by lia.
  repeat (case_if; cbn -[wake_readers Z.ltb Z.eqb] in Hb); injection Hb as <- <-;
    rewrite ?wake_run by (cbn; lia);
    (eapply rw_change; [exact Hinv|exact Hi|done|cbn; counters]).
Qed.

Ltac moved Hinv Hi :=
  eapply rw_change; [exact Hinv|exact Hi|first [done|exact (inv_ok _ _ _ Hinv _ _ Hi)]|];
  lazymatch goal with st : RWState |- _ => destruct st; cbn; counters end.

Lemma step_keeps a t s' t' :
  ts !! i = Some t → call_ok a t = true → rw_step a s t = Some (s', t') →
  rw_inv (lost + Z.b2z (gives_up a t)) s' (<[i := t']> ts).
Proof using Hinv Hn.
  intros Hi Hok Hs.
  destruct a as [ac| |seen], t as [h l|h c|h c| |timed|want|want]; try done; cbn in Hs;
    cbn [gives_up Z.b2z]; rewrite ?Z.add_0_r.
  - injection Hs as <- <-. destruct h; moved Hinv Hi.
  - destruct (down MUTEX s) as [d|] eqn:Hd; [|done]. injection Hs as <- <-.
    apply down_inv in Hd as (? & ->). destruct h; moved Hinv Hi.
  - destruct (rw_body c s) as [d n] eqn:Hb. injection Hs as <- <-. by apply body_keeps.
  - destruct (down READERS s) as [d|] eqn:Hd; [|done]. injection Hs as <- <-.
    apply down_inv in Hd as (? & ->). moved Hinv Hi.
  - destruct (down WRITERS s) as [d|] eqn:Hd; [|done]. injection Hs as <- <-.
    apply down_inv in Hd as (? & ->). moved Hinv Hi.
  - destruct (down MUTEX s) as [d|] eqn:Hd; [|done]. injection Hs as <- <-.
    apply down_inv in Hd as (? & ->). moved Hinv Hi.
  - destruct (revoke want s) as [d n] eqn:Hb. injection Hs as <- <-. by apply revoke_keeps.
  - destruct c; try done; case_if; try done; injection Hs as <- <-; destruct h; moved Hinv Hi.
  - destruct timed as [want|]; [|done]. case_if; [|done]. injection Hs as <- <-. moved Hinv Hi.
  - case_if; [|done]. injection Hs as <- <-. moved Hinv Hi.
Qed.
End Steps.

Lemma sys_step_inv i a c c' :
  sys_step i a c = Some c' →
  ∃ t s' t', threads c !! i = Some t ∧ rw_step a (shared c) t = Some (s', t')
             ∧ c' = mkSys s' (<[i := t']> (threads c)).
Proof.
  unfold sys_step. destruct (threads c !! i) as [t|]; [|done]. cbn.
  destruct (rw_step a (shared c) t) as [[s' t']|] eqn:Hs; [|done]. cbn. intros [= <-].
  by exists t, s', t'.
Qed.

Lemma rw_reachable_inv excl n lost c :
  reachable excl n lost c → Z.of_nat n + 1 + lost < 2 ^ 30 →
  rw_inv lost (shared c) (threads c) ∧ length (threads c) = S n.
Proof.
  induction 1 as [|lost c i a t c' Hr IH Ht Hok Hs]; intros Hn.
  - split; [apply start_inv|]. cbn. by rewrite length_replicate.
  - apply sys_step_inv in Hs as (t0 & s' & t' & Ht0 & Hs & ->).
    rewrite Ht in Ht0. injection Ht0 as <-.
    destruct IH as [Hinv Hl]; [destruct (gives_up a t); cbn in Hn; lia|].
    split; [|cbn; by rewrite length_insert].
    apply step_keeps with (shared c); auto. unfold zlength. rewrite Hl. destruct (gives_up a t); cbn in Hn; lia.
Qed.

Lemma sys_run_reachable excl n l lost c lost' c' :
  reachable excl n lost c → sys_run l lost c = Some (lost', c') → reachable excl n lost' c'.
Proof.
  revert lost c. induction l as [|[i a] l IH]; intros lost c Hr; cbn.
  - by intros [= <- <-].
  - unfold checked_step. destruct (threads c !! i) as [t|] eqn:Ht; [|done]. cbn.
    destruct (sys_step i a c) as [c1|] eqn:Hs; [|done]. cbn.
    destruct (call_ok a t) eqn:Hok; [|done]. cbn. apply IH. by eapply reach_step.
Qed.

(** ** Draining the lock

    The threads that hold the lock release it, calls in progress go on, and no other
    call is made. *)

Definition settles (a : Action) (t : Thread) : bool :=
  match a, t with
  | ACall ReadUnlock, Outside HRead _ | ACall WriteUnlock, Outside HWrite _ => true
  | ACall _, _ => false
  | AExpire _, AtRevoke _ => false
  | _, _ => true
  end.

Fixpoint settle_run (l : list (nat * Action)) (c : System) : option System :=
  match l with
  | [] => Some c
  | (i, a) :: l' =>
      t ← threads c !! i;
      if settles a t then c' ← sys_step i a c; settle_run l' c' else None
  end.

(** How many steps of its own a thread still has to make at most. *)
Definition rank (t : Thread) : nat :=
  match t with
  | Outside HNone _ => 0
  | Inside _ (ReadUnlock | WriteUnlock) => 1
  | AtMutex _ (ReadUnlock | WriteUnlock) => 2
  | Outside _ _ => 3
  | AtReaders | InRevoke _ => 4
  | AtRevoke _ => 5
  | AtWriters _ => 6
  | Inside _ _ => 7
  | AtMutex _ _ => 8
  end.

Lemma rank_decreases a s t s' t' :
  settles a t = true → rw_step a s t = Some (s', t') → (rank t' < rank t)%nat.
Proof.
  destruct a as [ac| |seen], t as [h l|h c|h c| |timed|want|want]; try done; cbn.
  - destruct h, ac; try done; intros _ [= <- <-]; cbn; lia.
  - intros _. destruct (down MUTEX s); [|done]. cbn. intros [= <- <-]. destruct c; cbn; lia.
  - intros _. destruct (rw_body c s) as [d n] eqn:Hb. intros [= <- <-].
    destruct n as [r| |timed].
    + destruct c, r, h; cbn; try lia; try (cbn in Hb; unfold read_unlock, write_unlock in Hb; done).
    + destruct c; cbn; try lia; cbn in Hb; done.
    + destruct c; cbn; try lia; cbn in Hb; done.
  - intros _. destruct (down READERS s); [|done]. cbn. intros [= <- <-]. cbn. lia.
  - intros _. destruct (down WRITERS s); [|done]. cbn. intros [= <- <-]. cbn. lia.
  - intros _. destruct (down MUTEX s); [|done]. cbn. intros [= <- <-]. cbn. lia.
  - intros _. unfold revoke, down. repeat case_if; intros [= <- <-]; cbn; lia.
  - intros _. destruct c; try done; case_if; try done; intros [= <- <-]; destruct h; cbn; lia.
  - intros _. destruct timed; [|done]. case_if; [|done]. intros [= <- <-]. cbn. lia.
Qed.

Definition total_rank (ts : list Thread) : nat := sum_list (rank <$> ts).

Lemma total_rank_insert ts i t t' :
  ts !! i = Some t → (rank t' < rank t)%nat → (total_rank (<[i := t']> ts) < total_rank ts)%nat.
Proof.
  revert i. induction ts as [|u ts IH]; intros [|i] Hi Hr; try done; cbn in Hi.
  - injection Hi as ->. change (<[0%nat := t']> (t :: ts)) with (t' :: ts).
    unfold total_rank. cbn. lia.
  - pose proof (IH i Hi Hr). change (<[S i := t']> (u :: ts)) with (u :: <[i := t']> ts).
    unfold total_rank in *. cbn. lia.
Qed.

Lemma total_rank_le ts : (total_rank ts ≤ 8 * length ts)%nat.
Proof.
  unfold total_rank. induction ts as [|u ts IH]; cbn; [done|].
  assert (rank u ≤ 8)%nat by (destruct u as [[]| ? []| ? []| | | | ]; cbn; lia). lia.
Qed.

Lemma settles_ok a t : settles a t = true → call_ok a t = true ∧ gives_up a t = false.
Proof. destruct a as [[]| |], t as [[]| | | | | | ]; done. Qed.

Lemma settle_run_rank l c c' :
  settle_run l c = Some c' → (length l + total_rank (threads c') ≤ total_rank (threads c))%nat.
Proof.
  revert c. induction l as [|[i a] l IH]; intros c; cbn.
  - intros [= <-]. lia.
  - destruct (threads c !! i) as [t|] eqn:Ht; [|done]. cbn. case_if; [|done].
    destruct (sys_step i a c) as [c1|] eqn:Hs; [|done]. cbn. intros Hr%IH.
    apply sys_step_inv in Hs as (t0 & s' & t' & Ht0 & Hs & ->). rewrite Ht in Ht0. injection Ht0 as <-.
    pose proof (total_rank_insert _ _ _ _ Ht (rank_decreases _ _ _ _ _ Heqb Hs)). cbn [threads length] in *. lia.
Qed.

Lemma settle_run_reachable excl n lost l c c' :
  reachable excl n lost c → settle_run l c = Some c' → reachable excl n lost c'.
Proof.
  revert c. induction l as [|[i a] l IH]; intros c Hr; cbn.
  - by intros [= <-].
  - destruct (threads c !! i) as [t|] eqn:Ht; [|done]. cbn. case_if; [|done].
    destruct (sys_step i a c) as [c1|] eqn:Hs; [|done]. cbn. apply IH.
    destruct (settles_ok _ _ Heqb) as [Hok Hg].
    replace lost with (lost + Z.b2z (gives_up a t)) by (rewrite Hg; cbn; lia). by eapply reach_step.
Qed.

(** Nothing is left to do. *)
Definition quiescent (c : System) : Prop :=
  ∀ i a t, threads c !! i = Some t → settles a t = true → rw_step a (shared c) t = None.

Definition idle (t : Thread) : bool := match t with Outside HNone _ => true | _ => false end.

(** In a quiescent system the only calls in progress are waits for a post. *)
Lemma quiescent_thread c i t :
  quiescent c → 0 < sem_mutex (shared c) ∨ has_mutex t = true → threads c !! i = Some t →
  has_mutex t = false ∧ is_reader t = false ∧ is_writer t = false
  ∧ (idle t || waits_read t || waits_write t) = true
  ∧ (waits_read t = true → sem_readers (shared c) ≤ 0)
  ∧ (waits_write t = true → sem_writers (shared c) ≤ 0).
Proof.
  intros Hq Hm Ht. pose proof (λ a, Hq i a t Ht) as Hq'. clear Hq.
  destruct t as [h l|h c0|h c0| |timed|want|want].
  - destruct h; [done| |]; [specialize (Hq' (ACall ReadUnlock) eq_refl)|specialize (Hq' (ACall WriteUnlock) eq_refl)]; done.
  - destruct Hm as [Hm|]; [|done]. specialize (Hq' AGo eq_refl). cbn in Hq'. unfold down in Hq'. cbn in Hq'.
    rewrite (proj2 (Z.ltb_lt _ _) Hm) in Hq'. done.
  - specialize (Hq' AGo eq_refl). cbn in Hq'. by destruct (rw_body c0 _).
  - specialize (Hq' AGo eq_refl). cbn in Hq'. unfold down in Hq'. cbn in Hq'. case_if; [done|].
    repeat split; done || (intros; lia).
  - specialize (Hq' AGo eq_refl). cbn in Hq'. unfold down in Hq'. cbn in Hq'.
    destruct (0 <? sem_writers (shared c)) eqn:?; [done|zbool].
    repeat split; done || (intros; lia).
  - destruct Hm as [Hm|]; [|done]. specialize (Hq' AGo eq_refl). cbn in Hq'. unfold down in Hq'. cbn in Hq'.
    rewrite (proj2 (Z.ltb_lt _ _) Hm) in Hq'. done.
  - specialize (Hq' AGo eq_refl). cbn in Hq'. by destruct (revoke want _).
Qed.

Lemma count_none {A} (p : A → bool) l : (∀ i x, l !! i = Some x → p x = false) → count p l = 0.
Proof.
  intros H. pose proof (count_bound p l). destruct (decide (0 < count p l)) as [Hc|]; [|lia].
  apply count_pos_inv in Hc as (i & x & Hi & Hx). by rewrite (H i x Hi) in Hx.
Qed.

Lemma quiescent_fresh c :
  rw_inv 0 (shared c) (threads c) → quiescent c →
  shared c = fresh_state false ∧ ∀ i t, threads c !! i = Some t → idle t = true.
Proof.
  intros Hinv Hq.
  assert (count has_mutex (threads c) = 0) as Hm.
  { apply count_none. intros i t Ht. destruct (has_mutex t) eqn:Hh; [|done].
    by destruct (quiescent_thread c i t Hq (or_intror Hh) Ht) as (<- & _). }
  pose proof (inv_mutex _ _ _ Hinv) as Hm1.
  assert (∀ i t, threads c !! i = Some t → _) as Ht
    by (intros i t; apply (quiescent_thread c i t Hq); left; lia).
  assert (count is_reader (threads c) = 0) by (apply count_none; intros i t Hi; apply (Ht i t Hi)).
  assert (count is_writer (threads c) = 0) by (apply count_none; intros i t Hi; apply (Ht i t Hi)).
  assert (sem_readers (shared c) ≤ 0 ∨ count waits_read (threads c) = 0) as Hr.
  { destruct (decide (0 < count waits_read (threads c))) as [(i & t & Hi & Hw)%count_pos_inv|].
    - left. by apply (Ht i t Hi).
    - right. pose proof (count_bound waits_read (threads c)). lia. }
  assert (sem_writers (shared c) ≤ 0 ∨ count waits_write (threads c) = 0) as Hw.
  { destruct (decide (0 < count waits_write (threads c))) as [(i & t & Hi & Hw)%count_pos_inv|].
    - left. by apply (Ht i t Hi).
    - right. pose proof (count_bound waits_write (threads c)). lia. }
  destruct Hinv as [? ? ? ? ? ? ? ? ? ? _].
  split.
  - destruct (shared c) as [ww w rw r m sr sw]. cbn in *. unfold fresh_state. f_equal; lia.
  - intros i t Hi. destruct (Ht i t Hi) as (_ & _ & _ & Hk & _).
    destruct (waits_read t) eqn:Hwr; [pose proof (count_pos _ _ _ _ Hi Hwr); lia|].
    destruct (waits_write t) eqn:Hww; [pose proof (count_pos _ _ _ _ Hi Hww); lia|].
    by rewrite !orb_false_r in Hk.
Qed.

(** ** The theorems *)

Lemma inv_exclusive lost s ts i j t u :
  rw_inv lost s ts → i ≠ j → ts !! i = Some t → ts !! j = Some u → holds t = HWrite → holds u = HNone.
Proof.
  intros [? ? ? ? ? ? ? ? ? ? _] Hij Hi Hj Ht.
  assert (is_writer t = true) as Hw by (unfold is_writer; by rewrite Ht).
  pose proof (count_pos _ _ _ _ Hi Hw). destruct (holds u) eqn:Hu; [done| |]; exfalso.
  - assert (is_reader u = true) as Hr by (unfold is_reader; by rewrite Hu).
    pose proof (count_pos _ _ _ _ Hj Hr). lia.
  - assert (is_writer u = true) as Hr by (unfold is_writer; by rewrite Hu).
    pose proof (count_two _ _ _ _ _ _ Hij Hi Hj Hw Hr). lia.
Qed.

Lemma inv_checks lost s ts :
  rw_inv lost s ts → CHECKSAFETY s = true ∧ CHECKLIVENESS s = true.
Proof.
  intros [? ? ? ? ? ? ? ? ? ? _].
  pose proof (count_bound is_reader ts). pose proof (count_bound is_writer ts).
  unfold CHECKSAFETY, CHECKLIVENESS. split.
  - destruct (reading s =? 0) eqn:Hr; zbool; cbn; [|lia].
    destruct (writing s =? 0) eqn:Hw; zbool; cbn; lia.
  - destruct (0 <? readerswaiting s) eqn:?, (0 <? writerswaiting s) eqn:?, (0 <? reading s) eqn:?,
      (0 <? writing s) eqn:?; zbool; cbn; try done; lia.
Qed.

(** C6 Whatever calls the threads that share a lock make, as long as each releases
    what it holds and locks what it does not hold, and however their steps interleave
    and timed waits end: while one thread has the write lock no other thread has a
    read or write lock; the safety and liveness conditions the debug build tests hold
    at every moment; and the case of [timed_write_lock] that the code calls
    impossible, a granted lock that somebody else took, does not occur. *)
Theorem rwlock_exclusion excl n lost c :
  reachable excl n lost c → Z.of_nat n + 1 + lost < 2 ^ 30 →
  (∀ i j t u, i ≠ j → threads c !! i = Some t → threads c !! j = Some u →
              holds t = HWrite → holds u = HNone)
  ∧ CHECKSAFETY (shared c) = true ∧ CHECKLIVENESS (shared c) = true
  ∧ (∀ i want, threads c !! i = Some (InRevoke want) → writerswaiting (shared c) = 0 →
               is_Some (down WRITERS (shared c))).
Proof.
  intros Hr Hn. destruct (rw_reachable_inv _ _ _ _ Hr Hn) as [Hinv _].
  split; [intros i j t u; by apply (inv_exclusive _ _ _ i j t u Hinv)|].
  destruct (inv_checks _ _ _ Hinv) as [-> ->]. repeat split. intros i want Hi Hw.
  pose proof (count_pos waits_write _ _ _ Hi eq_refl). destruct Hinv as [? ? ? ? ? ? ? ? ? ? _].
  unfold down. cbn [sem]. rewrite (proj2 (Z.ltb_lt _ _)) by lia. eauto.
Qed.

(** A reader, a writer that waits with a time limit and is granted the lock between
    the end of its wait and the revocation, and a reader that waits behind it. *)
Definition any_seen : LockState := mkLS 0 0 0 0 true.
Definition granted_late : list (nat * Action) :=
  [(0%nat, ACall (ReadLock true)); (0%nat, AGo); (0%nat, AGo);
   (1%nat, ACall (TimedWriteLock true)); (1%nat, AGo); (1%nat, AGo);
   (2%nat, ACall (ReadLock true)); (2%nat, AGo); (2%nat, AGo);
   (1%nat, AExpire any_seen);
   (0%nat, ACall ReadUnlock); (0%nat, AGo); (0%nat, AGo);
   (1%nat, AGo)].

Definition late_system : System :=
  default (sys_start false 2) (snd <$> sys_run granted_late 0 (sys_start false 2)).

Lemma late_reachable : reachable false 2 0 late_system.
Proof. apply (sys_run_reachable _ _ granted_late 0 (sys_start false 2)); [constructor|by vm_compute]. Qed.

Lemma rwlock_exclusion_witness :
  threads late_system !! 1%nat = Some (InRevoke true)
  ∧ writerswaiting (shared late_system) = 0
  ∧ is_Some (down WRITERS (shared late_system)).
Proof.
  assert (threads late_system !! 1%nat = Some (InRevoke true)) as Ht by by vm_compute.
  assert (writerswaiting (shared late_system) = 0) as Hw by by vm_compute.
  split; [exact Ht|]. split; [exact Hw|].
  destruct (rwlock_exclusion false 2 0 late_system late_reachable ltac:(by vm_compute)) as (_ & _ & _ & H).
  exact (H 1%nat true Ht Hw).
Defined.

(** C7 No waiting thread is forgotten.  From any moment of any such run in which every
    timed request that expired could be revoked within its ten seconds (one that could
    not is lost, and may block the others: [lost_request_blocks]), let the holders release the lock and the calls in progress go on,
    in any order, with no new request and no time-out: after at most eight steps per thread nothing is
    left to do, and then every call has returned, nobody has the lock, and the lock is
    as it was when it was created, without a post left over. *)
Theorem rwlock_settles excl n c :
  reachable excl n 0 c → Z.of_nat n + 1 < 2 ^ 30 →
  ∀ l c', settle_run l c = Some c' →
  (length l ≤ 8 * S n)%nat
  ∧ (quiescent c' →
     shared c' = fresh_state false ∧ ∀ i t, threads c' !! i = Some t → idle t = true).
Proof.
  intros Hr Hn l c' Hl. destruct (rw_reachable_inv _ _ _ _ Hr ltac:(lia)) as [_ Hlen]. split.
  - pose proof (settle_run_rank _ _ _ Hl). pose proof (total_rank_le (threads c)). lia.
  - apply quiescent_fresh.
    apply (rw_reachable_inv excl n 0); [|lia]. by eapply settle_run_reachable.
Qed.

Definition late_end : list (nat * Action) :=
  [(1%nat, AGo); (1%nat, ACall WriteUnlock); (1%nat, AGo); (1%nat, AGo);
   (2%nat, AGo); (2%nat, ACall ReadUnlock); (2%nat, AGo); (2%nat, AGo)].

Lemma rwlock_settles_witness :
  ∃ c', settle_run late_end late_system = Some c'
        ∧ shared c' = fresh_state false ∧ ∀ i t, threads c' !! i = Some t → idle t = true.
Proof.
  destruct (settle_run late_end late_system) as [c'|] eqn:Hl; [|by vm_compute in Hl].
  exists c'. split; [reflexivity|].
  apply (rwlock_settles false 2 late_system late_reachable ltac:(by vm_compute) late_end c' Hl).
  vm_compute in Hl. injection Hl as <-. intros [|[|[|i]]] a t; cbn; try done.
  all: intros [= <-]; by destruct a as [[]| |].
Defined.

(** ** A request that is lost

    When [MUTEX] cannot be had within ten seconds after the wait has timed out,
    [timed_write_lock] returns and leaves its request counted.  The next release
    grants the lock to it: no thread has the lock or waits for it, and every reader
    that comes then sleeps. *)
Definition lost_request : list (nat * Action) :=
  [(0%nat, ACall (ReadLock true)); (0%nat, AGo); (0%nat, AGo);
   (1%nat, ACall (TimedWriteLock true)); (1%nat, AGo); (1%nat, AGo);
   (1%nat, AExpire any_seen);
   (2%nat, ACall GetLockState); (2%nat, AGo);
   (1%nat, AExpire any_seen);
   (2%nat, AGo);
   (0%nat, ACall ReadUnlock); (0%nat, AGo); (0%nat, AGo);
   (2%nat, ACall (ReadLock true)); (2%nat, AGo); (2%nat, AGo)].

Lemma lost_request_blocks :
  ∃ c, sys_run lost_request 0 (sys_start false 2) = Some (1, c)
       ∧ (holds <$> threads c) = [HNone; HNone; HNone]
       ∧ threads c !! 2%nat = Some AtReaders
       ∧ shared c = mkRW 0 1 1 0 1 0 1
       ∧ ∀ i a, (∀ call, a ≠ ACall call) → sys_step i a c = None.
Proof.
  eexists. split; [vm_compute; reflexivity|]. repeat split.
  intros [|[|[|i]]] [call| |seen] Ha; try done; by destruct (Ha call).
Qed.

(** ** Sharing a lock and the master segment table *)

(** The first object of a key that asks for it starts with the write lock; in another
    process the same request is refused, in the same process it is answered with
    [false]. *)
Lemma first_instance_locks w key :
  segments w !! key = None → key ∉ lockMap w →
  ∃ w', makeRWLockShmImpl key (Some true) w = (Ret (Some true), w')
        ∧ segments w' !! key = Some (fresh_state true)
        ∧ makeRWLockShmImpl key (Some true) w' = (Ret (Some false), w')
        ∧ (makeRWLockShmImpl key (Some true) (mkWorld (segments w') ∅ (mst_segment w') false)).1
          = Exn NotExcl.
Proof.
  intros Hs Hk. unfold makeRWLockShmImpl, gets, mbind, M_bind, RWLockShmImpl.
  rewrite bool_decide_eq_false_2 by done. cbn. rewrite Hs. cbn. eexists. split; [reflexivity|]. cbn.
  rewrite lookup_insert_eq. split; [done|]. rewrite bool_decide_eq_true_2 by set_solver. split; [done|].
  rewrite bool_decide_eq_false_2 by set_solver. cbn. by rewrite lookup_insert_eq.
Qed.

Lemma plain_lock_run w key excl :
  excl ≠ Some true →
  ∃ w', makeRWLockShmImpl key excl w = (Ret excl, w')
        ∧ mst_segment w' = mst_segment w ∧ mst_instance w' = mst_instance w.
Proof.
  intros He. assert (excl = None ∨ excl = Some false) as Hx by (destruct excl as [[]|]; auto; done).
  unfold makeRWLockShmImpl, gets, mbind, M_bind, RWLockShmImpl.
  case_bool_decide; [exists w; by destruct Hx as [-> | ->]|].
  destruct (segments w !! key), Hx as [-> | ->]; cbn; eauto.
Qed.

(** The constructor asks for the first lock with [initializer] false, so that it
    never comes back true: the table is never cleared by [initMSTData], and what makes
    a new table empty is that a new segment is filled with zeros. *)
Lemma mst_never_initializes w :
  ∃ w', MasterSegmentTable w = (Ret [ReadLockPriority true; ReadUnlock], w')
        ∧ mst_segment w' = (if mst_instance w then mst_segment w
                            else Some (default zeroed_mst (mst_segment w))).
Proof.
  unfold MasterSegmentTable.
  destruct (plain_lock_run w (RWLockKeys !!! 0%nat) (Some false)) as (w0 & H0 & S0 & I0); [done|].
  erewrite bind_ret by exact H0.
  destruct (plain_lock_run w0 (RWLockKeys !!! 1%nat) None) as (w1 & H1 & S1 & I1); [done|].
  destruct (plain_lock_run w1 (RWLockKeys !!! 2%nat) None) as (w2 & H2 & S2 & I2); [done|].
  destruct (plain_lock_run w2 (RWLockKeys !!! 3%nat) None) as (w3 & H3 & S3 & I3); [done|].
  destruct (plain_lock_run w3 (RWLockKeys !!! 4%nat) None) as (w4 & H4 & S4 & I4); [done|].
  assert (forM [1; 2; 3; 4]%nat (fun i => _ ← makeRWLockShmImpl (RWLockKeys !!! i) None; mret tt) w0
          = (Ret tt, w4)) as Hf.
  { cbn -[makeRWLockShmImpl RWLockKeys]. unfold mbind, M_bind.
    rewrite H1. cbn -[makeRWLockShmImpl RWLockKeys]. rewrite H2. cbn -[makeRWLockShmImpl RWLockKeys].
    rewrite H3. cbn -[makeRWLockShmImpl RWLockKeys]. by rewrite H4. }
  erewrite bind_ret by exact Hf. cbn. eexists. split; [reflexivity|].
  rewrite I4, I3, I2, I1, I0. destruct (mst_instance w); cbn; by rewrite S4, S3, S2, S1, S0.
Qed.

(** The calls on a table take the lock of that table; a number that is no table is an
    exception. *)
Lemma getTable_range num block :
  (0 ≤ num < nTables → ∃ tc, getTable_read num block = Ret tc ∧ tc_lock tc = num
                             ∧ tc_call tc = ReadLock block
                             ∧ (tc_entry tc WouldBlock = None ↔ block = false)
                             ∧ tc_entry tc Returned = Some num)
  ∧ (¬ (0 ≤ num < nTables) → getTable_read num block = Exn InvalidArgument
                             ∧ getTable_write num block = Exn InvalidArgument
                             ∧ getTable_upgrade num = Exn InvalidArgument
                             ∧ getTable_downgrade num = Exn InvalidArgument
                             ∧ releaseTable_read num = Exn InvalidArgument
                             ∧ releaseTable_write num = Exn InvalidArgument).
Proof.
  unfold getTable_read, getTable_write, getTable_upgrade, getTable_downgrade, releaseTable_read,
    releaseTable_write, in_tables, nTables. split; intros Hn.
  - rewrite (proj2 (Z.ltb_ge num 0)), (proj2 (Z.ltb_ge _ num)) by lia. cbn. destruct block; eexists; repeat split; done.
  - destruct (num <? 0) eqn:?, (5 - 1 <? num) eqn:?, (5 <=? num) eqn:?; zbool; try lia; done.
Qed.

(** [reset] gives a new lock, whatever the state was. *)
Lemma reset_fresh s :
  0 ≤ sem_mutex s → 0 ≤ sem_readers s → 0 ≤ sem_writers s → rw_reset s = fresh_state false.
Proof.
  intros ? ? ?. unfold rw_reset, fresh_state, up. cbn.
  destruct (0 <? sem_mutex s) eqn:?; cbn; destruct (0 <? sem_readers s) eqn:?; cbn;
    destruct (0 <? sem_writers s) eqn:?; cbn; zbool; f_equal; lia.
Qed.

(** ** The lock monitor

    It takes every read lock it finds after its wait for one that will not be
    released, and releases it.  A reader that is only slow is then overtaken: the
    monitor's turn after the timeout lets a writer in while the reader still reads. *)
Definition slow_reader : list (nat * Action) :=
  [(0%nat, ACall (ReadLock true)); (0%nat, AGo); (0%nat, AGo);
   (1%nat, ACall (TimedWriteLock true)); (1%nat, AGo); (1%nat, AGo);
   (1%nat, AExpire any_seen); (1%nat, AGo); (1%nat, AGo)].

Lemma monitor_overtakes_reader :
  ∃ c st c',
    sys_run slow_reader 0 (sys_start false 2) = Some (0, c)
    ∧ threads c !! 1%nat = Some (Outside HNone (Some (TimedOut (Some st))))
    ∧ monitor_turn false false false (TimedOut (Some st)) = mkTurn [ReadUnlock] (Some M0094) true false
    ∧ (c1 ← sys_step 1 (ACall ReadUnlock) c; c2 ← sys_step 1 AGo c1; c3 ← sys_step 1 AGo c2;
       c4 ← sys_step 2 (ACall (WriteLock true)) c3; c5 ← sys_step 2 AGo c4; sys_step 2 AGo c5) = Some c'
    ∧ (holds <$> threads c') = [HRead; HNone; HWrite].
Proof. do 3 eexists. do 4 (split; [vm_compute; reflexivity|]). vm_compute. reflexivity. Qed.

(** When it has been told to stop while it waited and is then given the lock, the
    monitor leaves without releasing it, and the next reader sleeps. *)
Definition stopped_monitor : list (nat * Action) :=
  [(0%nat, ACall (TimedWriteLock true)); (0%nat, AGo); (0%nat, AGo);
   (1%nat, ACall (ReadLock true)); (1%nat, AGo); (1%nat, AGo)].

Lemma monitor_stops_with_lock :
  ∃ c, sys_run stopped_monitor 0 (sys_start false 1) = Some (0, c)
       ∧ threads c = [Outside HWrite (Some GotLock); AtReaders]
       ∧ (∀ lockStatus reported,
            monitor_turn true lockStatus reported GotLock = mkTurn [] None reported true)
       ∧ ∀ a, sys_step 1 a c = None.
Proof.
  eexists. split; [vm_compute; reflexivity|]. split; [reflexivity|]. split; [done|].
  by intros [| |].
Qed.
