(* ===== verification/Vbbm.v ===== *)
(** * The Version Buffer Block Map ([vbbm.h], [vbbm.cpp])

    The VBBM says where in the version buffer files the old version of a block
    is: it maps (lbid, version) to (file OID, file block offset).  The model has
    every operation of the class outside the debug build; the segment's layout
    and undo log are those of [Table].  [VBBM::getBlocks] calls back into the
    VSS, which it sees through the class [VSSCalls]. *)

From S2P Require Import Prelude BinFile Hasher HashChain Undo Table.

(** ** Data *)

Record VBFileMetadata := mkVBFile { OID : Z; fileSize : Z; nextOffset : Z }.

Record VBBMEntry := mkVBBM {
  vb_lbid : Z;
  vb_verID : Z;
  vb_vbOID : Z;
  vb_vbFBO : Z;
  vb_next : Z;
}.

Record VBShmsegHeader := mkVBHdr {
  nFiles : Z;
  vbCapacity : Z;
  vbCurrentSize : Z;
  vbLWM : Z;
  vb_numHashBuckets : Z;
}.

#[global] Instance VBFileMetadata_eq_dec : EqDecision VBFileMetadata.
Proof. solve_decision. Defined.
#[global] Instance VBBMEntry_eq_dec : EqDecision VBBMEntry.
Proof. solve_decision. Defined.

(** Layout on a 64-bit build. *)
#[global] Instance VBFileMetadata_size : SizeOf VBFileMetadata := 24.
#[global] Instance VBBMEntry_size : SizeOf VBBMEntry := 24.
#[global] Instance VBShmsegHeader_size : SizeOf VBShmsegHeader := 20.

#[global] Instance VBBMEntry_node : ChainNode VBBMEntry := {
  n_lbid := vb_lbid;
  n_next := vb_next;
  set_n_lbid z e := mkVBBM z (vb_verID e) (vb_vbOID e) (vb_vbFBO e) (vb_next e);
  set_n_next z e := mkVBBM (vb_lbid e) (vb_verID e) (vb_vbOID e) (vb_vbFBO e) z;
}.

#[global] Instance VBShmsegHeader_ops : HeaderOps VBShmsegHeader := {
  h_currentSize := vbCurrentSize;
  set_h_currentSize n h := mkVBHdr (nFiles h) (vbCapacity h) n (vbLWM h) (vb_numHashBuckets h);
}.

Definition set_vbLWM (n : Z) (h : VBShmsegHeader) : VBShmsegHeader :=
  mkVBHdr (nFiles h) (vbCapacity h) (vbCurrentSize h) n (vb_numHashBuckets h).

Abbreviation VBMem := (shmtable VBShmsegHeader VBFileMetadata VBBMEntry).
Abbreviation VBBM := (utable VBShmsegHeader VBFileMetadata VBBMEntry).

Definition BLOCK_SIZE : Z := 8192.
Definition VBBM_CHUNK_SIZE : Z := 100.
Definition VBBM_MAGIC_V1 : Z := 0x7b27ec13.
Definition VBBM_MAGIC_V2 : Z := 0x1fb58c7a.

Definition VBSTORAGE_INITIAL_COUNT : Z := 100000.
Definition VBSTORAGE_INCREMENT_COUNT : Z := 10000.
Definition VBSTORAGE_INITIAL_SIZE : Z := VBSTORAGE_INITIAL_COUNT * sizeof VBBMEntry.
Definition VBSTORAGE_INCREMENT : Z := VBSTORAGE_INCREMENT_COUNT * sizeof VBBMEntry.
Definition VBTABLE_INITIAL_SIZE : Z := 25000 * 4.
Definition VBTABLE_INCREMENT : Z := 2500 * 4.
Definition VBBM_INCREMENT : Z := VBTABLE_INCREMENT + VBSTORAGE_INCREMENT.
Definition VBBM_SIZE (files entries : Z) : Z :=
  entries * sizeof VBBMEntry + entries / 4 * 4 + files * sizeof VBFileMetadata
  + sizeof VBShmsegHeader.

Definition KEYRANGE_SIZE : Z := 0x10000.
Definition KEYRANGE_VBBM_BASE : Z := 0x40000.

(** A slot of freshly cleared storage. *)
Definition empty_VBBMEntry : VBBMEntry := mkVBBM (-1) 0 0 0 0.

(** ** Keys and indices *)

(** The bucket of (lbid, verID): 8 bytes of the lbid, 4 of the version. *)
Definition vb_hash (numHashBuckets lbid verID : Z) : Z :=
  Hasher (le_bytes 8 lbid ++ le_bytes 4 verID) mod numHashBuckets.

Definition vb_bucket (n : Z) (e : VBBMEntry) : Z := vb_hash n (vb_lbid e) (vb_verID e).

(** [VBBM::getIndex]: (index, prev, bucket), with index [-1] when there is no
    such entry. *)
Definition getIndex (lbid verID : Z) (m : VBMem) : outcome (Z * Z * Z) :=
  let bucket := vb_hash (vb_numHashBuckets (t_hdr m)) lbid verID in
  h ← deref ((t_buckets m).[bucket]);
  r ← walk (length (t_stor m)) (t_stor m)
        (find_body (fun e => (vb_lbid e =? lbid) && (vb_verID e =? verID))) h (-1);
  match r with
  | inr (i, prev) => Ret (i, prev, bucket)
  | inl prev => Ret (-1, prev, bucket)
  end.

(** [VBBM::lookup]: [None] is the return code -1. *)
Definition lookup (lbid verID : Z) (m : VBMem) : outcome (option (Z * Z)) :=
  if lbid <? 0 then Exn InvalidArgument
  else if verID <? 0 then Exn InvalidArgument
  else
    '(index, _, _) ← getIndex lbid verID m;
    if index =? -1 then Ret None
    else e ← deref ((t_stor m).[index]); Ret (Some (vb_vbOID e, vb_vbFBO e)).

(** [VBBM::chooseShmkey] *)
Definition chooseShmkey (info : MSTEntry) : Z :=
  if (tableShmkey info + 1 =? KEYRANGE_VBBM_BASE + KEYRANGE_SIZE - 1)
     || (u32 (tableShmkey info) <? KEYRANGE_VBBM_BASE)
  then KEYRANGE_VBBM_BASE + 1
  else tableShmkey info + 1.

(** ** Inserting and growing *)

(** [VBBM::_insert] into the segment [destHash]/[destStorage] of header [dest]. *)
Definition vb_insert_ (e : VBBMEntry) (loading : bool) : M VBBM unit :=
  m ← get_mem;
  let h := t_hdr m in
  let hashIndex := vb_bucket (vb_numHashBuckets h) e in
  insertIndex ← lift (find_empty (length (t_stor m)) (t_stor m) (vbLWM h));
  old ← lift (deref ((t_stor m).[insertIndex]));
  head ← lift (deref ((t_buckets m).[hashIndex]));
  (if loading then mret tt
   else makeUndoRecord (DHdr h) ≫= fun _ =>
        makeUndoRecord (DStor insertIndex old) ≫= fun _ =>
        makeUndoRecord (DBucket hashIndex head)) ≫= fun _ =>
  upd_mem (fun m => set_hdr (set_vbLWM insertIndex (t_hdr m)) m) ≫= fun _ =>
  upd_mem (set_stor insertIndex (set_n_next head e)) ≫= fun _ =>
  upd_mem (set_bucket hashIndex insertIndex).

(** What [memcpy(newFiles, files, sizeof(VBFileMetadata) * nFiles)] reads when
    [nFiles] was just incremented: the bytes after the last file are the first
    hash buckets. *)
Definition file_overread (bk : list Z) : VBFileMetadata :=
  let w i := default 0 (bk.[i]) in
  mkVBFile (w 0) (u32 (w 2) + 2 ^ 32 * u32 (w 3)) (u32 (w 4) + 2 ^ 32 * u32 (w 5)).

(** [VBBM::copyVBBM]: the header fields set by the caller are those of [dest];
    the first [vbCurrentSize] slots are walked. *)
Definition copyVBBM (src : VBMem) (dest : VBMem) : outcome VBMem :=
  let walked := take (Z.to_nat (vbCurrentSize (t_hdr src))) (t_stor src) in
  let '(r, s) := forM (List.filter usedb walked) (fun e => vb_insert_ e true)
                   (mkUndoable dest []) in
  match r with Ret _ => Ret (u_mem s) | Exn e => Exn e end.

(** [VBBM::growVBBM(addAFile)] on an attached segment; the size of the new segment
    is computed in an [int]. *)
Definition growVBBM (addAFile : bool) : M VBBM unit := fun s =>
  let m := u_mem s in
  let h := t_hdr m in
  let n := if addAFile then nFiles h + 1 else nFiles h in
  let alloc := i32 (allocdSize (t_info m) +
                 (if addAFile then sizeof VBFileMetadata else VBBM_INCREMENT)) in
  let key := chooseShmkey (t_info m) in
  let cap := vbCapacity h + (if addAFile then 0 else VBSTORAGE_INCREMENT / sizeof VBBMEntry) in
  let nb := vb_numHashBuckets h + (if addAFile then 0 else VBTABLE_INCREMENT / 4) in
  let old_files := take (Z.to_nat (nFiles h)) (t_files m) in
  let files := if addAFile then old_files ++ [file_overread (t_buckets m)] else old_files in
  let dest := mkTbl (mkMST key alloc (mst_currentSize (t_info m)))
                (mkVBHdr n cap (vbCurrentSize h) 0 nb) files
                (replicate (Z.to_nat nb) (-1))
                (replicate (Z.to_nat cap) empty_VBBMEntry) in
  match copyVBBM m dest with
  | Ret m' => (Ret tt, mkUndoable m' [])
  | Exn e => (Exn e, s)
  end.

(** [VBBM::insert] *)
Definition insert (lbid verID vbOID vbFBO : Z) (loading : bool) : M VBBM unit :=
  m ← get_mem;
  (if vbCurrentSize (t_hdr m) =? vbCapacity (t_hdr m) then growVBBM false else mret tt)
    ≫= fun _ =>
  vb_insert_ (mkVBBM lbid verID vbOID vbFBO (-1)) loading ≫= fun _ =>
  m ← get_mem;
  (if loading then mret tt else makeUndoRecord (DSize (vbCurrentSize (t_hdr m)))) ≫= fun _ =>
  upd_mem (fun m => set_hdr (set_h_currentSize (vbCurrentSize (t_hdr m) + 1) (t_hdr m)) m).

(** ** Removing *)

(** [VBBM::removeEntry]: a missing entry is ignored. *)
Definition removeEntry (lbid verID : Z) : M VBBM unit :=
  m ← get_mem;
  '(index, prev, bucket) ← lift (getIndex lbid verID m);
  if index =? -1 then mret tt
  else
    unlinkEntry bucket prev index ≫= fun _ =>
    m ← get_mem;
    makeUndoRecord (DHdr (t_hdr m)) ≫= fun _ =>
    upd_mem (fun m =>
      let h := t_hdr m in
      let h := set_h_currentSize (vbCurrentSize h - 1) h in
      set_hdr (if index <? vbLWM h then set_vbLWM index h else h) m).

(** ** Clearing and creating *)

(** [VBBM::setCurrentFileSize]; [cfg] is the parsed value of the configuration
    key VersionBuffer/VersionBufferFileSize, if it is there. *)
Definition setCurrentFileSize (cfg : option Z) : outcome Z :=
  match cfg with
  | None => Exn InvalidArgument
  | Some ltmp => if ltmp <? 1 then Exn InvalidArgument else Ret ltmp
  end.

(** [VBBM::initShmseg(nFiles)] on a zeroed segment. *)
Definition vb_initShmseg (info : MSTEntry) (files : list VBFileMetadata) (n : Z) : VBMem :=
  let cap := VBSTORAGE_INITIAL_SIZE / sizeof VBBMEntry in
  let nb := VBTABLE_INITIAL_SIZE / 4 in
  mkTbl info (mkVBHdr n cap 0 0 nb) files
    (replicate (Z.to_nat nb) (-1)) (replicate (Z.to_nat cap) empty_VBBMEntry).

(** [VBBM::clear] *)
Definition clear (cfg : option Z) : M VBBM unit := fun s =>
  let m := u_mem s in
  match setCurrentFileSize cfg with
  | Exn e => (Exn e, s)
  | Ret currentFileSize =>
      let n := nFiles (t_hdr m) in
      let newFiles := (fun f => mkVBFile (OID f) currentFileSize 0) <$>
                        take (Z.to_nat n) (t_files m) in
      let alloc := sizeof VBShmsegHeader + n * sizeof VBFileMetadata
                   + VBSTORAGE_INITIAL_SIZE + VBTABLE_INITIAL_SIZE in
      let info := mkMST (chooseShmkey (t_info m)) alloc (mst_currentSize (t_info m)) in
      (Ret tt, mkUndoable (vb_initShmseg info newFiles n) (undoRecords s))
  end.

(** [VBBM::growVBBM] when the segment does not exist yet ([allocdSize == 0]). *)
Definition vb_create (cfg : option Z) (info : MSTEntry) : outcome VBBM :=
  _ ← setCurrentFileSize cfg;
  let alloc := sizeof VBShmsegHeader + VBSTORAGE_INITIAL_SIZE + VBTABLE_INITIAL_SIZE in
  Ret (mkUndoable
         (vb_initShmseg (mkMST (chooseShmkey info) alloc (mst_currentSize info)) [] 0) []).

(** [VBBM::growForLoad(count)] *)
Definition growForLoad (count : Z) : M VBBM unit := fun s =>
  let m := u_mem s in
  let count := if count <? VBSTORAGE_INITIAL_COUNT then VBSTORAGE_INITIAL_COUNT else count in
  let count := if count mod VBSTORAGE_INCREMENT_COUNT =? 0 then count
               else (count / VBSTORAGE_INCREMENT_COUNT + 1) * VBSTORAGE_INCREMENT_COUNT in
  let n := nFiles (t_hdr m) in
  let info := mkMST (chooseShmkey (t_info m)) (VBBM_SIZE n count)
                (mst_currentSize (t_info m)) in
  (Ret tt,
   mkUndoable (mkTbl info (mkVBHdr n count 0 0 (count / 4)) (take (Z.to_nat n) (t_files m))
                 (replicate (Z.to_nat (count / 4)) (-1))
                 (replicate (Z.to_nat count) empty_VBBMEntry)) []).

(** [VBBM::addVBFileIfNotExists]: the index of the file, added when missing. *)
Definition addVBFileIfNotExists (cfg : option Z) (vbOID : Z) : M VBBM Z :=
  m ← get_mem;
  match list_find (fun f => OID f = vbOID) (take (Z.to_nat (nFiles (t_hdr m))) (t_files m)) with
  | Some (i, _) => mret (Z.of_nat i)
  | None =>
      let i := nFiles (t_hdr m) in
      currentFileSize ← lift (setCurrentFileSize cfg);
      growVBBM true ≫= fun _ =>
      upd_mem (set_file i (mkVBFile vbOID currentFileSize 0)) ≫= fun _ =>
      mret i
  end.

(** ** Allocating version buffer blocks *)

(** [VBRange] of brmtypes.h *)
Record VBRange := mkVBRange { r_vbOID : Z; r_vbFBO : Z; r_size : Z }.

#[global] Instance VBRange_eq_dec : EqDecision VBRange.
Proof. solve_decision. Defined.

(** [while ((vbCurrentSize + num) > vbCapacity) growVBBM();] *)
Fixpoint growUntil (fuel : nat) (num : Z) : M VBBM unit :=
  m ← get_mem;
  if vbCapacity (t_hdr m) <? vbCurrentSize (t_hdr m) + num then
    match fuel with
    | O => throw OutOfFuel
    | S fuel' => growVBBM false ≫= fun _ => growUntil fuel' num
    end
  else mret tt.

(** [while (blocksGathered < num) { ... }]: the ranges, in the order pushed. *)
Fixpoint gatherBlocks (fuel : nat) (fileIndex num blocksGathered : Z) : M VBBM (list VBRange) :=
  if num <=? blocksGathered then mret []
  else match fuel with
  | O => throw OutOfFuel
  | S fuel' =>
      m ← get_mem;
      f ← lift (deref ((t_files m).[fileIndex]));
      let blocksLeftInFile := i32 (u64 (fileSize f - nextOffset f) / BLOCK_SIZE) in
      let blocksLeft := num - blocksGathered in
      let size := u32 (if blocksLeft <=? blocksLeftInFile then blocksLeft
                       else blocksLeftInFile) in
      let range := mkVBRange (OID f) (u32 (nextOffset f / BLOCK_SIZE)) size in
      let next := if size =? u32 blocksLeftInFile then 0
                  else u64 (nextOffset f + size * BLOCK_SIZE) in
      makeUndoRecord (DFile fileIndex f) ≫= fun _ =>
      upd_mem (set_file fileIndex (mkVBFile (OID f) (fileSize f) next)) ≫= fun _ =>
      rest ← gatherBlocks fuel' fileIndex num (blocksGathered + size);
      mret (range :: rest)
  end.

(** The chunk arithmetic: the blocks [firstFBO, lastFBO] to age out for a range,
    [None] when the range stays inside a chunk that was cleared before. *)
Definition ageWindow (fileBlocks : Z) (r : VBRange) : option (Z * Z) :=
  let firstFBO := r_vbFBO r in
  let lastFBO := u32 (r_vbFBO r + r_size r - 1) in
  let firstChunk := firstFBO / VBBM_CHUNK_SIZE in
  let lastChunk := lastFBO / VBBM_CHUNK_SIZE in
  let aligned := firstFBO mod VBBM_CHUNK_SIZE =? 0 in
  if negb aligned && (firstChunk =? lastChunk) then None
  else
    let firstFBO := if negb aligned then u32 ((firstChunk + 1) * VBBM_CHUNK_SIZE)
                    else firstFBO in
    let lastFBO := u32 ((lastChunk + 1) * VBBM_CHUNK_SIZE - 1) in
    let lastFBO := if fileBlocks <? lastFBO then u32 fileBlocks else lastFBO in
    Some (firstFBO, lastFBO).

(** What the VBBM asks of the VSS: whether the version is needed for a rollback,
    and the removal of a version, which extends the list of blocks to flush. *)
Class VSSCalls (V : Type) := {
  vc_isEntryLocked : Z → Z → V → outcome bool;
  vc_removeEntry : Z → Z → list Z → M V (list Z);
}.

(** The promise behind those calls: from a good state they return, and the
    state stays good. *)
Class VSSCallsLaws (V : Type) `{VSSCalls V} := {
  v_inv : V → Prop;
  vc_isEntryLocked_total lbid verID v :
    v_inv v → ∃ b, vc_isEntryLocked lbid verID v = Ret b;
  vc_removeEntry_total lbid verID fl v :
    v_inv v → lbid ≠ -1 →
    ∃ fl' v', vc_removeEntry lbid verID fl v = (Ret fl', v') ∧ v_inv v';
}.

Section GetBlocks.
Context {V : Type} `{VSSCalls V}.

Definition on_vbbm {A} (op : M VBBM A) : M (VBBM * V) A :=
  zoom fst (fun b s => (b, snd s)) op.
Definition on_vss {A} (op : M V A) : M (VBBM * V) A :=
  zoom snd (fun v s => (fst s, v)) op.

(** Slot [i] of [for (i = 0; i < vbbm->vbCapacity; i++)]. *)
Definition ageSlot (vbOID firstFBO lastFBO : Z) (i : Z) (flushList : list Z)
    : M (VBBM * V) (list Z) :=
  m ← on_vbbm get_mem;
  e ← lift (deref ((t_stor m).[i]));
  if usedb e && (vb_vbOID e =? vbOID) && (firstFBO <=? vb_vbFBO e)
     && (vb_vbFBO e <=? lastFBO)
  then
    lck ← (fun s => (vc_isEntryLocked (vb_lbid e) (vb_verID e) (snd s), s));
    if lck : bool then throw VBBMBufferOverFlow
    else
      fl ← on_vss (vc_removeEntry (vb_lbid e) (vb_verID e) flushList);
      on_vbbm (removeEntry (vb_lbid e) (vb_verID e)) ≫= fun _ =>
      mret fl
  else mret flushList.

Fixpoint ageSlots (vbOID firstFBO lastFBO : Z) (slots : list Z) (flushList : list Z)
    : M (VBBM * V) (list Z) :=
  match slots with
  | [] => mret flushList
  | i :: slots' =>
      fl ← ageSlot vbOID firstFBO lastFBO i flushList;
      ageSlots vbOID firstFBO lastFBO slots' fl
  end.

(** [for (it = freeRanges.begin(); ...)]: age the ranges out of the buffer. *)
Fixpoint ageRanges (fileIndex : Z) (rs : list VBRange) (flushList : list Z)
    : M (VBBM * V) (list Z) :=
  match rs with
  | [] => mret flushList
  | r :: rs' =>
      m ← on_vbbm get_mem;
      f ← lift (deref ((t_files m).[fileIndex]));
      fl ← (match ageWindow (fileSize f / BLOCK_SIZE) r with
            | None => mret flushList
            | Some (firstFBO, lastFBO) =>
                ageSlots (r_vbOID r) firstFBO lastFBO
                  (zseq 0 (vbCapacity (t_hdr m))) flushList
            end);
      ageRanges fileIndex rs' fl
  end.

(** [VBBM::getBlocks]: the ranges, and the blocks to flush from the PM caches. *)
Definition getBlocks (cfg : option Z) (num vbOID : Z) : M (VBBM * V) (list VBRange * list Z) :=
  fileIndex ← on_vbbm (addVBFileIfNotExists cfg vbOID);
  m ← on_vbbm get_mem;
  f ← lift (deref ((t_files m).[fileIndex]));
  if fileSize f / BLOCK_SIZE <? u32 num then throw VBBMBufferOverFlow
  else
    on_vbbm (growUntil (S (Z.to_nat num)) num) ≫= fun _ =>
    ranges ← on_vbbm (gatherBlocks (S (Z.to_nat num)) fileIndex num 0);
    flushList ← ageRanges fileIndex ranges [];
    mret (ranges, flushList).
End GetBlocks.

(** ** Consistency check, save and load *)

(** [VBBM::hashEmpty] *)
Definition hashEmpty (m : VBMem) : bool := forallb (fun h => h =? -1) (t_buckets m).

(** Test 2 and test 4b of [checkConsistency] on the bucket whose head is [h]. *)
Definition checkBucket (m : VBMem) (h : Z) : outcome unit :=
  r ← walk (length (t_stor m)) (t_stor m)
        (fun _ e (_ : unit) => if usedb e then inl tt else inr LogicError) h tt;
  match r with
  | inr e => Exn e
  | inl _ => Ret tt
  end.

Definition checkDupFrom (m : VBMem) (e : VBBMEntry) : outcome unit :=
  r ← walk (length (t_stor m)) (t_stor m)
        (fun _ e' (_ : unit) =>
           if (vb_lbid e =? vb_lbid e') && (vb_verID e =? vb_verID e') then inr LogicError
           else inl tt) (vb_next e) tt;
  match r with
  | inr x => Exn x
  | inl _ => Ret tt
  end.

Fixpoint checkDups (fuel : nat) (m : VBMem) (j : Z) : outcome unit :=
  if j =? -1 then Ret tt
  else match fuel with
  | O => Exn OutOfFuel
  | S fuel' =>
      e ← deref ((t_stor m).[j]);
      _ ← checkDupFrom m e;
      checkDups fuel' m (vb_next e)
  end.

Fixpoint forO {A} (l : list A) (f : A → outcome unit) : outcome unit :=
  match l with
  | [] => Ret tt
  | x :: l' => _ ← f x; forO l' f
  end.

(** Test 4a: no two entries share a place in the version buffer. *)
Fixpoint sharedSpace (st : list VBBMEntry) : bool :=
  match st with
  | [] => false
  | e :: st' =>
      (usedb e && existsb (fun e' => usedb e' && (vb_vbOID e' =? vb_vbOID e)
                                      && (vb_vbFBO e' =? vb_vbFBO e)) st')
      || sharedSpace st'
  end.

(** [VBBM::checkConsistency] (outside the debug build [size()] checks nothing). *)
Definition checkConsistency (m : VBMem) : outcome Z :=
  _ ← forO (t_buckets m) (checkBucket m);
  _ ← (if forallb usedb (take (Z.to_nat (vbLWM (t_hdr m))) (t_stor m)) then Ret tt
       else Exn LogicError);
  _ ← forO (t_buckets m) (checkDups (length (t_stor m)) m);
  if sharedSpace (t_stor m) then Exn LogicError else Ret 0.

(** The image of an entry (24 bytes) and of a file record (24 bytes, of which 4
    are padding). *)
Definition entry_bytes (e : VBBMEntry) : list Z :=
  le_bytes 8 (vb_lbid e) ++ le_bytes 4 (vb_verID e) ++ le_bytes 4 (vb_vbOID e) ++
  le_bytes 4 (vb_vbFBO e) ++ le_bytes 4 (vb_next e).

Definition entry_of (bs : list Z) : VBBMEntry :=
  mkVBBM (get_s (field 0 8 bs)) (get_s (field 8 4 bs)) (get_s (field 12 4 bs))
         (get_u (field 16 4 bs)) (get_s (field 20 4 bs)).

Definition file_bytes (f : VBFileMetadata) : list Z :=
  le_bytes 4 (OID f) ++ le_bytes 4 0 ++ le_bytes 8 (fileSize f) ++ le_bytes 8 (nextOffset f).

Definition file_of (bs : list Z) : VBFileMetadata :=
  mkVBFile (get_s (field 0 4 bs)) (get_u (field 8 8 bs)) (get_u (field 16 8 bs)).

(** The records of an array read in one go. *)
Fixpoint files_of (n : nat) (bs : list Z) : list VBFileMetadata :=
  match n with
  | O => []
  | S n' => file_of (take 24 bs) :: files_of n' (drop 24 bs)
  end.

(** [VBBM::save]: the bytes written. *)
Definition vb_save (m : VBMem) : list Z :=
  le_bytes 4 VBBM_MAGIC_V2 ++ le_bytes 4 (vbCurrentSize (t_hdr m)) ++
  le_bytes 4 (nFiles (t_hdr m)) ++
  (take (Z.to_nat (nFiles (t_hdr m))) (t_files m) ≫= file_bytes) ++
  (List.filter usedb (take (Z.to_nat (vbCapacity (t_hdr m))) (t_stor m)) ≫= entry_bytes).

(** [for (i = 0; i < vbbmEntries; i++) { read an entry; body }] *)
Fixpoint loadEntries (n : nat) (body : VBBMEntry → M VBBM unit) (file : list Z) : M VBBM unit :=
  match n with
  | O => mret tt
  | S n' =>
      match read 24 file with
      | None => throw RuntimeError
      | Some (bs, rest) => body (entry_of bs) ≫= fun _ => loadEntries n' body rest
      end
  end.

Definition load_entry (e : VBBMEntry) : M VBBM unit :=
  insert (vb_lbid e) (vb_verID e) (vb_vbOID e) (vb_vbFBO e) true.

(** [VBBM::loadVersion1] *)
Definition loadVersion1 (cfg : option Z) (file : list Z) : M VBBM unit :=
  clear cfg ≫= fun _ =>
  match read 4 file with
  | None => throw RuntimeError
  | Some (bs, rest) =>
      loadEntries (Z.to_nat (get_s bs))
        (fun e => load_entry e ≫= fun _ =>
                  addVBFileIfNotExists cfg (vb_vbOID e) ≫= fun _ => mret tt) rest
  end.

(** [while (vbbm->nFiles < nFiles) growVBBM(true);] *)
Fixpoint growFiles (fuel : nat) (n : Z) : M VBBM unit :=
  m ← get_mem;
  if nFiles (t_hdr m) <? n then
    match fuel with
    | O => throw OutOfFuel
    | S fuel' => growVBBM true ≫= fun _ => growFiles fuel' n
    end
  else mret tt.

(** [VBBM::loadVersion2]; a negative file count makes [clear] ask for an array
    of negative length. *)
Definition loadVersion2 (cfg : option Z) (file : list Z) : M VBBM unit :=
  match read 4 file with
  | None => throw RuntimeError
  | Some (bs1, file) =>
  match read 4 file with
  | None => throw RuntimeError
  | Some (bs2, file) =>
      let vbbmEntries := get_s bs1 in
      let n := get_s bs2 in
      upd_mem (fun m =>
        let h := t_hdr m in
        if n <? nFiles h
        then set_hdr (mkVBHdr n (vbCapacity h) (vbCurrentSize h) (vbLWM h) (vb_numHashBuckets h)) m
        else m) ≫= fun _ =>
      if n <? 0 then throw BadAlloc
      else
        clear cfg ≫= fun _ =>
        growFiles (Z.to_nat n) n ≫= fun _ =>
        growForLoad vbbmEntries ≫= fun _ =>
        match read (24 * Z.to_nat n) file with
        | None => throw RuntimeError
        | Some (fbs, rest) =>
            upd_mem (fun m => mkTbl (t_info m) (t_hdr m) (files_of (Z.to_nat n) fbs)
                                (t_buckets m) (t_stor m)) ≫= fun _ =>
            loadEntries (Z.to_nat vbbmEntries) load_entry rest
        end
  end
  end.

(** [VBBM::load]; [None] is a file that does not open. *)
Definition vb_load (cfg : option Z) (file : option (list Z)) : M VBBM unit :=
  match file with
  | None => throw RuntimeError
  | Some file =>
      match read 4 file with
      | None => throw RuntimeError
      | Some (bs, rest) =>
          if get_s bs =? VBBM_MAGIC_V1 then loadVersion1 cfg rest
          else if get_s bs =? VBBM_MAGIC_V2 then loadVersion2 cfg rest
          else throw RuntimeError
      end
  end.
