(* ===== verification/VbbmProofs.v ===== *)
(** * Correctness of the Version Buffer Block Map

    The invariant [vb_inv] of the shared segment, the abstract view [vb_abs] of
    the table as a finite map from (lbid, version) to (file, block), and the
    theorems that the operations of [Vbbm] keep the former and implement the
    map's operations on the latter; that their changes can be undone; and what
    [getBlocks] promises of the blocks it hands out. *)

From S2P Require Import Prelude BinFile Hasher HashChain Undo Table Vbbm.

#[global] Instance VBBMEntry_node_laws : ChainNodeLaws VBBMEntry.
Proof. by split. Qed.

#[global] Instance VBBM_table_laws : TableLaws VBShmsegHeader VBFileMetadata VBBMEntry.
Proof. split. vm_compute. repeat split; discriminate. Qed.

#[global] Instance VBBMEntry_hash : KeyHash VBBMEntry := vb_bucket.

#[local] Opaque Hasher.

#[global] Instance VBBMEntry_hash_laws : KeyHashLaws VBBMEntry.
Proof.
  split; [by intros n z []|]. intros n e Hn. by apply Z.mod_pos_bound.
Qed.

Definition vb_key (e : VBBMEntry) : Z * Z := (vb_lbid e, vb_verID e).
Definition vb_place (e : VBBMEntry) : Z * Z := (vb_vbOID e, vb_vbFBO e).

(** The invariant of the segment. *)
Record vb_struct (m : VBMem) : Prop := mkVbStruct {
  vs_chains : tstruct (vb_numHashBuckets (t_hdr m)) (t_buckets m) (t_stor m) (vbLWM (t_hdr m));
  vs_cap : zlength (t_stor m) = vbCapacity (t_hdr m);
  vs_files : zlength (t_files m) = nFiles (t_hdr m);
}.

Record vb_inv (m : VBMem) : Prop := mkVbInv {
  vi_struct : vb_struct m;
  vi_size : zlength (entries (t_stor m)) ≤ vbCurrentSize (t_hdr m) ≤ vbCapacity (t_hdr m);
  vi_unique : keys_unique vb_key (t_stor m);
}.

(** By how much the size field exceeds the number of entries: 0 in a table that
    was never grown while it had holes. *)
Definition slack (m : VBMem) : Z := vbCurrentSize (t_hdr m) - zlength (entries (t_stor m)).

(** The table as a map. *)
Definition vb_abs (m : VBMem) : gmap (Z * Z) (Z * Z) :=
  vb_place <$> tabmap vb_key (t_stor m).

Lemma vb_key_body e : vb_key (node_body e) = vb_key e.
Proof. done. Qed.

Lemma vb_abs_None m k : vb_abs m !! k = None ↔ tabmap vb_key (t_stor m) !! k = None.
Proof. unfold vb_abs. rewrite lookup_fmap. apply fmap_None. Qed.

(** ** Looking up *)

(** [getIndex] always returns; it finds the slot of the key when there is one. *)
Lemma getIndex_spec m lbid verID :
  vb_struct m → lbid ≠ -1 →
  let b := vb_hash (vb_numHashBuckets (t_hdr m)) lbid verID in
  ∃ h, (t_buckets m).[b] = Some h ∧
  ((∃ l1 i l2 e, getIndex lbid verID m = Ret (i, prev_of l1, b) ∧
      chain (t_stor m) h (l1 ++ i :: l2) ∧ (t_stor m).[i] = Some e ∧ used e ∧
      vb_key e = (lbid, verID))
   ∨ (∃ prev, getIndex lbid verID m = Ret (-1, prev, b) ∧
      ∀ i e, (t_stor m).[i] = Some e → used e → vb_key e ≠ (lbid, verID))).
Proof.
  intros [Ht _ _] Hl b.
  destruct (tstruct_bucket _ _ _ _ (mkVBBM lbid verID 0 0 0) Ht) as [h Hb].
  exists h. split; [done|]. unfold getIndex. fold b.
  change (key_hash _ _) with b in Hb. rewrite Hb. cbn [deref mbind outcome_bind].
  set (p := fun e => (vb_lbid e =? lbid) && (vb_verID e =? verID)).
  assert (∀ e, p e = true ↔ vb_key e = (lbid, verID)) as Hp.
  { intros e. unfold p, vb_key. rewrite andb_true_iff, !Z.eqb_eq. naive_solver. }
  destruct (walk_find (key_hash (vb_numHashBuckets (t_hdr m))) (t_buckets m) (t_stor m) b h p)
    as [(l1 & i & l2 & e & Hc & Hi & Hpe & Hu & Hw)|(Hall & prev & Hw)]; auto.
  - by destruct Ht.
  - intros e He%Hp _. unfold vb_key in He. by simplify_eq.
  - left. exists l1, i, l2, e. rewrite Hw. by rewrite <- Hp.
  - right. exists prev. rewrite Hw. split; [done|]. intros i e Hi Hu He%Hp.
    by rewrite (Hall i e) in He.
Qed.

Lemma lookup_spec m lbid verID :
  vb_inv m → 0 ≤ lbid → 0 ≤ verID → lookup lbid verID m = Ret (vb_abs m !! (lbid, verID)).
Proof.
  intros [Hs _ Hu] Hl Hv. unfold lookup. do 2 (case_if; [lia|]).
  destruct (getIndex_spec m lbid verID Hs) as
    (h & _ & [(l1 & i & l2 & e & -> & _ & Hi & Hue & Hk)|(prev & -> & Hnone)]); [lia| |].
  - cbn. assert (i =? -1 = false) as -> by (apply Z.eqb_neq; apply zget_range in Hi; lia).
    rewrite Hi. cbn. unfold vb_abs. rewrite lookup_fmap.
    rewrite (proj2 (tabmap_lookup vb_key vb_key_body (t_stor m) (lbid, verID) (node_body e) Hu)); [done|].
    by exists i, e.
  - cbn. f_equal. symmetry. apply vb_abs_None. by apply tabmap_None.
Qed.

(** ** Inserting *)

(** Forget the undo log: what a load or a copy keeps. *)
Definition same_frame (s s' : VBBM) : Prop :=
  t_info (u_mem s') = t_info (u_mem s) ∧ t_files (u_mem s') = t_files (u_mem s) ∧
  nFiles (t_hdr (u_mem s')) = nFiles (t_hdr (u_mem s)) ∧
  vbCapacity (t_hdr (u_mem s')) = vbCapacity (t_hdr (u_mem s)) ∧
  vbCurrentSize (t_hdr (u_mem s')) = vbCurrentSize (t_hdr (u_mem s)) ∧
  vb_numHashBuckets (t_hdr (u_mem s')) = vb_numHashBuckets (t_hdr (u_mem s)).

#[global] Instance same_frame_pre : PreOrder same_frame.
Proof. split; unfold same_frame; [done|]. intros x y z. naive_solver congruence. Qed.

Lemma vb_insert__spec e loading s :
  used e → vb_struct (u_mem s) →
  zlength (entries (t_stor (u_mem s))) < vbCapacity (t_hdr (u_mem s)) →
  ∃ s', vb_insert_ e loading s = (Ret tt, s') ∧ vb_struct (u_mem s') ∧ same_frame s s' ∧
        entries (t_stor (u_mem s')) ≡ₚ node_body e :: entries (t_stor (u_mem s)) ∧
        (loading = true → undoRecords s' = undoRecords s).
Proof.
  intros Hu [Ht Hcap Hf] Hlt. rewrite <- Hcap in Hlt.
  destruct (tstruct_find_empty _ _ _ _ Ht Hlt) as (i & e0 & Hfe & Hi & H0 & Hfirst).
  destruct (tstruct_bucket _ _ _ _ e Ht) as [h Hb].
  destruct (tstruct_link _ _ _ _ i i e0 e h Ht Hb Hi H0 Hu Hfirst) as [Ht' He]; [by left|].
  unfold vb_insert_. autorewrite with run. rewrite Hfe, lift_run, Hi. cbn [deref]. rewrite lift_run.
  change (vb_bucket _ e) with (key_hash (vb_numHashBuckets (t_hdr (u_mem s))) e).
  rewrite Hb. cbn [deref]. rewrite lift_run.
  destruct loading; autorewrite with run; (eexists; split; [reflexivity|]);
    (split; [split; cbn; [done|by rewrite zlength_zset|done]|]); (split; [done|]);
    (split; [done|]); done.
Qed.

(** ** Growing *)

(** The slots that [copyVBBM] walks. *)
Definition walked (m : VBMem) : list VBBMEntry :=
  take (Z.to_nat (vbCurrentSize (t_hdr m))) (t_stor m).

Lemma copyVBBM_spec src dest :
  vb_struct dest → entries (t_stor dest) = [] →
  zlength (entries (walked src)) ≤ vbCapacity (t_hdr dest) →
  ∃ m', copyVBBM src dest = Ret m' ∧ vb_struct m' ∧
        same_frame (mkUndoable dest []) (mkUndoable m' []) ∧
        entries (t_stor m') ≡ₚ entries (walked src).
Proof.
  intros Hd H0 Hlen. unfold copyVBBM. fold (walked src).
  destruct (reload_spec (fun e => vb_insert_ e true) (vbCapacity (t_hdr dest))
    (fun m => vb_struct m ∧ vbCapacity (t_hdr m) = vbCapacity (t_hdr dest)) same_frame)
    with (l := List.filter usedb (walked src)) (s := mkUndoable dest (D := delta VBShmsegHeader VBFileMetadata VBBMEntry) [])
    as (s' & Hr & [Hs' Hc'] & HG & He').
  - intros e s Hu [Hs Hc] Hlt. rewrite <- Hc in Hlt.
    destruct (vb_insert__spec e true s Hu Hs Hlt) as (s1 & ? & ? & HG & ? & ?).
    exists s1. split; [done|]. split; [|done]. split; [done|]. rewrite <- Hc. apply HG.
  - apply used_filter.
  - done.
  - cbn. rewrite H0. rewrite <- entries_filter in Hlen. unfold zlength in *.
    rewrite length_fmap in Hlen. simpl. lia.
  - rewrite Hr. exists (u_mem s'). split; [done|]. split; [done|]. split; [done|].
    rewrite He', entries_filter. cbn. by rewrite H0, app_nil_r.
Qed.

Lemma replicate_struct info files n cap size nb :
  zlength files = n → 0 ≤ cap → 0 < nb →
  vb_struct (mkTbl info (mkVBHdr n cap size 0 nb) files
               (replicate (Z.to_nat nb) (-1)) (replicate (Z.to_nat cap) empty_VBBMEntry)).
Proof.
  intros Hf Hc Hn. split; cbn; [by apply tstruct_empty| |done].
  unfold zlength. rewrite length_replicate. lia.
Qed.

Definition grown (addAFile : bool) (s s' : VBBM) : Prop :=
  let m := u_mem s in let m' := u_mem s' in
  vb_struct m' ∧ undoRecords s' = [] ∧
  tableShmkey (t_info m') = chooseShmkey (t_info m) ∧
  vbCurrentSize (t_hdr m') = vbCurrentSize (t_hdr m) ∧
  vbCapacity (t_hdr m') = vbCapacity (t_hdr m) + (if addAFile then 0 else 10000) ∧
  vb_numHashBuckets (t_hdr m') = vb_numHashBuckets (t_hdr m) + (if addAFile then 0 else 2500) ∧
  t_files m' = (if addAFile then t_files m ++ [file_overread (t_buckets m)] else t_files m) ∧
  entries (t_stor m') ≡ₚ entries (walked m).

(** What [growVBBM] does: it keeps exactly the entries it walks over. *)
Lemma growVBBM_spec addAFile s :
  vb_struct (u_mem s) → ∃ s', growVBBM addAFile s = (Ret tt, s') ∧ grown addAFile s s'.
Proof.
  destruct s as [m log]. intros [Ht Hcap Hf]. cbn in *. unfold growVBBM. cbn [u_mem].
  assert (take (Z.to_nat (nFiles (t_hdr m))) (t_files m) = t_files m) as ->.
  { apply take_ge. unfold zlength in Hf. lia. }
  change (VBSTORAGE_INCREMENT / sizeof VBBMEntry) with 10000.
  change (VBTABLE_INCREMENT / 4) with 2500.
  match goal with |- context [copyVBBM m ?d] => set (dest := d) end.
  pose proof (ts_nb _ _ _ _ Ht). pose proof (zlength_nonneg (t_stor m)).
  destruct (copyVBBM_spec m dest) as (m' & -> & Hs' & HG & He').
  - apply replicate_struct; [|destruct addAFile; lia..]. destruct addAFile; [|done].
    unfold zlength in *. rewrite length_app. simpl. lia.
  - cbn. by apply entries_replicate.
  - unfold walked. pose proof (entries_take (t_stor m) (Z.to_nat (vbCurrentSize (t_hdr m)))).
    unfold dest. cbn. destruct addAFile; lia.
  - eexists. split; [reflexivity|]. destruct HG as (Hi & Hfl & Hn & Hc & Hsz & Hnb).
    cbn in *. unfold grown. cbn [u_mem undoRecords]. rewrite Hi. split_and!; done.
Qed.

(** A table whose used slots all lie below its size has nothing to lose. *)
Definition compact (m : VBMem) : Prop :=
  ∀ i e, (t_stor m).[i] = Some e → used e → i < vbCurrentSize (t_hdr m).

Lemma entries_walked m :
  0 ≤ vbCurrentSize (t_hdr m) → compact m → entries (walked m) = entries (t_stor m).
Proof.
  intros Hs Hc. unfold walked. set (n := Z.to_nat (vbCurrentSize (t_hdr m))).
  rewrite <- (take_drop n (t_stor m)) at 2. rewrite entries_app.
  assert (entries (drop n (t_stor m)) = []) as ->; [|by rewrite app_nil_r].
  destruct (entries (drop n (t_stor m))) as [|x l] eqn:Hx; [done|]. exfalso.
  assert (x ∈ entries (drop n (t_stor m))) as (i & e & Hi & Hu & _)%elem_of_entries.
  { rewrite Hx. by left. }
  pose proof (zget_range _ _ _ Hi) as Hr. unfold zget in Hi. case_if; [lia|].
  rewrite lookup_drop, <- zget_nat in Hi. specialize (Hc _ _ Hi Hu). lia.
Qed.

Lemma full_compact m : vb_struct m → vbCurrentSize (t_hdr m) = vbCapacity (t_hdr m) → compact m.
Proof. intros [_ Hc _] Hf i e Hi _. apply zget_range in Hi. lia. Qed.

Lemma vb_size_range m : vb_inv m → 0 ≤ vbCurrentSize (t_hdr m) ≤ vbCapacity (t_hdr m).
Proof. intros [_ Hs _]. pose proof (zlength_nonneg (entries (t_stor m))). lia. Qed.

Lemma walked_sub m : ∃ rest, entries (t_stor m) = entries (walked m) ++ rest.
Proof.
  unfold walked. eexists. rewrite <- entries_app. by rewrite take_drop.
Qed.

Lemma walked_unique m : keys_unique vb_key (t_stor m) → NoDup (vb_key <$> entries (walked m)).
Proof.
  unfold keys_unique. destruct (walked_sub m) as [rest ->]. rewrite fmap_app.
  intros Hn. by apply NoDup_app in Hn as [? _].
Qed.

(** Growing never breaks the invariant. *)
Lemma growVBBM_safe addAFile s :
  vb_inv (u_mem s) →
  ∃ s', growVBBM addAFile s = (Ret tt, s') ∧ grown addAFile s s' ∧ vb_inv (u_mem s').
Proof.
  intros [Hs Hsz Hu]. destruct (growVBBM_spec addAFile s Hs) as (s' & Hrun & Hg).
  exists s'. split; [done|]. split; [done|].
  destruct Hg as (Hs' & _ & _ & Hcs & Hcp & _ & _ & He). split; [done| |].
  - rewrite Hcs, Hcp, He. destruct (walked_sub (u_mem s)) as [rest Hw].
    rewrite Hw, zlength_app in Hsz. pose proof (zlength_nonneg rest).
    destruct addAFile; lia.
  - unfold keys_unique. rewrite He. by apply walked_unique.
Qed.

(** Growing a compact table changes where it is, not what it holds. *)
Lemma growVBBM_compact addAFile s s' :
  vb_inv (u_mem s) → compact (u_mem s) → grown addAFile s s' →
  vb_abs (u_mem s') = vb_abs (u_mem s) ∧ slack (u_mem s') = slack (u_mem s).
Proof.
  intros Hinv Hc Hg. pose proof (vb_size_range _ Hinv) as Hr. destruct Hinv as [_ _ Hu].
  destruct Hg as (_ & _ & _ & Hcs & _ & _ & _ & He).
  rewrite entries_walked in He by (done || lia).
  destruct (tabmap_perm vb_key (t_stor (u_mem s)) (t_stor (u_mem s')) Hu) as [Ha _]; [done|].
  unfold vb_abs, slack. by rewrite Ha, Hcs, He.
Qed.

(** The memory [insert] works on: the one given, or a larger copy. *)
Definition made_room (s s1 : VBBM) : Prop :=
  if vbCurrentSize (t_hdr (u_mem s)) =? vbCapacity (t_hdr (u_mem s))
  then grown false s s1 else s1 = s.

Lemma make_room s :
  vb_inv (u_mem s) →
  ∃ s1, (if vbCurrentSize (t_hdr (u_mem s)) =? vbCapacity (t_hdr (u_mem s))
         then growVBBM false else mret tt) s = (Ret tt, s1) ∧
        made_room s s1 ∧ vb_inv (u_mem s1) ∧ vb_abs (u_mem s1) = vb_abs (u_mem s) ∧
        slack (u_mem s1) = slack (u_mem s) ∧ t_files (u_mem s1) = t_files (u_mem s) ∧
        vbCurrentSize (t_hdr (u_mem s1)) < vbCapacity (t_hdr (u_mem s1)).
Proof.
  intros Hinv. unfold made_room. pose proof (vb_size_range _ Hinv) as Hr. case_if.
  - destruct (growVBBM_safe false s Hinv) as (s1 & Hrun & Hg & Hi1).
    destruct (growVBBM_compact false s s1 Hinv) as [Ha Hsl]; [|done|].
    { apply full_compact; [by destruct Hinv|done]. }
    exists s1. split_and!; try done.
    + apply Hg.
    + destruct Hg as (_ & _ & _ & Hcs & Hcp & _). rewrite Hcs, Hcp. lia.
  - exists s. split_and!; try done. lia.
Qed.

Lemma set_size_struct m n : vb_struct m → vb_struct (set_hdr (set_h_currentSize n (t_hdr m)) m).
Proof. by intros [? ? ?]. Qed.

(** [_insert] and the update of the size, on a table with room. *)
Definition insert_tail (e : VBBMEntry) (loading : bool) : M VBBM unit :=
  vb_insert_ e loading ≫= fun _ =>
  m ← get_mem;
  (if loading then mret tt else makeUndoRecord (DSize (vbCurrentSize (t_hdr m)))) ≫= fun _ =>
  upd_mem (fun m => set_hdr (set_h_currentSize (vbCurrentSize (t_hdr m) + 1) (t_hdr m)) m).

Lemma insert_tail_spec e loading s :
  used e → vb_inv (u_mem s) → vb_abs (u_mem s) !! vb_key e = None →
  vbCurrentSize (t_hdr (u_mem s)) < vbCapacity (t_hdr (u_mem s)) →
  ∃ s', insert_tail e loading s = (Ret tt, s') ∧ vb_inv (u_mem s') ∧
        vb_abs (u_mem s') = <[vb_key e := vb_place e]> (vb_abs (u_mem s)) ∧
        slack (u_mem s') = slack (u_mem s) ∧
        vbCapacity (t_hdr (u_mem s')) = vbCapacity (t_hdr (u_mem s)) ∧
        t_files (u_mem s') = t_files (u_mem s) ∧
        (loading = true → undoRecords s' = undoRecords s).
Proof.
  intros Hu [Hs Hsz Huq] Hnew Hlt.
  destruct (vb_insert__spec e loading s Hu Hs ltac:(lia)) as (s1 & Hrun & Hs1 & HG & He & Hlog).
  destruct HG as (Hi & Hfl & Hn & Hc & Hcs & Hnb).
  unfold insert_tail. rewrite (bind_ret _ _ _ _ _ Hrun). autorewrite with run.
  destruct (tabmap_cons vb_key vb_key_body (t_stor (u_mem s)) (t_stor (u_mem s1)) e Huq)
    as [Ha Huq']; [by apply vb_abs_None|done|].
  assert (zlength (entries (t_stor (u_mem s1))) = zlength (entries (t_stor (u_mem s))) + 1) as Hl.
  { by rewrite He, zlength_cons. }
  assert (vb_abs (u_mem s1) = <[vb_key e := vb_place e]> (vb_abs (u_mem s))) as Habs.
  { unfold vb_abs. by rewrite Ha, fmap_insert. }
  set (m' := set_hdr (set_h_currentSize (vbCurrentSize (t_hdr (u_mem s1)) + 1) (t_hdr (u_mem s1)))
               (u_mem s1)).
  assert (vb_inv m' ∧ slack m' = slack (u_mem s)) as [Hinv' Hsl].
  { split; [split; [by apply set_size_struct| |done]|unfold slack];
      change (vbCurrentSize (t_hdr m')) with (vbCurrentSize (t_hdr (u_mem s1)) + 1);
      change (t_stor m') with (t_stor (u_mem s1)); [|lia].
    change (vbCapacity (t_hdr m')) with (vbCapacity (t_hdr (u_mem s1))). lia. }
  destruct loading; autorewrite with run; (eexists; split; [reflexivity|]); fold m';
    cbn [u_mem undoRecords]; split_and!; done.
Qed.

Lemma insert_spec lbid verID vbOID vbFBO loading s :
  lbid ≠ -1 → vb_inv (u_mem s) → vb_abs (u_mem s) !! (lbid, verID) = None →
  ∃ s', insert lbid verID vbOID vbFBO loading s = (Ret tt, s') ∧ vb_inv (u_mem s') ∧
        vb_abs (u_mem s') = <[(lbid, verID) := (vbOID, vbFBO)]> (vb_abs (u_mem s)) ∧
        slack (u_mem s') = slack (u_mem s) ∧ t_files (u_mem s') = t_files (u_mem s).
Proof.
  intros Hl Hinv Hnew. unfold insert. autorewrite with run.
  destruct (make_room s Hinv) as (s1 & Hrun & _ & Hi1 & Ha & Hsl & Hf & Hlt).
  rewrite (bind_ret _ _ _ _ _ Hrun).
  destruct (insert_tail_spec (mkVBBM lbid verID vbOID vbFBO (-1)) loading s1)
    as (s' & Hr & Hi' & Ha' & Hsl' & _ & Hf' & _); auto.
  { by rewrite Ha. }
  exists s'. rewrite Ha', Ha, Hsl', Hsl, Hf', Hf. done.
Qed.

(** ** Removing *)

(** Taking the entry in slot [i] out. *)
Definition emptied (i : Z) (e : VBBMEntry) (s s' : VBBM) : Prop :=
  content (t_stor (u_mem s')) =
    (content (t_stor (u_mem s))).[i <- node_body (set_n_lbid (-1) e)] ∧
  t_info (u_mem s') = t_info (u_mem s) ∧ t_files (u_mem s') = t_files (u_mem s) ∧
  vbCapacity (t_hdr (u_mem s')) = vbCapacity (t_hdr (u_mem s)) ∧
  vbCurrentSize (t_hdr (u_mem s')) = vbCurrentSize (t_hdr (u_mem s)) - 1.

Lemma removeEntry_detail lbid verID s :
  lbid ≠ -1 → vb_inv (u_mem s) →
  ∃ s', removeEntry lbid verID s = (Ret tt, s') ∧ vb_inv (u_mem s') ∧
        vb_abs (u_mem s') = delete (lbid, verID) (vb_abs (u_mem s)) ∧
        slack (u_mem s') = slack (u_mem s) ∧
        ((s' = s ∧ vb_abs (u_mem s) !! (lbid, verID) = None) ∨
         ∃ i e, (t_stor (u_mem s)).[i] = Some e ∧ used e ∧ vb_key e = (lbid, verID) ∧
                emptied i e s s').
Proof.
  intros Hl Hinv. pose proof Hinv as [Hs Hsz Hu]. unfold removeEntry. autorewrite with run.
  destruct (getIndex_spec _ lbid verID Hs Hl) as
    (h & Hb & [(l1 & i & l2 & e & -> & Hc & Hi & Hue & Hk)|(prev & -> & Hnone)]);
    rewrite lift_run.
  - pose proof (zget_range _ _ _ Hi) as Hr. assert (i =? -1 = false) as ->.
    { apply Z.eqb_neq. lia. }
    destruct Hs as [Ht Hcap Hf].
    destruct (unlinkEntry_spec (key_hash (vb_numHashBuckets (t_hdr (u_mem s))))
                (vb_hash (vb_numHashBuckets (t_hdr (u_mem s))) lbid verID) h l1 i l2 e s)
      as (bk' & st' & h' & log' & Hrun & Hwf' & _ & _ & Hb' & Hcon & _);
      [by destruct Ht|by apply key_hash_stable|done..|].
    rewrite (bind_ret _ _ _ _ _ Hrun). autorewrite with run.
    destruct (tstruct_unlink _ _ _ _ bk' st' i e Ht Hi Hue Hb' Hwf' Hcon) as (Ht' & He & Hlen).
    destruct (tabmap_uncons vb_key vb_key_body _ st' e Hu He) as [Ha Hu'].
    assert (zlength (entries st') = zlength (entries (t_stor (u_mem s))) - 1) as Hn.
    { rewrite He, zlength_cons. lia. }
    eexists. split; [reflexivity|]. set (m' := u_mem _).
    assert (vbCurrentSize (t_hdr m') = vbCurrentSize (t_hdr (u_mem s)) - 1 ∧
            vbLWM (t_hdr m') = Z.min (vbLWM (t_hdr (u_mem s))) i ∧
            nFiles (t_hdr m') = nFiles (t_hdr (u_mem s)) ∧
            vbCapacity (t_hdr m') = vbCapacity (t_hdr (u_mem s)) ∧
            vb_numHashBuckets (t_hdr m') = vb_numHashBuckets (t_hdr (u_mem s)))
      as (Hcs' & Hlw' & Hnf' & Hcp' & Hnb').
    { unfold m'. cbn. case_if; cbn in *; split_and!; lia. }
    split; [|split; [|split]].
    + split; [split|..]; rewrite ?Hcs', ?Hlw', ?Hnf', ?Hcp', ?Hnb'; try done.
      * by rewrite <- Hcap.
      * change (t_stor m') with st'. lia.
    + unfold vb_abs. change (t_stor m') with st'. by rewrite Ha, fmap_delete, Hk.
    + unfold slack. change (t_stor m') with st'. lia.
    + right. exists i, e. by split_and!.
  - exists s. split; [done|]. split; [done|].
    assert (vb_abs (u_mem s) !! (lbid, verID) = None).
    { apply vb_abs_None. by apply tabmap_None. }
    split; [by rewrite delete_id|]. split; [done|]. by left.
Qed.

(** ** Undoing *)

Lemma vb_insert__recorded e s : recorded (=) s (vb_insert_ e false s).
Proof.
  unfold vb_insert_. apply recorded_get. do 3 (apply recorded_lift; [apply _|]; intros ? ?).
  destruct ((t_stor (u_mem s)).[_]) eqn:Hi; simplify_eq/=.
  destruct ((t_buckets (u_mem s)).[_]) eqn:Hb; simplify_eq/=. autorewrite with run.
  eexists [DHdr _; DStor _ _; DBucket _ _]. split; [cbn; by rewrite <- !app_assoc|].
  split; [done|]. destruct s as [[] ?]. cbn in *. unfold set_hdr, set_stor, set_bucket. cbn.
  by rewrite !zset_zset, !zset_id.
Qed.

Lemma insert_tail_recorded e s : recorded (=) s (insert_tail e false s).
Proof.
  unfold insert_tail. apply recorded_bind; [apply _|apply vb_insert__recorded|].
  intros _ s' _. apply recorded_get. apply recorded_write; [apply _| |done].
  by destruct (u_mem s') as [? [] ? ? ?].
Qed.

Lemma removeEntry_recorded lbid verID s : recorded (=) s (removeEntry lbid verID s).
Proof.
  unfold removeEntry. apply recorded_get, recorded_lift; [apply _|].
  intros [[index prev] bucket] _. case_if; [by apply recorded_ret; apply _|].
  apply recorded_bind; [apply _|apply unlinkEntry_recorded|]. intros _ s' _.
  apply recorded_get, recorded_write; [apply _| |done]. by destruct (u_mem s').
Qed.

(** ** Handing out version buffer blocks *)

(** A file's write position is a block boundary inside the file. *)
Definition fileBlocks (f : VBFileMetadata) : Z := fileSize f / BLOCK_SIZE.

Record file_ok (f : VBFileMetadata) : Prop := mkFileOk {
  fo_size : 0 ≤ fileSize f;
  fo_blocks : fileBlocks f < 2 ^ 31;
  fo_next : ∃ o, nextOffset f = o * BLOCK_SIZE ∧ 0 ≤ o ∧ (o < fileBlocks f ∨ o = 0);
}.

(** The circular allocation the loop computes: from block [o] of [B], [num]
    blocks, and the next position. *)
Definition ring_alloc (oid B o num : Z) : list VBRange * Z :=
  if num <=? 0 then ([], o)
  else if o + num <? B then ([mkVBRange oid o num], o + num)
  else
    let rest := num - (B - o) in
    if rest <=? 0 then ([mkVBRange oid o (B - o)], 0)
    else ([mkVBRange oid o (B - o); mkVBRange oid 0 rest], rest).

Lemma blocks_left f o :
  file_ok f → nextOffset f = o * BLOCK_SIZE → 0 ≤ o ≤ fileBlocks f →
  i32 (u64 (fileSize f - nextOffset f) / BLOCK_SIZE) = fileBlocks f - o ∧
  u32 (nextOffset f / BLOCK_SIZE) = o.
Proof.
  intros [H0 Hb _] Hn Ho. unfold fileBlocks in *.
  assert (0 < BLOCK_SIZE) by done.
  pose proof (Z.mul_div_le (fileSize f) BLOCK_SIZE ltac:(done)).
  pose proof (Z.mul_succ_div_gt (fileSize f) BLOCK_SIZE ltac:(done)).
  assert (fileSize f < 2 ^ 44).
  { unfold BLOCK_SIZE in *. change (2 ^ 44) with (2 ^ 31 * 8192). lia. }
  rewrite Hn, Z.div_mul by done. split.
  - rewrite (wrap_u_small 64).
    + replace (fileSize f - o * BLOCK_SIZE) with (fileSize f + (- o) * BLOCK_SIZE) by lia.
      rewrite Z.div_add by done. rewrite wrap_s_small; [lia|done|].
      change (2 ^ (32 - 1)) with (2 ^ 31). lia.
    + split; [nia|]. apply (Z.le_lt_trans _ (fileSize f)); [nia|].
      etransitivity; [done|]. done.
  - apply wrap_u_small. split; [lia|]. change (2 ^ 32) with (2 * 2 ^ 31). lia.
Qed.

Definition with_next (f : VBFileMetadata) (o : Z) : VBFileMetadata :=
  mkVBFile (OID f) (fileSize f) (o * BLOCK_SIZE).

(** One turn of the loop. *)
Lemma gatherBlocks_step fuel i num g f o s :
  file_ok f → nextOffset f = o * BLOCK_SIZE → 0 ≤ o < fileBlocks f →
  (t_files (u_mem s)).[i] = Some f → g < num → num - g < 2 ^ 31 →
  let size := Z.min (num - g) (fileBlocks f - o) in
  let o' := if num - g <? fileBlocks f - o then o + size else 0 in
  gatherBlocks (S fuel) i num g s =
    (rest ← gatherBlocks fuel i num (g + size); mret (mkVBRange (OID f) o size :: rest))
      (written (DFile i f) (set_file i (with_next f o')) s).
Proof.
  intros Hf Hn Ho Hi Hg Hm size o'. cbn [gatherBlocks].
  assert (num <=? g = false) as -> by (apply Z.leb_gt; lia).
  autorewrite with run. rewrite Hi. cbn [deref]. rewrite lift_run.
  destruct (blocks_left f o Hf Hn ltac:(lia)) as [-> ->].
  assert ((if num - g <=? fileBlocks f - o then num - g else fileBlocks f - o) = size) as ->.
  { unfold size. case_if; lia. }
  assert (0 ≤ size < 2 ^ 31) as Hsz.
  { unfold size. destruct Hf. lia. }
  assert (2 ^ 32 = 2 * 2 ^ 31) by done.
  rewrite (wrap_u_small 32 size) by lia.
  assert (fileBlocks f < 2 ^ 31) by by destruct Hf.
  rewrite (wrap_u_small 32 (fileBlocks f - o)) by lia.
  autorewrite with run.
  assert ((if size =? fileBlocks f - o then 0 else u64 (nextOffset f + size * BLOCK_SIZE))
          = o' * BLOCK_SIZE) as Hnext.
  { unfold o', size. destruct (num - g <? fileBlocks f - o) eqn:Hlt; zbool.
    - assert (Z.min (num - g) (fileBlocks f - o) =? fileBlocks f - o = false) as ->.
      { apply Z.eqb_neq. lia. }
      rewrite Hn, wrap_u_small; [lia|]. unfold BLOCK_SIZE.
      change (2 ^ 64) with (2 ^ 31 * 2 ^ 33). lia.
    - assert (Z.min (num - g) (fileBlocks f - o) =? fileBlocks f - o = true) as ->; [|done].
      apply Z.eqb_eq. lia. }
  rewrite Hnext. done.
Qed.

Lemma gatherBlocks_done fuel i num g s :
  num ≤ g → gatherBlocks fuel i num g s = (Ret [], s).
Proof.
  intros Hg. assert (num <=? g = true) as Hb by (apply Z.leb_le; lia).
  destruct fuel; cbn [gatherBlocks]; by rewrite Hb.
Qed.

Lemma set_file_twice i f f' (m : VBMem) : set_file i f (set_file i f' m) = set_file i f m.
Proof. unfold set_file. cbn. by rewrite zset_zset. Qed.

(** Two turns are enough, and they allocate a ring segment. *)
Lemma gatherBlocks_spec fuel i num f o s :
  file_ok f → nextOffset f = o * BLOCK_SIZE → 0 ≤ o < fileBlocks f →
  (t_files (u_mem s)).[i] = Some f → 0 ≤ num ≤ fileBlocks f → (1 < fuel)%nat →
  ∃ s', gatherBlocks fuel i num 0 s = (Ret (ring_alloc (OID f) (fileBlocks f) o num).1, s') ∧
        u_mem s' = set_file i (with_next f (ring_alloc (OID f) (fileBlocks f) o num).2) (u_mem s).
Proof.
  intros Hf Hn Ho Hi Hnum Hfuel.
  assert (fileBlocks f < 2 ^ 31) by by destruct Hf.
  unfold ring_alloc. destruct (num <=? 0) eqn:H0; zbool.
  { rewrite gatherBlocks_done by lia. exists s. split; [done|]. cbn.
    unfold with_next. rewrite <- Hn. destruct f, s as [[]]. cbn in *. unfold set_file. cbn.
    by rewrite zset_id. }
  destruct fuel as [|[|fuel]]; [lia..|].
  rewrite (gatherBlocks_step (S fuel) i num 0 f o s) by (done || lia).
  rewrite Z.sub_0_r, Z.add_0_l. destruct (o + num <? fileBlocks f) eqn:Hlt; zbool.
  { assert (num <? fileBlocks f - o = true) as -> by (apply Z.ltb_lt; lia).
    rewrite Z.min_l by lia. erewrite bind_ret by (apply gatherBlocks_done; lia).
    by eexists. }
  assert (num <? fileBlocks f - o = false) as -> by (apply Z.ltb_ge; lia).
  rewrite Z.min_r by lia. destruct (num - (fileBlocks f - o) <=? 0) eqn:Hr; zbool.
  { erewrite bind_ret by (apply gatherBlocks_done; lia). by eexists. }
  pose proof (zget_range _ _ _ Hi) as Hri.
  erewrite bind_ret.
  2: { erewrite (gatherBlocks_step fuel i num (fileBlocks f - o) (with_next f 0) 0); cycle 1.
       - split; [by destruct Hf..|]. exists 0. cbn. lia.
       - done.
       - change (fileBlocks (with_next f 0)) with (fileBlocks f). lia.
       - cbn. by apply zget_zset_eq.
       - lia.
       - lia.
       - change (fileBlocks (with_next f 0)) with (fileBlocks f).
         rewrite Z.sub_0_r, Z.min_l by lia.
         erewrite bind_ret by (apply gatherBlocks_done; lia). reflexivity. }
  eexists. split; [reflexivity|]. cbn [u_mem written].
  assert (num - (fileBlocks f - o) <? fileBlocks f = true) as -> by (apply Z.ltb_lt; lia).
  by rewrite set_file_twice.
Qed.

Lemma gatherBlocks_recorded fuel i num g s : recorded (=) s (gatherBlocks fuel i num g s).
Proof.
  revert g s. induction fuel as [|fuel IH]; intros g s; cbn [gatherBlocks];
    (case_if; [by apply recorded_ret; apply _|]); [by apply recorded_ret; apply _|].
  apply recorded_get, recorded_lift; [apply _|]. intros f Hf.
  destruct ((t_files (u_mem s)).[i]) eqn:Hi; simplify_eq/=.
  apply recorded_write_k; [apply _|by apply restore_set_file|done|].
  apply recorded_bind; [apply _|apply IH|]. intros rest s' _. apply recorded_ret; apply _.
Qed.

(** The blocks of a list of ranges, in the order they are handed out. *)
Definition range_blocks (rs : list VBRange) : list Z :=
  rs ≫= fun r => zseq (r_vbFBO r) (r_size r).

(** The allocation is the next [num] blocks of the ring. *)
Lemma ring_alloc_blocks oid B o num :
  0 ≤ o < B → 0 ≤ num ≤ B →
  range_blocks (ring_alloc oid B o num).1 = (fun x => x mod B) <$> zseq o num ∧
  (ring_alloc oid B o num).2 = (if num <=? 0 then o else (o + num) mod B) ∧
  Forall (fun r => r_vbOID r = oid ∧ 0 ≤ r_vbFBO r ∧ 0 < r_size r ∧ r_vbFBO r + r_size r ≤ B)
    (ring_alloc oid B o num).1.
Proof.
  intros Ho Hn. unfold ring_alloc. destruct (num <=? 0) eqn:H0; zbool.
  { assert (num = 0) as -> by lia. split_and!; [done|done|constructor]. }
  destruct (o + num <? B) eqn:Hlt; zbool; [|destruct (num - (B - o) <=? 0) eqn:Hr; zbool];
    cbn [fst snd range_blocks mbind list_bind r_vbFBO r_size].
  - rewrite app_nil_r, (zseq_mod _ _ _ 0), Z.mul_0_l, Z.sub_0_r, Z.mod_small by lia.
    split_and!; [done|done|]. repeat constructor; cbn; lia.
  - replace (B - o) with num by lia. replace (o + num) with B by lia.
    rewrite app_nil_r, (zseq_mod _ _ _ 0), Z.mul_0_l, Z.sub_0_r, Z_mod_same_full by lia.
    split_and!; [done|done|]. repeat constructor; cbn; lia.
  - split_and!.
    + replace num with ((B - o) + (num - (B - o))) at 2 by lia.
      rewrite zseq_app, fmap_app, (zseq_mod _ _ _ 0), (zseq_mod _ _ _ 1), app_nil_r by lia.
      rewrite Z.mul_0_l, Z.sub_0_r. do 2 f_equal. lia.
    + apply (Z.mod_unique _ _ 1); lia.
    + repeat constructor; cbn; lia.
Qed.

(** ** Ageing blocks out *)

(** The used slots of [st'] are used slots of [st], with the same contents. *)
Definition shrinks (st st' : list VBBMEntry) : Prop :=
  ∀ j e', st'.[j] = Some e' → used e' →
    ∃ e, st.[j] = Some e ∧ used e ∧ node_body e = node_body e'.

#[global] Instance shrinks_pre : PreOrder shrinks.
Proof.
  split.
  - intros st j e Hj Hu. eauto.
  - intros s1 s2 s3 H12 H23 j e Hj Hu. destruct (H23 j e Hj Hu) as (e2 & Hj2 & Hu2 & Hb2).
    destruct (H12 j e2 Hj2 Hu2) as (e1 & ? & ? & ?). exists e1. split_and!; congruence.
Qed.

Lemma shrinks_entries st st' x : shrinks st st' → x ∈ entries st' → x ∈ entries st.
Proof.
  intros Hs (i & e & Hi & Hu & ->)%elem_of_entries.
  destruct (Hs i e Hi Hu) as (e1 & ? & ? & <-). apply elem_of_entries. eauto.
Qed.

Lemma emptied_shrinks i e s s' :
  (t_stor (u_mem s)).[i] = Some e → emptied i e s s' →
  shrinks (t_stor (u_mem s)) (t_stor (u_mem s')) ∧
  ∀ e', (t_stor (u_mem s')).[i] = Some e' → ¬ used e'.
Proof.
  intros Hi (Hcon & _).
  assert (∀ j e', (t_stor (u_mem s')).[j] = Some e' →
    (content (t_stor (u_mem s))).[i <- node_body (set_n_lbid (-1) e)].[j] = Some (node_body e')) as Hj.
  { intros j e' Hj. by rewrite <- Hcon, content_zget, Hj. }
  assert (∀ e', (t_stor (u_mem s')).[i] = Some e' → ¬ used e') as Hempty.
  { intros e' He'. apply Hj in He'. rewrite zget_zset_eq in He'.
    - apply (inj Some) in He'. by intros ?%(used_body _ _ (eq_sym He')).
    - rewrite zlength_content. by eapply zget_range. }
  split; [|done]. intros j e' Hj' Hu. destruct (decide (i = j)) as [->|Hne].
  - by destruct (Hempty e' Hj').
  - apply Hj in Hj'. rewrite zget_zset_ne, content_zget in Hj' by done.
    destruct ((t_stor (u_mem s)).[j]) as [e1|] eqn:H1; [|done]. apply (inj Some) in Hj' as Hb.
    exists e1. split_and!; try done. by apply (used_body e').
Qed.

(** What ageing keeps: the files, the capacity and the segment. *)
Definition aged (s s' : VBBM) : Prop :=
  shrinks (t_stor (u_mem s)) (t_stor (u_mem s')) ∧
  t_info (u_mem s') = t_info (u_mem s) ∧ t_files (u_mem s') = t_files (u_mem s) ∧
  vbCapacity (t_hdr (u_mem s')) = vbCapacity (t_hdr (u_mem s)) ∧
  vbCurrentSize (t_hdr (u_mem s')) ≤ vbCurrentSize (t_hdr (u_mem s)).

#[global] Instance aged_pre : PreOrder aged.
Proof.
  split; [done|]. intros x y z (? & ? & ? & ? & ?) (? & ? & ? & ? & ?).
  split; [by etransitivity|]. split_and!; congruence || lia.
Qed.

(** The entries that the window [[first, last]] of file [oid] ages out. *)
Definition in_window (oid first last : Z) (e : VBBMEntry) : bool :=
  usedb e && (vb_vbOID e =? oid) && (first <=? vb_vbFBO e) && (vb_vbFBO e <=? last).

Lemma in_window_body oid first last e e' :
  node_body e = node_body e' → in_window oid first last e = in_window oid first last e'.
Proof.
  destruct e, e'. unfold node_body, in_window, usedb. cbn. by intros [= -> -> -> ->].
Qed.

Section Ageing.
Context {V : Type} `{VSSCallsLaws V}.
Implicit Types (b : VBBM) (v : V).

Lemma on_vbbm_run {A} (op : M VBBM A) b v r b' :
  op b = (r, b') → on_vbbm op (b, v) = (r, (b', v)).
Proof. unfold on_vbbm, zoom. simpl. by intros ->. Qed.

Lemma on_vss_run {A} (op : M V A) b v r v' :
  op v = (r, v') → on_vss op (b, v) = (r, (b, v')).
Proof. unfold on_vss, zoom. simpl. by intros ->. Qed.

(** The outcome of ageing: success, or an entry is needed for a rollback. *)
Definition age_result (P : VBBM → Prop) b (res : outcome (list Z) * (VBBM * V)) : Prop :=
  ∃ b' v', vb_inv (u_mem b') ∧ v_inv v' ∧ aged b b' ∧
    ((∃ fl, res = (Ret fl, (b', v')) ∧ P b') ∨ res = (Exn VBBMBufferOverFlow, (b', v'))).

Lemma ageSlot_spec oid first last i fl b v :
  vb_inv (u_mem b) → v_inv v → 0 ≤ i < vbCapacity (t_hdr (u_mem b)) →
  age_result (fun b' => ∀ e, (t_stor (u_mem b')).[i] = Some e → in_window oid first last e = false)
    b (ageSlot oid first last i fl (b, v)).
Proof.
  intros Hinv Hv Hi. rewrite <- (vs_cap _ (vi_struct _ Hinv)) in Hi.
  destruct (zget_is_Some (t_stor (u_mem b)) i Hi) as [e He].
  unfold ageSlot. erewrite bind_ret by by apply on_vbbm_run.
  rewrite He. cbn [deref]. rewrite lift_run. fold (in_window oid first last e).
  destruct (in_window oid first last e) eqn:Hw.
  - assert (used e) as Hu.
    { unfold in_window in Hw. zbool. by apply usedb_true. }
    destruct (vc_isEntryLocked_total (vb_lbid e) (vb_verID e) v Hv) as [lck Hlck].
    erewrite bind_ret by (cbn; by rewrite Hlck). destruct lck.
    { exists b, v. split_and!; [done..|]. by right. }
    destruct (vc_removeEntry_total (vb_lbid e) (vb_verID e) fl v Hv Hu) as (fl' & v' & Hrm & Hv').
    erewrite bind_ret by by apply on_vss_run.
    destruct (removeEntry_detail (vb_lbid e) (vb_verID e) b Hu Hinv)
      as (b' & Hrun & Hinv' & _ & _ & [[-> Hn]|(i' & e' & Hi' & Hu' & Hk & Hemp)]).
    + exfalso. apply vb_abs_None in Hn. by apply (proj2 (tabmap_None vb_key vb_key_body _ _) Hn i e).
    + assert (i' = i) as -> by by eapply (keys_unique_slot vb_key vb_key_body); [destruct Hinv|..].
      destruct (emptied_shrinks i e' b b' Hi' Hemp) as [Hsh Hem].
      erewrite bind_ret by by apply on_vbbm_run.
      exists b', v'. split; [done|]. split; [done|]. destruct Hemp as (_ & ? & ? & ? & ?).
      split; [split_and!; done || lia|]. left. exists fl'. split; [done|]. intros e2 He2%Hem.
      unfold in_window. destruct (usedb e2) eqn:Hu2; [|done]. by apply usedb_true in Hu2.
  - exists b, v. split_and!; try done. left. exists fl. split; [done|]. congruence.
Qed.

Lemma ageSlots_spec oid first last slots fl b v :
  vb_inv (u_mem b) → v_inv v → (∀ i, i ∈ slots → 0 ≤ i < vbCapacity (t_hdr (u_mem b))) →
  age_result (fun b' => ∀ i e, i ∈ slots → (t_stor (u_mem b')).[i] = Some e →
                         in_window oid first last e = false)
    b (ageSlots oid first last slots fl (b, v)).
Proof.
  revert fl b v. induction slots as [|i slots IH]; intros fl b v Hinv Hv Hr; cbn [ageSlots].
  { exists b, v. split_and!; try done. left. exists fl. split; [done|].
    intros i e Hi. by apply elem_of_nil in Hi. }
  destruct (ageSlot_spec oid first last i fl b v Hinv Hv) as
    (b1 & v1 & Hinv1 & Hv1 & Hag1 & [(fl1 & Hrun & HP)|Hrun]); [apply Hr; set_solver| |].
  2: { rewrite (bind_exn _ _ _ _ _ Hrun). exists b1, v1. split_and!; auto. }
  rewrite (bind_ret _ _ _ _ _ Hrun).
  destruct (IH fl1 b1 v1 Hinv1 Hv1) as (b2 & v2 & Hinv2 & Hv2 & Hag2 & Hres).
  { destruct Hag1 as (_ & _ & _ & -> & _). intros j Hj. apply Hr. set_solver. }
  exists b2, v2. split_and!; try done; [by etransitivity|].
  destruct Hres as [(fl2 & -> & HP2)| -> ]; [left|by right].
  exists fl2. split; [done|]. intros j e Hj He. apply elem_of_cons in Hj as [->|Hj]; [|by eapply HP2].
  destruct (usedb e) eqn:Hu; [|unfold in_window; by rewrite Hu].
  destruct Hag2 as (Hsh & _). destruct (Hsh i e He) as (e1 & He1 & _ & Hb); [by apply usedb_true|].
  rewrite <- (in_window_body _ _ _ _ _ Hb). by apply HP.
Qed.

(** No entry of the table lies in the window of [r]. *)
Definition window_clear (B : Z) (r : VBRange) (m : VBMem) : Prop :=
  ∀ first last x, ageWindow B r = Some (first, last) → x ∈ entries (t_stor m) →
    in_window (r_vbOID r) first last x = false.

Lemma ageRanges_spec i f rs fl b v :
  vb_inv (u_mem b) → v_inv v → (t_files (u_mem b)).[i] = Some f →
  age_result (fun b' => ∀ r, r ∈ rs → window_clear (fileBlocks f) r (u_mem b'))
    b (ageRanges i rs fl (b, v)).
Proof.
  revert fl b v. induction rs as [|r rs IH]; intros fl b v Hinv Hv Hf; cbn [ageRanges].
  { exists b, v. split_and!; try done. left. exists fl. split; [done|].
    intros r Hr. by apply elem_of_nil in Hr. }
  erewrite bind_ret by by apply on_vbbm_run. rewrite Hf. cbn [deref]. rewrite lift_run.
  fold (fileBlocks f).
  match goal with |- age_result _ _ ((?op ≫= _) _) =>
    assert (age_result (fun b' => window_clear (fileBlocks f) r (u_mem b')) b (op (b, v)))
      as (b1 & v1 & Hinv1 & Hv1 & Hag1 & Hres) end.
  { destruct (ageWindow (fileBlocks f) r) as [[first last]|] eqn:Hw.
    - destruct (ageSlots_spec (r_vbOID r) first last (zseq 0 (vbCapacity (t_hdr (u_mem b)))) fl b v)
        as (b1 & v1 & Hinv1 & Hv1 & Hag1 & Hres); try done.
      { intros j Hj. apply zseq_elem in Hj. lia. }
      exists b1, v1. split_and!; try done. destruct Hres as [(fl1 & -> & HP)| -> ]; [left|by right].
      exists fl1. split; [done|]. intros ? ? x Hw' (j & e & Hj & Hu & ->)%elem_of_entries.
      simplify_eq. rewrite (in_window_body _ _ _ _ e) by apply node_body_next.
      apply (HP j e); [|done]. apply zseq_elem. destruct Hag1 as (_ & _ & _ & <- & _).
      rewrite <- (vs_cap _ (vi_struct _ Hinv1)). apply zget_range in Hj. lia.
    - exists b, v. split_and!; try done. left. exists fl. split; [done|].
      intros ? ? x Hw'. congruence. }
  destruct Hres as [(fl1 & Hrun & HP)|Hrun].
  2: { rewrite (bind_exn _ _ _ _ _ Hrun). exists b1, v1. split_and!; auto. }
  rewrite (bind_ret _ _ _ _ _ Hrun).
  assert ((t_files (u_mem b1)).[i] = Some f) as Hf1 by by destruct Hag1 as (_ & _ & -> & _).
  destruct (IH fl1 b1 v1 Hinv1 Hv1 Hf1) as (b2 & v2 & Hinv2 & Hv2 & Hag2 & Hres2).
  exists b2, v2. split_and!; try done; [by etransitivity|].
  destruct Hres2 as [(fl2 & -> & HP2)| -> ]; [left|by right].
  exists fl2. split; [done|]. intros r' Hr'. apply elem_of_cons in Hr' as [->|Hr']; [|by apply HP2].
  intros first last x Hw Hx. apply (HP first last x Hw).
  destruct Hag2 as (Hsh & _). by eapply shrinks_entries.
Qed.
End Ageing.

(** The rest of the chunk that position [o] is in has no entries of file [oid]
    (when [o] is a chunk boundary, nothing is asked). *)
Definition chunk_clear (B oid o : Z) (m : VBMem) : Prop :=
  o mod VBBM_CHUNK_SIZE ≠ 0 →
  ∀ x, x ∈ entries (t_stor m) → vb_vbOID x = oid → vb_vbFBO x < B →
    ¬ (o ≤ vb_vbFBO x < (o / VBBM_CHUNK_SIZE + 1) * VBBM_CHUNK_SIZE).

Lemma elem_of_entries_used st x : x ∈ entries (E := VBBMEntry) st → usedb x = true.
Proof.
  intros (i & e & _ & Hu & ->)%elem_of_entries. rewrite usedb_body. by apply usedb_true.
Qed.

Lemma ageWindow_spec B r :
  0 ≤ r_vbFBO r → 0 < r_size r → r_vbFBO r + r_size r ≤ B → B < 2 ^ 31 →
  let a := r_vbFBO r in
  let last := r_vbFBO r + r_size r - 1 in
  ageWindow B r =
    if negb (a mod 100 =? 0) && (a / 100 =? last / 100) then None
    else Some (if negb (a mod 100 =? 0) then (a / 100 + 1) * 100 else a,
               Z.min B ((last / 100 + 1) * 100 - 1)).
Proof.
  intros Ha Hn HB HB31 a last. unfold ageWindow, VBBM_CHUNK_SIZE. fold a.
  assert (2 ^ 32 = 2 * 2 ^ 31) by done. assert (2 ^ 31 = 2147483648) by done.
  rewrite (wrap_u_small 32 (a + _ - 1)) by lia. change (a + r_size r - 1) with last.
  destruct (_ && _); [done|].
  pose proof (Z.mul_div_le a 100 ltac:(lia)). pose proof (Z.mul_div_le last 100 ltac:(lia)).
  pose proof (Z.div_pos a 100 ltac:(lia) ltac:(lia)).
  pose proof (Z.div_pos last 100 ltac:(lia) ltac:(lia)).
  rewrite (wrap_u_small 32 ((a / 100 + 1) * 100)) by lia.
  rewrite (wrap_u_small 32 ((last / 100 + 1) * 100 - 1)) by lia.
  do 2 f_equal. case_if; [rewrite wrap_u_small|]; lia.
Qed.

(** After ageing, nothing is left from the start of the range to the end of its
    last chunk. *)
Lemma range_clear B r m :
  0 ≤ r_vbFBO r → 0 < r_size r → r_vbFBO r + r_size r ≤ B → B < 2 ^ 31 →
  chunk_clear B (r_vbOID r) (r_vbFBO r) m → window_clear B r m →
  ∀ x, x ∈ entries (t_stor m) → vb_vbOID x = r_vbOID r → vb_vbFBO x < B →
    ¬ (r_vbFBO r ≤ vb_vbFBO x < ((r_vbFBO r + r_size r - 1) / 100 + 1) * 100).
Proof.
  intros Ha Hn HB HB31 Hcc Hwc x Hx Hoid Hfbo Hin.
  unfold window_clear in Hwc. rewrite ageWindow_spec in Hwc by done.
  unfold chunk_clear, VBBM_CHUNK_SIZE in Hcc.
  set (a := r_vbFBO r) in *. set (last := a + r_size r - 1) in *.
  pose proof (elem_of_entries_used _ _ Hx) as Hu.
  assert (∀ first, ¬ (negb (a mod 100 =? 0) && (a / 100 =? last / 100) = true) →
     first = (if negb (a mod 100 =? 0) then (a / 100 + 1) * 100 else a) → vb_vbFBO x < first) as Hwin.
  { intros first Hc ->. destruct (_ && _) eqn:Hb; [done|].
    specialize (Hwc _ _ x eq_refl Hx). unfold in_window in Hwc. rewrite Hu, Hoid, Z.eqb_refl in Hwc.
    cbn [andb] in Hwc. zbool. destruct Hwc as [Hwc|Hwc]; zbool; lia. }
  destruct (a mod 100 =? 0) eqn:Hal; cbn [negb andb] in Hwin; zbool.
  - specialize (Hwin a ltac:(done) eq_refl). lia.
  - specialize (Hcc Hal x Hx Hoid Hfbo). destruct (a / 100 =? last / 100) eqn:Hch; zbool.
    + rewrite Hch in Hcc. lia.
    + specialize (Hwin _ ltac:(done) eq_refl). lia.
Qed.

Lemma chunk_next n : (n + 1) mod 100 ≠ 0 → (n + 1) / 100 = n / 100.
Proof. intros H. Z.to_euclidean_division_equations. lia. Qed.

(** The windows of a ring allocation cover it, up to the end of its last chunk. *)
Lemma ring_clear oid B o num m :
  0 ≤ o < B → 0 ≤ num ≤ B → B < 2 ^ 31 → chunk_clear B oid o m →
  (∀ r, r ∈ (ring_alloc oid B o num).1 → window_clear B r m) →
  (∀ x, x ∈ entries (t_stor m) → vb_vbOID x = oid →
     vb_vbFBO x ∉ range_blocks (ring_alloc oid B o num).1) ∧
  chunk_clear B oid (ring_alloc oid B o num).2 m.
Proof.
  intros Ho Hn HB Hcc Hwc. unfold ring_alloc in *.
  destruct (num <=? 0) eqn:H0; zbool.
  { split; [|done]. intros x _ _ Hx. by apply elem_of_nil in Hx. }
  assert (∀ a n, 0 ≤ a → 0 < n → a + n ≤ B → chunk_clear B oid a m →
            window_clear B (mkVBRange oid a n) m →
            (∀ x, x ∈ entries (t_stor m) → vb_vbOID x = oid → vb_vbFBO x ∉ zseq a n) ∧
            chunk_clear B oid (a + n) m) as Hone.
  { intros a n Ha Hn' HB' Hc Hw.
    pose proof (range_clear B (mkVBRange oid a n) m Ha Hn' HB' HB Hc Hw) as Hr.
    cbn [r_vbFBO r_size r_vbOID] in Hr. split.
    - intros x Hx Hoid Hin%zseq_elem. apply (Hr x Hx Hoid); [lia|].
      pose proof (Z.mul_succ_div_gt (a + n - 1) 100 ltac:(lia)). lia.
    - intros Hmod x Hx Hoid Hfbo Hin. apply (Hr x Hx Hoid Hfbo).
      unfold VBBM_CHUNK_SIZE in *. replace (a + n) with (a + n - 1 + 1) in Hmod, Hin by lia.
      rewrite chunk_next in Hin by done. lia. }
  assert (∀ B' o', o' mod VBBM_CHUNK_SIZE = 0 → chunk_clear B' oid o' m) as Haligned.
  { intros B' o' Hz Hnz. lia. }
  destruct (o + num <? B) eqn:Hlt; zbool;
    [|destruct (num - (B - o) <=? 0) eqn:Hr; zbool];
    cbn [fst snd range_blocks mbind list_bind r_vbFBO r_size] in *; rewrite app_nil_r.
  - apply Hone; [lia..|done|apply Hwc; set_solver].
  - destruct (Hone o (B - o)) as [Hx _]; [lia..|done|apply Hwc; set_solver|].
    split; [done|by apply Haligned].
  - destruct (Hone o (B - o)) as [Hx _]; [lia..|done|apply Hwc; set_solver|].
    destruct (Hone 0 (num - (B - o))) as [Hx2 Hc2]; [lia..|by apply Haligned|apply Hwc; set_solver|].
    split; [|by rewrite Z.add_0_l in Hc2]. intros x Hin Hoid. specialize (Hx x Hin Hoid).
    specialize (Hx2 x Hin Hoid). set_solver.
Qed.

(** [growUntil] ends, with room for [num] more entries. *)
Lemma growUntil_spec fuel num s :
  vb_inv (u_mem s) →
  vbCurrentSize (t_hdr (u_mem s)) + num ≤ vbCapacity (t_hdr (u_mem s)) + 10000 * Z.of_nat fuel →
  ∃ s', growUntil fuel num s = (Ret tt, s') ∧ vb_inv (u_mem s') ∧
        vbCurrentSize (t_hdr (u_mem s')) + num ≤ vbCapacity (t_hdr (u_mem s')) ∧
        t_files (u_mem s') = t_files (u_mem s) ∧
        (∀ x, x ∈ entries (t_stor (u_mem s')) → x ∈ entries (t_stor (u_mem s))) ∧
        (vbCurrentSize (t_hdr (u_mem s)) + num ≤ vbCapacity (t_hdr (u_mem s)) → s' = s).
Proof.
  revert s. induction fuel as [|fuel IH]; intros s Hinv Hroom; cbn [growUntil];
    autorewrite with run; case_if; [lia| | |].
  - exists s. split_and!; done.
  - destruct (growVBBM_safe false s Hinv) as (s1 & Hrun & Hg & Hinv1).
    rewrite (bind_ret _ _ _ _ _ Hrun).
    destruct Hg as (_ & _ & _ & Hcs & Hcp & _ & Hf & He).
    destruct (IH s1 Hinv1) as (s2 & Hrun2 & Hinv2 & Hr2 & Hf2 & He2 & _); [lia|].
    exists s2. split_and!; try done; [congruence| |lia].
    intros x Hx%He2. rewrite He in Hx. destruct (walked_sub (u_mem s)) as [rest ->].
    apply elem_of_app. by left.
  - exists s. split_and!; done.
Qed.

(** ** The whole allocation *)

(** The file table: distinct files, each with a sound position whose chunk was
    cleared when it was entered. *)
Definition vb_files_ok (m : VBMem) : Prop :=
  NoDup (OID <$> t_files m) ∧
  ∀ f, f ∈ t_files m →
    file_ok f ∧ chunk_clear (fileBlocks f) (OID f) (nextOffset f / BLOCK_SIZE) m.

Definition cfg_ok (c : Z) : Prop := 1 ≤ c ∧ c / BLOCK_SIZE < 2 ^ 31.

Lemma chunk_clear_mono B oid o m m' :
  (∀ x, x ∈ entries (t_stor m') → x ∈ entries (t_stor m)) →
  chunk_clear B oid o m → chunk_clear B oid o m'.
Proof. intros Hsub Hc Hmod x Hx. apply Hc; auto. Qed.

Lemma vb_files_ok_mono m m' :
  (∀ x, x ∈ entries (t_stor m') → x ∈ entries (t_stor m)) → t_files m' = t_files m →
  vb_files_ok m → vb_files_ok m'.
Proof.
  intros Hsub Hf [Hn Ho]. unfold vb_files_ok. rewrite Hf. split; [done|].
  intros f Hin. destruct (Ho f Hin). split; [done|]. by eapply chunk_clear_mono.
Qed.

Lemma new_file_ok oid c : cfg_ok c → file_ok (mkVBFile oid c 0).
Proof.
  intros [Hc HB]. split; cbn; [lia|done|]. exists 0. cbn. lia.
Qed.

Lemma set_hdr_file_struct m i f : vb_inv m → vb_inv (set_file i f m).
Proof.
  intros [[Ht Hc Hf] Hs Hu]. split; [split|..]; try done. cbn. by rewrite zlength_zset.
Qed.

Lemma addVBFile_spec c oid s :
  cfg_ok c → vb_inv (u_mem s) → vb_files_ok (u_mem s) →
  ∃ i f s', addVBFileIfNotExists (Some c) oid s = (Ret i, s') ∧
    (t_files (u_mem s')).[i] = Some f ∧ OID f = oid ∧ vb_inv (u_mem s') ∧
    vb_files_ok (u_mem s') ∧
    (∀ x, x ∈ entries (t_stor (u_mem s')) → x ∈ entries (t_stor (u_mem s))).
Proof.
  intros Hc Hinv Hok. unfold addVBFileIfNotExists. autorewrite with run.
  pose proof (vs_files _ (vi_struct _ Hinv)) as Hnf.
  rewrite take_ge by (unfold zlength in Hnf; lia).
  destruct (list_find _ _) as [[i f]|] eqn:Hfind.
  - apply list_find_Some in Hfind as (Hi & Hoid & _).
    exists (Z.of_nat i), f, s. rewrite zget_nat. split_and!; done.
  - apply list_find_None in Hfind. unfold setCurrentFileSize.
    destruct Hc as [Hc1 Hc2]. assert (c <? 1 = false) as -> by (apply Z.ltb_ge; lia).
    rewrite lift_run. destruct (growVBBM_safe true s Hinv) as (s1 & Hrun & Hg & Hinv1).
    rewrite (bind_ret _ _ _ _ _ Hrun). autorewrite with run.
    destruct Hg as (_ & _ & _ & _ & _ & _ & Hf & He).
    assert (∀ x, x ∈ entries (t_stor (u_mem s1)) → x ∈ entries (t_stor (u_mem s))) as Hsub.
    { intros x Hx. rewrite He in Hx. destruct (walked_sub (u_mem s)) as [rest ->].
      apply elem_of_app. by left. }
    assert ((t_files (u_mem s1)).[nFiles (t_hdr (u_mem s)) <- mkVBFile oid c 0] =
            t_files (u_mem s) ++ [mkVBFile oid c 0]) as Hnew.
    { rewrite Hf, <- Hnf. unfold zset, zlength. case_if; [lia|].
      rewrite Nat2Z.id. rewrite insert_app_r_alt, Nat.sub_diag by lia. done. }
    exists (nFiles (t_hdr (u_mem s))), (mkVBFile oid c 0). eexists. split; [reflexivity|].
    cbn [u_mem t_files set_file t_stor]. rewrite Hnew.
    split_and!; [|done|by apply set_hdr_file_struct| |done].
    + unfold zget. rewrite <- Hnf. unfold zlength. case_if; [lia|]. rewrite Nat2Z.id.
      by apply list_lookup_middle.
    + destruct Hok as [Hnd Hfs]. unfold vb_files_ok. cbn [t_files set_file]. rewrite Hnew. split.
      * rewrite fmap_app. apply NoDup_app. split; [done|]. split; [|apply NoDup_singleton].
        intros x Hx Hx2. apply list_elem_of_singleton in Hx2 as ->.
        apply list_elem_of_fmap in Hx as (f & Hfo & Hin).
        rewrite Forall_forall in Hfind. by apply (Hfind f).
      * intros f [Hin|Hin]%elem_of_app.
        { destruct (Hfs f Hin). split; [done|]. by eapply chunk_clear_mono. }
        { apply list_elem_of_singleton in Hin as ->. split; [by apply new_file_ok|].
          intros Hmod. by destruct Hmod. }
Qed.

Lemma ring_next_ok f o num :
  file_ok f → 0 ≤ o < fileBlocks f → 0 ≤ num ≤ fileBlocks f →
  file_ok (with_next f (ring_alloc (OID f) (fileBlocks f) o num).2) ∧
  0 ≤ (ring_alloc (OID f) (fileBlocks f) o num).2 < fileBlocks f.
Proof.
  intros Hf Ho Hn. destruct (ring_alloc_blocks (OID f) (fileBlocks f) o num Ho Hn) as (_ & -> & _).
  assert (0 ≤ (if num <=? 0 then o else (o + num) mod fileBlocks f) < fileBlocks f) as Hr.
  { case_if; [lia|]. apply Z.mod_pos_bound. lia. }
  split; [|done]. destruct Hf. split; [done..|]. eexists. split; [reflexivity|].
  change (fileBlocks (with_next f _)) with (fileBlocks f). lia.
Qed.

(** The file table after the position of file [i] moved to [o'], when the chunk
    of [o'] is clear. *)
Lemma vb_files_ok_advance i f o' m m' :
  vb_files_ok m → (t_files m).[i] = Some f → file_ok (with_next f o') →
  t_files m' = (t_files m).[i <- with_next f o'] →
  (∀ x, x ∈ entries (t_stor m') → x ∈ entries (t_stor m)) →
  chunk_clear (fileBlocks f) (OID f) o' m' → vb_files_ok m'.
Proof.
  intros [Hnd Hok] Hi Hf' Hfs Hsub Hcc. unfold vb_files_ok. rewrite Hfs. split.
  - assert (OID <$> (t_files m).[i <- with_next f o'] = OID <$> t_files m) as ->; [|done].
    apply list_zget_ext. intros j. unfold zget, zset in *. case_if; [done|].
    destruct (i <? 0) eqn:?; [done|]. zbool. rewrite list_fmap_insert.
    rewrite list_insert_id; [done|]. by rewrite list_lookup_fmap, Hi.
  - intros g (j & Hj)%zget_elem_of. rewrite (zget_zset _ _ _ _ _ Hi) in Hj. case_decide.
    + simplify_eq. split; [done|]. cbn [with_next nextOffset OID].
      rewrite Z.div_mul by done. done.
    + destruct (Hok g) as [? ?]; [apply zget_elem_of; eauto|]. split; [done|].
      by eapply chunk_clear_mono.
Qed.

Section GetBlocksSpec.
Context {V : Type} `{VSSCallsLaws V}.

(** What a successful [getBlocks] promises. *)
Definition allocated (num oid : Z) (rs : list VBRange) (b b' : VBBM) : Prop :=
  ∃ B o, 0 ≤ o < B ∧ num ≤ B ∧
    range_blocks rs = (fun x => x mod B) <$> zseq o num ∧
    Forall (fun r => r_vbOID r = oid ∧ 0 ≤ r_vbFBO r ∧ 0 < r_size r ∧ r_vbFBO r + r_size r ≤ B) rs ∧
    (∀ x, x ∈ entries (t_stor (u_mem b')) → vb_vbOID x = oid → vb_vbFBO x ∉ range_blocks rs) ∧
    (∀ x, x ∈ entries (t_stor (u_mem b')) → x ∈ entries (t_stor (u_mem b))) ∧
    vbCurrentSize (t_hdr (u_mem b')) + num ≤ vbCapacity (t_hdr (u_mem b')).

Lemma getBlocks_spec c num oid (b : VBBM) (v : V) :
  cfg_ok c → 0 < num < 2 ^ 31 → vb_inv (u_mem b) → vb_files_ok (u_mem b) → v_inv v →
  ∃ b' v', vb_inv (u_mem b') ∧ v_inv v' ∧
    ((∃ rs fl, getBlocks (Some c) num oid (b, v) = (Ret (rs, fl), (b', v')) ∧
               allocated num oid rs b b' ∧ vb_files_ok (u_mem b'))
     ∨ getBlocks (Some c) num oid (b, v) = (Exn VBBMBufferOverFlow, (b', v'))).
Proof.
  intros Hc Hn Hinv Hok Hv. unfold getBlocks.
  destruct (addVBFile_spec c oid b Hc Hinv Hok) as (i & f & b1 & Hrun1 & Hf & <- & Hinv1 & Hok1 & Hsub1).
  erewrite bind_ret by by apply on_vbbm_run. erewrite bind_ret by by apply on_vbbm_run.
  rewrite Hf. cbn [deref]. rewrite lift_run. fold (fileBlocks f).
  assert (2 ^ 32 = 2 * 2 ^ 31) by done. rewrite (wrap_u_small 32 num) by lia.
  destruct (fileBlocks f <? num) eqn:Hbig; zbool.
  { exists b1, v. split_and!; try done. by right. }
  pose proof (vb_size_range _ Hinv1).
  destruct (growUntil_spec (S (Z.to_nat num)) num b1 Hinv1) as
    (b2 & Hrun2 & Hinv2 & Hroom2 & Hf2 & Hsub2 & _); [lia|].
  erewrite bind_ret by by apply on_vbbm_run.
  destruct (proj2 Hok1 f) as [Hfok Hcc]; [apply zget_elem_of; eauto|].
  destruct Hfok as [Hf0 HfB (o & Ho & Ho1 & Ho2)] eqn:Hfeq. clear Hfeq.
  rewrite Ho, Z.div_mul in Hcc by done.
  destruct (gatherBlocks_spec (S (Z.to_nat num)) i num f o b2) as (b3 & Hrun3 & Hm3);
    try done; [lia|congruence|lia|lia|].
  erewrite bind_ret by by apply on_vbbm_run.
  destruct (ring_alloc_blocks (OID f) (fileBlocks f) o num ltac:(lia) ltac:(lia)) as (Hrb & _ & Hrf).
  destruct (ring_next_ok f o num Hfok ltac:(lia) ltac:(lia)) as [Hfok' Ho'].
  assert (vb_inv (u_mem b3)) as Hinv3 by (rewrite Hm3; by apply set_hdr_file_struct).
  assert ((t_files (u_mem b3)).[i] = Some (with_next f (ring_alloc (OID f) (fileBlocks f) o num).2)) as Hf3.
  { rewrite Hm3. cbn. apply zget_zset_eq. rewrite Hf2. by eapply zget_range. }
  destruct (ageRanges_spec i _ (ring_alloc (OID f) (fileBlocks f) o num).1 [] b3 v Hinv3 Hv Hf3)
    as (b4 & v4 & Hinv4 & Hv4 & Hag & Hres).
  exists b4, v4. split; [done|]. split; [done|].
  destruct Hres as [(fl & Hrun4 & Hclear)|Hrun4]; [|right; by apply bind_exn].
  left. eexists _, fl. split; [by rewrite (bind_ret _ _ _ _ _ Hrun4)|].
  destruct Hag as (Hsh & _ & Hf4 & Hcap4 & Hcs4).
  assert (∀ x, x ∈ entries (t_stor (u_mem b4)) → x ∈ entries (t_stor (u_mem b1))) as Hsub4.
  { intros x Hx. apply Hsub2. apply (shrinks_entries _ _ _ Hsh) in Hx. by rewrite Hm3 in Hx. }
  change (fileBlocks (with_next f _)) with (fileBlocks f) in Hclear.
  destruct (ring_clear (OID f) (fileBlocks f) o num (u_mem b4)) as [Hstale Hcc4];
    [lia|lia|done|by eapply chunk_clear_mono|done|].
  split.
  - exists (fileBlocks f), o. split_and!; try done; [lia|eauto|].
    rewrite Hcap4. rewrite Hm3 in Hcs4 |- *. cbn in *. lia.
  - eapply (vb_files_ok_advance i f); try done. by rewrite Hf4, Hm3, <- Hf2.
Qed.
End GetBlocksSpec.

(** * Saving and loading the version buffer block manager *)



(** The fields fit their C types. *)
Definition entry_fits (e : VBBMEntry) : bool :=
  fits_s 8 (vb_lbid e) && fits_s 4 (vb_verID e) && fits_s 4 (vb_vbOID e) &&
  fits_u 4 (vb_vbFBO e) && fits_s 4 (vb_next e).

Definition file_fits (f : VBFileMetadata) : bool :=
  fits_s 4 (OID f) && fits_u 8 (fileSize f) && fits_u 8 (nextOffset f).

Lemma entry_of_bytes e : entry_fits e = true → entry_of (entry_bytes e) = e.
Proof.
  unfold entry_fits. intros. zbool. unfold entry_of, entry_bytes. destruct e as [z1 z2 z3 z4 z5].
  cbn [vb_lbid vb_verID vb_vbOID vb_vbFBO vb_next] in *.
  f_equal; solve_field; done.
Qed.

Lemma file_of_bytes f : file_fits f = true → file_of (file_bytes f) = f.
Proof.
  unfold file_fits. intros. zbool. unfold file_of, file_bytes. destruct f as [z1 z2 z3].
  cbn [OID fileSize nextOffset] in *.
  f_equal; solve_field; done.
Qed.

Lemma length_entry_bytes e : length (entry_bytes e) = 24%nat.
Proof. unfold entry_bytes. by rewrite !length_app, !length_le_bytes. Qed.

Lemma length_file_bytes f : length (file_bytes f) = 24%nat.
Proof. unfold file_bytes. by rewrite !length_app, !length_le_bytes. Qed.

Lemma files_of_bytes fs rest :
  Forall (fun f => file_fits f = true) fs →
  files_of (length fs) ((fs ≫= file_bytes) ++ rest) = fs.
Proof.
  induction 1 as [|f fs Hf _ IH]; [done|]. cbn [length files_of]. rewrite bind_cons, <- app_assoc.
  rewrite take_app_length', drop_app_length' by (symmetry; apply length_file_bytes).
  by rewrite file_of_bytes, IH.
Qed.

Lemma length_files_bytes fs : length (fs ≫= file_bytes) = (24 * length fs)%nat.
Proof.
  induction fs as [|f fs IH]; [done|]. rewrite bind_cons, length_app, IH, length_file_bytes. cbn [length]. lia.
Qed.

(** Reading a list of entries back runs the body on each. *)
Lemma loadEntries_bytes body l s :
  Forall (fun e => entry_fits e = true) l →
  loadEntries (length l) body (l ≫= entry_bytes) s = forM l body s.
Proof.
  intros Hl. revert s. induction Hl as [|e l He _ IH]; intros s; [done|].
  cbn [length loadEntries forM]. rewrite bind_cons, read_app by apply length_entry_bytes.
  rewrite entry_of_bytes by done. unfold mbind, M_bind.
  destruct (body e s) as [[[]|] ?]; [|done]. apply IH.
Qed.

Definition vb_pair (e : VBBMEntry) : (Z * Z) * (Z * Z) := (vb_key e, vb_place e).

Lemma load_list l s :
  Forall used l → NoDup (vb_key <$> l) → vb_inv (u_mem s) →
  (∀ e, e ∈ l → vb_abs (u_mem s) !! vb_key e = None) →
  ∃ s', forM l load_entry s = (Ret tt, s') ∧ vb_inv (u_mem s') ∧
        vb_abs (u_mem s') = list_to_map (vb_pair <$> l) ∪ vb_abs (u_mem s) ∧
        slack (u_mem s') = slack (u_mem s) ∧ t_files (u_mem s') = t_files (u_mem s).
Proof.
  intros Hl. revert s. induction Hl as [|e l He Hl IH]; intros s Hnd Hinv Hnew.
  - exists s. csimpl. rewrite map_empty_union. done.
  - csimpl in Hnd. apply NoDup_cons in Hnd as [Hni Hnd].
    destruct (insert_spec (vb_lbid e) (vb_verID e) (vb_vbOID e) (vb_vbFBO e) true s He Hinv)
      as (s1 & Hr1 & Hinv1 & Ha1 & Hs1 & Hf1); [apply (Hnew e); set_solver|].
    destruct (IH s1 Hnd Hinv1) as (s2 & Hr2 & Hinv2 & Ha2 & Hs2 & Hf2).
    { intros e' He'. rewrite Ha1, lookup_insert_ne; [apply Hnew; set_solver|].
      intros Heq. apply Hni. change (vb_key e = vb_key e') in Heq. rewrite Heq.
      by apply list_elem_of_fmap_2. }
    exists s2. cbn [forM]. unfold mbind, M_bind, load_entry at 1. rewrite Hr1.
    split; [done|]. split; [done|]. split; [|split; congruence].
    rewrite Ha2, Ha1. csimpl. change (vb_lbid e, vb_verID e) with (vb_key e).
    rewrite <- insert_union_l, insert_union_r; [done|].
    apply not_elem_of_list_to_map. by rewrite <- list_fmap_compose.
Qed.

(** The stored entries, in storage order, are the abstract table. *)
Lemma vb_abs_filter m :
  keys_unique vb_key (t_stor m) →
  vb_abs m = list_to_map (vb_pair <$> List.filter usedb (t_stor m)).
Proof.
  intros _. unfold vb_abs, tabmap. rewrite <- list_to_map_fmap, <- entries_filter.
  f_equal. rewrite <- !list_fmap_compose. by apply list_fmap_ext.
Qed.

Lemma keys_filter (m : VBMem) : vb_key <$> List.filter usedb (t_stor m) = vb_key <$> entries (t_stor m).
Proof. rewrite <- entries_filter, <- list_fmap_compose. by apply list_fmap_ext. Qed.

(** ** The steps of [loadVersion2] *)

Lemma empty_inv info files n size cap nb :
  zlength files = n → 0 ≤ size ≤ cap → 0 < nb →
  let m := mkTbl info (mkVBHdr n cap size 0 nb) files
             (replicate (Z.to_nat nb) (-1)) (replicate (Z.to_nat cap) empty_VBBMEntry) in
  vb_inv m ∧ vb_abs m = ∅ ∧ slack m = size.
Proof.
  intros Hf Hc Hn m.
  assert (entries (t_stor m) = []) as He by by apply entries_replicate.
  split; [split|split].
  - apply replicate_struct; [done|lia|done].
  - rewrite He. cbn [zlength length m t_hdr vbCurrentSize vbCapacity]. unfold zlength. cbn. lia.
  - unfold keys_unique. rewrite He. constructor.
  - unfold vb_abs, tabmap. by rewrite He.
  - unfold slack. rewrite He. cbn [m t_hdr vbCurrentSize]. unfold zlength. cbn. lia.
Qed.

(** [clear] empties the table and keeps the first [nFiles] files. *)
Lemma clear_spec c s :
  1 ≤ c → 0 ≤ nFiles (t_hdr (u_mem s)) ≤ zlength (t_files (u_mem s)) →
  ∃ s', clear (Some c) s = (Ret tt, s') ∧ vb_inv (u_mem s') ∧ vb_abs (u_mem s') = ∅ ∧
        slack (u_mem s') = 0 ∧ nFiles (t_hdr (u_mem s')) = nFiles (t_hdr (u_mem s)) ∧
        (OID <$> t_files (u_mem s')) =
          OID <$> take (Z.to_nat (nFiles (t_hdr (u_mem s)))) (t_files (u_mem s)).
Proof.
  intros Hc Hn. unfold clear, setCurrentFileSize.
  assert (c <? 1 = false) as -> by (apply Z.ltb_ge; lia).
  eexists. split; [reflexivity|]. unfold vb_initShmseg. cbn [u_mem].
  edestruct empty_inv as (Hi & Ha & Hs); cycle 3.
  - split; [exact Hi|]. split; [exact Ha|]. split; [exact Hs|]. split; [done|].
    cbn [t_files]. rewrite <- list_fmap_compose. by apply list_fmap_ext.
  - unfold zlength in *. rewrite length_fmap, length_take. lia.
  - done.
  - done.
Qed.

Lemma growFiles_spec fuel n s :
  vb_inv (u_mem s) → n - nFiles (t_hdr (u_mem s)) ≤ Z.of_nat fuel →
  nFiles (t_hdr (u_mem s)) ≤ n →
  ∃ s', growFiles fuel n s = (Ret tt, s') ∧ vb_inv (u_mem s') ∧ nFiles (t_hdr (u_mem s')) = n.
Proof.
  revert s. induction fuel as [|fuel IH]; intros s Hinv Hf Hn; cbn [growFiles];
    autorewrite with run; case_if; [lia| | |].
  - exists s. split_and!; [done|done|lia].
  - destruct (growVBBM_safe true s Hinv) as (s1 & Hr1 & Hg & Hinv1).
    rewrite (bind_ret _ _ _ _ _ Hr1).
    destruct Hg as (_ & _ & _ & _ & _ & _ & Hfs & _).
    assert (nFiles (t_hdr (u_mem s1)) = nFiles (t_hdr (u_mem s)) + 1) as Hn1.
    { rewrite <- (vs_files _ (vi_struct _ Hinv1)), <- (vs_files _ (vi_struct _ Hinv)), Hfs.
      by rewrite zlength_app. }
    apply IH; [done|lia|lia].
  - exists s. split_and!; [done|done|lia].
Qed.

Lemma growForLoad_spec count s :
  vb_inv (u_mem s) →
  ∃ s', growForLoad count s = (Ret tt, s') ∧ vb_inv (u_mem s') ∧ vb_abs (u_mem s') = ∅ ∧
        slack (u_mem s') = 0 ∧ nFiles (t_hdr (u_mem s')) = nFiles (t_hdr (u_mem s)) ∧
        undoRecords s' = [].
Proof.
  intros Hinv. unfold growForLoad.
  set (c1 := if count <? VBSTORAGE_INITIAL_COUNT then _ else _).
  set (c2 := if c1 mod VBSTORAGE_INCREMENT_COUNT =? 0 then c1 else _).
  assert (100000 ≤ c1) as H1.
  { unfold c1, VBSTORAGE_INITIAL_COUNT. case_if; lia. }
  assert (10 ≤ c2) as H2.
  { unfold c2, VBSTORAGE_INCREMENT_COUNT. case_if; [lia|].
    pose proof (Z.div_pos c1 10000 ltac:(lia) ltac:(lia)). lia. }
  pose proof (vs_files _ (vi_struct _ Hinv)) as Hf.
  eexists. split; [reflexivity|]. cbn [u_mem].
  edestruct empty_inv as (Hi & Ha & Hs); cycle 3.
  - split; [exact Hi|]. split; [exact Ha|]. split; [exact Hs|]. done.
  - rewrite take_ge by (unfold zlength in Hf; lia). done.
  - lia.
  - apply Z.div_str_pos. lia.
Qed.

(** ** The round trip *)

(** A table the file format can hold: its size field is right and its fields fit. *)
Record saveable (m : VBMem) : Prop := mkSaveable {
  sv_inv : vb_inv m;
  sv_exact : slack m = 0;
  sv_size : vbCurrentSize (t_hdr m) < 2 ^ 31;
  sv_nfiles : nFiles (t_hdr m) < 2 ^ 31;
  sv_entries : Forall (fun e => entry_fits e = true) (List.filter usedb (t_stor m));
  sv_files : Forall (fun f => file_fits f = true) (t_files m);
}.

Lemma fits_s4 x : 0 ≤ x < 2 ^ 31 → fits_s 4 x = true.
Proof.
  intros Hx. unfold fits_s. change (8 * Z.of_nat 4 - 1) with 31.
  apply andb_true_iff. split; [apply Z.leb_le|apply Z.ltb_lt]; lia.
Qed.

Lemma set_files_inv m fs :
  vb_inv m → zlength fs = nFiles (t_hdr m) →
  let m' := mkTbl (t_info m) (t_hdr m) fs (t_buckets m) (t_stor m) in
  vb_inv m' ∧ vb_abs m' = vb_abs m ∧ slack m' = slack m.
Proof. intros [[Ht Hc Hf] Hs Hu] Hfs. split; [|done]. by split. Qed.

Lemma loadVersion2_spec c m s :
  1 ≤ c → saveable m → vb_inv (u_mem s) →
  ∃ s', loadVersion2 (Some c)
          (le_bytes 4 (vbCurrentSize (t_hdr m)) ++ le_bytes 4 (nFiles (t_hdr m)) ++
           (t_files m ≫= file_bytes) ++ (List.filter usedb (t_stor m) ≫= entry_bytes)) s
        = (Ret tt, s') ∧ vb_inv (u_mem s') ∧ vb_abs (u_mem s') = vb_abs m ∧
        slack (u_mem s') = 0 ∧ t_files (u_mem s') = t_files m.
Proof.
  intros Hc [Hm Hexact Hsz Hnf Hent Hfil] Hs.
  pose proof (vb_size_range _ Hm) as Hr. pose proof (vs_files _ (vi_struct _ Hm)) as Hfl.
  pose proof (zlength_nonneg (t_files m)) as Hf0.
  unfold loadVersion2. rewrite read_app by apply length_le_bytes.
  rewrite read_app by apply length_le_bytes.
  rewrite !get_s_bytes by (lia || (apply fits_s4; lia)).
  set (n := nFiles (t_hdr m)) in *. autorewrite with run.
  assert (n <? 0 = false) as -> by (apply Z.ltb_ge; lia).
  pose proof (vs_files _ (vi_struct _ Hs)) as Hfs.
  match goal with |- context [mkUndoable ?m1 (undoRecords s)] => set (s0 := mkUndoable m1 (undoRecords s)) end.
  assert (0 ≤ nFiles (t_hdr (u_mem s0)) ≤ zlength (t_files (u_mem s0)) ∧ nFiles (t_hdr (u_mem s0)) ≤ n)
    as [Hn0 Hn0'].
  { unfold s0. cbn [u_mem]. pose proof (zlength_nonneg (t_files (u_mem s))).
    destruct (n <? nFiles (t_hdr (u_mem s))) eqn:?; zbool; cbn [t_hdr t_files nFiles set_hdr]; lia. }
  destruct (clear_spec c s0 Hc Hn0) as (s1 & Hr1 & Hi1 & _ & _ & Hn1 & _).
  rewrite (bind_ret _ _ _ _ _ Hr1).
  destruct (growFiles_spec (Z.to_nat n) n s1 Hi1) as (s2 & Hr2 & Hi2 & Hn2); [lia..|].
  rewrite (bind_ret _ _ _ _ _ Hr2).
  destruct (growForLoad_spec (vbCurrentSize (t_hdr m)) s2 Hi2) as (s3 & Hr3 & Hi3 & Ha3 & Hs3 & Hn3 & _).
  rewrite (bind_ret _ _ _ _ _ Hr3).
  assert (Z.to_nat n = length (t_files m)) as Hlen by (unfold zlength in Hfl; lia).
  rewrite read_app by (rewrite length_files_bytes, Hlen; lia).
  rewrite upd_mem_run. rewrite Hlen, <- (app_nil_r (t_files m ≫= file_bytes)), files_of_bytes by done.
  destruct (set_files_inv (u_mem s3) (t_files m) Hi3) as (Hi4 & Ha4 & Hs4); [lia|].
  assert (Z.to_nat (vbCurrentSize (t_hdr m)) = length (List.filter usedb (t_stor m))) as ->.
  { unfold slack in Hexact. rewrite <- count_entries in Hexact. unfold count, zlength in Hexact. lia. }
  rewrite loadEntries_bytes by done.
  match goal with |- context [forM _ _ ?st] => set (s4 := st) in * end.
  destruct (load_list (List.filter usedb (t_stor m)) s4) as (s5 & Hr5 & Hi5 & Ha5 & Hs5 & Hf5).
  - apply used_filter.
  - rewrite keys_filter. by destruct Hm.
  - done.
  - intros e _. unfold s4. cbn [u_mem]. by rewrite Ha4, Ha3.
  - exists s5. split; [done|]. split; [done|]. unfold s4 in Ha5, Hs5, Hf5. cbn [u_mem] in Ha5, Hs5, Hf5.
    rewrite Ha5, Hs5, Hf5, Ha4, Ha3, Hs4, Hs3. split; [|done].
    rewrite map_union_empty. symmetry. apply vb_abs_filter. by destruct Hm.
Qed.

Lemma load_save_spec c m s :
  1 ≤ c → saveable m → vb_inv (u_mem s) →
  ∃ s', vb_load (Some c) (Some (vb_save m)) s = (Ret tt, s') ∧
        vb_inv (u_mem s') ∧ vb_abs (u_mem s') = vb_abs m ∧ slack (u_mem s') = 0 ∧
        t_files (u_mem s') = t_files m.
Proof.
  intros Hc Hm Hs. destruct (loadVersion2_spec c m s Hc Hm Hs) as (s' & Hr & Hrest).
  exists s'. split; [|done]. unfold vb_load, vb_save.
  destruct Hm as [[[_ Hcap Hfl] _ _] _ _ _ _ _].
  rewrite !take_ge by (unfold zlength in *; lia).
  rewrite read_app by apply length_le_bytes. rewrite get_s_bytes by (lia || done).
  change (VBBM_MAGIC_V2 =? VBBM_MAGIC_V1) with false. rewrite Z.eqb_refl. done.
Qed.
