(* ===== verification/Vss.v ===== *)
(** * The Version Substitution Structure ([vss.h], [vss.cpp])

    The VSS says which versions of a block exist: for every (lbid, version) it
    has whether that version was moved to the version buffer ([vbFlag]) and
    whether a transaction still holds it ([locked]).  Readers ask it for the
    highest version a query may see.  The model has every operation of the class
    outside the debug build; the segment's layout and undo log are those of
    [Table]. *)

From S2P Require Import Prelude BinFile Hasher HashChain Undo Table Vbbm.

(** ** Data *)

Record VSSEntry := mkVSS {
  lbid : Z;
  verID : Z;
  vbFlag : bool;
  locked : bool;
  next : Z;
}.

Record VSSShmsegHeader := mkVSSHdr {
  capacity : Z;
  currentSize : Z;
  LWM : Z;
  numHashBuckets : Z;
  lockedEntryCount : Z;
}.

(** [QueryContext_vss]: the snapshot a query reads at and the transactions that
    were active when it was taken. *)
Record QueryContext_vss := mkQC { currentScn : Z; txns : gset Z }.

(** [QueryContext_vss(const QueryContext&)] *)
Definition queryContext_vss (scn : Z) (currentTxns : list Z) : QueryContext_vss :=
  mkQC scn (list_to_set currentTxns).

(** [LBIDRange] of brmtypes.h *)
Record LBIDRange := mkRange { range_start : Z; range_size : Z }.

#[global] Instance VSSEntry_eq_dec : EqDecision VSSEntry.
Proof. solve_decision. Defined.
#[global] Instance LBIDRange_eq_dec : EqDecision LBIDRange.
Proof. solve_decision. Defined.

(** Layout on a 64-bit build; there is no file section. *)
#[global] Instance VSSEntry_size : SizeOf VSSEntry := 24.
#[global] Instance VSSShmsegHeader_size : SizeOf VSSShmsegHeader := 20.
#[global] Instance no_file_size : SizeOf Empty_set := 0.

#[global] Instance VSSEntry_node : ChainNode VSSEntry := {
  n_lbid := lbid;
  n_next := next;
  set_n_lbid z e := mkVSS z (verID e) (vbFlag e) (locked e) (next e);
  set_n_next z e := mkVSS (lbid e) (verID e) (vbFlag e) (locked e) z;
}.

#[global] Instance VSSShmsegHeader_ops : HeaderOps VSSShmsegHeader := {
  h_currentSize := currentSize;
  set_h_currentSize n h := mkVSSHdr (capacity h) n (LWM h) (numHashBuckets h) (lockedEntryCount h);
}.

Definition set_LWM (n : Z) (h : VSSShmsegHeader) : VSSShmsegHeader :=
  mkVSSHdr (capacity h) (currentSize h) n (numHashBuckets h) (lockedEntryCount h).
Definition set_lockedEntryCount (n : Z) (h : VSSShmsegHeader) : VSSShmsegHeader :=
  mkVSSHdr (capacity h) (currentSize h) (LWM h) (numHashBuckets h) n.

Abbreviation VSSMem := (shmtable VSSShmsegHeader Empty_set VSSEntry).
Abbreviation VSS := (utable VSSShmsegHeader Empty_set VSSEntry).

Definition VSS_MAGIC_V1 : Z := 0x7218db12.
Definition VSSSTORAGE_INITIAL_COUNT : Z := 200000.
Definition VSSSTORAGE_INCREMENT_COUNT : Z := 20000.
Definition VSSSTORAGE_INITIAL_SIZE : Z := VSSSTORAGE_INITIAL_COUNT * sizeof VSSEntry.
Definition VSSSTORAGE_INCREMENT : Z := VSSSTORAGE_INCREMENT_COUNT * sizeof VSSEntry.
Definition VSSTABLE_INITIAL_SIZE : Z := 50000 * 4.
Definition VSSTABLE_INCREMENT : Z := 5000 * 4.
Definition VSS_INITIAL_SIZE : Z :=
  sizeof VSSShmsegHeader + VSSSTORAGE_INITIAL_SIZE + VSSTABLE_INITIAL_SIZE.
Definition VSS_INCREMENT : Z := VSSTABLE_INCREMENT + VSSSTORAGE_INCREMENT.
Definition VSS_SIZE (entries : Z) : Z :=
  entries * sizeof VSSEntry + entries / 4 * 4 + sizeof VSSShmsegHeader.
Definition KEYRANGE_VSS_BASE : Z := 0x10000.

Definition ERR_SNAPSHOT_TOO_OLD : Z := 15.

(** A slot of freshly cleared storage. *)
Definition empty_VSSEntry : VSSEntry := mkVSS (-1) 0 false false 0.

(** ** Reading *)

Definition vss_hash (n lbid : Z) : Z := Hasher (le_bytes 8 lbid) mod n.

Definition vss_bucket (n : Z) (e : VSSEntry) : Z := vss_hash n (lbid e).

(** The loop [for (i = hashBuckets[bucket]; i != -1; i = storage[i].next)] over
    the bucket of [l]. *)
Definition walk_bucket {A R} (m : VSSMem) (l : Z) (body : VSSEntry → A → A + R) (a : A)
    : outcome (A + R) :=
  h ← deref ((t_buckets m).[vss_hash (numHashBuckets (t_hdr m)) l]);
  walk (length (t_stor m)) (t_stor m) (fun _ => body) h a.

(** The variables of [VSS::lookup]'s loop. *)
Record lookup_vars := mkLV { minVersion : Z; maxVersion : Z; maxEntry : option VSSEntry }.

Definition lookup_body (l : Z) (verInfo : QueryContext_vss) (txnID : Z) (vbOnly : bool)
    (e : VSSEntry) (a : lookup_vars) : lookup_vars + (Z * bool) :=
  if negb (lbid e =? l) then inl a
  else if vbOnly && negb (vbFlag e) then inl a
  else if negb (txnID =? verID e) && bool_decide (verID e ∈ txns verInfo) then inl a
  else if currentScn verInfo =? verID e then inr (verID e, vbFlag e)
  else
    let minV := if (verID e <? minVersion a) || (minVersion a =? -1) then verID e
                else minVersion a in
    inl (if (verID e <? currentScn verInfo) && (maxVersion a <? verID e)
         then mkLV minV (verID e) (Some e)
         else mkLV minV (maxVersion a) (maxEntry a)).

(** [VSS::lookup]: the return code, [*outVer] and [*vbFlag]. *)
Definition vss_lookup (l : Z) (verInfo : QueryContext_vss) (txnID : Z) (vbOnly : bool)
    (m : VSSMem) : outcome (Z * Z * bool) :=
  r ← walk_bucket m l (lookup_body l verInfo txnID vbOnly) (mkLV (-1) (-1) None);
  match r with
  | inr (v, f) => Ret (0, v, f)
  | inl a =>
      match maxEntry a with
      | Some e => Ret (0, maxVersion a, vbFlag e)
      | None => if currentScn verInfo <? minVersion a
                then Ret (ERR_SNAPSHOT_TOO_OLD, 0, false)
                else Ret (-1, 0, false)
      end
  end.

(** [VSS::getCurrentVersion]: the version outside the version buffer, and
    [*isLocked]. *)
Definition getCurrentVersion (l : Z) (m : VSSMem) : outcome (Z * bool) :=
  r ← walk_bucket m l
        (fun e (_ : unit) => if (lbid e =? l) && negb (vbFlag e) then inr (verID e, locked e)
                             else inl tt) tt;
  match r with
  | inr x => Ret x
  | inl _ => Ret (0, false)
  end.

(** [VSS::getHighestVerInVB] *)
Definition getHighestVerInVB (l max : Z) (m : VSSMem) : outcome Z :=
  r ← walk_bucket (R := Empty_set) m l
        (fun e ret => if ((lbid e =? l) && vbFlag e) && ((verID e <=? max) && (ret <? verID e))
                      then inl (verID e) else inl ret) (-1);
  match r with
  | inr x => match x : Empty_set with end
  | inl ret => Ret ret
  end.

(** [VSS::isVersioned] *)
Definition isVersioned (l version : Z) (m : VSSMem) : outcome bool :=
  r ← walk_bucket m l
        (fun e (_ : unit) => if (lbid e =? l) && (verID e =? version) then inr (vbFlag e)
                             else inl tt) tt;
  match r with
  | inr b => Ret b
  | inl _ => Ret false
  end.

(** One block of [VSS::isLocked]: [Some b] returns from the function. *)
Definition isLocked_block (l transID : Z) (m : VSSMem) : outcome (option bool) :=
  r ← walk_bucket m l
        (fun e (_ : unit) => if (lbid e =? l) && locked e then inr (negb (verID e =? transID))
                             else inl tt) tt;
  match r with
  | inr b => Ret (Some b)
  | inl _ => Ret None
  end.

Fixpoint isLocked_blocks (ls : list Z) (transID : Z) (m : VSSMem) : outcome bool :=
  match ls with
  | [] => Ret false
  | l :: ls' =>
      r ← isLocked_block l transID m;
      match r with
      | Some b => Ret b
      | None => isLocked_blocks ls' transID m
      end
  end.

(** [VSS::isLocked] *)
Definition vss_isLocked (range : LBIDRange) (transID : Z) (m : VSSMem) : outcome bool :=
  isLocked_blocks (zseq (range_start range) (range_size range)) transID m.

(** [VSS::isTooOld] *)
Definition isTooOld (l ver : Z) (m : VSSMem) : outcome bool :=
  r ← walk_bucket (R := Empty_set) m l
        (fun e minVer => if (lbid e =? l) && (verID e <? minVer) then inl (verID e)
                         else inl minVer) 0;
  match r with
  | inr x => match x : Empty_set with end
  | inl minVer => Ret (ver <? minVer)
  end.

(** [VSS::isEntryLocked]: is this version the one a rollback would need? *)
Definition isEntryLocked (l ver : Z) (m : VSSMem) : outcome bool :=
  if l =? -1 then Ret false
  else
    r ← walk_bucket (R := Empty_set) m l
          (fun e '(hasALockedEntry, rollbackVersion) =>
             if negb (lbid e =? l) then inl (hasALockedEntry, rollbackVersion)
             else if locked e then inl (true, rollbackVersion)
             else if rollbackVersion <? verID e then inl (hasALockedEntry, verID e)
             else inl (hasALockedEntry, rollbackVersion)) (false, 0);
    match r with
    | inr x => match x : Empty_set with end
    | inl (hasALockedEntry, rollbackVersion) =>
        Ret (hasALockedEntry && (ver =? rollbackVersion))
    end.

(** [VSS::getIndex]: (index, prev, bucket), with index [-1] when there is no
    such entry. *)
Definition vss_getIndex (l ver : Z) (m : VSSMem) : outcome (Z * Z * Z) :=
  let bucket := vss_hash (numHashBuckets (t_hdr m)) l in
  h ← deref ((t_buckets m).[bucket]);
  r ← walk (length (t_stor m)) (t_stor m)
        (find_body (fun e => (lbid e =? l) && (verID e =? ver))) h (-1);
  match r with
  | inr (i, prev) => Ret (i, prev, bucket)
  | inl prev => Ret (-1, prev, bucket)
  end.

(** ** Inserting and growing *)

(** [VSS::chooseShmkey] *)
Definition vss_chooseShmkey (info : MSTEntry) : Z :=
  if (tableShmkey info + 1 =? KEYRANGE_VSS_BASE + KEYRANGE_SIZE - 1)
     || (u32 (tableShmkey info) <? KEYRANGE_VSS_BASE)
  then KEYRANGE_VSS_BASE + 1
  else tableShmkey info + 1.

(** [VSS::_insert] into the segment of header [dest]. *)
Definition vss_insert_ (e : VSSEntry) (loading : bool) : M VSS unit :=
  m ← get_mem;
  let h := t_hdr m in
  let hashIndex := vss_bucket (numHashBuckets h) e in
  insertIndex ← lift (find_empty (length (t_stor m)) (t_stor m) (LWM h));
  (if loading then mret tt else makeUndoRecord (DHdr h)) ≫= fun _ =>
  upd_mem (fun m => set_hdr (set_LWM (insertIndex + 1) (t_hdr m)) m) ≫= fun _ =>
  old ← lift (deref ((t_stor m).[insertIndex]));
  head ← lift (deref ((t_buckets m).[hashIndex]));
  (if loading then mret tt
   else makeUndoRecord (DStor insertIndex old) ≫= fun _ =>
        makeUndoRecord (DBucket hashIndex head)) ≫= fun _ =>
  upd_mem (set_stor insertIndex (set_n_next head e)) ≫= fun _ =>
  upd_mem (set_bucket hashIndex insertIndex).

(** [VSS::copyVSS] *)
Definition copyVSS (src : VSSMem) (dest : VSSMem) : outcome VSSMem :=
  let walked := take (Z.to_nat (currentSize (t_hdr src))) (t_stor src) in
  let '(r, s) := forM (List.filter usedb walked) (fun e => vss_insert_ e true)
                   (mkUndoable dest []) in
  match r with Ret _ => Ret (u_mem s) | Exn e => Exn e end.

(** [VSS::growVSS] on an attached segment; the undo log is left as it is.  The size
    of the new segment is computed in an [int]. *)
Definition growVSS : M VSS unit := fun s =>
  let m := u_mem s in
  let h := t_hdr m in
  let cap := capacity h + VSSSTORAGE_INCREMENT / sizeof VSSEntry in
  let nb := numHashBuckets h + VSSTABLE_INCREMENT / 4 in
  let dest := mkTbl (mkMST (vss_chooseShmkey (t_info m)) (i32 (allocdSize (t_info m) + VSS_INCREMENT))
                       (mst_currentSize (t_info m)))
                (mkVSSHdr cap (currentSize h) 0 nb (lockedEntryCount h)) []
                (replicate (Z.to_nat nb) (-1))
                (replicate (Z.to_nat cap) empty_VSSEntry) in
  match copyVSS m dest with
  | Ret m' => (Ret tt, mkUndoable m' (undoRecords s))
  | Exn e => (Exn e, s)
  end.

(** [VSS::insert] *)
Definition vss_insert (l ver : Z) (vbflag lck loading : bool) : M VSS unit :=
  m ← get_mem;
  (if currentSize (t_hdr m) =? capacity (t_hdr m) then growVSS else mret tt) ≫= fun _ =>
  vss_insert_ (mkVSS l ver vbflag lck (-1)) loading ≫= fun _ =>
  m ← get_mem;
  (if loading then mret tt else makeUndoRecord (DSize (currentSize (t_hdr m)))) ≫= fun _ =>
  upd_mem (fun m =>
    let h := set_h_currentSize (currentSize (t_hdr m) + 1) (t_hdr m) in
    set_hdr (if lck then set_lockedEntryCount (lockedEntryCount h + 1) h else h) m).

(** [VSS::initShmseg] on a zeroed segment. *)
Definition vss_initShmseg (info : MSTEntry) : VSSMem :=
  let cap := VSSSTORAGE_INITIAL_SIZE / sizeof VSSEntry in
  let nb := VSSTABLE_INITIAL_SIZE / 4 in
  mkTbl info (mkVSSHdr cap 0 0 nb 0) []
    (replicate (Z.to_nat nb) (-1)) (replicate (Z.to_nat cap) empty_VSSEntry).

(** [VSS::growVSS] when the segment does not exist yet ([allocdSize == 0]). *)
Definition vss_create (info : MSTEntry) : VSS :=
  mkUndoable (vss_initShmseg (mkMST (vss_chooseShmkey info) VSS_INITIAL_SIZE
                                (mst_currentSize info))) [].

(** [VSS::clear] *)
Definition vss_clear : M VSS unit := fun s =>
  let info := t_info (u_mem s) in
  (Ret tt, mkUndoable (vss_initShmseg (mkMST (vss_chooseShmkey info) VSS_INITIAL_SIZE
                                         (mst_currentSize info))) (undoRecords s)).

(** [VSS::growForLoad] *)
Definition vss_growForLoad (elementCount : Z) : M VSS unit := fun s =>
  let info := t_info (u_mem s) in
  let n := if elementCount <? VSSSTORAGE_INITIAL_COUNT then VSSSTORAGE_INITIAL_COUNT
           else elementCount in
  let n := if n mod VSSSTORAGE_INCREMENT_COUNT =? 0 then n
           else (n / VSSSTORAGE_INCREMENT_COUNT + 1) * VSSSTORAGE_INCREMENT_COUNT in
  (Ret tt,
   mkUndoable (mkTbl (mkMST (vss_chooseShmkey info) (VSS_SIZE n) (mst_currentSize info))
                 (mkVSSHdr n 0 0 (n / 4) 0) []
                 (replicate (Z.to_nat (n / 4)) (-1))
                 (replicate (Z.to_nat n) empty_VSSEntry)) []).

(** ** Removing *)

(** The header after the entry of slot [index] is gone. *)
Definition dropped (index : Z) (e : VSSEntry) (h : VSSShmsegHeader) : VSSShmsegHeader :=
  let h := set_h_currentSize (currentSize h - 1) h in
  let h := if locked e && (0 <? lockedEntryCount h)
           then set_lockedEntryCount (lockedEntryCount h - 1) h else h in
  if index <? LWM h then set_LWM index h else h.

(** Part of the state of a pair. *)
Definition on_fst {S T A} (op : M S A) : M (S * T) A := zoom fst (fun b s => (b, snd s)) op.
Definition on_snd {S T A} (op : M T A) : M (S * T) A := zoom snd (fun v s => (fst s, v)) op.

(** [for (prev = -1, index = hashBuckets[bucket]; index != -1;
    index = storage[index].next)]: unlink every entry of [l], after [hook] saw it. *)
Fixpoint removeChain {X} (hook : VSSEntry → M X unit) (fuel : nat) (bucket l prev index : Z)
    : M (VSS * X) unit :=
  if index =? -1 then mret tt
  else match fuel with
  | O => throw OutOfFuel
  | S fuel' =>
      m ← on_fst get_mem;
      e ← lift (deref ((t_stor m).[index]));
      if lbid e =? l then
        on_snd (hook e) ≫= fun _ =>
        on_fst (unlinkEntry bucket prev index) ≫= fun _ =>
        on_fst (upd_mem (fun m => set_hdr (dropped index e (t_hdr m)) m)) ≫= fun _ =>
        removeChain hook fuel' bucket l prev (next e)
      else removeChain hook fuel' bucket l index (next e)
  end.

(** The same loop when nothing but the VSS changes. *)
Definition removeChain_vss (fuel : nat) (bucket l prev index : Z) : M VSS unit := fun s =>
  let '(r, (s', _)) := removeChain (fun _ => mret tt) fuel bucket l prev index (s, tt) in (r, s').

(** [VSS::removeEntry]: the blocks to flush are appended to [flushList]. *)
Definition vss_removeEntry (l ver : Z) (flushList : list Z) : M VSS (list Z) :=
  m ← get_mem;
  '(index, prev, bucket) ← lift (vss_getIndex l ver m);
  if index =? -1 then mret flushList
  else
    e ← lift (deref ((t_stor m).[index]));
    unlinkEntry bucket prev index ≫= fun _ =>
    m1 ← get_mem;
    makeUndoRecord (DHdr (t_hdr m1)) ≫= fun _ =>
    upd_mem (fun m => set_hdr (dropped index e (t_hdr m)) m) ≫= fun _ =>
    m2 ← get_mem;
    h ← lift (deref ((t_buckets m2).[bucket]));
    r ← lift (walk (length (t_stor m2)) (t_stor m2)
                (fun _ e (_ : unit) =>
                   if (lbid e =? l) && (vbFlag e || locked e) then inr tt else inl tt) h tt);
    match r with
    | inr _ => mret flushList
    | inl _ =>
        removeChain_vss (length (t_stor m2)) bucket l (-1) h ≫= fun _ =>
        mret (flushList ++ [l])
    end.

(** One block of [VSS::removeEntriesFromDB]. *)
Definition removeBlock (use_vbbm : bool) (l : Z) : M (VSS * VBBM) unit :=
  m ← on_fst get_mem;
  let bucket := vss_hash (numHashBuckets (t_hdr m)) l in
  h ← lift (deref ((t_buckets m).[bucket]));
  removeChain (fun e => if vbFlag e && use_vbbm then removeEntry (lbid e) (verID e) else mret tt)
    (length (t_stor m)) bucket l (-1) h.

(** [VSS::removeEntriesFromDB] *)
Definition removeEntriesFromDB (range : LBIDRange) (use_vbbm : bool) : M (VSS * VBBM) unit :=
  m ← on_fst get_mem;
  on_fst (makeUndoRecord (DHdr (t_hdr m))) ≫= fun _ =>
  forM (zseq (range_start range) (range_size range)) (removeBlock use_vbbm).

(** ** Flags and transactions *)

(** [VSS::setVBFlag] *)
Definition setVBFlag (l ver : Z) (flag : bool) : M VSS unit :=
  m ← get_mem;
  '(index, _, _) ← lift (vss_getIndex l ver m);
  if index =? -1 then throw LogicError
  else
    e ← lift (deref ((t_stor m).[index]));
    makeUndoRecord (DStor index e) ≫= fun _ =>
    upd_mem (set_stor index (mkVSS (lbid e) (verID e) flag (locked e) (next e))).

(** Slot [i] of [VSS::commit]. *)
Definition commit_slot (txnID : Z) (i : Z) : M VSS unit :=
  m ← get_mem;
  e ← lift (deref ((t_stor m).[i]));
  if usedb e && (verID e =? txnID) then
    makeUndoRecord (DStor i e) ≫= fun _ =>
    upd_mem (set_stor i (mkVSS (lbid e) (verID e) (vbFlag e) false (next e))) ≫= fun _ =>
    upd_mem (fun m =>
      let h := t_hdr m in
      if 0 <? lockedEntryCount h
      then set_hdr (set_lockedEntryCount (lockedEntryCount h - 1) h) m else m)
  else mret tt.

(** [VSS::commit] *)
Definition commit (txnID : Z) : M VSS unit :=
  m ← get_mem;
  forM (zseq 0 (capacity (t_hdr m))) (commit_slot txnID).

(** The loops [for (i = 0; i < vss->capacity; i++) if (storage[i].lbid != -1 && ...)]. *)
Definition storage_of (m : VSSMem) : list VSSEntry :=
  List.filter usedb (take (Z.to_nat (capacity (t_hdr m))) (t_stor m)).

(** [VSS::getUncommittedLBIDs] *)
Definition getUncommittedLBIDs (txnID : Z) (m : VSSMem) : list Z :=
  lbid <$> List.filter (fun e => verID e =? txnID) (storage_of m).

(** [VSS::getUnlockedLBIDs] *)
Definition getUnlockedLBIDs (m : VSSMem) : list (Z * Z) :=
  (fun e => (lbid e, verID e)) <$> List.filter (fun e => negb (locked e)) (storage_of m).

(** [VSS::getLockedLBIDs] *)
Definition getLockedLBIDs (m : VSSMem) : list (Z * Z) :=
  (fun e => (lbid e, verID e)) <$> List.filter locked (storage_of m).

(** [VSS::getCurrentTxnIDs]: adds to the set given. *)
Definition vss_getCurrentTxnIDs (m : VSSMem) (l : gset Z) : gset Z :=
  l ∪ list_to_set (verID <$> List.filter locked (storage_of m)).

(** [VSS::size]: counts, and checks the header against the count. *)
Definition vss_size (m : VSSMem) : outcome Z :=
  let ret := zlength (storage_of m) in
  if ret =? currentSize (t_hdr m) then Ret ret else Exn LogicError.

(** [VSS::hashEmpty] *)
Definition vss_hashEmpty (m : VSSMem) : bool := forallb (fun h => h =? -1) (t_buckets m).

(** [VSS::isEmpty] *)
Definition vss_isEmpty (m : VSSMem) : bool := currentSize (t_hdr m) =? 0.

(** What the VBBM sees of the VSS. *)
#[global] Instance VSS_calls : VSSCalls VSS := {
  vc_isEntryLocked l ver v := isEntryLocked l ver (u_mem v);
  vc_removeEntry l ver fl := vss_removeEntry l ver fl;
}.

(** ** Consistency check *)

(** Test 1: entries moved to the version buffer are in the VBBM. *)
Definition checkVersioned (vbbm : VBMem) (e : VSSEntry) : outcome unit :=
  if vbFlag e then
    r ← lookup (lbid e) (verID e) vbbm;
    match r with
    | Some _ => Ret tt
    | None => Exn LogicError
    end
  else Ret tt.

(** Tests 2b and 2c on the bucket whose head is [h]. *)
Definition vss_checkBucket (m : VSSMem) (h : Z) : outcome unit :=
  r ← walk (length (t_stor m)) (t_stor m)
        (fun _ e (_ : unit) => if usedb e then inl tt else inr LogicError) h tt;
  match r with
  | inr e => Exn e
  | inl _ => Ret tt
  end.

(** Test 2e: an entry against those after it in its chain. *)
Definition vss_checkDupFrom (m : VSSMem) (e : VSSEntry) : outcome unit :=
  r ← walk (length (t_stor m)) (t_stor m)
        (fun _ e' (_ : unit) =>
           if (lbid e =? lbid e') && (verID e =? verID e') then inr LogicError
           else inl tt) (next e) tt;
  match r with
  | inr x => Exn x
  | inl _ => Ret tt
  end.

Fixpoint vss_checkDups (fuel : nat) (m : VSSMem) (j : Z) : outcome unit :=
  if j =? -1 then Ret tt
  else match fuel with
  | O => Exn OutOfFuel
  | S fuel' =>
      e ← deref ((t_stor m).[j]);
      _ ← vss_checkDupFrom m e;
      vss_checkDups fuel' m (next e)
  end.

(** [VSS::checkConsistency] (the extent map is not consulted any more). *)
Definition vss_checkConsistency (vbbm : VBMem) (m : VSSMem) : outcome Z :=
  _ ← forO (storage_of m) (checkVersioned vbbm);
  _ ← vss_size m;
  _ ← forO (t_buckets m) (vss_checkBucket m);
  _ ← (if forallb usedb (take (Z.to_nat (LWM (t_hdr m))) (t_stor m)) then Ret tt
       else Exn LogicError);
  _ ← forO (t_buckets m) (vss_checkDups (length (t_stor m)) m);
  Ret 0.

(** ** Save and load *)

Definition byte_of_bool (b : bool) : Z := if b then 1 else 0.
Definition bool_of_byte (x : Z) : bool := negb (x =? 0).

(** The image of an entry: 24 bytes, of which 6 are padding. *)
Definition vss_entry_bytes (e : VSSEntry) : list Z :=
  le_bytes 8 (lbid e) ++ le_bytes 4 (verID e) ++ le_bytes 1 (byte_of_bool (vbFlag e)) ++
  le_bytes 1 (byte_of_bool (locked e)) ++ le_bytes 2 0 ++ le_bytes 4 (next e) ++ le_bytes 4 0.

Definition vss_entry_of (bs : list Z) : VSSEntry :=
  mkVSS (get_s (field 0 8 bs)) (get_s (field 8 4 bs)) (bool_of_byte (get_u (field 12 1 bs)))
        (bool_of_byte (get_u (field 13 1 bs))) (get_s (field 16 4 bs)).

(** [VSS::save]: the bytes written. *)
Definition vss_save (m : VSSMem) : list Z :=
  le_bytes 4 VSS_MAGIC_V1 ++ le_bytes 4 (currentSize (t_hdr m)) ++
  (storage_of m ≫= vss_entry_bytes).

Fixpoint vss_loadEntries (n : nat) (file : list Z) : M VSS unit :=
  match n with
  | O => mret tt
  | S n' =>
      match read 24 file with
      | None => throw RuntimeError
      | Some (bs, rest) =>
          let e := vss_entry_of bs in
          vss_insert (lbid e) (verID e) (vbFlag e) (locked e) true ≫= fun _ =>
          vss_loadEntries n' rest
      end
  end.

(** [VSS::load]; [None] is a file that does not open. *)
Definition vss_load (file : option (list Z)) : M VSS unit :=
  match file with
  | None => throw RuntimeError
  | Some file =>
      match read 8 file with
      | None => throw RuntimeError
      | Some (bs, rest) =>
          let magic := get_s (field 0 4 bs) in
          let entries := get_s (field 4 4 bs) in
          if negb (magic =? VSS_MAGIC_V1) then throw RuntimeError
          else if entries <? 0 then throw RuntimeError
          else vss_growForLoad entries ≫= fun _ => vss_loadEntries (Z.to_nat entries) rest
      end
  end.
