(* ===== verification/VssProofs.v ===== *)
(** * Correctness of the Version Substitution Structure

    The invariant [vss_inv] of the segment and the abstract view [vss_abs], a
    finite map from (lbid, version) to the two flags; the readers return what
    that map says; the writers keep the invariant, implement the corresponding
    map operations and can be undone. *)

From S2P Require Import Prelude BinFile Hasher HashChain Undo Table Vbbm VbbmProofs Vss.

#[local] Opaque Hasher.

#[global] Instance VSSEntry_node_laws : ChainNodeLaws VSSEntry.
Proof. by split. Qed.

#[global] Instance VSS_table_laws : TableLaws VSSShmsegHeader Empty_set VSSEntry.
Proof. split. vm_compute. repeat split; discriminate. Qed.

#[global] Instance VSSEntry_hash : KeyHash VSSEntry := vss_bucket.

#[global] Instance VSSEntry_hash_laws : KeyHashLaws VSSEntry.
Proof. split; [by intros n z []|]. intros n e Hn. by apply Z.mod_pos_bound. Qed.

Definition vss_key (e : VSSEntry) : Z * Z := (lbid e, verID e).
Definition vss_flags (e : VSSEntry) : bool * bool := (vbFlag e, locked e).

Record vss_struct (m : VSSMem) : Prop := mkVssStruct {
  ss_chains : tstruct (numHashBuckets (t_hdr m)) (t_buckets m) (t_stor m) (LWM (t_hdr m));
  ss_cap : zlength (t_stor m) = capacity (t_hdr m);
}.

Record vss_inv (m : VSSMem) : Prop := mkVssInv {
  si_struct : vss_struct m;
  si_size : currentSize (t_hdr m) = zlength (entries (t_stor m));
  si_unique : keys_unique vss_key (t_stor m);
}.

(** The table as a map. *)
Definition vss_abs (m : VSSMem) : gmap (Z * Z) (bool * bool) :=
  vss_flags <$> tabmap vss_key (t_stor m).

Lemma vss_key_body e : vss_key (node_body e) = vss_key e.
Proof. done. Qed.

Lemma vss_abs_None m k : vss_abs m !! k = None ↔ tabmap vss_key (t_stor m) !! k = None.
Proof. unfold vss_abs. rewrite lookup_fmap. apply fmap_None. Qed.

(** An entry of the table, by slot and by key. *)
Lemma vss_abs_Some m k fl :
  vss_inv m →
  vss_abs m !! k = Some fl ↔
  ∃ i e, (t_stor m).[i] = Some e ∧ used e ∧ vss_key e = k ∧ vss_flags e = fl.
Proof.
  intros [_ _ Hu]. unfold vss_abs. rewrite lookup_fmap, fmap_Some. split.
  - intros (b & Hb & ->). apply (tabmap_lookup vss_key vss_key_body) in Hb as (i & e & ? & ? & ? & ->); [|done].
    eauto 10.
  - intros (i & e & Hi & Hue & Hk & <-). exists (node_body e). split; [|done].
    apply (tabmap_lookup vss_key vss_key_body); eauto 10.
Qed.

(** ** Readers *)

(** The loops over a bucket, in terms of the entries of the block. *)
Lemma walk_bucket_rule {A R} m l (body : VSSEntry → A → A + R) a
    (P : list VSSEntry → A → Prop) (Q : R → Prop) :
  vss_struct m → P [] a →
  (∀ seen i e a, (t_stor m).[i] = Some e → used e → P seen a →
     match body e a with inl a' => P (seen ++ [e]) a' | inr r => Q r end) →
  ∃ r, walk_bucket m l body a = Ret r ∧
    match r with
    | inl a' => ∃ es, P es a' ∧
        (∀ e, e ∈ es → ∃ i, (t_stor m).[i] = Some e ∧ used e) ∧
        (∀ i e, (t_stor m).[i] = Some e → used e → lbid e = l → e ∈ es)
    | inr r => Q r
    end.
Proof.
  intros [Ht _] HP Hstep. unfold walk_bucket.
  destruct (tstruct_bucket _ _ _ _ (mkVSS l 0 false false 0) Ht) as [h Hb].
  change (key_hash _ _) with (vss_hash (numHashBuckets (t_hdr m)) l) in Hb.
  rewrite Hb. cbn [deref mbind outcome_bind].
  destruct (walk_rule (key_hash (numHashBuckets (t_hdr m))) (t_buckets m) (t_stor m)
    (vss_hash (numHashBuckets (t_hdr m)) l) h (fun _ => body) a P Q) as (r & Hr & Hres); auto.
  - by destruct Ht.
  - intros seen i e a' Hi Hu _ HP'. by apply (Hstep seen i).
  - exists r. split; [done|]. destruct r as [a'|r]; [|done].
    destruct Hres as (es & HP' & Hes). exists es. split; [done|]. split.
    + intros e (i & ? & ? & _)%Hes. eauto.
    + intros i e Hi Hu <-. apply Hes. eauto.
Qed.

(** The entries a query may read: those of its block, in the version buffer when
    that is asked, that belong to no transaction other than its own. *)
Definition visible (l : Z) (verInfo : QueryContext_vss) (txnID : Z) (vbOnly : bool)
    (e : VSSEntry) : Prop :=
  lbid e = l ∧ (vbOnly = true → vbFlag e = true) ∧
  (txnID = verID e ∨ verID e ∉ txns verInfo).

#[global] Instance visible_dec l q t b e : Decision (visible l q t b e).
Proof. unfold visible. apply _. Defined.

Definition in_table (m : VSSMem) (e : VSSEntry) : Prop :=
  ∃ i, (t_stor m).[i] = Some e ∧ used e.

(** What the loop's variables say of the entries seen so far. *)
Definition lookup_inv (vis : VSSEntry → Prop) (scn : Z) (seen : list VSSEntry) (a : lookup_vars) : Prop :=
  (∀ e, e ∈ seen → vis e → verID e ≠ scn) ∧
  match maxEntry a with
  | None => maxVersion a = -1 ∧ ∀ e, e ∈ seen → vis e → scn < verID e
  | Some x => maxVersion a = verID x ∧ x ∈ seen ∧ vis x ∧ verID x < scn ∧
              ∀ e, e ∈ seen → vis e → verID e < scn → verID e ≤ verID x
  end ∧
  ((minVersion a = -1 ∧ ∀ e, e ∈ seen → ¬ vis e) ∨
   (∃ x, x ∈ seen ∧ vis x ∧ minVersion a = verID x) ∧
   ∀ e, e ∈ seen → vis e → minVersion a ≤ verID e).

Lemma lookup_body_skip l q t b e a :
  ¬ visible l q t b e → lookup_body l q t b e a = inl a.
Proof.
  intros Hv. unfold lookup_body.
  destruct (negb (lbid e =? l)) eqn:H1; [done|].
  destruct (b && negb (vbFlag e)) eqn:H2; [done|].
  destruct (negb (t =? verID e) && bool_decide (verID e ∈ txns q)) eqn:H3; [done|].
  exfalso. apply Hv. zbool. split; [done|]. split.
  - intros ->. by destruct H2 as [?|?]; zbool.
  - destruct H3 as [H3|H3]; zbool; [by left|right]. by apply bool_decide_eq_false in H3.
Qed.

Lemma lookup_body_visible l q t b e a :
  visible l q t b e →
  lookup_body l q t b e a =
    if currentScn q =? verID e then inr (verID e, vbFlag e)
    else
      let minV := if (verID e <? minVersion a) || (minVersion a =? -1) then verID e
                  else minVersion a in
      inl (if (verID e <? currentScn q) && (maxVersion a <? verID e)
           then mkLV minV (verID e) (Some e)
           else mkLV minV (maxVersion a) (maxEntry a)).
Proof.
  intros (Hl & Hb & Ht). unfold lookup_body. rewrite Hl, Z.eqb_refl. cbn [negb].
  assert (b && negb (vbFlag e) = false) as -> by (destruct b; [by rewrite Hb|done]).
  assert (negb (t =? verID e) && bool_decide (verID e ∈ txns q) = false) as ->; [|done].
  destruct Ht as [->|Ht]; [by rewrite Z.eqb_refl|]. by rewrite bool_decide_false, andb_false_r.
Qed.

(** One turn of the loop keeps what its variables say. *)
Lemma lookup_inv_step (vis : VSSEntry → Prop) scn seen a e :
  vis e → 0 ≤ verID e → scn ≠ verID e → (∀ e', e' ∈ seen → 0 ≤ verID e') →
  lookup_inv vis scn seen a →
  let minV := if (verID e <? minVersion a) || (minVersion a =? -1) then verID e
              else minVersion a in
  lookup_inv vis scn (seen ++ [e])
    (if (verID e <? scn) && (maxVersion a <? verID e)
     then mkLV minV (verID e) (Some e) else mkLV minV (maxVersion a) (maxEntry a)).
Proof.
  intros Hv H0 Hne Hpos (Hno & Hmax & Hmin) minV.
  assert (∀ (P : VSSEntry → Prop), P e → (∀ x, x ∈ seen → P x) → ∀ x, x ∈ seen ++ [e] → P x) as Hall.
  { intros P He Hs x [Hx|Hx]%elem_of_app; [by apply Hs|]. apply list_elem_of_singleton in Hx as ->. done. }
  assert ((∃ x, x ∈ seen ++ [e] ∧ vis x ∧ minV = verID x) ∧
          ∀ x, x ∈ seen ++ [e] → vis x → minV ≤ verID x) as Hmin'.
  { unfold minV. destruct Hmin as [[-> Hnone]|[(x & Hx & Hvx & Hmx) Hle]].
    - rewrite orb_true_r. split; [exists e; set_solver|].
      apply (Hall (fun x => vis x → verID e ≤ verID x)); [done|].
      intros x Hx Hvx. by destruct (Hnone x Hx).
    - assert (0 ≤ minVersion a) by (rewrite Hmx; auto).
      assert (minVersion a =? -1 = false) as -> by (apply Z.eqb_neq; lia). rewrite orb_false_r.
      destruct (verID e <? minVersion a) eqn:Hlt; zbool.
      + split; [exists e; set_solver|].
        apply (Hall (fun x => vis x → verID e ≤ verID x)); [done|]. intros y Hy Hvy.
        specialize (Hle y Hy Hvy). lia.
      + split; [exists x; set_solver|].
        by apply (Hall (fun x => vis x → minVersion a ≤ verID x)). }
  assert (∀ x, x ∈ seen ++ [e] → vis x → verID x ≠ scn) as Hno'
    by by apply (Hall (fun x => vis x → verID x ≠ scn)).
  destruct ((verID e <? scn) && (maxVersion a <? verID e)) eqn:Hc; zbool.
  - split_and!; [done| |by right]. cbn. split_and!; [done|set_solver|done|done|].
    apply (Hall (fun x => vis x → verID x < scn → verID x ≤ verID e)); [done|]. intros x Hx Hvx Hlt. destruct (maxEntry a) as [y|].
    + destruct Hmax as (Hm & _ & _ & _ & Hle). specialize (Hle x Hx Hvx Hlt). lia.
    + destruct Hmax as [_ Hgt]. specialize (Hgt x Hx Hvx). lia.
  - split_and!; [done| |by right]. cbn. destruct (maxEntry a) as [y|].
    + destruct Hmax as (Hm & Hy & Hvy & Hly & Hle). split_and!; [done|set_solver|done|done|].
      apply (Hall (fun x => vis x → verID x < scn → verID x ≤ verID y)); [|done].
      intros _ Hlt. destruct Hc; zbool; lia.
    + destruct Hmax as [Hm Hgt]. split; [done|]. apply (Hall (fun x => vis x → scn < verID x)); [|done]. intros _.
      destruct Hc; zbool; lia.
Qed.

Lemma lookup_inv_skip (vis : VSSEntry → Prop) scn seen a e :
  ¬ vis e → lookup_inv vis scn seen a → lookup_inv vis scn (seen ++ [e]) a.
Proof.
  intros Hv (H1 & H2 & H3).
  assert (∀ x, x ∈ seen ++ [e] → vis x → x ∈ seen) as Hsub.
  { intros x [?|Hx]%elem_of_app; [done|]. by apply list_elem_of_singleton in Hx as ->. }
  split_and!; [eauto| |].
  - destruct (maxEntry a) as [y|]; [destruct H2 as (? & ? & ? & ? & H2)|destruct H2 as (? & H2)].
    + split_and!; [done|set_solver|done|done|eauto].
    + split; eauto.
  - destruct H3 as [[? H3]|[(x & ? & ? & ?) H3]]; [left|right].
    + split; [done|]. intros y Hy Hvy. by apply (H3 y); eauto.
    + split; [exists x; set_solver|eauto].
Qed.

Definition vers_nonneg (m : VSSMem) : Prop := ∀ e, in_table m e → 0 ≤ verID e.

(** [e] is the newest version the query may read. *)
Definition newest_visible (m : VSSMem) l q t b (e : VSSEntry) : Prop :=
  in_table m e ∧ visible l q t b e ∧ verID e ≤ currentScn q ∧
  ∀ e', in_table m e' → visible l q t b e' → verID e' ≤ currentScn q → verID e' ≤ verID e.

Definition lookup_result (m : VSSMem) l q t b (res : Z * Z * bool) : Prop :=
  (∃ e, res = (0, verID e, vbFlag e) ∧ newest_visible m l q t b e) ∨
  (res = (ERR_SNAPSHOT_TOO_OLD, 0, false) ∧ (∃ e, in_table m e ∧ visible l q t b e) ∧
   ∀ e, in_table m e → visible l q t b e → currentScn q < verID e) ∨
  (res = (-1, 0, false) ∧ ∀ e, in_table m e → ¬ visible l q t b e).

Lemma vss_lookup_spec m l q t b :
  vss_struct m → vers_nonneg m → 0 ≤ currentScn q →
  ∃ res, vss_lookup l q t b m = Ret res ∧ lookup_result m l q t b res.
Proof.
  intros Hs Hpos Hscn. unfold vss_lookup.
  destruct (walk_bucket_rule m l (lookup_body l q t b) (mkLV (-1) (-1) None)
    (fun seen a => (∀ e, e ∈ seen → in_table m e) ∧ lookup_inv (visible l q t b) (currentScn q) seen a)
    (fun '(v, f) => ∃ e, v = verID e ∧ f = vbFlag e ∧ newest_visible m l q t b e)) as (r & -> & Hr).
  - done.
  - split; [intros e He; by apply elem_of_nil in He|].
    split_and!; [intros e He; by apply elem_of_nil in He| |left]; cbn; split; try done;
      intros e He; by apply elem_of_nil in He.
  - intros seen i e a Hi Hu [Hin Hinv]. assert (in_table m e) as He by (exists i; done).
    assert (∀ x, x ∈ seen ++ [e] → in_table m x) as Hin'.
    { intros x [?|Hx]%elem_of_app; [auto|]. by apply list_elem_of_singleton in Hx as ->. }
    destruct (decide (visible l q t b e)) as [Hv|Hv].
    + rewrite lookup_body_visible by done. case_if.
      * exists e. split; [done|]. split; [done|]. split_and!; [done|done|lia|]. intros. lia.
      * split; [done|]. apply lookup_inv_step; auto.
    + rewrite lookup_body_skip by done. split; [done|]. by apply lookup_inv_skip.
  - cbn. destruct r as [a|[v f]].
    + destruct Hr as (es & [Hin (Hne & Hmax & Hmin)] & _ & Hall).
      assert (∀ e, in_table m e → visible l q t b e → e ∈ es) as Hes.
      { intros e (i & Hi & Hu) Hv. apply (Hall i); [done..|apply Hv]. }
      destruct (maxEntry a) as [x|].
      * eexists. split; [done|]. left. destruct Hmax as (-> & Hx & Hvx & Hlt & Hle).
        exists x. split; [done|]. split_and!; auto; [lia|]. intros e' He' Hv' Hle'.
        specialize (Hne e' (Hes _ He' Hv') Hv'). apply Hle; auto. lia.
      * destruct Hmax as [_ Hgt]. case_if; (eexists; split; [done|]); right.
        { left. split; [done|]. split; [|eauto]. destruct Hmin as [[? _]|[(x & ? & ? & ?) _]]; [lia|eauto]. }
        { right. split; [done|]. intros e He Hv.
          destruct Hmin as [[_ Hnone]|[(x & ? & ? & ?) Hle]]; [by apply (Hnone e); auto|].
          assert (currentScn q < verID x) by auto. lia. }
    + destruct Hr as (e & -> & -> & Hn). eexists. split; [done|]. left. eauto.
Qed.

(** A loop that stops at the first entry passing [p]. *)
Lemma walk_first {R} m l (p : VSSEntry → bool) (f : VSSEntry → R) :
  vss_struct m → (∀ e, p e = true → lbid e = l) →
  (∃ e, in_table m e ∧ p e = true ∧
     walk_bucket m l (fun e (_ : unit) => if p e then inr (f e) else inl tt) tt = Ret (inr (f e)))
  ∨ ((∀ e, in_table m e → p e = false) ∧
     walk_bucket m l (fun e (_ : unit) => if p e then inr (f e) else inl tt) tt = Ret (inl tt)).
Proof.
  intros Hs Hp.
  destruct (walk_bucket_rule m l (fun e (_ : unit) => if p e then inr (f e) else inl tt) tt
    (fun seen _ => ∀ e, e ∈ seen → p e = false)
    (fun r => ∃ e, in_table m e ∧ p e = true ∧ r = f e)) as ([[]|r] & Hr & Hres); auto.
  - intros e He. by apply elem_of_nil in He.
  - intros seen i e a Hi Hu Hseen. destruct (p e) eqn:Hpe.
    + exists e. split; [by exists i|done].
    + intros x [?|Hx]%elem_of_app; [auto|]. by apply list_elem_of_singleton in Hx as ->.
  - right. split; [|done]. destruct Hres as (es & Hno & _ & Hall).
    intros e (i & Hi & Hu). destruct (p e) eqn:Hpe; [|done].
    rewrite <- Hpe. apply Hno. eauto.
  - left. destruct Hres as (e & He & Hpe & ->). eauto.
Qed.

Lemma isVersioned_spec m l v :
  vss_inv m → isVersioned l v m = Ret (default false (fst <$> vss_abs m !! (l, v))).
Proof.
  intros Hinv. unfold isVersioned.
  destruct (walk_first m l (fun e => (lbid e =? l) && (verID e =? v)) vbFlag)
    as [(e & (i & Hi & Hu) & Hp & ->)|[Hno ->]].
  - by destruct Hinv.
  - intros e He. by zbool.
  - apply andb_true_iff in Hp as [<-%Z.eqb_eq <-%Z.eqb_eq].
    assert (vss_abs m !! (lbid e, verID e) = Some (vss_flags e)) as ->; [|done].
    apply vss_abs_Some; [done|]. by exists i, e.
  - assert (vss_abs m !! (l, v) = None) as ->; [|done]. apply vss_abs_None, tabmap_None; [done|].
    intros i e Hi Hu [= <- <-]. specialize (Hno e ltac:(by exists i)). by rewrite !Z.eqb_refl in Hno.
Qed.

(** The version outside the version buffer, if there is one. *)
Lemma getCurrentVersion_spec m l :
  vss_struct m →
  (∃ e, in_table m e ∧ lbid e = l ∧ vbFlag e = false ∧
        getCurrentVersion l m = Ret (verID e, locked e)) ∨
  ((∀ e, in_table m e → lbid e = l → vbFlag e = true) ∧ getCurrentVersion l m = Ret (0, false)).
Proof.
  intros Hs. unfold getCurrentVersion.
  destruct (walk_first m l (fun e => (lbid e =? l) && negb (vbFlag e)) (fun e => (verID e, locked e)))
    as [(e & He & Hp & ->)|[Hno ->]]; [done|intros e He; by zbool|left|right].
  - zbool. by exists e.
  - split; [|done]. intros e He Hl. specialize (Hno e He). rewrite Hl, Z.eqb_refl in Hno.
    by apply negb_false_iff in Hno.
Qed.

Lemma isLocked_block_spec m l t :
  vss_struct m →
  (∃ e, in_table m e ∧ lbid e = l ∧ locked e = true ∧
        isLocked_block l t m = Ret (Some (negb (verID e =? t)))) ∨
  ((∀ e, in_table m e → lbid e = l → locked e = false) ∧ isLocked_block l t m = Ret None).
Proof.
  intros Hs. unfold isLocked_block.
  destruct (walk_first m l (fun e => (lbid e =? l) && locked e) (fun e => negb (verID e =? t)))
    as [(e & He & Hp & ->)|[Hno ->]]; [done|intros e He; by zbool|left|right].
  - zbool. eauto 10.
  - split; [|done]. intros e He Hl. specialize (Hno e He). by rewrite Hl, Z.eqb_refl in Hno.
Qed.

Definition ver_max (P : VSSEntry → Prop) (m : VSSMem) (bot v : Z) : Prop :=
  bot ≤ v ∧ (v = bot ∨ ∃ e, in_table m e ∧ P e ∧ verID e = v) ∧
  ∀ e, in_table m e → P e → verID e ≤ v.

Lemma getHighestVerInVB_spec m l max :
  vss_struct m →
  ∃ v, getHighestVerInVB l max m = Ret v ∧
       ver_max (fun e => lbid e = l ∧ vbFlag e = true ∧ verID e ≤ max) m (-1) v.
Proof.
  intros Hs. unfold getHighestVerInVB.
  set (P e := lbid e = l ∧ vbFlag e = true ∧ verID e ≤ max).
  match goal with |- context [walk_bucket m l ?body ?a] =>
    destruct (walk_bucket_rule m l body a
      (fun seen v => -1 ≤ v ∧ (v = -1 ∨ ∃ e, in_table m e ∧ P e ∧ verID e = v) ∧
                     ∀ e, e ∈ seen → P e → verID e ≤ v) (fun _ => False)) as ([v|[]] & -> & Hr) end; [done| | |].
  - split; [lia|]. split; [by left|]. intros e He. by apply elem_of_nil in He.
  - intros seen i e v Hi Hu (Hb & Hv & Hle). assert (in_table m e) by (by exists i).
    destruct (_ && _) eqn:Hc; zbool.
    + split; [lia|]. split; [right; exists e; unfold P; auto|].
      intros x [Hx|Hx]%elem_of_app HPx; [specialize (Hle x Hx HPx); lia|].
      apply list_elem_of_singleton in Hx as ->. done.
    + split; [done|]. split; [done|].
      intros x [Hx|Hx]%elem_of_app HPx; [by apply Hle|].
      apply list_elem_of_singleton in Hx as ->. destruct HPx as (Hl & Hf & Hmx).
      rewrite Hl, Z.eqb_refl, Hf in Hc. destruct Hc as [?|[?|?]%andb_false_iff]; [done|zbool; lia..].
  - exists v. split; [done|]. destruct Hr as (es & (Hb & Hv & Hle) & _ & Hall).
    split_and!; [done|done|]. intros e (i & Hi & Hu) HP. apply Hle; [|done].
    apply (Hall i); [done..|apply HP].
Qed.

(** The blocks a rollback needs: the newest unlocked version of a block that has
    a locked one. *)
Lemma isEntryLocked_spec m l ver :
  vss_struct m → l ≠ -1 →
  ∃ b rb, isEntryLocked l ver m = Ret b ∧
    ver_max (fun e => lbid e = l ∧ locked e = false) m 0 rb ∧
    (b = true ↔ (∃ e, in_table m e ∧ lbid e = l ∧ locked e = true) ∧ ver = rb).
Proof.
  intros Hs Hl. unfold isEntryLocked. case_if; [done|].
  set (P e := lbid e = l ∧ locked e = false).
  match goal with |- context [walk_bucket m l ?body ?a] =>
    destruct (walk_bucket_rule m l body a
      (fun seen '(h, v) => (0 ≤ v ∧ (v = 0 ∨ ∃ e, in_table m e ∧ P e ∧ verID e = v) ∧
                            ∀ e, e ∈ seen → P e → verID e ≤ v) ∧
         (h = true → ∃ e, in_table m e ∧ lbid e = l ∧ locked e = true) ∧
         (h = false → ∀ e, e ∈ seen → lbid e = l → locked e = false)) (fun _ => False))
      as ([[h v]|[]] & -> & Hr) end; [done| | |].
  - split_and!; try done; [by left|..]; intros; set_solver.
  - intros seen i e [h v] Hi Hu ((Hb & Hv & Hle) & Ht & Hf). assert (in_table m e) by (by exists i).
    assert (∀ Q : VSSEntry → Prop, Q e → (∀ x, x ∈ seen → Q x) → ∀ x, x ∈ seen ++ [e] → Q x) as Hall.
    { intros Q He Hsn x [Hx|Hx]%elem_of_app; [auto|]. by apply list_elem_of_singleton in Hx as ->. }
    destruct (negb (lbid e =? l)) eqn:Hn; [|destruct (locked e) eqn:Hlk; [|destruct (v <? verID e) eqn:Hlt]]; zbool.
    + split_and!; try done.
      * apply (Hall (fun x => P x → verID x ≤ v)); [by intros [? _]|done].
      * intros Hh. by apply (Hall (fun x => lbid x = l → locked x = false)); [|auto].
    + split_and!; try done; [|eauto].
      apply (Hall (fun x => P x → verID x ≤ v)); [|done]. intros [_ ?]. congruence.
    + split_and!; try done; [lia|right; by exists e| |].
      * apply (Hall (fun x => P x → verID x ≤ verID e)); [done|]. intros x Hx HP.
        specialize (Hle x Hx HP). lia.
      * intros Hh. by apply (Hall (fun x => lbid x = l → locked x = false)); [|auto].
    + split_and!; try done.
      * by apply (Hall (fun x => P x → verID x ≤ v)).
      * intros Hh. by apply (Hall (fun x => lbid x = l → locked x = false)); [|auto].
  - exists (h && (ver =? v)), v. split; [done|].
    destruct Hr as (es & ((Hb & Hv & Hle) & Ht & Hf) & _ & Hall). split.
    + split_and!; [done|done|]. intros e (i & Hi & Hu) HP. apply Hle; [|done]. apply (Hall i); [done..|apply HP].
    + rewrite andb_true_iff, Z.eqb_eq. split; [naive_solver|]. intros [(e & (i & Hi & Hu) & Hle' & Hlk) ->].
      split; [|done]. destruct h; [done|]. rewrite (Hf eq_refl e) in Hlk; [done|by apply (Hall i)|done].
Qed.

(** [isTooOld] starts its minimum at 0 and so never finds a version above it. *)
Lemma isTooOld_spec m l ver :
  vss_struct m → vers_nonneg m → 0 ≤ ver → isTooOld l ver m = Ret false.
Proof.
  intros Hs Hpos Hv. unfold isTooOld.
  match goal with |- context [walk_bucket m l ?body ?a] =>
    destruct (walk_bucket_rule m l body a (fun _ v => v ≤ 0) (fun _ => False)) as ([v|[]] & -> & Hr) end;
    [done|done| |].
  - intros seen i e v Hi Hu Hle. case_if; [|done]. lia.
  - cbn. destruct Hr as (_ & Hle & _). f_equal. apply Z.ltb_ge. lia.
Qed.
