(* ===== verification/VssWrite.v ===== *)
(** * Correctness of the VSS: the operations that change it

    Insertion and growth, removal of one version and of whole blocks, the flag
    and commit operations: each keeps [vss_inv], implements an operation on the
    map [vss_abs], and leaves an undo log that restores the segment. *)

From S2P Require Import Prelude BinFile Hasher HashChain Undo Table Vbbm VbbmProofs Vss VssProofs.

#[local] Opaque Hasher.

Lemma vss_getIndex_spec m l ver :
  vss_struct m → l ≠ -1 →
  let b := vss_hash (numHashBuckets (t_hdr m)) l in
  ∃ h, (t_buckets m).[b] = Some h ∧
  ((∃ l1 i l2 e, vss_getIndex l ver m = Ret (i, prev_of l1, b) ∧
      chain (t_stor m) h (l1 ++ i :: l2) ∧ (t_stor m).[i] = Some e ∧ used e ∧
      vss_key e = (l, ver))
   ∨ (∃ prev, vss_getIndex l ver m = Ret (-1, prev, b) ∧
      ∀ i e, (t_stor m).[i] = Some e → used e → vss_key e ≠ (l, ver))).
Proof.
  intros [Ht _] Hl b.
  destruct (tstruct_bucket _ _ _ _ (mkVSS l ver false false 0) Ht) as [h Hb].
  exists h. split; [done|]. unfold vss_getIndex. fold b.
  change (key_hash _ _) with b in Hb. rewrite Hb. cbn [deref mbind outcome_bind].
  set (p := fun e => (lbid e =? l) && (verID e =? ver)).
  assert (∀ e, p e = true ↔ vss_key e = (l, ver)) as Hp.
  { intros e. unfold p, vss_key. rewrite andb_true_iff, !Z.eqb_eq. naive_solver. }
  destruct (walk_find (key_hash (numHashBuckets (t_hdr m))) (t_buckets m) (t_stor m) b h p)
    as [(l1 & i & l2 & e & Hc & Hi & Hpe & Hu & Hw)|(Hall & prev & Hw)]; auto.
  - by destruct Ht.
  - intros e He%Hp _. unfold vss_key in He. simplify_eq. done.
  - left. exists l1, i, l2, e. rewrite Hw. by rewrite <- Hp.
  - right. exists prev. rewrite Hw. split; [done|]. intros i e Hi Hu He%Hp.
    by rewrite (Hall i e) in He.
Qed.

(** ** Inserting *)

Definition vss_frame (s s' : VSS) : Prop :=
  t_info (u_mem s') = t_info (u_mem s) ∧
  capacity (t_hdr (u_mem s')) = capacity (t_hdr (u_mem s)) ∧
  currentSize (t_hdr (u_mem s')) = currentSize (t_hdr (u_mem s)) ∧
  numHashBuckets (t_hdr (u_mem s')) = numHashBuckets (t_hdr (u_mem s)) ∧
  lockedEntryCount (t_hdr (u_mem s')) = lockedEntryCount (t_hdr (u_mem s)).

#[global] Instance vss_frame_pre : PreOrder vss_frame.
Proof. split; unfold vss_frame; [done|]. intros x y z. naive_solver congruence. Qed.

Lemma vss_insert__spec e loading s :
  used e → vss_struct (u_mem s) →
  zlength (entries (t_stor (u_mem s))) < capacity (t_hdr (u_mem s)) →
  ∃ s', vss_insert_ e loading s = (Ret tt, s') ∧ vss_struct (u_mem s') ∧ vss_frame s s' ∧
        entries (t_stor (u_mem s')) ≡ₚ node_body e :: entries (t_stor (u_mem s)).
Proof.
  intros Hu [Ht Hcap] Hlt. rewrite <- Hcap in Hlt.
  destruct (tstruct_find_empty _ _ _ _ Ht Hlt) as (i & e0 & Hfe & Hi & H0 & Hfirst).
  destruct (tstruct_bucket _ _ _ _ e Ht) as [h Hb].
  destruct (tstruct_link _ _ _ _ (i + 1) i e0 e h Ht Hb Hi H0 Hu Hfirst) as [Ht' He]; [by right|].
  unfold vss_insert_. autorewrite with run. rewrite Hfe, lift_run.
  change (vss_bucket _ e) with (key_hash (numHashBuckets (t_hdr (u_mem s))) e).
  rewrite Hi, Hb. cbn [deref].
  destruct loading; autorewrite with run; (eexists; split; [reflexivity|]);
    (split; [split; cbn; [done|by rewrite zlength_zset]|]); (split; [done|]); done.
Qed.

(** ** Growing *)

Definition vss_walked (m : VSSMem) : list VSSEntry :=
  take (Z.to_nat (currentSize (t_hdr m))) (t_stor m).

Lemma copyVSS_spec src dest :
  vss_struct dest → entries (t_stor dest) = [] →
  zlength (entries (vss_walked src)) ≤ capacity (t_hdr dest) →
  ∃ m', copyVSS src dest = Ret m' ∧ vss_struct m' ∧
        vss_frame (mkUndoable dest []) (mkUndoable m' []) ∧
        entries (t_stor m') ≡ₚ entries (vss_walked src).
Proof.
  intros Hd H0 Hlen. unfold copyVSS. fold (vss_walked src).
  destruct (reload_spec (fun e => vss_insert_ e true) (capacity (t_hdr dest))
    (fun m => vss_struct m ∧ capacity (t_hdr m) = capacity (t_hdr dest)) vss_frame)
    with (l := List.filter usedb (vss_walked src))
         (s := mkUndoable dest (D := delta VSSShmsegHeader Empty_set VSSEntry) [])
    as (s' & Hr & [Hs' Hc'] & HG & He').
  - intros e s Hu [Hs Hc] Hlt. rewrite <- Hc in Hlt.
    destruct (vss_insert__spec e true s Hu Hs Hlt) as (s1 & ? & ? & HG & ?).
    exists s1. split; [done|]. split; [|done]. split; [done|]. rewrite <- Hc. apply HG.
  - apply used_filter.
  - done.
  - cbn. rewrite H0. rewrite <- entries_filter in Hlen. unfold zlength in *.
    rewrite length_fmap in Hlen. simpl. lia.
  - rewrite Hr. exists (u_mem s'). split; [done|]. split; [done|]. split; [done|].
    rewrite He', entries_filter. cbn. by rewrite H0, app_nil_r.
Qed.

Lemma vss_empty_struct info cap cs nb lc :
  0 ≤ cap → 0 < nb →
  vss_struct (mkTbl info (mkVSSHdr cap cs 0 nb lc) []
                (replicate (Z.to_nat nb) (-1)) (replicate (Z.to_nat cap) empty_VSSEntry)).
Proof.
  intros Hc Hn. split; [by apply tstruct_empty|].
  unfold zlength. cbn. rewrite length_replicate. lia.
Qed.

Lemma vss_empty_inv info cap nb lc :
  0 ≤ cap → 0 < nb →
  let m := mkTbl info (mkVSSHdr cap 0 0 nb lc) []
             (replicate (Z.to_nat nb) (-1)) (replicate (Z.to_nat cap) empty_VSSEntry) in
  vss_inv m ∧ vss_abs m = ∅.
Proof.
  intros Hc Hn m. assert (entries (t_stor m) = []) as He by by apply entries_replicate.
  split; [split|].
  - by apply vss_empty_struct.
  - by rewrite He.
  - unfold keys_unique. rewrite He. constructor.
  - unfold vss_abs, tabmap. by rewrite He.
Qed.

Definition vss_grown (s s' : VSS) : Prop :=
  let m := u_mem s in let m' := u_mem s' in
  undoRecords s' = undoRecords s ∧
  tableShmkey (t_info m') = vss_chooseShmkey (t_info m) ∧
  capacity (t_hdr m') = capacity (t_hdr m) + 20000 ∧
  lockedEntryCount (t_hdr m') = lockedEntryCount (t_hdr m) ∧
  entries (t_stor m') ≡ₚ entries (t_stor m).

(** [growVSS] is called on a full table only, so it walks over every entry. *)
Lemma growVSS_spec s :
  vss_inv (u_mem s) → currentSize (t_hdr (u_mem s)) = capacity (t_hdr (u_mem s)) →
  ∃ s', growVSS s = (Ret tt, s') ∧ vss_grown s s' ∧ vss_inv (u_mem s') ∧
        vss_abs (u_mem s') = vss_abs (u_mem s).
Proof.
  destruct s as [m log]. cbn [u_mem]. intros [[Ht Hcap] Hsz Hu] Hfull. unfold growVSS. cbn [u_mem undoRecords].
  change (VSSSTORAGE_INCREMENT / sizeof VSSEntry) with 20000.
  change (VSSTABLE_INCREMENT / 4) with 5000.
  match goal with |- context [copyVSS m ?d] => set (dest := d) end.
  pose proof (ts_nb _ _ _ _ Ht). pose proof (zlength_nonneg (t_stor m)).
  assert (vss_walked m = t_stor m) as Hw.
  { unfold vss_walked. apply take_ge. unfold zlength in Hcap. lia. }
  destruct (copyVSS_spec m dest) as (m' & -> & Hs' & HG & He').
  - apply vss_empty_struct; lia.
  - cbn. by apply entries_replicate.
  - rewrite Hw. unfold dest. cbn [t_hdr capacity]. lia.
  - rewrite Hw in He'. eexists. split; [reflexivity|].
    destruct HG as (Hi & Hc & Hcs & Hnb & Hlk). cbn [u_mem] in *.
    destruct (tabmap_perm vss_key (t_stor m) (t_stor m') Hu) as [Ha Hu']; [done|].
    split; [|split].
    + unfold vss_grown. cbn [u_mem undoRecords]. rewrite Hi, Hc, Hlk. split_and!; done.
    + split; [done| |done]. rewrite Hcs. unfold dest. cbn [t_hdr currentSize]. by rewrite Hsz, He'.
    + unfold vss_abs. by rewrite Ha.
Qed.

Definition vss_made_room (s s1 : VSS) : Prop :=
  if currentSize (t_hdr (u_mem s)) =? capacity (t_hdr (u_mem s))
  then vss_grown s s1 else s1 = s.

Lemma vss_size_range m : vss_inv m → 0 ≤ currentSize (t_hdr m) ≤ capacity (t_hdr m).
Proof.
  intros [[_ Hc] Hs _]. rewrite Hs, <- Hc. split; [apply zlength_nonneg|apply entries_le].
Qed.

Lemma vss_make_room s :
  vss_inv (u_mem s) →
  ∃ s1, (if currentSize (t_hdr (u_mem s)) =? capacity (t_hdr (u_mem s))
         then growVSS else mret tt) s = (Ret tt, s1) ∧
        vss_made_room s s1 ∧ vss_inv (u_mem s1) ∧ vss_abs (u_mem s1) = vss_abs (u_mem s) ∧
        lockedEntryCount (t_hdr (u_mem s1)) = lockedEntryCount (t_hdr (u_mem s)) ∧
        currentSize (t_hdr (u_mem s1)) < capacity (t_hdr (u_mem s1)).
Proof.
  intros Hinv. unfold vss_made_room. pose proof (vss_size_range _ Hinv) as Hr. case_if.
  - destruct (growVSS_spec s Hinv) as (s1 & Hrun & Hg & Hi1 & Ha); [done|].
    exists s1. split_and!; try done; [apply Hg|].
    destruct Hg as (_ & _ & Hcp & _ & He). rewrite Hcp, (si_size _ Hi1), He.
    rewrite <- (si_size _ Hinv). lia.
  - exists s. split_and!; try done. lia.
Qed.

(** [insert] after the check for room. *)
Definition vss_insert_tail (e : VSSEntry) (loading : bool) : M VSS unit :=
  vss_insert_ e loading ≫= fun _ =>
  m ← get_mem;
  (if loading then mret tt else makeUndoRecord (DSize (currentSize (t_hdr m)))) ≫= fun _ =>
  upd_mem (fun m =>
    let h := set_h_currentSize (currentSize (t_hdr m) + 1) (t_hdr m) in
    set_hdr (if locked e then set_lockedEntryCount (lockedEntryCount h + 1) h else h) m).

Lemma set_vss_hdr_struct m h :
  vss_struct m → LWM h = LWM (t_hdr m) → numHashBuckets h = numHashBuckets (t_hdr m) →
  capacity h = capacity (t_hdr m) → vss_struct (set_hdr h m).
Proof. intros [Ht Hc] H1 H2 H3. split; cbn; congruence. Qed.

Lemma vss_insert_tail_spec e loading s :
  used e → vss_inv (u_mem s) → vss_abs (u_mem s) !! vss_key e = None →
  currentSize (t_hdr (u_mem s)) < capacity (t_hdr (u_mem s)) →
  ∃ s', vss_insert_tail e loading s = (Ret tt, s') ∧ vss_inv (u_mem s') ∧
        vss_abs (u_mem s') = <[vss_key e := vss_flags e]> (vss_abs (u_mem s)) ∧
        lockedEntryCount (t_hdr (u_mem s')) =
          lockedEntryCount (t_hdr (u_mem s)) + (if locked e then 1 else 0).
Proof.
  intros Hu [Hs Hsz Huq] Hnew Hlt.
  destruct (vss_insert__spec e loading s Hu Hs ltac:(lia)) as (s1 & Hrun & Hs1 & HG & He).
  destruct HG as (Hi & Hc & Hcs & Hnb & Hlk).
  unfold vss_insert_tail. rewrite (bind_ret _ _ _ _ _ Hrun). autorewrite with run.
  destruct (tabmap_cons vss_key vss_key_body (t_stor (u_mem s)) (t_stor (u_mem s1)) e Huq)
    as [Ha Huq']; [by apply vss_abs_None|done|].
  assert (zlength (entries (t_stor (u_mem s1))) = zlength (entries (t_stor (u_mem s))) + 1) as Hl.
  { by rewrite He, zlength_cons. }
  assert (vss_abs (u_mem s1) = <[vss_key e := vss_flags e]> (vss_abs (u_mem s))) as Habs.
  { unfold vss_abs. by rewrite Ha, fmap_insert. }
  set (h0 := set_h_currentSize (currentSize (t_hdr (u_mem s1)) + 1) (t_hdr (u_mem s1))).
  set (h := if locked e then set_lockedEntryCount (lockedEntryCount h0 + 1) h0 else h0).
  assert (capacity h = capacity (t_hdr (u_mem s1)) ∧ LWM h = LWM (t_hdr (u_mem s1)) ∧
    numHashBuckets h = numHashBuckets (t_hdr (u_mem s1)) ∧
    currentSize h = currentSize (t_hdr (u_mem s1)) + 1 ∧
    lockedEntryCount h = lockedEntryCount (t_hdr (u_mem s1)) + (if locked e then 1 else 0))
    as (E1 & E2 & E3 & E4 & E5).
  { unfold h, h0. destruct (locked e); split_and!; try done. cbn [set_h_currentSize VSSShmsegHeader_ops lockedEntryCount]. lia. }
  assert (vss_inv (set_hdr h (u_mem s1))) as Hinv'.
  { split; [by apply set_vss_hdr_struct| |done]. change (currentSize h = zlength (entries (t_stor (u_mem s1)))). lia. }
  destruct loading; autorewrite with run; (eexists; split; [reflexivity|]); cbn [u_mem]; fold h0; fold h;
    (split; [done|]); (split; [done|]); cbn [t_hdr set_hdr]; lia.
Qed.

Lemma vss_insert_spec l ver vbf lck loading s :
  l ≠ -1 → vss_inv (u_mem s) → vss_abs (u_mem s) !! (l, ver) = None →
  ∃ s', vss_insert l ver vbf lck loading s = (Ret tt, s') ∧ vss_inv (u_mem s') ∧
        vss_abs (u_mem s') = <[(l, ver) := (vbf, lck)]> (vss_abs (u_mem s)) ∧
        lockedEntryCount (t_hdr (u_mem s')) =
          lockedEntryCount (t_hdr (u_mem s)) + (if lck then 1 else 0).
Proof.
  intros Hl Hinv Hnew. unfold vss_insert. autorewrite with run.
  destruct (vss_make_room s Hinv) as (s1 & Hrun & _ & Hi1 & Ha & Hlk & Hlt).
  rewrite (bind_ret _ _ _ _ _ Hrun).
  destruct (vss_insert_tail_spec (mkVSS l ver vbf lck (-1)) loading s1)
    as (s' & Hr & Hi' & Ha' & Hlk'); auto.
  { by rewrite Ha. }
  exists s'. rewrite Ha', Ha, Hlk', Hlk. done.
Qed.

(** ** Unlinking one entry *)

(** The header after the removal of slot [i]. *)
Lemma dropped_fields i e h :
  capacity (dropped i e h) = capacity h ∧ currentSize (dropped i e h) = currentSize h - 1 ∧
  LWM (dropped i e h) = Z.min (LWM h) i ∧ numHashBuckets (dropped i e h) = numHashBuckets h ∧
  lockedEntryCount (dropped i e h) =
    (if locked e && (0 <? lockedEntryCount h) then lockedEntryCount h - 1 else lockedEntryCount h).
Proof.
  unfold dropped. cbn [set_h_currentSize VSSShmsegHeader_ops lockedEntryCount].
  destruct (locked e && (0 <? lockedEntryCount h));
    (destruct (i <? _) eqn:Hi; zbool; cbn in *; split_and!; lia).
Qed.

(** What the removal of the entry [e] at slot [i] of bucket [b] leaves; [l1] and
    [l2] are the rest of the bucket's chain. *)
Record unlinked (b : Z) (l1 : list Z) (i : Z) (l2 : list Z) (e : VSSEntry) (s s' : VSS) : Prop := {
  ul_inv : vss_inv (u_mem s');
  ul_entries : entries (t_stor (u_mem s)) ≡ₚ node_body e :: entries (t_stor (u_mem s'));
  ul_content : content (t_stor (u_mem s')) =
    (content (t_stor (u_mem s))).[i <- node_body (set_n_lbid (-1) e)];
  ul_chain : ∃ h', (t_buckets (u_mem s')).[b] = Some h' ∧ chain (t_stor (u_mem s')) h' (l1 ++ l2);
  ul_hdr : t_hdr (u_mem s') = dropped i e (t_hdr (u_mem s));
  ul_info : t_info (u_mem s') = t_info (u_mem s);
}.

Lemma unlink_step b h l1 i l2 e s :
  vss_inv (u_mem s) → (t_buckets (u_mem s)).[b] = Some h →
  chain (t_stor (u_mem s)) h (l1 ++ i :: l2) → (t_stor (u_mem s)).[i] = Some e → used e →
  ∃ s1 log, unlinkEntry b (prev_of l1) i s = (Ret tt, s1) ∧ t_hdr (u_mem s1) = t_hdr (u_mem s) ∧
    unlinked b l1 i l2 e s
      (mkUndoable (set_hdr (dropped i e (t_hdr (u_mem s1))) (u_mem s1)) log).
Proof.
  intros [[Ht Hcap] Hsz Hu] Hb Hc Hi Hue.
  destruct (unlinkEntry_spec (key_hash (numHashBuckets (t_hdr (u_mem s)))) b h l1 i l2 e s)
    as (bk' & st' & h' & log' & Hrun & Hwf' & Hb' & Hc' & Hlb & Hcon & _);
    [by destruct Ht|by apply key_hash_stable|done..|].
  destruct (tstruct_unlink _ _ _ _ bk' st' i e Ht Hi Hue Hlb Hwf' Hcon) as (Ht' & He & Hlen).
  destruct (tabmap_uncons vss_key vss_key_body _ st' e Hu He) as [_ Hu'].
  destruct (dropped_fields i e (t_hdr (u_mem s))) as (E1 & E2 & E3 & E4 & _).
  eexists _, log'. split; [exact Hrun|]. split; [done|]. split; cbn [u_mem t_hdr t_stor t_buckets t_info set_hdr]; try done.
  - split; [split|..]; cbn [u_mem t_hdr t_stor t_buckets set_hdr]; rewrite ?E1, ?E2, ?E3, ?E4; try done.
    + congruence.
    + rewrite Hsz, He, zlength_cons. lia.
  - eauto.
Qed.

(** ** The loops that remove all versions of a block *)

Lemma on_fst_run {S T A} (op : M S A) (s : S) (t : T) r s' :
  op s = (r, s') → on_fst op (s, t) = (r, (s', t)).
Proof. unfold on_fst, zoom. simpl. by intros ->. Qed.

Lemma on_snd_run {S T A} (op : M T A) (s : S) (t : T) r t' :
  op t = (r, t') → on_snd op (s, t) = (r, (s, t')).
Proof. unfold on_snd, zoom. simpl. by intros ->. Qed.

Section RemoveChain.
Context {X : Type} (hook : VSSEntry → M X unit) (XI : list VSSEntry → X → Prop) (b l : Z).
Hypothesis hook_spec : ∀ rem e x, lbid e = l → XI rem x →
  ∃ x', hook e x = (Ret tt, x') ∧ XI (rem ++ [node_body e]) x'.
Hypothesis l_valid : l ≠ -1.

(** No entry of the slots [ks] is one of block [l]. *)
Definition passed (st : list VSSEntry) (ks : list Z) : Prop :=
  ∀ j e, j ∈ ks → st.[j] = Some e → lbid e ≠ l.

Lemma passed_unlinked l1 i l2 e s s' ks :
  unlinked b l1 i l2 e s s' → (t_stor (u_mem s)).[i] = Some e →
  passed (t_stor (u_mem s)) ks → passed (t_stor (u_mem s')) ks.
Proof.
  intros Hul Hi Hp j e' Hj Hej. destruct (decide (j = i)) as [->|Hne].
  - assert ((content (t_stor (u_mem s'))).[i] = Some (node_body e')) as Hc by by rewrite content_zget, Hej.
    rewrite (ul_content _ _ _ _ _ _ _ Hul), zget_zset_eq in Hc.
    + apply (inj Some) in Hc. destruct e'. unfold node_body in Hc. cbn in *. intros ->. naive_solver.
    + rewrite zlength_content. by eapply zget_range.
  - destruct (content_slot _ _ _ _ _ _ (ul_content _ _ _ _ _ _ _ Hul) Hne Hej) as (e1 & He1 & Hb1).
    specialize (Hp j e1 Hj He1). destruct e1, e'. unfold node_body in Hb1. cbn in *. congruence.
Qed.

Lemma removeChain_spec fuel l2 l1 h s x rem :
  vss_inv (u_mem s) → (t_buckets (u_mem s)).[b] = Some h →
  chain (t_stor (u_mem s)) h (l1 ++ l2) → passed (t_stor (u_mem s)) l1 →
  (length l2 ≤ fuel)%nat → XI rem x →
  ∃ s' x' rem' h' l',
    removeChain hook fuel b l (prev_of l1) (default (-1) (head l2)) (s, x) = (Ret tt, (s', x')) ∧
    vss_inv (u_mem s') ∧ XI (rem ++ rem') x' ∧
    entries (t_stor (u_mem s)) ≡ₚ rem' ++ entries (t_stor (u_mem s')) ∧
    Forall (fun e => lbid e = l) rem' ∧
    (t_buckets (u_mem s')).[b] = Some h' ∧ chain (t_stor (u_mem s')) h' l' ∧
    passed (t_stor (u_mem s')) l' ∧
    numHashBuckets (t_hdr (u_mem s')) = numHashBuckets (t_hdr (u_mem s)).
Proof.
  revert l2 l1 h s x rem. induction fuel as [|fuel IH]; intros l2 l1 h s x rem Hinv Hb Hc Hp Hf HX.
  { destruct l2; [|simpl in Hf; lia]. rewrite app_nil_r in Hc.
    exists s, x, [], h, l1. rewrite app_nil_r. split_and!; try done. }
  destruct l2 as [|i l2].
  { rewrite app_nil_r in Hc. exists s, x, [], h, l1. rewrite app_nil_r. split_and!; try done. }
  destruct (chain_range _ _ _ i Hc ltac:(set_solver)) as [e Hi].
  pose proof (zget_range _ _ _ Hi) as Hri.
  change (default (-1) (head (i :: l2))) with i. cbn [removeChain].
  assert (i =? -1 = false) as -> by (apply Z.eqb_neq; lia).
  erewrite bind_ret by by apply on_fst_run. rewrite Hi. cbn [deref]. rewrite lift_run.
  pose proof (chain_next _ _ _ _ _ _ Hc Hi) as Hnx. change (n_next e) with (next e) in Hnx.
  destruct (lbid e =? l) eqn:Hl; zbool.
  - destruct (hook_spec rem e x Hl HX) as (x1 & Hh & HX1).
    erewrite bind_ret by by apply on_snd_run.
    destruct (unlink_step b h l1 i l2 e s Hinv Hb Hc Hi) as (s1 & log & Hr1 & Hh1 & Hul).
    { unfold used. cbn. lia. }
    erewrite bind_ret by by apply on_fst_run. erewrite bind_ret by by apply on_fst_run.
    pose proof (ul_chain _ _ _ _ _ _ _ Hul) as (h1 & Hb1 & Hc1).
    set (s2 := mkUndoable _ (undoRecords s1)).
    destruct (IH l2 l1 h1 s2 x1 (rem ++ [node_body e])) as
      (s' & x' & rem' & h' & l' & Hrun & Hinv' & HX' & He' & Hall & Hb' & Hc' & Hp' & Hn'); try done.
    + apply (ul_inv _ _ _ _ _ _ _ Hul).
    + by apply (passed_unlinked _ _ _ _ _ _ _ Hul Hi).
    + simpl in Hf. lia.
    + exists s', x', (node_body e :: rem'), h', l'. rewrite Hnx. split; [done|]. split; [done|].
      split; [by rewrite <- app_assoc in HX'|].
      split; [rewrite (ul_entries _ _ _ _ _ _ _ Hul); cbn; by rewrite <- He'|].
      split; [by constructor|]. split_and!; try done.
      rewrite Hn'. unfold s2. cbn [u_mem t_hdr set_hdr]. rewrite Hh1. apply dropped_fields.
  - rewrite Hnx, <- (prev_of_snoc l1 i).
    apply (IH l2 (l1 ++ [i]) h s x rem); try done.
    + by rewrite <- app_assoc.
    + intros j ej [Hj|Hj]%elem_of_app Hej; [by eapply Hp|].
      apply list_elem_of_singleton in Hj as ->. by simplify_eq.
    + simpl in Hf. lia.
Qed.
End RemoveChain.

(** ** Removals, on the map *)

Lemma vss_abs_entries m k fl :
  vss_inv m →
  vss_abs m !! k = Some fl ↔ ∃ x, x ∈ entries (t_stor m) ∧ vss_key x = k ∧ vss_flags x = fl.
Proof.
  intros Hinv. rewrite vss_abs_Some by done. setoid_rewrite elem_of_entries. split.
  - intros (i & e & Hi & Hu & Hk & Hf). exists (node_body e). split; [eauto|]. done.
  - intros (x & (i & e & Hi & Hu & ->) & Hk & Hf). eauto 10.
Qed.

(** The map without the block [l]. *)
Definition drop_block (l : Z) (a : gmap (Z * Z) (bool * bool)) : gmap (Z * Z) (bool * bool) :=
  filter (fun kv => kv.1.1 ≠ l) a.

Lemma abs_drop_block l m m' rem :
  vss_inv m → vss_inv m' → entries (t_stor m) ≡ₚ rem ++ entries (t_stor m') →
  Forall (fun e => lbid e = l) rem → (∀ x, x ∈ entries (t_stor m') → lbid x ≠ l) →
  vss_abs m' = drop_block l (vss_abs m).
Proof.
  intros Hm Hm' Hp Hrem Hno. apply map_eq. intros k. apply option_eq. intros fl.
  unfold drop_block. rewrite map_lookup_filter_Some, !vss_abs_entries by done.
  rewrite Forall_forall in Hrem. split.
  - intros (x & Hx & <- & Hf). split; [|by apply Hno]. exists x. rewrite Hp. set_solver.
  - intros [(x & Hx & <- & Hf) Hne]. exists x. split; [|done]. rewrite Hp in Hx.
    apply elem_of_app in Hx as [Hx%Hrem|Hx]; [by destruct Hne|done].
Qed.

(** Removing the block [l] from its bucket. *)
Lemma removeChain_block {X} (hook : VSSEntry → M X unit) (XI : list VSSEntry → X → Prop) l s x rem :
  (∀ rem e x, lbid e = l → XI rem x → ∃ x', hook e x = (Ret tt, x') ∧ XI (rem ++ [node_body e]) x') →
  l ≠ -1 → vss_inv (u_mem s) → XI rem x →
  let b := vss_hash (numHashBuckets (t_hdr (u_mem s))) l in
  ∃ h s' x' rem', (t_buckets (u_mem s)).[b] = Some h ∧
    removeChain hook (length (t_stor (u_mem s))) b l (-1) h (s, x) = (Ret tt, (s', x')) ∧
    vss_inv (u_mem s') ∧ XI (rem ++ rem') x' ∧
    entries (t_stor (u_mem s)) ≡ₚ rem' ++ entries (t_stor (u_mem s')) ∧
    Forall (fun e => lbid e = l) rem' ∧ (∀ x, x ∈ entries (t_stor (u_mem s')) → lbid x ≠ l).
Proof.
  intros Hhook Hl Hinv HX b. pose proof (ss_chains _ (si_struct _ Hinv)) as Ht.
  destruct (tstruct_bucket _ _ _ _ (mkVSS l 0 false false 0) Ht) as [h Hb].
  change (key_hash _ _) with b in Hb.
  destruct (ts_wf _ _ _ _ Ht b h Hb) as (l2 & Hc & Hnd & _).
  destruct (removeChain_spec hook XI b l Hhook Hl (length (t_stor (u_mem s))) l2 [] h s x rem)
    as (s' & x' & rem' & h' & l' & Hrun & Hinv' & HX' & He & Hall & Hb' & Hc' & Hp' & Hn'); try done.
  - intros j e Hj. by apply elem_of_nil in Hj.
  - by eapply chain_length.
  - exists h, s', x', rem'. rewrite <- (chain_head _ _ _ Hc) in Hrun.
    split_and!; try done. intros y (i & e & Hi & Hu & ->)%elem_of_entries.
    cbn. destruct (decide (lbid e = l)) as [Hel|]; [|done].
    apply (Hp' i e); [|done]. 
    eapply (bucket_complete (key_hash (numHashBuckets (t_hdr (u_mem s'))))); try done.
    + apply (ts_wf _ _ _ _ (ss_chains _ (si_struct _ Hinv'))).
    + rewrite Hn'. unfold b. by rewrite <- Hel.
Qed.

(** ** [removeEntry] *)

(** Its specification: the version goes; when no version of the block is left in
    the version buffer or locked, the whole block goes, and is to be flushed. *)
Definition needed (l : Z) (a : gmap (Z * Z) (bool * bool)) : Prop :=
  map_Exists (fun k f => k.1 = l ∧ f.1 || f.2 = true) a.

#[global] Instance needed_dec l a : Decision (needed l a).
Proof. unfold needed. apply _. Defined.

Definition spec_removeEntry (l ver : Z) (a : gmap (Z * Z) (bool * bool))
    : gmap (Z * Z) (bool * bool) * bool :=
  match a !! (l, ver) with
  | None => (a, false)
  | Some _ =>
      let a1 := delete (l, ver) a in
      if decide (needed l a1) then (a1, false) else (drop_block l a1, true)
  end.

Lemma walk_needed m l :
  vss_inv m → l ≠ -1 →
  ∃ h r, (t_buckets m).[vss_hash (numHashBuckets (t_hdr m)) l] = Some h ∧
    walk (length (t_stor m)) (t_stor m)
      (fun _ e (_ : unit) => if (lbid e =? l) && (vbFlag e || locked e) then inr tt else inl tt) h tt
      = Ret r ∧ (needed l (vss_abs m) ↔ r = inr tt).
Proof.
  intros Hinv Hl. pose proof (ss_chains _ (si_struct _ Hinv)) as Ht.
  destruct (tstruct_bucket _ _ _ _ (mkVSS l 0 false false 0) Ht) as [h Hb].
  destruct (walk_first m l (fun e => (lbid e =? l) && (vbFlag e || locked e)) (fun _ => tt))
    as [(e & (i & Hi & Hu) & Hp & Hr)|[Hno Hr]];
    [by destruct Hinv|intros e He; by zbool|..]; unfold walk_bucket in Hr;
    change (key_hash _ _) with (vss_hash (numHashBuckets (t_hdr m)) l) in Hb; rewrite Hb in Hr;
    cbn [deref mbind outcome_bind] in Hr; (eexists h, _; split; [done|]; split; [exact Hr|]).
  - split; [done|]. intros _. apply andb_true_iff in Hp as [<-%Z.eqb_eq Hf].
    exists (vss_key e), (vss_flags e). split; [|done]. apply vss_abs_Some; [done|]. by exists i, e.
  - split; [|done]. intros (k & f & (i & e & Hi & Hu & <- & <-)%vss_abs_Some & Hkl & Hf); [|done].
    specialize (Hno e ltac:(by exists i)). cbn in Hkl, Hf. rewrite Hkl, Z.eqb_refl, Hf in Hno. done.
Qed.

Lemma removeChain_vss_block l s :
  l ≠ -1 → vss_inv (u_mem s) →
  let b := vss_hash (numHashBuckets (t_hdr (u_mem s))) l in
  ∃ h s', (t_buckets (u_mem s)).[b] = Some h ∧
    removeChain_vss (length (t_stor (u_mem s))) b l (-1) h s = (Ret tt, s') ∧
    vss_inv (u_mem s') ∧ vss_abs (u_mem s') = drop_block l (vss_abs (u_mem s)).
Proof.
  intros Hl Hinv b.
  destruct (removeChain_block (fun _ => mret tt) (fun _ (_ : unit) => True) l s tt [])
    as (h & s' & x' & rem' & Hb & Hrun & Hinv' & _ & He & Hall & Hno); try done.
  { intros rem e x _ _. by exists x. }
  exists h, s'. split; [done|]. unfold removeChain_vss. fold b in Hrun. rewrite Hrun.
  split_and!; try done. by eapply abs_drop_block.
Qed.

Lemma unlinked_abs b l1 i l2 e s s' :
  vss_inv (u_mem s) → unlinked b l1 i l2 e s s' →
  vss_abs (u_mem s') = delete (vss_key e) (vss_abs (u_mem s)).
Proof.
  intros Hinv Hul. unfold vss_abs.
  destruct (tabmap_uncons vss_key vss_key_body _ _ e (si_unique _ Hinv) (ul_entries _ _ _ _ _ _ _ Hul))
    as [-> _]. apply fmap_delete.
Qed.

Lemma vss_removeEntry_spec l ver fl s :
  l ≠ -1 → vss_inv (u_mem s) →
  let '(a', flush) := spec_removeEntry l ver (vss_abs (u_mem s)) in
  ∃ s', vss_removeEntry l ver fl s = (Ret (if flush then fl ++ [l] else fl), s') ∧
        vss_inv (u_mem s') ∧ vss_abs (u_mem s') = a'.
Proof.
  intros Hl Hinv. unfold vss_removeEntry, spec_removeEntry. autorewrite with run.
  destruct (vss_getIndex_spec (u_mem s) l ver (si_struct _ Hinv) Hl) as
    (h & Hb & [(l1 & i & l2 & e & -> & Hc & Hi & Hu & Hk)|(prev & -> & Hnone)]); rewrite lift_run.
  2: { assert (vss_abs (u_mem s) !! (l, ver) = None) as ->.
       { apply vss_abs_None. by apply tabmap_None. }
       by exists s. }
  assert (i =? -1 = false) as ->.
  { apply Z.eqb_neq. apply zget_range in Hi. lia. }
  rewrite Hi. cbn [deref]. rewrite lift_run.
  assert (vss_abs (u_mem s) !! (l, ver) = Some (vss_flags e)) as ->.
  { apply vss_abs_Some; [done|]. by exists i, e. }
  destruct (unlink_step _ h l1 i l2 e s Hinv Hb Hc Hi Hu) as (s1 & log & Hr1 & Hh1 & Hul).
  rewrite (bind_ret _ _ _ _ _ Hr1). autorewrite with run. cbn [u_mem].
  set (s2 := mkUndoable (set_hdr (dropped i e (t_hdr (u_mem s1))) (u_mem s1)) _).
  assert (vss_inv (u_mem s2)) as Hinv2 by apply (ul_inv _ _ _ _ _ _ _ Hul).
  assert (vss_abs (u_mem s2) = delete (l, ver) (vss_abs (u_mem s))) as Ha2.
  { rewrite <- Hk. exact (unlinked_abs _ _ _ _ _ _ _ Hinv Hul). }
  change (set_hdr (dropped i e (t_hdr (u_mem s1))) (u_mem s1)) with (u_mem s2).
  assert (numHashBuckets (t_hdr (u_mem s2)) = numHashBuckets (t_hdr (u_mem s))) as Hn2.
  { unfold s2. cbn [u_mem t_hdr set_hdr]. rewrite Hh1. apply dropped_fields. }
  destruct (walk_needed (u_mem s2) l Hinv2 Hl) as (h2 & r & Hb2 & Hw & Hneed).
  rewrite Hn2 in Hb2. rewrite Hb2. cbn [deref]. rewrite lift_run, Hw, lift_run.
  rewrite <- Ha2. destruct r as [[]|[]].
  - rewrite decide_False by (rewrite Hneed; done).
    destruct (removeChain_vss_block l s2 Hl Hinv2) as (h3 & s3 & Hb3 & Hrun & Hinv3 & Ha3).
    rewrite Hn2, Hb2 in Hb3. simplify_eq. rewrite Hn2 in Hrun.
    rewrite (bind_ret _ _ _ _ _ Hrun). by exists s3.
  - rewrite decide_True by (by rewrite Hneed). by exists s2.
Qed.

(** The VSS keeps the promise the VBBM relies on. *)
Lemma isEntryLocked_total l ver (v : VSS) :
  vss_inv (u_mem v) → ∃ b, vc_isEntryLocked l ver v = Ret b.
Proof.
  intros Hinv. cbn. destruct (decide (l = -1)) as [->|Hl]; [by exists false|].
  destruct (isEntryLocked_spec (u_mem v) l ver (si_struct _ Hinv) Hl) as (b & _ & Hb & _). eauto.
Qed.

Lemma removeEntry_total l ver fl (v : VSS) :
  vss_inv (u_mem v) → l ≠ -1 →
  ∃ fl' v', vc_removeEntry l ver fl v = (Ret fl', v') ∧ vss_inv (u_mem v').
Proof.
  intros Hinv Hl. pose proof (vss_removeEntry_spec l ver fl v Hl Hinv) as Hspec.
  destruct (spec_removeEntry l ver (vss_abs (u_mem v))) as [a' flush].
  destruct Hspec as (s' & Hrun & Hinv' & _). eauto.
Qed.

#[global] Instance VSS_calls_laws : VSSCallsLaws VSS := {
  v_inv v := vss_inv (u_mem v);
  vc_isEntryLocked_total := isEntryLocked_total;
  vc_removeEntry_total := removeEntry_total;
}.

(** ** [setVBFlag] *)

(** Rewriting the flags of an entry in place. *)
Lemma set_flags_spec i e e' m :
  vss_inv m → (t_stor m).[i] = Some e → used e → vss_key e' = vss_key e → next e' = next e →
  vss_inv (set_stor i e' m) ∧
  vss_abs (set_stor i e' m) = <[vss_key e := vss_flags e']> (vss_abs m).
Proof.
  intros [[Ht Hcap] Hsz Hu] Hi Hue Hk Hn. pose proof Hk as [= Hlb Hv].
  destruct (entries_id (t_stor m) i e Hi) as (rest & Hp & Hset).
  assert (usedb e = true) as Hub by by apply usedb_true.
  assert (usedb e' = true) as Hub'.
  { apply usedb_true. unfold used. cbn. rewrite Hlb. done. }
  rewrite Hub in Hp. specialize (Hset e'). rewrite Hub' in Hset. cbn [app] in Hp, Hset.
  assert (NoDup (vss_key <$> node_body e :: rest)) as Hnd by (unfold keys_unique in Hu; by rewrite Hp in Hu).
  assert (keys_unique vss_key ((t_stor m).[i <- e'])) as Hu'.
  { unfold keys_unique. rewrite Hset. csimpl. csimpl in Hnd. by rewrite vss_key_body, Hk, <- vss_key_body. }
  split.
  - split; [split|..]; cbn [t_hdr t_stor t_buckets set_stor].
    + apply (tstruct_update _ _ _ _ _ e); try done. unfold key_hash, VSSEntry_hash, vss_bucket. by rewrite Hlb.
    + by rewrite zlength_zset.
    + rewrite Hsz, Hp, Hset, !zlength_cons. done.
    + done.
  - unfold vss_abs, tabmap. cbn [t_stor set_stor].
    rewrite (list_to_map_proper _ ((fun e => (vss_key e, e)) <$> node_body e' :: rest));
      [|rewrite keyed_fst; exact Hu'|by rewrite Hset].
    rewrite (list_to_map_proper ((fun e => (vss_key e, e)) <$> entries (t_stor m))
               ((fun e => (vss_key e, e)) <$> node_body e :: rest));
      [|rewrite keyed_fst; exact Hu|by rewrite Hp].
    csimpl. rewrite !fmap_insert, !vss_key_body, Hk, insert_insert_eq. done.
Qed.

Lemma setVBFlag_spec l ver flag s :
  l ≠ -1 → vss_inv (u_mem s) →
  match vss_abs (u_mem s) !! (l, ver) with
  | None => setVBFlag l ver flag s = (Exn LogicError, s)
  | Some (_, lck) =>
      ∃ s', setVBFlag l ver flag s = (Ret tt, s') ∧ vss_inv (u_mem s') ∧
            vss_abs (u_mem s') = <[(l, ver) := (flag, lck)]> (vss_abs (u_mem s))
  end.
Proof.
  intros Hl Hinv. unfold setVBFlag. autorewrite with run.
  destruct (vss_getIndex_spec (u_mem s) l ver (si_struct _ Hinv) Hl) as
    (h & Hb & [(l1 & i & l2 & e & -> & Hc & Hi & Hu & Hk)|(prev & -> & Hnone)]); rewrite lift_run.
  2: { assert (vss_abs (u_mem s) !! (l, ver) = None) as ->; [|done].
       apply vss_abs_None. by apply tabmap_None. }
  assert (i =? -1 = false) as ->.
  { apply Z.eqb_neq. apply zget_range in Hi. lia. }
  rewrite Hi. cbn [deref]. rewrite lift_run.
  assert (vss_abs (u_mem s) !! (l, ver) = Some (vbFlag e, locked e)) as ->.
  { apply vss_abs_Some; [done|]. by exists i, e. }
  autorewrite with run. eexists. split; [reflexivity|]. rewrite <- Hk.
  by apply (set_flags_spec i e (mkVSS (lbid e) (verID e) flag (locked e) (next e))).
Qed.

(** ** [commit] *)

(** Releasing the locks of a transaction, on the map. *)
Definition release_locks (txnID : Z) (a : gmap (Z * Z) (bool * bool)) : gmap (Z * Z) (bool * bool) :=
  map_imap (fun k f => Some (if k.2 =? txnID then (f.1, false) else f)) a.

Definition releasing (txnID : Z) (k : Z * Z) (o o' : option (bool * bool)) : Prop :=
  match o, o' with
  | None, None => True
  | Some f, Some f' => f'.1 = f.1 ∧ (k.2 ≠ txnID → f' = f)
  | _, _ => False
  end.

Definition released (txnID i : Z) (m : VSSMem) : Prop :=
  ∀ e, (t_stor m).[i] = Some e → used e → verID e = txnID → locked e = false.

Lemma commit_slot_spec txnID i s :
  vss_inv (u_mem s) → 0 ≤ i < capacity (t_hdr (u_mem s)) →
  ∃ s', commit_slot txnID i s = (Ret tt, s') ∧ vss_inv (u_mem s') ∧
        capacity (t_hdr (u_mem s')) = capacity (t_hdr (u_mem s)) ∧
        (∀ k, releasing txnID k (vss_abs (u_mem s) !! k) (vss_abs (u_mem s') !! k)) ∧
        released txnID i (u_mem s') ∧ ∀ j, released txnID j (u_mem s) → released txnID j (u_mem s').
Proof.
  intros Hinv Hr. rewrite <- (ss_cap _ (si_struct _ Hinv)) in Hr.
  destruct (zget_is_Some _ _ Hr) as [e Hi]. unfold commit_slot. autorewrite with run.
  rewrite Hi. cbn [deref]. rewrite lift_run.
  destruct (usedb e && (verID e =? txnID)) eqn:Hc; zbool.
  2: { exists s. split_and!; try done.
       - intros k. unfold releasing. by destruct (vss_abs (u_mem s) !! k).
       - intros e' He' Hu%usedb_true Hv. simplify_eq. rewrite Hu, Z.eqb_refl in Hc. by destruct Hc. }
  autorewrite with run. set (e' := mkVSS (lbid e) (verID e) (vbFlag e) false (next e)).
  assert (used e) as Hu by by apply usedb_true.
  destruct (set_flags_spec i e e' (u_mem s) Hinv Hi Hu eq_refl eq_refl) as [Hinv' Ha'].
  eexists. split; [reflexivity|]. cbn [u_mem]. set (m1 := set_stor i e' (u_mem s)) in *.
  match goal with |- context [if 0 <? ?c then ?x else m1] => set (m2 := if 0 <? c then x else m1) end.
  assert (vss_inv m2 ∧ vss_abs m2 = vss_abs m1 ∧ t_stor m2 = t_stor m1 ∧
          capacity (t_hdr m2) = capacity (t_hdr (u_mem s))) as (Hinv2 & Ha2 & Hs2 & Hc2).
  { unfold m2. case_if; [|done]. split; [|done]. destruct Hinv' as [Hs1 Hz1 Hu1].
    split; [by apply set_vss_hdr_struct|done|done]. }
  assert (∀ j, released txnID j (u_mem s) ∨ j = i → released txnID j m2) as Hrel.
  { intros j Hj ej. rewrite Hs2. unfold m1. cbn [t_stor set_stor]. rewrite (zget_zset _ _ _ _ _ Hi).
    case_decide; [by intros [= <-]|]. destruct Hj as [Hj|Hj]; [apply Hj|by destruct Hj]. }
  split_and!; [done|done| |by apply Hrel; right|intros j Hj; apply Hrel; by left].
  intros k. rewrite Ha2, Ha'. assert (vss_abs (u_mem s) !! vss_key e = Some (vss_flags e)) as Hk.
  { apply vss_abs_Some; [done|]. by exists i, e. }
  destruct (decide (k = vss_key e)) as [->|Hne].
  - rewrite lookup_insert_eq, Hk. split; [done|]. by intros [].
  - rewrite lookup_insert_ne by done. unfold releasing. by destruct (vss_abs (u_mem s) !! k).
Qed.

Lemma releasing_trans txnID k o1 o2 o3 :
  releasing txnID k o1 o2 → releasing txnID k o2 o3 → releasing txnID k o1 o3.
Proof.
  destruct o1, o2, o3; cbn; try done. intros [? H1] [? H2]. split; [congruence|].
  intros Hk. rewrite (H2 Hk). by apply H1.
Qed.

Lemma commit_slots_spec txnID slots s :
  vss_inv (u_mem s) → (∀ i, i ∈ slots → 0 ≤ i < capacity (t_hdr (u_mem s))) →
  ∃ s', forM slots (commit_slot txnID) s = (Ret tt, s') ∧ vss_inv (u_mem s') ∧
        capacity (t_hdr (u_mem s')) = capacity (t_hdr (u_mem s)) ∧
        (∀ k, releasing txnID k (vss_abs (u_mem s) !! k) (vss_abs (u_mem s') !! k)) ∧
        ∀ j, j ∈ slots ∨ released txnID j (u_mem s) → released txnID j (u_mem s').
Proof.
  revert s. induction slots as [|i slots IH]; intros s Hinv Hr.
  - exists s. split_and!; try done.
    + intros k. unfold releasing. by destruct (vss_abs (u_mem s) !! k).
    + intros j [Hj|Hj]; [by apply elem_of_nil in Hj|done].
  - destruct (commit_slot_spec txnID i s Hinv) as (s1 & Hr1 & Hi1 & Hc1 & Hk1 & Hrel1 & Hkeep1);
      [apply Hr; set_solver|].
    destruct (IH s1 Hi1) as (s2 & Hr2 & Hi2 & Hc2 & Hk2 & Hrel2); [intros; rewrite Hc1; apply Hr; set_solver|].
    exists s2. cbn [forM]. rewrite (bind_ret _ _ _ _ _ Hr1). split_and!; try done; [congruence|..].
    + intros k. by eapply releasing_trans.
    + intros j [Hj|Hj]; apply Hrel2; [|right; by apply Hkeep1].
      apply elem_of_cons in Hj as [->|Hj]; [by right|by left].
Qed.

Lemma commit_spec txnID s :
  vss_inv (u_mem s) →
  ∃ s', commit txnID s = (Ret tt, s') ∧ vss_inv (u_mem s') ∧
        vss_abs (u_mem s') = release_locks txnID (vss_abs (u_mem s)).
Proof.
  intros Hinv. unfold commit. autorewrite with run.
  destruct (commit_slots_spec txnID (zseq 0 (capacity (t_hdr (u_mem s)))) s Hinv)
    as (s' & Hrun & Hinv' & Hcap & Hk & Hrel).
  { intros i Hi%zseq_elem. lia. }
  exists s'. split; [done|]. split; [done|]. apply map_eq. intros k. unfold release_locks.
  rewrite map_lookup_imap. specialize (Hk k).
  destruct (vss_abs (u_mem s) !! k) as [f|]; cbn in *;
    (destruct (vss_abs (u_mem s') !! k) as [f'|] eqn:Hf'; [|done]); [|done].
  destruct Hk as [H1 H2]. f_equal. case_if; [|by apply H2].
  apply vss_abs_Some in Hf' as (i & e & Hi & Hu & <- & <-); [|done]. cbn in *.
  assert (locked e = false) as Hl.
  { apply (Hrel i); [left|done..]. apply zseq_elem. rewrite <- Hcap, <- (ss_cap _ (si_struct _ Hinv')).
    apply zget_range in Hi. lia. }
  unfold vss_flags. rewrite Hl. by f_equal.
Qed.

(** ** [removeEntriesFromDB] *)

(** The VBBM after the versions [rem] were dropped: it lost the ones that were in
    the version buffer. *)
Definition vb_dropped (use_vbbm : bool) (m0 : VBMem) (rem : list VSSEntry) (b : VBBM) : Prop :=
  vb_inv (u_mem b) ∧
  ∀ k, vb_abs (u_mem b) !! k =
    if decide (use_vbbm = true ∧ Exists (fun e => vss_key e = k ∧ vbFlag e = true) rem) then None
    else vb_abs m0 !! k.

Lemma vb_dropped_hook use_vbbm m0 rem e (b : VBBM) :
  lbid e ≠ -1 → vb_dropped use_vbbm m0 rem b →
  ∃ b', (if vbFlag e && use_vbbm then removeEntry (lbid e) (verID e) else mret tt) b = (Ret tt, b') ∧
        vb_dropped use_vbbm m0 (rem ++ [node_body e]) b'.
Proof.
  intros Hl [Hinv Hk]. destruct (vbFlag e && use_vbbm) eqn:Hc.
  - apply andb_true_iff in Hc as [Hf ->].
    destruct (removeEntry_detail (lbid e) (verID e) b Hl Hinv) as (b' & Hr & Hi' & Ha & _).
    exists b'. split; [done|]. split; [done|]. intros k. rewrite Ha.
    destruct (decide (k = (lbid e, verID e))) as [->|Hne].
    + rewrite lookup_delete_eq, decide_True; [done|]. split; [done|]. apply Exists_app. right.
      by constructor.
    + rewrite lookup_delete_ne, Hk by done. apply decide_ext. split; intros [? Hex]; split; try done.
      * apply Exists_app. by left.
      * apply Exists_app in Hex as [?|[Hex|Hex]%Exists_cons]; [done| |by apply Exists_nil in Hex].
        destruct Hex as [Hex _]. by destruct Hne.
  - exists b. split; [done|]. split; [done|]. intros k. rewrite Hk. apply decide_ext.
    split; intros [? Hex]; split; try done.
    + apply Exists_app. by left.
    + apply Exists_app in Hex as [?|[Hex|Hex]%Exists_cons]; [done| |by apply Exists_nil in Hex].
      destruct Hex as [_ Hex]. change (vbFlag (node_body e)) with (vbFlag e) in Hex.
      rewrite Hex in Hc. by subst.
Qed.

(** Dropping the blocks [ls] one by one. *)
Lemma removeBlocks_spec use_vbbm m0 ls s b rem :
  Forall (fun l => l ≠ -1) ls → vss_inv (u_mem s) → vb_dropped use_vbbm m0 rem b →
  ∃ s' b' rem', forM ls (removeBlock use_vbbm) (s, b) = (Ret tt, (s', b')) ∧
    vss_inv (u_mem s') ∧ vb_dropped use_vbbm m0 (rem ++ rem') b' ∧
    entries (t_stor (u_mem s)) ≡ₚ rem' ++ entries (t_stor (u_mem s')) ∧
    Forall (fun e => lbid e ∈ ls) rem' ∧ (∀ x, x ∈ entries (t_stor (u_mem s')) → lbid x ∉ ls).
Proof.
  intros Hls. revert s b rem. induction Hls as [|l ls Hl Hls IH]; intros s b rem Hinv Hb.
  - exists s, b, []. rewrite app_nil_r. split_and!; try done. intros x _. apply not_elem_of_nil.
  - destruct (removeChain_block
      (fun e => if vbFlag e && use_vbbm then removeEntry (lbid e) (verID e) else mret tt)
      (vb_dropped use_vbbm m0) l s b rem)
      as (h & s1 & b1 & rem1 & Hh & Hr1 & Hi1 & Hb1 & He1 & Ha1 & Hn1); try done.
    { intros rem0 e x Hel. apply vb_dropped_hook. by rewrite Hel. }
    destruct (IH s1 b1 (rem ++ rem1) Hi1 Hb1) as (s2 & b2 & rem2 & Hr2 & Hi2 & Hb2 & He2 & Ha2 & Hn2).
    exists s2, b2, (rem1 ++ rem2). cbn [forM].
    assert (removeBlock use_vbbm l (s, b) = (Ret tt, (s1, b1))) as Hrb.
    { unfold removeBlock. erewrite bind_ret by by apply on_fst_run.
      rewrite Hh. cbn [deref]. rewrite lift_run. exact Hr1. }
    rewrite (bind_ret _ _ _ _ _ Hrb). split; [done|]. split; [done|]. split; [by rewrite app_assoc|].
    split; [by rewrite <- app_assoc, <- He2|]. split.
    + apply Forall_app. split; [|eapply Forall_impl; [exact Ha2|]; intros; set_solver].
      eapply Forall_impl; [exact Ha1|]. intros x ->. set_solver.
    + intros x Hx. apply not_elem_of_cons. split; [|by apply Hn2]. apply Hn1. rewrite He2. set_solver.
Qed.

Definition in_range (r : LBIDRange) (l : Z) : Prop :=
  range_start r ≤ l < range_start r + range_size r.

#[global] Instance in_range_dec r l : Decision (in_range r l).
Proof. unfold in_range. apply _. Defined.

Lemma removeEntriesFromDB_spec r use_vbbm s (b : VBBM) :
  0 ≤ range_start r → vss_inv (u_mem s) → vb_inv (u_mem b) →
  ∃ s' b', removeEntriesFromDB r use_vbbm (s, b) = (Ret tt, (s', b')) ∧
    vss_inv (u_mem s') ∧ vb_inv (u_mem b') ∧
    vss_abs (u_mem s') = filter (fun kv => ¬ in_range r kv.1.1) (vss_abs (u_mem s)) ∧
    vb_abs (u_mem b') =
      filter (fun kv => ¬ (use_vbbm = true ∧ in_range r kv.1.1 ∧
                           fst <$> vss_abs (u_mem s) !! kv.1 = Some true)) (vb_abs (u_mem b)).
Proof.
  intros Hr Hinv Hb. unfold removeEntriesFromDB.
  erewrite bind_ret by by apply on_fst_run.
  erewrite bind_ret by (apply on_fst_run; apply makeUndoRecord_run).
  set (s0 := mkUndoable (u_mem s) _).
  destruct (removeBlocks_spec use_vbbm (u_mem b) (zseq (range_start r) (range_size r)) s0 b [])
    as (s' & b' & rem & Hrun & Hi' & [Hb' Hk] & He & Hall & Hno).
  - apply Forall_forall. intros l Hl%zseq_elem. lia.
  - done.
  - split; [done|]. intros k. rewrite decide_False; [done|]. intros [_ Hx]. by apply Exists_nil in Hx.
  - exists s', b'. split; [done|]. split; [done|]. split; [done|].
    cbn [u_mem s0] in He. rewrite Forall_forall in Hall.
    assert (∀ x, x ∈ rem → x ∈ entries (t_stor (u_mem s)) ∧ in_range r (lbid x)) as Hrem.
    { intros x Hx. split; [rewrite He; set_solver|]. by apply Hall, zseq_elem in Hx. }
    assert (∀ x, x ∈ entries (t_stor (u_mem s)) → in_range r (lbid x) → x ∈ rem) as Hrem'.
    { intros x Hx Hin. rewrite He in Hx. apply elem_of_app in Hx as [?|Hx]; [done|].
      destruct (Hno x Hx). by apply zseq_elem. }
    split.
    + apply map_eq. intros k. apply option_eq. intros fl.
      rewrite map_lookup_filter_Some, !vss_abs_entries by done. split.
      * intros (x & Hx & <- & Hf). split; [exists x; rewrite He; set_solver|]. cbn.
        intros Hin. apply (Hno x Hx). by apply zseq_elem.
      * intros [(x & Hx & <- & Hf) Hn]. exists x. split; [|done]. rewrite He in Hx.
        apply elem_of_app in Hx as [Hx|?]; [|done]. destruct Hn. by apply Hrem.
    + apply map_eq. intros k. rewrite Hk. apply option_eq. intros v.
      rewrite map_lookup_filter_Some. cbn [fst].
      assert (Exists (fun e => vss_key e = k ∧ vbFlag e = true) rem ↔
              in_range r k.1 ∧ fst <$> vss_abs (u_mem s) !! k = Some true) as Hex.
      { rewrite Exists_exists. split.
        - intros (x & Hx & <- & Hf). destruct (Hrem x Hx) as [Hx' Hin]. split; [done|].
          apply fmap_Some. exists (vss_flags x). split; [|done]. apply vss_abs_entries; eauto.
        - intros [Hin (f & (x & Hx & <- & <-)%vss_abs_entries & Hf)%fmap_Some]; [|done].
          exists x. split; [by apply Hrem'|done]. }
      rewrite app_nil_l.
      destruct (decide (use_vbbm = true ∧ Exists (fun e => vss_key e = k ∧ vbFlag e = true) rem))
        as [Hd|Hd]; rewrite Hex in Hd; [|by split; [|intros []]].
      split; [done|]. intros [_ Hn]. by destruct Hn.
Qed.
