(* ===== verification/VssUndo.v ===== *)
(** * Undoing the operations of the VSS, saving and loading it

    Which operations leave a log that restores the segment exactly, and the two
    that do not: an insertion that grows the table leaves images that point into
    the segment it freed, and [commit] changes the count of locked entries
    without an image of it. *)

From S2P Require Import Prelude BinFile Hasher HashChain Undo Table Vbbm VbbmProofs Vss VssProofs VssWrite.

#[local] Opaque Hasher.

Abbreviation rec_vss := (recorded (D := delta VSSShmsegHeader Empty_set VSSEntry)).

Lemma upd_hdr_upto s (f : VSSShmsegHeader → VSSShmsegHeader) :
  rec_vss eq_upto_hdr s (upd_mem (fun m => set_hdr (f (t_hdr m)) m) s).
Proof. apply recorded_upd; [apply _| |done]. by destruct (u_mem s). Qed.

Lemma eq_upto_weaken {A} s (res : outcome A * VSS) : rec_vss (=) s res → rec_vss eq_upto_hdr s res.
Proof. apply recorded_weaken. apply eq_upto_hdr_eq. Qed.

(** An operation that starts by imaging the header may change it freely. *)
Lemma recorded_hdr {A} (rest : M VSS A) s :
  rec_vss eq_upto_hdr (makeUndoRecord (DHdr (t_hdr (u_mem s))) s).2
    (rest (makeUndoRecord (DHdr (t_hdr (u_mem s))) s).2) →
  rec_vss (=) s ((makeUndoRecord (DHdr (t_hdr (u_mem s))) ≫= fun _ => rest) s).
Proof. apply (recorded_cover (=) eq_upto_hdr). intros m Hm. exact Hm. Qed.

Lemma vss_insert_tail_recorded e s : rec_vss (=) s (vss_insert_tail e false s).
Proof.
  unfold vss_insert_tail, vss_insert_. rewrite !assoc_run. apply recorded_get.
  rewrite assoc_run. apply recorded_lift; [apply _|]. intros i _. rewrite assoc_run.
  apply recorded_hdr. rewrite makeUndoRecord_run. cbn [snd].
  rewrite assoc_run. apply recorded_bind; [apply _|apply upd_hdr_upto|]. intros _ s1 [= <-].
  rewrite !assoc_run. apply recorded_lift; [apply _|]. intros old Hold.
  destruct ((t_stor (u_mem s)).[i]) eqn:Hi; simplify_eq/=.
  rewrite !assoc_run. apply recorded_lift; [apply _|]. intros head Hhead.
  destruct ((t_buckets (u_mem s)).[_]) eqn:Hb; simplify_eq/=.
  autorewrite with run. eexists [DStor _ _; DBucket _ _; DSize _].
  split; [cbn; by rewrite <- !app_assoc|]. split; [done|].
  destruct s as [[]]. cbn in *. unfold eq_upto_hdr, set_hdr, set_stor, set_bucket. cbn.
  by rewrite !zset_zset, !zset_id.
Qed.

(** The same contract for code on a pair whose first part is the VSS. *)
Definition rec_fst {X A} (s : VSS) (res : outcome A * (VSS * X)) : Prop :=
  rec_vss eq_upto_hdr s (res.1, res.2.1).

Lemma rec_fst_bind {X A B} (op : M (VSS * X) A) (f : A → M (VSS * X) B) s x :
  rec_fst s (op (s, x)) →
  (∀ a s' x', op (s, x) = (Ret a, (s', x')) → rec_fst s' (f a (s', x'))) →
  rec_fst s ((op ≫= f) (s, x)).
Proof.
  intros H1 H2. unfold rec_fst, mbind, M_bind in *.
  destruct (op (s, x)) as [[a|e] [s' x']] eqn:Hop; cbn in *; [|done].
  specialize (H2 a s' x' eq_refl). destruct (f a (s', x')) as [r [s2 x2]]. cbn in *.
  by apply (recorded_trans eq_upto_hdr s (Ret a, s')).
Qed.

Lemma rec_fst_on {X A} (op : M VSS A) s (x : X) :
  rec_vss eq_upto_hdr s (op s) → rec_fst s (on_fst op (s, x)).
Proof. unfold rec_fst, on_fst, zoom. cbn. by destruct (op s). Qed.

Lemma rec_fst_skip {X A} (op : M X A) s (x : X) : rec_fst s (on_snd op (s, x)).
Proof. unfold rec_fst, on_snd, zoom. cbn. destruct (op x). apply (recorded_ret eq_upto_hdr s). Qed.

Lemma rec_fst_ret {X A} s (x : X) (r : outcome A) : rec_fst s (r, (s, x)).
Proof. apply (recorded_ret eq_upto_hdr s). Qed.

Lemma removeChain_recorded {X} (hook : VSSEntry → M X unit) fuel b l prev i s x :
  rec_fst s (removeChain hook fuel b l prev i (s, x)).
Proof.
  revert prev i s x. induction fuel as [|fuel IH]; intros prev i s x; cbn [removeChain];
    (case_if; [apply rec_fst_ret|]); [apply rec_fst_ret|].
  apply rec_fst_bind; [by apply rec_fst_ret|]. intros m s1 x1 [= <- <- <-].
  apply rec_fst_bind; [apply rec_fst_ret|]. intros e s2 x2 Hlift.
  unfold lift in Hlift. simplify_eq/=. case_if; [|apply IH].
  apply rec_fst_bind; [apply rec_fst_skip|]. intros _ s3 x3 _.
  apply rec_fst_bind; [apply rec_fst_on, eq_upto_weaken, unlinkEntry_recorded|]. intros _ s4 x4 _.
  apply rec_fst_bind; [apply rec_fst_on, upd_hdr_upto|]. intros _ s5 x5 _. apply IH.
Qed.

Lemma removeChain_vss_recorded fuel b l prev i s :
  rec_vss eq_upto_hdr s (removeChain_vss fuel b l prev i s).
Proof.
  pose proof (removeChain_recorded (fun _ => mret tt) fuel b l prev i s tt) as Hr.
  unfold removeChain_vss, rec_fst in *.
  by destruct (removeChain (fun _ => mret tt) fuel b l prev i (s, tt)) as [r [s' []]].
Qed.

Lemma vss_removeEntry_recorded l ver fl s : rec_vss (=) s (vss_removeEntry l ver fl s).
Proof.
  unfold vss_removeEntry. apply recorded_get, recorded_lift; [apply _|].
  intros [[index prev] bucket] _. case_if; [by apply recorded_ret; apply _|].
  apply recorded_lift; [apply _|]. intros e _.
  apply recorded_bind; [apply _|apply unlinkEntry_recorded|]. intros _ s1 _.
  apply recorded_get, recorded_hdr. set (s2 := (makeUndoRecord _ s1).2).
  apply recorded_bind; [apply _|apply upd_hdr_upto|]. intros _ s3 _.
  apply recorded_get. do 2 (apply recorded_lift; [apply _|]; intros ? _).
  destruct a0 as [[]|[]]; [|by apply recorded_ret; apply _].
  apply recorded_bind; [apply _|apply removeChain_vss_recorded|]. intros. by apply recorded_ret; apply _.
Qed.

Lemma setVBFlag_recorded l ver flag s : rec_vss (=) s (setVBFlag l ver flag s).
Proof.
  unfold setVBFlag. apply recorded_get, recorded_lift; [apply _|].
  intros [[index prev] bucket] _. case_if; [by apply recorded_ret; apply _|].
  apply recorded_lift; [apply _|]. intros e He.
  destruct ((t_stor (u_mem s)).[index]) eqn:Hi; simplify_eq/=. by apply recorded_set_stor.
Qed.

(** [commit] restores everything but the header. *)
Lemma commit_recorded txnID s : rec_vss eq_upto_hdr s (commit txnID s).
Proof.
  unfold commit. apply recorded_get, recorded_forM; [apply _|]. intros i s' _. unfold commit_slot.
  apply recorded_get, recorded_lift; [apply _|]. intros e He.
  destruct ((t_stor (u_mem s')).[i]) eqn:Hi; simplify_eq/=.
  case_if; [|by apply recorded_ret; apply _].
  apply recorded_write_k; [apply _|by apply eq_upto_hdr_eq, restore_set_stor|done|].
  apply recorded_upd; [apply _| |].
  - cbn [u_mem written]. case_if; [|reflexivity]. by destruct (set_stor i _ (u_mem s')).
  - intros d'. cbn [u_mem written]. by case_if.
Qed.

(** ** The count of locked entries after a commit that is undone *)

Definition slot_of_txn (txnID : Z) (m : VSSMem) (i : Z) : bool :=
  match (t_stor m).[i] with Some e => usedb e && (verID e =? txnID) | None => false end.

(** An image of anything but the header. *)
Definition no_hdr (r : ImageDelta (delta VSSShmsegHeader Empty_set VSSEntry)) : Prop :=
  match data r with DHdr _ | DSize _ => False | _ => True end.

Lemma copy_back_keeps_hdr log s s' :
  Forall no_hdr log → forM log copy_back s = (Ret tt, s') → t_hdr (u_mem s') = t_hdr (u_mem s).
Proof.
  revert s. induction log as [|r log IH]; intros s Hf Hr; cbn [forM] in Hr; [by injection Hr as <-|].
  apply Forall_cons in Hf as [Hh Hf]. unfold mbind, M_bind, copy_back at 1 in Hr.
  case_if; [|done]. rewrite (IH _ Hf Hr). cbn [u_mem]. unfold no_hdr in Hh. by destruct (data r).
Qed.

Lemma undoChanges_keeps_hdr (s s' : VSS) :
  Forall no_hdr (undoRecords s) → undoChanges s = (Ret tt, s') → t_hdr (u_mem s') = t_hdr (u_mem s).
Proof.
  intros Hf. unfold undoChanges, mbind, M_bind.
  destruct (forM _ copy_back s) as [[[]|] s1] eqn:Hr; [|done]. intros [= <-]. cbn [u_mem].
  apply (copy_back_keeps_hdr _ _ _ (Forall_rev Hf) Hr).
Qed.

Lemma count_ext {A} (p q : A → bool) l : (∀ x, p x = q x) → count p l = count q l.
Proof.
  intros H. unfold count. induction l as [|x l IH]; [done|]. cbn. rewrite H.
  destruct (q x); [rewrite !zlength_cons|]; by rewrite IH.
Qed.

Lemma commit_slot_count txnID i s s' :
  commit_slot txnID i s = (Ret tt, s') → 0 ≤ lockedEntryCount (t_hdr (u_mem s)) →
  Forall no_hdr (undoRecords s) →
  Forall no_hdr (undoRecords s') ∧
  lockedEntryCount (t_hdr (u_mem s')) =
    (if slot_of_txn txnID (u_mem s) i then Z.max 0 (lockedEntryCount (t_hdr (u_mem s)) - 1)
     else lockedEntryCount (t_hdr (u_mem s))) ∧
  ∀ j, slot_of_txn txnID (u_mem s') j = slot_of_txn txnID (u_mem s) j.
Proof.
  intros Hr Hc Hf. unfold commit_slot in Hr. autorewrite with run in Hr. unfold slot_of_txn.
  destruct ((t_stor (u_mem s)).[i]) as [e|] eqn:Hi; cbn [deref] in Hr; [|done].
  rewrite lift_run in Hr. destruct (usedb e && (verID e =? txnID)) eqn:He; [|by injection Hr as <-].
  autorewrite with run in Hr. injection Hr as <-. cbn [u_mem undoRecords]. split_and!.
  - apply Forall_app. split; [done|]. by constructor.
  - case_if; zbool; cbn; lia.
  - intros j. match goal with |- context [t_stor ?m] => match m with context [if _ then _ else _] =>
      replace (t_stor m) with ((t_stor (u_mem s)).[i <- mkVSS (lbid e) (verID e) (vbFlag e) false (next e)])
        by by case_if end end.
    rewrite (zget_zset _ _ _ _ _ Hi). case_decide; [subst; rewrite Hi|done]. reflexivity.
Qed.

Lemma commit_slots_count txnID slots s s' :
  forM slots (commit_slot txnID) s = (Ret tt, s') → 0 ≤ lockedEntryCount (t_hdr (u_mem s)) →
  Forall no_hdr (undoRecords s) →
  Forall no_hdr (undoRecords s') ∧
  lockedEntryCount (t_hdr (u_mem s')) =
    Z.max 0 (lockedEntryCount (t_hdr (u_mem s)) - count (slot_of_txn txnID (u_mem s)) slots).
Proof.
  revert s. induction slots as [|i slots IH]; intros s Hr Hc Hf; cbn [forM] in Hr.
  { injection Hr as <-. split; [done|]. unfold count, zlength. cbn. lia. }
  set (s1 := (commit_slot txnID i s).2).
  assert (commit_slot txnID i s = (Ret tt, s1) ∧ forM slots (commit_slot txnID) s1 = (Ret tt, s')) as [Hr1 Hr2].
  { unfold mbind, M_bind in Hr. unfold s1. destruct (commit_slot txnID i s) as [[[]|] ?]; [done|by simplify_eq]. }
  destruct (commit_slot_count txnID i s s1 Hr1 Hc Hf) as (Hf1 & Hc1 & Hp1).
  destruct (IH s1 Hr2) as [Hf2 Hc2]; [case_if; lia|done|]. split; [done|].
  rewrite Hc2, (count_ext _ _ slots Hp1), Hc1. unfold count. cbn [List.filter].
  pose proof (zlength_nonneg (List.filter (slot_of_txn txnID (u_mem s)) slots)).
  destruct (slot_of_txn txnID (u_mem s) i); [rewrite zlength_cons|]; lia.
Qed.

Lemma removeEntriesFromDB_recorded r use_vbbm s (b : VBBM) :
  let res := removeEntriesFromDB r use_vbbm (s, b) in rec_vss (=) s (res.1, res.2.1).
Proof.
  unfold removeEntriesFromDB. erewrite bind_ret by by apply on_fst_run.
  erewrite bind_ret by (apply on_fst_run; apply makeUndoRecord_run).
  set (s1 := mkUndoable (u_mem s) _). set (ls := zseq _ _).
  assert (∀ s b, rec_fst s (forM ls (removeBlock use_vbbm) (s, b))) as Hf.
  { induction ls as [|l ls IH]; intros s2 b2; cbn [forM]; [apply rec_fst_ret|].
    apply rec_fst_bind; [|intros; apply IH]. unfold removeBlock.
    apply rec_fst_bind; [apply rec_fst_ret|]. intros m s3 x3 [= <- <- <-].
    apply rec_fst_bind; [apply rec_fst_ret|]. intros h s4 x4 Hl. unfold lift in Hl. simplify_eq/=.
    apply removeChain_recorded. }
  specialize (Hf s1 b). unfold rec_fst in Hf.
  destruct (forM ls (removeBlock use_vbbm) (s1, b)) as [o [s2 b2]]. cbn in *.
  destruct Hf as (ds & Hl & Hs & He). exists (DHdr (t_hdr (u_mem s)) :: ds). split; [|split].
  - cbn in *. rewrite Hl, <- app_assoc. done.
  - done.
  - cbn. by apply restore_hdr_upto.
Qed.

(** ** Growing and undoing *)

Lemma vss_chooseShmkey_fresh info :
  - 2 ^ 31 ≤ tableShmkey info < 2 ^ 31 → vss_chooseShmkey info ≠ tableShmkey info.
Proof.
  intros Hr. unfold vss_chooseShmkey. destruct (_ || _) eqn:Hc; [|lia]. zbool.
  unfold KEYRANGE_VSS_BASE, KEYRANGE_SIZE in *. destruct Hc as [Hc|Hc]; zbool; [lia|].
  intros Heq. rewrite <- Heq in Hc. vm_compute in Hc. done.
Qed.

Lemma vss_insert_eq l ver vbf lck s :
  vss_insert l ver vbf lck false s =
    ((if currentSize (t_hdr (u_mem s)) =? capacity (t_hdr (u_mem s)) then growVSS else mret tt)
       ≫= fun _ => vss_insert_tail (mkVSS l ver vbf lck (-1)) false) s.
Proof. done. Qed.

Lemma vss_insert_undo_spec l ver vbf lck s :
  undoRecords s = [] → currentSize (t_hdr (u_mem s)) ≠ capacity (t_hdr (u_mem s)) →
  undoChanges (vss_insert l ver vbf lck false s).2 = (Ret tt, mkUndoable (u_mem s) []).
Proof.
  intros H0 Hne. apply recorded_undo; [done|]. rewrite vss_insert_eq.
  assert (_ =? _ = false) as -> by by apply Z.eqb_neq. rewrite mret_run.
  apply vss_insert_tail_recorded.
Qed.

(** A full table: the images taken before the growth point into the old segment. *)
Lemma vss_insert_grow_undo_spec l ver vbf lck s log r :
  vss_inv (u_mem s) → currentSize (t_hdr (u_mem s)) = capacity (t_hdr (u_mem s)) →
  - 2 ^ 31 ≤ tableShmkey (t_info (u_mem s)) < 2 ^ 31 →
  undoRecords s = log ++ [r] → start r = tableShmkey (t_info (u_mem s)) →
  (undoChanges (vss_insert l ver vbf lck false s).2).1 = Exn Segfault.
Proof.
  intros Hinv Hfull Hkey Hlog Hstart. rewrite vss_insert_eq, Hfull, Z.eqb_refl.
  destruct (growVSS_spec s Hinv Hfull) as (s1 & Hr1 & Hg & _). rewrite (bind_ret _ _ _ _ _ Hr1).
  destruct Hg as (Hl1 & Hk1 & _).
  apply (stale_undo_faults (=) s1 _ r log); [congruence|apply vss_insert_tail_recorded|].
  cbn. rewrite Hstart, Hk1. intros Heq. by apply (vss_chooseShmkey_fresh (t_info (u_mem s))).
Qed.

(** What an insertion without growth does to the counters. *)
Lemma vss_insert_tail_counts e s s' :
  used e → vss_inv (u_mem s) → currentSize (t_hdr (u_mem s)) < capacity (t_hdr (u_mem s)) →
  vss_insert_tail e false s = (Ret tt, s') →
  currentSize (t_hdr (u_mem s')) = currentSize (t_hdr (u_mem s)) + 1 ∧
  capacity (t_hdr (u_mem s')) = capacity (t_hdr (u_mem s)).
Proof.
  intros Hu [Hs Hsz Huq] Hlt.
  destruct (vss_insert__spec e false s Hu Hs ltac:(lia)) as (s1 & Hrun & Hs1 & (Hi & Hc & Hcs & _) & _).
  unfold vss_insert_tail. rewrite (bind_ret _ _ _ _ _ Hrun). autorewrite with run.
  intros [= <-]. cbn [u_mem t_hdr set_hdr]. rewrite <- Hc, <- Hcs. by case_if.
Qed.

Lemma vss_insert_recorded l ver vbf lck s :
  currentSize (t_hdr (u_mem s)) < capacity (t_hdr (u_mem s)) →
  rec_vss (=) s (vss_insert l ver vbf lck false s).
Proof.
  intros Hlt. rewrite vss_insert_eq. assert (_ =? _ = false) as -> by (apply Z.eqb_neq; lia).
  rewrite mret_run. apply vss_insert_tail_recorded.
Qed.

(** * Saving and loading *)



Definition vss_entry_fits (e : VSSEntry) : bool :=
  fits_s 8 (lbid e) && fits_s 4 (verID e) && fits_s 4 (next e).

Lemma bool_of_byte_of b : bool_of_byte (byte_of_bool b) = b.
Proof. by destruct b. Qed.

Lemma vss_entry_of_bytes e : vss_entry_fits e = true → vss_entry_of (vss_entry_bytes e) = e.
Proof.
  unfold vss_entry_fits. intros. zbool. unfold vss_entry_of, vss_entry_bytes.
  destruct e as [z1 z2 b1 b2 z3]. cbn [lbid verID vbFlag locked next] in *.
  assert (∀ b, fits_u 1 (byte_of_bool b) = true) as Hb by by intros [].
  f_equal; solve_field; rewrite ?bool_of_byte_of; done.
Qed.

Lemma length_vss_entry_bytes e : length (vss_entry_bytes e) = 24%nat.
Proof. unfold vss_entry_bytes. by rewrite !length_app, !length_le_bytes. Qed.

Definition vss_load_entry (e : VSSEntry) : M VSS unit :=
  vss_insert (lbid e) (verID e) (vbFlag e) (locked e) true.

Lemma vss_loadEntries_bytes l s :
  Forall (fun e => vss_entry_fits e = true) l →
  vss_loadEntries (length l) (l ≫= vss_entry_bytes) s = forM l vss_load_entry s.
Proof.
  intros Hl. revert s. induction Hl as [|e l He _ IH]; intros s; [done|].
  cbn [length vss_loadEntries forM]. rewrite bind_cons, read_app by apply length_vss_entry_bytes.
  rewrite vss_entry_of_bytes by done. fold (vss_load_entry e).
  unfold mbind, M_bind. destruct (vss_load_entry e s) as [[[]|] ?]; [|done]. apply IH.
Qed.

Definition vss_pair (e : VSSEntry) : (Z * Z) * (bool * bool) := (vss_key e, vss_flags e).

Lemma vss_load_list l s :
  Forall used l → NoDup (vss_key <$> l) → vss_inv (u_mem s) →
  (∀ e, e ∈ l → vss_abs (u_mem s) !! vss_key e = None) →
  ∃ s', forM l vss_load_entry s = (Ret tt, s') ∧ vss_inv (u_mem s') ∧
        vss_abs (u_mem s') = list_to_map (vss_pair <$> l) ∪ vss_abs (u_mem s) ∧
        lockedEntryCount (t_hdr (u_mem s')) =
          lockedEntryCount (t_hdr (u_mem s)) + count locked l.
Proof.
  intros Hl. revert s. induction Hl as [|e l He Hl IH]; intros s Hnd Hinv Hnew.
  - exists s. csimpl. rewrite map_empty_union. split_and!; try done. unfold count, zlength. cbn. lia.
  - csimpl in Hnd. apply NoDup_cons in Hnd as [Hni Hnd].
    destruct (vss_insert_spec (lbid e) (verID e) (vbFlag e) (locked e) true s He Hinv)
      as (s1 & Hr1 & Hinv1 & Ha1 & Hc1); [apply (Hnew e); set_solver|].
    destruct (IH s1 Hnd Hinv1) as (s2 & Hr2 & Hinv2 & Ha2 & Hc2).
    { intros e' He'. rewrite Ha1, lookup_insert_ne; [apply Hnew; set_solver|].
      intros Heq. apply Hni. change (vss_key e = vss_key e') in Heq. rewrite Heq.
      by apply list_elem_of_fmap_2. }
    exists s2. cbn [forM]. unfold mbind, M_bind, vss_load_entry at 1. rewrite Hr1.
    split; [done|]. split; [done|]. split.
    + rewrite Ha2, Ha1. csimpl. change (lbid e, verID e) with (vss_key e).
      rewrite <- insert_union_l, insert_union_r; [done|].
      apply not_elem_of_list_to_map. by rewrite <- list_fmap_compose.
    + rewrite Hc2, Hc1. unfold count. cbn [List.filter].
      destruct (locked e); rewrite ?zlength_cons; lia.
Qed.

(** A table the file format can hold. *)
Record vss_saveable (m : VSSMem) : Prop := mkVssSaveable {
  vsv_inv : vss_inv m;
  vsv_size : currentSize (t_hdr m) < 2 ^ 31;
  vsv_entries : Forall (fun e => vss_entry_fits e = true) (storage_of m);
}.

Lemma storage_of_all m : vss_inv m → storage_of m = List.filter usedb (t_stor m).
Proof.
  intros [[_ Hc] _ _]. unfold storage_of. rewrite take_ge; [done|]. unfold zlength in Hc. lia.
Qed.

Lemma vss_growForLoad_spec n s :
  ∃ s', vss_growForLoad n s = (Ret tt, s') ∧ vss_inv (u_mem s') ∧ vss_abs (u_mem s') = ∅ ∧
        lockedEntryCount (t_hdr (u_mem s')) = 0 ∧ undoRecords s' = [].
Proof.
  unfold vss_growForLoad.
  set (c1 := if n <? VSSSTORAGE_INITIAL_COUNT then _ else _).
  set (c2 := if c1 mod VSSSTORAGE_INCREMENT_COUNT =? 0 then c1 else _).
  assert (200000 ≤ c1) as H1.
  { unfold c1, VSSSTORAGE_INITIAL_COUNT. case_if; lia. }
  assert (10 ≤ c2) as H2.
  { unfold c2, VSSSTORAGE_INCREMENT_COUNT. case_if; [lia|].
    pose proof (Z.div_pos c1 20000 ltac:(lia) ltac:(lia)). lia. }
  eexists. split; [reflexivity|]. cbn [u_mem].
  edestruct vss_empty_inv as (Hi & Ha); cycle 2.
  - split; [exact Hi|]. split; [exact Ha|]. done.
  - lia.
  - apply Z.div_str_pos. lia.
Qed.

Lemma vss_load_save_spec m s :
  vss_saveable m →
  ∃ s', vss_load (Some (vss_save m)) s = (Ret tt, s') ∧ vss_inv (u_mem s') ∧
        vss_abs (u_mem s') = vss_abs m ∧
        lockedEntryCount (t_hdr (u_mem s')) = count locked (storage_of m).
Proof.
  intros [Hm Hsz Hfit]. pose proof (vss_size_range _ Hm) as Hr. unfold vss_load, vss_save.
  rewrite app_assoc, read_app by (by rewrite length_app, !length_le_bytes).
  assert (get_s (field 0 4 (le_bytes 4 VSS_MAGIC_V1 ++ le_bytes 4 (currentSize (t_hdr m)))) = VSS_MAGIC_V1) as ->.
  { rewrite field_0 by apply length_le_bytes. by rewrite get_s_bytes by (lia || done). }
  assert (get_s (field 4 4 (le_bytes 4 VSS_MAGIC_V1 ++ le_bytes 4 (currentSize (t_hdr m)))) =
          currentSize (t_hdr m)) as ->.
  { rewrite field_app by (by rewrite length_le_bytes). rewrite length_le_bytes, Nat.sub_diag.
    rewrite field_all by apply length_le_bytes. by rewrite get_s_bytes by (lia || (apply fits_s4; lia)). }
  rewrite Z.eqb_refl. cbn [negb]. assert (currentSize (t_hdr m) <? 0 = false) as -> by (apply Z.ltb_ge; lia).
  destruct (vss_growForLoad_spec (currentSize (t_hdr m)) s) as (s1 & Hr1 & Hi1 & Ha1 & Hc1 & _).
  rewrite (bind_ret _ _ _ _ _ Hr1).
  assert (Z.to_nat (currentSize (t_hdr m)) = length (storage_of m)) as ->.
  { rewrite (si_size _ Hm), <- count_entries, storage_of_all by done. unfold count, zlength. lia. }
  rewrite vss_loadEntries_bytes by done. rewrite storage_of_all in * by done.
  destruct (vss_load_list (List.filter usedb (t_stor m)) s1) as (s2 & Hr2 & Hi2 & Ha2 & Hc2).
  - apply used_filter.
  - pose proof (si_unique _ Hm) as Hu. unfold keys_unique in Hu. rewrite <- entries_filter, <- list_fmap_compose in Hu.
    exact Hu.
  - done.
  - intros e _. by rewrite Ha1.
  - exists s2. split; [done|]. split; [done|]. split; [|lia]. rewrite Ha2, Ha1, map_union_empty.
    unfold vss_abs, tabmap. rewrite <- list_to_map_fmap, <- entries_filter.
    f_equal. rewrite <- !list_fmap_compose. by apply list_fmap_ext.
Qed.
