(* ===== verification/CopyLocks.v ===== *)
(** * Copy locks ([copylocks.h], [copylocks.cpp])

    While blocks are copied to the version buffer, or read by PrimProc, their
    ranges are locked by entries in a shared array; an entry of size 0 is free.
    Changes are imaged in the undo log: the entries lie in the copy lock
    segment, the [MSTEntry] in the master segment table, which stays mapped. *)

From S2P Require Import Prelude Undo Table Vbbm Vss.

(** ** Data *)

Record CopyLockEntry := mkCL { cl_start : Z; cl_size : Z; cl_txnID : Z }.

#[global] Instance CopyLockEntry_eq_dec : EqDecision CopyLockEntry.
Proof. solve_decision. Defined.

(** [shminfo], the segment mapped ([currentShmkey]) and the array in it. *)
Record CLMem := mkCLMem {
  cl_shminfo : MSTEntry;
  currentShmkey : Z;
  cl_entries : list CopyLockEntry;
}.

Inductive cl_delta :=
  | CLEntry (i : Z) (e : CopyLockEntry)
  | CLInfo (info : MSTEntry).

Definition sizeof_CopyLockEntry : Z := 16.
Definition CL_INITIAL_SIZE : Z := 50 * sizeof_CopyLockEntry.
Definition CL_INCREMENT : Z := 50 * sizeof_CopyLockEntry.
Definition KEYRANGE_CL_BASE : Z := 0x50000.

Definition set_entry (i : Z) (e : CopyLockEntry) (m : CLMem) : CLMem :=
  mkCLMem (cl_shminfo m) (currentShmkey m) ((cl_entries m).[i <- e]).
Definition set_shminfo (info : MSTEntry) (m : CLMem) : CLMem :=
  mkCLMem info (currentShmkey m) (cl_entries m).

#[global] Instance cl_restorable : Restorable cl_delta CLMem := {
  restore d m :=
    match d with
    | CLEntry i e => set_entry i e m
    | CLInfo info => set_shminfo info m
    end;
  segment_of d m := match d with CLEntry _ _ => currentShmkey m | CLInfo _ => 0 end;
  delta_size d := match d with CLEntry _ _ => sizeof_CopyLockEntry | CLInfo _ => 12 end;
}.

Abbreviation CopyLocks := (undoable cl_delta CLMem).

Definition add_currentSize (n : Z) (info : MSTEntry) : MSTEntry :=
  mkMST (tableShmkey info) (allocdSize info) (mst_currentSize info + n).

(** ** Operations *)

Definition numEntries (m : CLMem) : Z := allocdSize (cl_shminfo m) / sizeof_CopyLockEntry.

(** [CopyLocks::chooseShmkey] *)
Definition cl_chooseShmkey (info : MSTEntry) : Z :=
  if (tableShmkey info + 1 =? KEYRANGE_CL_BASE + KEYRANGE_SIZE - 1)
     || (u32 (tableShmkey info) <? KEYRANGE_CL_BASE)
  then KEYRANGE_CL_BASE + 1
  else tableShmkey info + 1.

(** [CopyLocks::growCL]: the new segment starts with the old contents and is
    zero beyond them; the undo log is dropped. *)
Definition growCL : M CopyLocks unit := fun s =>
  let m := u_mem s in
  let alloc := if allocdSize (cl_shminfo m) =? 0 then CL_INITIAL_SIZE
               else allocdSize (cl_shminfo m) + CL_INCREMENT in
  let key := cl_chooseShmkey (cl_shminfo m) in
  let n := Z.to_nat (alloc / sizeof_CopyLockEntry) in
  let ents := cl_entries m ++ replicate (n - length (cl_entries m)) (mkCL 0 0 0) in
  (Ret tt, mkUndoable (mkCLMem (mkMST key alloc (mst_currentSize (cl_shminfo m))) key ents) []).

(** The scan of [lockRange]: store into the first free entry. *)
Fixpoint lock_scan (slots : list Z) (e : CopyLockEntry) : M CopyLocks unit :=
  match slots with
  | [] => throw LogicError
  | i :: slots' =>
      m ← get_mem;
      old ← lift (deref ((cl_entries m).[i]));
      if cl_size old =? 0 then
        makeUndoRecord (CLEntry i old) ≫= fun _ =>
        upd_mem (set_entry i e) ≫= fun _ =>
        makeUndoRecord (CLInfo (cl_shminfo m)) ≫= fun _ =>
        upd_mem (fun m => set_shminfo (add_currentSize sizeof_CopyLockEntry (cl_shminfo m)) m)
      else lock_scan slots' e
  end.

(** [CopyLocks::lockRange] *)
Definition lockRange (l : LBIDRange) (txnID : Z) : M CopyLocks unit :=
  m ← get_mem;
  (if mst_currentSize (cl_shminfo m) =? allocdSize (cl_shminfo m) then growCL else mret tt) ≫= fun _ =>
  m ← get_mem;
  lock_scan (zseq 0 (numEntries m)) (mkCL (range_start l) (range_size l) txnID).

(** Entry [e] is in use and intersects [l]. *)
Definition intersects (l : LBIDRange) (e : CopyLockEntry) : bool :=
  negb (cl_size e =? 0) && (range_start l <=? cl_start e + cl_size e - 1)
  && (cl_start e <=? range_start l + range_size l - 1).

(** The loop shared by the releasing functions: free the entries that pass [p]. *)
Definition free_slot (p : CopyLockEntry → bool) (i : Z) : M CopyLocks unit :=
  m ← get_mem;
  e ← lift (deref ((cl_entries m).[i]));
  if p e then
    makeUndoRecord (CLEntry i e) ≫= fun _ =>
    upd_mem (set_entry i (mkCL (cl_start e) 0 (cl_txnID e))) ≫= fun _ =>
    makeUndoRecord (CLInfo (cl_shminfo m)) ≫= fun _ =>
    upd_mem (fun m => set_shminfo (add_currentSize (- sizeof_CopyLockEntry) (cl_shminfo m)) m)
  else mret tt.

(** [CopyLocks::releaseRange] *)
Definition releaseRange (l : LBIDRange) : M CopyLocks unit :=
  m ← get_mem;
  forM (zseq 0 (numEntries m)) (free_slot (intersects l)).

(** [CopyLocks::forceRelease] *)
Definition forceRelease (l : LBIDRange) : M CopyLocks unit :=
  m ← get_mem;
  forM (zseq 0 (numEntries m)) (free_slot (intersects l)).

(** [CopyLocks::rollback] *)
Definition cl_rollback (txnID : Z) : M CopyLocks unit :=
  m ← get_mem;
  forM (zseq 0 (numEntries m))
    (free_slot (fun e => negb (cl_size e =? 0) && (cl_txnID e =? txnID))).

(** [CopyLocks::isLocked] *)
Definition cl_isLocked (l : LBIDRange) (m : CLMem) : bool :=
  existsb (intersects l) (take (Z.to_nat (numEntries m)) (cl_entries m)).

(** [CopyLocks::getCurrentTxnIDs] *)
Definition cl_getCurrentTxnIDs (m : CLMem) (l : gset Z) : gset Z :=
  l ∪ list_to_set (cl_txnID <$> List.filter (fun e => negb (cl_size e =? 0))
                     (take (Z.to_nat (numEntries m)) (cl_entries m))).

(** ** Theory *)

#[global] Instance cl_restorable_laws : RestorableLaws cl_delta CLMem.
Proof.
  split; [by intros [] []|]. intros []; vm_compute; discriminate.
Qed.

Definition live (e : CopyLockEntry) : bool := negb (cl_size e =? 0).

(** The locks held. *)
Definition locks (m : CLMem) : list CopyLockEntry := List.filter live (cl_entries m).

Record cl_inv (m : CLMem) : Prop := mkClInv {
  ci_alloc : allocdSize (cl_shminfo m) = sizeof_CopyLockEntry * zlength (cl_entries m);
  ci_size : mst_currentSize (cl_shminfo m) = sizeof_CopyLockEntry * zlength (locks m);
}.

Lemma numEntries_inv m : cl_inv m → numEntries m = zlength (cl_entries m).
Proof.
  intros [Ha _]. unfold numEntries. rewrite Ha, Z.mul_comm. by apply Z.div_mul.
Qed.

Lemma take_all_entries m : cl_inv m → take (Z.to_nat (numEntries m)) (cl_entries m) = cl_entries m.
Proof. intros Hm. rewrite numEntries_inv by done. apply take_ge. unfold zlength. lia. Qed.

(** [isLocked] asks whether a lock held intersects the range. *)
Lemma cl_isLocked_spec m l : cl_inv m → cl_isLocked l m = existsb (intersects l) (locks m).
Proof.
  intros Hm. unfold cl_isLocked, locks. rewrite take_all_entries by done.
  induction (cl_entries m) as [|e es IH]; [done|]. simpl. unfold live at 1.
  destruct (negb (cl_size e =? 0)) eqn:He; simpl; [by rewrite IH|].
  unfold intersects at 1. by rewrite He.
Qed.

(** Replacing one entry of the array. *)
Lemma locks_set (es : list CopyLockEntry) i e e' :
  es.[i] = Some e →
  ∃ r1 r2, List.filter live es = r1 ++ (if live e then [e] else []) ++ r2 ∧
           List.filter live (es.[i <- e']) = r1 ++ (if live e' then [e'] else []) ++ r2.
Proof.
  intros Hi. pose proof (zget_range _ _ _ Hi) as Hr. unfold zget in Hi. unfold zset.
  destruct (i <? 0) eqn:?; [done|]. zbool.
  exists (List.filter live (take (Z.to_nat i) es)), (List.filter live (drop (S (Z.to_nat i)) es)).
  split.
  - rewrite <- (take_drop_middle es (Z.to_nat i) e Hi) at 1. rewrite List.filter_app. simpl.
    by destruct (live e).
  - rewrite insert_take_drop by by eapply lookup_lt_Some. rewrite List.filter_app. simpl.
    by destruct (live e').
Qed.

Lemma growCL_spec s :
  cl_inv (u_mem s) →
  ∃ s', growCL s = (Ret tt, s') ∧ cl_inv (u_mem s') ∧ locks (u_mem s') = locks (u_mem s) ∧
        zlength (cl_entries (u_mem s')) = zlength (cl_entries (u_mem s)) + 50 ∧ undoRecords s' = [].
Proof.
  intros [Ha Hs]. unfold growCL. eexists. split; [reflexivity|]. cbn [u_mem].
  set (ents := cl_entries (u_mem s)) in *.
  assert ((if allocdSize (cl_shminfo (u_mem s)) =? 0 then CL_INITIAL_SIZE
           else allocdSize (cl_shminfo (u_mem s)) + CL_INCREMENT)
          = sizeof_CopyLockEntry * (zlength ents + 50)) as Halloc.
  { rewrite Ha. unfold CL_INITIAL_SIZE, CL_INCREMENT, sizeof_CopyLockEntry. case_if; lia. }
  rewrite Halloc. pose proof (zlength_nonneg ents).
  assert (Z.to_nat (sizeof_CopyLockEntry * (zlength ents + 50) / sizeof_CopyLockEntry) =
          (length ents + 50)%nat) as ->.
  { rewrite Z.mul_comm, Z.div_mul by done. unfold zlength. lia. }
  replace (length ents + 50 - length ents)%nat with 50%nat by lia.
  set (ents' := ents ++ _).
  assert (List.filter live ents' = List.filter live ents) as Hlocks.
  { unfold ents'. rewrite List.filter_app. cbn. by rewrite app_nil_r. }
  assert (zlength ents' = zlength ents + 50) as Hlen.
  { unfold ents'. by rewrite zlength_app. }
  split_and!; try done. split; unfold locks; cbn [cl_shminfo cl_entries allocdSize mst_currentSize].
  - by rewrite Hlen.
  - by rewrite Hlocks.
Qed.

Lemma lock_scan_spec e pre suf s :
  cl_entries (u_mem s) = pre ++ suf → Exists (fun e => live e = false) suf → live e = true →
  ∃ s' i e0, lock_scan (zseq (zlength pre) (zlength suf)) e s = (Ret tt, s') ∧
    (cl_entries (u_mem s)).[i] = Some e0 ∧ live e0 = false ∧
    u_mem s' = set_shminfo (add_currentSize sizeof_CopyLockEntry (cl_shminfo (u_mem s)))
                 (set_entry i e (u_mem s)).
Proof.
  revert pre. induction suf as [|x suf IH]; intros pre Hes Hex Hl; [by apply Exists_nil in Hex|].
  rewrite zlength_cons, zseq_cons by apply zlength_nonneg. cbn [lock_scan]. autorewrite with run.
  rewrite Hes, zget_middle. cbn [deref]. rewrite lift_run.
  destruct (cl_size x =? 0) eqn:Hx.
  - autorewrite with run. eexists _, (zlength pre), x. split; [reflexivity|].
    rewrite zget_middle. split_and!; [done| |done]. unfold live. by rewrite Hx.
  - destruct (IH (pre ++ [x])) as (s' & i & e0 & Hr & Hi & He0 & Hm); try done.
    + by rewrite <- app_assoc.
    + apply Exists_cons in Hex as [Hd|]; [|done]. unfold live in Hd. by rewrite Hx in Hd.
    + rewrite zlength_app in Hr. change (zlength [x]) with 1 in Hr.
      rewrite Hes in Hi. exists s', i, e0. done.
Qed.

Lemma lock_full m : cl_inv m → mst_currentSize (cl_shminfo m) ≠ allocdSize (cl_shminfo m) →
  Exists (fun e => live e = false) (cl_entries m).
Proof.
  intros [Ha Hs] Hne. destruct (decide (Forall (fun e => live e = true) (cl_entries m))) as [Hall|Hex].
  - exfalso. apply Hne. rewrite Ha, Hs. unfold locks. rewrite forallb_filter_id; [done|].
    apply forallb_forall. intros x Hx. rewrite Forall_forall in Hall. by apply Hall, list_elem_of_In.
  - apply not_Forall_Exists in Hex; [|apply _]. eapply Exists_impl; [exact Hex|].
    intros x Hx. by apply not_true_is_false.
Qed.

Lemma lockRange_spec l txnID s :
  cl_inv (u_mem s) → 0 < range_size l →
  ∃ s', lockRange l txnID s = (Ret tt, s') ∧ cl_inv (u_mem s') ∧
        locks (u_mem s') ≡ₚ mkCL (range_start l) (range_size l) txnID :: locks (u_mem s).
Proof.
  intros Hinv Hl. unfold lockRange. autorewrite with run. set (e := mkCL _ _ _).
  assert (∃ s1, (if mst_currentSize (cl_shminfo (u_mem s)) =? allocdSize (cl_shminfo (u_mem s))
                 then growCL else mret tt) s = (Ret tt, s1) ∧ cl_inv (u_mem s1) ∧
                locks (u_mem s1) = locks (u_mem s) ∧
                Exists (fun e => live e = false) (cl_entries (u_mem s1)))
    as (s1 & Hr1 & Hi1 & Hlk1 & Hex).
  { case_if.
    - destruct (growCL_spec s Hinv) as (s1 & Hr1 & Hi1 & Hlk1 & Hlen & _). exists s1.
      split_and!; try done. apply lock_full; [done|]. destruct Hi1 as [-> ->], Hinv as [Ha Hs].
      unfold sizeof_CopyLockEntry in *. rewrite Hlk1, Hlen. lia.
    - exists s. split_and!; try done. by apply lock_full. }
  rewrite (bind_ret _ _ _ _ _ Hr1). autorewrite with run. rewrite numEntries_inv by done.
  assert (live e = true) as Hlive.
  { unfold live, e. cbn. destruct (range_size l =? 0) eqn:?; [|done]. zbool. lia. }
  destruct (lock_scan_spec e [] (cl_entries (u_mem s1)) s1) as (s' & i & e0 & Hr & Hi & He0 & Hm); try done.
  exists s'. split; [done|].
  destruct (locks_set _ i e0 e Hi) as (r1 & r2 & H1 & H2). rewrite He0 in H1. rewrite Hlive in H2.
  assert (locks (u_mem s') ≡ₚ e :: locks (u_mem s1)) as Hperm.
  { unfold locks. rewrite Hm. cbn [cl_entries set_shminfo set_entry]. rewrite H1, H2. cbn.
    symmetry. apply Permutation_middle. }
  split; [|by rewrite <- Hlk1]. destruct Hi1 as [Ha Hs]. split; rewrite Hm; cbn [cl_shminfo set_shminfo add_currentSize allocdSize mst_currentSize cl_entries set_entry].
  - by rewrite zlength_zset.
  - rewrite <- Hm, Hperm, zlength_cons, Hs. unfold sizeof_CopyLockEntry. lia.
Qed.

(** ** Releasing *)

Definition freed (p : CopyLockEntry → bool) (e : CopyLockEntry) : CopyLockEntry :=
  if p e then mkCL (cl_start e) 0 (cl_txnID e) else e.

Lemma free_slots_spec p pre suf s :
  cl_entries (u_mem s) = pre ++ suf →
  ∃ s', forM (zseq (zlength pre) (zlength suf)) (free_slot p) s = (Ret tt, s') ∧
    cl_entries (u_mem s') = pre ++ (freed p <$> suf) ∧
    allocdSize (cl_shminfo (u_mem s')) = allocdSize (cl_shminfo (u_mem s)) ∧
    mst_currentSize (cl_shminfo (u_mem s')) =
      mst_currentSize (cl_shminfo (u_mem s)) - sizeof_CopyLockEntry * count p suf.
Proof.
  revert pre s. induction suf as [|x suf IH]; intros pre s Hes.
  { exists s. split_and!; try done. unfold count, zlength. cbn. lia. }
  rewrite zlength_cons, zseq_cons by apply zlength_nonneg. cbn [forM].
  assert (∃ s1, free_slot p (zlength pre) s = (Ret tt, s1) ∧
            cl_entries (u_mem s1) = (pre ++ [freed p x]) ++ suf ∧
            allocdSize (cl_shminfo (u_mem s1)) = allocdSize (cl_shminfo (u_mem s)) ∧
            mst_currentSize (cl_shminfo (u_mem s1)) =
              mst_currentSize (cl_shminfo (u_mem s)) - sizeof_CopyLockEntry * (if p x then 1 else 0))
    as (s1 & Hr1 & He1 & Ha1 & Hc1).
  { unfold free_slot. autorewrite with run. rewrite Hes, zget_middle. cbn [deref]. rewrite lift_run.
    unfold freed. destruct (p x).
    - autorewrite with run. eexists. split; [reflexivity|].
      cbn [u_mem cl_entries cl_shminfo set_shminfo set_entry add_currentSize allocdSize mst_currentSize].
      split_and!; [|done|lia]. by rewrite Hes, zset_middle, <- app_assoc.
    - exists s. split_and!; [done|by rewrite <- app_assoc|done|lia]. }
  rewrite (bind_ret _ _ _ _ _ Hr1).
  destruct (IH (pre ++ [freed p x]) s1 He1) as (s2 & Hr2 & He2 & Ha2 & Hc2).
  rewrite zlength_app in Hr2. change (zlength [freed p x]) with 1 in Hr2.
  exists s2. split; [done|]. split; [by rewrite He2, <- app_assoc|]. split; [congruence|].
  rewrite Hc2, Hc1. unfold count. cbn [List.filter]. destruct (p x); rewrite ?zlength_cons; lia.
Qed.

Lemma locks_freed p es :
  (∀ e, p e = true → live e = true) →
  List.filter live (freed p <$> es) = List.filter (fun e => negb (p e)) (List.filter live es) ∧
  zlength (List.filter live (freed p <$> es)) = zlength (List.filter live es) - count p es.
Proof.
  intros Hp. unfold count. induction es as [|e es [IH1 IH2]]; [done|].
  rewrite fmap_cons. cbn [List.filter]. destruct (p e) eqn:Hpe.
  - assert (live (freed p e) = false) as -> by (unfold freed; by rewrite Hpe).
    rewrite (Hp e Hpe). cbn [List.filter]. rewrite Hpe. cbn [negb]. rewrite !zlength_cons.
    split; [done|lia].
  - assert (freed p e = e) as -> by (unfold freed; by rewrite Hpe).
    destruct (live e); cbn [List.filter]; [|done]. rewrite Hpe. cbn [negb].
    rewrite !zlength_cons. split; [by f_equal|lia].
Qed.

Lemma free_all_spec p s :
  cl_inv (u_mem s) → (∀ e, p e = true → live e = true) →
  ∃ s', forM (zseq 0 (numEntries (u_mem s))) (free_slot p) s = (Ret tt, s') ∧ cl_inv (u_mem s') ∧
        locks (u_mem s') = List.filter (fun e => negb (p e)) (locks (u_mem s)).
Proof.
  intros Hinv Hp. rewrite numEntries_inv by done.
  destruct (free_slots_spec p [] (cl_entries (u_mem s)) s) as (s' & Hr & He & Ha & Hc); [done|].
  exists s'. split; [done|]. destruct (locks_freed p (cl_entries (u_mem s)) Hp) as [Hf Hlen].
  cbn [app] in He. destruct Hinv as [Ha0 Hs0]. unfold locks. rewrite He. split; [split|done].
  - rewrite Ha, Ha0, He. unfold zlength. by rewrite length_fmap.
  - unfold locks. rewrite Hc, Hs0, He, Hlen. unfold locks, sizeof_CopyLockEntry. lia.
Qed.

Lemma releaseRange_spec l s :
  cl_inv (u_mem s) →
  ∃ s', releaseRange l s = (Ret tt, s') ∧ cl_inv (u_mem s') ∧
        locks (u_mem s') = List.filter (fun e => negb (intersects l e)) (locks (u_mem s)).
Proof.
  intros Hinv. unfold releaseRange. autorewrite with run. apply free_all_spec; [done|].
  intros e He. by apply andb_true_iff in He as [[He _]%andb_true_iff _].
Qed.

Lemma cl_rollback_spec txnID s :
  cl_inv (u_mem s) →
  ∃ s', cl_rollback txnID s = (Ret tt, s') ∧ cl_inv (u_mem s') ∧
        locks (u_mem s') = List.filter (fun e => negb (cl_txnID e =? txnID)) (locks (u_mem s)).
Proof.
  intros Hinv. unfold cl_rollback. autorewrite with run.
  destruct (free_all_spec (fun e => negb (cl_size e =? 0) && (cl_txnID e =? txnID)) s)
    as (s' & Hr & Hi & Hl); [done|intros e He; by apply andb_true_iff in He as [He _]|].
  exists s'. split; [done|]. split; [done|]. rewrite Hl. apply filter_ext_in. intros e He.
  unfold locks in He. apply filter_In in He as [_ He]. unfold live in He. by rewrite He.
Qed.

(** ** Undoing *)

Lemma set_entry_restore i e e' m : (cl_entries m).[i] = Some e →
  restore (CLEntry i e) (set_entry i e' m) = m.
Proof. destruct m. intros Hi. unfold set_entry. cbn. unfold set_entry. cbn. by rewrite zset_zset, zset_id. Qed.

Lemma entry_update_recorded i e e' n s :
  (cl_entries (u_mem s)).[i] = Some e →
  recorded (=) s ((makeUndoRecord (CLEntry i e) ≫= fun _ =>
    upd_mem (set_entry i e') ≫= fun _ =>
    makeUndoRecord (CLInfo (cl_shminfo (u_mem s))) ≫= fun _ =>
    upd_mem (fun m => set_shminfo (add_currentSize n (cl_shminfo m)) m)) s).
Proof.
  intros Hi. apply recorded_write_k; [apply _|by apply set_entry_restore|done|].
  apply (recorded_write (=) (CLInfo (cl_shminfo (u_mem s)))); [|by intros []].
  by destruct s as [[]].
Qed.

Lemma free_slot_recorded p i s : recorded (=) s (free_slot p i s).
Proof.
  unfold free_slot. apply recorded_get, recorded_lift; [apply _|]. intros e He.
  destruct ((cl_entries (u_mem s)).[i]) eqn:Hi; simplify_eq/=.
  case_if; [by apply entry_update_recorded|by apply recorded_ret; apply _].
Qed.

Lemma lock_scan_recorded slots e s : recorded (=) s (lock_scan slots e s).
Proof.
  induction slots as [|i slots IH]; cbn [lock_scan]; [by apply recorded_ret; apply _|].
  apply recorded_get, recorded_lift; [apply _|]. intros e0 He.
  destruct ((cl_entries (u_mem s)).[i]) eqn:Hi; simplify_eq/=.
  case_if; [by apply entry_update_recorded|done].
Qed.
