(* ===== verification/SlaveNode.v ===== *)
(** * The BRM worker node ([slavedbrmnode.cpp])

    The worker applies the controller's messages to the structures in shared
    memory: each operation takes the write locks it needs, changes the tables,
    and returns a code; the controller then has it confirm or undo the changes,
    which also releases the locks.  The extent map is seen through the class
    [ExtentMapCalls].  Exceptions of C++ are caught and turned into return codes;
    a fault is not. *)

From S2P Require Import Prelude Undo Table Vbbm Vss CopyLocks.

(** What the worker asks of the extent map. *)
Class ExtentMapCalls (EM : Type) := {
  em_lookup : Z → M EM (list LBIDRange);
  em_deleteOID : Z → M EM unit;
  em_deleteOIDs : list Z → M EM unit;
  em_confirmChanges : M EM unit;
  em_undoChanges : M EM unit;
  em_checkConsistency : M EM Z;
  em_save : M EM (list Z);
  em_load : option (list Z) → M EM unit;
}.

Section SlaveNode.
Context {EM : Type} `{ExtentMapCalls EM}.

(** The structures and [locked[3]]. *)
Record SlaveDBRMNode := mkNode {
  sn_em : EM;
  sn_vbbm : VBBM;
  sn_vss : VSS;
  sn_copylocks : CopyLocks;
  locked0 : bool;
  locked1 : bool;
  locked2 : bool;
}.

Definition on_em {A} : M EM A → M SlaveDBRMNode A :=
  zoom sn_em (fun x n => mkNode x (sn_vbbm n) (sn_vss n) (sn_copylocks n)
                           (locked0 n) (locked1 n) (locked2 n)).
Definition on_vb {A} : M VBBM A → M SlaveDBRMNode A :=
  zoom sn_vbbm (fun x n => mkNode (sn_em n) x (sn_vss n) (sn_copylocks n)
                             (locked0 n) (locked1 n) (locked2 n)).
Definition on_vs {A} : M VSS A → M SlaveDBRMNode A :=
  zoom sn_vss (fun x n => mkNode (sn_em n) (sn_vbbm n) x (sn_copylocks n)
                            (locked0 n) (locked1 n) (locked2 n)).
Definition on_vbvs {A} : M (VBBM * VSS) A → M SlaveDBRMNode A :=
  zoom (fun n => (sn_vbbm n, sn_vss n))
    (fun x n => mkNode (sn_em n) (fst x) (snd x) (sn_copylocks n)
                  (locked0 n) (locked1 n) (locked2 n)).
Definition on_cl {A} : M CopyLocks A → M SlaveDBRMNode A :=
  zoom sn_copylocks (fun x n => mkNode (sn_em n) (sn_vbbm n) (sn_vss n) x
                                  (locked0 n) (locked1 n) (locked2 n)).

(** [vbbm.lock(WRITE); locked[0] = true;] and [vbbm.release(WRITE); locked[0] = false;],
    and so on.  The write lock makes the node the only writer; it is not recursive,
    and while the node holds it another [lock(WRITE)] waits for ever. *)
Definition lock_vbbm (b : bool) : M SlaveDBRMNode unit := fun n =>
  if b && locked0 n then (Exn Deadlock, n)
  else (Ret tt, mkNode (sn_em n) (sn_vbbm n) (sn_vss n) (sn_copylocks n) b (locked1 n) (locked2 n)).
Definition lock_vss (b : bool) : M SlaveDBRMNode unit := fun n =>
  if b && locked1 n then (Exn Deadlock, n)
  else (Ret tt, mkNode (sn_em n) (sn_vbbm n) (sn_vss n) (sn_copylocks n) (locked0 n) b (locked2 n)).
Definition lock_cl (b : bool) : M SlaveDBRMNode unit := fun n =>
  if b && locked2 n then (Exn Deadlock, n)
  else (Ret tt, mkNode (sn_em n) (sn_vbbm n) (sn_vss n) (sn_copylocks n) (locked0 n) (locked1 n) b).

Definition ERR_VBBM_OVERFLOW : Z := 8.
Definition ERR_OLDTXN_OVERWRITING_NEWTXN : Z := 17.

(** ** Versioning a block *)

(** The body of [SlaveDBRMNode::writeVBEntry]. *)
Definition writeVBEntry_body (transID l vbOID vbFBO : Z) : M SlaveDBRMNode Z :=
  lock_vbbm true ≫= fun _ =>
  lock_vss true ≫= fun _ =>
  '(oldVerID, _) ← (fun n => (getCurrentVersion l (u_mem (sn_vss n)), n));
  if oldVerID =? transID then mret 0
  else if transID <? oldVerID then mret ERR_OLDTXN_OVERWRITING_NEWTXN
  else
    on_vb (insert l oldVerID vbOID vbFBO false) ≫= fun _ =>
    (if 0 <? oldVerID then on_vs (setVBFlag l oldVerID true)
     else on_vs (vss_insert l oldVerID true false false)) ≫= fun _ =>
    on_vs (vss_insert l transID false true false) ≫= fun _ =>
    mret 0.

(** [SlaveDBRMNode::writeVBEntry] *)
Definition writeVBEntry (transID l vbOID vbFBO : Z) : M SlaveDBRMNode Z :=
  catch (writeVBEntry_body transID l vbOID vbFBO) (fun _ => mret (-1)).

(** ** Beginning a copy *)

Definition maxRetries : nat := 1200.

(** The node together with the array [lockedRanges]. *)
Abbreviation NodeFlags := (SlaveDBRMNode * list bool)%type.

Definition mark_locked (i : Z) : M NodeFlags unit := on_snd (modify (fun fl => fl.[i <- true])).

(** One pass of the locking loop over the ranges and their indices: whether all
    of them are locked now. *)
Fixpoint lock_pass (transID : Z) (rs : list (Z * LBIDRange)) : M NodeFlags bool :=
  match rs with
  | [] => mret true
  | (i, r) :: rs' =>
      fl ← gets snd;
      b ← lift (deref (fl.[i]));
      if b : bool then lock_pass transID rs'
      else
        m ← on_fst (on_cl get_mem);
        if cl_isLocked r m then
          lock_pass transID rs' ≫= fun _ => mret false
        else
          on_fst (on_cl (lockRange r transID)) ≫= fun _ =>
          mark_locked i ≫= fun _ =>
          lock_pass transID rs'
  end.

(** [while (!allLocked && retries < maxRetries)]: whether the retries ran out;
    [env k] is what other processes do to the node's memory during a sleep, when
    it holds none of the locks [locks]. *)
Fixpoint lock_loop (env : nat → SlaveDBRMNode → SlaveDBRMNode) (retries : nat) (transID : Z)
    (rs : list (Z * LBIDRange)) (locks : list (bool → M SlaveDBRMNode unit)) : M NodeFlags bool :=
  match retries with
  | O => mret true
  | S retries' =>
      all ← lock_pass transID rs;
      if all : bool then mret false
      else
        on_fst (forM (rev locks) (fun l => l false)) ≫= fun _ =>
        on_fst (modify (env retries')) ≫= fun _ =>
        on_fst (forM locks (fun l => l true)) ≫= fun _ =>
        lock_loop env retries' transID rs locks
  end.

(** [if (retries >= maxRetries)]: take the remaining locks by force. *)
Definition force_range (transID : Z) (ir : Z * LBIDRange) : M NodeFlags unit :=
  let '(i, r) := ir in
  fl ← gets snd;
  b ← lift (deref (fl.[i]));
  if b : bool then mret tt
  else
    on_fst (on_cl (forceRelease r)) ≫= fun _ =>
    on_fst (on_cl (lockRange r transID)) ≫= fun _ =>
    mark_locked i.

(** [for (i = 0; i < ranges.size(); i++) if (lockedRanges[i]) releaseRange(ranges[i])] *)
Definition release_locked (ranges : list LBIDRange) : M NodeFlags unit :=
  fl ← gets snd;
  on_fst (forM (zip ranges fl) (fun '(r, b) => if b : bool then on_cl (releaseRange r) else mret tt)).

(** Lock all the ranges, by force if need be. *)
Definition grab_ranges env (transID : Z) (ranges : list LBIDRange)
    (locks : list (bool → M SlaveDBRMNode unit)) : M NodeFlags unit :=
  let rs := zip (zseq 0 (zlength ranges)) ranges in
  timeout ← lock_loop env maxRetries transID rs locks;
  if timeout : bool then forM rs (force_range transID) else mret tt.

Fixpoint any_vss_locked (ranges : list LBIDRange) (transID : Z) (m : VSSMem) : outcome bool :=
  match ranges with
  | [] => Ret false
  | r :: ranges' =>
      b ← vss_isLocked r transID m;
      if b : bool then Ret true else any_vss_locked ranges' transID m
  end.

(** A function with the local array [lockedRanges], all false at the start. *)
Definition with_flags {A} (ranges : list LBIDRange) (op : M NodeFlags A) : M SlaveDBRMNode A := fun n =>
  let '(r, (n', _)) := op (n, replicate (length ranges) false) in (r, n').

(** [SlaveDBRMNode::beginVBCopy]: the return code, the ranges of the version
    buffer to copy to, and the blocks to flush. *)
Definition beginVBCopy env (cfg : option Z) (transID vbOID : Z) (ranges : list LBIDRange)
    : M SlaveDBRMNode (Z * list VBRange * list Z) :=
  let sum := foldr (fun r acc => range_size r + acc) 0 ranges in
  with_flags ranges (catch (
    on_fst (lock_vbbm true) ≫= fun _ =>
    on_fst (lock_vss true) ≫= fun _ =>
    b ← (fun s => (any_vss_locked ranges transID (u_mem (sn_vss (fst s))), s));
    if b : bool then mret (-1, [], [])
    else
      on_fst (lock_cl true) ≫= fun _ =>
      grab_ranges env transID ranges [lock_vbbm; lock_vss; lock_cl] ≫= fun _ =>
      '(freeList, flushList) ← on_fst (on_vbvs (getBlocks cfg (i32 sum) vbOID));
      mret (0, freeList, flushList))
    (fun e =>
      release_locked ranges ≫= fun _ =>
      mret (if decide (e = VBBMBufferOverFlow) then ERR_VBBM_OVERFLOW else -1, [], []))).

(** [SlaveDBRMNode::dmlLockLBIDRanges] *)
Definition dmlLockLBIDRanges env (ranges : list LBIDRange) (txnID : Z) : M SlaveDBRMNode Z :=
  with_flags ranges (catch (
    on_fst (lock_cl true) ≫= fun _ =>
    grab_ranges env txnID ranges [lock_cl] ≫= fun _ =>
    mret 0)
    (fun _ => release_locked ranges ≫= fun _ => mret (-1))).

(** [SlaveDBRMNode::endVBCopy] *)
Definition endVBCopy (transID : Z) (ranges : list LBIDRange) : M SlaveDBRMNode Z :=
  catch (
    lock_cl true ≫= fun _ =>
    forM ranges (fun r => on_cl (releaseRange r)) ≫= fun _ =>
    mret 0)
    (fun _ => mret (-1)).

(** [SlaveDBRMNode::dmlReleaseLBIDRanges] *)
Definition dmlReleaseLBIDRanges (ranges : list LBIDRange) : M SlaveDBRMNode Z :=
  catch (
    lock_cl true ≫= fun _ =>
    forM ranges (fun r => on_cl (releaseRange r)) ≫= fun _ =>
    mret 0)
    (fun _ => mret (-1)).

(** ** Ending a transaction *)

(** [SlaveDBRMNode::vbCommit] *)
Definition vbCommit (transID : Z) : M SlaveDBRMNode Z :=
  catch (
    lock_vss true ≫= fun _ =>
    on_vs (commit transID) ≫= fun _ =>
    mret 0)
    (fun _ => mret (-1)).

(** One block of [vbRollback]; the flush list is threaded through. *)
Definition rollback_block (transID l : Z) (flushList : list Z) : M SlaveDBRMNode (list Z) :=
  oldVerID ← (fun n => (getHighestVerInVB l transID (u_mem (sn_vss n)), n));
  (if oldVerID =? -1 then mret tt
   else
     on_vb (removeEntry l oldVerID) ≫= fun _ =>
     on_vs (setVBFlag l oldVerID false)) ≫= fun _ =>
  on_vs (vss_removeEntry l transID flushList).

Fixpoint rollback_blocks (transID : Z) (ls : list Z) (flushList : list Z)
    : M SlaveDBRMNode (list Z) :=
  match ls with
  | [] => mret flushList
  | l :: ls' =>
      fl ← rollback_block transID l flushList;
      rollback_blocks transID ls' fl
  end.

(** [SlaveDBRMNode::vbRollback(VER_t, const vector<LBID_t>&, bool)]: the return
    code and the blocks to flush. *)
Definition vbRollback (transID : Z) (lbidList : list Z) : M SlaveDBRMNode (Z * list Z) :=
  catch (
    lock_vbbm true ≫= fun _ =>
    lock_vss true ≫= fun _ =>
    lock_cl true ≫= fun _ =>
    on_cl (cl_rollback transID) ≫= fun _ =>
    fl ← rollback_blocks transID lbidList [];
    mret (0, fl))
    (fun _ => mret (-1, [])).

(** [SlaveDBRMNode::vbRollback(VER_t, const LBIDRange_v&, bool)] *)
Definition vbRollback_ranges (transID : Z) (lbidList : list LBIDRange) : M SlaveDBRMNode (Z * list Z) :=
  catch (
    lock_vbbm true ≫= fun _ =>
    lock_vss true ≫= fun _ =>
    lock_cl true ≫= fun _ =>
    on_cl (cl_rollback transID) ≫= fun _ =>
    fl ← rollback_blocks transID (lbidList ≫= fun r => zseq (range_start r) (range_size r)) [];
    mret (0, fl))
    (fun _ => mret (-1, [])).

(** ** Confirming and undoing *)

(** [SlaveDBRMNode::confirmChanges] *)
Definition sn_confirmChanges : M SlaveDBRMNode unit :=
  catch (
    on_em em_confirmChanges ≫= fun _ =>
    n ← gets id;
    (if locked0 n then on_vb confirmChanges ≫= fun _ => lock_vbbm false else mret tt) ≫= fun _ =>
    (if locked1 n then on_vs confirmChanges ≫= fun _ => lock_vss false else mret tt) ≫= fun _ =>
    (if locked2 n then on_cl confirmChanges ≫= fun _ => lock_cl false else mret tt))
    (fun _ => mret tt).

(** [SlaveDBRMNode::undoChanges] *)
Definition sn_undoChanges : M SlaveDBRMNode unit :=
  catch (
    on_em em_undoChanges ≫= fun _ =>
    n ← gets id;
    (if locked0 n then on_vb undoChanges ≫= fun _ => lock_vbbm false else mret tt) ≫= fun _ =>
    (if locked1 n then on_vs undoChanges ≫= fun _ => lock_vss false else mret tt) ≫= fun _ =>
    (if locked2 n then on_cl undoChanges ≫= fun _ => lock_cl false else mret tt))
    (fun _ => mret tt).

(** ** Deleting, clearing, saving and loading *)

Definition on_vsvb {A} : M (VSS * VBBM) A → M SlaveDBRMNode A :=
  zoom (fun n => (sn_vss n, sn_vbbm n))
    (fun x n => mkNode (sn_em n) (snd x) (fst x) (sn_copylocks n)
                  (locked0 n) (locked1 n) (locked2 n)).

(** [SlaveDBRMNode::lookup]: [None] is the return code -1. *)
Definition sn_lookup (oid : Z) : M SlaveDBRMNode (option (list LBIDRange)) :=
  catch (l ← on_em (em_lookup oid); mret (Some l)) (fun _ => mret None).

(** [SlaveDBRMNode::deleteOID] *)
Definition deleteOID (oid : Z) : M SlaveDBRMNode Z :=
  catch (
    lock_vbbm true ≫= fun _ =>
    lock_vss true ≫= fun _ =>
    r ← sn_lookup oid;
    match r with
    | None | Some [] => mret (-1)
    | Some lbids =>
        forM lbids (fun r => on_vsvb (removeEntriesFromDB r true)) ≫= fun _ =>
        on_em (em_deleteOID oid) ≫= fun _ =>
        mret 0
    end)
    (fun _ => mret (-1)).

(** The loop of [deleteOIDs] over the OIDs: [false] when a lookup fails. *)
Fixpoint delete_blocks (oids : list Z) : M SlaveDBRMNode bool :=
  match oids with
  | [] => mret true
  | oid :: oids' =>
      r ← sn_lookup oid;
      match r with
      | None => mret false
      | Some lbids =>
          forM lbids (fun r => on_vsvb (removeEntriesFromDB r true)) ≫= fun _ =>
          delete_blocks oids'
      end
  end.

(** [SlaveDBRMNode::deleteOIDs]; its callers pass a map of every OID to itself. *)
Definition deleteOIDs (oids : list Z) : M SlaveDBRMNode Z :=
  catch (
    lock_vbbm true ≫= fun _ =>
    lock_vss true ≫= fun _ =>
    ok ← delete_blocks oids;
    if ok : bool then on_em (em_deleteOIDs oids) ≫= fun _ => mret 0 else mret (-1))
    (fun _ => mret (-1)).

(** [SlaveDBRMNode::clear] *)
Definition sn_clear (cfg : option Z) : M SlaveDBRMNode Z :=
  catch (
    on_vb (clear cfg) ≫= fun _ =>
    on_vs vss_clear ≫= fun _ =>
    mret 0)
    (fun _ => mret (-1)).

(** [SlaveDBRMNode::checkConsistency]: the extent map, the VSS against the VBBM,
    the VBBM. *)
Definition sn_checkConsistency : M SlaveDBRMNode Z :=
  let step {A} (op : M SlaveDBRMNode A) : M SlaveDBRMNode bool :=
    catch (op ≫= fun _ => mret true) (fun _ => mret false) in
  ok ← step (on_em em_checkConsistency);
  if ok : bool then
    ok ← step (fun n => (vss_checkConsistency (u_mem (sn_vbbm n)) (u_mem (sn_vss n)), n));
    if ok : bool then
      ok ← step (fun n => (checkConsistency (u_mem (sn_vbbm n)), n));
      mret (if ok : bool then 0 else -1)
    else mret (-1)
  else mret (-1).

(** [SlaveDBRMNode::saveState]: the three files, or [None] for the code -1. *)
Definition saveState : M SlaveDBRMNode (option (list Z * list Z * list Z)) :=
  catch (
    em ← on_em em_save;
    n ← gets id;
    mret (Some (em, vb_save (u_mem (sn_vbbm n)), vss_save (u_mem (sn_vss n)))))
    (fun _ => mret None).

(** [SlaveDBRMNode::loadState] *)
Definition loadState (cfg : option Z) (files : list Z * list Z * list Z) : M SlaveDBRMNode Z :=
  let '(em, vb, vs) := files in
  catch (
    on_em (em_load (Some em)) ≫= fun _ =>
    on_vb (vb_load cfg (Some vb)) ≫= fun _ =>
    on_vs (vss_load (Some vs)) ≫= fun _ =>
    mret 0)
    (fun _ => mret (-1)).
End SlaveNode.
