(* ===== verification/SlaveProofs.v ===== *)
(** * Correctness of the worker node: versions, snapshots and rollback

    [versions_ok] relates the two tables: what the VSS says is in the version
    buffer is in the VBBM, every block has one current version, the newest, and
    an older one in the version buffer.  The theorems are about whole messages:
    writing a block versions it and hides the new version from other
    transactions, rolling it back restores both tables, committing releases the
    locks, and undoing a message restores the memory. *)

From S2P Require Import Prelude Hasher HashChain Undo Table Vbbm VbbmProofs Vss VssProofs VssWrite VssUndo CopyLocks SlaveNode.

#[local] Opaque Hasher.

(** ** The relation between the tables *)

Abbreviation amap := (gmap (Z * Z) (bool * bool)).
Abbreviation bmap := (gmap (Z * Z) (Z * Z)).

Record versions_ok (a : amap) (b : bmap) : Prop := mkVersionsOk {
  vo_nonneg l v f : a !! (l, v) = Some f → 0 ≤ l ∧ 0 ≤ v;
  vo_vb k : is_Some (b !! k) ↔ ∃ lck, a !! k = Some (true, lck);
  vo_current l v f : a !! (l, v) = Some f → ∃ c lck, a !! (l, c) = Some (false, lck) ∧ v ≤ c;
  vo_unique l v v' x y : a !! (l, v) = Some (false, x) → a !! (l, v') = Some (false, y) → v = v';
  vo_positive l v lck : a !! (l, v) = Some (false, lck) → 0 < v;
  vo_locked k lck : a !! k = Some (true, lck) → lck = false;
  vo_old l v f : a !! (l, v) = Some f → ∃ v' lck, a !! (l, v') = Some (true, lck);
}.

(** The current version of a block: 0 when the block has no versions. *)
Definition current_version (a : amap) (l c : Z) (lck : bool) : Prop :=
  a !! (l, c) = Some (false, lck) ∨ (c = 0 ∧ lck = false ∧ ∀ v, a !! (l, v) = None).

Lemma empty_versions_ok : versions_ok ∅ ∅.
Proof. split; intros *; rewrite ?lookup_empty; try done. split; [by intros []|by intros [? ?]]. Qed.

Lemma current_version_max a b l c lck v f :
  versions_ok a b → current_version a l c lck → a !! (l, v) = Some f → v ≤ c.
Proof.
  intros Hok [Hc|(-> & _ & Hn)] Hv; [|by rewrite Hn in Hv].
  destruct (vo_current _ _ Hok _ _ _ Hv) as (c' & x & Hc' & Hle).
  by rewrite (vo_unique _ _ Hok _ _ _ _ _ Hc Hc').
Qed.

Lemma in_table_abs m e : vss_inv m → in_table m e → vss_abs m !! (lbid e, verID e) = Some (vbFlag e, locked e).
Proof. intros Hinv (i & Hi & Hu). apply vss_abs_Some; [done|]. by exists i, e. Qed.

Lemma abs_in_table m l v x y :
  vss_inv m → vss_abs m !! (l, v) = Some (x, y) →
  ∃ e, in_table m e ∧ lbid e = l ∧ verID e = v ∧ vbFlag e = x ∧ locked e = y.
Proof.
  intros Hinv (i & e & Hi & Hu & [= <- <-] & [= <- <-])%vss_abs_Some; [|done].
  exists e. split; [by exists i|done].
Qed.

Lemma getCurrentVersion_abs m b l c lck :
  vss_inv m → versions_ok (vss_abs m) b → current_version (vss_abs m) l c lck →
  getCurrentVersion l m = Ret (c, lck).
Proof.
  intros Hinv Hok Hc. destruct (getCurrentVersion_spec m l (si_struct _ Hinv))
    as [(e & He & Hl & Hf & ->)|[Hno ->]].
  - apply (in_table_abs _ _ Hinv) in He as Ha. rewrite Hl, Hf in Ha.
    destruct Hc as [Hc|(_ & _ & Hn)]; [|by rewrite Hn in Ha].
    pose proof (vo_unique _ _ Hok _ _ _ _ _ Ha Hc) as Hv. rewrite Hv in Ha |- *. by simplify_eq.
  - destruct Hc as [Hc|(-> & -> & _)]; [|done].
    apply abs_in_table in Hc as (e & He & Hl & _ & Hf & _); [|done].
    by rewrite (Hno e He Hl) in Hf.
Qed.

(** ** Versioning a block, on the maps *)

Definition write_over (t l c : Z) (lck : bool) (a : amap) : amap :=
  <[(l, t) := (false, true)]> (<[(l, c) := (true, lck)]> a).
Abbreviation write_a t l c := (write_over t l c false).

Lemma write_lookup t l c a l' v :
  write_a t l c a !! (l', v) =
    if decide (l' = l ∧ v = t) then Some (false, true)
    else if decide (l' = l ∧ v = c) then Some (true, false) else a !! (l', v).
Proof.
  unfold write_over. destruct (decide (l' = l ∧ v = t)) as [[-> ->]|H1]; [by rewrite lookup_insert_eq|].
  rewrite lookup_insert_ne by naive_solver.
  destruct (decide (l' = l ∧ v = c)) as [[-> ->]|H2]; [by rewrite lookup_insert_eq|].
  by rewrite lookup_insert_ne by naive_solver.
Qed.

Lemma write_versions_ok a b t l c place :
  versions_ok a b → 0 ≤ l → 0 ≤ c < t → current_version a l c false →
  versions_ok (write_a t l c a) (<[(l, c) := place]> b).
Proof.
  intros Hok Hl Hct Hc.
  assert (∀ v f, a !! (l, v) = Some f → v ≤ c) as Hmax by (intros; by eapply current_version_max).
  assert (∀ v x, a !! (l, v) = Some (false, x) → v = c) as Huniq.
  { intros v x Hv. destruct Hc as [Hc|(_ & _ & Hn)]; [|by rewrite Hn in Hv].
    by eapply (vo_unique _ _ Hok). }
  split.
  - intros l' v f. rewrite write_lookup. repeat case_decide; [naive_solver lia..|apply Hok].
  - intros [l' v]. rewrite write_lookup. destruct (decide (l' = l ∧ v = c)) as [[-> ->]|Hne].
    + rewrite decide_False, lookup_insert_eq by lia. split; eauto.
    + rewrite lookup_insert_ne by naive_solver. case_decide as Ht; [|apply (vo_vb _ _ Hok)].
      destruct Ht as [-> ->]. rewrite (vo_vb _ _ Hok). split; [|by intros [? ?]].
      intros [lck Hx]. apply Hmax in Hx. lia.
  - intros l' v f Hv. destruct (decide (l' = l)) as [->|Hne].
    + exists t, true. rewrite write_lookup, decide_True by done. split; [done|].
      rewrite write_lookup in Hv. repeat case_decide; [naive_solver lia..|]. apply Hmax in Hv. lia.
    + rewrite write_lookup, !decide_False in Hv by naive_solver.
      destruct (vo_current _ _ Hok _ _ _ Hv) as (c' & x & Hc' & Hle). exists c', x.
      by rewrite write_lookup, !decide_False by naive_solver.
  - intros l' v v' x y Hx Hy. destruct (decide (l' = l)) as [->|Hne].
    + assert (∀ w z, write_a t l c a !! (l, w) = Some (false, z) → w = t) as Ht.
      { intros w z. rewrite write_lookup. destruct (decide (l = l ∧ w = t)) as [[_ ->]|_]; [done|].
        destruct (decide (l = l ∧ w = c)) as [_|Hw]; [done|]. intros Hw'%Huniq. by destruct Hw. }
      by rewrite (Ht _ _ Hx), (Ht _ _ Hy).
    + rewrite write_lookup, !decide_False in Hx by naive_solver.
      rewrite write_lookup, !decide_False in Hy by naive_solver. by eapply (vo_unique _ _ Hok).
  - intros l' v lck. rewrite write_lookup. repeat case_decide; [naive_solver lia|done|apply Hok].
  - intros [l' v] lck. rewrite write_lookup. repeat case_decide; [done|naive_solver|apply Hok].
  - intros l' v f Hv. destruct (decide (l' = l)) as [->|Hne].
    + exists c, false. by rewrite write_lookup, decide_False, decide_True by lia.
    + rewrite write_lookup, !decide_False in Hv by naive_solver.
      destruct (vo_old _ _ Hok _ _ _ Hv) as (v' & x & Hv'). exists v', x.
      by rewrite write_lookup, !decide_False by naive_solver.
Qed.

(** ** The node *)

Section Node.
Context {EM : Type} `{ExtentMapCalls EM}.
Abbreviation Node := (SlaveDBRMNode (EM := EM)).
Implicit Types (n : Node).

Definition node_a n : amap := vss_abs (u_mem (sn_vss n)).
Definition node_b n : bmap := vb_abs (u_mem (sn_vbbm n)).

Record node_inv n : Prop := mkNodeInv {
  ni_vbbm : vb_inv (u_mem (sn_vbbm n));
  ni_vss : vss_inv (u_mem (sn_vss n));
  ni_cl : cl_inv (u_mem (sn_copylocks n));
  ni_versions : versions_ok (node_a n) (node_b n);
}.

(** The node holds no lock, as between two messages. *)
Definition unlocked n : Prop := locked0 n = false ∧ locked1 n = false ∧ locked2 n = false.

Lemma lock_vbbm_run n : locked0 n = false →
  lock_vbbm true n = (Ret tt, mkNode (sn_em n) (sn_vbbm n) (sn_vss n) (sn_copylocks n) true (locked1 n) (locked2 n)).
Proof. unfold lock_vbbm. by intros ->. Qed.
Lemma lock_vss_run n : locked1 n = false →
  lock_vss true n = (Ret tt, mkNode (sn_em n) (sn_vbbm n) (sn_vss n) (sn_copylocks n) (locked0 n) true (locked2 n)).
Proof. unfold lock_vss. by intros ->. Qed.
Lemma lock_cl_run n : locked2 n = false →
  lock_cl true n = (Ret tt, mkNode (sn_em n) (sn_vbbm n) (sn_vss n) (sn_copylocks n) (locked0 n) (locked1 n) true).
Proof. unfold lock_cl. by intros ->. Qed.

Lemma on_vb_run {A} (op : M VBBM A) n r b' :
  op (sn_vbbm n) = (r, b') →
  on_vb op n = (r, mkNode (sn_em n) b' (sn_vss n) (sn_copylocks n) (locked0 n) (locked1 n) (locked2 n)).
Proof. unfold on_vb, zoom. by intros ->. Qed.

Lemma on_vs_run {A} (op : M VSS A) n r v' :
  op (sn_vss n) = (r, v') →
  on_vs op n = (r, mkNode (sn_em n) (sn_vbbm n) v' (sn_copylocks n) (locked0 n) (locked1 n) (locked2 n)).
Proof. unfold on_vs, zoom. by intros ->. Qed.

Lemma on_cl_run {A} (op : M CopyLocks A) n r c' :
  op (sn_copylocks n) = (r, c') →
  on_cl op n = (r, mkNode (sn_em n) (sn_vbbm n) (sn_vss n) c' (locked0 n) (locked1 n) (locked2 n)).
Proof. unfold on_cl, zoom. by intros ->. Qed.

Lemma catch_ret {A} (op : M Node A) h n a n' : op n = (Ret a, n') → catch op h n = (Ret a, n').
Proof. unfold catch. by intros ->. Qed.

(** The VSS part of [writeVBEntry]. *)
Lemma version_current (s : VSS) b t l c lck :
  vss_inv (u_mem s) → versions_ok (vss_abs (u_mem s)) b → 0 ≤ l → 0 ≤ c < t →
  current_version (vss_abs (u_mem s)) l c lck →
  ∃ s1 s2, (if 0 <? c then setVBFlag l c true else vss_insert l c true false false) s = (Ret tt, s1) ∧
    vss_insert l t false true false s1 = (Ret tt, s2) ∧ vss_inv (u_mem s2) ∧
    vss_abs (u_mem s2) = write_over t l c lck (vss_abs (u_mem s)).
Proof.
  intros Hinv Hok Hl Hct Hc.
  assert (∃ s1, (if 0 <? c then setVBFlag l c true else vss_insert l c true false false) s = (Ret tt, s1) ∧
            vss_inv (u_mem s1) ∧ vss_abs (u_mem s1) = <[(l, c) := (true, lck)]> (vss_abs (u_mem s)))
    as (s1 & Hr1 & Hi1 & Ha1).
  { destruct Hc as [Hc|(-> & -> & Hn)].
    - assert (0 <? c = true) as -> by (apply Z.ltb_lt; by apply (vo_positive _ _ Hok) in Hc).
      pose proof (setVBFlag_spec l c true s ltac:(lia) Hinv) as Hs. by rewrite Hc in Hs.
    - destruct (vss_insert_spec l 0 true false false s ltac:(lia) Hinv (Hn 0)) as (s1 & ? & ? & ? & _).
      exists s1. done. }
  destruct (vss_insert_spec l t false true false s1) as (s2 & Hr2 & Hi2 & Ha2 & _); [lia|done| |].
  - rewrite Ha1, lookup_insert_ne by naive_solver lia.
    destruct (vss_abs (u_mem s) !! (l, t)) as [f|] eqn:Ht; [|done].
    pose proof (current_version_max _ _ _ _ _ _ _ Hok Hc Ht). lia.
  - exists s1, s2. by rewrite Ha2, Ha1.
Qed.

(** [writeVBEntry] on every branch. *)
Lemma writeVBEntry_spec t l oid fbo n c lck :
  node_inv n → locked0 n = false → locked1 n = false → 0 ≤ l → current_version (node_a n) l c lck →
  ∃ n', writeVBEntry t l oid fbo n =
          (Ret (if t <? c then ERR_OLDTXN_OVERWRITING_NEWTXN else 0), n') ∧
    vb_inv (u_mem (sn_vbbm n')) ∧ vss_inv (u_mem (sn_vss n')) ∧ sn_copylocks n' = sn_copylocks n ∧
    locked2 n' = locked2 n ∧
    ((c < t → lck = false) → node_inv n') ∧
    node_a n' = (if c <? t then write_over t l c lck (node_a n) else node_a n) ∧
    node_b n' = (if c <? t then <[(l, c) := (oid, fbo)]> (node_b n) else node_b n).
Proof.
  intros [Hvb Hvs Hcl Hok] Hk0 Hk1 Hl Hc. unfold writeVBEntry, writeVBEntry_body.
  assert (0 ≤ c) as Hc0.
  { destruct Hc as [Hc|(-> & _)]; [|lia]. apply (vo_positive _ _ Hok) in Hc. lia. }
  pose proof (getCurrentVersion_abs _ _ l c lck Hvs Hok Hc) as Hcur.
  set (n0 := mkNode (sn_em n) (sn_vbbm n) (sn_vss n) (sn_copylocks n) true true (locked2 n)).
  assert (∀ (k : Z * bool → M Node Z),
    (lock_vbbm true ≫= fun _ => lock_vss true ≫= fun _ =>
       (fun n => (getCurrentVersion l (u_mem (sn_vss n)), n)) ≫= k) n = k (c, lck) n0) as Hstart.
  { intros k. rewrite (bind_ret _ _ _ _ _ (lock_vbbm_run n Hk0)).
    erewrite bind_ret by by apply lock_vss_run. unfold mbind, M_bind. cbn. by rewrite Hcur. }
  destruct (Z.lt_trichotomy c t) as [Hlt|[->|Hgt]].
  - assert (c <? t = true) as -> by (by apply Z.ltb_lt). assert (t <? c = false) as Htc by (apply Z.ltb_ge; lia).
    rewrite Htc. assert (c =? t = false) as Hne by (apply Z.eqb_neq; lia).
    destruct (insert_spec l c oid fbo false (sn_vbbm n)) as (b1 & Hr1 & Hi1 & Ha1 & _); [lia|done| |].
    { destruct (vb_abs (u_mem (sn_vbbm n)) !! (l, c)) eqn:Hb; [|done].
      destruct (proj1 (vo_vb _ _ Hok (l, c))) as [x Hx]; [by eexists|].
      destruct Hc as [Hc|(_ & _ & Hn)]; [congruence|by rewrite Hn in Hx]. }
    destruct (version_current (sn_vss n) _ t l c lck Hvs Hok Hl ltac:(lia) Hc) as (s1 & s2 & Hr2 & Hr3 & Hi2 & Ha2).
    eexists. split.
    + apply catch_ret. rewrite Hstart. cbn. rewrite Hne, Htc.
      erewrite bind_ret by by apply on_vb_run.
      erewrite bind_ret; [|destruct (0 <? c); by apply on_vs_run].
      erewrite bind_ret by by apply on_vs_run. reflexivity.
    + unfold node_a, node_b. cbn [sn_vss sn_vbbm sn_copylocks locked2]. split_and!; try done. intros Hlck.
      split; cbn [sn_vss sn_vbbm sn_copylocks]; try done. unfold node_a, node_b.
      cbn [sn_vss sn_vbbm]. rewrite Ha1, Ha2, (Hlck Hlt). rewrite (Hlck Hlt) in Hc. by apply write_versions_ok.
  - exists n0. rewrite Z.ltb_irrefl. split; [|done]. apply catch_ret. rewrite Hstart. cbn.
    by rewrite Z.eqb_refl.
  - assert (c <? t = false) as -> by (apply Z.ltb_ge; lia). assert (t <? c = true) as Htc by (by apply Z.ltb_lt).
    rewrite Htc. exists n0. split; [|done]. apply catch_ret. rewrite Hstart. cbn.
    assert (c =? t = false) as -> by (apply Z.eqb_neq; lia). by rewrite Htc.
Qed.

(** A call that returns has found the locks free. *)
Lemma writeVBEntry_unlocked t l oid fbo n rc n' :
  writeVBEntry t l oid fbo n = (Ret rc, n') → locked0 n = false ∧ locked1 n = false.
Proof.
  unfold writeVBEntry, catch, writeVBEntry_body. unfold mbind at 1, M_bind at 1, lock_vbbm.
  destruct (locked0 n) eqn:E0; [by cbn|]. cbn [andb]. unfold mbind at 1, M_bind at 1, lock_vss. cbn [locked1].
  by destruct (locked1 n).
Qed.

(** ** Snapshots *)

(** [v] is the newest version of block [l] that the query may read. *)
Definition reads (a : amap) (l : Z) (q : QueryContext_vss) (t v : Z) : Prop :=
  is_Some (a !! (l, v)) ∧ v ≤ currentScn q ∧ (t = v ∨ v ∉ txns q) ∧
  ∀ v', is_Some (a !! (l, v')) → v' ≤ currentScn q → (t = v' ∨ v' ∉ txns q) → v' ≤ v.

Lemma abs_nonneg m b : vss_inv m → versions_ok (vss_abs m) b → vers_nonneg m.
Proof. intros Hinv Hok e He. apply (in_table_abs _ _ Hinv), (vo_nonneg _ _ Hok) in He. lia. Qed.

Lemma vss_lookup_abs m b l q t v f lck :
  vss_inv m → versions_ok (vss_abs m) b → 0 ≤ currentScn q →
  reads (vss_abs m) l q t v → vss_abs m !! (l, v) = Some (f, lck) →
  vss_lookup l q t false m = Ret (0, v, f).
Proof.
  intros Hinv Hok Hscn (_ & Hle & Hvis & Hmax) Hv.
  destruct (vss_lookup_spec m l q t false (si_struct _ Hinv) (abs_nonneg _ _ Hinv Hok) Hscn) as (res & -> & Hres).
  destruct (abs_in_table _ _ _ _ _ Hinv Hv) as (e & He & Hl & Hve & Hfe & _).
  assert (visible l q t false e) as Hvise by (split; [done|]; rewrite Hve; split; [done|done]).
  f_equal. destruct Hres as [(x & -> & Hx & (Hxl & _ & Hxv) & Hxle & Hxmax)|[(_ & _ & Hgt)|[_ Hno]]].
  - assert (verID x = v) as Hxe.
    { apply Z.le_antisymm.
      - apply Hmax; [|done|done]. apply (in_table_abs _ _ Hinv) in Hx. rewrite <- Hxl. by eexists.
      - rewrite <- Hve. apply Hxmax; [done|done|lia]. }
    rewrite Hxe. apply (in_table_abs _ _ Hinv) in Hx. rewrite Hxl, Hxe, Hv in Hx.
    by injection Hx as -> _.
  - specialize (Hgt e He Hvise). lia.
  - by destruct (Hno e He).
Qed.

(** After [writeVBEntry], a query that must not see the writer reads the version
    that was current, from the place in the version buffer. *)
Lemma write_isolation t l oid fbo n n' c q t' rc :
  node_inv n → 0 ≤ l → c < t → current_version (node_a n) l c false →
  writeVBEntry t l oid fbo n = (Ret rc, n') →
  t' ≠ t → t ∈ txns q ∨ currentScn q < t → c ≤ currentScn q → c ∉ txns q →
  vss_lookup l q t' false (u_mem (sn_vss n')) = Ret (0, c, true) ∧
  lookup l c (u_mem (sn_vbbm n')) = Ret (Some (oid, fbo)).
Proof.
  intros Hn Hl Hct Hc Hrun Ht' Hq Hscn Hcq.
  destruct (writeVBEntry_unlocked _ _ _ _ _ _ _ Hrun) as [Hk0 Hk1].
  destruct (writeVBEntry_spec t l oid fbo n c false Hn Hk0 Hk1 Hl Hc) as (n1 & Hr & _ & _ & _ & _ & Hn1 & Ha & Hb).
  specialize (Hn1 ltac:(done)).
  rewrite Hr in Hrun. simplify_eq. assert (c <? t = true) as Hlt by by apply Z.ltb_lt.
  rewrite Hlt in Ha, Hb.
  assert (0 ≤ c) as Hc0.
  { destruct Hc as [Hc|(-> & _)]; [|lia]. apply (vo_positive _ _ (ni_versions _ Hn)) in Hc. lia. }
  split.
  - apply (vss_lookup_abs _ (node_b n') l q t' c true false); [apply Hn1|apply Hn1|lia| |].
    + fold (node_a n'). rewrite Ha. split; [|split; [done|split; [by right|]]].
      * rewrite write_lookup, decide_False, decide_True by lia. by eexists.
      * intros v' [f Hv'] Hle Hvis. rewrite write_lookup in Hv'.
        destruct (decide (l = l ∧ v' = t)) as [[_ ->]|]; [destruct Hq, Hvis; congruence || lia|].
        destruct (decide (l = l ∧ v' = c)) as [[_ ->]|]; [done|].
        by eapply current_version_max; [apply Hn|..].
    + fold (node_a n'). by rewrite Ha, write_lookup, decide_False, decide_True by lia.
  - rewrite lookup_spec by (apply Hn1 || lia). fold (node_b n'). by rewrite Hb, lookup_insert_eq.
Qed.

(** ** Rolling back *)

Lemma highest_in_vb m b l t c :
  vss_inv m → versions_ok (vss_abs m) b → (∃ lck, vss_abs m !! (l, c) = Some (true, lck)) → c ≤ t →
  (∀ v lck, vss_abs m !! (l, v) = Some (true, lck) → v ≤ c) →
  getHighestVerInVB l t m = Ret c.
Proof.
  intros Hinv Hok [lck Hc] Hct Hmax.
  destruct (getHighestVerInVB_spec m l t (si_struct _ Hinv)) as (v & -> & Hb & Hv & Hle). f_equal.
  destruct (abs_in_table _ _ _ _ _ Hinv Hc) as (e & He & Hl & Hve & Hf & _).
  assert (c ≤ v) as H1 by (rewrite <- Hve; apply Hle; [done|split_and!; [done|done|lia]]).
  destruct Hv as [->|(x & Hx & (Hxl & Hxf & Hxt) & Hxv)].
  - apply (vo_nonneg _ _ Hok) in Hc. lia.
  - apply (in_table_abs _ _ Hinv) in Hx. rewrite Hxl, Hxf, Hxv in Hx. apply Hmax in Hx. lia.
Qed.

Lemma rollback_maps a l t c :
  0 ≤ c < t → (∀ v f, a !! (l, v) = Some f → v ≤ c) →
  (a !! (l, c) = Some (false, false) ∧ (∃ v' lck, a !! (l, v') = Some (true, lck))) ∨
    (∀ v, a !! (l, v) = None) →
  (spec_removeEntry l t (<[(l, c) := (false, false)]> (write_a t l c a))).1 = a.
Proof.
  intros Hct Hmax Hcase. unfold spec_removeEntry, write_over.
  assert (a !! (l, t) = None) as Hat.
  { destruct (a !! (l, t)) eqn:Ht; [|done]. apply Hmax in Ht. lia. }
  rewrite insert_insert_ne by naive_solver lia. rewrite insert_insert_eq.
  rewrite lookup_insert_eq, delete_insert_id; [|rewrite lookup_insert_ne; [done|naive_solver lia]].
  destruct Hcase as [[Hc (v' & lck & Hv')]|Hnone].
  - rewrite insert_id by done. rewrite decide_True; [done|].
    exists (l, v'), (true, lck). done.
  - rewrite decide_False; cbn.
    + unfold drop_block. apply map_eq. intros [l' v]. apply option_eq. intros f.
      rewrite map_lookup_filter_Some. cbn. destruct (decide (l' = l)) as [->|Hne].
      * rewrite (Hnone v). naive_solver.
      * rewrite lookup_insert_ne by naive_solver. naive_solver.
    + intros ([l' v] & f & Hf & Hl' & Hfl). cbn in *. subst l'.
      destruct (decide (v = c)) as [->|]; [rewrite lookup_insert_eq in Hf; by simplify_eq|].
      rewrite lookup_insert_ne, Hnone in Hf by naive_solver. done.
Qed.

(** A block that transaction [t] writes: its lbid, its current version, and the
    place its old contents are copied to. *)
Record vwrite := mkW { w_lbid : Z; w_cur : Z; w_oid : Z; w_fbo : Z }.

Definition apply_a (t : Z) (ws : list vwrite) (a : amap) : amap :=
  foldr (fun w => write_a t (w_lbid w) (w_cur w)) a ws.
Definition apply_b (ws : list vwrite) (b : bmap) : bmap :=
  foldr (fun w => <[(w_lbid w, w_cur w) := (w_oid w, w_fbo w)]>) b ws.

Definition valid_write (t : Z) (a : amap) (w : vwrite) : Prop :=
  0 ≤ w_lbid w ∧ 0 ≤ w_cur w < t ∧ current_version a (w_lbid w) (w_cur w) false.

Lemma apply_a_frame t ws a l v : l ∉ w_lbid <$> ws → apply_a t ws a !! (l, v) = a !! (l, v).
Proof.
  induction ws as [|w ws IH]; [done|]. rewrite fmap_cons, not_elem_of_cons. intros [Hne Hni].
  cbn [apply_a foldr]. rewrite write_lookup, !decide_False by naive_solver. by apply IH.
Qed.

Lemma apply_b_frame ws b l v : l ∉ w_lbid <$> ws → apply_b ws b !! (l, v) = b !! (l, v).
Proof.
  induction ws as [|w ws IH]; [done|]. rewrite fmap_cons, not_elem_of_cons. intros [Hne Hni].
  cbn [apply_b foldr]. rewrite lookup_insert_ne by naive_solver. by apply IH.
Qed.

Lemma valid_write_frame t ws a w :
  w_lbid w ∉ w_lbid <$> ws → valid_write t a w → valid_write t (apply_a t ws a) w.
Proof.
  intros Hni (Hl & Hc & Hcur). split; [done|]. split; [done|]. unfold current_version in *.
  rewrite apply_a_frame by done. destruct Hcur as [?|(? & ? & Hn)]; [by left|right].
  split_and!; [done|done|]. intros v. by rewrite apply_a_frame.
Qed.

Lemma apply_versions_ok t ws a b :
  versions_ok a b → NoDup (w_lbid <$> ws) → Forall (valid_write t a) ws →
  versions_ok (apply_a t ws a) (apply_b ws b).
Proof.
  intros Hok Hnd Hv. induction Hv as [|w ws Hw Hv IH]; [done|].
  rewrite fmap_cons in Hnd. apply NoDup_cons in Hnd as [Hni Hnd].
  destruct (valid_write_frame t ws a w Hni Hw) as (Hl & Hc & Hcur).
  cbn [apply_a apply_b foldr]. apply write_versions_ok; auto.
Qed.

Lemma apply_perm t ws ws' a b :
  NoDup (w_lbid <$> ws) → ws ≡ₚ ws' → apply_a t ws a = apply_a t ws' a ∧ apply_b ws b = apply_b ws' b.
Proof.
  intros Hnd Hp.
  assert (∀ i j w1 w2, i ≠ j → ws !! i = Some w1 → ws !! j = Some w2 → w_lbid w1 ≠ w_lbid w2) as Hdist.
  { intros i j w1 w2 Hij H1 H2 Heq. apply Hij. eapply (NoDup_lookup (w_lbid <$> ws)); [done|..];
      rewrite list_lookup_fmap; [by rewrite H1|rewrite H2; cbn; by rewrite Heq]. }
  unfold apply_a, apply_b. split; (refine (foldr_permutation (=) _ _ ws ws' _ Hp));
    intros i w1 j w2 x Hij H1 H2; pose proof (Hdist i j w1 w2 Hij H1 H2) as Hne.
  - apply map_eq. intros [l v]. rewrite !write_lookup. repeat case_decide; naive_solver.
  - apply insert_insert_ne. naive_solver.
Qed.

(** [writeVBEntry] for a list of blocks. *)
Definition write_all (t : Z) (ws : list vwrite) : M Node unit :=
  forM ws (fun w => writeVBEntry t (w_lbid w) (w_oid w) (w_fbo w) ≫= fun _ => sn_confirmChanges).

(** The extent map confirms without an exception. *)
Definition em_confirms : Prop := ∀ x : EM, ∃ x', em_confirmChanges x = (Ret tt, x').

Lemma sn_confirm_spec n : em_confirms →
  ∃ n', sn_confirmChanges n = (Ret tt, n') ∧ unlocked n' ∧ (node_inv n → node_inv n') ∧
    u_mem (sn_vss n') = u_mem (sn_vss n) ∧ u_mem (sn_vbbm n') = u_mem (sn_vbbm n).
Proof.
  intros Hc. destruct (Hc (sn_em n)) as (x' & Hx). unfold sn_confirmChanges, catch.
  assert (on_em em_confirmChanges n = (Ret tt, mkNode x' (sn_vbbm n) (sn_vss n) (sn_copylocks n) (locked0 n) (locked1 n) (locked2 n))) as He.
  { unfold on_em, zoom. by rewrite Hx. }
  rewrite (bind_ret _ _ _ _ _ He).
  assert (∀ (k0 k1 k2 : bool) x (b b' : VBBM) (v v' : VSS) (c c' : CopyLocks),
    u_mem b' = u_mem b → u_mem v' = u_mem v → u_mem c' = u_mem c →
    node_inv (mkNode x b v c k0 k1 k2) → node_inv (mkNode x' b' v' c' false false false)) as Hkeep.
  { intros k0 k1 k2 x b b' v v' c c' E1 E2 E3 [H1 H2 H3 H4]. unfold node_a, node_b in H4. cbn [sn_vbbm sn_vss sn_copylocks] in *.
    split; unfold node_a, node_b; cbn [sn_vbbm sn_vss sn_copylocks]; by rewrite ?E1, ?E2, ?E3. }
  destruct n as [x b v c k0 k1 k2]. cbn [sn_em sn_vbbm sn_vss sn_copylocks locked0 locked1 locked2] in *.
  exists (mkNode x' (if k0 then mkUndoable (u_mem b) [] else b) (if k1 then mkUndoable (u_mem v) [] else v)
            (if k2 then mkUndoable (u_mem c) [] else c) false false false).
  split; [destruct k0, k1, k2; reflexivity|]. split; [by split|].
  split; [apply Hkeep; by case_match|]. cbn [sn_vss sn_vbbm]. split; by case_match.
Qed.

Lemma write_all_spec t ws n : em_confirms → unlocked n →
  node_inv n → NoDup (w_lbid <$> ws) → Forall (valid_write t (node_a n)) ws →
  ∃ n', write_all t ws n = (Ret tt, n') ∧ unlocked n' ∧ node_inv n' ∧
        node_a n' = apply_a t (rev ws) (node_a n) ∧ node_b n' = apply_b (rev ws) (node_b n).
Proof.
  intros Hem. revert n. induction ws as [|w ws IH]; intros n Hu Hn Hnd Hv; [by exists n|].
  rewrite fmap_cons in Hnd. apply NoDup_cons in Hnd as [Hni Hnd]. apply Forall_cons in Hv as [Hw Hv].
  destruct Hw as (Hl & Hc & Hcur), Hu as (Hk0 & Hk1 & _).
  destruct (writeVBEntry_spec t (w_lbid w) (w_oid w) (w_fbo w) n (w_cur w) false Hn Hk0 Hk1 Hl Hcur)
    as (n0 & Hr & _ & _ & _ & _ & Hn0 & Ha & Hb). specialize (Hn0 ltac:(done)).
  destruct (sn_confirm_spec n0 Hem) as (n1 & Hr1 & Hu1 & Hn1 & Hm1 & Hm2). specialize (Hn1 Hn0).
  unfold node_a in Ha. unfold node_b in Hb. rewrite <- Hm1 in Ha. rewrite <- Hm2 in Hb. fold (node_a n) (node_a n1) in Ha. fold (node_b n) (node_b n1) in Hb.
  assert (w_cur w <? t = true) as Hlt by (apply Z.ltb_lt; lia). rewrite Hlt in Ha, Hb.
  destruct (IH n1 Hu1 Hn1 Hnd) as (n2 & Hr2 & Hu2 & Hn2 & Ha2 & Hb2).
  { rewrite Ha. change (write_a t (w_lbid w) (w_cur w) (node_a n)) with (apply_a t [w] (node_a n)).
    apply Forall_forall. intros w' Hw'. apply valid_write_frame.
    - intros Heq. apply list_elem_of_singleton in Heq. apply Hni. rewrite <- Heq.
      by apply list_elem_of_fmap_2.
    - rewrite Forall_forall in Hv. by apply Hv. }
  exists n2. split; [|split; [done|split; [done|]]].
  - unfold write_all. cbn [forM]. rewrite assoc_run, (bind_ret _ _ _ _ _ Hr), (bind_ret _ _ _ _ _ Hr1). exact Hr2.
  - rewrite Ha2, Hb2, Ha, Hb. unfold apply_a, apply_b. cbn [rev]. by rewrite !foldr_app.
Qed.

(** Rolling back one block undoes its write. *)
Lemma rollback_block_spec t w fl n a b :
  node_inv n → versions_ok a b → valid_write t a w →
  node_a n = write_a t (w_lbid w) (w_cur w) a →
  node_b n = <[(w_lbid w, w_cur w) := (w_oid w, w_fbo w)]> b →
  ∃ fl' n', rollback_block t (w_lbid w) fl n = (Ret fl', n') ∧ node_inv n' ∧
            node_a n' = a ∧ node_b n' = b.
Proof.
  intros [Hvb Hvs Hcl Hok] Hok0 (Hl & Hc & Hcur) Ha Hb.
  set (l := w_lbid w) in *. set (c := w_cur w) in *.
  assert (∀ v f, a !! (l, v) = Some f → v ≤ c) as Hmax by (intros; by eapply current_version_max).
  assert (node_a n !! (l, c) = Some (true, false)) as Hlc.
  { by rewrite Ha, write_lookup, decide_False, decide_True by lia. }
  unfold rollback_block. erewrite bind_ret; cycle 1.
  { cbv beta. rewrite (highest_in_vb _ (node_b n) l t c); [reflexivity|done|done|eauto|lia|].
    intros v lck. fold (node_a n). rewrite Ha, write_lookup. repeat case_decide; [done|intros; lia|].
    intros Hv%Hmax. done. }
  assert (c =? -1 = false) as -> by (apply Z.eqb_neq; lia).
  destruct (removeEntry_detail l c (sn_vbbm n)) as (b1 & Hr1 & Hi1 & Hb1 & _); [lia|done|].
  pose proof (setVBFlag_spec l c false (sn_vss n) ltac:(lia) Hvs) as Hset.
  fold (node_a n) in Hset. rewrite Hlc in Hset. destruct Hset as (s1 & Hr2 & Hi2 & Ha2).
  pose proof (vss_removeEntry_spec l t fl s1 ltac:(lia) Hi2) as Hrm.
  rewrite Ha2, Ha in Hrm.
  pose proof (rollback_maps a l t c ltac:(lia) Hmax) as Hmaps.
  destruct (spec_removeEntry l t _) as [a' flush]. cbn [fst] in Hmaps.
  destruct Hrm as (s2 & Hr3 & Hi3 & Ha3).
  assert (a' = a) as ->.
  { apply Hmaps. destruct Hcur as [Hcur|(_ & _ & Hn)]; [left|by right].
    split; [done|]. by eapply (vo_old _ _ Hok0). }
  assert (delete (l, c) (vb_abs (u_mem (sn_vbbm n))) = b) as Hdel.
  { fold (node_b n). rewrite Hb. apply delete_insert_id.
    destruct (b !! (l, c)) eqn:Hbc; [|done]. destruct (proj1 (vo_vb _ _ Hok0 (l, c))) as [x Hx]; [by eexists|].
    destruct Hcur as [Hcur|(_ & _ & Hn)]; [congruence|by rewrite Hn in Hx]. }
  eexists _, _. split.
  - rewrite assoc_run. erewrite bind_ret by by apply on_vb_run.
    erewrite bind_ret by by apply on_vs_run. by apply on_vs_run.
  - unfold node_a, node_b. cbn [sn_vss sn_vbbm sn_copylocks]. rewrite Ha3, Hb1, Hdel. split; [|done].
    split; cbn [sn_vss sn_vbbm sn_copylocks]; try done. unfold node_a, node_b. cbn [sn_vss sn_vbbm].
    by rewrite Ha3, Hb1, Hdel.
Qed.

Lemma rollback_blocks_spec t ws fl n a b :
  node_inv n → versions_ok a b → NoDup (w_lbid <$> ws) → Forall (valid_write t a) ws →
  node_a n = apply_a t ws a → node_b n = apply_b ws b →
  ∃ fl' n', rollback_blocks t (w_lbid <$> ws) fl n = (Ret fl', n') ∧ node_inv n' ∧
            node_a n' = a ∧ node_b n' = b.
Proof.
  revert fl n. induction ws as [|w ws IH]; intros fl n Hn Hok Hnd Hv Ha Hb; [by exists fl, n|].
  rewrite fmap_cons in Hnd. apply NoDup_cons in Hnd as [Hni Hnd]. apply Forall_cons in Hv as [Hw Hv].
  destruct (rollback_block_spec t w fl n (apply_a t ws a) (apply_b ws b)) as (fl1 & n1 & Hr1 & Hn1 & Ha1 & Hb1);
    try done; [by apply apply_versions_ok|by apply valid_write_frame|].
  destruct (IH fl1 n1 Hn1 Hok Hnd Hv Ha1 Hb1) as (fl2 & n2 & Hr2 & Hrest).
  exists fl2, n2. rewrite fmap_cons. cbn [rollback_blocks]. by rewrite (bind_ret _ _ _ _ _ Hr1).
Qed.

(** A transaction that wrote some blocks and is rolled back leaves both tables as
    it found them. *)
Lemma transaction_rollback_spec t ws n :
  em_confirms → unlocked n → node_inv n → NoDup (w_lbid <$> ws) → Forall (valid_write t (node_a n)) ws →
  ∃ n1, write_all t ws n = (Ret tt, n1) ∧
    ∀ ws', ws' ≡ₚ ws →
    ∃ n2 fl, vbRollback t (w_lbid <$> ws') n1 = (Ret (0, fl), n2) ∧ node_inv n2 ∧
             node_a n2 = node_a n ∧ node_b n2 = node_b n.
Proof.
  intros Hem Hu Hn Hnd Hv. destruct (write_all_spec t ws n Hem Hu Hn Hnd Hv) as (n1 & Hr & (Hk0 & Hk1 & Hk2) & Hn1 & Ha & Hb).
  exists n1. split; [done|]. intros ws' Hp.
  assert (NoDup (w_lbid <$> ws')) as Hnd' by by rewrite Hp.
  assert (Forall (valid_write t (node_a n)) ws') as Hv' by by rewrite Hp.
  destruct (apply_perm t ws' (rev ws) (node_a n) (node_b n) Hnd') as [Hpa Hpb].
  { by rewrite Hp; apply Permutation_rev. }
  unfold vbRollback.
  set (n0 := mkNode (sn_em n1) (sn_vbbm n1) (sn_vss n1) (sn_copylocks n1) true true true).
  destruct Hn1 as [Hvb Hvs Hcl Hok].
  destruct (cl_rollback_spec t (sn_copylocks n1) Hcl) as (c1 & Hrc & Hic & _).
  set (n2 := mkNode (sn_em n1) (sn_vbbm n1) (sn_vss n1) c1 true true true).
  destruct (rollback_blocks_spec t ws' [] n2 (node_a n) (node_b n)) as (fl & n3 & Hr3 & Hn3 & Ha3 & Hb3);
    try done; [by apply Hn|unfold node_a at 1; cbn; fold (node_a n1); congruence
              |unfold node_b at 1; cbn; fold (node_b n1); congruence|].
  exists n3, fl. split; [|done]. apply catch_ret.
  rewrite (bind_ret _ _ _ _ _ (lock_vbbm_run n1 Hk0)). erewrite bind_ret by by apply lock_vss_run.
  erewrite bind_ret by by apply lock_cl_run. cbn.
  erewrite bind_ret by (apply (on_cl_run _ n0); exact Hrc). fold n2.
  by rewrite (bind_ret _ _ _ _ _ Hr3).
Qed.


(** ** Committing *)

Lemma release_lookup (t : Z) (a : amap) (k : Z * Z) :
  release_locks t a !! k = (fun f : bool * bool => if k.2 =? t then (f.1, false) else f) <$> a !! k.
Proof. unfold release_locks. rewrite map_lookup_imap. by destruct (a !! k). Qed.

Lemma release_Some (t : Z) (a : amap) (l v : Z) (fl lck : bool) :
  release_locks t a !! (l, v) = Some (fl, lck) →
  ∃ lck', a !! (l, v) = Some (fl, lck') ∧ (lck' = false → lck = false).
Proof.
  rewrite release_lookup. destruct (a !! (l, v)) as [[x y]|]; [|done]. cbn.
  intros Heq. case_if; simplify_eq/=; eauto.
Qed.

Lemma release_found (t : Z) (a : amap) (l v : Z) (fl lck : bool) :
  a !! (l, v) = Some (fl, lck) → ∃ lck', release_locks t a !! (l, v) = Some (fl, lck').
Proof. intros Hv. rewrite release_lookup, Hv. cbn. case_if; eauto. Qed.

Lemma release_versions_ok t a b : versions_ok a b → versions_ok (release_locks t a) b.
Proof.
  intros Hok. split.
  - intros l v [x y] (z & Hz & _)%release_Some. by eapply (vo_nonneg _ _ Hok).
  - intros [l v]. rewrite (vo_vb _ _ Hok). split.
    + intros [lck Hv]. by apply release_found with (t := t) in Hv.
    + intros [lck (z & Hz & _)%release_Some]. eauto.
  - intros l v [x y] (z & Hz & _)%release_Some.
    destruct (vo_current _ _ Hok _ _ _ Hz) as (c & lck & Hc & Hle).
    apply (release_found t) in Hc as [lck' Hc]. eauto.
  - intros l v v' x y (x' & Hx & _)%release_Some (y' & Hy & _)%release_Some.
    by eapply (vo_unique _ _ Hok).
  - intros l v lck (x & Hx & _)%release_Some. by eapply (vo_positive _ _ Hok).
  - intros [l v] lck (x & Hx & Himp)%release_Some. apply Himp. by eapply (vo_locked _ _ Hok).
  - intros l v [x y] (z & Hz & _)%release_Some.
    destruct (vo_old _ _ Hok _ _ _ Hz) as (v' & lck & Hc).
    apply (release_found t) in Hc as [lck' Hc]. eauto.
Qed.

Lemma vbCommit_spec t n :
  node_inv n → locked1 n = false →
  ∃ n', vbCommit t n = (Ret 0, n') ∧ node_inv n' ∧
        node_a n' = release_locks t (node_a n) ∧ node_b n' = node_b n.
Proof.
  intros [Hvb Hvs Hcl Hok] Hk1. destruct (commit_spec t (sn_vss n) Hvs) as (s' & Hr & Hi & Ha).
  eexists. split.
  - apply catch_ret. rewrite (bind_ret _ _ _ _ _ (lock_vss_run n Hk1)).
    erewrite bind_ret by (apply on_vs_run; exact Hr). reflexivity.
  - unfold node_a, node_b. cbn [sn_vss sn_vbbm sn_copylocks]. split; [|done].
    split; cbn [sn_vss sn_vbbm sn_copylocks]; try done. unfold node_a, node_b. cbn [sn_vss sn_vbbm].
    rewrite Ha. by apply release_versions_ok.
Qed.

(** A version written and committed is what a later snapshot reads. *)
Lemma write_commit_spec t l oid fbo n c q t' :
  em_confirms → unlocked n → node_inv n → 0 ≤ l → 0 ≤ c < t → current_version (node_a n) l c false →
  t ≤ currentScn q → t ∉ txns q →
  ∃ n0 n1 n2, writeVBEntry t l oid fbo n = (Ret 0, n0) ∧ sn_confirmChanges n0 = (Ret tt, n1) ∧
    vbCommit t n1 = (Ret 0, n2) ∧ node_inv n2 ∧
    vss_lookup l q t' false (u_mem (sn_vss n2)) = Ret (0, t, false) ∧
    getCurrentVersion l (u_mem (sn_vss n2)) = Ret (t, false).
Proof.
  intros Hem (Hk0 & Hk1 & _) Hn Hl Hct Hc Hscn Htx.
  destruct (writeVBEntry_spec t l oid fbo n c false Hn Hk0 Hk1 Hl Hc) as (n0 & Hr & _ & _ & _ & _ & Hn0 & Ha & _). specialize (Hn0 ltac:(done)).
  destruct (sn_confirm_spec n0 Hem) as (n1 & Hr1 & (_ & Hk1' & _) & Hn1 & Hm1 & _). specialize (Hn1 Hn0).
  unfold node_a in Ha. rewrite <- Hm1 in Ha. fold (node_a n) (node_a n1) in Ha.
  assert (c <? t = true) as Hlt by (apply Z.ltb_lt; lia). rewrite Hlt in Ha.
  assert (t <? c = false) as Hgt by (apply Z.ltb_ge; lia). rewrite Hgt in Hr.
  destruct (vbCommit_spec t n1 Hn1 Hk1') as (n2 & Hr2 & Hn2 & Ha2 & Hb2).
  assert (node_a n2 !! (l, t) = Some (false, false)) as Hlt2.
  { by rewrite Ha2, release_lookup, Ha, write_lookup, decide_True by done; cbn; rewrite Z.eqb_refl. }
  exists n0, n1, n2. do 4 (split; [done|]). split.
  - apply (vss_lookup_abs _ (node_b n2) l q t' t false false); [apply Hn2|apply Hn2|lia| |done].
    split; [by eexists|]. split; [done|]. split; [by right|]. intros v' [[x y] Hv'] _ _.
    eapply (current_version_max (node_a n2)); [apply Hn2|by left|exact Hv'].
  - eapply (getCurrentVersion_abs _ (node_b n2)); [apply Hn2|apply Hn2|by left].
Qed.

(** ** Undoing *)

(** Room for what [writeVBEntry] adds. *)
Definition has_room n : Prop :=
  vbCurrentSize (t_hdr (u_mem (sn_vbbm n))) < vbCapacity (t_hdr (u_mem (sn_vbbm n))) ∧
  currentSize (t_hdr (u_mem (sn_vss n))) + 1 < capacity (t_hdr (u_mem (sn_vss n))).

Lemma insert_recorded l v oid fbo (b : VBBM) :
  vbCurrentSize (t_hdr (u_mem b)) < vbCapacity (t_hdr (u_mem b)) →
  recorded (=) b (insert l v oid fbo false b).
Proof.
  intros Hlt. unfold insert. rewrite get_mem_run.
  assert (_ =? _ = false) as -> by (apply Z.eqb_neq; lia). rewrite mret_run.
  apply insert_tail_recorded.
Qed.

Lemma setVBFlag_counts l v fl (s s' : VSS) :
  setVBFlag l v fl s = (Ret tt, s') →
  currentSize (t_hdr (u_mem s')) = currentSize (t_hdr (u_mem s)) ∧
  capacity (t_hdr (u_mem s')) = capacity (t_hdr (u_mem s)).
Proof.
  unfold setVBFlag. autorewrite with run. destruct (vss_getIndex _ _ _) as [[[i p] bk]|]; [|done].
  rewrite lift_run. case_if; [done|]. destruct ((t_stor (u_mem s)).[i]) eqn:Hi; [|done].
  cbn [deref]. autorewrite with run. by intros [= <-].
Qed.

Lemma version_current_recorded (s : VSS) t l c s1 s2 :
  vss_inv (u_mem s) → l ≠ -1 →
  currentSize (t_hdr (u_mem s)) + 1 < capacity (t_hdr (u_mem s)) →
  (if 0 <? c then setVBFlag l c true else vss_insert l c true false false) s = (Ret tt, s1) →
  vss_insert l t false true false s1 = (Ret tt, s2) →
  rec_vss (=) s (Ret tt, s2).
Proof.
  intros Hinv Hl Hroom H1 H2.
  assert (rec_vss (=) s (Ret tt, s1) ∧
    currentSize (t_hdr (u_mem s1)) < capacity (t_hdr (u_mem s1))) as [Hrec1 Hroom1].
  { case_if.
    - split; [rewrite <- H1; apply setVBFlag_recorded|]. apply setVBFlag_counts in H1. lia.
    - split; [rewrite <- H1; apply vss_insert_recorded; lia|]. rewrite vss_insert_eq in H1.
      assert (currentSize (t_hdr (u_mem s)) =? capacity (t_hdr (u_mem s)) = false) as Hne
        by (apply Z.eqb_neq; lia).
      rewrite Hne, mret_run in H1. apply vss_insert_tail_counts in H1; [lia|done|done|lia]. }
  apply (recorded_trans (=) s (Ret tt, s1)); [done|]. rewrite <- H2. by apply vss_insert_recorded.
Qed.

(** A message that is undone instead of confirmed: both tables get their memory
    back, byte for byte, and the locks are released. *)
Lemma writeVBEntry_undo_spec t l oid fbo n c em' :
  node_inv n → 0 ≤ l → 0 ≤ c < t → current_version (node_a n) l c false → has_room n →
  undoRecords (sn_vbbm n) = [] → undoRecords (sn_vss n) = [] → unlocked n →
  em_undoChanges (sn_em n) = (Ret tt, em') →
  ∃ n1, writeVBEntry t l oid fbo n = (Ret 0, n1) ∧
    sn_undoChanges n1 = (Ret tt, mkNode em' (sn_vbbm n) (sn_vss n) (sn_copylocks n) false false false).
Proof.
  intros [Hvb Hvs Hcl Hok] Hl Hct Hc [Hrb Hrs] Hlb Hls (Hk0 & Hk1 & Hl2) Hem.
  pose proof (getCurrentVersion_abs _ _ l c false Hvs Hok Hc) as Hcur.
  destruct (insert_spec l c oid fbo false (sn_vbbm n)) as (b1 & Hr1 & Hi1 & Ha1 & _); [lia|done| |].
  { destruct (vb_abs (u_mem (sn_vbbm n)) !! (l, c)) eqn:Hb; [|done].
    destruct (proj1 (vo_vb _ _ Hok (l, c))) as [x Hx]; [by eexists|].
    destruct Hc as [Hc|(_ & _ & Hn)]; [congruence|by rewrite Hn in Hx]. }
  destruct (version_current (sn_vss n) _ t l c false Hvs Hok Hl ltac:(lia) Hc) as (s1 & s2 & Hr2 & Hr3 & Hi2 & Ha2).
  pose proof (insert_recorded l c oid fbo (sn_vbbm n) Hrb) as Hrecb. rewrite Hr1 in Hrecb.
  pose proof (version_current_recorded _ t l c s1 s2 Hvs ltac:(lia) Hrs Hr2 Hr3) as Hrecs.
  exists (mkNode (sn_em n) b1 s2 (sn_copylocks n) true true (locked2 n)). split.
  - apply catch_ret. unfold writeVBEntry_body. rewrite (bind_ret _ _ _ _ _ (lock_vbbm_run n Hk0)).
    erewrite bind_ret by by apply lock_vss_run.
    erewrite bind_ret by (cbn; rewrite Hcur; reflexivity). cbn.
    assert (c =? t = false) as -> by (apply Z.eqb_neq; lia).
    assert (t <? c = false) as -> by (apply Z.ltb_ge; lia).
    erewrite bind_ret by by apply on_vb_run.
    erewrite bind_ret; [|destruct (0 <? c); by apply on_vs_run].
    erewrite bind_ret by by apply on_vs_run. reflexivity.
  - apply catch_ret. erewrite bind_ret; cycle 1.
    { unfold on_em, zoom. cbn. rewrite Hem. reflexivity. }
    pose proof (recorded_undo _ _ Hlb Hrecb) as Hub. pose proof (recorded_undo _ _ Hls Hrecs) as Hus.
    cbn [snd] in Hub, Hus. erewrite bind_ret by reflexivity. cbn [id locked0 locked1 locked2].
    rewrite Hl2. rewrite assoc_run. erewrite bind_ret by (apply on_vb_run; exact Hub).
    unfold lock_vbbm. erewrite bind_ret by reflexivity.
    rewrite assoc_run. erewrite bind_ret by (apply on_vs_run; exact Hus).
    unfold lock_vss. erewrite bind_ret by reflexivity.
    unfold mret, M_ret. cbn [sn_em sn_vbbm sn_vss sn_copylocks locked0 locked1 locked2].
    destruct (sn_vbbm n) as [mb lb], (sn_vss n) as [ms ls]. cbn in Hlb, Hls. by subst lb ls.
Qed.
End Node.
