(* ===== verification/Samples.v ===== *)
(** * Small concrete tables

    A VSS, a VBBM and a copy-lock segment of a few slots, built with the
    operations themselves, with their invariants: the inputs at which the
    theorems of the next files are instantiated. *)

From S2P Require Import Prelude Hasher HashChain Undo Table Vbbm VbbmProofs Vss VssProofs VssWrite CopyLocks SlaveNode SlaveProofs.

#[local] Opaque Hasher.

Lemma forallb_Forall {A} (f : A → bool) l : forallb f l = true → Forall (fun x => f x = true) l.
Proof. rewrite forallb_forall, Forall_forall. intros Hf x Hx. by apply Hf, list_elem_of_In. Qed.

(** ** VSS *)

Definition vss0 : VSS :=
  mkUndoable (mkTbl (mkMST 0x30000 0 0) (mkVSSHdr 4 0 0 2 0) []
    (replicate 2 (-1)) (replicate 4 empty_VSSEntry)) [].

Lemma vss0_inv : vss_inv (u_mem vss0) ∧ vss_abs (u_mem vss0) = ∅.
Proof. apply (vss_empty_inv (mkMST 0x30000 0 0) 4 2 0); lia. Qed.

(** Block 7 has its version 0 in the version buffer. *)
Definition vss1 : VSS := (vss_insert 7 0 true false false vss0).2.

Lemma vss1_inv : vss_inv (u_mem vss1) ∧ vss_abs (u_mem vss1) = {[ (7, 0) := (true, false) ]}.
Proof.
  destruct vss0_inv as [Hi Ha].
  destruct (vss_insert_spec 7 0 true false false vss0) as (s' & Hr & Hi' & Ha' & _);
    [lia|done|by rewrite Ha|].
  unfold vss1. rewrite Hr. cbn [snd]. split; [done|]. by rewrite Ha', Ha.
Qed.

(** Transaction 3 is writing block 7. *)
Definition vss2 : VSS := (vss_insert 7 3 false true false vss1).2.

Lemma vss2_inv :
  vss_inv (u_mem vss2) ∧
  vss_abs (u_mem vss2) = {[ (7, 3) := (false, true); (7, 0) := (true, false) ]}.
Proof.
  destruct vss1_inv as [Hi Ha].
  destruct (vss_insert_spec 7 3 false true false vss1) as (s' & Hr & Hi' & Ha' & _);
    [lia|done|by rewrite Ha|].
  unfold vss2. rewrite Hr. cbn [snd]. split; [done|]. by rewrite Ha', Ha.
Qed.

(** The same with a log emptied by [confirmChanges]. *)
Definition confirmed {D Mem} (s : undoable D Mem) : undoable D Mem := mkUndoable (u_mem s) [].

(** A full table: one slot, taken. *)
Definition vss_full0 : VSS :=
  mkUndoable (mkTbl (mkMST 0x30000 0 0) (mkVSSHdr 1 0 0 1 0) []
    (replicate 1 (-1)) (replicate 1 empty_VSSEntry)) [].
Definition vss_full : VSS := (vss_insert 7 0 true false false vss_full0).2.

Lemma vss_full_inv : vss_inv (u_mem vss_full) ∧ vss_abs (u_mem vss_full) = {[ (7, 0) := (true, false) ]}.
Proof.
  assert (vss_inv (u_mem vss_full0) ∧ vss_abs (u_mem vss_full0) = ∅) as [Hi Ha].
  { apply (vss_empty_inv (mkMST 0x30000 0 0) 1 1 0); lia. }
  destruct (vss_insert_spec 7 0 true false false vss_full0) as (s' & Hr & Hi' & Ha' & _);
    [lia|exact Hi|by rewrite Ha|].
  unfold vss_full. rewrite Hr. cbn [snd]. split; [done|]. by rewrite Ha', Ha.
Qed.

(** ** VBBM *)

(** One version buffer file, of 300 blocks. *)
Definition vbbm0 : VBBM :=
  mkUndoable (mkTbl (mkMST 0x40000 0 0) (mkVBHdr 1 4 0 0 2) [mkVBFile 9 (300 * 8192) 0]
    (replicate 2 (-1)) (replicate 4 empty_VBBMEntry)) [].

Lemma vbbm0_inv :
  vb_inv (u_mem vbbm0) ∧ vb_abs (u_mem vbbm0) = ∅ ∧ slack (u_mem vbbm0) = 0.
Proof. apply (empty_inv (mkMST 0x40000 0 0) [mkVBFile 9 (300 * 8192) 0] 1 0 4 2); [done|lia|lia]. Qed.

Definition vbbm1 : VBBM := (insert 7 0 9 120 false vbbm0).2.

Lemma vbbm1_inv :
  vb_inv (u_mem vbbm1) ∧ vb_abs (u_mem vbbm1) = {[ (7, 0) := (9, 120) ]} ∧ slack (u_mem vbbm1) = 0.
Proof.
  destruct vbbm0_inv as (Hi & Ha & Hs).
  destruct (insert_spec 7 0 9 120 false vbbm0) as (s' & Hr & Hi' & Ha' & Hs' & _);
    [lia|done|by rewrite Ha|].
  unfold vbbm1. rewrite Hr. cbn [snd]. split; [exact Hi'|]. split; [by rewrite Ha', Ha|congruence].
Qed.

(** ** Copy locks *)

Definition cl0 : CopyLocks :=
  mkUndoable (mkCLMem (mkMST 0x50001 32 0) 0x50001 (replicate 2 (mkCL 0 0 0))) [].

Lemma cl0_inv : cl_inv (u_mem cl0).
Proof. by split. Qed.

(** Transaction 3 holds blocks 100 to 109. *)
Definition cl1 : CopyLocks := (lockRange (mkRange 100 10) 3 cl0).2.

Lemma cl1_inv : cl_inv (u_mem cl1).
Proof. by split; vm_compute. Qed.

(** ** A node *)

(** An extent map that knows one object, 3000, at blocks 0 to 15. *)
#[global] Instance sample_em : ExtentMapCalls unit := {
  em_lookup oid := mret (if oid =? 3000 then [mkRange 0 16] else []);
  em_deleteOID _ := mret tt;
  em_deleteOIDs _ := mret tt;
  em_confirmChanges := mret tt;
  em_undoChanges := mret tt;
  em_checkConsistency := mret 0;
  em_save := mret [];
  em_load _ := mret tt;
}.

Definition node0 : SlaveDBRMNode (EM := unit) := mkNode tt vbbm0 vss0 cl0 false false false.

Lemma node0_inv : node_inv node0.
Proof.
  split; [apply vbbm0_inv|apply vss0_inv|apply cl0_inv|]. change (versions_ok (vss_abs (u_mem vss0)) (vb_abs (u_mem vbbm0))).
  rewrite (proj2 vss0_inv), (proj1 (proj2 vbbm0_inv)). apply empty_versions_ok.
Qed.
