(* ===== verification/NodeTheorems.v ===== *)
(** * What the worker node guarantees

    The end-to-end statements about [SlaveDBRMNode], each with an instance at a
    small node. *)

From S2P Require Import Prelude Hasher HashChain Undo Table Vbbm VbbmProofs Vss VssProofs VssWrite VssUndo CopyLocks SlaveNode SlaveProofs Samples.

#[local] Opaque Hasher.

Section NodeTheorems.
Context {EM : Type} `{ExtentMapCalls EM}.
Implicit Types n : SlaveDBRMNode (EM := EM).

(** C1 Snapshot isolation: once transaction [t] has versioned block [l] with
    [writeVBEntry], every other transaction whose snapshot does not include [t]
    (it is in its list of active transactions, or newer than its SCN) still reads
    the version [c] that was current, told that it is in the version buffer, and
    the VBBM gives the place it was copied to. *)
Theorem snapshot_isolation t l oid fbo n n' c q t' rc :
  node_inv n → 0 ≤ l → c < t → current_version (node_a n) l c false →
  writeVBEntry t l oid fbo n = (Ret rc, n') →
  t' ≠ t → t ∈ txns q ∨ currentScn q < t → c ≤ currentScn q → c ∉ txns q →
  vss_lookup l q t' false (u_mem (sn_vss n')) = Ret (0, c, true) ∧
  lookup l c (u_mem (sn_vbbm n')) = Ret (Some (oid, fbo)).
Proof. apply write_isolation. Qed.

(** C15 A transaction that versioned any set of distinct, unlocked blocks, each call
    of [writeVBEntry] confirmed, and is then rolled back with [vbRollback], the
    blocks in any order, leaves the VSS and the VBBM with exactly the entries they
    had before, and the invariant of the node holds. *)
Theorem transaction_rollback t (ws : list vwrite) n :
  em_confirms (EM := EM) → unlocked n → node_inv n → NoDup (w_lbid <$> ws) → Forall (valid_write t (node_a n)) ws →
  ∃ n1, write_all t ws n = (Ret tt, n1) ∧
    ∀ ws', ws' ≡ₚ ws →
    ∃ n2 fl, vbRollback t (w_lbid <$> ws') n1 = (Ret (0, fl), n2) ∧ node_inv n2 ∧
             node_a n2 = node_a n ∧ node_b n2 = node_b n.
Proof. apply transaction_rollback_spec. Qed.

(** C19 A version that was written, confirmed and committed is the one every later
    snapshot reads, from the main data file, and it is the block's current, unlocked
    version. *)
Theorem committed_version_visible t l oid fbo n c q t' :
  em_confirms (EM := EM) → unlocked n → node_inv n → 0 ≤ l → 0 ≤ c < t → current_version (node_a n) l c false →
  t ≤ currentScn q → t ∉ txns q →
  ∃ n0 n1 n2, writeVBEntry t l oid fbo n = (Ret 0, n0) ∧ sn_confirmChanges n0 = (Ret tt, n1) ∧
    vbCommit t n1 = (Ret 0, n2) ∧ node_inv n2 ∧
    vss_lookup l q t' false (u_mem (sn_vss n2)) = Ret (0, t, false) ∧
    getCurrentVersion l (u_mem (sn_vss n2)) = Ret (t, false).
Proof. apply write_commit_spec. Qed.

(** C20 [writeVBEntry] on every branch, from a node that holds no lock on the two
    tables: a newer current version is refused with ERR_OLDTXN_OVERWRITING_NEWTXN and
    a block the transaction already wrote is left alone, both with the tables
    unchanged; otherwise the old version moves to the version buffer, with the lock it
    had, and the transaction's version is added, locked.  The invariants of the tables
    are preserved, and that of the node unless the old version was locked by an older
    transaction. *)
Theorem writeVBEntry_correct t l oid fbo n c lck :
  node_inv n → locked0 n = false → locked1 n = false → 0 ≤ l → current_version (node_a n) l c lck →
  ∃ n', writeVBEntry t l oid fbo n =
          (Ret (if t <? c then ERR_OLDTXN_OVERWRITING_NEWTXN else 0), n') ∧
    vb_inv (u_mem (sn_vbbm n')) ∧ vss_inv (u_mem (sn_vss n')) ∧ sn_copylocks n' = sn_copylocks n ∧
    locked2 n' = locked2 n ∧ ((c < t → lck = false) → node_inv n') ∧
    node_a n' = (if c <? t then write_over t l c lck (node_a n) else node_a n) ∧
    node_b n' = (if c <? t then <[(l, c) := (oid, fbo)]> (node_b n) else node_b n).
Proof. apply writeVBEntry_spec. Qed.

(** A message the controller undoes: after [writeVBEntry] on tables with room,
    [undoChanges] gives both segments back byte for byte, and releases the
    locks. *)
Theorem writeVBEntry_undone t l oid fbo n c em' :
  node_inv n → 0 ≤ l → 0 ≤ c < t → current_version (node_a n) l c false → has_room n →
  undoRecords (sn_vbbm n) = [] → undoRecords (sn_vss n) = [] → unlocked n →
  em_undoChanges (sn_em n) = (Ret tt, em') →
  ∃ n1, writeVBEntry t l oid fbo n = (Ret 0, n1) ∧
    sn_undoChanges n1 = (Ret tt, mkNode em' (sn_vbbm n) (sn_vss n) (sn_copylocks n) false false false).
Proof. apply writeVBEntry_undo_spec. Qed.
End NodeTheorems.

(** ** Instances *)

Lemma node0_current l : current_version (node_a node0) l 0 false.
Proof.
  right. split; [done|]. split; [done|]. intros v.
  change (vss_abs (u_mem vss0) !! (l, v) = None). by rewrite (proj2 vss0_inv).
Qed.

Definition node1 : SlaveDBRMNode (EM := unit) := (writeVBEntry 3 7 9 120 node0).2.

Lemma node1_run : writeVBEntry 3 7 9 120 node0 = (Ret 0, node1).
Proof. vm_compute. reflexivity. Qed.

Lemma snapshot_isolation_witness :
  vss_lookup 7 (mkQC 5 {[3]}) 4 false (u_mem (sn_vss node1)) = Ret (0, 0, true) ∧
  lookup 7 0 (u_mem (sn_vbbm node1)) = Ret (Some (9, 120)).
Proof.
  apply (snapshot_isolation 3 7 9 120 node0 node1 0 (mkQC 5 {[3]}) 4 0);
    [exact node0_inv|lia|lia|exact (node0_current 7)|exact node1_run|lia|left; cbn; set_solver
    |cbn; lia|cbn; set_solver by lia].
Defined.

Lemma transaction_rollback_witness :
  ∃ n1, write_all 3 [mkW 7 0 9 120; mkW 8 0 9 121] node0 = (Ret tt, n1) ∧
    ∀ ws', ws' ≡ₚ [mkW 7 0 9 120; mkW 8 0 9 121] →
    ∃ n2 fl, vbRollback 3 (w_lbid <$> ws') n1 = (Ret (0, fl), n2) ∧ node_inv n2 ∧
             node_a n2 = node_a node0 ∧ node_b n2 = node_b node0.
Proof.
  apply (transaction_rollback 3 [mkW 7 0 9 120; mkW 8 0 9 121] node0); [intros x; by exists x|by split|exact node0_inv|..].
  - apply (bool_decide_unpack _). vm_compute. exact I.
  - repeat constructor; cbn; try lia; apply node0_current.
Defined.

Lemma committed_version_visible_witness :
  ∃ n0 n1 n2, writeVBEntry 3 7 9 120 node0 = (Ret 0, n0) ∧ sn_confirmChanges n0 = (Ret tt, n1) ∧
    vbCommit 3 n1 = (Ret 0, n2) ∧ node_inv n2 ∧
    vss_lookup 7 (mkQC 5 ∅) 4 false (u_mem (sn_vss n2)) = Ret (0, 3, false) ∧
    getCurrentVersion 7 (u_mem (sn_vss n2)) = Ret (3, false).
Proof.
  apply (committed_version_visible 3 7 9 120 node0 0 (mkQC 5 ∅) 4);
    [intros x; by exists x|by split|exact node0_inv|lia|lia|exact (node0_current 7)|cbn; lia|cbn; set_solver].
Defined.

Lemma writeVBEntry_correct_witness :
  ∃ n', writeVBEntry 3 7 9 120 node0 = (Ret 0, n') ∧
    vb_inv (u_mem (sn_vbbm n')) ∧ vss_inv (u_mem (sn_vss n')) ∧ sn_copylocks n' = sn_copylocks node0 ∧
    locked2 n' = locked2 node0 ∧ ((0 < 3 → false = false) → node_inv n') ∧
    node_a n' = write_over 3 7 0 false (node_a node0) ∧ node_b n' = <[(7, 0) := (9, 120)]> (node_b node0).
Proof.
  apply (writeVBEntry_correct 3 7 9 120 node0 0 false);
    [exact node0_inv|reflexivity|reflexivity|lia|exact (node0_current 7)].
Defined.

Lemma writeVBEntry_undone_witness :
  ∃ n1, writeVBEntry 3 7 9 120 node0 = (Ret 0, n1) ∧ sn_undoChanges n1 = (Ret tt, node0).
Proof.
  apply (writeVBEntry_undone 3 7 9 120 node0 0 tt);
    [exact node0_inv|lia|lia|exact (node0_current 7)|split; cbn; lia|reflexivity|reflexivity|by split|reflexivity].
Defined.
