(* ===== verification/VssTheorems.v ===== *)
(** * What the VSS guarantees

    The statements about the VSS, each with an instance at a small table, and the
    concrete runs in which the code does not do what it means to. *)

From S2P Require Import Prelude BinFile Hasher HashChain Undo Table Vbbm VbbmProofs Vss VssProofs VssWrite VssUndo CopyLocks SlaveNode SlaveProofs Samples.

#[local] Opaque Hasher.

(** C21 [VSS::lookup] computes the snapshot read: it returns the newest version of
    the block among those not newer than the SCN of the query and not belonging
    to another active transaction, with its flag; if the query may see only newer
    versions it returns ERR_SNAPSHOT_TOO_OLD, and -1 if there is nothing to
    see. *)
Theorem vss_lookup_snapshot m l q t b :
  vss_struct m → vers_nonneg m → 0 ≤ currentScn q →
  ∃ res, vss_lookup l q t b m = Ret res ∧ lookup_result m l q t b res.
Proof. apply vss_lookup_spec. Qed.

Lemma vss2_nonneg : vers_nonneg (u_mem vss2).
Proof.
  intros e He. destruct vss2_inv as [Hi Ha]. apply (in_table_abs _ _ Hi) in He. rewrite Ha in He.
  apply lookup_insert_Some in He as [[[= _ <-] _]|[_ He]]; [lia|].
  apply lookup_singleton_Some in He as [[= _ <-] _]. lia.
Qed.

Lemma vss_lookup_snapshot_witness :
  (∃ res, vss_lookup 7 (mkQC 5 {[3]}) 4 false (u_mem vss2) = Ret res ∧
    lookup_result (u_mem vss2) 7 (mkQC 5 {[3]}) 4 false res) ∧
  vss_lookup 7 (mkQC 5 {[3]}) 4 false (u_mem vss2) = Ret (0, 0, true) ∧
  vss_lookup 7 (mkQC 5 {[3]}) 3 false (u_mem vss2) = Ret (0, 3, false).
Proof.
  split; [apply vss_lookup_snapshot; [apply vss2_inv|exact vss2_nonneg|cbn; lia]|].
  split; vm_compute; reflexivity.
Defined.

(** C37 [VSS::insert] implements insertion into the map from (lbid, version) to
    (vbFlag, locked), also when the table is full and has to be moved to a larger
    segment; it keeps the invariant and counts the locked entry. *)
Theorem vss_insert_refines l ver vbf lck loading s :
  l ≠ -1 → vss_inv (u_mem s) → vss_abs (u_mem s) !! (l, ver) = None →
  ∃ s', vss_insert l ver vbf lck loading s = (Ret tt, s') ∧ vss_inv (u_mem s') ∧
        vss_abs (u_mem s') = <[(l, ver) := (vbf, lck)]> (vss_abs (u_mem s)) ∧
        lockedEntryCount (t_hdr (u_mem s')) =
          lockedEntryCount (t_hdr (u_mem s)) + (if lck then 1 else 0).
Proof. apply vss_insert_spec. Qed.

Lemma vss_insert_refines_witness :
  ∃ s', vss_insert 8 3 false true false vss_full = (Ret tt, s') ∧ vss_inv (u_mem s') ∧
        vss_abs (u_mem s') = <[(8, 3) := (false, true)]> (vss_abs (u_mem vss_full)) ∧
        lockedEntryCount (t_hdr (u_mem s')) = lockedEntryCount (t_hdr (u_mem vss_full)) + 1.
Proof.
  apply (vss_insert_refines 8 3 false true false vss_full); [lia|apply vss_full_inv|].
  rewrite (proj2 vss_full_inv). reflexivity.
Defined.

(** [VSS::removeEntry] implements its specification: the version goes, and
    when no version of the block is left that is locked or in the version buffer,
    all versions of the block go and the block is put on the flush list.  A
    missing version changes nothing. *)
Theorem vss_removeEntry_refines l ver fl s :
  l ≠ -1 → vss_inv (u_mem s) →
  let '(a', flush) := spec_removeEntry l ver (vss_abs (u_mem s)) in
  ∃ s', vss_removeEntry l ver fl s = (Ret (if flush then fl ++ [l] else fl), s') ∧
        vss_inv (u_mem s') ∧ vss_abs (u_mem s') = a'.
Proof. apply vss_removeEntry_spec. Qed.

Lemma vss_removeEntry_refines_witness :
  let '(a', flush) := spec_removeEntry 7 0 (vss_abs (u_mem vss1)) in
  ∃ s', vss_removeEntry 7 0 [] vss1 = (Ret (if flush then [7] else []), s') ∧
        vss_inv (u_mem s') ∧ vss_abs (u_mem s') = a'.
Proof. apply (vss_removeEntry_refines 7 0 [] vss1); [lia|apply vss1_inv]. Defined.

(** [VSS::commit] releases the lock of every version of the transaction, in
    whatever slot and chain, and changes nothing else of the map. *)
Theorem commit_refines txnID s :
  vss_inv (u_mem s) →
  ∃ s', commit txnID s = (Ret tt, s') ∧ vss_inv (u_mem s') ∧
        vss_abs (u_mem s') = release_locks txnID (vss_abs (u_mem s)).
Proof. apply commit_spec. Qed.

Lemma commit_refines_witness :
  ∃ s', commit 3 vss2 = (Ret tt, s') ∧ vss_inv (u_mem s') ∧
        vss_abs (u_mem s') = release_locks 3 (vss_abs (u_mem vss2)).
Proof. apply (commit_refines 3 vss2), vss2_inv. Defined.

(** [VSS::removeEntriesFromDB] forgets every version of every block of the
    range, and in the VBBM exactly those versions of them that the VSS says are
    in the version buffer. *)
Theorem removeEntriesFromDB_refines r use_vbbm s (b : VBBM) :
  0 ≤ range_start r → vss_inv (u_mem s) → vb_inv (u_mem b) →
  ∃ s' b', removeEntriesFromDB r use_vbbm (s, b) = (Ret tt, (s', b')) ∧
    vss_inv (u_mem s') ∧ vb_inv (u_mem b') ∧
    vss_abs (u_mem s') = filter (fun kv => ¬ in_range r kv.1.1) (vss_abs (u_mem s)) ∧
    vb_abs (u_mem b') =
      filter (fun kv => ¬ (use_vbbm = true ∧ in_range r kv.1.1 ∧
                           fst <$> vss_abs (u_mem s) !! kv.1 = Some true)) (vb_abs (u_mem b)).
Proof. apply removeEntriesFromDB_spec. Qed.

Lemma removeEntriesFromDB_refines_witness :
  ∃ s' b', removeEntriesFromDB (mkRange 0 16) true (vss2, vbbm1) = (Ret tt, (s', b')) ∧
    vss_inv (u_mem s') ∧ vb_inv (u_mem b') ∧
    vss_abs (u_mem s') = filter (fun kv => ¬ in_range (mkRange 0 16) kv.1.1) (vss_abs (u_mem vss2)) ∧
    vb_abs (u_mem b') =
      filter (fun kv => ¬ (true = true ∧ in_range (mkRange 0 16) kv.1.1 ∧
                           fst <$> vss_abs (u_mem vss2) !! kv.1 = Some true)) (vb_abs (u_mem vbbm1)).
Proof.
  apply (removeEntriesFromDB_refines (mkRange 0 16) true vss2 vbbm1);
    [cbn; lia|apply vss2_inv|apply vbbm1_inv].
Defined.

(** The operations of the VSS that do not move the table leave a log that
    brings the whole segment back, byte for byte: [removeEntry], [setVBFlag],
    [removeEntriesFromDB], and [insert] on a table with room. *)
Theorem vss_changes_undone s l ver flag lck fl r use_vbbm (b : VBBM) :
  undoRecords s = [] →
  undoChanges (vss_removeEntry l ver fl s).2 = (Ret tt, s) ∧
  undoChanges (setVBFlag l ver flag s).2 = (Ret tt, s) ∧
  undoChanges (removeEntriesFromDB r use_vbbm (s, b)).2.1 = (Ret tt, s) ∧
  (currentSize (t_hdr (u_mem s)) < capacity (t_hdr (u_mem s)) →
   undoChanges (vss_insert l ver flag lck false s).2 = (Ret tt, s)).
Proof.
  intros H0.
  assert (∀ A (res : outcome A * VSS), rec_vss (=) s res → undoChanges res.2 = (Ret tt, s)) as Hrec.
  { intros A res Hr. rewrite (recorded_undo _ _ H0 Hr). destruct s as [m log]. cbn in *. by subst log. }
  split_and!.
  - apply Hrec, vss_removeEntry_recorded.
  - apply Hrec, setVBFlag_recorded.
  - apply (Hrec _ (_, _) (removeEntriesFromDB_recorded r use_vbbm s b)).
  - intros Hlt. by apply Hrec, vss_insert_recorded.
Qed.

Lemma vss_changes_undone_witness :
  undoChanges (vss_removeEntry 7 0 [] vss0).2 = (Ret tt, vss0) ∧
  undoChanges (setVBFlag 7 0 true vss0).2 = (Ret tt, vss0) ∧
  undoChanges (removeEntriesFromDB (mkRange 0 4) true (vss0, vbbm0)).2.1 = (Ret tt, vss0) ∧
  (currentSize (t_hdr (u_mem vss0)) < capacity (t_hdr (u_mem vss0)) →
   undoChanges (vss_insert 7 0 true false false vss0).2 = (Ret tt, vss0)).
Proof. apply (vss_changes_undone vss0 7 0 true false [] (mkRange 0 4) true vbbm0). reflexivity. Defined.

(** An insertion that has to grow the table keeps the log of the old segment:
    if anything was logged before it, [undoChanges] writes through a pointer into
    a segment that is no longer mapped. *)
Theorem vss_grow_then_undo_faults l ver vbf lck s log r :
  vss_inv (u_mem s) → currentSize (t_hdr (u_mem s)) = capacity (t_hdr (u_mem s)) →
  - 2 ^ 31 ≤ tableShmkey (t_info (u_mem s)) < 2 ^ 31 →
  undoRecords s = log ++ [r] → start r = tableShmkey (t_info (u_mem s)) →
  (undoChanges (vss_insert l ver vbf lck false s).2).1 = Exn Segfault.
Proof. apply vss_insert_grow_undo_spec. Qed.

Definition vss_full_log : list (ImageDelta (delta VSSShmsegHeader Empty_set VSSEntry)) :=
  take (length (undoRecords vss_full) - 1) (undoRecords vss_full).
Definition vss_full_last := default (mkImageDelta 0 (DSize 0)) (last (undoRecords vss_full)).

Lemma vss_grow_then_undo_faults_witness :
  (undoChanges (vss_insert 8 3 false true false vss_full).2).1 = Exn Segfault.
Proof.
  apply (vss_grow_then_undo_faults 8 3 false true vss_full vss_full_log vss_full_last);
    [apply vss_full_inv|vm_compute; reflexivity|vm_compute; split; [discriminate|reflexivity]
    |vm_compute; reflexivity|vm_compute; reflexivity].
Defined.

(** [VSS::commit] decrements the count of locked entries without logging it:
    undoing a commit gives every slot and bucket back, but the header keeps the
    count the commit left, smaller by the number of the transaction's entries. *)
Theorem commit_undo_loses_count txnID s :
  undoRecords s = [] → vss_inv (u_mem s) → 0 ≤ lockedEntryCount (t_hdr (u_mem s)) →
  ∃ m', undoChanges (commit txnID s).2 = (Ret tt, mkUndoable m' []) ∧
        eq_upto_hdr m' (u_mem s) ∧
        lockedEntryCount (t_hdr m') =
          Z.max 0 (lockedEntryCount (t_hdr (u_mem s)) -
                   count (slot_of_txn txnID (u_mem s)) (zseq 0 (capacity (t_hdr (u_mem s))))).
Proof.
  intros H0 Hi Hc.
  destruct (recorded_undo_rel _ _ _ H0 (commit_recorded txnID s)) as (m' & Hu & He).
  exists m'. split; [done|]. split; [done|].
  destruct (commit_spec txnID s Hi) as (s' & Hr & _ & _). rewrite Hr in Hu.
  destruct (commit_slots_count txnID _ s s' Hr Hc) as [Hf Hn]; [by rewrite H0|].
  by rewrite <- Hn, <- (undoChanges_keeps_hdr _ _ Hf Hu).
Qed.

(** One entry of transaction 3, locked: after the commit is undone it is locked
    again and the count is zero. *)
Lemma commit_undo_loses_count_witness :
  lockedEntryCount (t_hdr (u_mem vss2)) = 1 ∧
  ∃ m', undoChanges (commit 3 (confirmed vss2)).2 = (Ret tt, mkUndoable m' []) ∧
        eq_upto_hdr m' (u_mem vss2) ∧ lockedEntryCount (t_hdr m') = 0.
Proof.
  split; [vm_compute; reflexivity|].
  apply (commit_undo_loses_count 3 (confirmed vss2));
    [reflexivity|apply vss2_inv|vm_compute; discriminate].
Defined.

(** [VSS::isTooOld] never reports a version as too old: the minimum it
    computes starts at 0, below every version. *)
Theorem isTooOld_never m l ver :
  vss_struct m → vers_nonneg m → 0 ≤ ver → isTooOld l ver m = Ret false.
Proof. apply isTooOld_spec. Qed.

Lemma isTooOld_never_witness : isTooOld 7 0 (u_mem vss2) = Ret false.
Proof. apply (isTooOld_never (u_mem vss2) 7 0); [apply vss2_inv|exact vss2_nonneg|lia]. Defined.

(** [e] is a lock on the first block of [r] that has one. *)
Definition first_lock (m : VSSMem) (r : LBIDRange) (e : VSSEntry) : Prop :=
  in_table m e ∧ in_range r (lbid e) ∧ locked e = true ∧
  ∀ e', in_table m e' → range_start r ≤ lbid e' < lbid e → locked e' = false.

Lemma isLocked_blocks_spec m t a n :
  vss_struct m → 0 ≤ n →
  ∃ b, isLocked_blocks (zseq a n) t m = Ret b ∧
    (b = true → ∃ e, first_lock m (mkRange a n) e ∧ verID e ≠ t) ∧
    (b = false → (∀ e, in_table m e → in_range (mkRange a n) (lbid e) → locked e = false) ∨
                 ∃ e, first_lock m (mkRange a n) e ∧ verID e = t).
Proof.
  intros Hs Hn. revert a. pattern n. apply natlike_ind; [| |done]; clear n Hn.
  { intros a. exists false. split; [done|]. split; [done|]. left. unfold in_range. cbn. lia. }
  intros n Hn IH a. rewrite <- Z.add_1_r, zseq_cons by done. cbn [isLocked_blocks].
  destruct (isLocked_block_spec m a t Hs) as [(e & He & Hl & Hlk & ->)|[Hno ->]]; cbn.
  - assert (first_lock m (mkRange a (n + 1)) e) as Hfirst.
    { unfold first_lock, in_range. cbn. split_and!; try done; [lia..|]. intros. lia. }
    exists (negb (verID e =? t)). split; [done|].
    destruct (verID e =? t) eqn:Heq; zbool; (split; [|done || idtac]); [done|eauto..].
  - destruct (IH (a + 1)) as (b & Hb & Ht & Hf).
    assert (∀ e, first_lock m (mkRange (a + 1) n) e → first_lock m (mkRange a (n + 1)) e) as Hfst.
    { unfold first_lock, in_range. cbn. intros e (? & ? & ? & Hbef). split_and!; try done; [lia..|].
      intros e' He' Hr. destruct (decide (lbid e' = a)); [by apply Hno|]. apply Hbef; [done|lia]. }
    exists b. split; [done|]. split.
    + intros Hb'. destruct (Ht Hb') as (e & ? & ?). eauto.
    + intros Hb'. destruct (Hf Hb') as [Hfree|(e & ? & ?)]; [left|right; eauto].
      intros e He Hr. destruct (decide (lbid e = a)); [by apply Hno|]. apply Hfree; [done|].
      unfold in_range in *. cbn in *. lia.
Qed.

(** [VSS::isLocked] decides by the lock on the first locked block of the range
    alone: [true] if another transaction holds it, [false] if no block is locked
    or the caller holds it, whoever has locked the blocks after it. *)
Theorem isLocked_first_lock m r t :
  vss_struct m → 0 ≤ range_size r →
  ∃ b, vss_isLocked r t m = Ret b ∧
    (b = true → ∃ e, first_lock m r e ∧ verID e ≠ t) ∧
    (b = false → (∀ e, in_table m e → in_range r (lbid e) → locked e = false) ∨
                 ∃ e, first_lock m r e ∧ verID e = t).
Proof. destruct r as [a n]. apply isLocked_blocks_spec. Qed.

(** Transaction 4 writes block 8. *)
Definition vss3 : VSS := (vss_insert 8 4 false true false vss2).2.

Lemma vss3_inv : vss_inv (u_mem vss3).
Proof.
  destruct (vss_insert_spec 8 4 false true false vss2) as (s' & Hr & Hi & _);
    [lia|apply vss2_inv|vm_compute; reflexivity|].
  unfold vss3. by rewrite Hr.
Qed.

(** Block 8 alone is reported as locked for transaction 3; the blocks 7 and 8
    together are not, since transaction 3 holds block 7. *)
Lemma isLocked_first_lock_witness :
  vss_isLocked (mkRange 8 1) 3 (u_mem vss3) = Ret true ∧
  vss_isLocked (mkRange 7 2) 3 (u_mem vss3) = Ret false ∧
  ∃ b, vss_isLocked (mkRange 7 2) 3 (u_mem vss3) = Ret b ∧
    (b = true → ∃ e, first_lock (u_mem vss3) (mkRange 7 2) e ∧ verID e ≠ 3) ∧
    (b = false → (∀ e, in_table (u_mem vss3) e → in_range (mkRange 7 2) (lbid e) → locked e = false) ∨
                 ∃ e, first_lock (u_mem vss3) (mkRange 7 2) e ∧ verID e = 3).
Proof.
  split; [vm_compute; reflexivity|]. split; [vm_compute; reflexivity|].
  apply (isLocked_first_lock (u_mem vss3) (mkRange 7 2) 3); [apply vss3_inv|cbn; lia].
Defined.

(** Round trip: loading the file that [VSS::save] wrote gives the same map,
    whatever the table had before, and counts the locked entries. *)
Theorem vss_load_save m s :
  vss_saveable m →
  ∃ s', vss_load (Some (vss_save m)) s = (Ret tt, s') ∧ vss_inv (u_mem s') ∧
        vss_abs (u_mem s') = vss_abs m ∧
        lockedEntryCount (t_hdr (u_mem s')) = count locked (storage_of m).
Proof. apply vss_load_save_spec. Qed.

Lemma vss_load_save_witness :
  ∃ s', vss_load (Some (vss_save (u_mem vss2))) vss0 = (Ret tt, s') ∧ vss_inv (u_mem s') ∧
        vss_abs (u_mem s') = vss_abs (u_mem vss2) ∧
        lockedEntryCount (t_hdr (u_mem s')) = count locked (storage_of (u_mem vss2)).
Proof.
  apply (vss_load_save (u_mem vss2) vss0). split; [apply vss2_inv|vm_compute; reflexivity|].
  apply forallb_Forall. vm_compute. reflexivity.
Defined.
