(* ===== verification/VbbmTheorems.v ===== *)
(** * What the VBBM and the copy locks guarantee

    The statements about the VBBM and about [CopyLocks], each with an instance at a
    small table, and the run in which growing the VBBM loses an entry. *)

From S2P Require Import Prelude BinFile Hasher HashChain Undo Table Vbbm VbbmProofs Vss VssProofs VssWrite CopyLocks SlaveNode SlaveProofs Samples.

#[local] Opaque Hasher.

(** C38 [VBBM::insert] followed by [VBBM::lookup]: the table behaves as a map from
    (lbid, version) to (file, block), also when the insertion has to grow the
    table, and the invariant is kept. *)
Theorem vbbm_insert_lookup lbid verID vbOID vbFBO loading s :
  0 ≤ lbid → vb_inv (u_mem s) → vb_abs (u_mem s) !! (lbid, verID) = None →
  ∃ s', insert lbid verID vbOID vbFBO loading s = (Ret tt, s') ∧ vb_inv (u_mem s') ∧
    ∀ l v, 0 ≤ l → 0 ≤ v →
      lookup l v (u_mem s') =
        if decide ((l, v) = (lbid, verID)) then Ret (Some (vbOID, vbFBO)) else lookup l v (u_mem s).
Proof.
  intros Hl Hinv Hnew.
  destruct (insert_spec lbid verID vbOID vbFBO loading s) as (s' & Hr & Hi & Ha & _); [lia|done|done|].
  exists s'. split; [done|]. split; [done|]. intros l v Hl0 Hv0. rewrite !lookup_spec by done.
  rewrite Ha. case_decide as Heq; [by rewrite Heq, lookup_insert_eq|by rewrite lookup_insert_ne by congruence].
Qed.

Lemma vbbm_insert_lookup_witness :
  ∃ s', insert 8 2 9 121 false vbbm1 = (Ret tt, s') ∧ vb_inv (u_mem s') ∧
    ∀ l v, 0 ≤ l → 0 ≤ v →
      lookup l v (u_mem s') =
        if decide ((l, v) = (8, 2)) then Ret (Some (9, 121)) else lookup l v (u_mem vbbm1).
Proof.
  apply (vbbm_insert_lookup 8 2 9 121 false vbbm1); [lia|apply vbbm1_inv|].
  rewrite (proj1 (proj2 vbbm1_inv)). reflexivity.
Defined.

(** [VBBM::removeEntry] removes exactly the entry it is given; a missing entry
    is ignored. *)
Theorem vbbm_remove_lookup lbid verID s :
  lbid ≠ -1 → vb_inv (u_mem s) →
  ∃ s', removeEntry lbid verID s = (Ret tt, s') ∧ vb_inv (u_mem s') ∧
    ∀ l v, 0 ≤ l → 0 ≤ v →
      lookup l v (u_mem s') =
        if decide ((l, v) = (lbid, verID)) then Ret None else lookup l v (u_mem s).
Proof.
  intros Hl Hinv. destruct (removeEntry_detail lbid verID s Hl Hinv) as (s' & Hr & Hi & Ha & _).
  exists s'. split; [done|]. split; [done|]. intros l v Hl0 Hv0. rewrite !lookup_spec by done.
  rewrite Ha. case_decide as Heq; [by rewrite Heq, lookup_delete_eq|by rewrite lookup_delete_ne by congruence].
Qed.

Lemma vbbm_remove_lookup_witness :
  ∃ s', removeEntry 7 0 vbbm1 = (Ret tt, s') ∧ vb_inv (u_mem s') ∧
    ∀ l v, 0 ≤ l → 0 ≤ v →
      lookup l v (u_mem s') =
        if decide ((l, v) = (7, 0)) then Ret None else lookup l v (u_mem vbbm1).
Proof. apply (vbbm_remove_lookup 7 0 vbbm1); [lia|apply vbbm1_inv]. Defined.




(** Three entries, of which the two in the first slots are removed. *)
Definition vbbm_holes : VBBM :=
  ((insert 1 0 9 250 false ≫= fun _ => insert 2 0 9 251 false ≫= fun _ =>
    insert 3 0 9 252 false ≫= fun _ => removeEntry 1 0 ≫= fun _ => removeEntry 2 0) vbbm0).2.

(** [getBlocks] on a table with holes loses an entry: block 3 had its version
    at block 252 of the file; the call allocates blocks 0 to 3, the table grows
    by copying only its first [vbCurrentSize] slots, and the entry is gone. *)
Theorem getBlocks_loses_entry :
  let res := getBlocks (Some 8192) 4 9 (vbbm_holes, vss0) in
  lookup 3 0 (u_mem vbbm_holes) = Ret (Some (9, 252)) ∧
  res.1 = Ret ([mkVBRange 9 0 4], []) ∧
  lookup 3 0 (u_mem res.2.1) = Ret None.
Proof. vm_compute. done. Qed.

(** Round trip: loading the file that [VBBM::save] wrote gives the same map and
    the same version buffer files, whatever the table had before. *)
Theorem vbbm_load_save c m s :
  1 ≤ c → saveable m → vb_inv (u_mem s) →
  ∃ s', vb_load (Some c) (Some (vb_save m)) s = (Ret tt, s') ∧
        vb_inv (u_mem s') ∧ vb_abs (u_mem s') = vb_abs m ∧ slack (u_mem s') = 0 ∧
        t_files (u_mem s') = t_files m.
Proof. apply load_save_spec. Qed.

Lemma vbbm_load_save_witness :
  ∃ s', vb_load (Some 8192) (Some (vb_save (u_mem vbbm1))) vbbm0 = (Ret tt, s') ∧
        vb_inv (u_mem s') ∧ vb_abs (u_mem s') = vb_abs (u_mem vbbm1) ∧ slack (u_mem s') = 0 ∧
        t_files (u_mem s') = t_files (u_mem vbbm1).
Proof.
  apply (vbbm_load_save 8192 (u_mem vbbm1) vbbm0); [lia| |apply vbbm0_inv].
  split; [apply vbbm1_inv|apply vbbm1_inv|vm_compute; reflexivity|vm_compute; reflexivity|..];
    apply forallb_Forall; vm_compute; reflexivity.
Defined.

(** [removeEntry], and [insert] on a table with room, leave a log that brings
    the whole VBBM segment back, byte for byte. *)
Theorem vbbm_changes_undone s lbid verID vbOID vbFBO :
  undoRecords s = [] →
  undoChanges (removeEntry lbid verID s).2 = (Ret tt, s) ∧
  (vbCurrentSize (t_hdr (u_mem s)) < vbCapacity (t_hdr (u_mem s)) →
   undoChanges (insert lbid verID vbOID vbFBO false s).2 = (Ret tt, s)).
Proof.
  intros H0.
  assert (∀ A (res : outcome A * VBBM), recorded (=) s res → undoChanges res.2 = (Ret tt, s)) as Hrec.
  { intros A res Hr. rewrite (recorded_undo _ _ H0 Hr). destruct s as [m log]. cbn in *. by subst log. }
  split; [apply Hrec, removeEntry_recorded|]. intros Hlt. by apply Hrec, insert_recorded.
Qed.

Lemma vbbm_changes_undone_witness :
  undoChanges (removeEntry 7 0 vbbm0).2 = (Ret tt, vbbm0) ∧
  (vbCurrentSize (t_hdr (u_mem vbbm0)) < vbCapacity (t_hdr (u_mem vbbm0)) →
   undoChanges (insert 7 0 9 120 false vbbm0).2 = (Ret tt, vbbm0)).
Proof. apply (vbbm_changes_undone vbbm0 7 0 9 120). reflexivity. Defined.

(** * What the copy locks guarantee *)


(** Mutual exclusion: a range is locked after [lockRange], growing the segment
    if it is full; it stays locked until something releases it, and [isLocked]
    answers for any range whether it meets a range that is held. *)
Theorem lockRange_excludes l txnID s :
  cl_inv (u_mem s) → 0 < range_size l →
  ∃ s', lockRange l txnID s = (Ret tt, s') ∧ cl_inv (u_mem s') ∧
        locks (u_mem s') ≡ₚ mkCL (range_start l) (range_size l) txnID :: locks (u_mem s) ∧
        (∀ r, cl_isLocked r (u_mem s') =
              intersects r (mkCL (range_start l) (range_size l) txnID) || cl_isLocked r (u_mem s)) ∧
        cl_isLocked l (u_mem s') = true.
Proof.
  intros Hi Hl. destruct (lockRange_spec l txnID s Hi Hl) as (s' & Hr & Hi' & Hp).
  assert (∀ r, cl_isLocked r (u_mem s') =
    intersects r (mkCL (range_start l) (range_size l) txnID) || cl_isLocked r (u_mem s)) as Hlk.
  { intros r. rewrite !cl_isLocked_spec by done. apply eq_iff_eq_true.
    rewrite orb_true_iff, !existsb_exists. setoid_rewrite <- list_elem_of_In. setoid_rewrite Hp.
    setoid_rewrite elem_of_cons. naive_solver. }
  exists s'. split_and!; try done. rewrite Hlk. apply orb_true_iff. left. unfold intersects. cbn.
  apply andb_true_iff. split; [apply andb_true_iff; split|].
  - apply negb_true_iff, Z.eqb_neq. lia.
  - apply Z.leb_le. lia.
  - apply Z.leb_le. lia.
Qed.

Lemma lockRange_excludes_witness :
  ∃ s', lockRange (mkRange 200 4) 5 cl1 = (Ret tt, s') ∧ cl_inv (u_mem s') ∧
        locks (u_mem s') ≡ₚ mkCL 200 4 5 :: locks (u_mem cl1) ∧
        (∀ r, cl_isLocked r (u_mem s') = intersects r (mkCL 200 4 5) || cl_isLocked r (u_mem cl1)) ∧
        cl_isLocked (mkRange 200 4) (u_mem s') = true.
Proof. apply (lockRange_excludes (mkRange 200 4) 5 cl1); [exact cl1_inv|cbn; lia]. Defined.

(** [releaseRange] frees exactly the locks that meet the range, and the range
    is free after it; [rollback] frees exactly the locks of the transaction. *)
Theorem releaseRange_frees l txnID s :
  cl_inv (u_mem s) →
  (∃ s', releaseRange l s = (Ret tt, s') ∧ cl_inv (u_mem s') ∧
         locks (u_mem s') = List.filter (fun e => negb (intersects l e)) (locks (u_mem s)) ∧
         cl_isLocked l (u_mem s') = false) ∧
  (∃ s', cl_rollback txnID s = (Ret tt, s') ∧ cl_inv (u_mem s') ∧
         locks (u_mem s') = List.filter (fun e => negb (cl_txnID e =? txnID)) (locks (u_mem s))).
Proof.
  intros Hi. split; [|by apply cl_rollback_spec].
  destruct (releaseRange_spec l s Hi) as (s' & Hr & Hi' & Hl). exists s'. split_and!; try done.
  rewrite cl_isLocked_spec, Hl by done. apply not_true_iff_false. rewrite existsb_exists.
  intros (e & He & Hint). apply filter_In in He as [_ He]. by rewrite Hint in He.
Qed.

Lemma releaseRange_frees_witness :
  (∃ s', releaseRange (mkRange 105 1) cl1 = (Ret tt, s') ∧ cl_inv (u_mem s') ∧
         locks (u_mem s') = List.filter (fun e => negb (intersects (mkRange 105 1) e)) (locks (u_mem cl1)) ∧
         cl_isLocked (mkRange 105 1) (u_mem s') = false) ∧
  (∃ s', cl_rollback 3 cl1 = (Ret tt, s') ∧ cl_inv (u_mem s') ∧
         locks (u_mem s') = List.filter (fun e => negb (cl_txnID e =? 3)) (locks (u_mem cl1))).
Proof. apply (releaseRange_frees (mkRange 105 1) 3 cl1 cl1_inv). Defined.

(** Locking a range in a segment with room, releasing a range and rolling a
    transaction back leave a log that brings the segment and its descriptor
    back. *)
Theorem copylocks_changes_undone s l txnID :
  undoRecords s = [] →
  undoChanges (releaseRange l s).2 = (Ret tt, s) ∧
  undoChanges (cl_rollback txnID s).2 = (Ret tt, s) ∧
  (mst_currentSize (cl_shminfo (u_mem s)) ≠ allocdSize (cl_shminfo (u_mem s)) →
   undoChanges (lockRange l txnID s).2 = (Ret tt, s)).
Proof.
  intros H0.
  assert (∀ A (res : outcome A * CopyLocks), recorded (=) s res → undoChanges res.2 = (Ret tt, s)) as Hrec.
  { intros A res Hr. rewrite (recorded_undo _ _ H0 Hr). destruct s as [m log]. cbn in *. by subst log. }
  split_and!.
  - apply Hrec, recorded_get, recorded_forM; [apply _|]. intros. apply free_slot_recorded.
  - apply Hrec, recorded_get, recorded_forM; [apply _|]. intros. apply free_slot_recorded.
  - intros Hne. apply Hrec, recorded_get. assert (_ =? _ = false) as -> by by apply Z.eqb_neq.
    rewrite mret_run. apply recorded_get, lock_scan_recorded.
Qed.

Lemma copylocks_changes_undone_witness :
  undoChanges (releaseRange (mkRange 105 1) (confirmed cl1)).2 = (Ret tt, confirmed cl1) ∧
  undoChanges (cl_rollback 3 (confirmed cl1)).2 = (Ret tt, confirmed cl1) ∧
  (mst_currentSize (cl_shminfo (u_mem cl1)) ≠ allocdSize (cl_shminfo (u_mem cl1)) →
   undoChanges (lockRange (mkRange 105 1) 3 (confirmed cl1)).2 = (Ret tt, confirmed cl1)).
Proof. apply (copylocks_changes_undone (confirmed cl1) (mkRange 105 1) 3). reflexivity. Defined.
