(* ===== verification/StdMap.v ===== *)
(** * [std::map] with integer keys

    The controller's components keep [std::map]s and iterate over them in key
    order; the map is its sequence of bindings, with strictly increasing keys. *)

From S2P Require Import Prelude.

Section StdMap.
Context {V : Type}.
Implicit Types (m : list (Z * V)) (k : Z) (v : V).

(** [m.find(k)] *)
Fixpoint smap_find k m : option V :=
  match m with
  | [] => None
  | (k', v) :: m' => if k =? k' then Some v else smap_find k m'
  end.

(** [m[k] = v] *)
Fixpoint smap_set k v m : list (Z * V) :=
  match m with
  | [] => [(k, v)]
  | (k', v') :: m' =>
      if k <? k' then (k, v) :: m
      else if k =? k' then (k, v) :: m'
      else (k', v') :: smap_set k v m'
  end.

(** [m.erase(k)] *)
Definition smap_erase k m : list (Z * V) := List.filter (fun kv => negb (kv.1 =? k)) m.

(** The keys increase, and all are above [lo]. *)
Fixpoint smap_above (lo : Z) m : Prop :=
  match m with
  | [] => True
  | (k, _) :: m' => lo < k ∧ smap_above k m'
  end.

Definition smap_ok m : Prop :=
  match m with
  | [] => True
  | (k, _) :: m' => smap_above k m'
  end.

Lemma smap_above_ok lo m : smap_above lo m → smap_ok m.
Proof. destruct m as [|[k v] m]; cbn; [done|by intros []]. Qed.

Lemma smap_above_weaken lo lo' m : lo' ≤ lo → smap_above lo m → smap_above lo' m.
Proof. destruct m as [|[k v] m]; cbn; [done|]. intros ? []. split; [lia|done]. Qed.

Lemma smap_above_find lo m k : smap_above lo m → k ≤ lo → smap_find k m = None.
Proof.
  revert lo. induction m as [|[k' v'] m IH]; intros lo; cbn; [done|]. intros [Hlo Hm] Hk.
  case_if; [lia|]. apply (IH k'); [done|lia].
Qed.

Lemma smap_set_above lo m k v : smap_above lo m → lo < k → smap_above lo (smap_set k v m).
Proof.
  revert lo. induction m as [|[k' v'] m IH]; intros lo; cbn; [done|]. intros [Hlo Hm] Hk.
  case_if; [done|]. case_if; cbn; [split; [lia|by subst k']|]. split; [lia|]. apply IH; [done|lia].
Qed.

Lemma smap_set_ok m k v : smap_ok m → smap_ok (smap_set k v m).
Proof.
  destruct m as [|[k' v'] m]; cbn; [done|]. intros Hm. case_if; [by split|].
  case_if; cbn; [by subst k'|]. apply smap_set_above; [done|lia].
Qed.

Lemma smap_filter_above (p : Z * V → bool) lo m : smap_above lo m → smap_above lo (List.filter p m).
Proof.
  revert lo. induction m as [|[k v] m IH]; intros lo; cbn; [done|]. intros [Hlo Hm].
  destruct (p (k, v)); cbn; [split; [done|by apply IH]|].
  apply (smap_above_weaken k); [lia|by apply IH].
Qed.

Lemma smap_filter_ok (p : Z * V → bool) m : smap_ok m → smap_ok (List.filter p m).
Proof.
  destruct m as [|[k v] m]; cbn; [done|]. intros Hm. destruct (p (k, v)); cbn.
  - by apply smap_filter_above.
  - eapply smap_above_ok, smap_filter_above. exact Hm.
Qed.

Lemma smap_erase_ok m k : smap_ok m → smap_ok (smap_erase k m).
Proof. apply smap_filter_ok. Qed.

Lemma smap_find_set m k v k' :
  smap_ok m → smap_find k' (smap_set k v m) = if k' =? k then Some v else smap_find k' m.
Proof.
  induction m as [|[k1 v1] m IH]; cbn; [by case_if|]. intros Hm.
  destruct (Z.ltb_spec k k1); cbn; [by case_if|]. destruct (Z.eqb_spec k k1) as [->|Hne]; cbn.
  - by case_if.
  - rewrite IH by (by eapply smap_above_ok). destruct (Z.eqb_spec k' k1), (Z.eqb_spec k' k); congruence || done.
Qed.

Lemma smap_find_erase m k k' : smap_find k' (smap_erase k m) = if k' =? k then None else smap_find k' m.
Proof.
  unfold smap_erase. induction m as [|[k1 v1] m IH]; cbn; [by case_if|].
  destruct (Z.eqb_spec k1 k) as [->|Hne]; cbn.
  - rewrite IH. by destruct (k' =? k).
  - rewrite IH. destruct (Z.eqb_spec k' k1), (Z.eqb_spec k' k); congruence || done.
Qed.

Lemma smap_find_elem m k v : smap_ok m → smap_find k m = Some v ↔ (k, v) ∈ m.
Proof.
  induction m as [|[k1 v1] m IH]; cbn; intros Hm; [by rewrite elem_of_nil|].
  rewrite elem_of_cons, <- IH by (by eapply smap_above_ok).
  destruct (Z.eqb_spec k k1) as [->|Hne]; [|naive_solver].
  rewrite (smap_above_find k1) by (done || lia). naive_solver.
Qed.

Lemma smap_keys_NoDup m : smap_ok m → NoDup (fst <$> m).
Proof.
  induction m as [|[k v] m IH]; intros Hm; [constructor|]. rewrite fmap_cons. constructor.
  - intros ([k' v'] & Heq & Hin)%list_elem_of_fmap. cbn in Heq, Hm. subst k'.
    apply smap_find_elem in Hin; [|by eapply smap_above_ok].
    rewrite (smap_above_find k) in Hin by (done || lia). done.
  - apply IH. by eapply smap_above_ok.
Qed.

Lemma smap_set_elem m k v k' v' :
  smap_ok m → (k', v') ∈ smap_set k v m ↔ (k' = k ∧ v' = v) ∨ (k' ≠ k ∧ (k', v') ∈ m).
Proof.
  intros Hm. rewrite <- !smap_find_elem by auto using smap_set_ok. rewrite smap_find_set by done.
  destruct (Z.eqb_spec k' k); naive_solver.
Qed.

Lemma smap_set_length m k v :
  smap_ok m → zlength (smap_set k v m) = zlength m + (if smap_find k m then 0 else 1).
Proof.
  induction m as [|[k1 v1] m IH]; cbn; [done|]. intros Hm.
  destruct (Z.ltb_spec k k1).
  - rewrite zlength_cons. destruct (Z.eqb_spec k k1); [lia|].
    rewrite (smap_above_find k1) by (done || lia). done.
  - destruct (Z.eqb_spec k k1) as [->|Hne]; rewrite !zlength_cons; [lia|].
    rewrite IH by (by eapply smap_above_ok). lia.
Qed.

Lemma smap_erase_length m k :
  smap_ok m → zlength (smap_erase k m) = zlength m - (if smap_find k m then 1 else 0).
Proof.
  unfold smap_erase. induction m as [|[k1 v1] m IH]; cbn; [done|]. intros Hm.
  assert (smap_ok m) as Hm' by (by eapply smap_above_ok). specialize (IH Hm').
  destruct (Z.eqb_spec k1 k) as [->|Hne]; cbn.
  - rewrite Z.eqb_refl, zlength_cons. rewrite (smap_above_find k) in IH by (done || lia). lia.
  - destruct (Z.eqb_spec k k1); [congruence|]. rewrite !zlength_cons. lia.
Qed.

(** A binding set again to what it was. *)
Lemma smap_set_erase m k v : smap_ok m → smap_find k m = Some v → smap_set k v (smap_erase k m) = m.
Proof.
  unfold smap_erase. induction m as [|[k1 v1] m IH]; cbn; [done|]. intros Hm Hf.
  destruct (Z.eqb_spec k k1) as [->|Hne].
  - simplify_eq. rewrite Z.eqb_refl. cbn.
    assert (∀ l, smap_above k1 l → List.filter (fun kv => negb (kv.1 =? k1)) l = l) as Hid.
    { clear. induction l as [|[k2 v2] l IH]; cbn; [done|]. intros [Hlt Hl].
      destruct (Z.eqb_spec k2 k1); [lia|]. cbn. f_equal. apply IH. by apply (smap_above_weaken k2); [lia|]. }
    rewrite Hid by done. destruct m as [|[k2 v2] m]; cbn; [done|]. cbn in Hm.
    assert (k1 <? k2 = true) as -> by (apply Z.ltb_lt; lia). done.
  - destruct (Z.eqb_spec k1 k); [congruence|]. cbn.
    assert (k1 < k) as Hlt.
    { destruct (Z.lt_ge_cases k1 k); [done|]. rewrite (smap_above_find k1) in Hf by (done || lia). done. }
    assert (k <? k1 = false) as -> by (apply Z.ltb_ge; lia).
    assert (k =? k1 = false) as -> by (apply Z.eqb_neq; lia).
    f_equal. apply IH; [by eapply smap_above_ok|done].
Qed.

Lemma smap_erase_set m k v : smap_ok m → smap_find k m = None → smap_erase k (smap_set k v m) = m.
Proof.
  assert (∀ l, smap_find k l = None → List.filter (fun kv : Z * V => negb (kv.1 =? k)) l = l) as Hid.
  { induction l as [|[k2 v2] l IH]; cbn; [done|]. destruct (Z.eqb_spec k k2); [done|]. intros Hf.
    destruct (Z.eqb_spec k2 k); [congruence|]. cbn. by rewrite IH. }
  unfold smap_erase. induction m as [|[k1 v1] m IH]; cbn; intros Hm Hf; [by rewrite Z.eqb_refl|].
  destruct (Z.eqb_spec k k1) as [?|Hne]; [done|].
  destruct (Z.ltb_spec k k1); cbn; (rewrite ?Z.eqb_refl; cbn).
  - destruct (Z.eqb_spec k1 k); [congruence|]. cbn. by rewrite Hid.
  - destruct (Z.eqb_spec k1 k); [congruence|]. cbn. rewrite IH; [done|by eapply smap_above_ok|done].
Qed.
End StdMap.
