(* ===== verification/Session.v ===== *)
(** * The session manager ([sessionmanagerserver.cpp])

    It issues transaction ids, bounds the number of transactions with a semaphore
    made of a mutex and a condition variable, hands out snapshots, and keeps the
    last id, the last catalog version and the state flags in a file.  Each
    operation runs with the mutex held, so it is one atomic step; a call of
    [newTxnID] that has to wait gives the mutex up inside [condvar.wait] and is
    resumed later.  [sm_step] interleaves the calls of many threads. *)

From S2P Require Import Prelude BinFile StdMap.

(** ** State *)

Record TxnID := mkTxn { txn_id : Z; txn_valid : bool }.

Record SessionManagerServer := mkSM {
  unique32 : Z;
  unique64 : Z;
  maxTxns : Z;
  sm_verID : Z;
  sm_sysCatVerID : Z;
  systemState : Z;
  activeTxns : list (Z * Z);
  semValue : Z;
  useHdfs : bool;
  txnidFile : option (list Z);
}.

Definition SS_READY : Z := Z.shiftl 1 0.
Definition SS_SUSPENDED : Z := Z.shiftl 1 1.
Definition SS_SUSPEND_PENDING : Z := Z.shiftl 1 2.
Definition SS_SHUTDOWN_PENDING : Z := Z.shiftl 1 3.
Definition SS_ROLLBACK : Z := Z.shiftl 1 4.
Definition SS_FORCE : Z := Z.shiftl 1 5.

(** The flags that are not kept over a restart, and those not written. *)
Definition load_mask : Z :=
  Z.lor SS_READY (Z.lor SS_SUSPEND_PENDING (Z.lor SS_SHUTDOWN_PENDING (Z.lor SS_ROLLBACK SS_FORCE))).
Definition save_mask : Z :=
  Z.lor SS_READY (Z.lor SS_SUSPEND_PENDING (Z.lor SS_SHUTDOWN_PENDING SS_FORCE)).

Definition set_versions (v c : Z) (s : SessionManagerServer) : SessionManagerServer :=
  mkSM (unique32 s) (unique64 s) (maxTxns s) v c (systemState s) (activeTxns s) (semValue s)
    (useHdfs s) (txnidFile s).
Definition set_state (st : Z) (s : SessionManagerServer) : SessionManagerServer :=
  mkSM (unique32 s) (unique64 s) (maxTxns s) (sm_verID s) (sm_sysCatVerID s) st (activeTxns s)
    (semValue s) (useHdfs s) (txnidFile s).
Definition set_active (a : list (Z * Z)) (n : Z) (s : SessionManagerServer) : SessionManagerServer :=
  mkSM (unique32 s) (unique64 s) (maxTxns s) (sm_verID s) (sm_sysCatVerID s) (systemState s) a n
    (useHdfs s) (txnidFile s).
Definition set_txnidFile (f : option (list Z)) (s : SessionManagerServer) : SessionManagerServer :=
  mkSM (unique32 s) (unique64 s) (maxTxns s) (sm_verID s) (sm_sysCatVerID s) (systemState s)
    (activeTxns s) (semValue s) (useHdfs s) f.

(** ** The file *)

(** [read(fd, &x, 4)]: the value if all four bytes were there, and the rest. *)
Definition read4 (f : list Z) : option (list Z) * list Z :=
  (if decide (4 ≤ length f)%nat then Some (take 4 f) else None, drop 4 f).

(** [lseek(fd, off); write(fd, d)] *)
Definition write_at (off : nat) (d f : list Z) : list Z :=
  take off (f ++ replicate (off - length f) 0) ++ d ++ drop (off + length d) f.

(** What the file system answers: all calls succeed, or one of them fails. *)
Inductive io := IoOk | IoOpenFails | IoFirstWriteFails | IoSecondWriteFails.

(** The body of [SessionManagerServer::loadState] on the bytes of the file. *)
Definition load_bytes (f : list Z) (s : SessionManagerServer) : SessionManagerServer :=
  let '(w1, f1) := read4 f in
  let v := match w1 with Some b => get_s b | None => sm_verID s end in
  let '(w2, f2) := read4 f1 in
  let c := match w2 with Some b => get_s b | None => sm_sysCatVerID s end in
  let '(w3, _) := read4 f2 in
  let st := match w3 with Some b => Z.land (get_u b) (Z.lnot load_mask) | None => 0 end in
  set_state st (set_versions v c s).

(** [SessionManagerServer::loadState]: on HDFS a file that does not exist is
    skipped. *)
Definition sm_loadState (s : SessionManagerServer) : SessionManagerServer :=
  if useHdfs s then
    match txnidFile s with Some f => load_bytes f s | None => s end
  else load_bytes (default [] (txnidFile s)) s.

(** The constructor: [cfg] is the configured maximum, [None] when it is not
    configured; on a local file system the file is created if need be. *)
Definition newSessionManagerServer (cfg : option Z) (hdfs : bool) (f : option (list Z))
    : SessionManagerServer :=
  let m := match cfg with
           | Some tmp => if tmp <? 1 then 1 else i32 tmp
           | None => 1
           end in
  sm_loadState (mkSM 0 0 m 0 0 0 [] (u32 m) hdfs (if hdfs then f else Some (default [] f))).

(** The two words of the versions, and the word of the flags. *)
Definition version_words (s : SessionManagerServer) : list Z :=
  le_bytes 4 (sm_verID s) ++ le_bytes 4 (sm_sysCatVerID s).
Definition state_word (s : SessionManagerServer) : list Z :=
  le_bytes 4 (Z.land (systemState s) (Z.lnot save_mask)).

(** [SessionManagerServer::saveSMTxnIDAndState] *)
Definition saveSMTxnIDAndState (w : io) : M SessionManagerServer unit := fun s =>
  match w with
  | IoOk => (Ret tt, set_txnidFile (Some (version_words s ++ state_word s)) s)
  | IoOpenFails => (Exn RuntimeError, s)
  | IoFirstWriteFails => (Exn RuntimeError, set_txnidFile (Some []) s)
  | IoSecondWriteFails => (Exn RuntimeError, set_txnidFile (Some (version_words s)) s)
  end.

(** A positioned write to the local file. *)
Definition write_local (w : io) (off : nat) (d : list Z) : M SessionManagerServer unit := fun s =>
  match w with
  | IoOk => (Ret tt, set_txnidFile (Some (write_at off d (default [] (txnidFile s)))) s)
  | _ => (Exn RuntimeError, s)
  end.

(** [SessionManagerServer::saveSystemState] *)
Definition saveSystemState (w : io) : M SessionManagerServer unit :=
  s ← gets id;
  if useHdfs s then saveSMTxnIDAndState w else write_local w 8 (state_word s).

(** ** Operations *)

(** [SessionManagerServer::verID] and [sysCatVerID]: the SCN and the active
    transactions. *)
Definition server_verID (s : SessionManagerServer) : Z * list Z := (sm_verID s, snd <$> activeTxns s).
Definition sysCatVerID (s : SessionManagerServer) : Z * list Z := (sm_sysCatVerID s, snd <$> activeTxns s).

(** What a call of [newTxnID] comes to: it has a transaction (or an invalid one),
    or it waits for a slot. *)
Inductive newTxn := Txn (t : TxnID) | Waiting.

(** The end of [newTxnID], after the wait. *)
Definition newTxnID_grab (w : io) (session : Z) (isDDL : bool) : M SessionManagerServer newTxn :=
  s ← gets id;
  let sem := semValue s - 1 in
  modify (set_active (activeTxns s) sem) ≫= fun _ =>
  (if sem <=? u32 (maxTxns s) then mret tt else throw AssertFailure) ≫= fun _ =>
  let id := i32 (sm_verID s + 1) in
  let cat := if isDDL then i32 (sm_sysCatVerID s + 1) else sm_sysCatVerID s in
  modify (fun s => set_active (smap_set session id (activeTxns s)) (semValue s) (set_versions id cat s))
    ≫= fun _ =>
  s ← gets Datatypes.id;
  (if useHdfs s then saveSMTxnIDAndState w else write_local w 0 (version_words s)) ≫= fun _ =>
  mret (Txn (mkTxn id true)).

(** [while (semValue == 0) condvar.wait(lk);] and what follows: where a waiting
    call goes on when it is woken. *)
Definition newTxnID_wait (w : io) (session : Z) (isDDL : bool) : M SessionManagerServer newTxn :=
  s ← gets id;
  if semValue s =? 0 then mret Waiting else newTxnID_grab w session isDDL.

(** [SessionManagerServer::newTxnID] *)
Definition newTxnID (w : io) (session : Z) (block isDDL : bool) : M SessionManagerServer newTxn :=
  s ← gets id;
  match smap_find session (activeTxns s) with
  | Some id => mret (Txn (mkTxn id true))
  | None =>
      if negb block && (semValue s =? 0) then mret (Txn (mkTxn 0 false))
      else newTxnID_wait w session isDDL
  end.

(** [SessionManagerServer::finishTransaction]: the transaction on return. *)
Definition finishTransaction (txn : TxnID) : M SessionManagerServer TxnID :=
  if negb (txn_valid txn) then throw InvalidArgument
  else
    s ← gets id;
    let found := existsb (fun kv => kv.2 =? txn_id txn) (activeTxns s) in
    modify (set_active (List.filter (fun kv => negb (kv.2 =? txn_id txn)) (activeTxns s)) (semValue s))
      ≫= fun _ =>
    if found : bool then
      let sem := u32 (semValue s + 1) in
      modify (fun s => set_active (activeTxns s) sem s) ≫= fun _ =>
      (if sem <=? u32 (maxTxns s) then mret tt else throw AssertFailure) ≫= fun _ =>
      mret (mkTxn (txn_id txn) false)
    else throw InvalidArgument.

(** [SessionManagerServer::getTxnID] *)
Definition getTxnID (session : Z) (s : SessionManagerServer) : TxnID :=
  match smap_find session (activeTxns s) with
  | Some id => mkTxn id true
  | None => mkTxn 0 false
  end.

(** [SessionManagerServer::SIDTIDMap]: the sessions and their transactions. *)
Definition SIDTIDMap (s : SessionManagerServer) : list (Z * TxnID) :=
  (fun kv => (kv.1, mkTxn kv.2 true)) <$> activeTxns s.

(** [SessionManagerServer::setSystemState], [clearSystemState] *)
Definition setSystemState (w : io) (state : Z) : M SessionManagerServer unit :=
  modify (fun s => set_state (Z.lor (systemState s) state) s) ≫= fun _ => saveSystemState w.
Definition clearSystemState (w : io) (state : Z) : M SessionManagerServer unit :=
  modify (fun s => set_state (Z.land (systemState s) (Z.lnot state)) s) ≫= fun _ => saveSystemState w.

(** [SessionManagerServer::getTxnCount] *)
Definition getTxnCount (s : SessionManagerServer) : Z := u32 (zlength (activeTxns s)).

(** [SessionManagerServer::reset] *)
Definition sm_reset : M SessionManagerServer unit :=
  modify (fun s => set_active [] (u32 (maxTxns s)) s).

(** [SessionManagerServer::getUnique32], [getUnique64] *)
Definition getUnique32 : M SessionManagerServer Z := fun s =>
  let u := u32 (unique32 s + 1) in
  (Ret u, mkSM u (unique64 s) (maxTxns s) (sm_verID s) (sm_sysCatVerID s) (systemState s)
            (activeTxns s) (semValue s) (useHdfs s) (txnidFile s)).
Definition getUnique64 : M SessionManagerServer Z := fun s =>
  let u := u64 (unique64 s + 1) in
  (Ret u, mkSM (unique32 s) u (maxTxns s) (sm_verID s) (sm_sysCatVerID s) (systemState s)
            (activeTxns s) (semValue s) (useHdfs s) (txnidFile s)).

(** ** Many callers *)

(** The server and the calls of [newTxnID] that wait: their session and whether
    they are for DDL. *)
Record SMSys := mkSys { sys_sm : SessionManagerServer; waiting : list (Z * bool) }.

Definition still_waiting (r : outcome newTxn) : bool :=
  match r with Ret Waiting => true | _ => false end.

(** The steps, each with the mutex held; the label is the session whose call of
    [newTxnID] begins.  The ids have not reached the end of their type. *)
Inductive sm_step : option Z → SMSys → SMSys → Prop :=
  | step_new s q w session block isDDL r s' :
      sm_verID s < 2 ^ 31 - 1 →
      newTxnID w session block isDDL s = (r, s') →
      sm_step (Some session) (mkSys s q) (mkSys s' (if still_waiting r then (session, isDDL) :: q else q))
  | step_wake s q1 q2 w session isDDL r s' :
      sm_verID s < 2 ^ 31 - 1 →
      newTxnID_wait w session isDDL s = (r, s') →
      sm_step None (mkSys s (q1 ++ (session, isDDL) :: q2))
        (mkSys s' (if still_waiting r then q1 ++ (session, isDDL) :: q2 else q1 ++ q2))
  | step_finish s q txn r s' :
      finishTransaction txn s = (r, s') → sm_step None (mkSys s q) (mkSys s' q)
  | step_set s q w state r s' :
      setSystemState w state s = (r, s') → sm_step None (mkSys s q) (mkSys s' q)
  | step_clear s q w state r s' :
      clearSystemState w state s = (r, s') → sm_step None (mkSys s q) (mkSys s' q)
  | step_reset s q r s' :
      sm_reset s = (r, s') → sm_step None (mkSys s q) (mkSys s' q)
  | step_unique32 s q r s' :
      getUnique32 s = (r, s') → sm_step None (mkSys s q) (mkSys s' q)
  | step_unique s q r s' :
      getUnique64 s = (r, s') → sm_step None (mkSys s q) (mkSys s' q).

(** No session begins a call of [newTxnID] while another of its calls waits. *)
Definition sm_one_call (y y' : SMSys) : Prop :=
  ∃ l, sm_step l y y' ∧ ∀ session, l = Some session → session ∉ fst <$> waiting y.
