(* ===== verification/SessionProofs.v ===== *)
(** * Correctness of the session manager

    The invariant of the semaphore and the ids, that every interleaving of the
    calls keeps it, what [newTxnID] and [finishTransaction] do on every branch,
    and that what is in the file survives a restart. *)

From S2P Require Import Prelude BinFile StdMap Session.

Implicit Types (s : SessionManagerServer).

(** ** The invariant *)

Record sm_inv s : Prop := mkSmInv {
  smi_map : smap_ok (activeTxns s);
  smi_max : 1 ≤ maxTxns s < 2 ^ 31;
  smi_pos : 0 ≤ semValue s;
  smi_sem : semValue s + zlength (activeTxns s) = maxTxns s;
  smi_ver : 0 ≤ sm_verID s < 2 ^ 31;
  smi_ids k id : (k, id) ∈ activeTxns s → 0 < id ≤ sm_verID s;
  smi_unique k k' id : (k, id) ∈ activeTxns s → (k', id) ∈ activeTxns s → k = k';
}.

Definition sys_inv (y : SMSys) : Prop :=
  sm_inv (sys_sm y) ∧ NoDup (fst <$> waiting y) ∧
  ∀ k, k ∈ fst <$> waiting y → smap_find k (activeTxns (sys_sm y)) = None.

Lemma sm_inv_file s f : sm_inv s → sm_inv (set_txnidFile f s).
Proof. by intros []. Qed.

Lemma sm_inv_state s st : sm_inv s → sm_inv (set_state st s).
Proof. by intros []. Qed.

Lemma set_same_file s : set_txnidFile (txnidFile s) s = s.
Proof. by destruct s. Qed.

(** The saving functions touch the file only. *)
Lemma saveSM_run w s :
  ∃ r f, saveSMTxnIDAndState w s = (r, set_txnidFile f s) ∧ (w = IoOk → r = Ret tt) ∧
         (r = Ret tt ∨ r = Exn RuntimeError).
Proof.
  destruct w; cbn [saveSMTxnIDAndState];
    [|exists (Exn RuntimeError), (txnidFile s); rewrite set_same_file|..];
    [eexists _, _|idtac|eexists _, _|eexists _, _]; (split; [reflexivity|]); (split; [done|]); auto.
Qed.

Lemma write_local_run w off d s :
  ∃ r f, write_local w off d s = (r, set_txnidFile f s) ∧ (w = IoOk → r = Ret tt) ∧
         (r = Ret tt ∨ r = Exn RuntimeError).
Proof.
  destruct w; cbn [write_local];
    [eexists _, _|exists (Exn RuntimeError), (txnidFile s); rewrite set_same_file..];
    (split; [reflexivity|]); (split; [done|]); auto.
Qed.

Lemma saveSystemState_run w s :
  ∃ r f, saveSystemState w s = (r, set_txnidFile f s) ∧ (w = IoOk → r = Ret tt) ∧
         (r = Ret tt ∨ r = Exn RuntimeError).
Proof.
  change (saveSystemState w s) with
    ((if useHdfs s then saveSMTxnIDAndState w else write_local w 8 (state_word s)) s).
  destruct (useHdfs s); [apply saveSM_run|apply write_local_run].
Qed.

Lemma gets_run {A} (k : SessionManagerServer → M SessionManagerServer A) s :
  (gets id ≫= k) s = k s s.
Proof. done. Qed.

(** ** [newTxnID] *)

(** The server after a new transaction [sm_verID s + 1] of [session]. *)
Definition granted (session : Z) (isDDL : bool) s : SessionManagerServer :=
  set_active (smap_set session (sm_verID s + 1) (activeTxns s)) (semValue s - 1)
    (set_versions (sm_verID s + 1)
       (if isDDL then i32 (sm_sysCatVerID s + 1) else sm_sysCatVerID s) s).

Lemma newTxnID_grab_run w session isDDL s :
  sm_inv s → 0 < semValue s → sm_verID s < 2 ^ 31 - 1 →
  ∃ r f, newTxnID_grab w session isDDL s = (r, set_txnidFile f (granted session isDDL s)) ∧
    (w = IoOk → r = Ret (Txn (mkTxn (sm_verID s + 1) true))) ∧
    (r = Ret (Txn (mkTxn (sm_verID s + 1) true)) ∨ r = Exn RuntimeError).
Proof.
  intros Hs Hsem Hver. unfold newTxnID_grab. rewrite gets_run. cbv zeta beta. pose proof (zlength_nonneg (activeTxns s)). destruct Hs as [? ? ? ? ? ? ?].
  assert (u32 (maxTxns s) = maxTxns s) as -> by (apply wrap_u_small; lia).
  assert (semValue s - 1 <=? maxTxns s = true) as -> by (apply Z.leb_le; lia).
  assert (i32 (sm_verID s + 1) = sm_verID s + 1) as -> by (apply wrap_s_small; lia).
  do 3 (erewrite bind_ret by reflexivity). rewrite gets_run. cbv beta.
  change (set_active _ (semValue _) _) with (granted session isDDL s).
  destruct (useHdfs (granted session isDDL s)).
  - destruct (saveSM_run w (granted session isDDL s)) as (r & f & Hr & Hok & [->| ->]).
    + eexists _, f. rewrite (bind_ret _ _ _ _ _ Hr). auto.
    + eexists _, f. rewrite (bind_exn _ _ _ _ _ Hr). split; [done|]. split; [by intros [=]%Hok|auto].
  - destruct (write_local_run w 0 (version_words (granted session isDDL s)) (granted session isDDL s))
      as (r & f & Hr & Hok & [->| ->]).
    + eexists _, f. rewrite (bind_ret _ _ _ _ _ Hr). auto.
    + eexists _, f. rewrite (bind_exn _ _ _ _ _ Hr). split; [done|]. split; [by intros [=]%Hok|auto].
Qed.

Lemma granted_inv session isDDL s :
  sm_inv s → 0 < semValue s → sm_verID s < 2 ^ 31 - 1 → smap_find session (activeTxns s) = None →
  sm_inv (granted session isDDL s).
Proof.
  intros [Hm Hx Hp Hsem Hv Hids Hu] Hlt Hver Hnew. split; cbn.
  - by apply smap_set_ok.
  - done.
  - lia.
  - rewrite smap_set_length, Hnew by done. lia.
  - lia.
  - intros k id. rewrite smap_set_elem by done. intros [[-> ->]|[_ Hin]]; [lia|].
    apply Hids in Hin. lia.
  - intros k k' id. rewrite !smap_set_elem by done.
    intros [[-> ->]|[_ H1]] [[-> H']|[_ H2]]; [done|apply Hids in H2; lia|apply Hids in H1; lia|].
    by eapply Hu.
Qed.

(** ** [finishTransaction] *)

(** The server after transaction [id] has finished. *)
Definition finished (id : Z) s : SessionManagerServer :=
  set_active (List.filter (fun kv => negb (kv.2 =? id)) (activeTxns s)) (semValue s + 1) s.

Lemma filter_one (m : list (Z * Z)) id k :
  smap_ok m → (k, id) ∈ m → (∀ k k', (k, id) ∈ m → (k', id) ∈ m → k = k') →
  zlength (List.filter (fun kv => negb (kv.2 =? id)) m) = zlength m - 1.
Proof.
  intros Hm Hin Hu.
  assert (List.filter (fun kv => negb (kv.2 =? id)) m = smap_erase k m) as ->.
  { unfold smap_erase. apply filter_ext_in. intros [k' id'] Hin'%list_elem_of_In. cbn. f_equal.
    apply eq_iff_eq_true. rewrite !Z.eqb_eq. split.
    - intros ->. by apply Hu.
    - intros ->. apply smap_find_elem in Hin, Hin'; [|done..]. congruence. }
  rewrite smap_erase_length by done. apply smap_find_elem in Hin; [|done]. by rewrite Hin.
Qed.

Lemma finish_run id s k :
  sm_inv s → (k, id) ∈ activeTxns s →
  finishTransaction (mkTxn id true) s = (Ret (mkTxn id false), finished id s) ∧ sm_inv (finished id s).
Proof.
  intros Hs Hin. pose proof Hs as [Hm Hx Hp Hsem Hv Hids Hu].
  assert (zlength (List.filter (fun kv => negb (kv.2 =? id)) (activeTxns s)) = zlength (activeTxns s) - 1)
    as Hlen by (eapply filter_one; eauto).
  pose proof (zlength_nonneg (List.filter (fun kv => negb (kv.2 =? id)) (activeTxns s))) as Hnn.
  split.
  - unfold finishTransaction. cbn [txn_valid txn_id negb]. rewrite gets_run. cbv zeta beta.
    assert (existsb (fun kv => kv.2 =? id) (activeTxns s) = true) as ->.
    { apply existsb_exists. exists (k, id). split; [by apply list_elem_of_In|]. apply Z.eqb_refl. }
    erewrite bind_ret by reflexivity.
    assert (u32 (semValue s + 1) = semValue s + 1) as -> by (apply wrap_u_small; lia).
    assert (u32 (maxTxns s) = maxTxns s) as -> by (apply wrap_u_small; lia).
    assert (semValue s + 1 <=? maxTxns s = true) as -> by (apply Z.leb_le; lia).
    erewrite bind_ret by reflexivity. erewrite bind_ret by reflexivity. reflexivity.
  - split; cbn; try done; [by apply smap_filter_ok|lia|lia|..].
    + intros k' id' Hin'%list_elem_of_In. apply filter_In in Hin' as [Hin'%list_elem_of_In _]. eauto.
    + intros k1 k2 id' H1%list_elem_of_In H2%list_elem_of_In.
      apply filter_In in H1 as [H1%list_elem_of_In _]. apply filter_In in H2 as [H2%list_elem_of_In _]. eauto.
Qed.

Lemma finish_missing txn s :
  (txn_valid txn = false ∨ ∀ k, (k, txn_id txn) ∉ activeTxns s) →
  finishTransaction txn s = (Exn InvalidArgument, s).
Proof.
  intros Hno. unfold finishTransaction. destruct (txn_valid txn) eqn:Hv; cbn [negb]; [|done].
  destruct Hno as [?|Hno]; [done|]. rewrite gets_run. cbv zeta beta.
  assert (existsb (fun kv => kv.2 =? txn_id txn) (activeTxns s) = false) as ->.
  { apply not_true_iff_false. rewrite existsb_exists. intros ([k i] & Hin%list_elem_of_In & Heq).
    cbn in Heq. apply Z.eqb_eq in Heq. subst i. by eapply Hno. }
  erewrite bind_ret by reflexivity. unfold throw. f_equal.
  assert (List.filter (fun kv => negb (kv.2 =? txn_id txn)) (activeTxns s) = activeTxns s) as ->.
  { rewrite <- (List.filter_true (activeTxns s)) at 2. apply filter_ext_in.
    intros [k i] Hin%list_elem_of_In. cbn. apply negb_true_iff, Z.eqb_neq. intros ->. by eapply Hno. }
  by destruct s.
Qed.

(** ** Every interleaving *)

(** What a call of [newTxnID] does when its session has no transaction: it waits
    or it is granted one. *)
Lemma newTxnID_wait_run w session isDDL s :
  sm_inv s → sm_verID s < 2 ^ 31 - 1 →
  (semValue s = 0 ∧ newTxnID_wait w session isDDL s = (Ret Waiting, s)) ∨
  (0 < semValue s ∧ ∃ r f,
    newTxnID_wait w session isDDL s = (r, set_txnidFile f (granted session isDDL s)) ∧
    (w = IoOk → r = Ret (Txn (mkTxn (sm_verID s + 1) true))) ∧
    (r = Ret (Txn (mkTxn (sm_verID s + 1) true)) ∨ r = Exn RuntimeError)).
Proof.
  intros Hs Hver. unfold newTxnID_wait. rewrite gets_run.
  destruct (Z.eqb_spec (semValue s) 0); [by left|right].
  pose proof (smi_pos _ Hs). split; [lia|]. apply newTxnID_grab_run; [done|lia|done].
Qed.

Lemma newTxnID_run w session block isDDL s :
  newTxnID w session block isDDL s =
    match smap_find session (activeTxns s) with
    | Some id => (Ret (Txn (mkTxn id true)), s)
    | None => if negb block && (semValue s =? 0) then (Ret (Txn (mkTxn 0 false)), s)
              else newTxnID_wait w session isDDL s
    end.
Proof. unfold newTxnID. rewrite gets_run. destruct (smap_find _ _); [done|]. by destruct (_ && _). Qed.

Lemma not_waiting r (s : SessionManagerServer) :
  r = Ret (Txn (mkTxn (sm_verID s + 1) true)) ∨ r = Exn RuntimeError → still_waiting r = false.
Proof. by intros [->| ->]. Qed.

Lemma finish_frame txn s r s' :
  sm_inv s → finishTransaction txn s = (r, s') →
  sm_inv s' ∧ ∀ k, smap_find k (activeTxns s) = None → smap_find k (activeTxns s') = None.
Proof.
  intros Hs Hr. destruct txn as [id v]. pose proof (smi_map _ Hs) as Hm.
  destruct v; [|rewrite finish_missing in Hr by auto; by simplify_eq].
  destruct (existsb (fun kv => kv.2 =? id) (activeTxns s)) eqn:Hex.
  - apply existsb_exists in Hex as ([k i] & Hin%list_elem_of_In & Heq%Z.eqb_eq). cbn in Heq. subst i.
    destruct (finish_run id s k Hs Hin) as [Hrun Hinv]. rewrite Hrun in Hr. simplify_eq.
    split; [done|]. intros k' Hk'. destruct (smap_find k' (activeTxns (finished id s))) as [i|] eqn:Hf; [|done].
    apply smap_find_elem, list_elem_of_In in Hf; [|apply Hinv]. cbn in Hf.
    apply filter_In in Hf as [Hf%list_elem_of_In _]. apply smap_find_elem in Hf; [congruence|done].
  - rewrite finish_missing in Hr; [by simplify_eq|]. right. cbn. intros k Hin.
    assert (existsb (fun kv => kv.2 =? id) (activeTxns s) = true); [|congruence].
    apply existsb_exists. exists (k, id). split; [by apply list_elem_of_In|]. apply Z.eqb_refl.
Qed.

Lemma sm_step_inv y y' : sys_inv y → sm_one_call y y' → sys_inv y'.
Proof.
  intros (Hs & Hnd & Hw) (l & Hstep & Hl). destruct Hstep as
    [s q w session block isDDL r s' Hver Hr|s q1 q2 w session isDDL r s' Hver Hr|s q txn r s' Hr
    |s q w st r s' Hr|s q w st r s' Hr|s q r s' Hr|s q r s' Hr|s q r s' Hr]; cbn [sys_sm waiting] in *.
  - pose proof (Hl session eq_refl) as Hni. rewrite newTxnID_run in Hr. destruct (smap_find session (activeTxns s)) eqn:Hf;
      [simplify_eq; exact (conj Hs (conj Hnd Hw))|].
    destruct (negb block && (semValue s =? 0)); [simplify_eq; exact (conj Hs (conj Hnd Hw))|].
    destruct (newTxnID_wait_run w session isDDL s Hs Hver) as [[_ Hr']|(Hsem & r' & f & Hr' & _ & Hres)];
      rewrite Hr' in Hr; simplify_eq; cbn [still_waiting].
    + split; [done|]. cbn [sys_sm waiting]. rewrite fmap_cons. split; [by constructor|].
      intros k [->|Hk]%elem_of_cons; [done|by apply Hw].
    + rewrite (not_waiting _ s Hres). split; [by apply sm_inv_file, granted_inv|]. split; [done|].
      intros k Hk. cbn. rewrite smap_find_set by apply Hs. case_if; [by subst k|by apply Hw].
  - assert (session ∈ fst <$> q1 ++ (session, isDDL) :: q2) as Hin.
    { rewrite fmap_app, fmap_cons. set_solver. }
    destruct (newTxnID_wait_run w session isDDL s Hs Hver) as [[_ Hr']|(Hsem & r' & f & Hr' & _ & Hres)];
      rewrite Hr' in Hr; simplify_eq; cbn [still_waiting]; [exact (conj Hs (conj Hnd Hw))|].
    rewrite (not_waiting _ s Hres). split; [by apply sm_inv_file, granted_inv; auto|].
    cbn [sys_sm waiting]. rewrite fmap_app, fmap_cons in Hnd. rewrite fmap_app, fmap_cons in Hw.
    cbn in Hnd. apply NoDup_app in Hnd as (Hn1 & Hd & [Hni Hn2]%NoDup_cons). split.
    + rewrite fmap_app. apply NoDup_app. split; [done|]. split; [|done]. set_solver.
    + intros k Hk. rewrite fmap_app in Hk. cbn. rewrite smap_find_set by apply Hs.
      case_if; [|apply Hw; set_solver]. subst k. set_solver.
  - destruct (finish_frame txn s r s' Hs Hr) as [Hs' Hk]. split; [done|]. split; [done|].
    intros k Hin. apply Hk. by apply Hw.
  - unfold setSystemState in Hr. erewrite bind_ret in Hr by reflexivity.
    destruct (saveSystemState_run w (set_state (Z.lor (systemState s) st) s)) as (r' & f & Hr' & _).
    rewrite Hr' in Hr. simplify_eq. split; [by apply sm_inv_file, sm_inv_state|done].
  - unfold clearSystemState in Hr. erewrite bind_ret in Hr by reflexivity.
    destruct (saveSystemState_run w (set_state (Z.land (systemState s) (Z.lnot st)) s)) as (r' & f & Hr' & _).
    rewrite Hr' in Hr. simplify_eq. split; [by apply sm_inv_file, sm_inv_state|done].
  - unfold sm_reset, modify in Hr. simplify_eq. split; [|done]. destruct Hs as [? Hm ? ? ? ? ?]. split; cbn; try done.
    + rewrite wrap_u_small by lia. lia.
    + rewrite wrap_u_small by lia. change (zlength (@nil (Z * Z))) with 0. lia.
    + intros k id Hin. by apply elem_of_nil in Hin.
    + intros k k' id Hin. by apply elem_of_nil in Hin.
  - unfold getUnique32 in Hr. simplify_eq. split; [by destruct Hs|done].
  - unfold getUnique64 in Hr. simplify_eq. split; [by destruct Hs|done].
Qed.

(** ** Restart *)

Lemma read4_app a b : length a = 4%nat → read4 (a ++ b) = (Some a, b).
Proof.
  intros Ha. unfold read4. rewrite decide_True by (rewrite length_app; lia).
  by rewrite <- Ha, take_app_length, drop_app_length.
Qed.

(** What [loadState] reads back from a file that starts with the two versions. *)
Lemma load_versions v c rest s :
  fits_s 4 v = true → fits_s 4 c = true →
  sm_verID (load_bytes (le_bytes 4 v ++ le_bytes 4 c ++ rest) s) = v ∧
  sm_sysCatVerID (load_bytes (le_bytes 4 v ++ le_bytes 4 c ++ rest) s) = c.
Proof.
  intros Hv Hc. unfold load_bytes. rewrite !read4_app by apply length_le_bytes.
  rewrite !get_s_bytes by (lia || done). by destruct (read4 rest).
Qed.

Lemma write_at_0 d f : write_at 0 d f = d ++ drop (length d) f.
Proof. unfold write_at. by rewrite take_0. Qed.

Lemma fits_ver v : 0 ≤ v < 2 ^ 31 → fits_s 4 v = true.
Proof.
  intros Hv. unfold fits_s. change (8 * Z.of_nat 4 - 1) with 31. apply andb_true_iff.
  split; [apply Z.leb_le; lia|apply Z.ltb_lt; lia].
Qed.

Lemma fits_i32 x : fits_s 4 (i32 x) = true.
Proof.
  unfold fits_s. change (8 * Z.of_nat 4 - 1) with 31. unfold wrap_s.
  pose proof (Z.mod_pos_bound x (2 ^ 32) ltac:(lia)). change (2 ^ (32 - 1)) with (2 ^ 31).
  assert (2 ^ 32 = 2 * 2 ^ 31) as E by done.
  case_if; apply andb_true_iff; (split; [apply Z.leb_le; lia|apply Z.ltb_lt; lia]).
Qed.

(** A transaction id that was granted and written is known after a restart. *)
Lemma grant_restart w session isDDL s cfg id s' :
  sm_inv s → fits_s 4 (sm_sysCatVerID s) = true → sm_verID s < 2 ^ 31 - 1 →
  newTxnID_wait w session isDDL s = (Ret (Txn (mkTxn id true)), s') →
  let s2 := newSessionManagerServer cfg (useHdfs s') (txnidFile s') in
  sm_verID s2 = id ∧ sm_sysCatVerID s2 = sm_sysCatVerID s'.
Proof.
  intros Hs Hcat Hver Hr.
  destruct (newTxnID_wait_run w session isDDL s Hs Hver) as [[_ Hr']|(Hsem & r' & f & Hr' & _ & _)];
    [rewrite Hr' in Hr; by simplify_eq|].
  assert (newTxnID_wait w session isDDL s = newTxnID_grab w session isDDL s) as Hgrab.
  { unfold newTxnID_wait. rewrite gets_run. destruct (Z.eqb_spec (semValue s) 0); [lia|done]. }
  rewrite Hgrab in Hr. clear Hr' Hgrab. revert Hr. unfold newTxnID_grab. rewrite gets_run. cbv zeta beta.
  pose proof (zlength_nonneg (activeTxns s)). pose proof Hs as [? ? ? ? ? ? ?].
  assert (u32 (maxTxns s) = maxTxns s) as -> by (apply wrap_u_small; lia).
  assert (semValue s - 1 <=? maxTxns s = true) as -> by (apply Z.leb_le; lia).
  assert (i32 (sm_verID s + 1) = sm_verID s + 1) as -> by (apply wrap_s_small; lia).
  do 3 (erewrite bind_ret by reflexivity). rewrite gets_run. cbv beta.
  change (set_active _ (semValue _) _) with (granted session isDDL s).
  set (s1 := granted session isDDL s).
  assert (fits_s 4 (sm_verID s1) = true) as Hf1 by (apply fits_ver; cbn; lia).
  assert (fits_s 4 (sm_sysCatVerID s1) = true) as Hf2.
  { cbn. destruct isDDL; [apply fits_i32|done]. }
  intros Hr. assert (∃ rest, s' = set_txnidFile (Some (version_words s1 ++ rest)) s1 ∧ id = sm_verID s1)
    as (rest & -> & ->).
  { unfold mbind, M_bind, mret, M_ret in Hr.
    destruct (useHdfs s1), w; cbn [saveSMTxnIDAndState write_local] in Hr; try discriminate Hr.
    - exists (state_word s1). by injection Hr as <- <-.
    - exists (drop 8 (default [] (txnidFile s1))). rewrite write_at_0 in Hr.
      by injection Hr as <- <-. }
  unfold newSessionManagerServer, sm_loadState. cbn [useHdfs txnidFile set_txnidFile].
  unfold version_words. rewrite <- app_assoc.
  destruct (useHdfs s1); cbn [default]; by apply load_versions.
Qed.
