(* ===== verification/SessionTheorems.v ===== *)
(** * What the session manager guarantees

    The statements about [SessionManagerServer], alone and together with the
    worker node, with their instances. *)

From S2P Require Import Prelude BinFile StdMap Session SessionProofs.
From S2P Require Import Hasher HashChain Undo Table Vbbm Vss CopyLocks SlaveNode SlaveProofs Samples NodeTheorems.

#[local] Opaque Hasher.

Implicit Types (s : SessionManagerServer).

Lemma read4_range f b : (read4 f).1 = Some b → - 2 ^ 31 ≤ get_s b < 2 ^ 31.
Proof.
  unfold read4. case_decide as Hl; [|done]. cbn [fst]. intros [= <-]. unfold get_s, zlength.
  rewrite length_take_le by done. unfold wrap_s. change (8 * Z.of_nat 4) with 32.
  pose proof (Z.mod_pos_bound (le_value (take 4 f)) (2 ^ 32) ltac:(lia)).
  change (2 ^ (32 - 1)) with (2 ^ 31). assert (2 ^ 32 = 2 * 2 ^ 31) by done. case_if; lia.
Qed.

Lemma new_server cfg hdfs f :
  let s0 := newSessionManagerServer cfg hdfs f in
  (∀ t, cfg = Some t → t < 2 ^ 31) → 0 ≤ sm_verID s0 → sm_inv s0.
Proof.
  intros s0 Hcfg Hver.
  assert (sm_verID s0 < 2 ^ 31 ∧ activeTxns s0 = [] ∧ semValue s0 = u32 (maxTxns s0) ∧
    maxTxns s0 = match cfg with Some tmp => if tmp <? 1 then 1 else i32 tmp | None => 1 end)
    as (Hlt & Ha & Hsem & Hmax).
  { assert (∀ g s, sm_verID s < 2 ^ 31 → sm_verID (load_bytes g s) < 2 ^ 31) as Hload.
    { intros g s Hs. unfold load_bytes. destruct (read4 g) as [[b|] g1] eqn:Hb;
        destruct (read4 g1) as [w2 g2], (read4 g2) as [w3 g3]; cbn; [|done].
      apply (read4_range g). by rewrite Hb. }
    unfold s0, newSessionManagerServer, sm_loadState. cbn [useHdfs txnidFile].
    destruct hdfs, f as [f|]; cbn [default];
      (split; [try apply Hload; done|]); try done;
      unfold load_bytes; destruct (read4 _) as [? ?]; destruct (read4 _) as [? ?], (read4 _) as [? ?]; done. }
  assert (1 ≤ maxTxns s0 < 2 ^ 31) as Hm.
  { rewrite Hmax. destruct cfg as [t|]; [|lia]. specialize (Hcfg t eq_refl). case_if; [lia|].
    rewrite wrap_s_small by lia. lia. }
  rewrite wrap_u_small in Hsem by (assert (2 ^ 32 = 2 * 2 ^ 31) by done; lia).
  split; try done; rewrite ?Ha; try done; [lia|rewrite Hsem; unfold zlength; cbn; lia|..].
  - intros k id Hin. by apply elem_of_nil in Hin.
  - intros k k' id Hin. by apply elem_of_nil in Hin.
Qed.

(** C22 The invariant of the session manager holds after every sequence of calls,
    waits, wake-ups and resets of any number of threads from a fresh server, as long
    as no session begins a call of [newTxnID] while another of its calls waits, and
    the ids do not reach 2^31 - 1: the free slots and the active transactions add up
    to the configured maximum, the active ids are distinct and at most the SCN, and
    a session with a waiting call has no transaction.  The server does not enforce
    the first condition: without it a slot is lost ([waiting_twice_leaks_slot]). *)
Theorem session_invariant cfg hdfs f y :
  let s0 := newSessionManagerServer cfg hdfs f in
  (∀ t, cfg = Some t → t < 2 ^ 31) → 0 ≤ sm_verID s0 →
  rtc sm_one_call (mkSys s0 []) y → sys_inv y.
Proof.
  intros s0 Hcfg Hver Hrtc.
  assert (sys_inv (mkSys s0 [])) as H0.
  { split; [by apply new_server|]. split; [constructor|]. intros k Hk. by apply elem_of_nil in Hk. }
  clearbody s0. remember (mkSys s0 []) as y0. clear Heqy0.
  induction Hrtc as [|y1 y2 y3 H12 _ IH]; [done|]. apply IH. by eapply sm_step_inv.
Qed.

Definition sm0 : SessionManagerServer := newSessionManagerServer (Some 2) false None.
Definition sm1 : SessionManagerServer := (newTxnID IoOk 5 true false sm0).2.

Lemma sm0_inv : sm_inv sm0.
Proof. apply new_server; [intros t [= <-]; lia|vm_compute; discriminate]. Qed.

Lemma session_invariant_witness : sys_inv (mkSys sm1 []).
Proof.
  apply (session_invariant (Some 2) false None (mkSys sm1 [])).
  - intros t [= <-]. lia.
  - vm_compute. discriminate.
  - eapply rtc_l; [|apply rtc_refl]. exists (Some 5). split.
    + apply (step_new sm0 [] IoOk 5 true false (Ret (Txn (mkTxn 1 true))) sm1); vm_compute; reflexivity.
    + intros session _. apply not_elem_of_nil.
Defined.

(** [newTxnID] on every branch: a session that has a transaction gets it again;
    with no slot free the call returns an invalid id or waits; otherwise it gets
    an id greater than the SCN and than every active id, which becomes the SCN,
    and a slot is taken. *)
Theorem newTxnID_branches session block isDDL s :
  sm_inv s → sm_verID s < 2 ^ 31 - 1 →
  match smap_find session (activeTxns s) with
  | Some id => newTxnID IoOk session block isDDL s = (Ret (Txn (mkTxn id true)), s)
  | None =>
      if semValue s =? 0 then
        newTxnID IoOk session block isDDL s =
          (Ret (if block then Waiting else Txn (mkTxn 0 false)), s)
      else
        ∃ s', newTxnID IoOk session block isDDL s = (Ret (Txn (mkTxn (sm_verID s + 1) true)), s') ∧
          sm_inv s' ∧ sm_verID s' = sm_verID s + 1 ∧ semValue s' = semValue s - 1 ∧
          getTxnID session s' = mkTxn (sm_verID s + 1) true ∧
          (∀ k id, (k, id) ∈ activeTxns s → id < sm_verID s + 1) ∧
          (∀ k, k ≠ session → smap_find k (activeTxns s') = smap_find k (activeTxns s))
  end.
Proof.
  intros Hs Hver. rewrite newTxnID_run.
  destruct (smap_find session (activeTxns s)) eqn:Hf; [done|].
  destruct (newTxnID_wait_run IoOk session isDDL s Hs Hver) as [[H0 Hr]|(Hpos & r & f & Hr & Hok & _)].
  - rewrite H0. cbn. destruct block; [done|by cbn].
  - assert (semValue s =? 0 = false) as Hne by (apply Z.eqb_neq; lia). rewrite Hne, andb_false_r, Hr.
    rewrite (Hok eq_refl). eexists. split; [reflexivity|]. split; [by apply sm_inv_file, granted_inv|].
    split; [done|]. split; [done|]. split; [|split].
    + unfold getTxnID. cbn. by rewrite smap_find_set, Z.eqb_refl by apply Hs.
    + intros k id Hin. apply (smi_ids _ Hs) in Hin. lia.
    + intros k Hk. cbn. rewrite smap_find_set by apply Hs. by apply Z.eqb_neq in Hk as ->.
Qed.

Lemma newTxnID_branches_witness :
  sm_inv sm0 ∧
  ∃ s', newTxnID IoOk 5 true false sm0 = (Ret (Txn (mkTxn 1 true)), s') ∧
    sm_inv s' ∧ sm_verID s' = 1 ∧ semValue s' = 1 ∧ getTxnID 5 s' = mkTxn 1 true ∧
    (∀ k id, (k, id) ∈ activeTxns sm0 → id < 1) ∧
    (∀ k, k ≠ 5 → smap_find k (activeTxns s') = smap_find k (activeTxns sm0)).
Proof.
  split; [exact sm0_inv|].
  exact (newTxnID_branches 5 true false sm0 sm0_inv (eq_refl : (sm_verID sm0 ?= 2 ^ 31 - 1) = Lt)).
Defined.

(** [finishTransaction] frees the slot of an active transaction, which leaves
    every later snapshot, and marks the caller's id invalid; for an invalid or
    unknown transaction it throws and changes nothing. *)
Theorem finishTransaction_branches txn s :
  sm_inv s →
  (∃ s', txn_valid txn = true ∧ (∃ k, (k, txn_id txn) ∈ activeTxns s) ∧
     finishTransaction txn s = (Ret (mkTxn (txn_id txn) false), s') ∧ sm_inv s' ∧
     semValue s' = semValue s + 1 ∧ sm_verID s' = sm_verID s ∧ txn_id txn ∉ (server_verID s').2 ∧
     ∀ k id, id ≠ txn_id txn → (k, id) ∈ activeTxns s' ↔ (k, id) ∈ activeTxns s) ∨
  ((txn_valid txn = false ∨ ∀ k, (k, txn_id txn) ∉ activeTxns s) ∧
   finishTransaction txn s = (Exn InvalidArgument, s)).
Proof.
  intros Hs. destruct txn as [id v]. cbn [txn_valid txn_id].
  destruct v; [|right; split; [by left|apply finish_missing; by left]].
  destruct (decide (id ∈ snd <$> activeTxns s)) as [([k i] & Heq & Hin)%list_elem_of_fmap|Hno].
  - cbn in Heq. subst i. left. destruct (finish_run id s k Hs Hin) as [Hr Hi].
    exists (finished id s). split_and!; try done; [by exists k|..].
    + unfold server_verID. cbn. intros ([k' i] & Heq & Hin')%list_elem_of_fmap. cbn in Heq. subst i.
      apply list_elem_of_In, filter_In in Hin' as [_ Hne]. cbn in Hne. by rewrite Z.eqb_refl in Hne.
    + intros k' i Hne. cbn. rewrite !list_elem_of_In, filter_In. cbn.
      assert (i =? id = false) as -> by by apply Z.eqb_neq. naive_solver.
  - right. assert (∀ k, (k, id) ∉ activeTxns s) as Hno'.
    { intros k Hin. apply Hno. apply list_elem_of_fmap. by exists (k, id). }
    split; [by right|]. apply finish_missing. by right.
Qed.

Lemma finishTransaction_branches_witness :
  (∃ s', txn_valid (mkTxn 1 true) = true ∧ (∃ k, (k, 1) ∈ activeTxns sm0) ∧
     finishTransaction (mkTxn 1 true) sm0 = (Ret (mkTxn 1 false), s') ∧ sm_inv s' ∧
     semValue s' = semValue sm0 + 1 ∧ sm_verID s' = sm_verID sm0 ∧ 1 ∉ (server_verID s').2 ∧
     ∀ k id, id ≠ 1 → (k, id) ∈ activeTxns s' ↔ (k, id) ∈ activeTxns sm0) ∨
  ((txn_valid (mkTxn 1 true) = false ∨ ∀ k, (k, 1) ∉ activeTxns sm0) ∧
   finishTransaction (mkTxn 1 true) sm0 = (Exn InvalidArgument, sm0)).
Proof. apply (finishTransaction_branches (mkTxn 1 true) sm0 sm0_inv). Defined.

(** Progress: whenever a call waits and fewer transactions than the maximum are
    active, waking it gives its session a transaction and ends the wait. *)
Theorem waiting_call_progress s q1 q2 session isDDL :
  sys_inv (mkSys s (q1 ++ (session, isDDL) :: q2)) → sm_verID s < 2 ^ 31 - 1 →
  zlength (activeTxns s) < maxTxns s →
  ∃ s', sm_step None (mkSys s (q1 ++ (session, isDDL) :: q2)) (mkSys s' (q1 ++ q2)) ∧
        smap_find session (activeTxns s') = Some (sm_verID s + 1).
Proof.
  intros [Hs _] Hver Hlt. cbn in Hs. pose proof (smi_sem _ Hs).
  destruct (newTxnID_wait_run IoOk session isDDL s Hs Hver) as [[H0 _]|(_ & r & f & Hr & Hok & _)]; [lia|].
  rewrite (Hok eq_refl) in Hr. eexists. split; [apply (step_wake _ _ _ _ _ _ _ _ Hver Hr)|].
  cbn. by rewrite smap_find_set, Z.eqb_refl by apply Hs.
Qed.

Lemma waiting_call_progress_witness :
  ∃ s', sm_step None (mkSys sm0 ([] ++ (7, false) :: [])) (mkSys s' ([] ++ [])) ∧
        smap_find 7 (activeTxns s') = Some (sm_verID sm0 + 1).
Proof.
  apply (waiting_call_progress sm0 [] [] 7 false); [|vm_compute; reflexivity|vm_compute; reflexivity].
  split; [exact sm0_inv|]. split; [apply NoDup_singleton|]. intros k _. reflexivity.
Defined.

(** Durability: the id a call of [newTxnID] returned is the SCN of a server
    started from the file afterwards, whatever its configuration, on a local file
    system as on HDFS; so ids are not reused after a restart. *)
Theorem txnid_survives_restart w session isDDL s cfg id s' :
  sm_inv s → fits_s 4 (sm_sysCatVerID s) = true → sm_verID s < 2 ^ 31 - 1 →
  newTxnID_wait w session isDDL s = (Ret (Txn (mkTxn id true)), s') →
  let s2 := newSessionManagerServer cfg (useHdfs s') (txnidFile s') in
  sm_verID s2 = id ∧ sm_sysCatVerID s2 = sm_sysCatVerID s'.
Proof. apply grant_restart. Qed.

Lemma txnid_survives_restart_witness :
  let s2 := newSessionManagerServer (Some 10) (useHdfs sm1) (txnidFile sm1) in
  sm_verID s2 = 1 ∧ sm_sysCatVerID s2 = sm_sysCatVerID sm1.
Proof.
  apply (txnid_survives_restart IoOk 5 false sm0 (Some 10) 1 sm1);
    [exact sm0_inv|vm_compute; reflexivity|vm_compute; reflexivity|vm_compute; reflexivity].
Defined.

(** Two sessions fill the server, session 7 calls twice and waits twice, the two
    transactions finish, and both calls of session 7 are woken. *)
Definition leak : M SessionManagerServer unit :=
  newTxnID IoOk 5 true false ≫= fun _ =>
  newTxnID IoOk 6 true false ≫= fun _ =>
  newTxnID IoOk 7 true false ≫= fun r1 =>
  newTxnID IoOk 7 true false ≫= fun r2 =>
  finishTransaction (mkTxn 1 true) ≫= fun _ =>
  finishTransaction (mkTxn 2 true) ≫= fun _ =>
  newTxnID_wait IoOk 7 false ≫= fun _ =>
  newTxnID_wait IoOk 7 false ≫= fun _ => mret tt.

(** A waiting call does not look its session up again when it is woken: two
    calls of one session that both waited are both given a transaction, the first
    of which is forgotten.  It cannot be finished and its slot is lost: one
    transaction is active, none of the two slots is free. *)
Theorem waiting_twice_leaks_slot :
  let s := (leak sm0).2 in
  activeTxns s = [(7, 4)] ∧ semValue s = 0 ∧ maxTxns s = 2 ∧
  (finishTransaction (mkTxn 3 true) s).1 = Exn InvalidArgument.
Proof. vm_compute. done. Qed.

(** C16 The controller and a worker together: a query that takes its snapshot from
    the session manager while transaction [t] is active reads, for a block that
    [t] has versioned, the version that was current before, from the version
    buffer. *)
Theorem controller_worker_isolation {EM} `{ExtentMapCalls EM} s k t l oid fbo
    (n n' : SlaveDBRMNode (EM := EM)) c t' rc :
  sm_inv s → (k, t) ∈ activeTxns s →
  node_inv n → 0 ≤ l → c < t → current_version (node_a n) l c false →
  writeVBEntry t l oid fbo n = (Ret rc, n') → t' ≠ t → c ∉ (server_verID s).2 →
  let q := queryContext_vss (server_verID s).1 (server_verID s).2 in
  vss_lookup l q t' false (u_mem (sn_vss n')) = Ret (0, c, true) ∧
  lookup l c (u_mem (sn_vbbm n')) = Ret (Some (oid, fbo)).
Proof.
  intros Hs Hin Hn Hl Hc Hcur Hr Ht' Hnc q. apply (smi_ids _ Hs) in Hin as Hle.
  eapply write_isolation; eauto.
  - left. unfold q, queryContext_vss, server_verID. cbn. apply elem_of_list_to_set, list_elem_of_fmap.
    by exists (k, t).
  - unfold q, queryContext_vss, server_verID. cbn. lia.
  - unfold q, queryContext_vss. cbn [txns]. by rewrite elem_of_list_to_set.
Qed.

Definition sm3 : SessionManagerServer :=
  ((newTxnID IoOk 4 true false ≫= fun _ => finishTransaction (mkTxn 1 true) ≫= fun _ =>
    newTxnID IoOk 4 true false ≫= fun _ => finishTransaction (mkTxn 2 true) ≫= fun _ =>
    newTxnID IoOk 5 true false) sm0).2.

Lemma sm3_inv : sm_inv sm3.
Proof.
  split; try (vm_compute; done).
  - change (activeTxns sm3) with [(5, 3)]. intros k id Hin%list_elem_of_singleton. simplify_eq. vm_compute. done.
  - change (activeTxns sm3) with [(5, 3)].
    intros k k' id H1%list_elem_of_singleton H2%list_elem_of_singleton. congruence.
Qed.

Lemma controller_worker_isolation_witness :
  let q := queryContext_vss (server_verID sm3).1 (server_verID sm3).2 in
  vss_lookup 7 q 0 false (u_mem (sn_vss node1)) = Ret (0, 0, true) ∧
  lookup 7 0 (u_mem (sn_vbbm node1)) = Ret (Some (9, 120)).
Proof.
  apply (controller_worker_isolation sm3 5 3 7 9 120 node0 node1 0 0 0);
    [exact sm3_inv|vm_compute; left|exact node0_inv|lia|lia|exact (node0_current 7)|exact node1_run|lia|].
  change (server_verID sm3).2 with [3]. intros Hc%list_elem_of_singleton. lia.
Defined.
