(* ===== verification/AutoInc.v ===== *)
(** * Autoincrement sequences ([autoincrementmanager.cpp])

    The controller hands out ranges of numbers for autoincrement columns.  A
    sequence has its next number and a limit that depends on the column; numbers
    are 64-bit and the test for the limit has to survive their wrapping. *)

From S2P Require Import Prelude StdMap ColType.

(** [sequence]; [seq_locked] is its mutex. *)
Record sequence := mkSeq { seq_value : Z; seq_overflow : Z; seq_locked : bool }.

(** [AutoincrementManager]: its map [sequences]. *)
Abbreviation AutoincrementManager := (list (Z * sequence)).

(** The limit [startSequence] computes. *)
Definition seq_limit (colWidth : Z) (t : ColDataType) : Z :=
  if isUnsigned t then u64 (Z.shiftr (2 ^ 64 - 1) (64 - colWidth * 8) - 1)
  else u64 (Z.shiftl 1 (colWidth * 8 - 1)).

(** [AutoincrementManager::startSequence] *)
Definition startSequence (oid firstNum colWidth : Z) (t : ColDataType)
    : M AutoincrementManager unit := fun m =>
  match smap_find oid m with
  | Some _ => (Ret tt, m)
  | None => (Ret tt, smap_set oid (mkSeq firstNum (seq_limit colWidth t) false) m)
  end.

(** [AutoincrementManager::getAIRange]: the first number, or [None] for [false]. *)
Definition getAIRange (oid count : Z) : M AutoincrementManager (option Z) := fun m =>
  match smap_find oid m with
  | None => (Exn RuntimeError, m)
  | Some s =>
      let end_ := u64 (count + seq_value s) in
      if ((seq_overflow s <=? count) || (seq_overflow s <? end_) || (end_ <=? seq_value s))
         && negb (count =? 0)
      then (Ret None, m)
      else (Ret (Some (seq_value s)), smap_set oid (mkSeq end_ (seq_overflow s) (seq_locked s)) m)
  end.

(** [AutoincrementManager::resetSequence] *)
Definition resetSequence (oid value : Z) : M AutoincrementManager unit := fun m =>
  match smap_find oid m with
  | None => (Ret tt, m)
  | Some s => (Ret tt, smap_set oid (mkSeq value (seq_overflow s) (seq_locked s)) m)
  end.

(** [AutoincrementManager::getLock]: whether [try_lock] succeeded before the time
    ran out; [freed] says whether a holder lets go in that time.  The caller goes
    on in either case, and the mutex is held. *)
Definition getLock (oid : Z) (freed : bool) : M AutoincrementManager bool := fun m =>
  match smap_find oid m with
  | None => (Exn RuntimeError, m)
  | Some s =>
      (Ret (negb (seq_locked s) || freed),
       smap_set oid (mkSeq (seq_value s) (seq_overflow s) true) m)
  end.

(** [AutoincrementManager::releaseLock] *)
Definition releaseLock (oid : Z) : M AutoincrementManager unit := fun m =>
  match smap_find oid m with
  | None => (Ret tt, m)
  | Some s => (Ret tt, smap_set oid (mkSeq (seq_value s) (seq_overflow s) false) m)
  end.

(** [AutoincrementManager::deleteSequence] *)
Definition deleteSequence (oid : Z) : M AutoincrementManager unit := fun m =>
  (Ret tt, smap_erase oid m).

(** ** Ranges *)

(** A well-formed map: its values are 64-bit numbers. *)
Definition seq_ok (s : sequence) : Prop := 0 ≤ seq_value s < 2 ^ 64 ∧ 0 ≤ seq_overflow s < 2 ^ 64.
Definition ai_ok (m : AutoincrementManager) : Prop :=
  smap_ok m ∧ ∀ oid s, smap_find oid m = Some s → seq_ok s.

(** What the test amounts to, without wrapping. *)
Lemma getAIRange_test s count :
  seq_ok s → 0 < count < 2 ^ 64 →
  (seq_overflow s <=? count) || (seq_overflow s <? u64 (count + seq_value s))
    || (u64 (count + seq_value s) <=? seq_value s) = false →
  u64 (count + seq_value s) = count + seq_value s ∧ count + seq_value s ≤ seq_overflow s.
Proof.
  intros [Hv Ho] Hc Ht. apply orb_false_iff in Ht as [Ht H3]. apply orb_false_iff in Ht as [H1 H2]. zbool.
  assert (count + seq_value s < 2 ^ 64) as Hlt.
  { destruct (Z.lt_ge_cases (count + seq_value s) (2 ^ 64)) as [|Hge]; [done|exfalso].
    assert (u64 (count + seq_value s) = count + seq_value s - 2 ^ 64) as Hw; [|lia].
    unfold wrap_u. symmetry. apply Z.mod_unique with 1; lia. }
  assert (u64 (count + seq_value s) = count + seq_value s) as Hw by (apply wrap_u_small; lia). lia.
Qed.

Lemma ai_ok_set m oid s : ai_ok m → seq_ok s → ai_ok (smap_set oid s m).
Proof.
  intros [Hm Hall] Hs. split; [by apply smap_set_ok|]. intros k s'. rewrite smap_find_set by done.
  case_if; [by intros [= <-]|apply Hall].
Qed.

Lemma getAIRange_spec oid count m s :
  ai_ok m → smap_find oid m = Some s → 0 < count < 2 ^ 64 →
  getAIRange oid count m = (Ret None, m) ∨
  (seq_value s + count ≤ seq_overflow s ∧
   ∃ m', getAIRange oid count m = (Ret (Some (seq_value s)), m') ∧ ai_ok m' ∧
         smap_find oid m' = Some (mkSeq (seq_value s + count) (seq_overflow s) (seq_locked s)) ∧
         ∀ k, k ≠ oid → smap_find k m' = smap_find k m).
Proof.
  intros Hm Hf Hc. unfold getAIRange. rewrite Hf.
  assert (negb (count =? 0) = true) as -> by (apply negb_true_iff, Z.eqb_neq; lia). rewrite andb_true_r.
  destruct (_ || _) eqn:Ht; [by left|right]. pose proof (proj2 Hm _ _ Hf) as Hs.
  destruct (getAIRange_test s count Hs Hc Ht) as [Hw Hle]. split; [lia|]. rewrite Hw.
  eexists. split; [reflexivity|]. split.
  - apply ai_ok_set; [done|]. destruct Hs as [? ?]. split; cbn; lia.
  - split.
    + rewrite smap_find_set, Z.eqb_refl by apply Hm. by rewrite Z.add_comm.
    + intros k Hk. rewrite smap_find_set by apply Hm. by apply Z.eqb_neq in Hk as ->.
Qed.

(** A series of requests for one sequence: the ranges granted, as first number and
    count. *)
Fixpoint ai_requests (oid : Z) (counts : list Z) (m : AutoincrementManager) : list (Z * Z) :=
  match counts with
  | [] => []
  | c :: counts' =>
      match getAIRange oid c m with
      | (Ret (Some first), m') => (first, c) :: ai_requests oid counts' m'
      | (_, m') => ai_requests oid counts' m'
      end
  end.

(** Ranges in increasing order, from [lo], without overlap, up to [hi]. *)
Fixpoint ranges_within (lo hi : Z) (rs : list (Z * Z)) : Prop :=
  match rs with
  | [] => True
  | (f, c) :: rs' => lo ≤ f ∧ f + c ≤ hi ∧ ranges_within (f + c) hi rs'
  end.

Lemma ai_requests_spec oid counts m s :
  ai_ok m → smap_find oid m = Some s → Forall (fun c => 0 < c < 2 ^ 64) counts →
  ranges_within (seq_value s) (seq_overflow s) (ai_requests oid counts m).
Proof.
  intros Hm Hf Hall. revert m s Hm Hf. induction Hall as [|c counts Hc Hall IH]; intros m s Hm Hf; [done|].
  cbn [ai_requests].
  destruct (getAIRange_spec oid c m s Hm Hf Hc) as [->|(Hle & m' & -> & Hm' & Hf' & _)]; [by apply IH|].
  cbn. split; [lia|]. split; [lia|]. exact (IH m' _ Hm' Hf').
Qed.

(** C40 The numbers handed out for a column: whatever the sizes of the requests,
    the ranges granted follow each other without overlap from the first number of
    the sequence, no 64-bit sum wraps, and none of them exceeds what an integer
    column of that width can hold. *)
Theorem autoincrement_ranges oid firstNum colWidth t counts m :
  ai_ok m → smap_find oid m = None → 0 ≤ firstNum < 2 ^ 64 →
  colWidth ∈ [1; 2; 4; 8] → Forall (fun c => 0 < c < 2 ^ 64) counts →
  let m1 := (startSequence oid firstNum colWidth t m).2 in
  ranges_within firstNum
    (if isUnsigned t then 2 ^ (8 * colWidth) - 2 else 2 ^ (8 * colWidth - 1))
    (ai_requests oid counts m1).
Proof.
  intros Hm Hf Hn Hw Hall m1. unfold m1, startSequence. rewrite Hf. cbn [snd].
  assert (0 ≤ seq_limit colWidth t < 2 ^ 64 ∧
    seq_limit colWidth t = (if isUnsigned t then 2 ^ (8 * colWidth) - 2 else 2 ^ (8 * colWidth - 1)))
    as [Hlim <-].
  { rewrite !elem_of_cons, elem_of_nil in Hw. unfold seq_limit.
    destruct (isUnsigned t), Hw as [->|[->|[->|[->|[]]]]]; vm_compute; (split; [split; [discriminate|reflexivity]|done]). }
  set (s := mkSeq firstNum (seq_limit colWidth t) false).
  apply (ai_requests_spec oid counts (smap_set oid s m) s); [by apply ai_ok_set| |done].
  by rewrite smap_find_set, Z.eqb_refl by apply Hm.
Qed.

Lemma autoincrement_ranges_witness :
  let m1 := (startSequence 3001 100 1 TINYINT []).2 in
  ranges_within 100 128 (ai_requests 3001 [20; 30; 8] m1) ∧
  ai_requests 3001 [20; 30; 8] m1 = [(100, 20); (120, 8)].
Proof.
  split; [|vm_compute; reflexivity].
  apply (autoincrement_ranges 3001 100 1 TINYINT [20; 30; 8] []);
    [by split|reflexivity|lia|left|repeat constructor; lia].
Defined.
