(* ===== verification/OidServer.v ===== *)
(** * The object id server ([oidserver.cpp])

    Object ids come from a file: a free list of 256 ranges, a bitmap of 2^24 bits,
    and the DBRoots of the version buffer files.  All work is done on the file, with
    [lseek], [read] and [write], which may fail, be interrupted or transfer less
    than was asked; the two functions that call them retry.  The loops of the HDFS
    branch are the same with the calls of [IDBDataFile]. *)

From S2P Require Import Prelude BinFile.

(** ** The file and the system calls *)

(** The bytes beyond the length are never read. *)
Record OFile := mkOFile { of_len : Z; of_byte : Z → Z }.

Definition file_bytes (f : OFile) (off n : Z) : list Z := of_byte f <$> zseq off n.

(** [write(fd, buf, n)] at an offset; a gap is filled with zeros. *)
Definition write_at (off : Z) (buf : list Z) (f : OFile) : OFile :=
  if zlength buf =? 0 then f
  else mkOFile (Z.max (of_len f) (off + zlength buf))
         (fun o => if (off <=? o) && (o <? off + zlength buf) then default 0 (buf.[o - off])
                   else if o <? of_len f then of_byte f o else 0).

(** What may go wrong in a system call: it transfers at most some bytes, is
    interrupted, or fails.  The calls take these from a list; when it is empty,
    every call does all it is asked. *)
Inductive io_event := Partial (n : Z) | Interrupted | Failed.

Definition MaxRetries : nat := 10.

(** [for (errCount = 0; errCount < MaxRetries && seekerr != offset; errCount++)
    seekerr = lseek(..);] and whether [errCount != MaxRetries] after it. *)
Fixpoint seek_loop (tries : nat) (io : list io_event) : bool * list io_event :=
  match tries with
  | O => (false, io)
  | S tries' =>
      match io with
      | Failed :: io' => seek_loop tries' io'
      | _ => (negb (Nat.eqb tries' 0), tail io)
      end
  end.

(** The writing loop of [writeData]: [tries] more errors end it. *)
Fixpoint write_loop (tries : nat) (off : Z) (buf : list Z) (io : list io_event) (f : OFile)
    : outcome unit * (OFile * list io_event) :=
  match buf with
  | [] => (Ret tt, (f, io))
  | _ =>
      match tries with
      | O => (Exn IosFailure, (f, io))
      | S tries' =>
          match io with
          | [] => (Ret tt, (write_at off buf f, []))
          | Partial k :: io' =>
              let n := Z.to_nat k in
              write_loop tries (off + zlength (take n buf)) (drop n buf) io' (write_at off (take n buf) f)
          | Interrupted :: io' => write_loop tries off buf io' f
          | Failed :: io' => write_loop tries' off buf io' f
          end
      end
  end.

(** The reading loop of [readData]: [n] bytes are still to be read. *)
Fixpoint read_loop (tries : nat) (off n : Z) (io : list io_event) (f : OFile) (buf : list Z)
    : outcome (list Z) * list io_event :=
  if n <=? 0 then (Ret buf, io)
  else
    match tries with
    | O => (Exn IosFailure, io)
    | S tries' =>
        match io with
        | [] => (if off + n <=? of_len f then Ret (buf ++ file_bytes f off n) else Exn EofException, [])
        | Partial k :: io' =>
            let got := Z.min (Z.min (Z.max 1 k) n) (of_len f - off) in
            if got <=? 0 then (Exn EofException, io')
            else read_loop tries (off + got) (n - got) io' f (buf ++ file_bytes f off got)
        | Interrupted :: io' => read_loop tries off n io' f buf
        | Failed :: io' => read_loop tries' off n io' f buf
        end
    end.

(** ** The server *)

Record OIDServer := mkOID {
  o_file : OFile;
  o_io : list io_event;
  vbOidDBRootMap : list Z;
}.

Definition FreeListEntries : Z := 256.
Definition sizeof_FEntry : Z := 8.
Definition HeaderSize : Z := FreeListEntries * sizeof_FEntry.
Definition StartOfVBOidSection : Z := HeaderSize + 2097152.

(** [OIDServer::writeData] *)
Definition writeData (buf : list Z) (offset : Z) : M OIDServer unit := fun s =>
  if zlength buf =? 0 then (Ret tt, s)
  else
    let '(ok, io) := seek_loop MaxRetries (o_io s) in
    if ok then
      let '(r, (f, io')) := write_loop MaxRetries offset buf io (o_file s) in
      (r, mkOID f io' (vbOidDBRootMap s))
    else (Exn IosFailure, mkOID (o_file s) io (vbOidDBRootMap s)).

(** [OIDServer::readData] *)
Definition readData (offset size : Z) : M OIDServer (list Z) := fun s =>
  if size =? 0 then (Ret [], s)
  else
    let '(ok, io) := seek_loop MaxRetries (o_io s) in
    if ok then
      let '(r, io') := read_loop MaxRetries offset size io (o_file s) [] in
      (r, mkOID (o_file s) io' (vbOidDBRootMap s))
    else (Exn IosFailure, mkOID (o_file s) io (vbOidDBRootMap s)).

(** ** The free list *)

Record FEntry := mkFE { fe_begin : Z; fe_end : Z }.

Definition fe_bytes (e : FEntry) : list Z := le_bytes 4 (fe_begin e) ++ le_bytes 4 (fe_end e).
Definition fe_of (bs : list Z) : FEntry := mkFE (get_s (field 0 4 bs)) (get_s (field 4 4 bs)).

(** The header, as it is read and written. *)
Definition header_bytes (l : list FEntry) : list Z := l ≫= fe_bytes.
Definition header_of (bs : list Z) : list FEntry :=
  (fun i => fe_of (field (8 * Z.to_nat i) 8 bs)) <$> zseq 0 FreeListEntries.

(** [OIDServer::useFreeListEntry] *)
Definition useFreeListEntry (fe : FEntry) (num : Z) : FEntry :=
  let blockSize := fe_end fe - fe_begin fe + 1 in
  if blockSize =? num then mkFE (-1) (-1) else mkFE (fe_begin fe + num) (fe_end fe).

(** The loop of [patchFreelist] on one entry: the entry and whether it changed. *)
Definition patch_entry (start end_ : Z) (fe : FEntry) : outcome (FEntry * bool) :=
  if fe_begin fe =? -1 then Ret (fe, false)
  else if (start <=? fe_begin fe) && (fe_begin fe <=? end_) then
    Ret (if end_ <? fe_end fe then mkFE (end_ + 1) (fe_end fe) else mkFE (-1) (-1), true)
  else if (fe_begin fe <=? start) && (end_ <=? fe_end fe) then Exn LogicError
  else Ret (fe, false).

Fixpoint patch_entries (start end_ : Z) (l : list FEntry) : outcome (list FEntry * bool) :=
  match l with
  | [] => Ret ([], false)
  | fe :: l' =>
      '(fe', c) ← patch_entry start end_ fe;
      '(l'', c') ← patch_entries start end_ l';
      Ret (fe' :: l'', c || c')
  end.

(** [OIDServer::patchFreelist] *)
Definition patchFreelist (freelist : list FEntry) (start num : Z) : M OIDServer unit :=
  '(l, changed) ← lift (patch_entries start (start + num - 1) freelist);
  if changed : bool then writeData (header_bytes l) 0 else mret tt.

(** ** The bitmap *)

(** [while (mask != 0 && oidCount < num)]: [n] bits are left, [mask = 1 << (n-1)];
    the byte and the count, or [None] when a bit is not as expected.  [mode] is
    [true] to deallocate. *)
Fixpoint flip_bits (mode : bool) (n : nat) (b oidCount num : Z) : option (Z * Z) :=
  match n with
  | O => Some (b, oidCount)
  | S n' =>
      let mask := 2 ^ Z.of_nat n' in
      if oidCount <? num then
        if Z.land b mask =? (if mode then mask else 0) then
          flip_bits mode n' (if mode then Z.land b (255 - mask) else Z.lor b mask) (oidCount + 1) num
        else None
      else Some (b, oidCount)
  end.

(** "verify the middle bytes" *)
Fixpoint flip_middle (mode : bool) (idx : list Z) (buf : list Z) (oidCount : Z) : outcome (list Z * Z) :=
  match idx with
  | [] => Ret (buf, oidCount)
  | i :: idx' =>
      b ← deref (buf.[i]);
      if b =? (if mode then 255 else 0)
      then flip_middle mode idx' (buf.[i <- if mode then 0 else 255]) (oidCount + 8)
      else Exn LogicError
  end.

(** The checks and changes of [flipOIDBlock] on the bytes it has read. *)
Definition flip_bytes (mode : bool) (blockStart num byteSize : Z) (buf : list Z) : outcome (list Z) :=
  b0 ← deref (buf.[0]);
  match flip_bits mode (8 - Z.to_nat (blockStart mod 8)) b0 0 num with
  | None => Exn LogicError
  | Some (b0', oidCount) =>
      let buf := buf.[0 <- b0'] in
      if oidCount =? num then Ret buf
      else
        '(buf, oidCount) ← flip_middle mode (zseq 1 (byteSize - 2)) buf oidCount;
        bl ← deref (buf.[byteSize - 1]);
        match flip_bits mode 8 bl oidCount num with
        | None => Exn LogicError
        | Some (bl', oidCount) =>
            if oidCount =? num then Ret (buf.[byteSize - 1 <- bl']) else Exn LogicError
        end
  end.

(** [OIDServer::flipOIDBlock]; the division of C rounds towards 0. *)
Definition flipOIDBlock (blockStart num : Z) (mode : bool) : M OIDServer unit :=
  if 0x00ffffff <? blockStart + num - 1 then throw LogicError
  else
    let blockEnd := blockStart + num - 1 in
    let offset := Z.quot blockStart 8 + HeaderSize in
    let byteSize := Z.quot blockEnd 8 - Z.quot blockStart 8 + 1 in
    buf ← readData offset byteSize;
    buf' ← lift (flip_bytes mode blockStart num byteSize buf);
    writeData buf' offset.

(** ** Searching the bitmap *)

Record scan := mkScan { countingZeros : bool; blockStart : Z; blockCount : Z }.

(** [skipOnes: while ((buf[i] & mask) == mask && bitOffset < 8)]: the bits left. *)
Fixpoint skipOnes (n : nat) (b : Z) : nat :=
  match n with
  | O => O
  | S n' => if Z.testbit b (Z.of_nat n') then skipOnes n' b else n
  end.

(** [countZeros: while (.. == 0 && bitOffset < 8 && blockCount < num)] *)
Fixpoint countZeros (n : nat) (b num count : Z) : nat * Z :=
  match n with
  | O => (O, count)
  | S n' =>
      if negb (Z.testbit b (Z.of_nat n')) && (count <? num) then countZeros n' b num (count + 1) else (n, count)
  end.

(** The body of the loop over the bytes, from one of the two labels on, with [n]
    bits of the byte left: the block found, or the state for the next byte.  [base]
    is the object id of the first bit.  Two rounds per bit are enough. *)
Fixpoint scan_byte (fuel : nat) (num base b : Z) (n : nat) (st : scan) : outcome (Z + scan) :=
  match fuel with
  | O => Exn OutOfFuel
  | S fuel' =>
      if countingZeros st then
        let '(n', count) := countZeros n b num (blockCount st) in
        if count =? num then Ret (inl (blockStart st))
        else if Nat.eqb n' 0 then Ret (inr (mkScan true (blockStart st) count))
        else scan_byte fuel' num base b n' (mkScan false (blockStart st) count)
      else
        let n' := skipOnes n b in
        if Nat.eqb n' 0 then Ret (inr st)
        else scan_byte fuel' num base b (n' - 1) (mkScan true (base + (8 - Z.of_nat n')) 1)
  end.

(** [for (i = 0; i < 4096; i++)] *)
Fixpoint scan_bytes (num base : Z) (bs : list Z) (st : scan) : outcome (Z + scan) :=
  match bs with
  | [] => Ret (inr st)
  | b :: bs' =>
      r ← (if countingZeros st || negb (b =? 255) then scan_byte 18 num base b 8 st else Ret (inr st));
      match r with
      | inl r => Ret (inl r)
      | inr st' => scan_bytes num (base + 8) bs' st'
      end
  end.

(** [while (fileOffset < StartOfVBOidSection)] over the offsets of the blocks. *)
Fixpoint scan_bitmap (num : Z) (offsets : list Z) (st : scan) : M OIDServer (option Z) :=
  match offsets with
  | [] => mret None
  | fileOffset :: offsets' =>
      buf ← readData fileOffset 4096;
      r ← lift (scan_bytes num ((fileOffset - HeaderSize) * 8) buf st);
      match r with
      | inl r => mret (Some r)
      | inr st' => scan_bitmap num offsets' st'
      end
  end.

Definition bitmap_offsets : list Z :=
  (fun k => HeaderSize + 4096 * k) <$> zseq 0 ((StartOfVBOidSection - HeaderSize) / 4096).

(** [OIDServer::fullScan] *)
Definition fullScan (num : Z) (freelist : list FEntry) : M OIDServer Z :=
  r ← scan_bitmap num bitmap_offsets (mkScan false 0 0);
  match r with
  | Some start =>
      patchFreelist freelist start num ≫= fun _ =>
      flipOIDBlock start num false ≫= fun _ =>
      mret start
  | None => mret (-1)
  end.

(** ** Allocating *)

(** The best fit: index, size and begin of the best entry so far. *)
Fixpoint best_fit (num i : Z) (l : list FEntry) (best : option (Z * FEntry)) : option (Z * FEntry) :=
  match l with
  | [] => best
  | fe :: l' =>
      let size := fe_end fe - fe_begin fe + 1 in
      let bestSize := match best with Some (_, b) => fe_end b - fe_begin b + 1 | None => 2 ^ 31 - 1 end in
      if fe_begin fe =? -1 then best_fit num (i + 1) l' best
      else if size =? num then Some (i, fe)
      else best_fit num (i + 1) l' (if (num <? size) && (size <? bestSize) then Some (i, fe) else best)
  end.

(** [OIDServer::allocOIDs] *)
Definition allocOIDs (num : Z) : M OIDServer Z :=
  h ← readData 0 HeaderSize;
  let freelist := header_of h in
  match best_fit num 0 freelist None with
  | None => fullScan num freelist
  | Some (i, fe) =>
      writeData (header_bytes (freelist.[i <- useFreeListEntry fe num])) 0 ≫= fun _ =>
      flipOIDBlock (fe_begin fe) num false ≫= fun _ =>
      mret (fe_begin fe)
  end.

(** [OIDServer::returnOIDs] does nothing. *)
Definition returnOIDs (start end_ : Z) : M OIDServer unit := mret tt.

(** [OIDServer::size] *)
Definition byte_count (b : Z) : Z := count (fun k => Z.testbit b k) (zseq 0 8).

Fixpoint count_file (offsets : list Z) (ret : Z) : M OIDServer Z :=
  match offsets with
  | [] => mret ret
  | offset :: offsets' =>
      buf ← readData offset 4096;
      count_file offsets' (foldl (fun r b => r + byte_count b) ret buf)
  end.

Definition oid_size : M OIDServer Z := count_file bitmap_offsets 0.

(** ** The version buffer files *)

Definition push_dbroot (dbroot : Z) : M OIDServer unit :=
  modify (fun s => mkOID (o_file s) (o_io s) (vbOidDBRootMap s ++ [dbroot])).
Definition pop_dbroot : M OIDServer unit :=
  modify (fun s => mkOID (o_file s) (o_io s) (removelast (vbOidDBRootMap s))).

(** [OIDServer::allocVBOID] *)
Definition allocVBOID (dbroot : Z) : M OIDServer Z :=
  ret ← gets (fun s => zlength (vbOidDBRootMap s));
  let offset := StartOfVBOidSection + 2 + ret * 2 in
  push_dbroot dbroot ≫= fun _ =>
  catch (
    writeData (le_bytes 2 (u16 (ret + 1))) StartOfVBOidSection ≫= fun _ =>
    writeData (le_bytes 2 dbroot) offset)
    (fun e => pop_dbroot ≫= fun _ => throw e) ≫= fun _ =>
  mret ret.

(** [OIDServer::getDBRootOfVBOID] *)
Definition getDBRootOfVBOID (vbOID : Z) (s : OIDServer) : Z :=
  if zlength (vbOidDBRootMap s) <=? vbOID then -1 else default (-1) ((vbOidDBRootMap s).[vbOID]).

(** [OIDServer::getVBOIDOfDBRoot] *)
Fixpoint find_dbroot (dbRoot i : Z) (l : list Z) : Z :=
  match l with
  | [] => -1
  | d :: l' => if d =? dbRoot then i else find_dbroot dbRoot (i + 1) l'
  end.
Definition getVBOIDOfDBRoot (dbRoot : Z) (s : OIDServer) : Z := find_dbroot dbRoot 0 (vbOidDBRootMap s).

(** [OIDServer::loadVBOIDs]; only the end of the file is caught. *)
Definition set_vboids (l : list Z) : M OIDServer unit :=
  modify (fun s => mkOID (o_file s) (o_io s) l).

Definition u16s_of (bs : list Z) (n : Z) : list Z :=
  (fun i => get_u (field (2 * Z.to_nat i) 2 bs)) <$> zseq 0 n.

Definition loadVBOIDs : M OIDServer unit :=
  size ← catch (bs ← readData StartOfVBOidSection 2; mret (get_u bs))
    (fun e => if decide (e = EofException)
              then writeData (le_bytes 2 0) StartOfVBOidSection ≫= fun _ => mret 0
              else throw e);
  if size =? 0 then mret tt
  else
    bs ← readData (StartOfVBOidSection + 2) (size * 2);
    set_vboids (u16s_of bs size).

(** ** Starting *)

(** The first object id: the value of [OIDManager/FirstOID], 3000 if it is missing
    or out of range. *)
Definition first_oid (cfg : option Z) : Z :=
  match cfg with
  | None => 3000
  | Some v => if (2 ^ 31 - 1 <? v) || (v <? 0) then 3000 else v
  end.

(** [for (i = 0; i < bitmapSize; i += HeaderSize) writeData(buf, HeaderSize+i, ..)]:
    the length of the bitmap is a multiple of the length of the header. *)
Definition clear_bitmap : M OIDServer unit :=
  forM (zseq 0 ((StartOfVBOidSection - HeaderSize) / HeaderSize))
    (fun k => writeData (replicate (Z.to_nat HeaderSize) 0) (HeaderSize + k * HeaderSize)).

(** [OIDServer::initializeBitmap] *)
Definition initializeBitmap (cfg : option Z) : M OIDServer unit :=
  let firstOID := first_oid cfg in
  writeData (header_bytes (mkFE firstOID 0x00ffffff ::
    replicate (Z.to_nat (FreeListEntries - 1)) (mkFE (-1) (-1)))) 0 ≫= fun _ =>
  clear_bitmap ≫= fun _ =>
  flipOIDBlock 0 firstOID false ≫= fun _ =>
  writeData [0; 0] StartOfVBOidSection.

(** [OIDServer::OIDServer()]: [file] is the bitmap file, if there is one, and
    [emEmpty] the answer of the extent map to [isEMEmpty]. *)
Definition newOIDServer (cfg : option Z) (emEmpty : bool) (file : option OFile) (io : list io_event)
    : outcome unit * OIDServer :=
  match file with
  | Some f => loadVBOIDs (mkOID f io [])
  | None =>
      let s := mkOID (mkOFile 0 (fun _ => 0)) io [] in
      if emEmpty then (initializeBitmap cfg ≫= fun _ => loadVBOIDs) s
      else (Exn RuntimeError, s)
  end.
