(* ===== verification/OidProofs.v ===== *)
(** * The object id server: the file, the bitmap and the free list

    [oid_inv] says that the file is whole, that every range of the free list is
    made of free object ids, and that the ranges are disjoint.  It is kept as long
    as no system call fails.  [oid_safe] is what is left of it when a write of the
    free list stops in the middle of a word: the ranges stay in the id space. *)

From S2P Require Import Prelude BinFile OidServer.

(** ** System calls *)

(** With [quiet], no call fails: it may be interrupted, or transfer fewer bytes
    than it was asked.  Without, anything may happen. *)
Definition io_ok (quiet : bool) (io : list io_event) : Prop :=
  Forall (fun e => match e with Failed => quiet = false | _ => True end) io.

Lemma io_ok_any io : io_ok false io.
Proof. by apply Forall_true; intros []. Qed.

Lemma seek_loop_spec quiet tries io ok io' :
  io_ok quiet io → seek_loop tries io = (ok, io') → io_ok quiet io' ∧ (quiet = true → (2 ≤ tries)%nat → ok = true).
Proof.
  revert io. induction tries as [|tries IH]; intros io Hio Hs.
  { injection Hs as <- <-. split; [done|lia]. }
  assert (∀ io1, (negb (Nat.eqb tries 0), io1) = (ok, io') → io_ok quiet io1 →
    io_ok quiet io' ∧ (quiet = true → (2 ≤ S tries)%nat → ok = true)) as Hok.
  { intros io1 [= <- <-] H1. split; [done|]. intros _ H2. destruct tries; [lia|done]. }
  cbn [seek_loop] in Hs. destruct io as [|ev io1]; [by apply (Hok [])|].
  apply Forall_cons in Hio as [Hq Hio]. destruct ev; [by apply (Hok io1)|by apply (Hok io1)|].
  destruct (IH io1 Hio Hs) as [H1 H2]. split; [done|]. intros ->. done.
Qed.

(** The first [p] bytes of [buf] are in the file, the rest is as it was. *)
Record wrote (off : Z) (buf : list Z) (p : Z) (f f' : OFile) : Prop := mkWrote {
  wr_range : 0 ≤ p ≤ zlength buf;
  wr_in o : off ≤ o < off + p → of_byte f' o = default 0 (buf.[o - off]);
  wr_out o : o < of_len f → ¬ (off ≤ o < off + p) → of_byte f' o = of_byte f o;
  wr_len : of_len f' = of_len f ∨ of_len f < of_len f' ∧ of_len f' = off + p;
  wr_end : 0 < p → off + p ≤ of_len f';
}.

Lemma wrote_none off buf f : wrote off buf 0 f f.
Proof. split; try done; [pose proof (zlength_nonneg buf); lia|intros; lia|by left]. Qed.

Lemma wrote_all off buf f : wrote off buf (zlength buf) f (write_at off buf f).
Proof.
  pose proof (zlength_nonneg buf). unfold write_at. destruct (zlength buf =? 0) eqn:Hz; zbool.
  - rewrite Hz. apply wrote_none.
  - split; cbn; try lia.
    + intros o Ho. assert ((off <=? o) && (o <? off + zlength buf) = true) as ->; [|done].
      apply andb_true_iff. rewrite Z.leb_le, Z.ltb_lt. lia.
    + intros o Hl Ho. assert ((off <=? o) && (o <? off + zlength buf) = false) as ->.
      { apply andb_false_iff. rewrite Z.leb_gt, Z.ltb_ge. lia. }
      by rewrite (proj2 (Z.ltb_lt _ _) Hl).
Qed.

Lemma zget_take {A} (l : list A) n i : i < Z.of_nat n → (take n l).[i] = l.[i].
Proof. intros Hi. unfold zget. case_if; [done|]. rewrite lookup_take, decide_True by lia. done. Qed.

Lemma zget_drop {A} (l : list A) n i : 0 ≤ i → (drop n l).[i] = l.[Z.of_nat n + i].
Proof. intros Hi. unfold zget. repeat case_if; try lia. rewrite lookup_drop. f_equal. lia. Qed.

(** Writing the first bytes and then some of the rest. *)
Lemma wrote_more off buf n p f f1 f2 :
  wrote off (take n buf) (zlength (take n buf)) f f1 →
  wrote (off + zlength (take n buf)) (drop n buf) p f1 f2 →
  wrote off buf (zlength (take n buf) + p) f f2.
Proof.
  intros [R1 I1 O1 L1 E1] [R2 I2 O2 L2 E2]. set (t := zlength (take n buf)) in *.
  assert (zlength buf = t + zlength (drop n buf)) as Hlen.
  { unfold t, zlength. rewrite <- (take_drop n buf) at 1. rewrite length_app. lia. }
  assert (t ≤ Z.of_nat n) as Ht by (unfold t, zlength; rewrite length_take; lia).
  assert (0 < p → t = Z.of_nat n) as Htn.
  { intros Hp. unfold t, zlength in *. rewrite length_take, length_drop in *. lia. }
  split; try lia.
  - intros o Ho. destruct (decide (o < off + t)).
    + rewrite O2; [|destruct L1; lia|lia]. rewrite I1 by lia. rewrite zget_take by lia. done.
    + rewrite I2 by lia. rewrite zget_drop by lia. f_equal. f_equal. lia.
  - intros o Hl Ho. rewrite O2; [|destruct L1; lia|lia]. apply O1; lia.
Qed.

Lemma write_loop_spec quiet tries off buf io f r f' io' :
  io_ok quiet io → (0 < tries)%nat → write_loop tries off buf io f = (r, (f', io')) →
  io_ok quiet io' ∧
  ∃ p, wrote off buf p f f' ∧ (r = Ret tt ∧ p = zlength buf ∨ r = Exn IosFailure ∧ quiet = false).
Proof.
  revert tries off buf f. induction io as [|ev io IH]; intros tries off buf f Hio Ht Hw.
  { destruct buf as [|b buf], tries as [|tries]; cbn in Hw; try lia; injection Hw as <- <- <-.
    - split; [done|]. exists 0. split; [apply wrote_none|]. by left.
    - split; [done|]. exists (zlength (b :: buf)). split; [apply wrote_all|]. by left. }
  destruct buf as [|b0 buf0] eqn:Hbuf, tries as [|tries]; cbn [write_loop] in Hw; try lia.
  { injection Hw as <- <- <-. split; [done|]. exists 0. split; [apply wrote_none|]. by left. }
  rewrite <- Hbuf in *. apply Forall_cons in Hio as [Hev Hio].
  destruct ev as [k| |].
  - destruct (IH (S tries) _ _ _ Hio ltac:(lia) Hw) as (H1 & p & Hp & Hr). split; [done|].
    set (n := Z.to_nat k) in *. exists (zlength (take n buf) + p).
    split; [eapply wrote_more; [apply wrote_all|done]|].
    assert (zlength buf = zlength (take n buf) + zlength (drop n buf)) as Hlen.
    { unfold zlength. rewrite <- (take_drop n buf) at 1. rewrite length_app. lia. }
    destruct Hr as [[-> ->]|?]; [left; split; [done|lia]|by right].
  - by apply (IH (S tries)).
  - destruct tries as [|tries].
    + cbn [write_loop] in Hw. rewrite Hbuf in Hw. destruct io as [|ev io]; cbn in Hw; injection Hw as <- <- <-;
        (split; [done|]; exists 0; split; [apply wrote_none|]; by right).
    + by apply (IH (S tries)); [|lia|].
Qed.

Lemma file_bytes_app f off n m : 0 ≤ n → 0 ≤ m → file_bytes f off (n + m) = file_bytes f off n ++ file_bytes f (off + n) m.
Proof.
  intros Hn Hm. unfold file_bytes. by rewrite zseq_app, fmap_app.
Qed.

Lemma read_loop_spec quiet tries off n io f buf r io' :
  io_ok quiet io → (0 < tries)%nat → 0 ≤ n → read_loop tries off n io f buf = (r, io') →
  io_ok quiet io' ∧
  (r = Ret (buf ++ file_bytes f off n) ∧ (0 < n → off + n ≤ of_len f) ∨
   r = Exn EofException ∧ of_len f < off + n ∨ r = Exn IosFailure ∧ quiet = false).
Proof.
  revert tries off n buf. induction io as [|ev io IH]; intros tries off n buf Hio Ht Hn Hr; destruct tries as [|tries]; try lia;
    cbn [read_loop] in Hr; (destruct (n <=? 0) eqn:Hz; zbool; [injection Hr as <- <-; split; [done|left];
      replace n with 0 by lia; cbn; rewrite app_nil_r; split; [done|lia]|]).
  { case_if; injection Hr as <- <-; (split; [done|]); [by left|right; left; split; [done|lia]]. }
  apply Forall_cons in Hio as [Hev Hio]. destruct ev as [k| |].
  - cbn zeta in Hr. set (got := Z.min _ _) in *.
    assert (got ≤ n ∧ got ≤ of_len f - off ∧ (got = n ∨ got = of_len f - off ∨ 0 < got)) as (Hg1 & Hg2 & Hg3) by (unfold got; lia).
    clearbody got. case_if.
    + injection Hr as <- <-. split; [done|]. right. left. split; [done|lia].
    + destruct (IH (S tries) (off + got) (n - got) _ Hio ltac:(lia) ltac:(lia) Hr) as [H1 H2]. split; [done|].
      destruct H2 as [[-> H2]|[[-> H2]|H2]]; [left|right; left|by right; right].
      * split; [|intros _; destruct (decide (n - got = 0)); lia]. rewrite <- app_assoc, <- file_bytes_app by lia. do 3 f_equal. lia.
      * split; [done|lia].
  - by apply (IH (S tries)).
  - destruct tries as [|tries].
    + cbn [read_loop] in Hr. destruct io; cbn in Hr; rewrite (proj2 (Z.leb_gt _ _) Hz) in Hr; injection Hr as <- <-;
        (split; [done|]; right; by right).
    + apply (IH (S tries)); try done; lia.
Qed.

Lemma retries_pos : (0 < MaxRetries)%nat.
Proof. unfold MaxRetries. lia. Qed.

(** [readData] inside the file: the bytes, or too many errors. *)
Lemma readData_spec quiet off n s :
  io_ok quiet (o_io s) → 0 ≤ n → off + n ≤ of_len (o_file s) →
  ∃ r io', readData off n s = (r, mkOID (o_file s) io' (vbOidDBRootMap s)) ∧ io_ok quiet io' ∧
    (r = Ret (file_bytes (o_file s) off n) ∨ r = Exn IosFailure ∧ quiet = false).
Proof.
  intros Hio Hn Hlen. unfold readData. destruct (n =? 0) eqn:Hz; zbool.
  { subst n. exists (Ret []), (o_io s). split; [by destruct s|]. split; [done|by left]. }
  destruct (seek_loop MaxRetries (o_io s)) as [ok io1] eqn:Hs. destruct (seek_loop_spec _ _ _ _ _ Hio Hs) as [Hio1 Hq].
  destruct ok; [|eexists _, _; split; [done|]; split; [done|]; right; split; [done|]; destruct quiet; [|done];
    assert (false = true) by (apply Hq; [done|unfold MaxRetries; lia]); done].
  destruct (read_loop MaxRetries off n io1 (o_file s) []) as [r io2] eqn:Hr.
  destruct (read_loop_spec quiet _ _ _ _ _ _ _ _ Hio1 retries_pos Hn Hr) as [Hio2 Hc].
  exists r, io2. split; [done|]. split; [done|]. destruct Hc as [[-> _]|[[_ He]|Hf]]; [by left|lia|by right].
Qed.

(** [writeData]: all the bytes, or some of them and an error. *)
Lemma writeData_spec quiet buf off s :
  io_ok quiet (o_io s) →
  ∃ r f' io' p, writeData buf off s = (r, mkOID f' io' (vbOidDBRootMap s)) ∧ io_ok quiet io' ∧
    wrote off buf p (o_file s) f' ∧
    (r = Ret tt ∧ p = zlength buf ∨ r = Exn IosFailure ∧ quiet = false).
Proof.
  intros Hio. unfold writeData. destruct (zlength buf =? 0) eqn:Hz; zbool.
  { exists (Ret tt), (o_file s), (o_io s), 0. split; [by destruct s|]. split; [done|]. split; [apply wrote_none|].
    by left. }
  destruct (seek_loop MaxRetries (o_io s)) as [ok io1] eqn:Hs. destruct (seek_loop_spec _ _ _ _ _ Hio Hs) as [Hio1 Hq].
  destruct ok; cycle 1.
  { exists (Exn IosFailure), (o_file s), io1, 0. split; [done|]. split; [done|]. split; [apply wrote_none|].
    right. split; [done|]. destruct quiet; [|done].
    assert (false = true) by (apply Hq; [done|unfold MaxRetries; lia]); done. }
  destruct (write_loop MaxRetries off buf io1 (o_file s)) as [r [f' io2]] eqn:Hw.
  destruct (write_loop_spec quiet _ _ _ _ _ _ _ _ Hio1 retries_pos Hw) as (Hio2 & p & Hp & Hc).
  by exists r, f', io2, p.
Qed.

(** ** Bits *)

(** The bit of an object id: set when it is allocated. *)
Definition oid_bit (f : OFile) (o : Z) : bool := Z.testbit (of_byte f (HeaderSize + o / 8)) (7 - o mod 8).

(** [flip_bits] for an allocation: the bits from [n - 1] down. *)
Lemma flip_bits_spec n b cnt num :
  0 ≤ b < 256 → (n ≤ 8)%nat → cnt ≤ num →
  let m := Z.min (Z.of_nat n) (num - cnt) in
  match flip_bits false n b cnt num with
  | Some (b', cnt') => cnt' = cnt + m ∧ 0 ≤ b' < 256 ∧ (∀ k, Z.of_nat n - m ≤ k < Z.of_nat n → Z.testbit b k = false) ∧
      ∀ k, 0 ≤ k → Z.testbit b' k = Z.testbit b k || ((Z.of_nat n - m <=? k) && (k <? Z.of_nat n))
  | None => ∃ k, Z.of_nat n - m ≤ k < Z.of_nat n ∧ Z.testbit b k = true
  end.
Proof.
  revert b cnt. induction n as [|n IH]; intros b cnt Hb Hn Hc m; cbn [flip_bits].
  { split; [lia|]. split; [done|]. split; [lia|]. intros k Hk.
    assert ((Z.of_nat 0 - m <=? k) && (k <? Z.of_nat 0) = false) as -> by (apply andb_false_iff; right; apply Z.ltb_ge; lia).
    by rewrite orb_false_r. }
  destruct (cnt <? num) eqn:Hlt; zbool; cycle 1.
  { split; [lia|]. split; [done|]. split; [lia|]. intros k Hk.
    assert ((Z.of_nat (S n) - m <=? k) && (k <? Z.of_nat (S n)) = false) as ->.
    { destruct (_ <=? k) eqn:H1, (k <? _) eqn:H2; zbool; try done. lia. }
    by rewrite orb_false_r. }
  assert (Z.land b (2 ^ Z.of_nat n) = if Z.testbit b (Z.of_nat n) then 2 ^ Z.of_nat n else 0) as Hland.
  { apply Z.bits_inj'. intros k Hk. rewrite Z.land_spec, Z.pow2_bits_eqb by lia.
    destruct (Z.testbit b (Z.of_nat n)) eqn:Hbit; rewrite ?Z.pow2_bits_eqb, ?Z.bits_0 by lia;
      destruct (Z.of_nat n =? k) eqn:Hk'; zbool; subst; rewrite ?Hbit, ?andb_false_r; done. }
  rewrite Hland. assert (0 < 2 ^ Z.of_nat n) as Hpos by (apply Z.pow_pos_nonneg; lia).
  destruct (Z.testbit b (Z.of_nat n)) eqn:Hbit.
  { rewrite (proj2 (Z.eqb_neq _ _)) by lia. exists (Z.of_nat n). split; [lia|done]. }
  rewrite Z.eqb_refl. set (b1 := Z.lor b (2 ^ Z.of_nat n)).
  assert (0 ≤ b1 < 256) as Hb1.
  { split; [apply Z.lor_nonneg; lia|]. apply (Z.log2_lt_cancel _ 256). change (Z.log2 256) with 8. unfold b1.
    rewrite Z.log2_lor, Z.log2_pow2 by lia. apply Z.max_lub_lt; [|lia].
    destruct (decide (b = 0)) as [->|]; [done|]. apply Z.log2_lt_pow2; lia. }
  assert (∀ k, 0 ≤ k → Z.testbit b1 k = Z.testbit b k || (Z.of_nat n =? k)) as Hb1k.
  { intros k Hk. unfold b1. rewrite Z.lor_spec, Z.pow2_bits_eqb by lia. done. }
  specialize (IH b1 (cnt + 1) Hb1 ltac:(lia) ltac:(lia)). cbn zeta in IH.
  replace (Z.of_nat n - Z.min (Z.of_nat n) (num - (cnt + 1))) with (Z.of_nat (S n) - m) in IH by lia.
  destruct (flip_bits false n b1 (cnt + 1) num) as [[b' cnt']|].
  - destruct IH as (H1 & H2 & H3 & H4). split; [lia|]. split; [done|]. split.
    + intros k Hk. destruct (decide (k = Z.of_nat n)) as [->|]; [done|]. specialize (H3 k ltac:(lia)).
      rewrite Hb1k in H3 by lia. by apply orb_false_iff in H3 as [? _].
    + intros k Hk. rewrite H4, Hb1k by done. rewrite <- orb_assoc. f_equal.
      destruct (Z.of_nat n =? k) eqn:E1, (_ <=? k) eqn:E2, (k <? Z.of_nat n) eqn:E3, (k <? Z.of_nat (S n)) eqn:E4; zbool; try done; lia.
  - destruct IH as (k & Hk & Hb'). exists k. split; [lia|]. rewrite Hb1k in Hb' by lia.
    apply orb_true_iff in Hb' as [?|?]; [done|]. zbool. lia.
Qed.

Lemma byte_zero b : 0 ≤ b < 256 → (∀ k, 0 ≤ k < 8 → Z.testbit b k = false) → b = 0.
Proof.
  intros Hb Hk. apply Z.bits_inj'. intros k Hk0. rewrite Z.bits_0. destruct (decide (k < 8)); [by apply Hk|].
  destruct (decide (b = 0)) as [->|]; [apply Z.bits_0|]. apply Z.bits_above_log2; [lia|].
  apply Z.lt_le_trans with 8; [|lia]. apply Z.log2_lt_pow2; lia.
Qed.

Definition byte_at (buf : list Z) (j : Z) : Z := default 0 (buf.[j]).

Lemma byte_at_set_eq buf i x : 0 ≤ i < zlength buf → byte_at (buf.[i <- x]) i = x.
Proof. intros Hi. unfold byte_at. by rewrite zget_zset_eq. Qed.

Lemma byte_at_set_ne buf i j x : i ≠ j → byte_at (buf.[i <- x]) j = byte_at buf j.
Proof. intros Hi. unfold byte_at. by rewrite zget_zset_ne. Qed.

Lemma deref_byte buf j : 0 ≤ j < zlength buf → deref (buf.[j]) = Ret (byte_at buf j).
Proof. intros [x Hx]%zget_is_Some. unfold byte_at. by rewrite Hx. Qed.

Lemma flip_middle_spec idx buf cnt :
  NoDup idx → (∀ i, i ∈ idx → 0 ≤ i < zlength buf) →
  match flip_middle false idx buf cnt with
  | Ret (buf', cnt') => cnt' = cnt + 8 * zlength idx ∧ zlength buf' = zlength buf ∧
      (∀ i, i ∈ idx → byte_at buf i = 0 ∧ byte_at buf' i = 255) ∧ ∀ i, i ∉ idx → byte_at buf' i = byte_at buf i
  | Exn e => e = LogicError ∧ ∃ i, i ∈ idx ∧ byte_at buf i ≠ 0
  end.
Proof.
  revert buf cnt. induction idx as [|i idx IH]; intros buf cnt Hnd Hin; cbn [flip_middle].
  { split; [unfold zlength; cbn; lia|]. split; [done|]. split; [intros i Hi; by apply elem_of_nil in Hi|done]. }
  apply NoDup_cons in Hnd as [Hni Hnd]. rewrite deref_byte by (apply Hin; left). cbn [mbind outcome_bind].
  destruct (byte_at buf i =? 0) eqn:Hz; zbool; cycle 1.
  { split; [done|]. exists i. split; [left|done]. }
  specialize (IH (buf.[i <- 255]) (cnt + 8) Hnd). rewrite zlength_zset in IH.
  assert (∀ j, j ∈ idx → byte_at (buf.[i <- 255]) j = byte_at buf j) as Hsame by (intros j Hj; apply byte_at_set_ne; set_solver).
  destruct (flip_middle false idx _ _) as [[buf' cnt']|e].
  - destruct IH as (H1 & H2 & H3 & H4); [intros j Hj; apply Hin; by right|]. split; [rewrite zlength_cons; lia|]. split; [done|]. split.
    + intros j [->|Hj]%elem_of_cons.
      * split; [done|]. rewrite H4 by done. apply byte_at_set_eq, Hin. left.
      * rewrite <- (Hsame j Hj). by apply H3.
    + intros j [Hj1 Hj2]%not_elem_of_cons. rewrite H4 by done. by apply byte_at_set_ne.
  - destruct IH as (-> & j & Hj & Hne); [intros j Hj; apply Hin; by right|]. split; [done|]. exists j. split; [by right|].
    by rewrite <- (Hsame j Hj).
Qed.

(** The object ids of a block. *)
Definition in_block (start num o : Z) : bool := (start <=? o) && (o <? start + num).

Lemma in_block_true start num o : in_block start num o = true ↔ start ≤ o < start + num.
Proof. unfold in_block. rewrite andb_true_iff, Z.leb_le, Z.ltb_lt. done. Qed.
Lemma in_block_false start num o : in_block start num o = false ↔ ¬ (start ≤ o < start + num).
Proof. rewrite <- in_block_true. by destruct (in_block _ _ _). Qed.

Definition bytes_ok (buf : list Z) : Prop := ∀ j, 0 ≤ byte_at buf j < 256.

Lemma bytes_ok_set buf i x : bytes_ok buf → 0 ≤ x < 256 → bytes_ok (buf.[i <- x]).
Proof.
  intros Hb Hx j. unfold byte_at. destruct (decide (i = j)) as [->|Hne]; [|rewrite zget_zset_ne by done; apply Hb].
  destruct (decide (0 ≤ j < zlength buf)); [by rewrite zget_zset_eq|]. rewrite zget_None; [cbn; lia|]. by rewrite zlength_zset.
Qed.

(** What [flipOIDBlock] makes of the bytes of a block: the object id of bit [k] of
    byte [j] is [8 * (start / 8 + j) + 7 - k]. *)
Definition flipped (start num : Z) (buf buf' : list Z) : Prop :=
  ∀ j k, 0 ≤ j < zlength buf → 0 ≤ k < 8 →
    Z.testbit (byte_at buf' j) k = Z.testbit (byte_at buf j) k || in_block start num (8 * (start / 8 + j) + 7 - k).
Definition block_clear (start num : Z) (buf : list Z) : Prop :=
  ∀ j k, 0 ≤ j < zlength buf → 0 ≤ k < 8 → in_block start num (8 * (start / 8 + j) + 7 - k) = true →
    Z.testbit (byte_at buf j) k = false.

Lemma testbit_255 k : 0 ≤ k < 8 → Z.testbit 255 k = true.
Proof. intros Hk. change 255 with (Z.ones 8). apply Z.ones_spec_low. lia. Qed.

Lemma flip_bytes_spec start num byteSize buf :
  0 ≤ start → 1 ≤ num → byteSize = (start + num - 1) / 8 - start / 8 + 1 → zlength buf = byteSize → bytes_ok buf →
  match flip_bytes false start num byteSize buf with
  | Ret buf' => zlength buf' = zlength buf ∧ bytes_ok buf' ∧ block_clear start num buf ∧ flipped start num buf buf'
  | Exn e => e = LogicError ∧ ¬ block_clear start num buf
  end.
Proof.
  intros Hs Hn Hsz Hlen Hok. set (q0 := start / 8) in *. set (r0 := start mod 8).
  set (q1 := (start + num - 1) / 8) in *. set (r1 := (start + num - 1) mod 8).
  assert (start = 8 * q0 + r0 ∧ 0 ≤ r0 < 8) as [Hq0 Hr0] by (split; [apply Z.div_mod; lia|apply Z.mod_pos_bound; lia]).
  assert (start + num - 1 = 8 * q1 + r1 ∧ 0 ≤ r1 < 8) as [Hq1 Hr1] by (split; [apply Z.div_mod; lia|apply Z.mod_pos_bound; lia]).
  assert (q0 ≤ q1) as Hq by (apply Z.div_le_mono; lia). assert (start mod 8 = r0) as Hmod by done.
  unfold flip_bytes, flipped, block_clear. rewrite Hmod. fold q0. clearbody q0 r0 q1 r1.
  rewrite deref_byte by lia. cbn [mbind outcome_bind].
  pose proof (flip_bits_spec (8 - Z.to_nat r0) (byte_at buf 0) 0 num (Hok 0) ltac:(lia) ltac:(lia)) as H0. cbn zeta in H0.
  assert (Z.of_nat (8 - Z.to_nat r0) = 8 - r0) as Hn0 by lia. rewrite Hn0 in H0.
  destruct (flip_bits false (8 - Z.to_nat r0) (byte_at buf 0) 0 num) as [[b0 c0]|]; cycle 1.
  { destruct H0 as (k & Hk & Hb). split; [done|]. intros Hcl. rewrite (Hcl 0 k) in Hb; [done|lia|lia|].
    apply in_block_true. lia. }
  destruct H0 as (Hc0 & Hb0 & Hcl0 & Hset0). destruct (c0 =? num) eqn:Hdone; zbool.
  { (* one byte *) assert (q1 = q0) as -> by lia. replace (8 - r0 - Z.min (8 - r0) (num - 0)) with (7 - r1) in * by lia.
    split; [by rewrite zlength_zset|]. split; [by apply bytes_ok_set|]. split.
    - intros j k Hj Hk Hin%in_block_true. assert (j = 0) as -> by lia. apply Hcl0. lia.
    - intros j k Hj Hk. assert (j = 0) as -> by lia. rewrite byte_at_set_eq, Hset0 by lia. f_equal.
      unfold in_block. destruct (_ <=? k) eqn:E1, (k <? _) eqn:E2, (start <=? _) eqn:E3, (_ <? start + num) eqn:E4; zbool; try done; lia. }
  assert (q0 < q1) as Hlt by lia. replace (8 - r0 - Z.min (8 - r0) (num - 0)) with 0 in * by lia.
  set (buf1 := buf.[0 <- b0]). assert (zlength buf1 = byteSize) as Hlen1 by (unfold buf1; by rewrite zlength_zset).
  pose proof (flip_middle_spec (zseq 1 (byteSize - 2)) buf1 c0 (zseq_nodup _ _)) as Hm.
  rewrite Hlen1 in Hm. specialize (Hm ltac:(intros i Hi%zseq_elem; lia)).
  assert (∀ i, i ∈ zseq 1 (byteSize - 2) → byte_at buf1 i = byte_at buf i) as Hb1
    by (intros i Hi%zseq_elem; apply byte_at_set_ne; lia).
  destruct (flip_middle false (zseq 1 (byteSize - 2)) buf1 c0) as [[buf2 c2]|e]; cycle 1.
  { destruct Hm as (-> & i & Hi & Hne). cbn. split; [done|]. intros Hcl. apply Hne. rewrite Hb1 by done.
    apply zseq_elem in Hi. apply byte_zero; [apply Hok|]. intros k Hk. apply Hcl; [lia|done|]. apply in_block_true. lia. }
  destruct Hm as (Hc2 & Hlen2 & Hmid & Hrest). cbn [mbind outcome_bind]. rewrite deref_byte by lia. cbn [mbind outcome_bind].
  assert (byte_at buf2 (byteSize - 1) = byte_at buf (byteSize - 1)) as Hlast.
  { rewrite Hrest by (rewrite zseq_elem; lia). apply byte_at_set_ne. lia. }
  rewrite Hlast. assert (c2 = 8 - r0 + 8 * (byteSize - 2)) as Hc2'.
  { rewrite Hc2, Hc0. unfold zlength. rewrite length_zseq. lia. }
  pose proof (flip_bits_spec 8 (byte_at buf (byteSize - 1)) c2 num (Hok _) ltac:(lia) ltac:(lia)) as H8. cbn zeta in H8.
  replace (Z.of_nat 8 - Z.min (Z.of_nat 8) (num - c2)) with (7 - r1) in H8 by lia.
  destruct (flip_bits false 8 _ c2 num) as [[bl c3]|]; cycle 1.
  { destruct H8 as (k & Hk & Hb). split; [done|]. intros Hcl. rewrite (Hcl (byteSize - 1) k) in Hb; [done|lia|lia|].
    apply in_block_true. lia. }
  destruct H8 as (Hc3 & Hbl & Hcl8 & Hset8). assert (c3 = num) as -> by lia. rewrite Z.eqb_refl.
  assert (∀ j, 0 < j < byteSize - 1 → byte_at buf j = 0 ∧ byte_at buf2 j = 255) as Hmid'.
  { intros j Hj. assert (j ∈ zseq 1 (byteSize - 2)) as Hz by (apply zseq_elem; lia). rewrite <- (Hb1 j Hz). by apply Hmid. }
  assert (byte_at buf2 0 = b0) as Hfirst.
  { rewrite Hrest by (rewrite zseq_elem; lia). apply byte_at_set_eq. lia. }
  split; [rewrite zlength_zset; lia|]. split; [|split].
  - apply bytes_ok_set; [|done]. intros j. destruct (decide (j ∈ zseq 1 (byteSize - 2))) as [Hj|Hj].
    + rewrite (proj2 (Hmid j Hj)). lia.
    + rewrite Hrest by done. by apply bytes_ok_set.
  - intros j k Hj Hk Hin%in_block_true. destruct (decide (j = 0)) as [->|]; [apply Hcl0; lia|].
    destruct (decide (j = byteSize - 1)) as [->|]; [apply Hcl8; lia|].
    rewrite (proj1 (Hmid' j ltac:(lia))). apply Z.bits_0.
  - intros j k Hj Hk. destruct (decide (j = byteSize - 1)) as [->|].
    { rewrite byte_at_set_eq, Hset8 by lia. f_equal. unfold in_block.
      destruct (_ <=? k) eqn:E1, (k <? _) eqn:E2, (start <=? _) eqn:E3, (_ <? start + num) eqn:E4; zbool; try done; lia. }
    rewrite byte_at_set_ne by lia. destruct (decide (j = 0)) as [->|].
    { rewrite Hfirst, Hset0 by lia. f_equal. unfold in_block.
      destruct (_ <=? k) eqn:E1, (k <? _) eqn:E2, (start <=? _) eqn:E3, (_ <? start + num) eqn:E4; zbool; try done; lia. }
    destruct (Hmid' j ltac:(lia)) as [-> ->]. rewrite testbit_255, Z.bits_0 by done. symmetry. apply in_block_true. lia.
Qed.

(** ** The file *)

(** The file holds the free list and the whole bitmap. *)
Record file_ok (f : OFile) : Prop := mkFileOk {
  fo_len : StartOfVBOidSection ≤ of_len f;
  fo_bytes o : 0 ≤ o < StartOfVBOidSection → 0 ≤ of_byte f o < 256;
}.

(** The bytes from [a] to [b] may have changed. *)
Record same_but (a b : Z) (f f' : OFile) : Prop := mkSameBut {
  sb_len : of_len f' = of_len f;
  sb_out o : o < of_len f → ¬ (a ≤ o < b) → of_byte f' o = of_byte f o;
}.

Lemma wrote_same_but off buf p f f' :
  wrote off buf p f f' → off + zlength buf ≤ of_len f → same_but off (off + zlength buf) f f'.
Proof.
  intros [R I O L E] Hl. split; [destruct L; lia|]. intros o Ho Hn. apply O; [done|lia].
Qed.

Lemma byte_at_file f off n j : 0 ≤ j < n → byte_at (file_bytes f off n) j = of_byte f (off + j).
Proof.
  intros Hj. unfold byte_at, file_bytes. rewrite zget_fmap.
  assert ((zseq off n).[j] = Some (off + j)) as ->; [|done].
  unfold zget, zseq. case_if; [lia|]. rewrite list_lookup_fmap, lookup_seq_lt by lia. cbn. f_equal. lia.
Qed.

Lemma zlength_file f off n : 0 ≤ n → zlength (file_bytes f off n) = n.
Proof. intros Hn. unfold zlength, file_bytes. rewrite length_fmap, length_zseq. lia. Qed.

Lemma bytes_ok_file f off n :
  file_ok f → 0 ≤ off → off + n ≤ StartOfVBOidSection → bytes_ok (file_bytes f off n).
Proof.
  intros Hf Ho Hn j. destruct (decide (0 ≤ j < n)).
  - rewrite byte_at_file by done. apply (fo_bytes _ Hf). lia.
  - unfold byte_at. rewrite zget_None; [cbn; lia|]. destruct (decide (0 ≤ n)); [by rewrite zlength_file|].
    assert (zlength (file_bytes f off n) = 0) as ->; [|lia]. unfold zlength, file_bytes. rewrite length_fmap, length_zseq. lia.
Qed.

(** Writing bytes keeps the file whole. *)
Lemma wrote_file_ok off buf p f f' :
  wrote off buf p f f' → file_ok f → bytes_ok buf → file_ok f'.
Proof.
  intros [R I O L E] [Hl Hb] Hbuf. split; [destruct L; lia|]. intros o Ho. destruct (decide (off ≤ o < off + p)).
  - rewrite I by done. apply Hbuf.
  - rewrite O by lia. by apply Hb.
Qed.

Definition max_oids : Z := 2 ^ 24.

(** The bits after a write of the bytes of a block, all of it or a part. *)
Lemma flip_bits_file start num buf' p f f' :
  0 ≤ start → 1 ≤ num → start + num ≤ max_oids → file_ok f →
  let off := start / 8 + HeaderSize in
  let n := (start + num - 1) / 8 - start / 8 + 1 in
  zlength buf' = n → flipped start num (file_bytes f off n) buf' → wrote off buf' p f f' →
  ∀ o, 0 ≤ o < max_oids →
    oid_bit f' o = oid_bit f o || (in_block start num o && bool_decide (o / 8 - start / 8 < p)).
Proof.
  intros Hs Hn Hmax Hf off n Hlen Hfl [R I O L E] o Ho. unfold oid_bit. set (j := o / 8 - start / 8). set (k := 7 - o mod 8).
  pose proof (Z.div_mod o 8 ltac:(lia)) as Hdm. pose proof (Z.mod_pos_bound o 8 ltac:(lia)) as Hm.
  assert (o = 8 * (start / 8 + j) + 7 - k) as Hok by lia.
  assert (in_block start num o = true → 0 ≤ j < n) as Hin.
  { intros Hb%in_block_true. unfold j, n. pose proof (Z.div_le_mono start o 8). pose proof (Z.div_le_mono o (start + num - 1) 8). lia. }
  assert (HeaderSize + o / 8 < of_len f) as Hlt.
  { pose proof (fo_len _ Hf). unfold StartOfVBOidSection in *. assert (o / 8 < 2097152) by (apply Z.div_lt_upper_bound; unfold max_oids in *; lia). lia. }
  destruct (decide (0 ≤ j < p)).
  - rewrite I by (unfold off; lia). rewrite (bool_decide_eq_true_2 (j < p)) by lia. rewrite andb_true_r.
    replace (HeaderSize + o / 8 - off) with j by lia. fold (byte_at buf' j).
    rewrite (Hfl j k) by (rewrite ?zlength_file; lia). rewrite byte_at_file by lia. rewrite <- Hok. f_equal. f_equal. f_equal. lia.
  - rewrite O by (unfold off; lia).
    assert (in_block start num o && bool_decide (j < p) = false) as ->; [|by rewrite orb_false_r].
    destruct (in_block start num o) eqn:Hb; [|done]. apply bool_decide_eq_false. specialize (Hin eq_refl). lia.
Qed.

Lemma block_clear_file start num f :
  0 ≤ start → 1 ≤ num → start + num ≤ max_oids → file_ok f →
  let off := start / 8 + HeaderSize in
  let n := (start + num - 1) / 8 - start / 8 + 1 in
  block_clear start num (file_bytes f off n) ↔ ∀ o, start ≤ o < start + num → oid_bit f o = false.
Proof.
  intros Hs Hn Hmax Hf off n.
  assert (0 ≤ n) as Hn0 by (pose proof (Z.div_le_mono start (start + num - 1) 8); lia). split.
  - intros Hcl o Ho. pose proof (Z.div_mod o 8 ltac:(lia)) as Hdm. pose proof (Z.mod_pos_bound o 8 ltac:(lia)) as Hm.
    pose proof (Z.div_le_mono start o 8). pose proof (Z.div_le_mono o (start + num - 1) 8).
    specialize (Hcl (o / 8 - start / 8) (7 - o mod 8)). rewrite zlength_file, byte_at_file in Hcl by lia.
    unfold oid_bit. replace (HeaderSize + o / 8) with (off + (o / 8 - start / 8)) by lia. apply Hcl; [lia|lia|].
    apply in_block_true. lia.
  - intros Hb j k Hj Hk Hin%in_block_true. rewrite zlength_file in Hj by done. rewrite byte_at_file by done.
    specialize (Hb _ Hin). unfold oid_bit in Hb. set (o := 8 * (start / 8 + j) + 7 - k) in *.
    assert (o / 8 = start / 8 + j) as Hq by (symmetry; apply (Z.div_unique _ _ _ (7 - k)); lia).
    assert (o mod 8 = 7 - k) as Hr by (symmetry; apply (Z.mod_unique _ _ (start / 8 + j)); lia).
    rewrite Hq, Hr in Hb. replace (7 - (7 - k)) with k in Hb by lia. rewrite <- Hb. f_equal. f_equal. unfold off. lia.
Qed.

(** [flipOIDBlock] for an allocation. *)
Lemma flipOIDBlock_spec quiet start num s :
  io_ok quiet (o_io s) → 0 ≤ start → 1 ≤ num → start + num ≤ max_oids → file_ok (o_file s) →
  ∃ r f' io', flipOIDBlock start num false s = (r, mkOID f' io' (vbOidDBRootMap s)) ∧ io_ok quiet io' ∧ file_ok f' ∧
    same_but HeaderSize StartOfVBOidSection (o_file s) f' ∧
    (∀ o, 0 ≤ o < max_oids → (oid_bit (o_file s) o = true → oid_bit f' o = true) ∧
       (¬ (start ≤ o < start + num) → oid_bit f' o = oid_bit (o_file s) o)) ∧
    match r with
    | Ret _ => ∀ o, start ≤ o < start + num → oid_bit (o_file s) o = false ∧ oid_bit f' o = true
    | Exn e => e = IosFailure ∧ quiet = false ∨ e = LogicError ∧ ∃ o, start ≤ o < start + num ∧ oid_bit (o_file s) o = true
    end.
Proof.
  intros Hio Hs Hn Hmax Hf. unfold flipOIDBlock.
  assert (0x00ffffff <? start + num - 1 = false) as -> by (apply Z.ltb_ge; unfold max_oids in *; lia).
  cbn zeta. rewrite !Z.quot_div_nonneg by lia. set (off := start / 8 + HeaderSize). set (n := (start + num - 1) / 8 - start / 8 + 1).
  pose proof (Z.div_le_mono start (start + num - 1) 8 ltac:(lia) ltac:(lia)) as Hdiv.
  assert ((start + num - 1) / 8 < 2097152) as Hup by (apply Z.div_lt_upper_bound; unfold max_oids in *; lia).
  pose proof (Z.div_pos start 8 ltac:(lia) ltac:(lia)) as Hq0.
  assert (HeaderSize ≤ off ∧ off + n ≤ StartOfVBOidSection ∧ 0 ≤ n) as (Hoff1 & Hoff2 & Hn0)
    by (unfold off, n, StartOfVBOidSection; lia).
  destruct (readData_spec quiet off n s Hio Hn0) as (r & io1 & Hr & Hio1 & Hc); [pose proof (fo_len _ Hf); lia|].
  destruct Hc as [-> |[-> Hq]]; cycle 1.
  { rewrite (bind_exn _ _ _ _ _ Hr). exists (Exn IosFailure), (o_file s), io1. split_and!; try done. by left. }
  rewrite (bind_ret _ _ _ _ _ Hr).
  pose proof (flip_bytes_spec start num n (file_bytes (o_file s) off n) Hs Hn eq_refl) as Hfb.
  rewrite zlength_file in Hfb by done.
  assert (0 ≤ off) as Hoff0 by (unfold HeaderSize, FreeListEntries, sizeof_FEntry in *; lia).
  specialize (Hfb eq_refl (bytes_ok_file _ _ _ Hf Hoff0 Hoff2)).
  pose proof (block_clear_file start num (o_file s) Hs Hn Hmax Hf) as Hbc. cbn zeta in Hbc. fold off in Hbc. fold n in Hbc.
  destruct (flip_bytes false start num n _) as [buf'|e] eqn:Hflip; cycle 1.
  { destruct Hfb as [-> Hnc]. cbn. exists (Exn LogicError), (o_file s), io1. split_and!; try done. right. split; [done|].
    rewrite Hbc in Hnc. destruct (decide (Exists (fun o => oid_bit (o_file s) o = true) (zseq start num))) as [He|He].
    - apply Exists_exists in He as (o & Ho & Hb). exists o. split; [|done]. by apply zseq_elem in Ho.
    - destruct Hnc. intros o Ho. apply not_true_iff_false. intros Hb. apply He, Exists_exists. exists o. split; [|done].
      by apply zseq_elem. }
  destruct Hfb as (Hlen' & Hok' & Hcl & Hfl). rewrite lift_run.
  destruct (writeData_spec quiet buf' off (mkOID (o_file s) io1 (vbOidDBRootMap s)) Hio1)
    as (r & f' & io2 & p & Hw & Hio2 & Hp & Hc). cbn [o_file vbOidDBRootMap] in *.
  pose proof (flip_bits_file start num buf' p (o_file s) f' Hs Hn Hmax Hf) as Hbits. cbn zeta in Hbits.
  fold off in Hbits. fold n in Hbits. specialize (Hbits ltac:(lia) Hfl Hp).
  exists r, f', io2. split; [done|]. split; [done|]. split; [by eapply wrote_file_ok|]. split.
  { pose proof (wrote_same_but _ _ _ _ _ Hp) as Hsb. rewrite Hlen' in Hsb. pose proof (fo_len _ Hf).
    destruct Hsb as [S1 S2]; [lia|]. split; [done|]. intros o Ho Hno. apply S2; [done|lia]. }
  split.
  { intros o Ho. rewrite (Hbits o Ho). split; [by intros ->|]. intros Hno%in_block_false. by rewrite Hno, orb_false_r. }
  destruct Hc as [[-> ->]|[-> Hq]]; [|by left]. intros o Ho. rewrite Hbits by lia.
  split; [by apply Hbc|]. rewrite (proj2 (in_block_true _ _ _) Ho), bool_decide_eq_true_2; [by rewrite orb_true_r|].
  pose proof (Z.div_le_mono o (start + num - 1) 8). lia.
Qed.

(** ** The free list in the file *)

Definition entries (f : OFile) : list FEntry := header_of (file_bytes f 0 HeaderSize).

Definition word (f : OFile) (o : Z) : Z := get_s (file_bytes f o 4).

Lemma file_bytes_ext f f' a n : (∀ o, a ≤ o < a + n → of_byte f' o = of_byte f o) → file_bytes f' a n = file_bytes f a n.
Proof.
  intros H. unfold file_bytes. apply list_fmap_ext. intros i o Ho. apply H. apply zseq_elem.
  by apply list_elem_of_lookup_2 in Ho.
Qed.

Lemma take_file f off n m : 0 ≤ n ≤ m → take (Z.to_nat n) (file_bytes f off m) = file_bytes f off n.
Proof.
  intros Hn. replace m with (n + (m - n)) by lia. rewrite file_bytes_app by lia. rewrite take_app_le.
  - apply take_ge. unfold file_bytes. rewrite length_fmap, length_zseq. lia.
  - unfold file_bytes. rewrite length_fmap, length_zseq. lia.
Qed.

Lemma drop_file f off n m : 0 ≤ n ≤ m → drop (Z.to_nat n) (file_bytes f off m) = file_bytes f (off + n) (m - n).
Proof.
  intros Hn. replace m with (n + (m - n)) at 1 by lia. rewrite file_bytes_app by lia. apply drop_app_length'.
  unfold file_bytes. rewrite length_fmap, length_zseq. lia.
Qed.

Lemma field_file f off m (a n : Z) :
  0 ≤ a → 0 ≤ n → a + n ≤ m → field (Z.to_nat a) (Z.to_nat n) (file_bytes f off m) = file_bytes f (off + a) n.
Proof. intros Ha Hn Hm. unfold field. rewrite drop_file, take_file by lia. done. Qed.

Lemma entries_get f i : 0 ≤ i < FreeListEntries → (entries f).[i] = Some (mkFE (word f (8 * i)) (word f (8 * i + 4))).
Proof.
  intros Hi. unfold entries, header_of. rewrite zget_fmap.
  assert ((zseq 0 FreeListEntries).[i] = Some i) as ->.
  { unfold zget, zseq. case_if; [lia|]. rewrite list_lookup_fmap, lookup_seq_lt by lia. cbn. f_equal. lia. }
  cbn [fmap option_fmap option_map]. f_equal. unfold fe_of, word.
  assert (8 * Z.to_nat i = Z.to_nat (8 * i))%nat as -> by lia.
  change 8%nat with (Z.to_nat 8). rewrite (field_file f 0 HeaderSize (8 * i) 8) by (unfold HeaderSize, sizeof_FEntry, FreeListEntries in *; lia).
  f_equal; f_equal; change 4%nat with (Z.to_nat 4); change 0%nat with (Z.to_nat 0); rewrite field_file by lia; f_equal; lia.
Qed.

Lemma zlength_entries f : zlength (entries f) = FreeListEntries.
Proof. unfold entries, header_of, zlength. rewrite length_fmap, length_zseq. done. Qed.

Lemma entries_range f i fe : (entries f).[i] = Some fe → 0 ≤ i < FreeListEntries.
Proof. intros H%zget_range. by rewrite zlength_entries in H. Qed.

(** The object ids of a range of the free list. *)
Definition fe_in (fe : FEntry) (o : Z) : Prop := fe_begin fe ≠ -1 ∧ fe_begin fe ≤ o ≤ fe_end fe.
Definition fe_sane (fe : FEntry) : Prop := fe_begin fe = -1 ∨ 0 ≤ fe_begin fe ≤ fe_end fe ∧ fe_end fe < max_oids.

Record oid_inv (f : OFile) : Prop := mkOidInv {
  oi_file : file_ok f;
  oi_sane i fe : (entries f).[i] = Some fe → fe_sane fe;
  oi_free i fe o : (entries f).[i] = Some fe → fe_in fe o → oid_bit f o = false;
  oi_disjoint i j fe fe' o :
    (entries f).[i] = Some fe → (entries f).[j] = Some fe' → fe_in fe o → fe_in fe' o → i = j;
}.

Lemma fe_in_range fe o : fe_sane fe → fe_in fe o → 0 ≤ o < max_oids.
Proof. intros [?|H] [? ?]; [done|lia]. Qed.

(** A range that lost some of its object ids. *)
Definition fe_sub (fe' fe : FEntry) : Prop := fe_sane fe' ∧ ∀ o, fe_in fe' o → fe_in fe o.

Lemma inv_change f f' :
  oid_inv f → file_ok f' →
  (∀ i fe', (entries f').[i] = Some fe' →
     ∃ fe, (entries f).[i] = Some fe ∧ fe_sub fe' fe ∧ ∀ o, fe_in fe' o → oid_bit f' o = false) →
  oid_inv f'.
Proof.
  intros [H1 H2 H3 H4] Hf' Hsub. split; [done|..].
  - intros i fe' Hi. by destruct (Hsub i fe' Hi) as (fe & _ & [? _] & _).
  - intros i fe' o Hi Ho. destruct (Hsub i fe' Hi) as (fe & _ & _ & Hb). by apply Hb.
  - intros i j fe1 fe2 o Hi Hj Ho1 Ho2. destruct (Hsub i fe1 Hi) as (fe & He & [_ Hs] & _).
    destruct (Hsub j fe2 Hj) as (fe0 & He0 & [_ Hs0] & _). apply (H4 i j fe fe0 o); auto.
Qed.

(** *** Writing the header *)

Lemma length_fe_bytes e : length (fe_bytes e) = 8%nat.
Proof. unfold fe_bytes. by rewrite length_app, !length_le_bytes. Qed.

Lemma field_header l i e : l !! i = Some e → field (8 * i) 8 (header_bytes l) = fe_bytes e.
Proof.
  revert i. induction l as [|x l IH]; intros i Hi; [done|]. unfold header_bytes in *. cbn [mbind list_bind].
  destruct i as [|i]; [injection Hi as ->; change (8 * 0)%nat with 0%nat; apply field_0, length_fe_bytes|].
  rewrite field_app by (rewrite length_fe_bytes; lia). rewrite length_fe_bytes.
  replace (8 * S i - 8)%nat with (8 * i)%nat by lia. by apply IH.
Qed.

Lemma zlength_header l : zlength (header_bytes l) = 8 * zlength l.
Proof.
  unfold header_bytes. induction l as [|x l IH]; [done|]. cbn [mbind list_bind]. rewrite zlength_cons.
  unfold zlength in *. rewrite length_app, length_fe_bytes. lia.
Qed.

Lemma header_bytes_ok l : bytes_ok (header_bytes l).
Proof.
  intros j. unfold byte_at. destruct ((header_bytes l).[j]) as [b|] eqn:Hb; [|cbn; lia]. cbn.
  assert (b ∈ header_bytes l) as Hin by (apply zget_elem_of; by exists j). unfold header_bytes in Hin.
  apply list_elem_of_bind in Hin as (e & Hin & _). unfold fe_bytes in Hin.
  assert (∀ n x, b ∈ le_bytes n x → 0 ≤ b < 256) as Hle.
  { intros n x Hx. pose proof (le_bytes_byte n x) as Hall. rewrite Forall_forall in Hall. by apply Hall. }
  apply elem_of_app in Hin as [Hin|Hin]; by eapply Hle.
Qed.

(** What was written of a buffer at offset 0 is read back. *)
Lemma wrote_field buf p f f' (a n : Z) :
  wrote 0 buf p f f' → 0 ≤ a → 0 ≤ n → a + n ≤ p → file_bytes f' a n = field (Z.to_nat a) (Z.to_nat n) buf.
Proof.
  intros [R I O L E] Ha Hn Hp. unfold zlength in R. apply list_eq_same_length with (Z.to_nat n).
  - unfold field. rewrite length_take, length_drop. lia.
  - unfold file_bytes. by rewrite length_fmap, length_zseq.
  - intros j x y Hj Hx Hy. unfold file_bytes in Hx. apply list_lookup_fmap_Some in Hx as (o & -> & Ho).
    unfold zseq in Ho. apply list_lookup_fmap_Some in Ho as (j' & -> & Hj'). apply lookup_seq in Hj' as [-> _].
    rewrite I by lia. unfold field in Hy. rewrite lookup_take, decide_True, lookup_drop in Hy by lia.
    assert (buf.[a + Z.of_nat (0 + j) - 0] = Some y) as ->; [|done].
    rewrite <- Hy. unfold zget. case_if; [lia|]. f_equal. lia.
Qed.

Definition fe_fits (fe : FEntry) : Prop := fits_s 4 (fe_begin fe) = true ∧ fits_s 4 (fe_end fe) = true.

Lemma wrap_s_fits x : fits_s 4 (wrap_s 32 x) = true.
Proof.
  unfold fits_s, wrap_s. change (8 * Z.of_nat 4 - 1) with 31. change (2 ^ (32 - 1)) with (2 ^ 31).
  pose proof (Z.mod_pos_bound x (2 ^ 32) ltac:(lia)). case_if; apply andb_true_iff; rewrite Z.leb_le, Z.ltb_lt; lia.
Qed.

Lemma word_fits f o : fits_s 4 (word f o) = true.
Proof.
  unfold word, get_s. rewrite zlength_file by lia. apply wrap_s_fits.
Qed.

Lemma entries_fit f i fe : (entries f).[i] = Some fe → fe_fits fe.
Proof.
  intros Hi. pose proof (entries_range _ _ _ Hi) as Hr. rewrite entries_get in Hi by done. injection Hi as <-.
  split; apply word_fits.
Qed.

Lemma sane_fits fe : fe_begin fe ≠ -1 → fe_sane fe → fe_fits fe.
Proof.
  intros Hne [?|[H1 H2]]; [done|]. unfold fe_fits, fits_s, max_oids in *. change (8 * Z.of_nat 4 - 1) with 31.
  rewrite !andb_true_iff, !Z.leb_le, !Z.ltb_lt. lia.
Qed.

Lemma header_fields l (i : nat) fe :
  l !! i = Some fe → fe_fits fe →
  get_s (field (8 * i) 4 (header_bytes l)) = fe_begin fe ∧ get_s (field (8 * i + 4) 4 (header_bytes l)) = fe_end fe.
Proof.
  intros Hi [H1 H2]. pose proof (field_header l i fe Hi) as Hf. unfold field in *.
  assert (take 4 (drop (8 * i) (header_bytes l)) = take 4 (fe_bytes fe)) as ->.
  { rewrite <- Hf, take_take. done. }
  assert (take 4 (drop (8 * i + 4) (header_bytes l)) = take 4 (drop 4 (fe_bytes fe))) as ->.
  { rewrite <- Hf, skipn_firstn_comm, drop_drop, take_take. done. }
  unfold fe_bytes. rewrite take_app_length' by by rewrite length_le_bytes.
  rewrite drop_app_length' by by rewrite length_le_bytes. rewrite take_ge by by rewrite length_le_bytes.
  split; by apply get_s_bytes; [lia|].
Qed.

(** The entries of the free list after the header was written. *)
Lemma entries_written l f f' :
  zlength l = FreeListEntries → Forall fe_fits l → wrote 0 (header_bytes l) (zlength (header_bytes l)) f f' →
  ∀ i, (entries f').[i] = l.[i].
Proof.
  intros Hl Hfit Hw i. assert (zlength (header_bytes l) = 2048) as Hz by (rewrite zlength_header, Hl; done). rewrite Hz in Hw.
  destruct (decide (0 ≤ i < FreeListEntries)) as [Hi|Hi]; [|rewrite !zget_None by (rewrite ?Hl, ?zlength_entries; lia); done].
  destruct (zget_is_Some l i) as [fe Hfe]; [by rewrite Hl|]. rewrite entries_get, Hfe by done. f_equal.
  assert (0 ≤ i < 256) as Hi' by done. assert (l !! Z.to_nat i = Some fe) as Hn by (unfold zget in Hfe; by case_if).
  destruct (header_fields l (Z.to_nat i) fe Hn (proj1 (Forall_lookup _ _) Hfit _ _ Hn)) as [Hb He].
  unfold word. rewrite !(wrote_field _ _ _ _ _ _ Hw) by lia.
  replace (Z.to_nat (8 * i)) with (8 * Z.to_nat i)%nat by lia. replace (Z.to_nat (8 * i + 4)) with (8 * Z.to_nat i + 4)%nat by lia.
  change (Z.to_nat 4) with 4%nat. rewrite Hb, He. by destruct fe.
Qed.

(** A range that was used, from its beginning or as a whole. *)
Definition shrunk (fe' fe : FEntry) : Prop :=
  fe' = fe ∨ fe' = mkFE (-1) (-1) ∨
  fe_begin fe ≠ -1 ∧ fe_begin fe ≤ fe_begin fe' ≤ fe_end fe ∧ fe_end fe' = fe_end fe.

Lemma shrunk_sub fe' fe : fe_sane fe → shrunk fe' fe → fe_sub fe' fe.
Proof.
  intros Hs [->|[->|(H1 & H2 & H3)]]; [done|by split; [left|intros o [? _]]|].
  destruct Hs as [Hs|Hs]; [done|]. split; [right; lia|]. intros o [_ Ho]. split; [done|lia].
Qed.

Lemma shrunk_fits fe' fe : fe_sane fe → fe_fits fe → shrunk fe' fe → fe_fits fe'.
Proof.
  intros Hs Hf [->|[->|(H1 & H2 & H3)]]; [done|done|]. destruct Hs as [Hs|Hs]; [done|].
  apply sane_fits; [lia|]. right. lia.
Qed.

Lemma bits_outside_header buf p f f' o :
  wrote 0 buf p f f' → p ≤ HeaderSize → file_ok f → 0 ≤ o < max_oids → oid_bit f' o = oid_bit f o.
Proof.
  intros Hw Hp Hf Ho. unfold oid_bit. f_equal. pose proof (Z.div_pos o 8 ltac:(lia) ltac:(lia)).
  assert (o / 8 < 2097152) by (apply Z.div_lt_upper_bound; unfold max_oids in *; lia).
  apply (wr_out _ _ _ _ _ Hw); [|lia]. pose proof (fo_len _ Hf). unfold StartOfVBOidSection in *. lia.
Qed.

(** Writing a header in which ranges were used keeps the invariant. *)
Lemma inv_header l f f' :
  oid_inv f → zlength l = FreeListEntries → wrote 0 (header_bytes l) (zlength (header_bytes l)) f f' →
  (∀ i fe fe', (entries f).[i] = Some fe → l.[i] = Some fe' → shrunk fe' fe) →
  oid_inv f' ∧ ∀ i, (entries f').[i] = l.[i].
Proof.
  intros Hinv Hl Hw Hsh. pose proof (oi_file _ Hinv) as Hf.
  assert (zlength (header_bytes l) = HeaderSize) as Hz by (rewrite zlength_header, Hl; done).
  assert (∀ i fe', l.[i] = Some fe' → ∃ fe, (entries f).[i] = Some fe ∧ shrunk fe' fe) as Hold.
  { intros i fe' Hfe'. destruct (zget_is_Some (entries f) i) as [fe Hfe].
    - apply zget_range in Hfe'. by rewrite zlength_entries, <- Hl.
    - exists fe. split; [done|]. by eapply Hsh. }
  assert (∀ i, (entries f').[i] = l.[i]) as Hent.
  { apply (entries_written l f f' Hl); [|done]. apply Forall_forall. intros fe' [i Hi]%zget_elem_of.
    destruct (Hold i fe' Hi) as (fe & Hfe & Hs). eapply shrunk_fits; [by eapply oi_sane|by eapply entries_fit|done]. }
  split; [|done]. apply (inv_change f f' Hinv); [by eapply wrote_file_ok; [..|apply header_bytes_ok]|].
  intros i x Hx. rewrite Hent in Hx. destruct (Hold i x Hx) as (fe & Hfe & Hs). exists fe. split; [done|].
  pose proof (oi_sane _ Hinv i fe Hfe) as Hsane. pose proof (shrunk_sub _ _ Hsane Hs) as Hsub.
  split; [done|]. intros o Ho. pose proof (proj2 Hsub o Ho) as Hin.
  rewrite (bits_outside_header _ _ f f' o Hw); [by eapply oi_free|lia|done|by eapply fe_in_range].
Qed.

(** * Scanning the bitmap of object ids *)


(** ** Runs of free ids *)

Section Runs.
Variable bit : Z → bool.
Variable num : Z.
Hypothesis num_pos : 1 ≤ num.

Definition clear_run (r n : Z) : Prop := ∀ o, r ≤ o < r + n → bit o = false.

(** No run of [num] free ids ends at or before [p]. *)
Definition no_run (p : Z) : Prop := ∀ s, 0 ≤ s → s + num ≤ p → ∃ o, s ≤ o < s + num ∧ bit o = true.

(** The first run of [num] free ids starts at [r]. *)
Definition first_run (r : Z) : Prop := 0 ≤ r ∧ clear_run r num ∧ no_run (r + num - 1).

(** The id before the first run is allocated. *)
Lemma before_first_run r : first_run r → r = 0 ∨ bit (r - 1) = true.
Proof.
  intros (H0 & Hc & Hn). destruct (decide (r = 0)) as [|Hr]; [by left|right].
  destruct (Hn (r - 1)) as (o & Ho & Hb); [lia|lia|]. destruct (decide (o = r - 1)) as [->|]; [done|].
  rewrite Hc in Hb by lia. done.
Qed.

Lemma no_run_le p q : no_run q → p ≤ q → no_run p.
Proof. intros Hn Hle s Hs Hp. apply Hn; lia. Qed.

(** Past an allocated id. *)
Lemma no_run_set a p : no_run (a + num - 1) → a ≤ p → p - a < num → bit p = true → no_run (p + num).
Proof.
  intros Hn Ha Hlt Hb s Hs Hp. destruct (decide (s < a)); [apply Hn; lia|]. exists p. split; [lia|done].
Qed.

(** What the scan knows at position [p]; [strict] between two bytes. *)
Definition scan_inv (strict : bool) (p : Z) (st : scan) : Prop :=
  0 ≤ p ∧
  if countingZeros st
  then 0 ≤ blockStart st ∧ blockStart st + blockCount st = p ∧ 1 ≤ blockCount st ≤ num ∧
       clear_run (blockStart st) (blockCount st) ∧ no_run (blockStart st + num - 1) ∧ (strict = true → blockCount st < num)
  else no_run (p + num - 1).

Lemma scan_inv_loose p st : scan_inv true p st → scan_inv false p st.
Proof. intros [Hp H]. split; [done|]. destruct (countingZeros st); [|done]. naive_solver. Qed.

Lemma scan_inv_end p st : scan_inv true p st → no_run p.
Proof.
  intros [_ H]. destruct (countingZeros st).
  - destruct H as (_ & H1 & _ & _ & Hn & Hlt). specialize (Hlt eq_refl). eapply no_run_le; [done|lia].
  - eapply no_run_le; [done|lia].
Qed.

(** ** One byte *)

(** The bits of [b] are those of the eight ids from [base]; the highest comes first. *)
Definition byte_bits (base b : Z) : Prop := ∀ k, 0 ≤ k < 8 → bit (base + 7 - k) = Z.testbit b k.

Lemma skipOnes_spec n b :
  (skipOnes n b ≤ n)%nat ∧ (∀ k, Z.of_nat (skipOnes n b) ≤ k < Z.of_nat n → Z.testbit b k = true) ∧
  ((0 < skipOnes n b)%nat → Z.testbit b (Z.of_nat (skipOnes n b) - 1) = false).
Proof.
  induction n as [|n IH]; [split; [done|split; [intros; lia|cbn; lia]]|]. cbn [skipOnes].
  destruct (Z.testbit b (Z.of_nat n)) eqn:Hb.
  - destruct IH as (H1 & H2 & H3). split; [lia|]. split; [|done]. intros k Hk.
    destruct (decide (k = Z.of_nat n)) as [->|]; [done|]. apply H2. lia.
  - split; [lia|]. split; [intros; lia|]. intros _. replace (Z.of_nat (S n) - 1) with (Z.of_nat n) by lia. done.
Qed.

Lemma countZeros_spec n b count n' count' :
  count ≤ num → countZeros n b num count = (n', count') →
  (n' ≤ n)%nat ∧ count' = count + Z.of_nat n - Z.of_nat n' ∧ count' ≤ num ∧
  (∀ k, Z.of_nat n' ≤ k < Z.of_nat n → Z.testbit b k = false) ∧
  (n' = O ∨ count' = num ∨ Z.testbit b (Z.of_nat n' - 1) = true).
Proof.
  revert count. induction n as [|n IH]; intros count Hle H; cbn [countZeros] in H.
  { injection H as <- <-. split_and!; lia. }
  destruct (Z.testbit b (Z.of_nat n)) eqn:Hb; cbn in H.
  - injection H as <- <-. split_and!; try lia. right. right. replace (Z.of_nat (S n) - 1) with (Z.of_nat n) by lia. done.
  - destruct (count <? num) eqn:Hlt; zbool.
    + destruct (IH (count + 1) ltac:(lia) H) as (H1 & H2 & H3 & H4 & H5). split_and!; try lia; [|done].
      intros k Hk. destruct (decide (k = Z.of_nat n)) as [->|]; [done|]. apply H4. lia.
    + injection H as <- <-. split_and!; try lia.
Qed.

Definition scanned (p : Z) (r : outcome (Z + scan)) : Prop :=
  match r with
  | Ret (inl x) => first_run x ∧ x + num ≤ p
  | Ret (inr st) => scan_inv true p st
  | Exn _ => False
  end.

Lemma scan_byte_spec fuel base b n st :
  byte_bits base b → 0 ≤ base → (n ≤ 8)%nat → scan_inv false (base + 8 - Z.of_nat n) st →
  (2 * n + (if countingZeros st then 1 else 0) < fuel)%nat →
  scanned (base + 8) (scan_byte fuel num base b n st).
Proof.
  intros Hbits Hbase. revert n st. induction fuel as [|fuel IH]; intros n st Hn [Hp Hinv] Hfuel; [lia|].
  cbn [scan_byte]. destruct (countingZeros st) eqn:Hcnt.
  - destruct Hinv as (H0 & Hpos & Hcount & Hclear & Hnr & _).
    destruct (countZeros n b num (blockCount st)) as [n' count] eqn:Hc.
    destruct (countZeros_spec _ _ _ _ _ (proj2 Hcount) Hc) as (Hn' & -> & Hle & Hz & Hstop).
    set (count := blockCount st + Z.of_nat n - Z.of_nat n') in *.
    assert (clear_run (blockStart st) count) as Hclear'.
    { intros o Ho. destruct (decide (o < blockStart st + blockCount st)); [apply Hclear; lia|].
      specialize (Hbits (base + 7 - o) ltac:(lia)). replace (base + 7 - (base + 7 - o)) with o in Hbits by lia.
      rewrite Hbits. apply Hz. lia. }
    destruct (count =? num) eqn:Hfound; zbool.
    { cbn. rewrite Hfound in Hclear'. split; [done|]. lia. }
    destruct (Nat.eqb n' 0) eqn:Hn0; [apply Nat.eqb_eq in Hn0|apply Nat.eqb_neq in Hn0].
    { cbn. split; [lia|]. cbn. split_and!; try lia; done. }
    apply IH; [lia| |cbn; lia]. destruct Hstop as [?|[?|Hstop]]; [lia|done|].
    split; [lia|]. cbn. replace (base + 8 - Z.of_nat n') with (blockStart st + count) by lia.
    eapply no_run_le; [apply (no_run_set (blockStart st) (blockStart st + count)); [done|lia|lia|]|lia].
    specialize (Hbits (Z.of_nat n' - 1) ltac:(lia)). rewrite Hstop in Hbits. rewrite <- Hbits. f_equal. lia.
  - destruct (skipOnes_spec n b) as (Hn' & Hones & Hzero). set (n' := skipOnes n b) in *.
    assert (no_run (base + 8 - Z.of_nat n' + num - 1)) as Hnr.
    { intros s Hs Hse. destruct (decide (s < base + 8 - Z.of_nat n)); [apply Hinv; lia|]. exists s. split; [lia|].
      specialize (Hbits (base + 7 - s) ltac:(lia)). replace (base + 7 - (base + 7 - s)) with s in Hbits by lia.
      rewrite Hbits. apply Hones. lia. }
    destruct (Nat.eqb n' 0) eqn:Hn0; [apply Nat.eqb_eq in Hn0|apply Nat.eqb_neq in Hn0].
    { cbn. split; [lia|]. rewrite Hcnt. rewrite Hn0 in Hnr. replace (base + 8 - Z.of_nat 0) with (base + 8) in Hnr by lia. done. }
    apply IH; [lia| |cbn [countingZeros]; lia]. split; [lia|]. cbn. split_and!; try lia; try done.
    + intros o Ho. specialize (Hzero ltac:(lia)). rewrite <- (Hbits (Z.of_nat n' - 1)) in Hzero by lia.
      rewrite <- Hzero. f_equal. lia.
    + eapply no_run_le; [done|lia].
Qed.

(** ** The bytes of a block, and all blocks *)

Lemma scan_bytes_spec bs base st :
  (∀ j b, bs.[j] = Some b → byte_bits (base + 8 * j) b) → 0 ≤ base → scan_inv true base st →
  scanned (base + 8 * zlength bs) (scan_bytes num base bs st).
Proof.
  revert base st. induction bs as [|b bs IH]; intros base st Hbits Hbase Hinv; cbn [scan_bytes].
  { change (zlength (@nil Z)) with 0. by rewrite Z.mul_0_r, Z.add_0_r. }
  assert (byte_bits base b) as Hb by (specialize (Hbits 0 b eq_refl); by rewrite Z.mul_0_r, Z.add_0_r in Hbits).
  assert (scanned (base + 8) (if countingZeros st || negb (b =? 255) then scan_byte 18 num base b 8 st else Ret (inr st))) as H1.
  { destruct (countingZeros st || negb (b =? 255)) eqn:Hc.
    - apply scan_byte_spec; [done|done|lia| |destruct (countingZeros st); lia].
      replace (base + 8 - Z.of_nat 8) with base by lia. by apply scan_inv_loose.
    - apply orb_false_iff in Hc as [Hc Hff]. apply negb_false_iff, Z.eqb_eq in Hff as ->.
      destruct Hinv as [_ Hinv]. rewrite Hc in Hinv. split; [lia|]. rewrite Hc. intros s Hs Hse.
      destruct (decide (s < base)); [apply Hinv; lia|]. exists s. split; [lia|].
      specialize (Hb (base + 7 - s) ltac:(lia)). replace (base + 7 - (base + 7 - s)) with s in Hb by lia.
      rewrite Hb. apply testbit_255. lia. }
  rewrite zlength_cons. destruct (if countingZeros st || _ then _ else _) as [[x|st']|e]; [..|done]; cbn [mbind outcome_bind].
  - destruct H1 as [H1 H2]. split; [done|]. pose proof (zlength_nonneg bs). lia.
  - replace (base + 8 * (zlength bs + 1)) with (base + 8 + 8 * zlength bs) by lia. apply IH; [|lia|done].
    intros j x Hx. pose proof (zget_range _ _ _ Hx). specialize (Hbits (j + 1) x).
    replace (base + 8 + 8 * j) with (base + 8 * (j + 1)) by lia. apply Hbits.
    rewrite <- Hx. unfold zget. repeat case_if; try lia. by replace (Z.to_nat (j + 1)) with (S (Z.to_nat j)) by lia.
Qed.
End Runs.

Lemma file_byte_bits f off j b :
  0 ≤ off → 0 ≤ j → (file_bytes f (HeaderSize + off) 4096).[j] = Some b → byte_bits (oid_bit f) (off * 8 + 8 * j) b.
Proof.
  intros Hoff Hj Hb k Hk. pose proof (zget_range _ _ _ Hb) as Hr. rewrite zlength_file in Hr by lia.
  pose proof (byte_at_file f (HeaderSize + off) 4096 j Hr) as Hx. unfold byte_at in Hx. rewrite Hb in Hx. cbn in Hx.
  unfold oid_bit. set (o := off * 8 + 8 * j + 7 - k).
  assert (o / 8 = off + j) as -> by (symmetry; apply (Z.div_unique _ _ _ (7 - k)); lia).
  assert (o mod 8 = 7 - k) as -> by (symmetry; apply (Z.mod_unique _ _ (off + j)); lia).
  rewrite Hx. f_equal; [f_equal; lia|lia].
Qed.

Lemma scan_blocks_spec quiet num m k st s :
  1 ≤ num → io_ok quiet (o_io s) → 0 ≤ k → 0 ≤ m → HeaderSize + 4096 * (k + m) ≤ of_len (o_file s) →
  scan_inv (oid_bit (o_file s)) num true (4096 * 8 * k) st →
  ∃ r io', scan_bitmap num ((fun k => HeaderSize + 4096 * k) <$> zseq k m) st s = (r, mkOID (o_file s) io' (vbOidDBRootMap s)) ∧
    io_ok quiet io' ∧
    match r with
    | Ret (Some x) => first_run (oid_bit (o_file s)) num x ∧ x + num ≤ 4096 * 8 * (k + m)
    | Ret None => no_run (oid_bit (o_file s)) num (4096 * 8 * (k + m))
    | Exn e => e = IosFailure ∧ quiet = false
    end.
Proof.
  intros Hnum Hio Hk Hm. revert k st s Hio Hk. pattern m. revert m Hm. apply natlike_ind; [|intros m Hm IH];
    intros k st s Hio Hk Hlen Hinv.
  { exists (Ret None), (o_io s). split; [by destruct s|]. split; [done|]. rewrite Z.add_0_r. by eapply scan_inv_end. }
  replace (Z.succ m) with (1 + m) in * by lia. rewrite zseq_app, fmap_app by lia.
  change (zseq k 1) with [k + Z.of_nat 0]. rewrite Z.add_0_r. cbn [fmap list_fmap app scan_bitmap].
  destruct (readData_spec quiet (HeaderSize + 4096 * k) 4096 s Hio ltac:(lia)) as (r & io1 & Hr & Hio1 & Hc); [lia|].
  destruct Hc as [-> |[-> Hq]]; cycle 1.
  { rewrite (bind_exn _ _ _ _ _ Hr). by eexists _, _. }
  rewrite (bind_ret _ _ _ _ _ Hr). replace ((HeaderSize + 4096 * k - HeaderSize) * 8) with (4096 * 8 * k) by lia.
  assert (∀ j b, (file_bytes (o_file s) (HeaderSize + 4096 * k) 4096).[j] = Some b →
    byte_bits (oid_bit (o_file s)) (4096 * 8 * k + 8 * j) b) as Hbits.
  { intros j b Hj. pose proof (zget_range _ _ _ Hj). replace (4096 * 8 * k + 8 * j) with (4096 * k * 8 + 8 * j) by lia.
    apply file_byte_bits; [lia|lia|done]. }
  pose proof (scan_bytes_spec _ num Hnum _ _ st Hbits ltac:(lia) Hinv) as Hs. rewrite zlength_file in Hs by lia.
  destruct (scan_bytes num (4096 * 8 * k) _ st) as [[x|st']|e]; [..|done]; rewrite lift_run.
  - destruct Hs as [Hs1 Hs2]. exists (Ret (Some x)), io1. split; [done|]. split; [done|]. split; [done|]. lia.
  - cbn in Hs. replace (4096 * 8 * k + 8 * 4096) with (4096 * 8 * (k + 1)) in Hs by lia.
    destruct (IH (k + 1) st' (mkOID (o_file s) io1 (vbOidDBRootMap s)) Hio1 ltac:(lia)) as (r & io2 & Hr2 & Hio2 & Hc2); [cbn; lia|done|].
    exists r, io2. split; [done|]. split; [done|]. by replace (k + (1 + m)) with (k + 1 + m) by lia.
Qed.

(** The search of [fullScan]: the first run of free ids, or there is none. *)
Lemma scan_bitmap_spec quiet num s :
  1 ≤ num → io_ok quiet (o_io s) → file_ok (o_file s) →
  ∃ r io', scan_bitmap num bitmap_offsets (mkScan false 0 0) s = (r, mkOID (o_file s) io' (vbOidDBRootMap s)) ∧
    io_ok quiet io' ∧
    match r with
    | Ret (Some x) => first_run (oid_bit (o_file s)) num x ∧ x + num ≤ max_oids
    | Ret None => no_run (oid_bit (o_file s)) num max_oids
    | Exn e => e = IosFailure ∧ quiet = false
    end.
Proof.
  intros Hnum Hio Hf. unfold bitmap_offsets. change ((StartOfVBOidSection - HeaderSize) / 4096) with 512.
  change max_oids with (4096 * 8 * (0 + 512)). apply scan_blocks_spec; [done|done|lia|lia| |].
  - pose proof (fo_len _ Hf). unfold StartOfVBOidSection in *. lia.
  - split; [lia|]. cbn. intros x Hx Hle. lia.
Qed.
