(* ===== verification/OidAlloc.v ===== *)
(** * The object id server: allocation

    [allocOIDs] takes the ids from the best range of the free list, or from the first
    run of free ids in the bitmap, and writes the free list before the bitmap: when a
    write fails in between, ids are lost, but none is ever given out twice. *)

From S2P Require Import Prelude BinFile OidServer OidProofs.

(** ** The free list *)

Definition fe_size (fe : FEntry) : Z := fe_end fe - fe_begin fe + 1.

(** The range chosen is the smallest that is long enough. *)
Lemma best_fit_spec num i l best :
  (∀ fe, fe ∈ l → fe_begin fe ≠ -1 → fe_size fe < 2 ^ 31 - 1) →
  (∀ j b, best = Some (j, b) → num ≤ fe_size b < 2 ^ 31 - 1) →
  match best_fit num i l best with
  | Some (j, fe) =>
      (best = Some (j, fe) ∨ ∃ k, j = i + k ∧ l.[k] = Some fe ∧ fe_begin fe ≠ -1) ∧ num ≤ fe_size fe ∧
      (∀ x, x ∈ l → fe_begin x ≠ -1 → num ≤ fe_size x → fe_size fe ≤ fe_size x) ∧
      (∀ k b, best = Some (k, b) → fe_size fe ≤ fe_size b)
  | None => best = None ∧ ∀ x, x ∈ l → fe_begin x ≠ -1 → fe_size x < num
  end.
Proof.
  revert i best. induction l as [|fe l IH]; intros i best Hsz Hbest; cbn [best_fit].
  { destruct best as [[j b]|]; [|split; [done|by intros x Hx%not_elem_of_nil]]. split; [by left|].
    destruct (Hbest j b eq_refl). split; [done|]. split; [by intros x Hx%not_elem_of_nil|]. by intros k b' [= -> ->]. }
  fold (fe_size fe).
  set (bestSize := match best with Some (_, b) => fe_end b - fe_begin b + 1 | None => 2 ^ 31 - 1 end).
  assert (∀ i0 best0 j x, (best0 = Some (j, x) ∨ ∃ k, j = i0 + 1 + k ∧ l.[k] = Some x ∧ fe_begin x ≠ -1) →
    best0 = Some (j, x) ∨ ∃ k, j = i0 + k ∧ (fe :: l).[k] = Some x ∧ fe_begin x ≠ -1) as Hshift.
  { intros i0 best0 j x [?|(k & -> & Hk & ?)]; [by left|right]. exists (k + 1). split; [lia|]. split; [|done].
    pose proof (zget_range _ _ _ Hk). rewrite <- Hk. unfold zget. repeat case_if; try lia.
    by replace (Z.to_nat (k + 1)) with (S (Z.to_nat k)) by lia. }
  assert (∀ x, x ∈ l → x ∈ fe :: l) as Hl by (intros; by right).
  destruct (fe_begin fe =? -1) eqn:Hb; zbool.
  { specialize (IH (i + 1) best ltac:(auto) Hbest). destruct (best_fit num (i + 1) l best) as [[j x]|].
    - destruct IH as (H1 & H2 & H3 & H4). split; [by apply Hshift|]. split; [done|]. split; [|done].
      intros y [->|Hy]%elem_of_cons; [done|by apply H3].
    - destruct IH as (H1 & H2). split; [done|]. intros y [->|Hy]%elem_of_cons; [done|by apply H2]. }
  destruct (fe_size fe =? num) eqn:Hn; zbool.
  { split; [right; exists 0; split; [lia|done]|]. split; [lia|]. split; [intros x _ _ ?; lia|].
    intros k b Hk. destruct (Hbest _ _ Hk). lia. }
  destruct ((num <? fe_size fe) && (fe_size fe <? bestSize)) eqn:Hc.
  - apply andb_true_iff in Hc as [Hc1%Z.ltb_lt Hc2%Z.ltb_lt].
    specialize (IH (i + 1) (Some (i, fe)) ltac:(auto)). destruct (best_fit num (i + 1) l (Some (i, fe))) as [[j x]|].
    + destruct IH as (H1 & H2 & H3 & H4); [intros ? ? [= <- <-]; split; [lia|apply Hsz; [by left|done]]|].
      specialize (H4 i fe eq_refl). split.
      { apply Hshift in H1 as [[= <- <-]|?]; [|by right]. right. exists 0. split; [lia|done]. }
      split; [done|]. split; [intros y [->|Hy]%elem_of_cons; [done|by apply H3]|].
      intros k b ->. unfold bestSize, fe_size in *. lia.
    + destruct IH as [? _]; [intros ? ? [= <- <-]; split; [lia|apply Hsz; [by left|done]]|done].
  - specialize (IH (i + 1) best ltac:(auto) Hbest). apply andb_false_iff in Hc. rewrite !Z.ltb_ge in Hc.
    assert (fe_size fe < 2 ^ 31 - 1) as Hmax by (apply Hsz; [by left|done]).
    destruct (best_fit num (i + 1) l best) as [[j x]|].
    + destruct IH as (H1 & H2 & H3 & H4). split; [by apply Hshift|]. split; [done|]. split; [|done].
      intros y [->|Hy]%elem_of_cons; [|by apply H3]. intros _ Hy. destruct best as [[k b]|].
      * specialize (H4 k b eq_refl). unfold bestSize, fe_size in *. lia.
      * unfold bestSize in *. lia.
    + destruct IH as [-> H2]. split; [done|]. intros y [->|Hy]%elem_of_cons; [|by apply H2]. intros _. unfold bestSize in *. lia.
Qed.

Lemma use_shrunk fe num :
  fe_sane fe → fe_begin fe ≠ -1 → 1 ≤ num ≤ fe_size fe →
  shrunk (useFreeListEntry fe num) fe ∧ ∀ o, fe_in (useFreeListEntry fe num) o → ¬ (fe_begin fe ≤ o < fe_begin fe + num).
Proof.
  intros Hs Hb Hn. destruct Hs as [?|Hs]; [done|]. unfold useFreeListEntry. fold (fe_size fe). case_if.
  - split; [by right; left|]. by intros o [? _].
  - split; [right; right; unfold fe_size in *; cbn; lia|]. intros o [_ Ho]. cbn in Ho. lia.
Qed.

(** The entries [patchFreelist] leaves do not meet the block.  It never finds the
    block in the middle of a range, since the id before it is allocated. *)
Lemma patch_entry_spec bit start num fe :
  1 ≤ num → first_run bit num start → fe_sane fe → (∀ o, fe_in fe o → bit o = false) →
  ∃ fe' c, patch_entry start (start + num - 1) fe = Ret (fe', c) ∧ shrunk fe' fe ∧
    (∀ o, fe_in fe' o → ¬ (start ≤ o < start + num)) ∧ (c = false → fe' = fe).
Proof.
  intros Hn Hrun Hs Hfree. pose proof (proj1 Hrun) as H0. apply before_first_run in Hrun. unfold patch_entry.
  destruct (fe_begin fe =? -1) eqn:Hb; zbool.
  { eexists _, _. split; [done|]. split; [by left|]. split; [by intros o [? _]|done]. }
  destruct Hs as [?|Hs]; [done|].
  assert (fe_begin fe < start → fe_end fe < start) as Hbefore.
  { intros Hlt. destruct (decide (fe_end fe < start)); [done|]. destruct Hrun as [?|Hset]; [lia|].
    rewrite Hfree in Hset; [done|]. split; [done|lia]. }
  destruct ((start <=? fe_begin fe) && (fe_begin fe <=? start + num - 1)) eqn:Hc.
  { apply andb_true_iff in Hc as [Hc1%Z.leb_le Hc2%Z.leb_le]. case_if.
    - eexists _, _. split; [done|]. split; [right; right; cbn; lia|]. split; [|done]. intros o [_ Ho]. cbn in Ho. lia.
    - eexists _, _. split; [done|]. split; [right; by left|]. split; [by intros o [? _]|done]. }
  apply andb_false_iff in Hc. rewrite !Z.leb_gt in Hc.
  destruct ((fe_begin fe <=? start) && (start + num - 1 <=? fe_end fe)) eqn:Hm.
  { apply andb_true_iff in Hm as [Hm1%Z.leb_le Hm2%Z.leb_le]. lia. }
  eexists _, _. split; [done|]. split; [by left|]. split; [|done]. intros o [_ Ho]. lia.
Qed.

Lemma patch_entries_spec bit start num l :
  1 ≤ num → first_run bit num start → (∀ fe, fe ∈ l → fe_sane fe ∧ ∀ o, fe_in fe o → bit o = false) →
  ∃ l' c, patch_entries start (start + num - 1) l = Ret (l', c) ∧ (c = false → l' = l) ∧
    Forall2 (fun fe' fe => shrunk fe' fe ∧ ∀ o, fe_in fe' o → ¬ (start ≤ o < start + num)) l' l.
Proof.
  intros Hn Hrun. induction l as [|fe l IH]; intros Hl; [by exists [], false|]. cbn [patch_entries].
  destruct (Hl fe) as [Hs Hf]; [by left|].
  destruct (patch_entry_spec bit start num fe Hn Hrun Hs Hf) as (fe' & c & -> & H1 & H2 & H3).
  destruct IH as (l' & c' & -> & H4 & H5); [intros; apply Hl; by right|].
  eexists _, _. split; [done|]. split; [|by constructor].
  intros [Hc Hc']%orb_false_iff. by rewrite H3, H4.
Qed.

(** ** The two writes *)

(** The part of the file with the version buffer ids. *)
Definition same_tail (f f' : OFile) : Prop :=
  of_len f' = of_len f ∧ ∀ o, StartOfVBOidSection ≤ o < of_len f → of_byte f' o = of_byte f o.

Lemma same_tail_trans f f' f'' : same_tail f f' → same_tail f' f'' → same_tail f f''.
Proof. intros [H1 H2] [H3 H4]. split; [congruence|]. intros o Ho. rewrite H4, H2; [done|done|]. by rewrite H1. Qed.

(** [writeData] of the header. *)
Lemma write_header l s :
  io_ok true (o_io s) → oid_inv (o_file s) → zlength l = FreeListEntries →
  (∀ i fe fe', (entries (o_file s)).[i] = Some fe → l.[i] = Some fe' → shrunk fe' fe) →
  ∃ f' io', writeData (header_bytes l) 0 s = (Ret tt, mkOID f' io' (vbOidDBRootMap s)) ∧ io_ok true io' ∧ oid_inv f' ∧
    same_tail (o_file s) f' ∧ (∀ o, 0 ≤ o < max_oids → oid_bit f' o = oid_bit (o_file s) o) ∧
    ∀ i, (entries f').[i] = l.[i].
Proof.
  intros Hio Hinv Hl Hsh.
  destruct (writeData_spec true (header_bytes l) 0 s Hio) as (r & f' & io' & p & Hw & Hio' & Hp & Hc).
  destruct Hc as [[-> ->]|[_ ?]]; [|done].
  destruct (inv_header l _ f' Hinv Hl Hp Hsh) as (Hinv' & Hent).
  assert (zlength (header_bytes l) = HeaderSize) as Hz by (rewrite zlength_header, Hl; done).
  pose proof (oi_file _ Hinv) as Hf. pose proof (fo_len _ Hf) as Hlen.
  exists f', io'. split; [done|]. split; [done|]. split; [done|]. split.
  { pose proof (wrote_same_but _ _ _ _ _ Hp) as Hsb. rewrite Hz in Hsb.
    destruct Hsb as [S1 S2]; [unfold StartOfVBOidSection in *; lia|].
    split; [done|]. intros o Ho. apply S2; [lia|]. unfold StartOfVBOidSection in *. lia. }
  split; [|done]. intros o Ho. eapply bits_outside_header; [done|lia|done|done].
Qed.

(** [flipOIDBlock] on free ids that are in no range of the free list. *)
Lemma take_block start num s :
  io_ok true (o_io s) → oid_inv (o_file s) → 0 ≤ start → 1 ≤ num → start + num ≤ max_oids →
  clear_run (oid_bit (o_file s)) start num →
  (∀ i fe o, (entries (o_file s)).[i] = Some fe → fe_in fe o → ¬ (start ≤ o < start + num)) →
  ∃ f' io', flipOIDBlock start num false s = (Ret tt, mkOID f' io' (vbOidDBRootMap s)) ∧ io_ok true io' ∧ oid_inv f' ∧
    same_tail (o_file s) f' ∧ ∀ o, 0 ≤ o < max_oids → oid_bit f' o = oid_bit (o_file s) o || in_block start num o.
Proof.
  intros Hio Hinv Hs Hn Hmax Hclear Hent. pose proof (oi_file _ Hinv) as Hf.
  destruct (flipOIDBlock_spec true start num s Hio Hs Hn Hmax Hf) as (r & f' & io' & Hr & Hio' & Hf' & [S1 S2] & Hbits & Hc).
  destruct r as [[]|e]; [|destruct Hc as [[_ ?]|(_ & o & Ho & Hb)]; [done|]; by rewrite Hclear in Hb].
  pose proof (fo_len _ Hf) as Hlen.
  assert (entries f' = entries (o_file s)) as He.
  { unfold entries. f_equal. apply file_bytes_ext. intros o Ho. apply S2; [|lia]. unfold StartOfVBOidSection in *. lia. }
  exists f', io'. split; [done|]. split; [done|]. split.
  { apply (inv_change (o_file s) f' Hinv Hf'). rewrite He. intros i fe Hi. exists fe. split; [done|].
    pose proof (oi_sane _ Hinv i fe Hi) as Hsane. split; [by split|]. intros o Ho.
    destruct (Hbits o) as [_ Hb]; [by eapply fe_in_range|].
    rewrite Hb by by eapply Hent. by eapply oi_free. }
  clear He. split; [split; [done|]; intros o Ho; apply S2; lia|].
  intros o Ho. destruct (in_block start num o) eqn:Hb.
  - apply in_block_true in Hb. rewrite orb_true_r. by apply Hc.
  - apply in_block_false in Hb. rewrite orb_false_r. by apply Hbits.
Qed.

(** ** [allocOIDs] *)

Record alloc_post (num : Z) (f f' : OFile) (x : Z) : Prop := mkAllocPost {
  ap_inv : oid_inv f';
  ap_tail : same_tail f f';
  ap_result :
    x = -1 ∧ no_run (oid_bit f) num max_oids ∧ (∀ o, 0 ≤ o < max_oids → oid_bit f' o = oid_bit f o) ∨
    0 ≤ x ∧ x + num ≤ max_oids ∧ clear_run (oid_bit f) x num ∧
    ∀ o, 0 ≤ o < max_oids → oid_bit f' o = oid_bit f o || in_block x num o;
}.

(** The header is written with some ranges used, then the bits of a block are set. *)
Lemma header_then_block l start num s :
  io_ok true (o_io s) → oid_inv (o_file s) → zlength l = FreeListEntries →
  (∀ i fe fe', (entries (o_file s)).[i] = Some fe → l.[i] = Some fe' → shrunk fe' fe) →
  (∀ i fe o, l.[i] = Some fe → fe_in fe o → ¬ (start ≤ o < start + num)) →
  0 ≤ start → 1 ≤ num → start + num ≤ max_oids → clear_run (oid_bit (o_file s)) start num →
  ∃ f' io', (writeData (header_bytes l) 0 ≫= fun _ => flipOIDBlock start num false ≫= fun _ => mret start) s
      = (Ret start, mkOID f' io' (vbOidDBRootMap s)) ∧ io_ok true io' ∧ alloc_post num (o_file s) f' start.
Proof.
  intros Hio Hinv Hl Hsh Hout Hs Hn Hmax Hclear.
  destruct (write_header l s Hio Hinv Hl Hsh) as (f1 & io1 & Hw & Hio1 & Hinv1 & Ht1 & Hb1 & Hent).
  rewrite (bind_ret _ _ _ _ _ Hw).
  destruct (take_block start num (mkOID f1 io1 (vbOidDBRootMap s)) Hio1 Hinv1 Hs Hn Hmax)
    as (f2 & io2 & Hr & Hio2 & Hinv2 & Ht2 & Hbits); cbn [o_file vbOidDBRootMap] in *.
  { intros o Ho. rewrite Hb1 by lia. by apply Hclear. }
  { intros i fe o Hi. rewrite Hent in Hi. by apply (Hout i). }
  rewrite (bind_ret _ _ _ _ _ Hr). eexists _, _. split; [done|]. split; [done|].
  split; [done|by eapply same_tail_trans|]. right. split_and!; try done. intros o Ho. by rewrite Hbits, Hb1.
Qed.

Lemma entries_elem f fe : oid_inv f → fe ∈ entries f → fe_sane fe ∧ ∀ o, fe_in fe o → oid_bit f o = false.
Proof.
  intros Hinv [i Hi]%zget_elem_of. split; [by eapply oi_sane|]. intros o Ho. by eapply oi_free.
Qed.

Lemma fullScan_spec num s :
  io_ok true (o_io s) → 1 ≤ num → oid_inv (o_file s) →
  ∃ x f' io', fullScan num (entries (o_file s)) s = (Ret x, mkOID f' io' (vbOidDBRootMap s)) ∧ io_ok true io' ∧
    alloc_post num (o_file s) f' x.
Proof.
  intros Hio Hn Hinv. unfold fullScan.
  destruct (scan_bitmap_spec true num s Hn Hio (oi_file _ Hinv)) as (r & io1 & Hr & Hio1 & Hc).
  destruct r as [[x|]|e]; cycle 1.
  { rewrite (bind_ret _ _ _ _ _ Hr). eexists _, _, _. split; [done|]. split; [done|]. split; [done|done|]. by left. }
  { by destruct Hc. }
  rewrite (bind_ret _ _ _ _ _ Hr). destruct Hc as [Hrun Hmax]. pose proof Hrun as (Hx & Hclear & _).
  destruct (patch_entries_spec _ x num (entries (o_file s)) Hn Hrun) as (l & c & Hp & Hcl & Hall);
    [intros; by apply entries_elem|].
  assert (zlength l = FreeListEntries) as Hl by (apply Forall2_length in Hall; unfold zlength; rewrite Hall; apply zlength_entries).
  assert (∀ i fe', l.[i] = Some fe' → ∃ fe, (entries (o_file s)).[i] = Some fe ∧ shrunk fe' fe ∧
    ∀ o, fe_in fe' o → ¬ (x ≤ o < x + num)) as Hget.
  { intros i fe' Hi. unfold zget in *. case_if; [done|]. destruct (Forall2_lookup_l _ _ _ _ _ Hall Hi) as (fe & ? & ? & ?). by exists fe. }
  unfold patchFreelist. rewrite assoc_run, Hp, lift_run. destruct c.
  - exists x. apply (header_then_block l x num (mkOID (o_file s) io1 (vbOidDBRootMap s))); try done.
    + intros i fe fe' Hfe Hfe'. destruct (Hget i fe' Hfe') as (fe0 & Hfe0 & ? & _). cbn in Hfe. rewrite Hfe in Hfe0. by injection Hfe0 as ->.
    + intros i fe o Hi. destruct (Hget i fe Hi) as (_ & _ & _ & Ho). apply Ho.
  - destruct (take_block x num (mkOID (o_file s) io1 (vbOidDBRootMap s)) Hio1 Hinv Hx Hn Hmax Hclear)
      as (f2 & io2 & Hr2 & Hio2 & Hinv2 & Ht2 & Hbits).
    { rewrite Hcl in Hget by done. intros i fe o Hi. destruct (Hget i fe Hi) as (_ & _ & _ & Ho). apply Ho. }
    rewrite mret_run, (bind_ret _ _ _ _ _ Hr2). eexists _, _, _. split; [done|]. split; [done|]. split; [done|done|]. by right.
Qed.

(** A block at the beginning of a range of the free list. *)
Lemma alloc_from_range num i fe s :
  io_ok true (o_io s) → 1 ≤ num ≤ fe_size fe → oid_inv (o_file s) → (entries (o_file s)).[i] = Some fe → fe_begin fe ≠ -1 →
  ∃ f' io', (writeData (header_bytes ((entries (o_file s)).[i <- useFreeListEntry fe num])) 0 ≫= fun _ =>
      flipOIDBlock (fe_begin fe) num false ≫= fun _ => mret (fe_begin fe)) s
      = (Ret (fe_begin fe), mkOID f' io' (vbOidDBRootMap s)) ∧ io_ok true io' ∧ alloc_post num (o_file s) f' (fe_begin fe).
Proof.
  intros Hio Hn Hinv Hi Hb. pose proof (oi_sane _ Hinv i fe Hi) as Hs. pose proof (entries_range _ _ _ Hi) as Hr.
  destruct (use_shrunk fe num Hs Hb Hn) as [Hsh Hout]. destruct Hs as [?|Hs]; [done|].
  assert (∀ o, fe_begin fe ≤ o < fe_begin fe + num → fe_in fe o) as Hin by (intros o Ho; split; [done|unfold fe_size in *; lia]).
  apply (header_then_block _ (fe_begin fe) num s); try done; try (unfold fe_size in *; lia).
  - by rewrite zlength_zset, zlength_entries.
  - intros j e e' He He'. destruct (decide (i = j)) as [<-|Hne].
    + rewrite zget_zset_eq in He' by by rewrite zlength_entries. injection He' as <-. rewrite Hi in He. by injection He as <-.
    + rewrite zget_zset_ne in He' by done. rewrite He in He'. injection He' as ->. by left.
  - intros j e o He Ho Hblk. destruct (decide (i = j)) as [<-|Hne].
    + rewrite zget_zset_eq in He by by rewrite zlength_entries. injection He as <-. by apply (Hout o).
    + rewrite zget_zset_ne in He by done. apply Hne. apply (oi_disjoint _ Hinv i j fe e o Hi He); [by apply Hin|done].
  - intros o Ho. eapply (oi_free _ Hinv); [done|by apply Hin].
Qed.

Lemma allocOIDs_spec num s :
  io_ok true (o_io s) → 1 ≤ num → oid_inv (o_file s) →
  ∃ x f' io', allocOIDs num s = (Ret x, mkOID f' io' (vbOidDBRootMap s)) ∧ io_ok true io' ∧
    alloc_post num (o_file s) f' x.
Proof.
  intros Hio Hn Hinv. unfold allocOIDs. pose proof (fo_len _ (oi_file _ Hinv)) as Hlen.
  destruct (readData_spec true 0 HeaderSize s Hio) as (r & io1 & Hr & Hio1 & Hc); [done|unfold StartOfVBOidSection in *; lia|].
  destruct Hc as [-> |[_ ?]]; [|done].
  rewrite (bind_ret _ _ _ _ _ Hr). cbn zeta. fold (entries (o_file s)).
  pose proof (best_fit_spec num 0 (entries (o_file s)) None) as Hbest.
  destruct (best_fit num 0 (entries (o_file s)) None) as [[i fe]|].
  - destruct Hbest as (Hin & Hsz & _); [|done|].
    { intros x Hx Hb. destruct (entries_elem _ _ Hinv Hx) as [[?|Hs] _]; [done|]. unfold fe_size, max_oids in *. lia. }
    destruct Hin as [?|(k & -> & Hk & Hb)]; [done|]. cbn [Z.add].
    exists (fe_begin fe). apply (alloc_from_range num k fe (mkOID (o_file s) io1 (vbOidDBRootMap s))); done.
  - apply (fullScan_spec num (mkOID (o_file s) io1 (vbOidDBRootMap s))); done.
Qed.

(** * Starting the object id server *)


(** ** Writes behind the bitmap *)

Definition same_bitmap (f f' : OFile) : Prop := ∀ o, 0 ≤ o < StartOfVBOidSection → of_byte f' o = of_byte f o.

Lemma bitmap_bits f f' o : same_bitmap f f' → 0 ≤ o < max_oids → oid_bit f' o = oid_bit f o.
Proof.
  intros Hs Ho. unfold oid_bit. f_equal. apply Hs. pose proof (Z.div_pos o 8 ltac:(lia) ltac:(lia)).
  assert (o / 8 < 2097152) by (apply Z.div_lt_upper_bound; unfold max_oids in *; lia). unfold StartOfVBOidSection.
  assert (HeaderSize = 2048) by done. lia.
Qed.

Lemma bitmap_entries f f' : same_bitmap f f' → entries f' = entries f.
Proof.
  intros Hs. unfold entries. f_equal. apply file_bytes_ext. intros o Ho. apply Hs. unfold StartOfVBOidSection. lia.
Qed.

Lemma file_same_bitmap f f' : file_ok f → same_bitmap f f' → of_len f ≤ of_len f' → file_ok f'.
Proof. intros [H1 H2] Hs Hlen. split; [lia|]. intros o Ho. rewrite Hs by done. by apply H2. Qed.

Lemma inv_same_bitmap f f' : oid_inv f → same_bitmap f f' → file_ok f' → oid_inv f'.
Proof.
  intros Hinv Hs Hf'. apply (inv_change f f' Hinv); [done|].
  rewrite (bitmap_entries f f' Hs). intros i fe Hi. pose proof (oi_sane _ Hinv i fe Hi) as Hsane. exists fe. split; [done|].
  split; [by split|]. intros o Ho. rewrite (bitmap_bits f f' o Hs); [by eapply oi_free|by eapply fe_in_range].
Qed.

Lemma wrote_behind off buf p f f' :
  file_ok f → StartOfVBOidSection ≤ off → wrote off buf p f f' → same_bitmap f f' ∧ of_len f ≤ of_len f'.
Proof.
  intros Hf Hoff Hw. split; [|destruct (wr_len _ _ _ _ _ Hw); lia]. intros o Ho. pose proof (fo_len _ Hf).
  apply (wr_out _ _ _ _ _ Hw); lia.
Qed.

(** ** When system calls fail *)

(** A write of the free list may stop anywhere, also in the middle of a word.  Its
    ranges may then hold allocated ids or meet each other, but they stay in the id
    space, and [flipOIDBlock] checks every id before it takes it. *)
Definition fe_ranged (fe : FEntry) : Prop :=
  fe_begin fe = -1 ∨ 0 ≤ fe_begin fe < max_oids ∧ 0 ≤ fe_end fe < max_oids.

Record oid_safe (f : OFile) : Prop := mkOidSafe {
  os_file : file_ok f;
  os_ranged i fe : (entries f).[i] = Some fe → fe_ranged fe;
}.

Lemma oid_inv_safe f : oid_inv f → oid_safe f.
Proof.
  intros Hi. split; [by apply oi_file|]. intros i fe Hfe. destruct (oi_sane _ Hi i fe Hfe) as [?|?]; [by left|right; lia].
Qed.

Lemma safe_same_bitmap f f' : oid_safe f → same_bitmap f f' → file_ok f' → oid_safe f'.
Proof. intros [H1 H2] Hs Hf'. split; [done|]. by rewrite (bitmap_entries f f' Hs). Qed.

(** The words of the header by their bytes. *)
Lemma word_bytes f o :
  word f o = wrap_s 32 (of_byte f o + 256 * (of_byte f (o + 1) + 256 * (of_byte f (o + 2) + 256 * of_byte f (o + 3)))).
Proof.
  unfold word, get_s. rewrite zlength_file by lia. unfold file_bytes. change (zseq o 4) with [o + 0; o + 1; o + 2; o + 3].
  cbn [fmap list_fmap le_value]. rewrite Z.add_0_r. f_equal. lia.
Qed.

Definition bytes_at (f : OFile) (o : Z) : Prop := ∀ k, 0 ≤ k < 4 → 0 ≤ of_byte f (o + k) < 256.

Lemma word_cases f o :
  bytes_at f o →
  (0 ≤ word f o < max_oids ↔ of_byte f (o + 3) = 0) ∧
  (word f o = -1 ↔ ∀ k, 0 ≤ k < 4 → of_byte f (o + k) = 255).
Proof.
  intros Hb. pose proof (Hb 0 ltac:(lia)) as H0. pose proof (Hb 1 ltac:(lia)) as H1. pose proof (Hb 2 ltac:(lia)) as H2.
  pose proof (Hb 3 ltac:(lia)) as H3. rewrite Z.add_0_r in H0. rewrite word_bytes. unfold wrap_s, max_oids.
  change (2 ^ 24) with 16777216. change (2 ^ 32) with 4294967296. change (2 ^ (32 - 1)) with 2147483648.
  rewrite Z.mod_small by lia. split; [case_if; lia|]. split.
  - intros Hw k Hk. case_if; [lia|]. assert (k = 0 ∨ k = 1 ∨ k = 2 ∨ k = 3) as [->|[->|[->| ->]]] by lia; rewrite ?Z.add_0_r; lia.
  - intros Hk. pose proof (Hk 0 ltac:(lia)) as K0. rewrite Z.add_0_r in K0. rewrite K0, !Hk by lia. done.
Qed.

(** A word after a write that stopped anywhere: the new one, or one with the highest
    byte of the old. *)
Lemma word_torn buf p f f' o :
  wrote 0 buf p f f' → 0 ≤ o → o + 4 ≤ of_len f → bytes_at f o → bytes_at f' o →
  word f' o = get_s (field (Z.to_nat o) 4 buf) ∧ o + 4 ≤ p ∨
  p < o + 4 ∧ (0 ≤ word f o < max_oids → 0 ≤ word f' o < max_oids) ∧
  (word f o = -1 → (∀ k, 0 ≤ k < 4 → buf.[o + k] = Some 255) → word f' o = -1).
Proof.
  intros Hw Ho Hl Hb Hb'. destruct (decide (o + 4 ≤ p)) as [Hp|Hp].
  - left. split; [|done]. unfold word. change 4%nat with (Z.to_nat 4). by erewrite wrote_field.
  - right. split; [lia|]. destruct (word_cases f o Hb) as [-> ->]. destruct (word_cases f' o Hb') as [-> ->]. split.
    + intros H3. rewrite (wr_out _ _ _ _ _ Hw); [done|lia|lia].
    + intros Hold Hnew k Hk. destruct (decide (o + k < p)).
      * rewrite (wr_in _ _ _ _ _ Hw), Z.sub_0_r, Hnew by lia. done.
      * rewrite (wr_out _ _ _ _ _ Hw) by lia. by apply Hold.
Qed.

(** What [useFreeListEntry] and [patchFreelist] make of an entry. *)
Definition reduced (fe' fe : FEntry) : Prop :=
  fe' = fe ∨ fe_begin fe ≠ -1 ∧ (fe' = mkFE (-1) (-1) ∨ 0 ≤ fe_begin fe' < max_oids ∧ fe_end fe' = fe_end fe).

Lemma reduced_fits fe' fe : fe_fits fe → reduced fe' fe → fe_fits fe'.
Proof.
  intros Hf [->|[_ [->|[H1 H2]]]]; [done|done|]. split; [|rewrite H2; apply Hf].
  unfold fits_s, max_oids in *. change (8 * Z.of_nat 4 - 1) with 31. apply andb_true_iff. rewrite Z.leb_le, Z.ltb_lt. lia.
Qed.

Lemma header_minus_one l (i : nat) fe :
  l !! i = Some fe → fe_begin fe = -1 → ∀ k, 0 ≤ k < 4 → (header_bytes l).[8 * Z.of_nat i + k] = Some 255.
Proof.
  intros Hi Hb k Hk. pose proof (field_header l i fe Hi) as Hf. unfold field, fe_bytes in Hf. rewrite Hb in Hf.
  unfold zget. case_if; [lia|]. replace (Z.to_nat (8 * Z.of_nat i + k)) with (8 * i + Z.to_nat k)%nat by lia.
  rewrite <- lookup_drop, <- (lookup_take_lt _ 8) by lia. rewrite Hf.
  assert (k = 0 ∨ k = 1 ∨ k = 2 ∨ k = 3) as [->|[->|[->| ->]]] by lia; done.
Qed.

Lemma entry_torn l p f f' i fe fe' :
  zlength l = FreeListEntries → wrote 0 (header_bytes l) p f f' → file_ok f → file_ok f' →
  (entries f).[i] = Some fe → l.[i] = Some fe' → fe_ranged fe → reduced fe' fe →
  ∃ x, (entries f').[i] = Some x ∧ fe_ranged x.
Proof.
  intros Hl Hw Hf Hf' Hi Hi' Hr Hred. pose proof (entries_range _ _ _ Hi) as Hir. pose proof (entries_fit _ _ _ Hi) as Hfit0.
  pose proof (reduced_fits _ _ Hfit0 Hred) as Hfit. assert (0 ≤ i < 256) as Hi256 by done.
  assert (l !! Z.to_nat i = Some fe') as Hn by (unfold zget in Hi'; by case_if).
  destruct (header_fields l (Z.to_nat i) fe' Hn Hfit) as [Hb He].
  pose proof (header_minus_one l (Z.to_nat i) fe' Hn) as Hff. rewrite Z2Nat.id in Hff by lia.
  pose proof (fo_len _ Hf) as Hlen. change StartOfVBOidSection with 2099200 in Hlen.
  assert (∀ g a, file_ok g → 0 ≤ a → a + 4 ≤ 2048 → bytes_at g a) as Hbytes.
  { intros g a [_ Hg] Ha Hle k Hk. apply Hg. change StartOfVBOidSection with 2099200. lia. }
  rewrite entries_get in Hi by done. injection Hi as <-. rewrite entries_get by done. eexists. split; [done|].
  unfold fe_ranged, reduced in *. cbn [fe_begin fe_end] in *.
  pose proof (word_torn _ p f f' (8 * i) Hw ltac:(lia) ltac:(lia) (Hbytes f (8 * i) Hf ltac:(lia) ltac:(lia)) (Hbytes f' (8 * i) Hf' ltac:(lia) ltac:(lia))) as T1.
  pose proof (word_torn _ p f f' (8 * i + 4) Hw ltac:(lia) ltac:(lia) (Hbytes f (8 * i + 4) Hf ltac:(lia) ltac:(lia)) (Hbytes f' (8 * i + 4) Hf' ltac:(lia) ltac:(lia))) as T2.
  replace (Z.to_nat (8 * i)) with (8 * Z.to_nat i)%nat in T1 by lia.
  replace (Z.to_nat (8 * i + 4)) with (8 * Z.to_nat i + 4)%nat in T2 by lia. rewrite Hb in T1. rewrite He in T2.
  destruct T1 as [[-> Hp]|(Hp & T1 & T1')].
  - destruct Hred as [->|(Hne & [->|[H1 H2]])]; cbn [fe_begin fe_end] in *; [|by left|].
    + destruct Hr as [?|[H1 H2]]; [by left|]. right. split; [done|]. destruct T2 as [[-> _]|(_ & T2 & _)]; auto.
    + destruct Hr as [?|[H3 H4]]; [done|]. right. split; [done|]. rewrite H2 in T2. destruct T2 as [[-> _]|(_ & T2 & _)]; auto.
  - destruct T2 as [[_ ?]|(_ & T2 & _)]; [lia|]. destruct Hr as [Hm|[H1 H2]]; [left|right; auto].
    destruct Hred as [->|[? _]]; [|done]. by auto.
Qed.

Definition keeps_allocated (f f' : OFile) : Prop := ∀ o, 0 ≤ o < max_oids → oid_bit f o = true → oid_bit f' o = true.

Lemma keeps_trans f f1 f2 : keeps_allocated f f1 → keeps_allocated f1 f2 → keeps_allocated f f2.
Proof. intros H1 H2 o Ho Hb. by apply H2, H1. Qed.

(** The block was free before and is allocated after. *)
Definition granted (f f' : OFile) (b : Z * Z) : Prop :=
  0 ≤ b.1 ∧ b.1 + b.2 ≤ max_oids ∧ ∀ o, b.1 ≤ o < b.1 + b.2 → oid_bit f o = false ∧ oid_bit f' o = true.

Lemma granted_later f f1 f2 b : keeps_allocated f f1 → granted f1 f2 b → granted f f2 b.
Proof.
  intros Hk (H1 & H2 & H3). split; [done|]. split; [done|]. intros o Ho. destruct (H3 o Ho) as [H4 H5]. split; [|done].
  destruct (oid_bit f o) eqn:Hb; [|done]. by rewrite (Hk o ltac:(lia) Hb) in H4.
Qed.

(** What an allocation does whatever the system calls do. *)
Definition safe_alloc (num : Z) (m : M OIDServer Z) (s : OIDServer) : Prop :=
  ∃ r f' io', m s = (r, mkOID f' io' (vbOidDBRootMap s)) ∧ oid_safe f' ∧ keeps_allocated (o_file s) f' ∧
    ∀ x, r = Ret x → x = -1 ∨ granted (o_file s) f' (x, num).

Lemma write_header_safe l s :
  oid_safe (o_file s) → zlength l = FreeListEntries →
  (∀ i fe fe', (entries (o_file s)).[i] = Some fe → l.[i] = Some fe' → reduced fe' fe) →
  ∃ r f' io', writeData (header_bytes l) 0 s = (r, mkOID f' io' (vbOidDBRootMap s)) ∧ oid_safe f' ∧
    ∀ o, 0 ≤ o < max_oids → oid_bit f' o = oid_bit (o_file s) o.
Proof.
  intros [Hf Hr] Hl Hred.
  destruct (writeData_spec false (header_bytes l) 0 s (io_ok_any _)) as (r & f' & io' & p & Hw & _ & Hp & _).
  assert (file_ok f') as Hf' by (by eapply wrote_file_ok; [..|apply header_bytes_ok]).
  pose proof (wr_range _ _ _ _ _ Hp) as Hpr. rewrite zlength_header, Hl in Hpr.
  exists r, f', io'. split; [done|]. split.
  - split; [done|]. intros i x Hx. pose proof (entries_range _ _ _ Hx) as Hi.
    destruct (zget_is_Some (entries (o_file s)) i) as [fe Hfe]; [by rewrite zlength_entries|].
    destruct (zget_is_Some l i) as [fe' Hfe']; [by rewrite Hl|].
    destruct (entry_torn l p _ f' i fe fe' Hl Hp Hf Hf' Hfe Hfe') as (y & Hy & Hry); [by eapply Hr|by eapply Hred|].
    rewrite Hx in Hy. by injection Hy as ->.
  - intros o Ho. eapply bits_outside_header; [done| |done|done]. unfold HeaderSize, sizeof_FEntry. lia.
Qed.

Lemma flip_safe start num s :
  oid_safe (o_file s) → 0 ≤ start → 1 ≤ num → start + num ≤ max_oids →
  safe_alloc num (flipOIDBlock start num false ≫= fun _ => mret start) s.
Proof.
  intros [Hf Hr] Hs Hn Hmax.
  destruct (flipOIDBlock_spec false start num s (io_ok_any _) Hs Hn Hmax Hf) as (r & f' & io' & Hrun & _ & Hf' & [_ S2] & Hbits & Hc).
  pose proof (fo_len _ Hf) as Hlen.
  assert (oid_safe f') as Hsafe.
  { split; [done|]. intros i fe Hi. apply (Hr i). rewrite <- Hi. unfold entries. f_equal. f_equal. symmetry. apply file_bytes_ext.
    intros o Ho. apply S2; [|lia]. unfold StartOfVBOidSection in *. lia. }
  assert (keeps_allocated (o_file s) f') as Hk by (intros o Ho; by apply Hbits).
  destruct r as [[]|e].
  - unfold safe_alloc. rewrite (bind_ret _ _ _ _ _ Hrun). eexists _, _, _. split; [done|]. split; [done|]. split; [done|].
    intros x [= <-]. right. by split; [|split].
  - unfold safe_alloc. rewrite (bind_exn _ _ _ _ _ Hrun). eexists _, _, _. split; [done|]. split; [done|]. by split.
Qed.

Lemma header_block_safe l start num s :
  oid_safe (o_file s) → zlength l = FreeListEntries →
  (∀ i fe fe', (entries (o_file s)).[i] = Some fe → l.[i] = Some fe' → reduced fe' fe) →
  0 ≤ start → 1 ≤ num → start + num ≤ max_oids →
  safe_alloc num (writeData (header_bytes l) 0 ≫= fun _ => flipOIDBlock start num false ≫= fun _ => mret start) s.
Proof.
  intros Hsafe Hl Hred Hs Hn Hmax. destruct (write_header_safe l s Hsafe Hl Hred) as (r & f1 & io1 & Hw & Hs1 & Hb1).
  assert (keeps_allocated (o_file s) f1) as Hk1 by (intros o Ho; by rewrite Hb1).
  unfold safe_alloc. destruct r as [[]|e].
  - rewrite (bind_ret _ _ _ _ _ Hw). destruct (flip_safe start num (mkOID f1 io1 (vbOidDBRootMap s)) Hs1 Hs Hn Hmax)
      as (r & f2 & io2 & Hr & Hs2 & Hk2 & Hg). rewrite Hr. eexists _, _, _. split; [done|]. split; [done|].
    split; [by eapply keeps_trans|]. intros x Hx. destruct (Hg x Hx) as [?|?]; [by left|right]. by eapply granted_later.
  - rewrite (bind_exn _ _ _ _ _ Hw). eexists _, _, _. split; [done|]. by split_and!.
Qed.

Lemma patch_entries_safe start end_ l l' c :
  (∀ fe, fe ∈ l → fe_ranged fe) → 0 ≤ start → start ≤ end_ → patch_entries start end_ l = Ret (l', c) →
  Forall2 reduced l' l.
Proof.
  intros Hl H0 Hle. revert l' c. induction l as [|fe l IH]; intros l' c Hp; cbn [patch_entries] in Hp; [by injection Hp as <- <-|].
  destruct (patch_entry start end_ fe) as [[fe' c1]|] eqn:H1; [|done].
  destruct (patch_entries start end_ l) as [[l2 c2]|] eqn:H2; [|done]. cbn in Hp. injection Hp as <- <-.
  constructor; [|by eapply IH; [intros; apply Hl; right|]].
  pose proof (Hl fe ltac:(left)) as Hr. unfold patch_entry in H1. destruct (fe_begin fe =? -1) eqn:Hb; zbool; [injection H1 as <- <-; by left|].
  destruct Hr as [?|Hr]; [done|]. case_if.
  { injection H1 as <- <-. right. split; [done|]. destruct (end_ <? fe_end fe) eqn:He; zbool; [right; cbn; lia|by left]. }
  case_if; [done|]. injection H1 as <- <-. by left.
Qed.

Lemma fullScan_safe num s :
  1 ≤ num → oid_safe (o_file s) → safe_alloc num (fullScan num (entries (o_file s))) s.
Proof.
  intros Hn Hsafe. unfold fullScan, safe_alloc.
  destruct (scan_bitmap_spec false num s Hn (io_ok_any _) (os_file _ Hsafe)) as (r & io1 & Hr & _ & Hc).
  destruct r as [[x|]|e]; cycle 1.
  { rewrite (bind_ret _ _ _ _ _ Hr). eexists _, _, _. split; [done|]. split; [done|]. split; [by intros o|].
    intros y [= <-]. by left. }
  { rewrite (bind_exn _ _ _ _ _ Hr). eexists _, _, _. split; [done|]. split; [done|]. split; [by intros o|done]. }
  rewrite (bind_ret _ _ _ _ _ Hr). destruct Hc as [(Hx & _) Hmax]. set (s1 := mkOID (o_file s) io1 (vbOidDBRootMap s)).
  unfold patchFreelist. rewrite assoc_run.
  destruct (patch_entries x (x + num - 1) (entries (o_file s))) as [[l c]|e] eqn:Hp; cycle 1.
  { eexists (Exn e), _, _. split; [done|]. split; [done|]. split; [by intros o|done]. }
  rewrite lift_run. destruct c; [|rewrite mret_run; by apply (flip_safe x num s1)].
  assert (Forall2 reduced l (entries (o_file s))) as Hall.
  { eapply patch_entries_safe; [|done| |done]; [|lia]. intros fe [i Hi]%zget_elem_of. by eapply os_ranged. }
  apply (header_block_safe l x num s1); try done.
  - apply Forall2_length in Hall. unfold zlength. rewrite Hall. apply zlength_entries.
  - intros i fe fe' Hfe Hfe'. unfold zget in *. case_if; [done|].
    destruct (Forall2_lookup_l _ _ _ _ _ Hall Hfe') as (fe0 & Hfe0 & ?). cbn in Hfe. rewrite Hfe in Hfe0. by injection Hfe0 as ->.
Qed.

Lemma allocOIDs_safe num s : 1 ≤ num → oid_safe (o_file s) → safe_alloc num (allocOIDs num) s.
Proof.
  intros Hn Hsafe. pose proof (fo_len _ (os_file _ Hsafe)) as Hlen. unfold allocOIDs, safe_alloc.
  destruct (readData_spec false 0 HeaderSize s (io_ok_any _)) as (r & io1 & Hr & _ & Hc); [done|unfold StartOfVBOidSection in *; lia|].
  destruct Hc as [-> |[-> _]]; cycle 1.
  { rewrite (bind_exn _ _ _ _ _ Hr). eexists _, _, _. split; [done|]. split; [done|]. split; [by intros o|done]. }
  rewrite (bind_ret _ _ _ _ _ Hr). cbn zeta. fold (entries (o_file s)). set (s1 := mkOID (o_file s) io1 (vbOidDBRootMap s)).
  pose proof (best_fit_spec num 0 (entries (o_file s)) None) as Hbest.
  destruct (best_fit num 0 (entries (o_file s)) None) as [[i fe]|]; [|by apply (fullScan_safe num s1)].
  destruct Hbest as (Hin & Hsz & _); [|done|].
  { intros x [j Hj]%zget_elem_of Hb. destruct (os_ranged _ Hsafe j x Hj) as [?|?]; [done|]. unfold fe_size, max_oids in *. lia. }
  destruct Hin as [?|(k & -> & Hk & Hb)]; [done|]. cbn [Z.add]. destruct (os_ranged _ Hsafe k fe Hk) as [?|Hrg]; [done|].
  pose proof (entries_range _ _ _ Hk) as Hki. unfold fe_size in Hsz.
  apply (header_block_safe _ (fe_begin fe) num s1); try done; try lia.
  - by rewrite zlength_zset, zlength_entries.
  - intros j e e' He He'. cbn in He. destruct (decide (k = j)) as [<-|Hne].
    + rewrite zget_zset_eq in He' by by rewrite zlength_entries. injection He' as <-. rewrite Hk in He. injection He as <-.
      right. split; [done|]. unfold useFreeListEntry. case_if; [by left|]. right. cbn. lia.
    + rewrite zget_zset_ne in He' by done. rewrite He in He'. injection He' as ->. by left.
Qed.

(** ** The table of the version buffer files *)

(** The file holds the table that is in memory. *)
Record vb_ok (s : OIDServer) : Prop := mkVbOk {
  vo_size : zlength (vbOidDBRootMap s) < 2 ^ 16;
  vo_u16 : Forall (fun d => 0 ≤ d < 2 ^ 16) (vbOidDBRootMap s);
  vo_len : StartOfVBOidSection + 2 + 2 * zlength (vbOidDBRootMap s) ≤ of_len (o_file s);
  vo_count : get_u (file_bytes (o_file s) StartOfVBOidSection 2) = zlength (vbOidDBRootMap s);
  vo_get i d : (vbOidDBRootMap s).[i] = Some d → get_u (file_bytes (o_file s) (StartOfVBOidSection + 2 + 2 * i) 2) = d;
}.

Lemma vb_ok_same f io f' io' m :
  vb_ok (mkOID f io m) → of_len f ≤ of_len f' → (∀ o, StartOfVBOidSection ≤ o < of_len f → of_byte f' o = of_byte f o) →
  vb_ok (mkOID f' io' m).
Proof.
  intros [H1 H2 H3 H4 H5] Hlen Hs. cbn in *.
  assert (∀ a, StartOfVBOidSection ≤ a → a + 2 ≤ of_len f → file_bytes f' a 2 = file_bytes f a 2) as Heq.
  { intros a Ha Hl. apply file_bytes_ext. intros o Ho. apply Hs. lia. }
  pose proof (zlength_nonneg m). split; cbn; try done; try lia.
  - rewrite Heq by lia. done.
  - intros i d Hi. pose proof (zget_range _ _ _ Hi). rewrite Heq by lia. by apply H5.
Qed.

(** The bytes of a whole write. *)
Lemma wrote_bytes off buf f f' : wrote off buf (zlength buf) f f' → file_bytes f' off (zlength buf) = buf.
Proof.
  intros Hw. apply list_eq_same_length with (length buf); [done|unfold file_bytes; rewrite length_fmap, length_zseq; unfold zlength; lia|].
  intros j x y Hj Hx Hy. unfold file_bytes in Hx. apply list_lookup_fmap_Some in Hx as (o & -> & Ho).
  unfold zseq in Ho. apply list_lookup_fmap_Some in Ho as (j' & -> & Hj'). apply lookup_seq in Hj' as [-> _].
  rewrite (wr_in _ _ _ _ _ Hw) by (unfold zlength; lia). unfold zget. case_if; [lia|].
  replace (Z.to_nat (off + Z.of_nat (0 + j) - off)) with j by lia. by rewrite Hy.
Qed.

Lemma fits_u16 x : 0 ≤ x < 2 ^ 16 → fits_u 2 x = true.
Proof. intros Hx. unfold fits_u. apply andb_true_iff. rewrite Z.leb_le, Z.ltb_lt. done. Qed.

Lemma allocVBOID_spec d s :
  io_ok true (o_io s) → oid_inv (o_file s) → vb_ok s → 0 ≤ d < 2 ^ 16 → zlength (vbOidDBRootMap s) + 1 < 2 ^ 16 →
  ∃ f' io', allocVBOID d s = (Ret (zlength (vbOidDBRootMap s)), mkOID f' io' (vbOidDBRootMap s ++ [d])) ∧ io_ok true io' ∧
    oid_inv f' ∧ same_bitmap (o_file s) f' ∧ vb_ok (mkOID f' io' (vbOidDBRootMap s ++ [d])).
Proof.
  destruct s as [f io m]. cbn [o_file o_io vbOidDBRootMap]. intros Hio Hinv Hvb Hd Hn. unfold allocVBOID.
  set (s1 := mkOID f io (m ++ [d])). pose proof (zlength_nonneg m) as Hm0. pose proof Hvb as [_ Hu Hl _ Hg]. cbn in Hu, Hl, Hg.
  assert (zlength (le_bytes 2 (u16 (zlength m + 1))) = 2 ∧ zlength (le_bytes 2 d) = 2) as [Hz1 Hz2]
    by (unfold zlength; by rewrite !length_le_bytes).
  destruct (writeData_spec true (le_bytes 2 (u16 (zlength m + 1))) StartOfVBOidSection s1 Hio)
    as (r & f1 & io1 & p & Hw1 & Hio1 & Hp1 & Hc1). destruct Hc1 as [[-> ->]|[_ ?]]; [|done].
  destruct (writeData_spec true (le_bytes 2 d) (StartOfVBOidSection + 2 + zlength m * 2) (mkOID f1 io1 (m ++ [d])) Hio1)
    as (r & f2 & io2 & p & Hw2 & Hio2 & Hp2 & Hc2). destruct Hc2 as [[-> ->]|[_ ?]]; [|done].
  cbn [o_file vbOidDBRootMap s1] in *. exists f2, io2.
  destruct (wrote_behind _ _ _ _ _ (oi_file _ Hinv) (Z.le_refl _) Hp1) as [Hs1 Hl1].
  pose proof (file_same_bitmap _ _ (oi_file _ Hinv) Hs1 Hl1) as Hf1. pose proof (inv_same_bitmap _ _ Hinv Hs1 Hf1) as Hinv1.
  assert (StartOfVBOidSection ≤ StartOfVBOidSection + 2 + zlength m * 2) as Hoff by lia.
  destruct (wrote_behind _ _ _ _ _ Hf1 Hoff Hp2) as [Hs2 Hl2].
  split.
  { rewrite (bind_ret (gets _) _ _ (zlength m) (mkOID f io m)) by done. cbn zeta.
    rewrite (bind_ret (push_dbroot d) _ _ tt s1) by done.
    erewrite (bind_ret (catch _ _) _ _ tt); [reflexivity|]. unfold catch. rewrite (bind_ret _ _ _ _ _ Hw1). by rewrite Hw2. }
  split; [done|]. split; [eapply inv_same_bitmap; [done..|]; by eapply file_same_bitmap|]. split; [intros o Ho; rewrite Hs2, Hs1 by done; done|].
  pose proof (wrote_bytes _ _ _ _ Hp1) as Hb1. pose proof (wrote_bytes _ _ _ _ Hp2) as Hb2.
  pose proof (wr_end _ _ _ _ _ Hp1) as He1. pose proof (wr_end _ _ _ _ _ Hp2) as He2.
  rewrite Hz1 in *. rewrite Hz2 in *. specialize (He1 ltac:(lia)). specialize (He2 ltac:(lia)).
  assert (zlength (m ++ [d]) = zlength m + 1) as Hz by (unfold zlength; rewrite length_app; cbn; lia).
  split; cbn [o_file vbOidDBRootMap]; rewrite ?Hz.
  - done.
  - apply Forall_app. split; [done|]. by constructor.
  - lia.
  - rewrite (file_bytes_ext f1 f2).
    + rewrite Hb1. rewrite (wrap_u_small 16) by lia. apply get_u_bytes. apply fits_u16. lia.
    + intros o Ho. apply (wr_out _ _ _ _ _ Hp2); lia.
  - intros i x Hi. destruct (decide (i = zlength m)) as [->|Hne].
    + rewrite zget_middle in Hi. injection Hi as <-. replace (2 * zlength m) with (zlength m * 2) by lia. rewrite Hb2.
      by apply get_u_bytes, fits_u16.
    + pose proof (zget_range _ _ _ Hi) as Hr. assert (m.[i] = Some x) as Hmi.
      { rewrite <- Hi. unfold zget. case_if; [done|]. rewrite lookup_app_l; [done|]. unfold zlength in *. rewrite length_app in *. cbn in *. lia. }
      rewrite <- (Hg i x Hmi). pose proof (zget_range _ _ _ Hmi). f_equal.
      rewrite (file_bytes_ext f1 f2) by (intros o Ho; apply (wr_out _ _ _ _ _ Hp2); lia).
      apply file_bytes_ext. intros o Ho. apply (wr_out _ _ _ _ _ Hp1); lia.
Qed.

(** *** Loading it *)

Lemma readData_any quiet off n s :
  io_ok quiet (o_io s) → 0 ≤ n →
  ∃ r io', readData off n s = (r, mkOID (o_file s) io' (vbOidDBRootMap s)) ∧ io_ok quiet io'.
Proof.
  intros Hio Hn. unfold readData. case_if; [exists (Ret []), (o_io s); by destruct s|].
  destruct (seek_loop MaxRetries (o_io s)) as [ok io1] eqn:Hs. destruct (seek_loop_spec _ _ _ _ _ Hio Hs) as [Hio1 _].
  destruct ok; [|by eexists _, _]. destruct (read_loop _ _ _ _ _ _) as [r io2] eqn:Hr.
  destruct (read_loop_spec quiet _ _ _ _ _ _ _ _ Hio1 retries_pos Hn Hr) as [Hio2 _]. by eexists _, _.
Qed.

(** Code that touches the file only behind the bitmap. *)
Definition behind {A} (quiet : bool) (m : M OIDServer A) : Prop := ∀ s,
  io_ok quiet (o_io s) → file_ok (o_file s) →
  ∃ r s', m s = (r, s') ∧ io_ok quiet (o_io s') ∧ file_ok (o_file s') ∧ same_bitmap (o_file s) (o_file s').

Lemma behind_ret {A} quiet (a : A) : behind quiet (mret a).
Proof. intros s Hio Hi. by exists (Ret a), s. Qed.

Lemma behind_throw {A} quiet e : behind quiet (throw (A := A) e).
Proof. intros s Hio Hi. by exists (Exn e), s. Qed.

Lemma behind_bind {A B} quiet (m : M OIDServer A) (k : A → M OIDServer B) :
  behind quiet m → (∀ a, behind quiet (k a)) → behind quiet (m ≫= k).
Proof.
  intros Hm Hk s Hio Hi. destruct (Hm s Hio Hi) as ([a|e] & s1 & Hr & Hio1 & Hi1 & Hs1).
  - rewrite (bind_ret _ _ _ _ _ Hr). destruct (Hk a s1 Hio1 Hi1) as (r & s2 & Hr2 & Hio2 & Hi2 & Hs2).
    exists r, s2. split_and!; try done. intros o Ho. by rewrite Hs2, Hs1.
  - rewrite (bind_exn _ _ _ _ _ Hr). by exists (Exn e), s1.
Qed.

Lemma behind_catch {A} quiet (m : M OIDServer A) h :
  behind quiet m → (∀ e, behind quiet (h e)) → behind quiet (catch m h).
Proof.
  intros Hm Hh s Hio Hi. unfold catch. destruct (Hm s Hio Hi) as ([a|e] & s1 & -> & Hio1 & Hi1 & Hs1).
  - by exists (Ret a), s1.
  - destruct (is_exception e); [|by exists (Exn e), s1].
    destruct (Hh e s1 Hio1 Hi1) as (r & s2 & Hr2 & Hio2 & Hi2 & Hs2).
    exists r, s2. split_and!; try done. intros o Ho. by rewrite Hs2, Hs1.
Qed.

Lemma behind_pure {A} quiet (g : OIDServer → OIDServer) (h : OIDServer → A) :
  (∀ s, o_file (g s) = o_file s ∧ o_io (g s) = o_io s) → behind quiet (fun s => (Ret (h s), g s)).
Proof.
  intros Hg s Hio Hi. exists (Ret (h s)), (g s). destruct (Hg s) as [H1 H2]. by rewrite H1, H2.
Qed.

Lemma behind_read quiet off n : 0 ≤ n → behind quiet (readData off n).
Proof.
  intros Hn s Hio Hi. destruct (readData_any quiet off n s Hio Hn) as (r & io' & -> & Hio'). by eexists _, _.
Qed.

Lemma behind_write quiet buf off : StartOfVBOidSection ≤ off → behind quiet (writeData buf off).
Proof.
  intros Hoff s Hio Hi. destruct (writeData_spec quiet buf off s Hio) as (r & f' & io' & p & -> & Hio' & Hp & _).
  destruct (wrote_behind _ _ _ _ _ Hi Hoff Hp) as [H1 H2]. eexists _, _. split; [done|]. split; [done|].
  split; [by eapply file_same_bitmap|done].
Qed.

Lemma behind_loadVBOIDs quiet : behind quiet loadVBOIDs.
Proof.
  apply behind_bind.
  - apply behind_catch; [apply behind_bind; [by apply behind_read|intros; apply behind_ret]|].
    intros e. case_decide; [|apply behind_throw]. apply behind_bind; [by apply behind_write|intros; apply behind_ret].
  - intros size. case_if; [apply behind_ret|].
    destruct (decide (0 ≤ size * 2)) as [Hs|Hs].
    + apply behind_bind; [by apply behind_read|]. intros bs. by apply behind_pure.
    + intros s Hio Hi. unfold mbind, M_bind, readData. assert (size * 2 =? 0 = false) as -> by (apply Z.eqb_neq; lia).
      destruct (seek_loop MaxRetries (o_io s)) as [ok io1] eqn:Hsk. destruct (seek_loop_spec _ _ _ _ _ Hio Hsk) as [Hio1 _].
      destruct ok; [|by eexists _, _]. change MaxRetries with 10%nat.
      assert (size * 2 <=? 0 = true) as Hle by (apply Z.leb_le; lia). destruct io1; cbn [read_loop]; rewrite Hle; by eexists _, _.
Qed.

Lemma behind_allocVBOID quiet d : behind quiet (allocVBOID d).
Proof.
  intros s. unfold allocVBOID, gets. unfold mbind at 1, M_bind at 1. set (n := zlength (vbOidDBRootMap s)).
  assert (StartOfVBOidSection ≤ StartOfVBOidSection + 2 + n * 2) as Hoff by (pose proof (zlength_nonneg (vbOidDBRootMap s)); lia).
  revert s n Hoff. intros s n Hoff. cbn zeta.
  enough (behind quiet (push_dbroot d ≫= fun _ => catch (writeData (le_bytes 2 (u16 (n + 1))) StartOfVBOidSection ≫= fun _ =>
    writeData (le_bytes 2 d) (StartOfVBOidSection + 2 + n * 2)) (fun e => pop_dbroot ≫= fun _ => throw e) ≫= fun _ => mret n)) as Hb by apply Hb.
  apply behind_bind; [by apply (behind_pure quiet)|intros _]. apply behind_bind; [|intros; apply behind_ret].
  apply behind_catch.
  - apply behind_bind; [by apply behind_write|]. intros _. by apply behind_write.
  - intros e. apply behind_bind; [by apply (behind_pure quiet)|]. intros _. apply behind_throw.
Qed.

Lemma u16s_of_file f n m :
  zlength m = n → (∀ i d, m.[i] = Some d → get_u (file_bytes f (StartOfVBOidSection + 2 + 2 * i) 2) = d) →
  u16s_of (file_bytes f (StartOfVBOidSection + 2) (n * 2)) n = m.
Proof.
  intros Hn Hg. apply list_eq_same_length with (length m); [done|unfold u16s_of; rewrite length_fmap, length_zseq; unfold zlength in *; lia|].
  intros j x y Hj Hx Hy. unfold u16s_of in Hx. apply list_lookup_fmap_Some in Hx as (i & -> & Hi).
  unfold zseq in Hi. apply list_lookup_fmap_Some in Hi as (j' & -> & Hj'). apply lookup_seq in Hj' as [-> _].
  rewrite <- (Hg (Z.of_nat j) y) by by rewrite zget_nat. f_equal.
  replace (2 * Z.to_nat (0 + Z.of_nat (0 + j)))%nat with (Z.to_nat (2 * Z.of_nat j)) by lia. change 2%nat with (Z.to_nat 2).
  unfold zlength in Hn. rewrite field_file by lia. done.
Qed.

Lemma loadVBOIDs_spec f io io0 m :
  io_ok true io → vb_ok (mkOID f io0 m) →
  ∃ io', loadVBOIDs (mkOID f io []) = (Ret tt, mkOID f io' m) ∧ io_ok true io'.
Proof.
  intros Hio [H1 H2 H3 H4 H5]. cbn in *. pose proof (zlength_nonneg m). unfold loadVBOIDs.
  destruct (readData_spec true StartOfVBOidSection 2 (mkOID f io []) Hio ltac:(lia)) as (r & io1 & Hr & Hio1 & Hc); [cbn; lia|].
  destruct Hc as [-> |[_ ?]]; [|done]. cbn [o_file vbOidDBRootMap] in Hr.
  erewrite (bind_ret (catch _ _) _ _ (zlength m) (mkOID f io1 [])).
  2: { unfold catch. rewrite (bind_ret _ _ _ _ _ Hr). unfold mret, M_ret. by rewrite H4. }
  destruct (zlength m =? 0) eqn:Hz; zbool.
  { destruct m; [|rewrite zlength_cons in *; pose proof (zlength_nonneg m); lia]. by exists io1. }
  destruct (readData_spec true (StartOfVBOidSection + 2) (zlength m * 2) (mkOID f io1 []) Hio1 ltac:(lia)) as (r & io2 & Hr2 & Hio2 & Hc);
    [cbn; lia|]. destruct Hc as [-> |[_ ?]]; [|done]. cbn [o_file vbOidDBRootMap] in Hr2.
  rewrite (bind_ret _ _ _ _ _ Hr2). exists io2. split; [|done]. unfold set_vboids, modify. cbn [o_file o_io].
  by rewrite (u16s_of_file f (zlength m) m).
Qed.

(** ** A new file *)

Lemma zlength_replicate {A} n (x : A) : zlength (replicate n x) = Z.of_nat n.
Proof. unfold zlength. by rewrite length_replicate. Qed.

(** The loop that clears the bitmap is one long write. *)
Lemma clear_blocks (n : nat) size k s :
  io_ok true (o_io s) →
  ∃ f' io', forM (zseq k (Z.of_nat n)) (fun k => writeData (replicate size 0) (HeaderSize + k * Z.of_nat size)) s
      = (Ret tt, mkOID f' io' (vbOidDBRootMap s)) ∧ io_ok true io' ∧
    wrote (HeaderSize + k * Z.of_nat size) (replicate (n * size) 0) (Z.of_nat (n * size)) (o_file s) f'.
Proof.
  revert k s. induction n as [|n IH]; intros k s Hio.
  { exists (o_file s), (o_io s). split; [by destruct s|]. split; [done|]. apply wrote_none. }
  replace (Z.of_nat (S n)) with (1 + Z.of_nat n) by lia. rewrite zseq_app by lia.
  change (zseq k 1) with [k + Z.of_nat 0]. rewrite Z.add_0_r. cbn [app forM].
  destruct (writeData_spec true (replicate size 0) (HeaderSize + k * Z.of_nat size) s Hio)
    as (r & f1 & io1 & p & Hw & Hio1 & Hp & Hc). destruct Hc as [[-> ->]|[_ ?]]; [|done].
  rewrite (bind_ret _ _ _ _ _ Hw).
  destruct (IH (k + 1) (mkOID f1 io1 (vbOidDBRootMap s)) Hio1) as (f2 & io2 & Hr & Hio2 & Hw2). cbn [o_file vbOidDBRootMap] in *.
  exists f2, io2. split; [done|]. split; [done|].
  assert (take size (replicate (S n * size) 0) = replicate size 0) as Ht by (rewrite take_replicate; f_equal; lia).
  assert (drop size (replicate (S n * size) 0) = replicate (n * size) 0) as Hd by (rewrite drop_replicate; f_equal; lia).
  replace (Z.of_nat (S n * size)) with (zlength (take size (replicate (S n * size) 0)) + Z.of_nat (n * size))
    by (rewrite Ht, zlength_replicate; lia).
  eapply wrote_more; [by rewrite Ht|]. rewrite Ht, Hd, zlength_replicate.
  by replace (HeaderSize + k * Z.of_nat size + Z.of_nat size) with (HeaderSize + (k + 1) * Z.of_nat size) by lia.
Qed.

(** The header of a new file. *)
Definition first_header (first : Z) : list FEntry :=
  mkFE first 0x00ffffff :: replicate (Z.to_nat (FreeListEntries - 1)) (mkFE (-1) (-1)).

Lemma first_header_get first i fe :
  (first_header first).[i] = Some fe → i = 0 ∧ fe = mkFE first 0x00ffffff ∨ fe = mkFE (-1) (-1).
Proof.
  unfold first_header, zget. case_if; [done|]. destruct (Z.to_nat i) as [|n] eqn:Hi.
  - intros [= <-]. left. split; [lia|done].
  - cbn [lookup list_lookup]. intros [-> _]%lookup_replicate. by right.
Qed.

Lemma first_header_written first f f' :
  0 ≤ first < max_oids → wrote 0 (header_bytes (first_header first)) (zlength (header_bytes (first_header first))) f f' →
  ∀ i fe, (entries f').[i] = Some fe → i = 0 ∧ fe = mkFE first 0x00ffffff ∨ fe = mkFE (-1) (-1).
Proof.
  intros Hfirst Hw i fe Hi. apply first_header_get. rewrite <- Hi. symmetry. eapply entries_written; [..|done].
  - unfold first_header. rewrite zlength_cons, zlength_replicate. done.
  - apply Forall_cons. split; [apply sane_fits; cbn; [lia|right; cbn; unfold max_oids in *; lia]|].
    by apply Forall_replicate.
Qed.

(** The cleared bitmap. *)
Lemma clear_file_ok first n f0 f1 f2 :
  Z.of_nat n = 2097152 →
  wrote 0 (header_bytes (first_header first)) (zlength (header_bytes (first_header first))) f0 f1 →
  wrote HeaderSize (replicate n 0) (Z.of_nat n) f1 f2 →
  file_ok f2 ∧ (∀ o, 0 ≤ o < max_oids → oid_bit f2 o = false) ∧ ∀ i, (entries f2).[i] = (entries f1).[i].
Proof.
  intros Hn Hw1 Hw2. set (h := header_bytes (first_header first)) in *.
  assert (zlength h = HeaderSize) as Hz.
  { unfold h. rewrite zlength_header. unfold first_header. rewrite zlength_cons, zlength_replicate. done. }
  pose proof (wr_end _ _ _ _ _ Hw1 ltac:(rewrite Hz; done)) as He1. rewrite Hz in *.
  assert (∀ o, 0 ≤ o < HeaderSize → of_byte f2 o = of_byte f1 o) as Hhead by (intros o Ho; apply (wr_out _ _ _ _ _ Hw2); lia).
  assert (StartOfVBOidSection = HeaderSize + Z.of_nat n) as Hend by (unfold StartOfVBOidSection; lia).
  assert (∀ o, HeaderSize ≤ o < StartOfVBOidSection → of_byte f2 o = 0) as Hzero.
  { intros o Ho. rewrite (wr_in _ _ _ _ _ Hw2) by lia. unfold zget. case_if; [done|].
    destruct (replicate _ 0 !! _) eqn:Hr; [|done]. by apply lookup_replicate in Hr as [-> _]. }
  pose proof (wr_end _ _ _ _ _ Hw2 ltac:(lia)) as He2.
  split; [|split].
  - split; [lia|]. intros o Ho. destruct (decide (o < HeaderSize)); [|rewrite Hzero by lia; lia].
    rewrite Hhead by lia. rewrite (wr_in _ _ _ _ _ Hw1) by (cbn; lia). apply header_bytes_ok.
  - intros o Ho. unfold oid_bit. rewrite Hzero; [apply Z.bits_0|]. pose proof (Z.div_pos o 8 ltac:(lia) ltac:(lia)).
    assert (o / 8 < 2097152) by (apply Z.div_lt_upper_bound; unfold max_oids in *; lia). unfold StartOfVBOidSection. lia.
  - intros i. unfold entries. f_equal. f_equal. apply file_bytes_ext. intros o Ho. apply Hhead. lia.
Qed.

Lemma initializeBitmap_spec cfg s :
  io_ok true (o_io s) → 1 ≤ first_oid cfg < max_oids →
  ∃ f' io', initializeBitmap cfg s = (Ret tt, mkOID f' io' (vbOidDBRootMap s)) ∧ io_ok true io' ∧ oid_inv f' ∧
    (∀ o, 0 ≤ o < max_oids → oid_bit f' o = (o <? first_oid cfg)) ∧
    (vbOidDBRootMap s = [] → vb_ok (mkOID f' io' [])).
Proof.
  intros Hio Hfirst. unfold initializeBitmap. cbn zeta. fold (first_header (first_oid cfg)). set (first := first_oid cfg) in *.
  destruct (writeData_spec true (header_bytes (first_header first)) 0 s Hio) as (r & f1 & io1 & p & Hw & Hio1 & Hp1 & Hc).
  destruct Hc as [[-> ->]|[_ ?]]; [|done]. rewrite (bind_ret _ _ _ _ _ Hw). unfold clear_bitmap.
  change ((StartOfVBOidSection - HeaderSize) / HeaderSize) with (Z.of_nat 1024).
  destruct (clear_blocks 1024 (Z.to_nat HeaderSize) 0 (mkOID f1 io1 (vbOidDBRootMap s)) Hio1) as (f2 & io2 & Hr2 & Hio2 & Hp2).
  rewrite Z2Nat.id in Hr2 by done. cbn [o_file vbOidDBRootMap] in *. rewrite (bind_ret _ _ _ _ _ Hr2).
  assert (Z.of_nat (1024 * Z.to_nat HeaderSize) = 2097152) as Hsize by by rewrite Nat2Z.inj_mul, Z2Nat.id.
  destruct (clear_file_ok first _ _ f1 f2 Hsize Hp1 Hp2) as (Hf2 & Hclear & Hent2). clear Hsize Hp2.
  destruct (flipOIDBlock_spec true 0 first (mkOID f2 io2 (vbOidDBRootMap s)) Hio2 ltac:(lia) ltac:(lia) ltac:(lia) Hf2)
    as (r & f3 & io3 & Hr3 & Hio3 & Hf3 & [S1 S2] & Hbits & Hc). cbn [o_file vbOidDBRootMap] in *.
  destruct r as [[]|e]; [|destruct Hc as [[_ ?]|(_ & o & Ho & Hb)]; [done|rewrite Hclear in Hb by lia; done]].
  rewrite (bind_ret _ _ _ _ _ Hr3). pose proof (fo_len _ Hf2) as Hlen2.
  assert (∀ o, 0 ≤ o < max_oids → oid_bit f3 o = (o <? first)) as Hb3.
  { intros o Ho. destruct (o <? first) eqn:Hlt; zbool; [exact (proj2 (Hc o ltac:(lia)))|].
    destruct (Hbits o Ho) as [_ Hb]. rewrite Hb by lia. by apply Hclear. }
  assert (∀ i, (entries f3).[i] = (entries f1).[i]) as Hent3.
  { intros i. rewrite <- Hent2. unfold entries. f_equal. f_equal. apply file_bytes_ext. intros o Ho. apply S2; [|lia]. unfold StartOfVBOidSection in *. lia. }
  assert (oid_inv f3) as Hinv3.
  { pose proof (first_header_written first _ f1 ltac:(lia) Hp1) as Hfh. setoid_rewrite <- Hent3 in Hfh. split; [done|..].
    - intros i fe Hi. destruct (Hfh i fe Hi) as [[_ ->]| ->]; [right; cbn; unfold max_oids in *; lia|by left].
    - intros i fe o Hi [H1 H2]. destruct (Hfh i fe Hi) as [[_ ->]| ->]; [|done]. cbn in H2.
      rewrite Hb3 by (unfold max_oids; lia). apply Z.ltb_ge. lia.
    - intros i j fe fe' o Hi Hj [H1 _] [H2 _]. destruct (Hfh i fe Hi) as [[-> _]| ->]; [|done].
      by destruct (Hfh j fe' Hj) as [[-> _]| ->]. }
  destruct (writeData_spec true [0; 0] StartOfVBOidSection (mkOID f3 io3 (vbOidDBRootMap s)) Hio3)
    as (r & f4 & io4 & p & Hw4 & Hio4 & Hp4 & Hc4). destruct Hc4 as [[-> ->]|[_ ?]]; [|done]. cbn [o_file vbOidDBRootMap] in *.
  destruct (wrote_behind _ _ _ _ _ Hf3 (Z.le_refl _) Hp4) as [Hs4 Hl4].
  exists f4, io4. split; [done|]. split; [done|]. split; [eapply inv_same_bitmap; [done..|]; by eapply file_same_bitmap|]. split.
  { intros o Ho. rewrite (bitmap_bits f3 f4 o Hs4 Ho). by apply Hb3. }
  intros Hm. pose proof (wrote_bytes _ _ _ _ Hp4) as Hb4. pose proof (wr_end _ _ _ _ _ Hp4 ltac:(done)) as He4.
  change (zlength [0; 0]) with 2 in *. split; cbn [o_file vbOidDBRootMap]; try done.
  - by rewrite Hb4.
  - intros i d Hi%zget_range. change (zlength (@nil Z)) with 0 in Hi. lia.
Qed.
