(* ===== verification/OidTheorems.v ===== *)
(** * What the object id server guarantees *)

From S2P Require Import Prelude BinFile OidServer OidProofs OidAlloc.

(** ** Sequences of requests *)

(** A restart loses the memory of the server and keeps the file. *)
Inductive oid_op :=
  | OAlloc (num : Z)
  | OAllocVB (dbroot : Z)
  | OReturn (start end_ : Z)
  | ORestart (io : list io_event).

(** One request: the block of ids it granted, if any. *)
Definition oid_step (o : oid_op) (s : OIDServer) : option (Z * Z) * OIDServer :=
  match o with
  | OAlloc num =>
      match allocOIDs num s with
      | (Ret r, s') => (if r =? -1 then None else Some (r, num), s')
      | (Exn _, s') => (None, s')
      end
  | OAllocVB dbroot => (None, (allocVBOID dbroot s).2)
  | OReturn start end_ => (None, (returnOIDs start end_ s).2)
  | ORestart io => (None, (newOIDServer None false (Some (o_file s)) io).2)
  end.

Fixpoint oid_run (ops : list oid_op) (s : OIDServer) : list (Z * Z) * OIDServer :=
  match ops with
  | [] => ([], s)
  | o :: ops' =>
      let '(g, s1) := oid_step o s in
      let '(gs, s2) := oid_run ops' s1 in
      (match g with Some b => b :: gs | None => gs end, s2)
  end.

Definition oid_op_ok (o : oid_op) : Prop :=
  match o with
  | OAlloc num => 1 ≤ num
  | OAllocVB dbroot => 0 ≤ dbroot < 2 ^ 16
  | OReturn _ _ | ORestart _ => True
  end.

Lemma behind_safe {A} (m : M OIDServer A) s :
  behind false m → oid_safe (o_file s) → oid_safe (o_file (m s).2) ∧ keeps_allocated (o_file s) (o_file (m s).2).
Proof.
  intros Hm Hi. destruct (Hm s (io_ok_any _) (os_file _ Hi)) as (r & s' & -> & _ & Hf' & Hs). cbn [snd].
  split; [by eapply safe_same_bitmap|]. intros o Ho. by rewrite (bitmap_bits _ _ o Hs Ho).
Qed.

Lemma oid_step_safe o s g s' :
  oid_safe (o_file s) → oid_op_ok o → oid_step o s = (g, s') →
  oid_safe (o_file s') ∧ keeps_allocated (o_file s) (o_file s') ∧ ∀ b, g = Some b → granted (o_file s) (o_file s') b.
Proof.
  intros Hi Hok Hs. destruct o as [num|d|a b|io]; cbn in Hok.
  - cbn in Hs. destruct (allocOIDs_safe num s Hok Hi) as (r & f' & io' & Hr & H1 & H2 & H3). rewrite Hr in Hs.
    destruct r as [x|e]; injection Hs as <- <-; (split; [done|]; split; [done|]); [|done].
    intros b Hb. destruct (x =? -1) eqn:Hm; [done|]. injection Hb as <-. zbool. by destruct (H3 x eq_refl).
  - injection Hs as <- <-. destruct (behind_safe (allocVBOID d) s (behind_allocVBOID _ _) Hi). done.
  - injection Hs as <- <-. split; [done|]. split; [by intros o Ho Hb|done].
  - injection Hs as <- <-. cbn [newOIDServer].
    destruct (behind_safe loadVBOIDs (mkOID (o_file s) io []) (behind_loadVBOIDs _) Hi). done.
Qed.

Lemma granted_le f f1 f2 b : keeps_allocated f1 f2 → granted f f1 b → granted f f2 b.
Proof.
  intros Hk (H1 & H2 & H3). split; [done|]. split; [done|]. intros o Ho. destruct (H3 o Ho) as [H4 H5]. split; [done|].
  apply Hk; [lia|done].
Qed.

Definition disjoint_blocks (b b' : Z * Z) : Prop := ∀ o, b.1 ≤ o < b.1 + b.2 → ¬ (b'.1 ≤ o < b'.1 + b'.2).

Lemma oid_run_safe ops s gs s' :
  oid_safe (o_file s) → Forall oid_op_ok ops → oid_run ops s = (gs, s') →
  oid_safe (o_file s') ∧ keeps_allocated (o_file s) (o_file s') ∧
  Forall (granted (o_file s) (o_file s')) gs ∧ ForallOrdPairs disjoint_blocks gs.
Proof.
  revert s gs s'. induction ops as [|o ops IH]; intros s gs s' Hi Hok Hr; cbn [oid_run] in Hr.
  { injection Hr as <- <-. split; [done|]. split; [by intros o|]. split; constructor. }
  apply Forall_cons in Hok as [Ho Hok]. destruct (oid_step o s) as [g s1] eqn:Hs.
  destruct (oid_step_safe o s g s1 Hi Ho Hs) as (Hi1 & Hk1 & Hg). destruct (oid_run ops s1) as [gs2 s2] eqn:Hr2.
  destruct (IH s1 gs2 s2 Hi1 Hok Hr2) as (Hi2 & Hk2 & Hall & Hpair). injection Hr as <- <-.
  split; [done|]. split; [by eapply keeps_trans|].
  assert (Forall (granted (o_file s) (o_file s2)) gs2) as Hall'.
  { eapply Forall_impl; [exact Hall|]. intros b Hb. by eapply granted_later. }
  destruct g as [b|]; [|done]. specialize (Hg b eq_refl). split; [constructor; [by eapply granted_le|done]|].
  constructor; [|done]. eapply Forall_impl; [exact Hall|]. intros b' (_ & _ & Hb') o' Ho' Ho2.
  destruct Hg as (_ & _ & Hg). destruct (Hg o' Ho') as [_ H1]. destruct (Hb' o' Ho2) as [H2 _]. by rewrite H1 in H2.
Qed.

(** ** A new server *)

Lemma newOIDServer_run cfg io :
  io_ok true io → 1 ≤ first_oid cfg < max_oids →
  ∃ s, newOIDServer cfg true None io = (Ret tt, s) ∧ io_ok true (o_io s) ∧ oid_inv (o_file s) ∧ vb_ok s ∧ vbOidDBRootMap s = [] ∧
    ∀ o, 0 ≤ o < max_oids → oid_bit (o_file s) o = (o <? first_oid cfg).
Proof.
  intros Hio Hf. unfold newOIDServer.
  destruct (initializeBitmap_spec cfg (mkOID (mkOFile 0 (fun _ => 0)) io []) Hio Hf) as (f & io1 & Hr & Hio1 & Hi & Hb & Hv).
  rewrite (bind_ret _ _ _ _ _ Hr). cbn [vbOidDBRootMap]. specialize (Hv eq_refl).
  destruct (loadVBOIDs_spec f io1 io1 [] Hio1 Hv) as (io2 & Hl & Hio2). exists (mkOID f io2 []). split; [done|].
  split_and!; try done. apply (vb_ok_same f io1 f io2 []); [done|lia|done].
Qed.

Lemma io_ok_nil quiet : io_ok quiet [].
Proof. constructor. Qed.

Definition oid_sample : OIDServer := (newOIDServer None true None []).2.

Lemma oid_sample_ok : io_ok true (o_io oid_sample) ∧ oid_inv (o_file oid_sample) ∧ vb_ok oid_sample ∧ vbOidDBRootMap oid_sample = [].
Proof.
  destruct (newOIDServer_run None []) as (s & Hr & Hio & Hi & Hv & Hm & _); [apply io_ok_nil|cbn; unfold max_oids; lia|].
  unfold oid_sample. rewrite Hr. clear Hr. done.
Qed.

(** ** Theorems *)

(** C11 No object id is given out twice: in any sequence of requests and restarts,
    whichever system calls are interrupted, fail or transfer only some of the bytes,
    the blocks granted are disjoint, lie in the id space and were free before; an
    allocated id stays allocated.  A write of the free list that stops inside a word
    may leave any range of ids there; what is kept is that the ranges lie in the id
    space and that the file holds the whole bitmap. *)
Theorem oids_never_twice ops s :
  oid_safe (o_file s) → Forall oid_op_ok ops →
  let '(gs, s') := oid_run ops s in
  oid_safe (o_file s') ∧ keeps_allocated (o_file s) (o_file s') ∧
  Forall (granted (o_file s) (o_file s')) gs ∧ ForallOrdPairs disjoint_blocks gs.
Proof.
  intros Hi Hok. destruct (oid_run ops s) as [gs s'] eqn:Hr. by destruct (oid_run_safe ops s gs s' Hi Hok Hr).
Qed.

Lemma oids_never_twice_witness :
  let ops := [OAlloc 10; OReturn 3000 3009; ORestart ([Interrupted; Partial 3] ++ replicate 20 Failed); OAlloc 5; OAlloc 7] in
  let '(gs, s') := oid_run ops oid_sample in
  oid_safe (o_file s') ∧ keeps_allocated (o_file oid_sample) (o_file s') ∧
  Forall (granted (o_file oid_sample) (o_file s')) gs ∧ ForallOrdPairs disjoint_blocks gs.
Proof.
  destruct oid_sample_ok as (_ & Hi & _). cbv zeta. apply oids_never_twice.
  - by apply oid_inv_safe.
  - clear Hi. repeat (apply Forall_cons; split); try done; try lia; try constructor.
Defined.

(** The place of a block: the shortest range of the free list that is long enough,
    or else the first run of free ids. *)
Definition chosen (f : OFile) (num x : Z) : Prop :=
  (∃ fe, fe ∈ entries f ∧ fe_begin fe ≠ -1 ∧ x = fe_begin fe ∧ num ≤ fe_size fe ∧
     ∀ fe', fe' ∈ entries f → fe_begin fe' ≠ -1 → num ≤ fe_size fe' → fe_size fe ≤ fe_size fe') ∨
  (∀ fe, fe ∈ entries f → fe_begin fe ≠ -1 → fe_size fe < num) ∧ first_run (oid_bit f) num x.

Lemma allocOIDs_chosen num s x s' :
  io_ok true (o_io s) → 1 ≤ num → oid_inv (o_file s) → allocOIDs num s = (Ret x, s') → x = -1 ∨ chosen (o_file s) num x.
Proof.
  intros Hio Hn Hinv. pose proof (fo_len _ (oi_file _ Hinv)) as Hlen. unfold allocOIDs.
  destruct (readData_spec true 0 HeaderSize s Hio) as (r & io1 & Hr & Hio1 & Hc); [done|unfold StartOfVBOidSection in *; lia|].
  destruct Hc as [-> |[-> _]]; [rewrite (bind_ret _ _ _ _ _ Hr)|by rewrite (bind_exn _ _ _ _ _ Hr)]. cbn zeta. fold (entries (o_file s)).
  pose proof (best_fit_spec num 0 (entries (o_file s)) None) as Hb. unfold chosen.
  destruct (best_fit num 0 (entries (o_file s)) None) as [[i fe]|].
  - destruct Hb as (Hin & Hsz & Hmin & _); [|done|].
    { intros y Hy Hby. destruct (entries_elem _ _ Hinv Hy) as [[?|Hs] _]; [done|]. unfold fe_size, max_oids in *. lia. }
    intros (a & s1 & _ & H2)%bind_inv. apply bind_inv in H2 as (? & ? & _ & [= <- <-]). right. left. exists fe.
    destruct Hin as [?|(k & _ & Hk & Hne)]; [done|]. split; [apply zget_elem_of; by exists k|]. done.
  - destruct Hb as [_ Hnone]; [|done|].
    { intros y Hy Hby. destruct (entries_elem _ _ Hinv Hy) as [[?|Hs] _]; [done|]. unfold fe_size, max_oids in *. lia. }
    unfold fullScan.
    destruct (scan_bitmap_spec true num (mkOID (o_file s) io1 (vbOidDBRootMap s)) Hn Hio1 (oi_file _ Hinv)) as (r & io2 & Hr2 & _ & Hc).
    intros (y & s1 & H1 & H2)%bind_inv. rewrite Hr2 in H1. injection H1 as -> <-. destruct y as [y|].
    + apply bind_inv in H2 as (? & ? & _ & H2). apply bind_inv in H2 as (? & ? & _ & [= <- <-]). right. right. split; [done|apply Hc].
    + injection H2 as <- _. by left.
Qed.

(** C14 When no system call fails, [allocOIDs] returns: -1 if the id space has no [num]
    consecutive free ids, and otherwise the first id of a free block, taken from the
    shortest range of the free list that is long enough or, without one, from the
    first run of free ids; exactly this block becomes allocated. *)
Theorem alloc_complete num s :
  io_ok true (o_io s) → 1 ≤ num → oid_inv (o_file s) →
  ∃ x s', allocOIDs num s = (Ret x, s') ∧ oid_inv (o_file s') ∧
    if bool_decide (x = -1) then
      no_run (oid_bit (o_file s)) num max_oids ∧ ∀ o, 0 ≤ o < max_oids → oid_bit (o_file s') o = oid_bit (o_file s) o
    else
      chosen (o_file s) num x ∧ clear_run (oid_bit (o_file s)) x num ∧ 0 ≤ x ∧ x + num ≤ max_oids ∧
      ∀ o, 0 ≤ o < max_oids → oid_bit (o_file s') o = oid_bit (o_file s) o || in_block x num o.
Proof.
  intros Hio Hn Hi. destruct (allocOIDs_spec num s Hio Hn Hi) as (x & f' & io' & Hr & _ & [H1 _ H4]).
  exists x, (mkOID f' io' (vbOidDBRootMap s)). split; [done|]. split; [done|].
  destruct H4 as [(-> & Hnr & Hb)|(Hx & Hmax & Hc & Hb)]; [by rewrite bool_decide_eq_true_2|].
  rewrite bool_decide_eq_false_2 by lia. destruct (allocOIDs_chosen num s x _ Hio Hn Hi Hr) as [?|Hch]; [lia|]. done.
Qed.

Lemma alloc_complete_witness :
  ∃ x s', allocOIDs 10 oid_sample = (Ret x, s') ∧ oid_inv (o_file s') ∧
    if bool_decide (x = -1) then
      no_run (oid_bit (o_file oid_sample)) 10 max_oids ∧
      ∀ o, 0 ≤ o < max_oids → oid_bit (o_file s') o = oid_bit (o_file oid_sample) o
    else
      chosen (o_file oid_sample) 10 x ∧ clear_run (oid_bit (o_file oid_sample)) x 10 ∧ 0 ≤ x ∧ x + 10 ≤ max_oids ∧
      ∀ o, 0 ≤ o < max_oids → oid_bit (o_file s') o = oid_bit (o_file oid_sample) o || in_block x 10 o.
Proof.
  destruct oid_sample_ok as (Hio & Hi & _). apply (alloc_complete 10 oid_sample); [exact Hio|lia|exact Hi].
Defined.

(** A server started without a bitmap file, for a system without extents: it has
    a whole file in which exactly the ids below [FirstOID] are allocated, and no
    version buffer files. *)
Theorem new_oid_server cfg io :
  io_ok true io → 1 ≤ first_oid cfg < max_oids →
  ∃ s, newOIDServer cfg true None io = (Ret tt, s) ∧ oid_inv (o_file s) ∧ vb_ok s ∧ vbOidDBRootMap s = [] ∧
    ∀ o, 0 ≤ o < max_oids → oid_bit (o_file s) o = (o <? first_oid cfg).
Proof.
  intros Hio Hf. destruct (newOIDServer_run cfg io Hio Hf) as (s & H1 & _ & H2). by exists s.
Qed.

Lemma new_oid_server_witness :
  ∃ s, newOIDServer (Some 5000) true None [Partial 1024; Interrupted] = (Ret tt, s) ∧ oid_inv (o_file s) ∧ vb_ok s ∧
    vbOidDBRootMap s = [] ∧ ∀ o, 0 ≤ o < max_oids → oid_bit (o_file s) o = (o <? 5000).
Proof.
  apply (new_oid_server (Some 5000) [Partial 1024; Interrupted]).
  - apply Forall_cons. split; [done|]. apply Forall_cons. split; [done|]. constructor.
  - by vm_compute.
Defined.

(** ** Version buffer files *)

Definition vb_dbroots (ops : list oid_op) : list Z := ops ≫= fun o => match o with OAllocVB d => [d] | _ => [] end.

(** A request when no call fails. *)
Definition op_quiet (o : oid_op) : Prop :=
  oid_op_ok o ∧ match o with ORestart io => io_ok true io | _ => True end.

Lemma oid_step_vb o s :
  io_ok true (o_io s) → oid_inv (o_file s) → vb_ok s → op_quiet o → zlength (vbOidDBRootMap s) + 1 < 2 ^ 16 →
  io_ok true (o_io (oid_step o s).2) ∧ oid_inv (o_file (oid_step o s).2) ∧ vb_ok (oid_step o s).2 ∧ vbOidDBRootMap (oid_step o s).2 = vbOidDBRootMap s ++ vb_dbroots [o].
Proof.
  intros Hio Hi Hv [Hok Hq] Hn. destruct o as [num|d|a b|io]; cbn in Hok, Hq; cbn [vb_dbroots mbind list_bind app]; rewrite ?app_nil_r.
  - destruct (allocOIDs_spec num s Hio Hok Hi) as (x & f' & io' & Hr & Hio' & [Hi' [T1 T2] _]).
    assert (vb_ok (mkOID f' io' (vbOidDBRootMap s))) as Hv'.
    { destruct s as [f io m]. apply (vb_ok_same f io f' io' m); [done|cbn in *; lia|done]. }
    unfold oid_step. by rewrite Hr.
  - destruct (allocVBOID_spec d s Hio Hi Hv Hok Hn) as (f' & io' & Hr & Hio' & Hi' & _ & Hv'). unfold oid_step. by rewrite Hr.
  - done.
  - destruct s as [f io0 m]. destruct (loadVBOIDs_spec f io io0 m Hq Hv) as (io' & Hr & Hio'). cbn [oid_step newOIDServer o_file].
    rewrite Hr. cbn. split; [done|]. split; [done|]. split; [|done]. apply (vb_ok_same f io0 f io' m); [done|lia|done].
Qed.

Lemma oid_run_vb ops s :
  io_ok true (o_io s) → oid_inv (o_file s) → vb_ok s → Forall op_quiet ops →
  zlength (vbOidDBRootMap s) + zlength ops < 2 ^ 16 →
  vb_ok (oid_run ops s).2 ∧ vbOidDBRootMap (oid_run ops s).2 = vbOidDBRootMap s ++ vb_dbroots ops.
Proof.
  revert s. induction ops as [|o ops IH]; intros s Hio Hi Hv Hok Hn; [cbn; by rewrite app_nil_r|].
  apply Forall_cons in Hok as [Ho Hok]. rewrite zlength_cons in Hn. pose proof (zlength_nonneg ops). cbn [oid_run].
  destruct (oid_step_vb o s Hio Hi Hv Ho ltac:(lia)) as (Hio1 & Hi1 & Hv1 & Hm1). destruct (oid_step o s) as [g s1] eqn:Hs. cbn [snd] in *.
  assert (zlength (vb_dbroots [o]) ≤ 1) as Hz by by destruct o.
  destruct (IH s1 Hio1 Hi1 Hv1 Hok) as [Hv2 Hm2].
  { rewrite Hm1. unfold zlength in *. rewrite length_app. lia. }
  destruct (oid_run ops s1) as [gs s2]. cbn [snd] in *. split; [done|]. rewrite Hm2, Hm1, <- app_assoc. f_equal.
  unfold vb_dbroots. cbn [mbind list_bind]. by rewrite app_nil_r.
Qed.

(** The DBRoots of the version buffer files survive: when no system call fails, any
    sequence of requests and restarts leaves the table of a server and its file in
    agreement, and a server started from the file has the DBRoot of every version
    buffer id ever allocated, in the order of allocation. *)
Theorem vboids_survive_restart ops s cfg emEmpty io :
  io_ok true (o_io s) → oid_inv (o_file s) → vb_ok s → Forall op_quiet ops →
  zlength (vbOidDBRootMap s) + zlength ops < 2 ^ 16 → io_ok true io →
  let f' := o_file (oid_run ops s).2 in
  ∃ io', newOIDServer cfg emEmpty (Some f') io = (Ret tt, mkOID f' io' (vbOidDBRootMap s ++ vb_dbroots ops)) ∧
    ∀ i d, (vbOidDBRootMap s ++ vb_dbroots ops).[i] = Some d →
      getDBRootOfVBOID i (mkOID f' io' (vbOidDBRootMap s ++ vb_dbroots ops)) = d.
Proof.
  intros Hio Hi Hv Hok Hn Hio0 f'. destruct (oid_run_vb ops s Hio Hi Hv Hok Hn) as [Hv' Hm']. rewrite <- Hm'.
  subst f'. destruct (oid_run ops s).2 as [f io1 m]. cbn [o_file vbOidDBRootMap] in *.
  destruct (loadVBOIDs_spec f io io1 m Hio0 Hv') as (io' & Hr & _). exists io'. split; [done|].
  intros i d Hd. pose proof (zget_range _ _ _ Hd). unfold getDBRootOfVBOID. cbn [vbOidDBRootMap].
  assert (zlength m <=? i = false) as -> by (apply Z.leb_gt; lia). by rewrite Hd.
Qed.

Lemma vboids_survive_restart_witness :
  let f' := o_file (oid_run [OAllocVB 1; OAlloc 20; OAllocVB 2] oid_sample).2 in
  ∃ io', newOIDServer None false (Some f') [Interrupted] = (Ret tt, mkOID f' io' (vbOidDBRootMap oid_sample ++ [1; 2])) ∧
    ∀ i d, (vbOidDBRootMap oid_sample ++ [1; 2]).[i] = Some d →
      getDBRootOfVBOID i (mkOID f' io' (vbOidDBRootMap oid_sample ++ [1; 2])) = d.
Proof.
  destruct oid_sample_ok as (Hio & Hi & Hv & Hm).
  apply (vboids_survive_restart [OAllocVB 1; OAlloc 20; OAllocVB 2] oid_sample None false [Interrupted]).
  - exact Hio.
  - exact Hi.
  - exact Hv.
  - repeat constructor; cbn; lia.
  - rewrite Hm. reflexivity.
  - repeat constructor.
Defined.

(** ** What goes wrong when a write fails *)

(** A file of an empty system, without the ids before the first. *)
Definition oid_file1 : OFile := mkOFile (StartOfVBOidSection + 2) (fun _ => 0).

(** The count of the version buffer files is written before the entry: when writing
    the entry fails, a restart reads past the end of the file. *)
Lemma allocVBOID_torn :
  let io := [Partial 4; Partial 4; Partial 4] ++ replicate 10 Failed in
  let '(r, s) := allocVBOID 1 (mkOID oid_file1 io []) in
  r = Exn IosFailure ∧ vbOidDBRootMap s = [] ∧
  (newOIDServer None false (Some (o_file s)) []).1 = Exn EofException.
Proof. by vm_compute. Qed.

(** A seek that succeeds at the tenth try counts as a failure. *)
Lemma tenth_seek_fails :
  (readData 0 4 (mkOID oid_file1 (replicate 9 Failed) [])).1 = Exn IosFailure ∧
  (readData 0 4 (mkOID oid_file1 (replicate 8 Failed) [])).1 = Ret [0; 0; 0; 0].
Proof. by vm_compute. Qed.
