(* ===== verification/TableLock.v ===== *)
(** * Table locks ([tablelockserver.cpp], [TableLockInfo] of [brmtypes.cpp])

    The controller grants locks on tables, per set of DBRoots, keeps them in a
    file, and rolls a change back when the file cannot be written. *)

From S2P Require Import Prelude BinFile StdMap Session.

(** ** [TableLockInfo] *)

(** [LockState] *)
Definition LOADING : Z := 0.
Definition CLEANUP : Z := 1.

Record TableLockInfo := mkTLI {
  tli_id : Z;
  tableOID : Z;
  ownerName : list Z;
  ownerPID : Z;
  ownerSessionID : Z;
  ownerTxnID : Z;
  tli_state : Z;
  creationTime : Z;
  dbrootList : list Z;
}.

#[global] Instance TableLockInfo_eq_dec : EqDecision TableLockInfo.
Proof. solve_decision. Defined.

(** [TableLockInfo::overlaps] *)
Definition overlaps (self t : TableLockInfo) (sDbrootList : gset Z) : bool :=
  if negb (tableOID self =? tableOID t) then false
  else existsb (fun d => bool_decide (d ∈ sDbrootList)) (dbrootList self).

(** [TableLockInfo::serialize(ostream &)] *)
Definition tli_serialize (t : TableLockInfo) : list Z :=
  let nameLen := u16 (zlength (ownerName t)) in
  let dbrootListSize := u16 (zlength (dbrootList t)) in
  le_bytes 8 (tli_id t) ++ le_bytes 4 (tableOID t) ++ le_bytes 4 (ownerPID t) ++
  le_bytes 4 (tli_state t) ++ le_bytes 4 (ownerSessionID t) ++ le_bytes 4 (ownerTxnID t) ++
  le_bytes 8 (creationTime t) ++ le_bytes 2 nameLen ++ take (Z.to_nat nameLen) (ownerName t) ++
  le_bytes 2 dbrootListSize ++ (take (Z.to_nat dbrootListSize) (dbrootList t) ≫= le_bytes 4).

(** [i.read(p, n)] on a stream that throws when it fails. *)
Definition read_throw (n : nat) (f : list Z) : outcome (list Z * list Z) :=
  match read n f with Some r => Ret r | None => Exn IosFailure end.

(** [for (j = 0; j < dbrootListSize; j++) i.read(&dbrootList[j], 4)] *)
Fixpoint read_words (n : nat) (f : list Z) : outcome (list Z * list Z) :=
  match n with
  | O => Ret ([], f)
  | S n' =>
      '(w, f1) ← read_throw 4 f;
      '(ws, f2) ← read_words n' f1;
      Ret (get_u w :: ws, f2)
  end.

(** [TableLockInfo::deserialize(istream &)]: the record and the rest of the file. *)
Definition tli_deserialize (f : list Z) : outcome (TableLockInfo * list Z) :=
  '(b1, f) ← read_throw 8 f;
  '(b2, f) ← read_throw 4 f;
  '(b3, f) ← read_throw 4 f;
  '(b4, f) ← read_throw 4 f;
  '(b5, f) ← read_throw 4 f;
  '(b6, f) ← read_throw 4 f;
  '(b7, f) ← read_throw 8 f;
  '(b8, f) ← read_throw 2 f;
  '(name, f) ← read_throw (Z.to_nat (get_u b8)) f;
  '(b9, f) ← read_throw 2 f;
  '(roots, f) ← read_words (Z.to_nat (get_u b9)) f;
  Ret (mkTLI (get_u b1) (get_u b2) name (get_u b3) (get_s b5) (get_s b6) (get_u b4) (get_s b7) roots, f).

(** ** The server *)

Record TableLockServer := mkTLS {
  tl_locks : list (Z * TableLockInfo);
  tl_file : option (list Z);
  tl_sms : SessionManagerServer;
}.

Definition set_locks (l : list (Z * TableLockInfo)) (s : TableLockServer) : TableLockServer :=
  mkTLS l (tl_file s) (tl_sms s).
Definition set_tl_file (f : option (list Z)) (s : TableLockServer) : TableLockServer :=
  mkTLS (tl_locks s) f (tl_sms s).

(** The file of a lock table. *)
Definition tl_bytes (l : list (Z * TableLockInfo)) : list Z :=
  le_bytes 4 (u32 (zlength l)) ++ (l ≫= fun kt => tli_serialize kt.2).

(** [TableLockServer::save]: the stream is tested before each lock is written and
    not after the last, so a failure of the last write goes unnoticed; on HDFS the
    test is of the pointer to the file, and no failed write is noticed. *)
Definition tl_save (w : io) : M TableLockServer unit := fun s =>
  let tested (r : outcome unit) := if useHdfs (tl_sms s) then Ret tt else r in
  match w with
  | IoOk => (Ret tt, set_tl_file (Some (tl_bytes (tl_locks s))) s)
  | IoOpenFails => (Exn RuntimeError, s)
  | IoFirstWriteFails =>
      (tested (match tl_locks s with [] => Ret tt | _ => Exn RuntimeError end), set_tl_file (Some []) s)
  | IoSecondWriteFails =>
      (tested (match tl_locks s with [] | [_] => Ret tt | _ => Exn RuntimeError end),
       set_tl_file (Some (le_bytes 4 (u32 (zlength (tl_locks s))))) s)
  end.

(** [try { save(); } catch (...) { undo; throw; }] *)
Definition save_or (w : io) (undo : TableLockServer → TableLockServer) : M TableLockServer unit := fun s =>
  match tl_save w s with
  | (Ret tt, s') => (Ret tt, s')
  | (Exn e, s') => (Exn e, undo s')
  end.

(** [sms->getUnique64()], again when it is 0, which is an error code. *)
Definition fresh_id : M TableLockServer Z :=
  let get := zoom tl_sms (fun m s => mkTLS (tl_locks s) (tl_file s) m) getUnique64 in
  id ← get;
  if id =? 0 then get else mret id.

Definition with_id (id : Z) (t : TableLockInfo) : TableLockInfo :=
  mkTLI id (tableOID t) (ownerName t) (ownerPID t) (ownerSessionID t) (ownerTxnID t) (tli_state t)
    (creationTime t) (dbrootList t).
Definition with_owner (name : list Z) (pid session txn : Z) (t : TableLockInfo) : TableLockInfo :=
  mkTLI (tli_id t) (tableOID t) name pid session txn (tli_state t) (creationTime t) (dbrootList t).
Definition with_state (st : Z) (t : TableLockInfo) : TableLockInfo :=
  mkTLI (tli_id t) (tableOID t) (ownerName t) (ownerPID t) (ownerSessionID t) (ownerTxnID t) st
    (creationTime t) (dbrootList t).

(** The loop of [TableLockServer::load]. *)
Fixpoint load_locks (n : nat) (f : list Z) : M TableLockServer unit :=
  match n with
  | O => mret tt
  | S n' =>
      '(t, f') ← lift (tli_deserialize f);
      id ← fresh_id;
      modify (fun s => set_locks (smap_set id (with_id id t) (tl_locks s)) s) ≫= fun _ =>
      load_locks n' f'
  end.

(** [TableLockServer::load] from a local file. *)
Definition tl_load : M TableLockServer unit :=
  s ← gets id;
  match tl_file s with
  | None => mret tt
  | Some f =>
      '(b, f') ← lift (read_throw 4 f);
      load_locks (Z.to_nat (get_u b)) f'
  end.

(** [TableLockServer::TableLockServer] *)
Definition newTableLockServer (f : option (list Z)) (sm : SessionManagerServer)
    : outcome unit * TableLockServer := tl_load (mkTLS [] f sm).

(** The lock in the way of [tli], the first in the order of the map. *)
Definition conflict (tli : TableLockInfo) (l : list (Z * TableLockInfo)) : option TableLockInfo :=
  snd <$> List.find (fun kt => overlaps kt.2 tli (list_to_set (dbrootList tli))) l.

(** [TableLockServer::lock]: the id, 0 for a refusal, and the caller's record,
    which tells who holds the lock in the way. *)
Definition tl_lock (w : io) (tli : TableLockInfo) : M TableLockServer (Z * TableLockInfo) :=
  s ← gets id;
  match conflict tli (tl_locks s) with
  | Some t =>
      mret (0, with_owner (ownerName t) (ownerPID t) (ownerSessionID t) (ownerTxnID t) tli)
  | None =>
      id ← fresh_id;
      modify (fun s => set_locks (smap_set id (with_id id tli) (tl_locks s)) s) ≫= fun _ =>
      save_or w (fun s => set_locks (smap_erase id (tl_locks s)) s) ≫= fun _ =>
      mret (id, with_id id tli)
  end.

(** [TableLockServer::unlock] *)
Definition tl_unlock (w : io) (id : Z) : M TableLockServer bool :=
  s ← gets Datatypes.id;
  match smap_find id (tl_locks s) with
  | Some tli =>
      modify (fun s => set_locks (smap_erase id (tl_locks s)) s) ≫= fun _ =>
      save_or w (fun s => set_locks (smap_set (tli_id tli) tli (tl_locks s)) s) ≫= fun _ =>
      mret true
  | None => mret false
  end.

(** The change of one lock in place, with its undoing. *)
Definition change_lock (w : io) (id : Z) (f undo : TableLockInfo → TableLockInfo)
    : M TableLockServer bool :=
  s ← gets Datatypes.id;
  match smap_find id (tl_locks s) with
  | None => mret false
  | Some t =>
      modify (fun s => set_locks (smap_set id (f t) (tl_locks s)) s) ≫= fun _ =>
      save_or w (fun s => set_locks (smap_set id (undo (f t)) (tl_locks s)) s) ≫= fun _ =>
      mret true
  end.

(** [TableLockServer::changeState] *)
Definition changeState (w : io) (id state : Z) : M TableLockServer bool :=
  s ← gets Datatypes.id;
  let old := default 0 (tli_state <$> smap_find id (tl_locks s)) in
  change_lock w id (with_state state) (with_state old).

(** [TableLockServer::changeOwner] *)
Definition changeOwner (w : io) (id : Z) (name : list Z) (pid session txnID : Z) : M TableLockServer bool :=
  s ← gets Datatypes.id;
  match smap_find id (tl_locks s) with
  | None => mret false
  | Some t =>
      change_lock w id (with_owner name pid session txnID)
        (with_owner (ownerName t) (ownerPID t) (ownerSessionID t) (ownerTxnID t))
  end.

(** [TableLockServer::getAllLocks], [getLockInfo] *)
Definition getAllLocks (s : TableLockServer) : list TableLockInfo := snd <$> tl_locks s.
Definition getLockInfo (id : Z) (s : TableLockServer) : option TableLockInfo := smap_find id (tl_locks s).

(** [TableLockServer::releaseAllLocks] *)
Definition releaseAllLocks (w : io) : M TableLockServer unit :=
  s ← gets id;
  modify (set_locks []) ≫= fun _ =>
  save_or w (set_locks (tl_locks s)).
