(* ===== verification/TableLockProofs.v ===== *)
(** * Correctness of the table locks

    No two locks of the table conflict after any sequence of operations, failed
    saves included; a failed save leaves the locks as they were; the file gives
    the locks back. *)

From S2P Require Import Prelude BinFile StdMap Session SessionProofs TableLock.

Implicit Types (s : TableLockServer) (t : TableLockInfo).

(** Two locks on one table that share a DBRoot. *)
Definition conflicting t1 t2 : Prop :=
  tableOID t1 = tableOID t2 ∧ ∃ d, d ∈ dbrootList t1 ∧ d ∈ dbrootList t2.

Record tl_inv s : Prop := mkTlInv {
  ti_map : smap_ok (tl_locks s);
  ti_unique : 0 ≤ unique64 (tl_sms s) < 2 ^ 64;
  ti_ids k t : (k, t) ∈ tl_locks s → tli_id t = k ∧ 0 < k ≤ unique64 (tl_sms s);
  ti_excl k1 t1 k2 t2 :
    (k1, t1) ∈ tl_locks s → (k2, t2) ∈ tl_locks s → k1 ≠ k2 → ¬ conflicting t1 t2;
}.

Lemma overlaps_spec self t : overlaps self t (list_to_set (dbrootList t)) = true ↔ conflicting self t.
Proof.
  unfold overlaps, conflicting. destruct (Z.eqb_spec (tableOID self) (tableOID t)) as [Heq|Hne]; cbn; [|naive_solver].
  rewrite existsb_exists. split.
  - intros (d & Hd%list_elem_of_In & Hs%bool_decide_eq_true). split; [done|]. exists d.
    by rewrite elem_of_list_to_set in Hs.
  - intros (_ & d & Hd & Hd'). exists d. split; [by apply list_elem_of_In|].
    apply bool_decide_eq_true. by rewrite elem_of_list_to_set.
Qed.

Lemma conflict_spec t l :
  match conflict t l with
  | Some t' => ∃ k, (k, t') ∈ l ∧ conflicting t' t
  | None => ∀ k t', (k, t') ∈ l → ¬ conflicting t' t
  end.
Proof.
  unfold conflict. destruct (List.find _ l) as [[k t']|] eqn:Hf; cbn.
  - apply find_some in Hf as [Hin%list_elem_of_In Ho]. exists k. split; [done|]. by apply overlaps_spec.
  - intros k t' Hin Hc. apply overlaps_spec in Hc.
    apply list_elem_of_In in Hin. pose proof (find_none _ _ Hf (k, t') Hin) as Hn. cbn in Hn. congruence.
Qed.

Lemma conflicting_sym t1 t2 : conflicting t1 t2 → conflicting t2 t1.
Proof. intros (? & d & ? & ?). split; [done|]. by exists d. Qed.

(** ** Saving *)

Lemma set_same_locks s : set_locks (tl_locks s) s = s.
Proof. by destruct s. Qed.

Lemma tl_save_run w s :
  ∃ r f, tl_save w s = (r, set_tl_file f s) ∧ (w = IoOk → r = Ret tt) ∧
         (r = Ret tt ∨ r = Exn RuntimeError).
Proof.
  destruct w; cbn [tl_save]; cbv zeta.
  - eexists _, _. split; [reflexivity|]. auto.
  - exists (Exn RuntimeError), (tl_file s). split; [by destruct s|]. split; [done|]. by right.
  - eexists _, _. split; [reflexivity|]. split; [done|]. destruct (useHdfs _), (tl_locks s); auto.
  - eexists _, _. split; [reflexivity|]. split; [done|]. destruct (useHdfs _), (tl_locks s) as [|? []]; auto.
Qed.

(** A change of the locks that is saved, or undone. *)
Lemma save_or_run w undo s :
  ∃ f, (save_or w undo s = (Ret tt, set_tl_file f s)) ∨
       (save_or w undo s = (Exn RuntimeError, undo (set_tl_file f s)) ∧ w ≠ IoOk).
Proof.
  destruct (tl_save_run w s) as (r & f & Hr & Hok & [->| ->]); exists f; unfold save_or; rewrite Hr; [by left|].
  right. split; [done|]. intros ->. by specialize (Hok eq_refl).
Qed.

(** ** Fresh ids *)

Definition took_id s : TableLockServer :=
  mkTLS (tl_locks s) (tl_file s) (getUnique64 (tl_sms s)).2.

Lemma fresh_id_run s :
  0 ≤ unique64 (tl_sms s) < 2 ^ 64 - 1 →
  fresh_id s = (Ret (unique64 (tl_sms s) + 1), took_id s) ∧
  unique64 (tl_sms (took_id s)) = unique64 (tl_sms s) + 1.
Proof.
  intros Hu. assert (u64 (unique64 (tl_sms s) + 1) = unique64 (tl_sms s) + 1) as Hw by (apply wrap_u_small; lia).
  split; [|cbn; done].
  unfold fresh_id. erewrite bind_ret by (unfold zoom, getUnique64; reflexivity).
  rewrite Hw. assert (unique64 (tl_sms s) + 1 =? 0 = false) as -> by (apply Z.eqb_neq; lia).
  unfold mret, M_ret, took_id. cbn [getUnique64 snd]. by rewrite Hw.
Qed.

(** ** The operations *)

Definition added (t : TableLockInfo) s : TableLockServer :=
  let id := unique64 (tl_sms s) + 1 in
  set_locks (smap_set id (with_id id t) (tl_locks s)) (took_id s).

Lemma fresh_key s k : tl_inv s → unique64 (tl_sms s) < k → smap_find k (tl_locks s) = None.
Proof.
  intros Hs Hk. destruct (smap_find k (tl_locks s)) as [t|] eqn:Hf; [|done].
  apply smap_find_elem in Hf; [|apply Hs]. apply (ti_ids _ Hs) in Hf. lia.
Qed.

Lemma added_inv t s :
  tl_inv s → unique64 (tl_sms s) < 2 ^ 64 - 1 → (∀ k t', (k, t') ∈ tl_locks s → ¬ conflicting t' t) →
  tl_inv (added t s).
Proof.
  intros [Hm Hu Hids Hex] Hlt Hno. destruct (fresh_id_run s ltac:(lia)) as [_ Hu'].
  assert (unique64 (tl_sms (added t s)) = unique64 (tl_sms s) + 1) as Hu2 by exact Hu'.
  set (id := unique64 (tl_sms s) + 1) in *.
  assert (tl_locks (added t s) = smap_set id (with_id id t) (tl_locks s)) as Hl by done.
  split; rewrite ?Hu2, ?Hl.
  - by apply smap_set_ok.
  - lia.
  - intros k t'. rewrite smap_set_elem by done. intros [[-> ->]|[_ Hin]]; [split; [done|lia]|].
    apply Hids in Hin. split; [apply Hin|lia].
  - intros k1 t1 k2 t2. rewrite !smap_set_elem by done.
    intros [[-> ->]|[_ H1]] [[-> ->]|[_ H2]] Hne; [done|..].
    + intros Hc%conflicting_sym. by apply (Hno k2 t2).
    + intros Hc. by apply (Hno k1 t1).
    + by apply (Hex k1 t1 k2 t2).
Qed.

Lemma tl_inv_file f s : tl_inv s → tl_inv (set_tl_file f s).
Proof. by intros []. Qed.

Lemma tl_inv_took s : tl_inv s → unique64 (tl_sms s) < 2 ^ 64 - 1 → tl_inv (took_id s).
Proof.
  intros [Hm Hu Hids Hex] Hlt. destruct (fresh_id_run s ltac:(lia)) as [_ Hu'].
  split; rewrite ?Hu'; try done; [lia|]. intros k t Hin. apply Hids in Hin. lia.
Qed.

(** [lock]: refused when a lock conflicts; otherwise granted under a fresh id, or
    the failure of the file is reported and the locks are as before. *)
Lemma tl_lock_spec w t s :
  tl_inv s → unique64 (tl_sms s) < 2 ^ 64 - 1 →
  match conflict t (tl_locks s) with
  | Some t' =>
      tl_lock w t s =
        (Ret (0, with_owner (ownerName t') (ownerPID t') (ownerSessionID t') (ownerTxnID t') t), s)
  | None =>
      ∃ r s', tl_lock w t s = (r, s') ∧ tl_inv s' ∧
        let id := unique64 (tl_sms s) + 1 in
        (r = Ret (id, with_id id t) ∧ tl_locks s' = smap_set id (with_id id t) (tl_locks s) ∨
         r = Exn RuntimeError ∧ tl_locks s' = tl_locks s ∧ w ≠ IoOk)
  end.
Proof.
  intros Hs Hlt. pose proof (ti_unique _ Hs) as Hu.
  change (tl_lock w t s) with
    (match conflict t (tl_locks s) with
     | Some t' => mret (0, with_owner (ownerName t') (ownerPID t') (ownerSessionID t') (ownerTxnID t') t)
     | None =>
         id ← fresh_id;
         modify (fun s => set_locks (smap_set id (with_id id t) (tl_locks s)) s) ≫= fun _ =>
         save_or w (fun s => set_locks (smap_erase id (tl_locks s)) s) ≫= fun _ =>
         mret (id, with_id id t)
     end s).
  pose proof (conflict_spec t (tl_locks s)) as Hc. destruct (conflict t (tl_locks s)) as [t'|]; [done|].
  destruct (fresh_id_run s ltac:(lia)) as [Hfr _]. rewrite (bind_ret _ _ _ _ _ Hfr).
  set (id := unique64 (tl_sms s) + 1). erewrite bind_ret by reflexivity.
  change (set_locks _ (took_id s)) with (added t s).
  destruct (save_or_run w (fun s => set_locks (smap_erase id (tl_locks s)) s) (added t s))
    as [f [Hr|[Hr Hw]]].
  - rewrite (bind_ret _ _ _ _ _ Hr). eexists _, _. split; [reflexivity|].
    split; [by apply tl_inv_file, added_inv|]. by left.
  - rewrite (bind_exn _ _ _ _ _ Hr). eexists _, _. split; [reflexivity|].
    assert (smap_erase id (tl_locks (set_tl_file f (added t s))) = tl_locks s) as Herase.
    { cbn. apply smap_erase_set; [apply Hs|]. apply fresh_key; [done|]. unfold id. lia. }
    rewrite Herase. split; [|by right].
    exact (tl_inv_file f _ (tl_inv_took s Hs Hlt)).
Qed.

Lemma tl_inv_erase id s : tl_inv s → tl_inv (set_locks (smap_erase id (tl_locks s)) s).
Proof.
  intros [Hm Hu Hids Hex].
  assert (∀ k t, (k, t) ∈ smap_erase id (tl_locks s) → (k, t) ∈ tl_locks s) as Hsub.
  { intros k t. unfold smap_erase. rewrite !list_elem_of_In, filter_In. by intros []. }
  split; cbn; [by apply smap_erase_ok|done|..].
  - intros k t Hin. by apply Hids, Hsub.
  - intros k1 t1 k2 t2 H1 H2. eapply Hex; by apply Hsub.
Qed.

Lemma tl_unlock_spec w id s :
  tl_inv s →
  (smap_find id (tl_locks s) = None ∧ tl_unlock w id s = (Ret false, s)) ∨
  ∃ r s', tl_unlock w id s = (r, s') ∧ tl_inv s' ∧
    (r = Ret true ∧ tl_locks s' = smap_erase id (tl_locks s) ∨
     r = Exn RuntimeError ∧ tl_locks s' = tl_locks s ∧ w ≠ IoOk).
Proof.
  intros Hs. unfold tl_unlock. change (gets Datatypes.id) with (gets (S := TableLockServer) (fun s => s)).
  erewrite bind_ret by reflexivity. cbv beta.
  destruct (smap_find id (tl_locks s)) as [t|] eqn:Hf; [|by left]. right.
  erewrite bind_ret by reflexivity. set (s1 := set_locks _ s).
  destruct (save_or_run w (fun s => set_locks (smap_set (tli_id t) t (tl_locks s)) s) s1) as [f [Hr|[Hr Hw]]].
  - rewrite (bind_ret _ _ _ _ _ Hr). eexists _, _. split; [reflexivity|].
    split; [by apply tl_inv_file, tl_inv_erase|]. by left.
  - rewrite (bind_exn _ _ _ _ _ Hr). eexists _, _. split; [reflexivity|].
    pose proof Hf as Hin. apply smap_find_elem in Hin; [|apply Hs]. apply (ti_ids _ Hs) in Hin as [-> _].
    assert (smap_set id t (tl_locks (set_tl_file f s1)) = tl_locks s) as Hset.
    { cbn. apply smap_set_erase; [apply Hs|done]. }
    rewrite Hset. split; [|by right]. exact (tl_inv_file f s Hs).
Qed.

(** A change that keeps what conflicts are made of. *)
Lemma tl_inv_change id t t' s :
  tl_inv s → smap_find id (tl_locks s) = Some t →
  tli_id t' = tli_id t → tableOID t' = tableOID t → dbrootList t' = dbrootList t →
  tl_inv (set_locks (smap_set id t' (tl_locks s)) s).
Proof.
  intros [Hm Hu Hids Hex] Hf Hi Ho Hd. apply smap_find_elem in Hf as Hin; [|done].
  assert (∀ t2, conflicting t' t2 ↔ conflicting t t2) as Hc.
  { intros t2. unfold conflicting. by rewrite Ho, Hd. }
  split; cbn [tl_locks set_locks tl_sms]; [by apply smap_set_ok|done|..].
  - intros k t2. rewrite smap_set_elem by done. intros [[-> ->]|[_ H2]]; [rewrite Hi|]; by apply Hids.
  - intros k1 t1 k2 t2. rewrite !smap_set_elem by done.
    intros [[-> ->]|[_ H1]] [[-> ->]|[_ H2]] Hne; [done|..].
    + rewrite Hc. by apply (Hex id t k2 t2).
    + intros Hx%conflicting_sym. rewrite Hc in Hx. by apply (Hex id t k1 t1 Hin H1 (not_eq_sym Hne)).
    + by apply (Hex k1 t1 k2 t2).
Qed.

Lemma smap_set_set {V} k (v v' : V) m : smap_ok m → smap_set k v (smap_set k v' m) = smap_set k v m.
Proof.
  induction m as [|[k1 v1] m IH]; cbn; intros Hm; [by rewrite Z.ltb_irrefl, Z.eqb_refl|].
  destruct (Z.ltb_spec k k1); cbn; [by rewrite Z.ltb_irrefl, Z.eqb_refl|].
  destruct (Z.eqb_spec k k1); cbn.
  - by rewrite Z.ltb_irrefl, Z.eqb_refl.
  - assert (k <? k1 = false) as -> by (apply Z.ltb_ge; lia).
    assert (k =? k1 = false) as -> by (by apply Z.eqb_neq). f_equal. apply IH. by eapply smap_above_ok.
Qed.

Lemma smap_set_id {V} k (v : V) m : smap_ok m → smap_find k m = Some v → smap_set k v m = m.
Proof.
  induction m as [|[k1 v1] m IH]; cbn; [done|]. intros Hm Hf.
  destruct (Z.eqb_spec k k1) as [->|Hne]; [simplify_eq; by rewrite Z.ltb_irrefl|].
  destruct (Z.ltb_spec k k1).
  - rewrite (smap_above_find k1) in Hf by (done || lia). done.
  - f_equal. apply IH; [by eapply smap_above_ok|done].
Qed.

(** What [changeState] and [changeOwner] come to. *)
Lemma change_lock_spec w id f undo s :
  tl_inv s →
  (∀ t, tli_id (f t) = tli_id t ∧ tableOID (f t) = tableOID t ∧ dbrootList (f t) = dbrootList t) →
  (∀ t, smap_find id (tl_locks s) = Some t → undo (f t) = t) →
  match smap_find id (tl_locks s) with
  | None => change_lock w id f undo s = (Ret false, s)
  | Some t =>
      ∃ r s', change_lock w id f undo s = (r, s') ∧ tl_inv s' ∧
        (r = Ret true ∧ tl_locks s' = smap_set id (f t) (tl_locks s) ∨
         r = Exn RuntimeError ∧ tl_locks s' = tl_locks s ∧ w ≠ IoOk)
  end.
Proof.
  intros Hs Hkeep Hundo. unfold change_lock.
  change (gets Datatypes.id) with (gets (S := TableLockServer) (fun s => s)).
  erewrite bind_ret by reflexivity. cbv beta.
  destruct (smap_find id (tl_locks s)) as [t|] eqn:Hf; [|done].
  erewrite bind_ret by reflexivity. set (s1 := set_locks _ s).
  destruct (Hkeep t) as (Hi & Ho & Hd).
  destruct (save_or_run w (fun s => set_locks (smap_set id (undo (f t)) (tl_locks s)) s) s1) as [g [Hr|[Hr Hw]]].
  - rewrite (bind_ret _ _ _ _ _ Hr). eexists _, _. split; [reflexivity|].
    split; [by apply tl_inv_file; eapply tl_inv_change|]. by left.
  - rewrite (bind_exn _ _ _ _ _ Hr). eexists _, _. split; [reflexivity|]. rewrite (Hundo t eq_refl).
    assert (smap_set id t (tl_locks (set_tl_file g s1)) = tl_locks s) as Hset.
    { cbn. rewrite smap_set_set by apply Hs. apply smap_set_id; [apply Hs|done]. }
    rewrite Hset. split; [|by right]. exact (tl_inv_file g s Hs).
Qed.

Lemma changeState_inv w id st s r s' : tl_inv s → changeState w id st s = (r, s') → tl_inv s'.
Proof.
  intros Hs Hr. unfold changeState in Hr.
  change (gets Datatypes.id) with (gets (S := TableLockServer) (fun s => s)) in Hr.
  erewrite bind_ret in Hr by reflexivity. cbv beta zeta in Hr.
  pose proof (change_lock_spec w id (with_state st)
    (with_state (default 0 (tli_state <$> smap_find id (tl_locks s)))) s Hs) as Hc.
  destruct (smap_find id (tl_locks s)) as [t|].
  - destruct Hc as (r1 & s1 & Hr1 & Hs1 & _); [done|intros ? [= <-]; by destruct t|].
    rewrite Hr in Hr1. by simplify_eq.
  - rewrite Hc in Hr by done. by simplify_eq.
Qed.

Lemma changeOwner_inv w id name pid ses txn s r s' :
  tl_inv s → changeOwner w id name pid ses txn s = (r, s') → tl_inv s'.
Proof.
  intros Hs Hr. unfold changeOwner in Hr.
  change (gets Datatypes.id) with (gets (S := TableLockServer) (fun s => s)) in Hr.
  erewrite bind_ret in Hr by reflexivity. cbv beta in Hr.
  destruct (smap_find id (tl_locks s)) as [t|] eqn:Hf; [|unfold mret, M_ret in Hr; by simplify_eq].
  pose proof (change_lock_spec w id (with_owner name pid ses txn)
    (with_owner (ownerName t) (ownerPID t) (ownerSessionID t) (ownerTxnID t)) s Hs) as Hc.
  rewrite Hf in Hc. destruct Hc as (r1 & s1 & Hr1 & Hs1 & _); [done|intros ? [= <-]; by destruct t|].
  rewrite Hr in Hr1. by simplify_eq.
Qed.

Lemma releaseAllLocks_spec w s :
  tl_inv s →
  ∃ r s', releaseAllLocks w s = (r, s') ∧ tl_inv s' ∧
    (r = Ret tt ∧ tl_locks s' = [] ∨ r = Exn RuntimeError ∧ tl_locks s' = tl_locks s ∧ w ≠ IoOk).
Proof.
  intros Hs. unfold releaseAllLocks. change (gets id) with (gets (S := TableLockServer) (fun s => s)).
  erewrite bind_ret by reflexivity. cbv beta. erewrite bind_ret by reflexivity.
  destruct (save_or_run w (set_locks (tl_locks s)) (set_locks [] s)) as [f [Hr|[Hr Hw]]]; rewrite Hr.
  - eexists _, _. split; [reflexivity|]. split; [|by left]. destruct Hs as [_ Hu _ _].
    split; cbn; [done|done|..]; intros *; by rewrite elem_of_nil.
  - eexists _, _. split; [reflexivity|]. split; [|by right]. exact (tl_inv_file f s Hs).
Qed.

(** ** Every sequence of operations *)

Inductive tl_step : TableLockServer → TableLockServer → Prop :=
  | tstep_lock w t s r s' :
      unique64 (tl_sms s) < 2 ^ 64 - 1 → tl_lock w t s = (r, s') → tl_step s s'
  | tstep_unlock w id s r s' : tl_unlock w id s = (r, s') → tl_step s s'
  | tstep_state w id st s r s' : changeState w id st s = (r, s') → tl_step s s'
  | tstep_owner w id name pid ses txn s r s' :
      changeOwner w id name pid ses txn s = (r, s') → tl_step s s'
  | tstep_release w s r s' : releaseAllLocks w s = (r, s') → tl_step s s'.

Lemma tl_step_inv s s' : tl_inv s → tl_step s s' → tl_inv s'.
Proof.
  intros Hs Hstep. destruct Hstep as [w t s r s' Hlt Hr|w id s r s' Hr| | |w s r s' Hr].
  - pose proof (tl_lock_spec w t s Hs Hlt) as Hl. destruct (conflict t (tl_locks s)).
    + rewrite Hl in Hr. by simplify_eq.
    + destruct Hl as (r1 & s1 & Hr1 & Hs1 & _). rewrite Hr in Hr1. by simplify_eq.
  - destruct (tl_unlock_spec w id s Hs) as [[_ Hr1]|(r1 & s1 & Hr1 & Hs1 & _)];
      rewrite Hr in Hr1; by simplify_eq.
  - by eapply changeState_inv.
  - by eapply changeOwner_inv.
  - destruct (releaseAllLocks_spec w s Hs) as (r1 & s1 & Hr1 & Hs1 & _). rewrite Hr in Hr1. by simplify_eq.
Qed.

(** ** The file *)

(** A record the file format can hold. *)
Record tli_fits t : Prop := mkTliFits {
  tf_id : fits_u 8 (tli_id t) = true;
  tf_oid : fits_u 4 (tableOID t) = true;
  tf_pid : fits_u 4 (ownerPID t) = true;
  tf_state : fits_u 4 (tli_state t) = true;
  tf_session : fits_s 4 (ownerSessionID t) = true;
  tf_txn : fits_s 4 (ownerTxnID t) = true;
  tf_time : fits_s 8 (creationTime t) = true;
  tf_name : zlength (ownerName t) < 2 ^ 16;
  tf_nroots : zlength (dbrootList t) < 2 ^ 16;
  tf_roots : Forall (fun d => fits_u 4 d = true) (dbrootList t);
}.

Lemma read_throw_app n a b : length a = n → read_throw n (a ++ b) = Ret (a, b).
Proof. intros Ha. unfold read_throw. by rewrite read_app. Qed.

Lemma ret_bind {A B} (a : A) (f : A → outcome B) : Ret a ≫= f = f a.
Proof. done. Qed.

Lemma read_words_app ws rest :
  Forall (fun d => fits_u 4 d = true) ws →
  read_words (length ws) ((ws ≫= le_bytes 4) ++ rest) = Ret (ws, rest).
Proof.
  induction 1 as [|d ws Hd Hws IH]; [done|]. cbn [length read_words]. rewrite bind_cons, <- app_assoc.
  rewrite read_throw_app by apply length_le_bytes. rewrite ret_bind, IH, ret_bind. by rewrite get_u_bytes.
Qed.

Lemma fits_len n : 0 ≤ n < 2 ^ 16 → fits_u 2 n = true.
Proof.
  intros Hn. unfold fits_u. change (8 * Z.of_nat 2) with 16. apply andb_true_iff.
  split; [apply Z.leb_le; lia|apply Z.ltb_lt; lia].
Qed.

Lemma tli_roundtrip t rest : tli_fits t → tli_deserialize (tli_serialize t ++ rest) = Ret (t, rest).
Proof.
  intros [H1 H2 H3 H4 H5 H6 H7 H8 H9 H10]. unfold tli_deserialize, tli_serialize.
  pose proof (zlength_nonneg (ownerName t)). pose proof (zlength_nonneg (dbrootList t)).
  rewrite !(wrap_u_small 16) by lia. rewrite !take_ge by (unfold zlength in *; lia).
  rewrite <- !app_assoc.
  do 8 (rewrite read_throw_app by apply length_le_bytes; rewrite ret_bind; cbv beta iota).
  rewrite (get_u_bytes 2) by (apply fits_len; lia).
  rewrite read_throw_app by (unfold zlength; lia). rewrite ret_bind. cbv beta iota.
  rewrite read_throw_app by apply length_le_bytes. rewrite ret_bind. cbv beta iota.
  rewrite (get_u_bytes 2) by (apply fits_len; lia).
  assert (Z.to_nat (zlength (dbrootList t)) = length (dbrootList t)) as -> by (unfold zlength; lia).
  rewrite read_words_app by done. rewrite ret_bind.
  rewrite !get_u_bytes by done. rewrite !get_s_bytes by (lia || done). by destruct t.
Qed.

(** The locks as [load] numbers them, from [u] on. *)
Fixpoint renumber (u : Z) (ts : list TableLockInfo) : list (Z * TableLockInfo) :=
  match ts with
  | [] => []
  | t :: ts' => (u + 1, with_id (u + 1) t) :: renumber (u + 1) ts'
  end.

Lemma smap_set_last {V} k (v : V) m : Forall (fun kv => kv.1 < k) m → smap_set k v m = m ++ [(k, v)].
Proof.
  induction 1 as [|[k1 v1] m Hk Hm IH]; [done|]. cbn in *.
  assert (k <? k1 = false) as -> by (apply Z.ltb_ge; lia).
  assert (k =? k1 = false) as -> by (apply Z.eqb_neq; lia). by rewrite IH.
Qed.

Lemma load_locks_spec ts s :
  Forall tli_fits ts → 0 ≤ unique64 (tl_sms s) → unique64 (tl_sms s) + zlength ts < 2 ^ 64 →
  Forall (fun kt => kt.1 ≤ unique64 (tl_sms s)) (tl_locks s) →
  ∃ s', load_locks (length ts) (ts ≫= tli_serialize) s = (Ret tt, s') ∧
        tl_locks s' = tl_locks s ++ renumber (unique64 (tl_sms s)) ts.
Proof.
  intros Hfit. revert s. induction Hfit as [|t ts Ht Hts IH]; intros s Hu Hb Hk.
  { exists s. by rewrite app_nil_r. }
  rewrite zlength_cons in Hb. pose proof (zlength_nonneg ts). cbn [length load_locks].
  rewrite bind_cons, tli_roundtrip by done. rewrite lift_run. cbv beta iota.
  destruct (fresh_id_run s ltac:(lia)) as [Hfr Hu']. rewrite (bind_ret _ _ _ _ _ Hfr).
  set (u := unique64 (tl_sms s)) in *. erewrite bind_ret by reflexivity.
  set (s1 := set_locks _ (took_id s)).
  assert (unique64 (tl_sms s1) = u + 1) as Hu1 by exact Hu'.
  assert (tl_locks s1 = tl_locks s ++ [(u + 1, with_id (u + 1) t)]) as Hl1.
  { apply smap_set_last. eapply Forall_impl; [exact Hk|]. cbn. lia. }
  destruct (IH s1) as (s2 & Hr & Hl2); [lia|lia| |].
  { rewrite Hl1, Hu1, Forall_app. split; [eapply Forall_impl; [exact Hk|]; cbn; lia|].
    constructor; [cbn; lia|done]. }
  exists s2. split; [done|]. rewrite Hl2, Hl1, Hu1, <- app_assoc. done.
Qed.

Lemma newTableLockServer_spec l sm :
  Forall (fun kt => tli_fits kt.2) l → 0 ≤ unique64 sm → unique64 sm + zlength l < 2 ^ 32 →
  ∃ s', newTableLockServer (Some (tl_bytes l)) sm = (Ret tt, s') ∧
        tl_locks s' = renumber (unique64 sm) (snd <$> l).
Proof.
  intros Hfit Hu Hb. pose proof (zlength_nonneg l) as Hl. assert (2 ^ 32 < 2 ^ 64) by done.
  unfold newTableLockServer, tl_load. erewrite bind_ret by reflexivity. cbn [id tl_file].
  unfold tl_bytes. rewrite (wrap_u_small 32) by lia.
  rewrite read_throw_app by apply length_le_bytes. rewrite lift_run. cbv beta iota.
  rewrite get_u_bytes; cycle 1.
  { unfold fits_u. change (8 * Z.of_nat 4) with 32. apply andb_true_iff.
    split; [apply Z.leb_le; lia|apply Z.ltb_lt; lia]. }
  assert (Z.to_nat (zlength l) = length (snd <$> l)) as -> by (rewrite length_fmap; unfold zlength; lia).
  assert ((l ≫= fun kt => tli_serialize kt.2) = (snd <$> l) ≫= tli_serialize) as ->.
  { clear. induction l as [|[k t] l IH]; [done|]. rewrite fmap_cons, !bind_cons. by rewrite IH. }
  destruct (load_locks_spec (snd <$> l) (mkTLS [] (Some (le_bytes 4 (zlength l) ++ (snd <$> l) ≫= tli_serialize)) sm))
    as (s' & Hr & Hl').
  - by apply Forall_fmap.
  - done.
  - cbn [tl_sms]. unfold zlength in *. rewrite length_fmap. lia.
  - constructor.
  - exists s'. split; [exact Hr|]. by rewrite Hl'.
Qed.

Lemma renumber_infos u ts : with_id 0 <$> (snd <$> renumber u ts) = with_id 0 <$> ts.
Proof. revert u. induction ts as [|t ts IH]; intros u; [done|]. cbn [renumber]. rewrite !fmap_cons, IH. done. Qed.

(** ** The statements *)

(** C39 No two table locks conflict, after any sequence of requests to the server,
    whichever of its attempts to write the file fail. *)
Theorem table_locks_exclusive s0 s k1 t1 k2 t2 :
  tl_inv s0 → rtc tl_step s0 s →
  smap_find k1 (tl_locks s) = Some t1 → smap_find k2 (tl_locks s) = Some t2 → k1 ≠ k2 →
  tableOID t1 = tableOID t2 → ∀ d, d ∈ dbrootList t1 → d ∉ dbrootList t2.
Proof.
  intros H0 Hrtc H1 H2 Hne Ho d Hd1 Hd2.
  assert (tl_inv s) as Hs.
  { clear -H0 Hrtc. induction Hrtc; [done|]. eauto using tl_step_inv. }
  apply smap_find_elem in H1, H2; [|apply Hs..].
  apply (ti_excl _ Hs k1 t1 k2 t2 H1 H2 Hne). split; [done|]. by exists d.
Qed.

Definition tls0 : TableLockServer := mkTLS [] None (newSessionManagerServer None false None).
Definition tli1 : TableLockInfo := mkTLI 0 3000 [99; 112] 17 5 3 LOADING 1400000000 [1; 2].
Definition tli2 : TableLockInfo := mkTLI 0 3000 [99] 18 6 4 LOADING 1400000001 [3].
Definition tls1 : TableLockServer := (tl_lock IoOk tli1 tls0).2.
Definition tls2 : TableLockServer := (tl_lock IoOk tli2 tls1).2.

Lemma tls0_inv : tl_inv tls0.
Proof. split; cbn [tls0 tl_locks]; [done|vm_compute; done|..]; intros *; by rewrite elem_of_nil. Qed.

Lemma table_locks_exclusive_witness : 2 ∈ dbrootList tli1 ∧ 2 ∉ dbrootList (with_id 2 tli2).
Proof.
  split; [right; left|].
  apply (table_locks_exclusive tls0 tls2 1 (with_id 1 tli1) 2 (with_id 2 tli2));
    [exact tls0_inv| |vm_compute; reflexivity|vm_compute; reflexivity|lia|reflexivity|right; left].
  apply (rtc_l _ _ tls1); [apply (tstep_lock IoOk tli1 tls0 (Ret (1, with_id 1 tli1)));
    [vm_compute; reflexivity|vm_compute; reflexivity]|].
  apply rtc_once. apply (tstep_lock IoOk tli2 tls1 (Ret (2, with_id 2 tli2)));
    [vm_compute; reflexivity|vm_compute; reflexivity].
Defined.

(** [TableLockServer::lock] refuses exactly the requests that conflict with a
    lock of the table, telling who holds it; any other is granted under an id that
    no lock has, or fails with the exception of the file and changes no lock. *)
Theorem table_lock_granted w t s :
  tl_inv s → unique64 (tl_sms s) < 2 ^ 64 - 1 →
  match conflict t (tl_locks s) with
  | Some t' =>
      (∃ k, (k, t') ∈ tl_locks s ∧ conflicting t' t) ∧
      tl_lock w t s =
        (Ret (0, with_owner (ownerName t') (ownerPID t') (ownerSessionID t') (ownerTxnID t') t), s)
  | None =>
      (∀ k t', (k, t') ∈ tl_locks s → ¬ conflicting t' t) ∧
      let id := unique64 (tl_sms s) + 1 in
      smap_find id (tl_locks s) = None ∧
      ∃ r s', tl_lock w t s = (r, s') ∧ tl_inv s' ∧
        (r = Ret (id, with_id id t) ∧ tl_locks s' = smap_set id (with_id id t) (tl_locks s) ∨
         r = Exn RuntimeError ∧ tl_locks s' = tl_locks s ∧ w ≠ IoOk)
  end.
Proof.
  intros Hs Hlt. pose proof (tl_lock_spec w t s Hs Hlt) as Hl. pose proof (conflict_spec t (tl_locks s)) as Hc.
  destruct (conflict t (tl_locks s)); [done|]. split; [done|]. split; [|done].
  apply fresh_key; [done|lia].
Qed.

Lemma table_lock_granted_witness :
  conflict tli1 (tl_locks tls0) = None ∧
  (∀ k t', (k, t') ∈ tl_locks tls0 → ¬ conflicting t' tli1) ∧
  let id := unique64 (tl_sms tls0) + 1 in
  smap_find id (tl_locks tls0) = None ∧
  ∃ r s', tl_lock IoOk tli1 tls0 = (r, s') ∧ tl_inv s' ∧
    (r = Ret (id, with_id id tli1) ∧ tl_locks s' = smap_set id (with_id id tli1) (tl_locks tls0) ∨
     r = Exn RuntimeError ∧ tl_locks s' = tl_locks tls0 ∧ IoOk ≠ IoOk).
Proof.
  split; [reflexivity|].
  exact (table_lock_granted IoOk tli1 tls0 tls0_inv (eq_refl : (unique64 (tl_sms tls0) ?= 2 ^ 64 - 1) = Lt)).
Defined.

(** Unlocking, and releasing all the locks: they succeed, or the exception of
    the file is passed on and the locks are as they were. *)
Theorem table_unlock_atomic w id s :
  tl_inv s →
  ((smap_find id (tl_locks s) = None ∧ tl_unlock w id s = (Ret false, s)) ∨
   ∃ r s', tl_unlock w id s = (r, s') ∧ tl_inv s' ∧
     (r = Ret true ∧ tl_locks s' = smap_erase id (tl_locks s) ∨
      r = Exn RuntimeError ∧ tl_locks s' = tl_locks s ∧ w ≠ IoOk)) ∧
  (∃ r s', releaseAllLocks w s = (r, s') ∧ tl_inv s' ∧
     (r = Ret tt ∧ tl_locks s' = [] ∨ r = Exn RuntimeError ∧ tl_locks s' = tl_locks s ∧ w ≠ IoOk)).
Proof. intros Hs. split; [by apply tl_unlock_spec|by apply releaseAllLocks_spec]. Qed.

(** Round trip: a server started from the file that [save] wrote has the same
    locks in the same order, renumbered. *)
Theorem table_locks_restart l sm :
  Forall (fun kt => tli_fits kt.2) l → 0 ≤ unique64 sm → unique64 sm + zlength l < 2 ^ 32 →
  ∃ s', newTableLockServer (Some (tl_bytes l)) sm = (Ret tt, s') ∧
        with_id 0 <$> getAllLocks s' = with_id 0 <$> (snd <$> l) ∧
        tl_locks s' = renumber (unique64 sm) (snd <$> l).
Proof.
  intros Hf Hu Hb. destruct (newTableLockServer_spec l sm Hf Hu Hb) as (s' & Hr & Hl).
  exists s'. split; [done|]. split; [|done]. unfold getAllLocks. by rewrite Hl, renumber_infos.
Qed.

Lemma table_locks_restart_witness :
  ∃ s', newTableLockServer (Some (tl_bytes [(4, with_id 4 tli1)])) (tl_sms tls0) = (Ret tt, s') ∧
        with_id 0 <$> getAllLocks s' = [tli1] ∧
        tl_locks s' = renumber (unique64 (tl_sms tls0)) [with_id 4 tli1].
Proof.
  apply (table_locks_restart [(4, with_id 4 tli1)] (tl_sms tls0)).
  - constructor; [|constructor]. split; [vm_compute; reflexivity..|].
    constructor; [reflexivity|]. constructor; [reflexivity|constructor].
  - vm_compute. discriminate.
  - vm_compute. reflexivity.
Defined.

(** [TableLockServer::save] does not test the stream after the last lock: when
    writing the only lock fails, [lock] returns its id all the same, and a server
    started from the file fails to load it. *)
Theorem save_misses_last_write :
  let s := (tl_lock IoSecondWriteFails tli1 tls0).2 in
  (tl_lock IoSecondWriteFails tli1 tls0).1 = Ret (1, with_id 1 tli1) ∧
  (newTableLockServer (tl_file s) (tl_sms tls0)).1 = Exn IosFailure.
Proof. vm_compute. done. Qed.
