(* ===== verification/ResourceGraph.v ===== *)
(** * The resource graph ([lbidresourcegraph.cpp], [rgnode.cpp], [resourcenode.cpp],
      [transactionnode.cpp])

    The controller reserves ranges of LBIDs for transactions before they change
    them.  A resource node points to the transaction that holds it, a transaction
    node to the resources it waits for; before a transaction goes to sleep the
    graph is searched for a cycle.  The nodes are named by what they stand for;
    the set of neighbours of a node is a [std::set] of pointers, whose order is
    that of the addresses, so the order of iteration is a parameter. *)

From S2P Require Import Prelude.

(** [ResourceNode] of an LBID, [TransactionNode] of a transaction. *)
Inductive rgid := Res (lbid : Z) | Tx (txn : Z).

#[global] Instance rgid_eq_dec : EqDecision rgid.
Proof. solve_decision. Defined.
#[global] Instance rgid_countable : Countable rgid.
Proof.
  apply (inj_countable' (fun x => match x with Res l => inl l | Tx t => inr t end)
    (fun y => match y with inl l => Res l | inr t => Tx t end)). by intros [].
Defined.

(** The edges of an [RGNode]. *)
Record RGNode := mkRGNode { rg_out : gset rgid; rg_in : gset rgid }.

(** What a [TransactionNode] adds. *)
Record TxnFlags := mkFlags { tn_die : bool; tn_sleeping : bool }.

(** The nodes that exist, their colours, the flags of the transactions, and the
    last colour used. *)
Record LBIDResourceGraph := mkRG {
  rg_nodes : gmap rgid RGNode;
  rg_colors : gmap rgid Z;
  rg_flags : gmap Z TxnFlags;
  rg_color : Z;
}.

Definition ERR_DEADLOCK : Z := 6.
Definition ERR_KILLED : Z := 7.

Definition set_nodes (ns : gmap rgid RGNode) (g : LBIDResourceGraph) : LBIDResourceGraph :=
  mkRG ns (rg_colors g) (rg_flags g) (rg_color g).
Definition set_flags (fl : gmap Z TxnFlags) (g : LBIDResourceGraph) : LBIDResourceGraph :=
  mkRG (rg_nodes g) (rg_colors g) fl (rg_color g).

(** ** Nodes and edges *)

(** [new ResourceNode(i)], [new TransactionNode(txn)] *)
Definition new_node (x : rgid) (g : LBIDResourceGraph) : LBIDResourceGraph :=
  mkRG (<[x := mkRGNode ∅ ∅]> (rg_nodes g)) (<[x := 0]> (rg_colors g))
    (match x with Tx t => <[t := mkFlags false false]> (rg_flags g) | Res _ => rg_flags g end)
    (rg_color g).

(** [x->addOutEdge(y)], which is [y->addInEdge(x)] *)
Definition add_edge (x y : rgid) (g : LBIDResourceGraph) : LBIDResourceGraph :=
  set_nodes
    (alter (fun n => mkRGNode (rg_out n) ({[x]} ∪ rg_in n)) y
       (alter (fun n => mkRGNode ({[y]} ∪ rg_out n) (rg_in n)) x (rg_nodes g))) g.

(** [x->removeOutEdge(y)], which is [y->removeInEdge(x)] *)
Definition remove_edge (x y : rgid) (g : LBIDResourceGraph) : LBIDResourceGraph :=
  set_nodes
    (alter (fun n => mkRGNode (rg_out n) (rg_in n ∖ {[x]})) y
       (alter (fun n => mkRGNode (rg_out n ∖ {[y]}) (rg_in n)) x (rg_nodes g))) g.

(** [delete x]: the destructor of [RGNode] takes [x] out of its neighbours' sets. *)
Definition delete_node (x : rgid) (g : LBIDResourceGraph) : LBIDResourceGraph :=
  match rg_nodes g !! x with
  | None => g
  | Some n =>
      mkRG (map_imap (fun z m => Some (mkRGNode
                (if decide (z ∈ rg_in n) then rg_out m ∖ {[x]} else rg_out m)
                (if decide (z ∈ rg_out n) then rg_in m ∖ {[x]} else rg_in m)))
              (delete x (rg_nodes g)))
        (delete x (rg_colors g))
        (match x with Tx t => delete t (rg_flags g) | Res _ => rg_flags g end)
        (rg_color g)
  end.

(** [TransactionNode::wake()] *)
Definition wake (t : Z) (g : LBIDResourceGraph) : LBIDResourceGraph :=
  set_flags (alter (fun f => mkFlags (tn_die f) false) t (rg_flags g)) g.

(** [TransactionNode::die()] *)
Definition die (t : Z) (g : LBIDResourceGraph) : LBIDResourceGraph :=
  set_flags (alter (fun f => mkFlags true (tn_sleeping f)) t (rg_flags g)) g.

(** [_sleeping = true] of [TransactionNode::sleep] *)
Definition fall_asleep (t : Z) (g : LBIDResourceGraph) : LBIDResourceGraph :=
  set_flags (alter (fun f => mkFlags (tn_die f) true) t (rg_flags g)) g.

Section Graph.
(** The order of iteration over a set of pointers. *)
Context (order : gset rgid → list rgid).

(** [ResourceNode::wakeAndDetach()] *)
Definition wakeAndDetach (r : rgid) (g : LBIDResourceGraph) : LBIDResourceGraph :=
  match rg_nodes g !! r with
  | None => g
  | Some n =>
      foldl (fun g x => match x with Tx t => remove_edge x r (wake t g) | Res _ => g end) g (order (rg_in n))
  end.

(** ** Reserving *)

(** [LBIDResourceGraph::connectResources]: the resources of the range that exist
    and are not held are waited for, the others are created and held. *)
Definition connectResources (start end_ txn : Z) (g : LBIDResourceGraph) : LBIDResourceGraph :=
  let range := zseq start (end_ - start + 1) in
  let intersection := List.filter (fun i => bool_decide (is_Some (rg_nodes g !! Res i))) range in
  let reserveList := List.filter (fun i => negb (bool_decide (is_Some (rg_nodes g !! Res i)))) range in
  let g1 := foldl (fun g i => new_node (Res i) g) g reserveList in
  let held i := match rg_nodes g1 !! Tx txn with
                | Some n => bool_decide (Res i ∈ rg_in n)
                | None => false
                end in
  let g2 := foldl (fun g i => if held i then g else add_edge (Tx txn) (Res i) g) g1 intersection in
  foldl (fun g i => add_edge (Res i) (Tx txn) g) g2 reserveList.

(** ** Searching for a cycle *)

(** The loop of [DFSStep] over the successors of a node. *)
Fixpoint DFS_children (step : rgid → M (gmap rgid Z) bool) (black : Z) (l : list rgid)
    : M (gmap rgid Z) bool :=
  match l with
  | [] => mret false
  | y :: l' =>
      c ← (fun C => (deref (C !! y), C));
      if c =? black then DFS_children step black l'
      else
        r ← step y;
        if r : bool then mret true else DFS_children step black l'
  end.

(** [LBIDResourceGraph::DFSStep]: it changes the colours only. *)
Fixpoint DFSStep (fuel : nat) (ns : gmap rgid RGNode) (curNode : rgid) (gray black : Z)
    : M (gmap rgid Z) bool :=
  match fuel with
  | O => throw OutOfFuel
  | S fuel' =>
      c ← (fun C => (deref (C !! curNode), C));
      if c =? gray then mret true
      else
        modify (fun C => <[curNode := gray]> C) ≫= fun _ =>
        n ← lift (deref (ns !! curNode));
        r ← DFS_children (fun y => DFSStep fuel' ns y gray black) black (order (rg_out n));
        if r : bool then mret true
        else
          modify (fun C => <[curNode := black]> C) ≫= fun _ =>
          mret false
  end.

(** [LBIDResourceGraph::checkDeadlock] *)
Definition checkDeadlock (start : rgid) : M LBIDResourceGraph bool := fun g =>
  let gray := u64 (rg_color g + 1) in
  let black := u64 (gray + 1) in
  let '(r, C) := DFSStep (S (size (rg_nodes g))) (rg_nodes g) start gray black (rg_colors g) in
  (r, mkRG (rg_nodes g) C (rg_flags g) black).

(** ** The operations *)

(** What a call of [reserveRange] has come to: a return code, or it sleeps. *)
Inductive reserve := Code (rc : Z) | Sleeping.

(** The test of the loop [while (txnNode->out.size() > 0)] and its body up to the
    sleep. *)
Definition reserve_wait (txn : Z) : M LBIDResourceGraph reserve := fun g =>
  match rg_nodes g !! Tx txn with
  | None => (Exn Segfault, g)
  | Some n =>
      if bool_decide (rg_out n = ∅) then (Ret (Code ERR_OK), g)
      else
        (b ← checkDeadlock (Tx txn);
         if b : bool then mret (Code ERR_DEADLOCK)
         else modify (fall_asleep txn) ≫= fun _ => mret Sleeping) g
  end.

(** [LBIDResourceGraph::reserveRange], up to its end or its first sleep. *)
Definition reserveRange (start end_ txn : Z) : M LBIDResourceGraph reserve :=
  modify (fun g => if bool_decide (is_Some (rg_nodes g !! Tx txn)) then g else new_node (Tx txn) g) ≫= fun _ =>
  modify (connectResources start end_ txn) ≫= fun _ =>
  reserve_wait txn.

(** What follows [txnNode->sleep(mutex)], up to the end or the next sleep. *)
Definition reserveRange_awake (start end_ txn : Z) : M LBIDResourceGraph reserve := fun g =>
  match rg_flags g !! txn with
  | None => (Exn Segfault, g)
  | Some f =>
      if tn_die f then (Ret (Code ERR_KILLED), delete_node (Tx txn) g)
      else
        (modify (connectResources start end_ txn) ≫= fun _ => reserve_wait txn) g
  end.

(** One resource of [releaseResources]. *)
Definition release_one (txn : Z) (g : LBIDResourceGraph) (r : rgid) : LBIDResourceGraph :=
  delete_node r (remove_edge r (Tx txn) (wakeAndDetach r g)).

(** [LBIDResourceGraph::releaseResources] *)
Definition releaseResources (txn : Z) (g : LBIDResourceGraph) : LBIDResourceGraph :=
  match rg_nodes g !! Tx txn with
  | None => g
  | Some n =>
      let g1 := foldl (release_one txn) g (order (rg_in n)) in
      let g2 := match rg_nodes g1 !! Tx txn with
                | Some n1 => foldl (fun g r => remove_edge (Tx txn) r g) g1 (order (rg_out n1))
                | None => g1
                end in
      match rg_flags g2 !! txn with
      | Some f => if tn_sleeping f then wake txn (die txn g2) else delete_node (Tx txn) g2
      | None => g2
      end
  end.
End Graph.
