(* ===== verification/ResourceProofs.v ===== *)
(** * Correctness of the resource graph

    The search finds a cycle exactly when one can be reached, whatever the order
    in which it visits the neighbours; the invariant of the graph, in which every
    resource is held by one transaction, is kept by every operation. *)

From S2P Require Import Prelude ResourceGraph.

Lemma tc_first {A} (R : relation A) x y : tc R x y → ∃ z, R x z ∧ rtc R z y.
Proof. intros []; eexists; (split; [done|]); auto using tc_rtc, rtc_refl. Qed.

(** ** The depth-first search *)

Section DFS.
Context (order : gset rgid → list rgid) (order_spec : ∀ X x, x ∈ order X ↔ x ∈ X).
Context (ns : gmap rgid RGNode) (gray black : Z) (colors_differ : gray ≠ black).

Definition edge (ns : gmap rgid RGNode) (x y : rgid) : Prop :=
  ∃ n, ns !! x = Some n ∧ y ∈ rg_out n.

Context (edge_closed : ∀ x y, edge ns x y → is_Some (ns !! y)).

Abbreviation E := (edge ns).
Abbreviation gr C x := (C !! x = Some gray).
Abbreviation bl C x := (C !! x = Some black).

(** Every node has a colour; black nodes lead to black nodes only and lie on no
    cycle. *)
Record dfs_inv (C : gmap rgid Z) : Prop := mkDfsInv {
  di_total x : is_Some (ns !! x) → is_Some (C !! x);
  di_closed x y : bl C x → E x y → bl C y;
  di_acyclic x : bl C x → ¬ tc E x x;
}.

(** The nodes not visited yet. *)
Definition white (C : gmap rgid Z) : gset rgid :=
  filter (fun x => ¬ gr C x ∧ ¬ bl C x) (dom ns).

(** What a search leaves behind: only the two colours are given. *)
Definition recolored (C C' : gmap rgid Z) : Prop :=
  ∀ x, (is_Some (C' !! x) ↔ is_Some (C !! x)) ∧
       (∀ c, C' !! x = Some c → c = gray ∨ c = black ∨ C !! x = Some c).

(** [b]: a cycle was found below [cur]; otherwise the [done] nodes are black and
    the gray ones are those that were. *)
Definition dfs_post (cur : rgid) (todo : list rgid) (C : gmap rgid Z) (b : bool) (C' : gmap rgid Z) : Prop :=
  recolored C C' ∧
  if b then ∃ y, rtc E cur y ∧ tc E y y
  else dfs_inv C' ∧ (∀ y, y ∈ todo → bl C' y) ∧ (∀ x, gr C' x ↔ gr C x) ∧ (∀ x, bl C x → bl C' x).

Lemma recolored_refl C : recolored C C.
Proof. intros x. split; [done|auto]. Qed.

Lemma recolored_trans C1 C2 C3 : recolored C1 C2 → recolored C2 C3 → recolored C1 C3.
Proof.
  intros H1 H2 x. destruct (H1 x) as [H1a H1b], (H2 x) as [H2a H2b]. split; [by rewrite H2a|].
  intros c Hc. destruct (H2b c Hc) as [?|[?|Hc']]; auto.
Qed.

Lemma recolored_insert C x c : is_Some (C !! x) → c = gray ∨ c = black → recolored C (<[x := c]> C).
Proof.
  intros Hx Hc y. destruct (decide (x = y)) as [->|Hne].
  - rewrite lookup_insert_eq. split; [naive_solver|]. intros d [= <-]. naive_solver.
  - rewrite lookup_insert_ne by done. split; [done|auto].
Qed.

Lemma white_mono C C' :
  (∀ x, gr C' x ↔ gr C x) → (∀ x, bl C x → bl C' x) → white C' ⊆ white C.
Proof.
  intros Hg Hb x. unfold white. rewrite !elem_of_filter. intros [[H1 H2] Hd].
  split; [|done]. split; [by rewrite <- Hg|]. intros Hx. by apply H2, Hb.
Qed.

Lemma white_insert C x c :
  is_Some (ns !! x) → c = gray ∨ c = black → ¬ gr C x → ¬ bl C x →
  (size (white (<[x := c]> C)) < size (white C))%nat.
Proof.
  intros Hx Hc Hg Hb. apply subset_size. split.
  - intros y. unfold white. rewrite !elem_of_filter. intros [[H1 H2] Hd]. split; [|done].
    destruct (decide (x = y)) as [->|Hne]; [done|]. by rewrite lookup_insert_ne in H1, H2.
  - intros Hsub. assert (x ∈ white C) as Hin.
    { unfold white. rewrite elem_of_filter, elem_of_dom. done. }
    apply Hsub in Hin. unfold white in Hin. rewrite elem_of_filter, !lookup_insert_eq in Hin. naive_solver.
Qed.

(** The specification of the step, for the nodes below. *)
Definition step_spec (fuel : nat) (step : rgid → M (gmap rgid Z) bool) : Prop :=
  ∀ y C, dfs_inv C → is_Some (ns !! y) → ¬ bl C y → (∀ x, gr C x → tc E x y) →
    (size (white C) < fuel)%nat → ∃ b C', step y C = (Ret b, C') ∧ dfs_post y [y] C b C'.

Lemma DFS_children_spec fuel step cur l C :
  step_spec fuel step → dfs_inv C → (∀ y, y ∈ l → E cur y) → (∀ x, gr C x → rtc E x cur) →
  (size (white C) < fuel)%nat →
  ∃ b C', DFS_children step black l C = (Ret b, C') ∧ dfs_post cur l C b C'.
Proof.
  intros Hstep. revert C. induction l as [|y l IH]; intros C Hinv Hl Hgr Hsz; cbn [DFS_children].
  { exists false, C. split; [done|]. split; [apply recolored_refl|]. split; [done|].
    split; [intros y Hy; by apply elem_of_nil in Hy|done]. }
  assert (E cur y) as Hy by (apply Hl; left).
  destruct (di_total _ Hinv y (edge_closed _ _ Hy)) as [c Hc].
  unfold mbind at 1, M_bind at 1. rewrite Hc. cbn [deref].
  destruct (Z.eqb_spec c black) as [->|Hne].
  - destruct (IH C Hinv ltac:(intros; apply Hl; by right) Hgr Hsz) as (b & C' & Hr & Hrc & Hpost).
    exists b, C'. split; [done|]. split; [done|]. destruct b; [done|].
    destruct Hpost as (Hi & Hd & Hg & Hb). split; [done|]. split; [|done].
    intros z [->|Hz]%elem_of_cons; [by apply Hb|by apply Hd].
  - destruct (Hstep y C Hinv (edge_closed _ _ Hy)) as (b & C1 & Hr & Hrc & Hpost); [congruence| |done|].
    { intros x Hx. eapply tc_rtc_l; [by apply Hgr|by apply tc_once]. }
    rewrite (bind_ret _ _ _ _ _ Hr). destruct b.
    + exists true, C1. split; [done|]. split; [done|]. destruct Hpost as (z & Hz & Hcy).
      exists z. split; [by eapply rtc_l|done].
    + destruct Hpost as (Hi & Hd & Hg & Hb).
      destruct (IH C1 Hi) as (b & C2 & Hr2 & Hrc2 & Hpost2).
      * intros; apply Hl; by right.
      * intros x Hx. by apply Hgr, Hg.
      * pose proof (subseteq_size _ _ (white_mono C C1 Hg Hb)). lia.
      * exists b, C2. split; [done|]. split; [by eapply recolored_trans|]. destruct b; [done|].
        destruct Hpost2 as (Hi2 & Hd2 & Hg2 & Hb2). split; [done|]. split; [|split].
        -- intros z [->|Hz]%elem_of_cons; [apply Hb2, Hd; set_solver|by apply Hd2].
        -- intros x. by rewrite Hg2, Hg.
        -- intros x Hx. by apply Hb2, Hb.
Qed.

Lemma black_reach C x y : dfs_inv C → bl C x → rtc E x y → bl C y.
Proof.
  intros Hinv Hx Hr. induction Hr as [|x z y Hxz _ IH]; [done|]. apply IH. by eapply di_closed.
Qed.

(** Blackening a node all of whose successors are black. *)
Lemma blacken_inv cur C :
  dfs_inv C → gr C cur → (∀ y, E cur y → bl C y) → dfs_inv (<[cur := black]> C).
Proof.
  intros Hinv Hg Hs. pose proof Hinv as [Ht Hc Ha]. split.
  - intros x Hx. destruct (decide (cur = x)) as [->|]; [rewrite lookup_insert_eq; eauto|].
    rewrite lookup_insert_ne by done. auto.
  - intros x y Hx Hy. destruct (decide (cur = y)) as [->|Hny]; [by rewrite lookup_insert_eq|].
    rewrite lookup_insert_ne by done. destruct (decide (cur = x)) as [->|Hnx]; [by apply Hs|].
    rewrite lookup_insert_ne in Hx by done. by eapply Hc.
  - intros x Hx. destruct (decide (cur = x)) as [->|Hnx].
    + intros (y & Hy & Hr)%tc_first. 
      pose proof (black_reach C y x Hinv (Hs y Hy) Hr). congruence.
    + rewrite lookup_insert_ne in Hx by done. by apply Ha.
Qed.

Lemma DFSStep_spec fuel : step_spec fuel (fun y => DFSStep order fuel ns y gray black).
Proof.
  induction fuel as [|fuel IH]; intros cur C Hinv Hcur Hnb Hgr Hsz; [lia|]. cbn [DFSStep].
  destruct (di_total _ Hinv cur Hcur) as [c Hc].
  unfold mbind at 1, M_bind at 1. rewrite Hc. cbn [deref].
  destruct (Z.eqb_spec c gray) as [->|Hng].
  { exists true, C. split; [done|]. split; [apply recolored_refl|].
    exists cur. split; [apply rtc_refl|by apply Hgr]. }
  set (C1 := <[cur := gray]> C). erewrite bind_ret by reflexivity. fold C1.
  destruct Hcur as [n Hn]. rewrite Hn. cbn [deref]. rewrite lift_run.
  assert (is_Some (ns !! cur)) as Hcur by by eexists.
  assert (¬ gr C cur) as Hng' by congruence.
  destruct (DFS_children_spec fuel _ cur (order (rg_out n)) C1 IH) as (b & C2 & Hr & Hrc & Hpost).
  - split.
    + intros x Hx. unfold C1. destruct (decide (cur = x)) as [->|]; [rewrite lookup_insert_eq; eauto|].
      rewrite lookup_insert_ne by done. by apply (di_total _ Hinv).
    + intros x y. unfold C1. intros Hx Hy.
      destruct (decide (cur = x)) as [->|]; [rewrite lookup_insert_eq in Hx; congruence|].
      rewrite lookup_insert_ne in Hx by done.
      destruct (decide (cur = y)) as [->|]; [by destruct Hnb; eapply (di_closed _ Hinv)|].
      rewrite lookup_insert_ne by done. by eapply (di_closed _ Hinv).
    + intros x Hx. unfold C1 in Hx.
      destruct (decide (cur = x)) as [->|]; [rewrite lookup_insert_eq in Hx; congruence|].
      rewrite lookup_insert_ne in Hx by done. by apply (di_acyclic _ Hinv).
  - intros y Hy%order_spec. by exists n.
  - intros x Hx. unfold C1 in Hx. destruct (decide (cur = x)) as [->|]; [apply rtc_refl|].
    rewrite lookup_insert_ne in Hx by done. apply tc_rtc. by apply Hgr.
  - pose proof (white_insert C cur gray Hcur (or_introl eq_refl) Hng' Hnb). unfold C1. lia.
  - assert (recolored C C1) as Hrc1 by (apply recolored_insert; [by eexists|by left]).
    rewrite (bind_ret _ _ _ _ _ Hr). destruct b.
    + exists true, C2. split; [done|]. split; [by eapply recolored_trans|done].
    + destruct Hpost as (Hi & Hd & Hg & Hb).
      assert (gr C2 cur) as Hg2 by (apply Hg; unfold C1; by rewrite lookup_insert_eq).
      exists false, (<[cur := black]> C2). split; [done|]. split.
      { eapply recolored_trans; [by eapply recolored_trans|].
        apply recolored_insert; [by eexists|by right]. }
      split; [|split; [|split]].
      * apply blacken_inv; [done|done|]. intros y (n' & Hn' & Hy). simplify_eq. by apply Hd, order_spec.
      * intros y Hy%list_elem_of_singleton. subst y. by rewrite lookup_insert_eq.
      * intros x. destruct (decide (cur = x)) as [->|].
        -- rewrite lookup_insert_eq. split; congruence.
        -- rewrite lookup_insert_ne by done. rewrite Hg. unfold C1. by rewrite lookup_insert_ne.
      * intros x Hx. destruct (decide (cur = x)) as [->|]; [by rewrite lookup_insert_eq|].
        rewrite lookup_insert_ne by done. apply Hb. unfold C1. by rewrite lookup_insert_ne.
Qed.

(** From colours that are neither gray nor black: the search returns, and says
    whether a cycle can be reached. *)
Lemma DFS_correct start C :
  (∀ x, is_Some (ns !! x) → is_Some (C !! x)) → (∀ x, ¬ gr C x ∧ ¬ bl C x) → is_Some (ns !! start) →
  ∃ b C', DFSStep order (S (size ns)) ns start gray black C = (Ret b, C') ∧ recolored C C' ∧
          (b = true ↔ ∃ y, rtc E start y ∧ tc E y y).
Proof.
  intros Ht Hfresh Hs.
  destruct (DFSStep_spec (S (size ns)) start C) as (b & C' & Hr & Hrc & Hpost).
  - split; [done|intros x y Hx; by destruct (Hfresh x)|intros x Hx; by destruct (Hfresh x)].
  - done.
  - by apply Hfresh.
  - intros x Hx. by destruct (Hfresh x).
  - assert (size (white C) ≤ size (dom ns))%nat; [|rewrite size_dom in *; lia].
    apply subseteq_size. unfold white. intros x. by rewrite elem_of_filter; intros [].
  - exists b, C'. split; [done|]. split; [done|]. destruct b; [by split|]. split; [done|].
    intros (y & Hy & Hcy). destruct Hpost as (Hi & Hd & _).
    assert (bl C' start) as Hbl by (apply Hd; set_solver).
    by destruct (di_acyclic _ Hi y (black_reach C' start y Hi Hbl Hy)).
Qed.
End DFS.

(** ** Edges *)

#[global] Instance edge_dec ns x y : Decision (edge ns x y).
Proof.
  destruct (ns !! x) as [n|] eqn:Hn.
  - destruct (decide (y ∈ rg_out n)) as [Hy|Hy]; [left; by exists n|right].
    intros (n' & Hn' & ?). simplify_eq. done.
  - right. intros (n' & Hn' & _). simplify_eq.
Defined.

Definition inedge (ns : gmap rgid RGNode) (x y : rgid) : Prop :=
  ∃ n, ns !! y = Some n ∧ x ∈ rg_in n.

(** The two sets of every node say the same, nodes have colours and transactions
    have flags. *)
Record rg_wf (g : LBIDResourceGraph) : Prop := mkRgWf {
  wf_mirror x y : inedge (rg_nodes g) x y ↔ edge (rg_nodes g) x y;
  wf_colored x : is_Some (rg_nodes g !! x) → is_Some (rg_colors g !! x);
  wf_color x c : rg_colors g !! x = Some c → 0 ≤ c ≤ rg_color g;
  wf_flags t : is_Some (rg_nodes g !! Tx t) ↔ is_Some (rg_flags g !! t);
}.

Lemma edge_target g x y : rg_wf g → edge (rg_nodes g) x y → is_Some (rg_nodes g !! y).
Proof. intros Hw He. apply (wf_mirror _ Hw) in He as (n & Hn & _). by eexists. Qed.

Lemma edge_source ns x y : edge ns x y → is_Some (ns !! x).
Proof. intros (n & Hn & _). by eexists. Qed.

Lemma alter_Some {A} (f : A → A) (ns : gmap rgid A) x y n :
  alter f x ns !! y = Some n ↔ ∃ m, ns !! y = Some m ∧ n = (if decide (y = x) then f m else m).
Proof.
  destruct (decide (y = x)) as [->|Hne].
  - rewrite lookup_alter_eq. destruct (ns !! x); cbn; naive_solver.
  - rewrite lookup_alter_ne by done. naive_solver.
Qed.

Lemma alter_is_Some {A} (f : A → A) (ns : gmap rgid A) x y : is_Some (alter f x ns !! y) ↔ is_Some (ns !! y).
Proof.
  split.
  - intros [n (m & Hm & _)%alter_Some]. by eexists.
  - intros [m Hm]. eexists. apply alter_Some. eauto.
Qed.

Lemma add_edge_edge g x y a b :
  is_Some (rg_nodes g !! x) →
  edge (rg_nodes (add_edge x y g)) a b ↔ edge (rg_nodes g) a b ∨ (a = x ∧ b = y).
Proof.
  intros [nx Hx]. unfold edge. cbn [add_edge rg_nodes set_nodes]. setoid_rewrite alter_Some.
  setoid_rewrite alter_Some. split.
  - intros (n & (m & (m' & Hm' & ->) & ->) & Hb). repeat case_decide; cbn in Hb; subst; naive_solver set_solver.
  - intros [(n & Hn & Hb)|[-> ->]].
    + eexists. split; [eexists; split; [eexists; split; [exact Hn|reflexivity]|reflexivity]|].
      repeat case_decide; cbn; set_solver.
    + eexists. split; [eexists; split; [eexists; split; [exact Hx|reflexivity]|reflexivity]|].
      repeat case_decide; cbn; set_solver.
Qed.

Lemma add_edge_inedge g x y a b :
  is_Some (rg_nodes g !! y) →
  inedge (rg_nodes (add_edge x y g)) a b ↔ inedge (rg_nodes g) a b ∨ (a = x ∧ b = y).
Proof.
  intros [ny Hy]. unfold inedge. cbn [add_edge rg_nodes set_nodes]. setoid_rewrite alter_Some.
  setoid_rewrite alter_Some. split.
  - intros (n & (m & (m' & Hm' & ->) & ->) & Hb). repeat case_decide; cbn in Hb; subst; naive_solver set_solver.
  - intros [(n & Hn & Hb)|[-> ->]].
    + eexists. split; [eexists; split; [eexists; split; [exact Hn|reflexivity]|reflexivity]|].
      repeat case_decide; cbn; set_solver.
    + eexists. split; [eexists; split; [eexists; split; [exact Hy|reflexivity]|reflexivity]|].
      repeat case_decide; cbn; set_solver.
Qed.

Lemma remove_edge_edge g x y a b :
  edge (rg_nodes (remove_edge x y g)) a b ↔ edge (rg_nodes g) a b ∧ ¬ (a = x ∧ b = y).
Proof.
  unfold edge. cbn [remove_edge rg_nodes set_nodes]. setoid_rewrite alter_Some. setoid_rewrite alter_Some.
  split.
  - intros (n & (m & (m' & Hm' & ->) & ->) & Hb). repeat case_decide; cbn in Hb; subst; naive_solver set_solver.
  - intros [(n & Hn & Hb) Hne].
    eexists. split; [eexists; split; [eexists; split; [exact Hn|reflexivity]|reflexivity]|].
    repeat case_decide; cbn; set_solver.
Qed.

Lemma remove_edge_inedge g x y a b :
  inedge (rg_nodes (remove_edge x y g)) a b ↔ inedge (rg_nodes g) a b ∧ ¬ (a = x ∧ b = y).
Proof.
  unfold inedge. cbn [remove_edge rg_nodes set_nodes]. setoid_rewrite alter_Some. setoid_rewrite alter_Some.
  split.
  - intros (n & (m & (m' & Hm' & ->) & ->) & Hb). repeat case_decide; cbn in Hb; subst; naive_solver set_solver.
  - intros [(n & Hn & Hb) Hne].
    eexists. split; [eexists; split; [eexists; split; [exact Hn|reflexivity]|reflexivity]|].
    repeat case_decide; cbn; set_solver.
Qed.

Lemma add_edge_dom g x y z : is_Some (rg_nodes (add_edge x y g) !! z) ↔ is_Some (rg_nodes g !! z).
Proof. cbn. by rewrite !alter_is_Some. Qed.

Lemma remove_edge_dom g x y z : is_Some (rg_nodes (remove_edge x y g) !! z) ↔ is_Some (rg_nodes g !! z).
Proof. cbn. by rewrite !alter_is_Some. Qed.

Lemma add_edge_wf g x y :
  rg_wf g → is_Some (rg_nodes g !! x) → is_Some (rg_nodes g !! y) → rg_wf (add_edge x y g).
Proof.
  intros [Hm Hc Hl Hf] Hx Hy. split.
  - intros a b. by rewrite add_edge_edge, add_edge_inedge, Hm.
  - intros z Hz%add_edge_dom. by apply Hc.
  - done.
  - intros t. rewrite add_edge_dom. apply Hf.
Qed.

Lemma remove_edge_wf g x y : rg_wf g → rg_wf (remove_edge x y g).
Proof.
  intros [Hm Hc Hl Hf]. split.
  - intros a b. by rewrite remove_edge_edge, remove_edge_inedge, Hm.
  - intros z Hz%remove_edge_dom. by apply Hc.
  - done.
  - intros t. rewrite remove_edge_dom. apply Hf.
Qed.

(** ** Creating and deleting nodes *)

Lemma new_node_edge g x a b :
  rg_nodes g !! x = None → edge (rg_nodes (new_node x g)) a b ↔ edge (rg_nodes g) a b.
Proof.
  intros Hx. unfold edge. cbn [new_node rg_nodes]. destruct (decide (a = x)) as [->|Hne].
  - rewrite lookup_insert_eq. split; [|naive_solver]. intros (n & [= <-] & Hb). cbn in Hb. set_solver.
  - by rewrite lookup_insert_ne.
Qed.

Lemma new_node_inedge g x a b :
  rg_nodes g !! x = None → inedge (rg_nodes (new_node x g)) a b ↔ inedge (rg_nodes g) a b.
Proof.
  intros Hx. unfold inedge. cbn [new_node rg_nodes]. destruct (decide (b = x)) as [->|Hne].
  - rewrite lookup_insert_eq. split; [|naive_solver]. intros (n & [= <-] & Hb). cbn in Hb. set_solver.
  - by rewrite lookup_insert_ne.
Qed.

Lemma new_node_dom g x z : is_Some (rg_nodes (new_node x g) !! z) ↔ z = x ∨ is_Some (rg_nodes g !! z).
Proof.
  cbn. destruct (decide (z = x)) as [->|]; [rewrite lookup_insert_eq; naive_solver|].
  rewrite lookup_insert_ne by done. naive_solver.
Qed.

Lemma new_node_wf g x : rg_wf g → 0 ≤ rg_color g → rg_nodes g !! x = None → rg_wf (new_node x g).
Proof.
  intros [Hm Hc Hl Hf] H0 Hx. split.
  - intros a b. by rewrite new_node_edge, new_node_inedge.
  - intros z Hz%new_node_dom. cbn. destruct (decide (z = x)) as [->|]; [rewrite lookup_insert_eq; eauto|].
    rewrite lookup_insert_ne by done. naive_solver.
  - intros z c. cbn. destruct (decide (z = x)) as [->|]; [rewrite lookup_insert_eq; intros [= <-]; lia|].
    rewrite lookup_insert_ne by done. apply Hl.
  - intros t. rewrite new_node_dom. cbn. destruct x as [l|t'].
    + rewrite Hf. naive_solver.
    + destruct (decide (t = t')) as [->|]; [rewrite lookup_insert_eq; naive_solver|].
      rewrite lookup_insert_ne by done. rewrite Hf. naive_solver.
Qed.

Lemma delete_lookup g x n z m :
  rg_nodes g !! x = Some n →
  rg_nodes (delete_node x g) !! z = Some m ↔
  z ≠ x ∧ ∃ m0, rg_nodes g !! z = Some m0 ∧
    m = mkRGNode (if decide (z ∈ rg_in n) then rg_out m0 ∖ {[x]} else rg_out m0)
                 (if decide (z ∈ rg_out n) then rg_in m0 ∖ {[x]} else rg_in m0).
Proof.
  intros Hx. unfold delete_node. rewrite Hx. cbn [rg_nodes]. rewrite map_lookup_imap.
  destruct (decide (z = x)) as [->|Hne].
  - rewrite lookup_delete_eq. naive_solver.
  - rewrite lookup_delete_ne by done. destruct (rg_nodes g !! z); cbn; naive_solver.
Qed.

Lemma delete_edge g x a b :
  rg_wf g → is_Some (rg_nodes g !! x) →
  edge (rg_nodes (delete_node x g)) a b ↔ edge (rg_nodes g) a b ∧ a ≠ x ∧ b ≠ x.
Proof.
  intros Hw [n Hn]. unfold edge at 1. setoid_rewrite (delete_lookup g x n); [|done]. split.
  - intros (m & (Hne & m0 & Hm0 & ->) & Hb). cbn in Hb.
    assert (edge (rg_nodes g) a b) as He.
    { exists m0. split; [done|]. case_decide; set_solver. }
    split; [done|]. split; [done|]. intros ->.
    apply (wf_mirror _ Hw) in He as (n' & Hn' & Hin). simplify_eq. rewrite decide_True in Hb by done. set_solver.
  - intros ((m0 & Hm0 & Hb) & Ha & Hbx). eexists. split; [split; [done|eexists; split; [done|reflexivity]]|].
    cbn. case_decide; set_solver.
Qed.

Lemma delete_inedge g x a b :
  rg_wf g → is_Some (rg_nodes g !! x) →
  inedge (rg_nodes (delete_node x g)) a b ↔ inedge (rg_nodes g) a b ∧ a ≠ x ∧ b ≠ x.
Proof.
  intros Hw [n Hn]. unfold inedge at 1. setoid_rewrite (delete_lookup g x n); [|done]. split.
  - intros (m & (Hne & m0 & Hm0 & ->) & Hb). cbn in Hb.
    assert (inedge (rg_nodes g) a b) as He.
    { exists m0. split; [done|]. case_decide; set_solver. }
    split; [done|]. split; [|done]. intros ->.
    apply (wf_mirror _ Hw) in He as (n' & Hn' & Hin). simplify_eq. rewrite decide_True in Hb by done. set_solver.
  - intros ((m0 & Hm0 & Hb) & Ha & Hbx). eexists. split; [split; [done|eexists; split; [done|reflexivity]]|].
    cbn. case_decide; set_solver.
Qed.

Lemma delete_dom g x z :
  is_Some (rg_nodes g !! x) →
  is_Some (rg_nodes (delete_node x g) !! z) ↔ z ≠ x ∧ is_Some (rg_nodes g !! z).
Proof.
  intros [n Hn]. split.
  - intros [m (Hne & m0 & Hm0 & _)%(delete_lookup g x n)]; [|done]. split; [done|by eexists].
  - intros [Hne [m0 Hm0]]. eexists. apply (delete_lookup g x n); [done|]. eauto.
Qed.

Lemma delete_wf g x : rg_wf g → is_Some (rg_nodes g !! x) → rg_wf (delete_node x g).
Proof.
  intros Hw Hx. pose proof Hw as [Hm Hc Hl Hf]. split.
  - intros a b. by rewrite delete_edge, delete_inedge, Hm.
  - intros z [Hne Hz]%delete_dom; [|done]. destruct Hx as [n Hn]. unfold delete_node. rewrite Hn. cbn.
    rewrite lookup_delete_ne by done. by apply Hc.
  - intros z c. destruct Hx as [n Hn]. unfold delete_node. rewrite Hn. cbn.
    rewrite lookup_delete_Some. intros [_ Hz]. by eapply Hl.
  - intros t. rewrite delete_dom by done. destruct Hx as [n Hn]. unfold delete_node. rewrite Hn. cbn.
    destruct x as [l|t'].
    + rewrite Hf. naive_solver.
    + destruct (decide (t = t')) as [->|]; [rewrite lookup_delete_eq; naive_solver|].
      rewrite lookup_delete_ne by done. rewrite Hf. naive_solver.
Qed.

(** ** The loops *)

(** Adding the edges [fx i -> fy i] for the [i] of a list that [p] does not rule out. *)
Lemma add_edges_spec {A} (p : A → bool) (fx fy : A → rgid) l g :
  rg_wf g → (∀ i, i ∈ l → is_Some (rg_nodes g !! fx i) ∧ is_Some (rg_nodes g !! fy i)) →
  let g' := foldl (fun g i => if p i then g else add_edge (fx i) (fy i) g) g l in
  rg_wf g' ∧ (∀ z, is_Some (rg_nodes g' !! z) ↔ is_Some (rg_nodes g !! z)) ∧
  rg_color g' = rg_color g ∧ rg_flags g' = rg_flags g ∧
  ∀ a b, edge (rg_nodes g') a b ↔
         edge (rg_nodes g) a b ∨ ∃ i, i ∈ l ∧ p i = false ∧ a = fx i ∧ b = fy i.
Proof.
  revert g. induction l as [|i l IH]; intros g Hw Hl; cbn [foldl].
  { split_and!; try done. intros a b. split; [by left|]. intros [?|(i & Hi & _)]; [done|]. by apply elem_of_nil in Hi. }
  destruct (Hl i ltac:(left)) as [Hx Hy].
  destruct (IH (if p i then g else add_edge (fx i) (fy i) g)) as (Hw' & Hd & Hc & Hf & He).
  - destruct (p i); [done|]. by apply add_edge_wf.
  - intros j Hj. destruct (Hl j ltac:(by right)). destruct (p i); [done|]. by rewrite !add_edge_dom.
  - split_and!; [done|..].
    + intros z. rewrite Hd. destruct (p i); [done|apply add_edge_dom].
    + rewrite Hc. by destruct (p i).
    + rewrite Hf. by destruct (p i).
    + intros a b. rewrite He. destruct (p i) eqn:Hp.
      * split; [intros [?|(j & ? & ?)]; [by left|right; exists j; set_solver]|].
        intros [?|(j & [->|Hj]%elem_of_cons & Hpj & Hab)]; [by left|congruence|right; by exists j].
      * rewrite add_edge_edge by done.
        split; [intros [[?|[-> ->]]|(j & ? & ?)]; [by left|right; exists i; set_solver|right; exists j; set_solver]|].
        intros [?|(j & [->|Hj]%elem_of_cons & Hpj & Hab)]; [by left; left|left; by right|right; by exists j].
Qed.

Lemma new_nodes_spec l g :
  rg_wf g → 0 ≤ rg_color g → NoDup l → (∀ i, i ∈ l → rg_nodes g !! Res i = None) →
  let g' := foldl (fun g i => new_node (Res i) g) g l in
  rg_wf g' ∧ (∀ z, is_Some (rg_nodes g' !! z) ↔ is_Some (rg_nodes g !! z) ∨ ∃ i, i ∈ l ∧ z = Res i) ∧
  rg_color g' = rg_color g ∧ rg_flags g' = rg_flags g ∧
  ∀ a b, edge (rg_nodes g') a b ↔ edge (rg_nodes g) a b.
Proof.
  intros Hw H0 Hnd Hl. revert g Hw H0 Hl. induction Hnd as [|i l Hni Hnd IH]; intros g Hw H0 Hl; cbn [foldl].
  { split_and!; try done. intros z. split; [by left|]. intros [?|(i & Hi & _)]; [done|]. by apply elem_of_nil in Hi. }
  assert (rg_nodes g !! Res i = None) as Hi by (apply Hl; left).
  destruct (IH (new_node (Res i) g)) as (Hw' & Hd & Hc & Hf & He).
  - by apply new_node_wf.
  - done.
  - intros j Hj. cbn. rewrite lookup_insert_ne by congruence. apply Hl. by right.
  - split_and!; [done|..].
    + intros z. rewrite Hd, new_node_dom. split.
      * intros [[->|?]|(j & ? & ?)]; [right; exists i; set_solver|by left|right; exists j; set_solver].
      * intros [?|(j & [->|Hj]%elem_of_cons & ->)]; [by left; right|by left; left|right; by exists j].
    + by rewrite Hc.
    + by rewrite Hf.
    + intros a b. rewrite He. by apply new_node_edge.
Qed.

(** The flags after waking the transactions of a list. *)
Definition woken (l : list rgid) (t : Z) (o : option TxnFlags) : option TxnFlags :=
  (fun f => mkFlags (tn_die f) (tn_sleeping f && negb (bool_decide (Tx t ∈ l)))) <$> o.

Lemma wake_wf g t : rg_wf g → rg_wf (wake t g).
Proof.
  intros [Hm Hc Hl Hf]. split; try done. intros t'. cbn. rewrite Hf.
  destruct (decide (t' = t)) as [->|].
  - rewrite lookup_alter_eq. destruct (rg_flags g !! t); cbn; split; intros [? ?]; by eexists || done.
  - by rewrite lookup_alter_ne.
Qed.

Lemma detach_spec r l g :
  rg_wf g →
  let g' := foldl (fun g x => match x with Tx t => remove_edge x r (wake t g) | Res _ => g end) g l in
  rg_wf g' ∧ (∀ z, is_Some (rg_nodes g' !! z) ↔ is_Some (rg_nodes g !! z)) ∧ rg_color g' = rg_color g ∧
  (∀ a b, edge (rg_nodes g') a b ↔ edge (rg_nodes g) a b ∧ ¬ (b = r ∧ ∃ t, a = Tx t ∧ a ∈ l)) ∧
  (∀ t, rg_flags g' !! t = woken l t (rg_flags g !! t)).
Proof.
  revert g. induction l as [|x l IH]; intros g Hw; cbn [foldl].
  { split_and!; try done.
    - intros a b. split; [|by intros []]. intros He. split; [done|]. intros (_ & t & _ & Hin).
      by apply elem_of_nil in Hin.
    - intros t. unfold woken. destruct (rg_flags g !! t) as [[d b]|]; cbn; [|done].
      by rewrite andb_true_r. }
  destruct x as [i|t].
  - destruct (IH g Hw) as (Hw' & Hd & Hc & He & Hf). split_and!; try done.
    + intros a b. rewrite He. split; intros [H1 H2]; (split; [done|]); intros (-> & t & -> & Hin); apply H2;
        (split; [done|]); exists t; (split; [done|]); set_solver.
    + intros t. rewrite Hf. unfold woken. destruct (rg_flags g !! t); cbn; [|done]. do 4 f_equal.
      apply bool_decide_ext. set_solver.
  - destruct (IH (remove_edge (Tx t) r (wake t g))) as (Hw' & Hd & Hc & He & Hf).
    { by apply remove_edge_wf, wake_wf. }
    split_and!; [done|..].
    + intros z. rewrite Hd, remove_edge_dom. done.
    + by rewrite Hc.
    + intros a b. rewrite He, remove_edge_edge. cbn [wake rg_nodes set_flags]. split.
      * intros [[H1 H2] H3]. split; [done|]. intros (-> & t' & -> & [[= ->]|Hin]%elem_of_cons); [by apply H2|].
        apply H3. split; [done|]. by exists t'.
      * intros [H1 H2]. split; [split; [done|]|].
        -- intros [-> ->]. apply H2. split; [done|]. exists t. split; [done|left].
        -- intros (-> & t' & -> & Hin). apply H2. split; [done|]. exists t'. split; [done|by right].
    + intros t'. rewrite Hf. cbn. destruct (decide (t' = t)) as [->|Hne].
      * rewrite lookup_alter_eq. unfold woken. destruct (rg_flags g !! t) as [[d b]|]; cbn; [|done].
        rewrite bool_decide_eq_true_2 by left. cbn. by rewrite andb_false_r.
      * rewrite lookup_alter_ne by done. unfold woken. destruct (rg_flags g !! t') as [[d b]|]; cbn; [|done].
        do 4 f_equal. apply bool_decide_ext. set_solver.
Qed.

(** ** The invariant *)

(** [t] holds the block; [t] waits for the block. *)
Definition holds (g : LBIDResourceGraph) (t l : Z) : Prop := edge (rg_nodes g) (Res l) (Tx t).
Definition waits (g : LBIDResourceGraph) (t l : Z) : Prop := edge (rg_nodes g) (Tx t) (Res l).

Record rg_inv (g : LBIDResourceGraph) : Prop := mkRgInv {
  ri_wf : rg_wf g;
  ri_color : 0 ≤ rg_color g;
  ri_bipartite a b : edge (rg_nodes g) a b →
    (∃ t l, a = Tx t ∧ b = Res l) ∨ (∃ t l, a = Res l ∧ b = Tx t);
  ri_held l : is_Some (rg_nodes g !! Res l) → ∃ t, holds g t l;
  ri_unique t t' l : holds g t l → holds g t' l → t = t';
}.

Lemma wf_flags_change g fl :
  rg_inv g → (∀ t, is_Some (fl !! t) ↔ is_Some (rg_flags g !! t)) → rg_inv (set_flags fl g).
Proof.
  intros [[Hm Hc Hl Hf] H0 Hb Hh Hu] Hfl. split; try done. split; try done.
  intros t. cbn. by rewrite Hfl.
Qed.

Lemma filter_list_elem {A} (p : A → bool) (l : list A) x : x ∈ List.filter p l ↔ x ∈ l ∧ p x = true.
Proof. by rewrite !list_elem_of_In, filter_In. Qed.

(** What [connectResources] does to the edges. *)
Lemma connectResources_spec start end_ txn g :
  rg_inv g → is_Some (rg_nodes g !! Tx txn) →
  let g' := connectResources start end_ txn g in
  rg_inv g' ∧ rg_color g' = rg_color g ∧ rg_flags g' = rg_flags g ∧
  (∀ z, is_Some (rg_nodes g !! z) → is_Some (rg_nodes g' !! z)) ∧
  (∀ t l, holds g' t l ↔ holds g t l ∨ (t = txn ∧ start ≤ l ≤ end_ ∧ rg_nodes g !! Res l = None)) ∧
  (∀ t l, waits g' t l ↔ waits g t l ∨
     (t = txn ∧ start ≤ l ≤ end_ ∧ is_Some (rg_nodes g !! Res l) ∧ ¬ holds g txn l)).
Proof.
  intros [Hw H0 Hb Hh Hu] Htx.
  set (range := zseq start (end_ - start + 1)).
  set (inter := List.filter (fun i => bool_decide (is_Some (rg_nodes g !! Res i))) range).
  set (reserve := List.filter (fun i => negb (bool_decide (is_Some (rg_nodes g !! Res i)))) range).
  assert (∀ i, i ∈ range ↔ start ≤ i ≤ end_) as Hrange by (intros i; unfold range; rewrite zseq_elem; lia).
  assert (∀ i, i ∈ inter ↔ start ≤ i ≤ end_ ∧ is_Some (rg_nodes g !! Res i)) as Hinter.
  { intros i. unfold inter. rewrite filter_list_elem, Hrange. cbv beta. by rewrite bool_decide_eq_true. }
  assert (∀ i, i ∈ reserve ↔ start ≤ i ≤ end_ ∧ rg_nodes g !! Res i = None) as Hres.
  { intros i. unfold reserve. rewrite filter_list_elem, Hrange. cbv beta. rewrite negb_true_iff, bool_decide_eq_false.
    by rewrite eq_None_not_Some. }
  destruct (new_nodes_spec reserve g Hw H0) as (Hw1 & Hd1 & Hc1 & Hf1 & He1).
  { unfold reserve. apply NoDup_ListNoDup, List.NoDup_filter, NoDup_ListNoDup, zseq_nodup. }
  { intros i Hi. by apply Hres. }
  set (g1 := foldl (fun g i => new_node (Res i) g) g reserve) in *.
  set (held := fun i => match rg_nodes g1 !! Tx txn with
                        | Some n => bool_decide (Res i ∈ rg_in n)
                        | None => false
                        end).
  assert (is_Some (rg_nodes g1 !! Tx txn)) as Htx1 by (apply Hd1; by left).
  assert (∀ i, held i = true ↔ holds g txn i) as Hheld.
  { intros i. unfold holds. rewrite <- He1, <- (wf_mirror _ Hw1). unfold held.
    destruct Htx1 as [n Hn]. rewrite Hn. rewrite bool_decide_eq_true. split; [by exists n|].
    intros (n' & Hn' & Hin). congruence. }
  destruct (add_edges_spec held (fun _ => Tx txn) Res inter g1 Hw1) as (Hw2 & Hd2 & Hc2 & Hf2 & He2).
  { intros i Hi%Hinter. split; [done|]. apply Hd1. left. by apply Hi. }
  set (g2 := foldl (fun g i => if held i then g else add_edge (Tx txn) (Res i) g) g1 inter) in *.
  destruct (add_edges_spec (fun _ => false) Res (fun _ => Tx txn) reserve g2 Hw2) as (Hw3 & Hd3 & Hc3 & Hf3 & He3).
  { intros i Hi. rewrite !Hd2. split; [apply Hd1; right; by exists i|done]. }
  set (g3 := foldl (fun g i => add_edge (Res i) (Tx txn) g) g2 reserve) in *.
  change (foldl (fun g i => if false then g else add_edge (Res i) (Tx txn) g) g2 reserve) with g3 in *.
  change (connectResources start end_ txn g) with g3. cbv zeta.
  assert (∀ a b, edge (rg_nodes g3) a b ↔ edge (rg_nodes g) a b ∨
    (∃ i, i ∈ inter ∧ held i = false ∧ a = Tx txn ∧ b = Res i) ∨
    (∃ i, i ∈ reserve ∧ a = Res i ∧ b = Tx txn)) as He.
  { intros a b. rewrite He3, He2, He1. clear. naive_solver. }
  assert (∀ z, is_Some (rg_nodes g3 !! z) ↔ is_Some (rg_nodes g !! z) ∨ ∃ i, i ∈ reserve ∧ z = Res i) as Hd.
  { intros z. by rewrite Hd3, Hd2, Hd1. }
  assert (∀ t l, holds g3 t l ↔ holds g t l ∨ (t = txn ∧ start ≤ l ≤ end_ ∧ rg_nodes g !! Res l = None)) as Hhold.
  { intros t l. unfold holds. rewrite He. setoid_rewrite Hres. clear. naive_solver. }
  assert (∀ t l, waits g3 t l ↔ waits g t l ∨
    (t = txn ∧ start ≤ l ≤ end_ ∧ is_Some (rg_nodes g !! Res l) ∧ ¬ holds g txn l)) as Hwait.
  { intros t l. unfold waits. rewrite He. setoid_rewrite Hinter. split.
    - intros [?|[(i & [? ?] & Hni & [= ->] & [= ->])|(i & _ & [=] & _)]]; [by left|right].
      split_and!; try done; try lia. rewrite <- Hheld. congruence.
    - intros [?|(-> & ? & ? & Hn)]; [by left|right; left]. exists l. split_and!; try done; try lia.
      apply not_true_iff_false. by rewrite Hheld. }
  assert (∀ l, holds g txn l → is_Some (rg_nodes g !! Res l)) as Hsrc by (intros l; apply edge_source).
  split; [|split_and!; try done; [congruence|congruence|intros z Hz; apply Hd; by left]].
  split; [done|lia|..].
  - intros a b [Hab|[(i & _ & _ & -> & ->)|(i & _ & -> & ->)]]%He; [by apply Hb|left; eauto|right; eauto].
  - intros l [Hl|(i & Hi & [= <-])]%Hd.
    + destruct (Hh l Hl) as [t Ht]. exists t. apply Hhold. by left.
    + exists txn. apply Hhold. right. by apply Hres in Hi.
  - intros t t' l [H1|(-> & _ & Hn)]%Hhold [H2|(-> & _ & Hn')]%Hhold; [by eapply Hu|..|done].
    + apply edge_source in H1. rewrite Hn' in H1. by destruct H1.
    + apply edge_source in H2. rewrite Hn in H2. by destruct H2.
Qed.

(** ** Deadlock *)

(** A cycle of transactions waiting for each other, below a node. *)
Definition cycle_below (g : LBIDResourceGraph) (x : rgid) : Prop :=
  ∃ y, rtc (edge (rg_nodes g)) x y ∧ tc (edge (rg_nodes g)) y y.

Section Operations.
Context (order : gset rgid → list rgid) (order_perm : ∀ X, order X ≡ₚ elements X).

Lemma order_elem X x : x ∈ order X ↔ x ∈ X.
Proof. rewrite order_perm. apply elem_of_elements. Qed.

Lemma checkDeadlock_spec x g :
  rg_inv g → rg_color g + 2 < 2 ^ 64 → is_Some (rg_nodes g !! x) →
  ∃ b C, checkDeadlock order x g =
           (Ret b, mkRG (rg_nodes g) C (rg_flags g) (rg_color g + 2)) ∧
    rg_inv (mkRG (rg_nodes g) C (rg_flags g) (rg_color g + 2)) ∧ (b = true ↔ cycle_below g x).
Proof.
  intros [Hw H0 Hb Hh Hu] Hc Hx. pose proof Hw as [Hm Hcol Hle Hf]. unfold checkDeadlock.
  assert (u64 (rg_color g + 1) = rg_color g + 1) as -> by (apply wrap_u_small; lia).
  assert (u64 (rg_color g + 1 + 1) = rg_color g + 2) as -> by (rewrite wrap_u_small by lia; lia).
  destruct (DFS_correct order order_elem (rg_nodes g) (rg_color g + 1) (rg_color g + 2) ltac:(lia)
              (fun x y => edge_target g x y Hw) x (rg_colors g)) as (b & C & Hr & Hrc & Hiff); [done| |done|].
  { intros z. split; intros Hz%Hle; lia. }
  rewrite Hr. exists b, C. split; [done|]. split; [|done]. split; try done; [|cbn; lia]. split; try done.
  - intros z Hz. apply (proj1 (Hrc z)). by apply Hcol.
  - intros z c Hz. destruct (proj2 (Hrc z) c Hz) as [->|[->|Hz'%Hle]]; cbn; lia.
Qed.

(** What the wait of [reserveRange] comes to. *)
Definition reserved (g : LBIDResourceGraph) (txn : Z) (r : reserve) (g' : LBIDResourceGraph) : Prop :=
  rg_inv g' ∧ rg_nodes g' = rg_nodes g ∧
  match r with
  | Code rc => (rc = ERR_OK ∧ ∀ l, ¬ waits g txn l) ∨ (rc = ERR_DEADLOCK ∧ cycle_below g (Tx txn))
  | Sleeping => (∃ l, waits g txn l) ∧ ¬ cycle_below g (Tx txn) ∧
                tn_sleeping <$> rg_flags g' !! txn = Some true
  end.

Lemma reserve_wait_spec txn g :
  rg_inv g → rg_color g + 2 < 2 ^ 64 → is_Some (rg_nodes g !! Tx txn) →
  ∃ r g', reserve_wait order txn g = (Ret r, g') ∧ reserved g txn r g'.
Proof.
  intros Hi Hc Htx. pose proof Htx as [n Hn]. unfold reserve_wait. rewrite Hn.
  destruct (decide (rg_out n = ∅)) as [Hout|Hout].
  - rewrite bool_decide_eq_true_2 by done. exists (Code ERR_OK), g. split; [done|]. split; [done|].
    split; [done|]. left. split; [done|]. intros l (n' & Hn' & Hl). simplify_eq. set_solver.
  - rewrite bool_decide_eq_false_2 by done.
    destruct (checkDeadlock_spec (Tx txn) g Hi Hc Htx) as (b & C & Hr & Hi' & Hiff).
    rewrite (bind_ret _ _ _ _ _ Hr). destruct b.
    + exists (Code ERR_DEADLOCK). eexists. split; [done|]. split; [done|]. split; [done|]. right.
      split; [done|]. by apply Hiff.
    + exists Sleeping. eexists. split; [done|]. split; [|split; [done|]].
      * apply (wf_flags_change _ _ Hi'). intros t. cbn. destruct (decide (t = txn)) as [->|].
        -- rewrite lookup_alter_eq. destruct (rg_flags g !! txn); cbn; split; intros [? ?]; by eexists || done.
        -- by rewrite lookup_alter_ne.
      * split; [|split].
        -- apply set_choose_L in Hout as [x Hx]. assert (edge (rg_nodes g) (Tx txn) x) as He by by exists n.
           destruct (ri_bipartite _ Hi _ _ He) as [(t & l & [= ->] & ->)|(t & l & [=] & _)]. by exists l.
        -- intros Hcy. apply Hiff in Hcy. done.
        -- apply (wf_flags _ (ri_wf _ Hi)) in Htx as [f Hf]. cbn. by rewrite lookup_alter_eq, Hf.
Qed.

(** [reserveRange] from any state, up to its end or its first sleep. *)
Lemma reserveRange_spec start end_ txn g :
  rg_inv g → rg_color g + 2 < 2 ^ 64 →
  ∃ r g', reserveRange order start end_ txn g = (Ret r, g') ∧ rg_inv g' ∧
    (∀ t l, t ≠ txn → holds g' t l ↔ holds g t l) ∧
    match r with
    | Code rc => (rc = ERR_OK ∧ ∀ l, start ≤ l ≤ end_ → holds g' txn l) ∨
                 (rc = ERR_DEADLOCK ∧ cycle_below g' (Tx txn))
    | Sleeping => (∃ l, waits g' txn l) ∧ ¬ cycle_below g' (Tx txn)
    end.
Proof.
  intros Hi Hc. unfold reserveRange.
  set (g0 := if bool_decide (is_Some (rg_nodes g !! Tx txn)) then g else new_node (Tx txn) g).
  assert (rg_inv g0 ∧ rg_color g0 = rg_color g ∧ is_Some (rg_nodes g0 !! Tx txn) ∧
    ∀ t l, holds g0 t l ↔ holds g t l) as (Hi0 & Hc0 & Htx & Hh0).
  { unfold g0. case_bool_decide as Hex; [done|]. apply eq_None_not_Some in Hex.
    assert (∀ a b, edge (rg_nodes (new_node (Tx txn) g)) a b ↔ edge (rg_nodes g) a b) as He
      by (intros; by apply new_node_edge).
    destruct Hi as [Hw H0 Hb Hh Hu]. split; [|split; [done|split; [apply new_node_dom; by left|]]].
    - split; [by apply new_node_wf|done|..].
      + intros a b. rewrite He. apply Hb.
      + intros l [[=]|Hl]%new_node_dom. unfold holds. setoid_rewrite He. by apply Hh.
      + intros t t' l. unfold holds. rewrite !He. apply Hu.
    - intros t l. apply He. }
  erewrite bind_ret by reflexivity. fold g0. erewrite bind_ret by reflexivity.
  destruct (connectResources_spec start end_ txn g0 Hi0 Htx) as (Hi1 & Hc1 & Hf1 & Hd1 & Hhold & Hwait).
  set (g1 := connectResources start end_ txn g0) in *.
  destruct (reserve_wait_spec txn g1 Hi1 ltac:(lia) (Hd1 _ Htx)) as (r & g2 & Hr & Hi2 & Hn2 & Hres).
  exists r, g2. split; [done|]. split; [done|].
  assert (∀ t l, holds g2 t l ↔ holds g1 t l) as Hh2 by (intros; unfold holds; by rewrite Hn2).
  assert (∀ t l, waits g2 t l ↔ waits g1 t l) as Hw2 by (intros; unfold waits; by rewrite Hn2).
  assert (cycle_below g2 (Tx txn) ↔ cycle_below g1 (Tx txn)) as Hcy by (unfold cycle_below; by rewrite Hn2).
  split.
  - intros t l Hne. rewrite Hh2, Hhold, Hh0. naive_solver.
  - destruct r as [rc|].
    + destruct Hres as [[-> Hno]|[-> Hcyc]]; [left|right; by rewrite Hcy]. split; [done|].
      intros l Hl. rewrite Hh2, Hhold. destruct (rg_nodes g0 !! Res l) eqn:Hl0; [|by right].
      destruct (decide (edge (rg_nodes g0) (Res l) (Tx txn))) as [He|He]; [by left|exfalso].
      apply (Hno l). apply Hwait. right. split; [done|]. split; [done|]. split; [by rewrite Hl0|done].
    + destruct Hres as ([l Hl] & Hno & _). split; [exists l; by rewrite Hw2|by rewrite Hcy].
Qed.

(** ** Releasing *)

(** What is left of the flags: transactions that waited for one of the resources
    are awake. *)
Definition flags_woken (P : Z → Prop) (g g' : LBIDResourceGraph) : Prop :=
  ∀ t f, rg_flags g !! t = Some f →
    ∃ f', rg_flags g' !! t = Some f' ∧ tn_die f' = tn_die f ∧
          (tn_sleeping f' = true → tn_sleeping f = true) ∧ (P t → tn_sleeping f' = false).

(** The graph without the nodes of [rs]. *)
Definition without (rs : list rgid) (g g' : LBIDResourceGraph) : Prop :=
  rg_wf g' ∧ rg_color g' = rg_color g ∧
  (∀ z, is_Some (rg_nodes g' !! z) ↔ is_Some (rg_nodes g !! z) ∧ z ∉ rs) ∧
  (∀ a b, edge (rg_nodes g') a b ↔ edge (rg_nodes g) a b ∧ a ∉ rs ∧ b ∉ rs) ∧
  flags_woken (fun t => ∃ r, r ∈ rs ∧ edge (rg_nodes g) (Tx t) r) g g'.

Definition bipartite (g : LBIDResourceGraph) : Prop :=
  ∀ a b, edge (rg_nodes g) a b → (∃ t l, a = Tx t ∧ b = Res l) ∨ (∃ t l, a = Res l ∧ b = Tx t).

Lemma release_one_spec txn l g :
  rg_wf g → bipartite g → is_Some (rg_nodes g !! Res l) →
  without [Res l] g (release_one order txn g (Res l)).
Proof.
  intros Hw Hb Hr. pose proof Hr as [n Hn]. unfold release_one, wakeAndDetach. rewrite Hn.
  destruct (detach_spec (Res l) (order (rg_in n)) g Hw) as (Hw1 & Hd1 & Hc1 & He1 & Hf1).
  set (g1 := foldl _ g (order (rg_in n))) in *.
  set (g2 := remove_edge (Res l) (Tx txn) g1).
  assert (rg_wf g2) as Hw2 by by apply remove_edge_wf.
  assert (is_Some (rg_nodes g2 !! Res l)) as Hr2 by (apply remove_edge_dom, Hd1; done).
  split; [by apply delete_wf|]. destruct Hr2 as [n2 Hn2].
  assert (rg_color (delete_node (Res l) g2) = rg_color g2 ∧ rg_flags (delete_node (Res l) g2) = rg_flags g2) as [Hc2 Hf2].
  { unfold delete_node. by rewrite Hn2. }
  assert (is_Some (rg_nodes g2 !! Res l)) as Hr2 by by eexists.
  split; [by rewrite Hc2|]. split; [|split].
  - intros z. rewrite delete_dom by done. unfold g2. rewrite remove_edge_dom, Hd1. set_solver.
  - intros a b. rewrite delete_edge by done. unfold g2. rewrite remove_edge_edge, He1. split.
    + intros [[[He _] _] [Ha Hb']]. split; [done|]. set_solver.
    + intros (He & Ha & Hb'). split; [split; [split; [done|]|]|].
      * intros [-> _]. set_solver.
      * intros [-> _]. set_solver.
      * set_solver.
  - intros t f Hf. rewrite Hf2. change (rg_flags g2) with (rg_flags g1). rewrite Hf1, Hf. unfold woken. cbn.
    eexists. split; [reflexivity|]. cbn. split; [done|]. split; [by intros []%andb_true_iff|].
    intros (r & Hin%list_elem_of_singleton & He). subst r.
    apply (wf_mirror _ Hw) in He as (n' & Hn' & Hin). simplify_eq.
    rewrite bool_decide_eq_true_2 by by apply order_elem. cbn. apply andb_false_r.
Qed.

Lemma flags_woken_trans (P1 P2 P : Z → Prop) g g1 g2 :
  flags_woken P1 g g1 → flags_woken P2 g1 g2 → (∀ t, P t → P1 t ∨ P2 t) → flags_woken P g g2.
Proof.
  intros H1 H2 HP t f Hf. destruct (H1 t f Hf) as (f1 & Hf1 & Hd1 & Hs1 & Hw1).
  destruct (H2 t f1 Hf1) as (f2 & Hf2 & Hd2 & Hs2 & Hw2). exists f2. split; [done|].
  split; [congruence|]. split; [auto|]. intros [Ht|Ht]%HP; [|auto].
  destruct (tn_sleeping f2) eqn:Hsl; [|done]. specialize (Hs2 eq_refl). specialize (Hw1 Ht). congruence.
Qed.

Lemma release_all_spec txn rs g :
  rg_wf g → bipartite g → NoDup rs → (∀ r, r ∈ rs → ∃ l, r = Res l ∧ is_Some (rg_nodes g !! r)) →
  without rs g (foldl (release_one order txn) g rs).
Proof.
  intros Hw Hb Hnd. revert g Hw Hb. induction Hnd as [|r rs Hni Hnd IH]; intros g Hw Hb Hrs; cbn [foldl].
  { split; [done|]. split; [done|]. split; [|split].
    - intros z. split; [|by intros []]. intros Hz. split; [done|apply not_elem_of_nil].
    - intros a b. split; [|by intros []]. intros He. split; [done|]. split; apply not_elem_of_nil.
    - intros t f Hf. exists f. split_and!; try done. intros (r & Hr & _). by apply elem_of_nil in Hr. }
  destruct (Hrs r ltac:(left)) as (l & -> & Hl).
  destruct (release_one_spec txn l g Hw Hb Hl) as (Hw1 & Hc1 & Hd1 & He1 & Hf1).
  set (g1 := release_one order txn g (Res l)) in *.
  destruct (IH g1 Hw1) as (Hw2 & Hc2 & Hd2 & He2 & Hf2).
  - intros a b He. apply He1 in He as [He _]. by apply Hb.
  - intros r Hr. destruct (Hrs r ltac:(by right)) as (l' & -> & Hl'). exists l'. split; [done|].
    apply Hd1. split; [done|]. intros Heq%list_elem_of_singleton. by rewrite Heq in Hr.
  - split; [done|]. split; [congruence|]. split; [|split].
    + intros z. rewrite Hd2, Hd1, !not_elem_of_cons. pose proof (not_elem_of_nil z). tauto.
    + intros a b. rewrite He2, He1, !not_elem_of_cons. pose proof (not_elem_of_nil a).
      pose proof (not_elem_of_nil b). tauto.
    + eapply flags_woken_trans; [exact Hf1|exact Hf2|]. intros t (r & [->|Hr]%elem_of_cons & He).
      * left. exists (Res l). split; [left|done].
      * destruct (decide (r = Res l)) as [->|Hne]; [done|]. right. exists r. split; [done|].
        apply He1. split; [done|]. rewrite !list_elem_of_singleton. done.
Qed.

(** Removing the out-edges of a transaction. *)
Lemma remove_outs_spec x rs g :
  rg_wf g →
  let g' := foldl (fun g r => remove_edge x r g) g rs in
  rg_wf g' ∧ rg_color g' = rg_color g ∧ rg_flags g' = rg_flags g ∧
  (∀ z, is_Some (rg_nodes g' !! z) ↔ is_Some (rg_nodes g !! z)) ∧
  (∀ a b, edge (rg_nodes g') a b ↔ edge (rg_nodes g) a b ∧ ¬ (a = x ∧ b ∈ rs)).
Proof.
  revert g. induction rs as [|r rs IH]; intros g Hw; cbn [foldl].
  { split_and!; try done. intros a b. split; [|by intros []]. intros He. split; [done|].
    intros [_ Hb]. by apply elem_of_nil in Hb. }
  destruct (IH (remove_edge x r g)) as (Hw' & Hc & Hf & Hd & He); [by apply remove_edge_wf|].
  split_and!; try done.
  - intros z. by rewrite Hd, remove_edge_dom.
  - intros a b. rewrite He, remove_edge_edge, elem_of_cons. tauto.
Qed.

(** The last lines of [releaseResources], on a transaction without edges. *)
Definition finish_release (txn : Z) (g : LBIDResourceGraph) : LBIDResourceGraph :=
  match rg_flags g !! txn with
  | Some f => if tn_sleeping f then wake txn (die txn g) else delete_node (Tx txn) g
  | None => g
  end.

Lemma finish_release_spec txn g :
  rg_wf g → is_Some (rg_nodes g !! Tx txn) →
  (∀ a b, edge (rg_nodes g) a b → a ≠ Tx txn ∧ b ≠ Tx txn) →
  let g' := finish_release txn g in
  rg_wf g' ∧ rg_color g' = rg_color g ∧
  (∀ a b, edge (rg_nodes g') a b ↔ edge (rg_nodes g) a b) ∧
  (∀ l, is_Some (rg_nodes g' !! Res l) ↔ is_Some (rg_nodes g !! Res l)) ∧
  (∀ t, t ≠ txn → rg_flags g' !! t = rg_flags g !! t).
Proof.
  intros Hw Htx Hno. unfold finish_release. pose proof Htx as [f Hf]%(wf_flags _ Hw). rewrite Hf.
  destruct (tn_sleeping f).
  - split; [|split_and!; try done].
    + apply wake_wf. destruct Hw as [Hm Hc Hl Hfl]. split; try done. intros t. cbn. rewrite Hfl.
      destruct (decide (t = txn)) as [->|]; [rewrite lookup_alter_eq, Hf; cbn; split; eauto|].
      by rewrite lookup_alter_ne.
    + intros t Ht. cbn. by rewrite !lookup_alter_ne by done.
  - split; [by apply delete_wf|]. pose proof Htx as [n Hn]. split; [|split; [|split]].
    + unfold delete_node. by rewrite Hn.
    + intros a b. rewrite delete_edge by done. split; [by intros []|]. intros He. split; [done|by apply Hno].
    + intros l. rewrite delete_dom by done. split; [by intros []|]. by intros He.
    + intros t Ht. unfold delete_node. rewrite Hn. cbn. by rewrite lookup_delete_ne.
Qed.

Lemma releaseResources_spec txn g :
  rg_inv g →
  let g' := releaseResources order txn g in
  rg_inv g' ∧ (∀ l, ¬ holds g' txn l ∧ ¬ waits g' txn l) ∧
  (∀ t l, t ≠ txn → holds g' t l ↔ holds g t l) ∧
  (∀ t l, t ≠ txn → waits g' t l ↔ waits g t l ∧ ¬ holds g txn l) ∧
  (∀ l, holds g txn l → rg_nodes g' !! Res l = None) ∧
  (∀ t l f, t ≠ txn → waits g t l → holds g txn l → rg_flags g' !! t = Some f → tn_sleeping f = false).
Proof.
  intros Hi. pose proof Hi as [Hw H0 Hb Hh Hu]. unfold releaseResources.
  destruct (rg_nodes g !! Tx txn) as [n|] eqn:Hn; cycle 1.
  { assert (∀ l, ¬ holds g txn l ∧ ¬ waits g txn l) as Hno.
    { intros l. split; intros He; [apply (edge_target _ _ _ Hw) in He|apply edge_source in He];
        rewrite Hn in He; by destruct He. }
    split_and!; try done; [naive_solver|intros l Hl; by destruct (proj1 (Hno l))
      |intros t l f _ _ Hl; by destruct (proj1 (Hno l))]. }
  set (rs := order (rg_in n)).
  assert (∀ r, r ∈ rs ↔ edge (rg_nodes g) r (Tx txn)) as Hrs.
  { intros r. unfold rs. rewrite order_elem, <- (wf_mirror _ Hw). split; [by exists n|].
    intros (n' & Hn' & Hr). by simplify_eq. }
  assert (∀ l, Res l ∈ rs ↔ holds g txn l) as Hrs' by (intros l; apply Hrs).
  assert (∀ t, Tx t ∉ rs) as Hnt.
  { intros t Ht%Hrs. destruct (Hb _ _ Ht) as [(? & ? & _ & [=])|(? & ? & [=] & _)]. }
  destruct (release_all_spec txn rs g Hw Hb) as (Hw1 & Hc1 & Hd1 & He1 & Hf1).
  { unfold rs. rewrite order_perm. apply NoDup_elements. }
  { intros r Hr%Hrs. destruct (Hb _ _ Hr) as [(? & ? & _ & [=])|(t & l & -> & _)]. exists l.
    split; [done|]. by apply edge_source in Hr. }
  set (g1 := foldl (release_one order txn) g rs) in *.
  assert (is_Some (rg_nodes g1 !! Tx txn)) as Htx1 by (apply Hd1; split; [by eexists|apply Hnt]).
  pose proof Htx1 as [n1 Hn1]. rewrite Hn1.
  destruct (remove_outs_spec (Tx txn) (order (rg_out n1)) g1 Hw1) as (Hw2 & Hc2 & Hf2 & Hd2 & He2).
  set (g2 := foldl (fun g r => remove_edge (Tx txn) r g) g1 (order (rg_out n1))) in *.
  assert (∀ a b, edge (rg_nodes g2) a b ↔
    edge (rg_nodes g) a b ∧ a ∉ rs ∧ b ∉ rs ∧ a ≠ Tx txn) as He.
  { intros a b. rewrite He2, He1, order_elem. split.
    - intros [(He & Ha & Hb') Hne]. split_and!; try done. intros ->. apply Hne. split; [done|].
      assert (edge (rg_nodes g1) (Tx txn) b) as (n' & Hn' & Hin) by by apply He1. by simplify_eq.
    - intros (He & Ha & Hb' & Hne). split; [done|]. by intros [-> _]. }
  destruct (finish_release_spec txn g2 Hw2) as (Hw3 & Hc3 & He3 & Hd3 & Hf3).
  { by apply Hd2. }
  { intros a b (Hab & Ha & _ & Hne)%He. split; [done|]. intros ->. by apply Ha, Hrs. }
  change (match rg_flags g2 !! txn with
          | Some f => if tn_sleeping f then wake txn (die txn g2) else delete_node (Tx txn) g2
          | None => g2 end) with (finish_release txn g2).
  set (g3 := finish_release txn g2) in *.
  assert (∀ t l, holds g3 t l ↔ holds g t l ∧ ¬ holds g txn l) as Hhold.
  { intros t l. unfold holds at 1. rewrite He3, He. rewrite Hrs'. split; [by intros (? & ? & _)|].
    intros [? ?]. split_and!; [done|done|apply Hnt|done]. }
  assert (∀ t l, waits g3 t l ↔ waits g t l ∧ ¬ holds g txn l ∧ t ≠ txn) as Hwait.
  { intros t l. unfold waits at 1. rewrite He3, He. rewrite Hrs'. split.
    - intros (? & _ & ? & Hne). split_and!; [done|done|congruence].
    - intros (? & ? & ?). split_and!; [done|apply Hnt|done|congruence]. }
  assert (∀ l, is_Some (rg_nodes g3 !! Res l) ↔ is_Some (rg_nodes g !! Res l) ∧ ¬ holds g txn l) as Hdom.
  { intros l. by rewrite Hd3, Hd2, Hd1, Hrs'. }
  split; [|split_and!].
  - split; [done|lia|..].
    + intros a b Hab%He3. apply He in Hab as [Hab _]. by apply Hb.
    + intros l [Hl Hnh]%Hdom. destruct (Hh l Hl) as [t Ht]. exists t. by apply Hhold.
    + intros t t' l [H1 _]%Hhold [H2 _]%Hhold. by eapply Hu.
  - intros l. rewrite Hhold, Hwait. tauto.
  - intros t l Hne. rewrite Hhold. split; [by intros []|]. intros Ht. split; [done|].
    intros Htx. by apply Hne, (Hu t txn l).
  - intros t l Hne. rewrite Hwait. tauto.
  - intros l Hl. apply eq_None_not_Some. rewrite Hdom. tauto.
  - intros t l f Hne Hwt Hl Hf. rewrite Hf3, Hf2 in Hf by done.
    assert (is_Some (rg_flags g !! t)) as [f0 Hf0].
    { apply (wf_flags _ Hw). by apply edge_source in Hwt. }
    destruct (Hf1 t f0 Hf0) as (f1 & Hf1' & _ & _ & Hs). simplify_eq. apply Hs.
    exists (Res l). split; [by apply Hrs'|done].
Qed.
End Operations.

(** * Theorems *)


(** C23 [checkDeadlock] terminates and returns true exactly when a cycle of the
    wait-for graph can be reached from the transaction, whatever the order of the
    pointers and the colours left by earlier searches; it changes no edge. *)
Theorem checkDeadlock_iff_cycle order x g :
  (∀ X, order X ≡ₚ elements X) → rg_inv g → rg_color g + 2 < 2 ^ 64 → is_Some (rg_nodes g !! x) →
  ∃ b C, checkDeadlock order x g = (Ret b, mkRG (rg_nodes g) C (rg_flags g) (rg_color g + 2)) ∧
    rg_inv (mkRG (rg_nodes g) C (rg_flags g) (rg_color g + 2)) ∧
    (b = true ↔ ∃ y, rtc (edge (rg_nodes g)) x y ∧ tc (edge (rg_nodes g)) y y).
Proof. intros Ho Hi Hc Hx. exact (checkDeadlock_spec order Ho x g Hi Hc Hx). Qed.

(** [reserveRange], up to its end or its first sleep: if it returns ERR_OK the
    transaction holds every LBID of the range; if it returns ERR_DEADLOCK there is
    a cycle; if it goes to sleep it waits for an LBID and there is none.  What
    other transactions hold is not touched, and no LBID is ever held by two. *)
Theorem reserveRange_outcome order start end_ txn g :
  (∀ X, order X ≡ₚ elements X) → rg_inv g → rg_color g + 2 < 2 ^ 64 →
  ∃ r g', reserveRange order start end_ txn g = (Ret r, g') ∧ rg_inv g' ∧
    (∀ t l, t ≠ txn → holds g' t l ↔ holds g t l) ∧
    match r with
    | Code rc => (rc = ERR_OK ∧ ∀ l, start ≤ l ≤ end_ → holds g' txn l) ∨
                 (rc = ERR_DEADLOCK ∧ cycle_below g' (Tx txn))
    | Sleeping => (∃ l, waits g' txn l) ∧ ¬ cycle_below g' (Tx txn)
    end.
Proof. intros Ho Hi Hc. exact (reserveRange_spec order Ho start end_ txn g Hi Hc). Qed.

(** [releaseResources] takes everything from the transaction: it holds and waits
    for nothing, its LBIDs are free, every transaction that waited for one of them
    waits for it no more and is woken; the others keep what they hold and what
    else they wait for. *)
Theorem releaseResources_outcome order txn g :
  (∀ X, order X ≡ₚ elements X) → rg_inv g →
  let g' := releaseResources order txn g in
  rg_inv g' ∧ (∀ l, ¬ holds g' txn l ∧ ¬ waits g' txn l) ∧
  (∀ t l, t ≠ txn → holds g' t l ↔ holds g t l) ∧
  (∀ t l, t ≠ txn → waits g' t l ↔ waits g t l ∧ ¬ holds g txn l) ∧
  (∀ l, holds g txn l → rg_nodes g' !! Res l = None) ∧
  (∀ t l f, t ≠ txn → waits g t l → holds g txn l → rg_flags g' !! t = Some f → tn_sleeping f = false).
Proof. intros Ho Hi. exact (releaseResources_spec order Ho txn g Hi). Qed.

(** ** Instances *)

Definition rg0 : LBIDResourceGraph := mkRG ∅ ∅ ∅ 0.

Lemma rg0_inv : rg_inv rg0.
Proof.
  assert (∀ a b, ¬ edge (rg_nodes rg0) a b) as Hno by (intros a b (n & Hn & _); done).
  split; [split|done|..].
  - intros x y. split; [by intros (n & Hn & _)|]. by intros ?%Hno.
  - by intros x [n Hn].
  - by intros x c Hc.
  - intros t. split; by intros [? ?].
  - by intros a b ?%Hno.
  - by intros l [n Hn].
  - by intros t t' l ?%Hno.
Qed.

(** Transaction 10 holds LBIDs 1 and 2, 11 holds 3, and 10 waits for 3. *)
Definition rg3 : LBIDResourceGraph :=
  ((reserveRange elements 1 2 10 ≫= fun _ => reserveRange elements 3 3 11 ≫= fun _ =>
    reserveRange elements 3 3 10) rg0).2.

Lemma rg3_inv : rg_inv rg3.
Proof.
  assert (∀ X : gset rgid, elements X ≡ₚ elements X) as Ho by done.
  unfold rg3. assert (∀ s e t g, rg_inv g → rg_color g + 2 < 2 ^ 64 →
    ∃ r, reserveRange elements s e t g = (Ret r, (reserveRange elements s e t g).2) ∧
         rg_inv (reserveRange elements s e t g).2) as Hstep.
  { intros s e t g Hi Hc. destruct (reserveRange_spec elements Ho s e t g Hi Hc) as (r & g' & Hr & Hi' & _).
    exists r. by rewrite Hr. }
  set (g1 := (reserveRange elements 1 2 10 rg0).2). set (g2 := (reserveRange elements 3 3 11 g1).2).
  destruct (Hstep 1 2 10 rg0 rg0_inv) as (r1 & Hr1 & Hi1); [vm_compute; reflexivity|].
  destruct (Hstep 3 3 11 g1 Hi1) as (r2 & Hr2 & Hi2); [vm_compute; reflexivity|].
  destruct (Hstep 3 3 10 g2 Hi2) as (r3 & Hr3 & Hi3); [vm_compute; reflexivity|].
  rewrite (bind_ret _ _ _ _ _ Hr1). fold g1. rewrite (bind_ret _ _ _ _ _ Hr2). fold g2. exact Hi3.
Qed.

Lemma checkDeadlock_iff_cycle_witness :
  ∃ b C, checkDeadlock elements (Tx 10) rg3 =
           (Ret b, mkRG (rg_nodes rg3) C (rg_flags rg3) (rg_color rg3 + 2)) ∧
    rg_inv (mkRG (rg_nodes rg3) C (rg_flags rg3) (rg_color rg3 + 2)) ∧
    (b = true ↔ ∃ y, rtc (edge (rg_nodes rg3)) (Tx 10) y ∧ tc (edge (rg_nodes rg3)) y y).
Proof.
  apply (checkDeadlock_iff_cycle elements (Tx 10) rg3);
    [intros X; reflexivity|exact rg3_inv|vm_compute; reflexivity|vm_compute; eexists; reflexivity].
Defined.

Lemma reserveRange_outcome_witness :
  (reserveRange elements 1 1 11 rg3).1 = Ret (Code ERR_DEADLOCK) ∧
  ∃ r g', reserveRange elements 1 1 11 rg3 = (Ret r, g') ∧ rg_inv g' ∧
    (∀ t l, t ≠ 11 → holds g' t l ↔ holds rg3 t l) ∧
    match r with
    | Code rc => (rc = ERR_OK ∧ ∀ l, 1 ≤ l ≤ 1 → holds g' 11 l) ∨
                 (rc = ERR_DEADLOCK ∧ cycle_below g' (Tx 11))
    | Sleeping => (∃ l, waits g' 11 l) ∧ ¬ cycle_below g' (Tx 11)
    end.
Proof.
  split; [vm_compute; reflexivity|].
  apply (reserveRange_outcome elements 1 1 11 rg3);
    [intros X; reflexivity|exact rg3_inv|vm_compute; reflexivity].
Defined.

Lemma releaseResources_outcome_witness :
  let g' := releaseResources elements 11 rg3 in
  rg_inv g' ∧ (∀ l, ¬ holds g' 11 l ∧ ¬ waits g' 11 l) ∧
  (∀ t l, t ≠ 11 → holds g' t l ↔ holds rg3 t l) ∧
  (∀ t l, t ≠ 11 → waits g' t l ↔ waits rg3 t l ∧ ¬ holds rg3 11 l) ∧
  (∀ l, holds rg3 11 l → rg_nodes g' !! Res l = None) ∧
  (∀ t l f, t ≠ 11 → waits rg3 t l → holds rg3 11 l → rg_flags g' !! t = Some f → tn_sleeping f = false).
Proof. apply (releaseResources_outcome elements 11 rg3); [intros X; reflexivity|exact rg3_inv]. Defined.

(** Transaction 10 waits for what 11 holds; 11 releases it, which wakes 10; before
    the thread of 10 runs, 10 is rolled back. *)
Definition rg_rolled_back : LBIDResourceGraph :=
  releaseResources elements 10 (releaseResources elements 11 rg3).

(** [wake] clears the flag that tells that a thread is inside [sleep] before
    that thread runs: if the transaction is released in between, its node is
    deleted at once, and the waiting call of [reserveRange] goes on with a freed
    node. *)
Theorem woken_then_released_faults :
  tn_sleeping <$> rg_flags rg3 !! 10 = Some true ∧
  rg_flags rg_rolled_back !! 10 = None ∧
  (reserveRange_awake elements 3 3 10 rg_rolled_back).1 = Exn Segfault.
Proof. vm_compute. done. Qed.
