(* ===== verification/ExtentMap.v ===== *)
(** * The extent map: data, segments and the free list ([extentmap.h], [extentmap.cpp])

    The extent map tells which range of LBIDs holds which part of which column
    file.  It lies in a shared array of [EMEntry]; an entry with [range.size] 0
    is free.  The LBIDs not in use are in a second shared array, the free list.
    Sizes count units of 1024 blocks.  Every change is imaged in the undo log.

    This file has the structures, how the two segments are locked and grown, how
    LBIDs are taken from and given back to the free list, and the casual
    partitioning data of the extents.  [EmCreate], [EmDelete], [EmQuery] and
    [EmFile] have the other operations. *)

From S2P Require Import Prelude Undo Table Vbbm Vss ColType.

(** ** Data *)

(** [InlineLBIDRange]: [size] units from LBID [start]. *)
Record InlineLBIDRange := mkIR { ir_start : Z; ir_size : Z }.

(** [EMCasualPartition_struct] *)
Record EMCasualPartition := mkCP {
  hi_val : Z;
  lo_val : Z;
  sequenceNum : Z;
  isValid : Z;
}.

Record EMEntry := mkEM {
  range : InlineLBIDRange;
  fileID : Z;
  blockOffset : Z;
  HWM : Z;
  partitionNum : Z;
  segmentNum : Z;
  dbRoot : Z;
  colWid : Z;
  status : Z;
  cprange : EMCasualPartition;
}.

#[global] Instance InlineLBIDRange_eq_dec : EqDecision InlineLBIDRange.
Proof. solve_decision. Defined.
#[global] Instance EMCasualPartition_eq_dec : EqDecision EMCasualPartition.
Proof. solve_decision. Defined.
#[global] Instance EMEntry_eq_dec : EqDecision EMEntry.
Proof. solve_decision. Defined.

Definition EXTENTAVAILABLE : Z := 0.
Definition EXTENTUNAVAILABLE : Z := 1.
Definition EXTENTOUTOFSERVICE : Z := 2.
Definition CP_INVALID : Z := 0.
Definition CP_UPDATING : Z := 1.
Definition CP_VALID : Z := 2.
Definition EM_MAX_SEQNUM : Z := 2000000000.
Definition DICT_COL_WIDTH : Z := 8.

Definition sizeof_EMEntry : Z := 64.
Definition sizeof_InlineLBIDRange : Z := 16.
Definition EM_INCREMENT_ROWS : Z := 100.
Definition EM_INITIAL_SIZE : Z := EM_INCREMENT_ROWS * 10 * sizeof_EMEntry.
Definition EM_INCREMENT : Z := EM_INCREMENT_ROWS * sizeof_EMEntry.
Definition EM_FREELIST_INITIAL_SIZE : Z := 50 * sizeof_InlineLBIDRange.
Definition EM_FREELIST_INCREMENT : Z := 50 * sizeof_InlineLBIDRange.
Definition KEYRANGE_EXTENTMAP_BASE : Z := 0x20000.
Definition KEYRANGE_EMFREELIST_BASE : Z := 0x30000.

Definition min_i64 : Z := - 2 ^ 63.
Definition max_i64 : Z := 2 ^ 63 - 1.
Definition max_u64 : Z := 2 ^ 64 - 1.

(** A zeroed entry. *)
Definition empty_range : InlineLBIDRange := mkIR 0 0.
Definition empty_EMEntry : EMEntry := mkEM empty_range 0 0 0 0 0 0 0 0 (mkCP 0 0 0 0).

(** Field updates. *)
Definition set_size (n : Z) (e : EMEntry) : EMEntry :=
  mkEM (mkIR (ir_start (range e)) n) (fileID e) (blockOffset e) (HWM e) (partitionNum e)
    (segmentNum e) (dbRoot e) (colWid e) (status e) (cprange e).
Definition set_hwm_status (h st : Z) (e : EMEntry) : EMEntry :=
  mkEM (range e) (fileID e) (blockOffset e) h (partitionNum e) (segmentNum e) (dbRoot e)
    (colWid e) st (cprange e).
Definition set_dbRoot (r : Z) (e : EMEntry) : EMEntry :=
  mkEM (range e) (fileID e) (blockOffset e) (HWM e) (partitionNum e) (segmentNum e) r
    (colWid e) (status e) (cprange e).
Definition set_cprange (c : EMCasualPartition) (e : EMEntry) : EMEntry :=
  mkEM (range e) (fileID e) (blockOffset e) (HWM e) (partitionNum e) (segmentNum e) (dbRoot e)
    (colWid e) (status e) c.

(** ** Shared memory

    The descriptors of the two segments in the master segment table
    ([fEMShminfo], [fFLShminfo]), the segments mapped ([fPExtMapImpl->key()],
    [fPFreeListImpl->key()], -1 for none) and the arrays in them; and the locks: [emLocked],
    [flLocked], and the read locks the process holds. *)
Record EMMem := mkEMMem {
  em_info : MSTEntry;
  em_key : Z;
  em_tab : list EMEntry;
  fl_info : MSTEntry;
  fl_key : Z;
  fl_tab : list InlineLBIDRange;
  emLocked : bool;
  flLocked : bool;
  emReaders : Z;
  flReaders : Z;
}.

Definition set_em (i : Z) (e : EMEntry) (m : EMMem) : EMMem :=
  mkEMMem (em_info m) (em_key m) ((em_tab m).[i <- e]) (fl_info m) (fl_key m) (fl_tab m)
    (emLocked m) (flLocked m) (emReaders m) (flReaders m).
Definition set_fl (i : Z) (r : InlineLBIDRange) (m : EMMem) : EMMem :=
  mkEMMem (em_info m) (em_key m) (em_tab m) (fl_info m) (fl_key m) ((fl_tab m).[i <- r])
    (emLocked m) (flLocked m) (emReaders m) (flReaders m).
Definition set_em_info (d : MSTEntry) (m : EMMem) : EMMem :=
  mkEMMem d (em_key m) (em_tab m) (fl_info m) (fl_key m) (fl_tab m)
    (emLocked m) (flLocked m) (emReaders m) (flReaders m).
Definition set_fl_info (d : MSTEntry) (m : EMMem) : EMMem :=
  mkEMMem (em_info m) (em_key m) (em_tab m) d (fl_key m) (fl_tab m)
    (emLocked m) (flLocked m) (emReaders m) (flReaders m).
Definition set_locks (ew fw : bool) (er fr : Z) (m : EMMem) : EMMem :=
  mkEMMem (em_info m) (em_key m) (em_tab m) (fl_info m) (fl_key m) (fl_tab m) ew fw er fr.

(** What images are taken of.  [deleteExtent] takes images of [sizeof(MSTEntry)]
    bytes at [&fEMShminfo] and [&fFLShminfo], the pointers in the object and not
    what they point to; copying the pointers back changes nothing. *)
Inductive em_delta :=
  | DEM (i : Z) (e : EMEntry)
  | DFL (i : Z) (r : InlineLBIDRange)
  | DEMInfo (d : MSTEntry)
  | DFLInfo (d : MSTEntry)
  | DPointer.

#[global] Instance em_restorable : Restorable em_delta EMMem := {
  restore d m :=
    match d with
    | DEM i e => set_em i e m
    | DFL i r => set_fl i r m
    | DEMInfo d => set_em_info d m
    | DFLInfo d => set_fl_info d m
    | DPointer => m
    end;
  segment_of d m :=
    match d with DEM _ _ => em_key m | DFL _ _ => fl_key m | _ => 0 end;
  delta_size d :=
    match d with DEM _ _ => sizeof_EMEntry | DFL _ _ => sizeof_InlineLBIDRange | _ => 12 end;
}.

Abbreviation ExtentMap := (undoable em_delta EMMem).

Definition add_size (n : Z) (d : MSTEntry) : MSTEntry :=
  mkMST (tableShmkey d) (allocdSize d) (mst_currentSize d + n).

(** [fEMShminfo->allocdSize/sizeof(EMEntry)] and the entries the loops run over. *)
Definition emEntries (m : EMMem) : Z := allocdSize (em_info m) / sizeof_EMEntry.
Definition flEntries (m : EMMem) : Z := allocdSize (fl_info m) / sizeof_InlineLBIDRange.
Definition extents (m : EMMem) : list EMEntry := take (Z.to_nat (emEntries m)) (em_tab m).
Definition freelist (m : EMMem) : list InlineLBIDRange := take (Z.to_nat (flEntries m)) (fl_tab m).

(** ** Growing and locking the segments *)

(** [chooseEMShmkey] and [chooseFLShmkey] *)
Definition chooseEMShmkey (d : MSTEntry) : Z :=
  if (tableShmkey d + 1 =? KEYRANGE_EXTENTMAP_BASE + KEYRANGE_SIZE - 1)
     || (u32 (tableShmkey d) <? KEYRANGE_EXTENTMAP_BASE)
  then KEYRANGE_EXTENTMAP_BASE + 1
  else tableShmkey d + 1.
Definition chooseFLShmkey (d : MSTEntry) : Z :=
  if (tableShmkey d + 1 =? KEYRANGE_EMFREELIST_BASE + KEYRANGE_SIZE - 1)
     || (u32 (tableShmkey d) <? KEYRANGE_EMFREELIST_BASE)
  then KEYRANGE_EMFREELIST_BASE + 1
  else tableShmkey d + 1.

(** A segment moved to a larger one: the old contents, then zeroes. *)
Definition grown_to {A} (zero : A) (n : Z) (l : list A) : list A :=
  l ++ replicate (Z.to_nat n - length l) zero.

(** [ExtentMap::growEMShmseg(nrows)] *)
Definition growEMShmseg (nrows : Z) : M ExtentMap unit :=
  upd_mem (fun m =>
    let alloc := if allocdSize (em_info m) =? 0 then EM_INITIAL_SIZE
                 else allocdSize (em_info m) + EM_INCREMENT in
    let alloc := Z.max alloc (nrows * sizeof_EMEntry) in
    let key := chooseEMShmkey (em_info m) in
    mkEMMem (mkMST key alloc (mst_currentSize (em_info m))) key
      (grown_to empty_EMEntry (alloc / sizeof_EMEntry) (em_tab m))
      (fl_info m) (fl_key m) (fl_tab m) (emLocked m) (flLocked m) (emReaders m) (flReaders m)).

(** [ExtentMap::growFLShmseg]: a new free list has one entry, all the LBIDs. *)
Definition growFLShmseg : M ExtentMap unit :=
  upd_mem (fun m =>
    let fresh := allocdSize (fl_info m) =? 0 in
    let alloc := if fresh then EM_FREELIST_INITIAL_SIZE
                 else allocdSize (fl_info m) + EM_FREELIST_INCREMENT in
    let key := chooseFLShmkey (fl_info m) in
    let tab := grown_to empty_range (alloc / sizeof_InlineLBIDRange) (fl_tab m) in
    mkEMMem (em_info m) (em_key m) (em_tab m)
      (mkMST key alloc (if fresh then sizeof_InlineLBIDRange else mst_currentSize (fl_info m))) key
      (if fresh then tab.[0 <- mkIR 0 (2 ^ 36 / 1024)] else tab)
      (emLocked m) (flLocked m) (emReaders m) (flReaders m)).

(** [OPS] *)
Inductive OPS := READ | WRITE.

(** [ExtentMap::grabEMEntryTable]: take the lock, and create the segment if there
    is none.  If the descriptor names another segment than the one mapped, that
    one was removed when this process moved to a larger one, and opening it
    fails. *)
Definition grabEMEntryTable (op : OPS) : M ExtentMap unit :=
  upd_mem (fun m =>
    match op with
    | READ => set_locks (emLocked m) (flLocked m) (emReaders m + 1) (flReaders m) m
    | WRITE => set_locks true (flLocked m) (emReaders m) (flReaders m) m
    end) ≫= fun _ =>
  m ← get_mem;
  if negb (em_key m =? -1) && (em_key m =? tableShmkey (em_info m)) then mret tt
  else if allocdSize (em_info m) =? 0 then growEMShmseg 0
  else throw RuntimeError.

(** [ExtentMap::grabFreeList] *)
Definition grabFreeList (op : OPS) : M ExtentMap unit :=
  upd_mem (fun m =>
    match op with
    | READ => set_locks (emLocked m) (flLocked m) (emReaders m) (flReaders m + 1) m
    | WRITE => set_locks (emLocked m) true (emReaders m) (flReaders m) m
    end) ≫= fun _ =>
  m ← get_mem;
  if negb (fl_key m =? -1) && (fl_key m =? tableShmkey (fl_info m)) then mret tt
  else if allocdSize (fl_info m) =? 0 then growFLShmseg
  else throw RuntimeError.

(** [ExtentMap::releaseEMEntryTable], [ExtentMap::releaseFreeList] *)
Definition releaseEMEntryTable (op : OPS) : M ExtentMap unit :=
  upd_mem (fun m =>
    match op with
    | READ => set_locks (emLocked m) (flLocked m) (emReaders m - 1) (flReaders m) m
    | WRITE => set_locks false (flLocked m) (emReaders m) (flReaders m) m
    end).
Definition releaseFreeList (op : OPS) : M ExtentMap unit :=
  upd_mem (fun m =>
    match op with
    | READ => set_locks (emLocked m) (flLocked m) (emReaders m) (flReaders m - 1) m
    | WRITE => set_locks (emLocked m) false (emReaders m) (flReaders m) m
    end).

(** [try { grabFreeList(op); } catch (...) { releaseEMEntryTable(op); throw; }] *)
Definition grabFreeList_or_release (op : OPS) : M ExtentMap unit :=
  catch (grabFreeList op) (fun e => releaseEMEntryTable op ≫= fun _ => throw e).

(** [ExtentMap::finishChanges], [undoChanges] and [confirmChanges] *)
Definition finishChanges : M ExtentMap unit :=
  m ← get_mem;
  (if flLocked m then releaseFreeList WRITE else mret tt) ≫= fun _ =>
  if emLocked m then releaseEMEntryTable WRITE else mret tt.
Definition EM_undoChanges : M ExtentMap unit := undoChanges ≫= fun _ => finishChanges.
Definition EM_confirmChanges : M ExtentMap unit := confirmChanges ≫= fun _ => finishChanges.

(** ** The free list *)

(** The first element that passes the test, with its index. *)
Fixpoint find_from {A} (p : A → bool) (i : Z) (l : list A) : option (Z * A) :=
  match l with
  | [] => None
  | x :: l' => if p x then Some (i, x) else find_from p (i + 1) l'
  end.
Abbreviation find_index p l := (find_from p 0 l).

(** [ExtentMap::getLBIDsFromFreeList(size)] *)
Definition getLBIDsFromFreeList (size : Z) : M ExtentMap Z :=
  m ← get_mem;
  match find_index (fun r => size <=? ir_size r) (freelist m) with
  | None => throw RuntimeError
  | Some (i, r) =>
      makeUndoRecord (DFL i r) ≫= fun _ =>
      upd_mem (set_fl i (mkIR (ir_start r + u32 (size * 1024)) (u32 (ir_size r - size)))) ≫= fun _ =>
      (if u32 (ir_size r - size) =? 0 then
         makeUndoRecord (DFLInfo (fl_info m)) ≫= fun _ =>
         upd_mem (fun m => set_fl_info (add_size (- sizeof_InlineLBIDRange) (fl_info m)) m)
       else mret tt) ≫= fun _ =>
      mret (ir_start r)
  end.

(** The scan of [deleteExtent]: the last free slot, the entry just after the
    extent and the one just before it. *)
Record fl_scan := mkFS { freeFLIndex : Z; succeedingExtent : Z; preceedingExtent : Z }.

(** [for (i = 0; i < n; i++)] over an array, threading a value. *)
Fixpoint scan_from {A B} (f : Z → A → B → B) (i : Z) (l : list A) (b : B) : B :=
  match l with
  | [] => b
  | x :: l' => scan_from f (i + 1) l' (f i x b)
  end.

Definition scan_freelist_step (emBegin emBlockEnd i : Z) (r : InlineLBIDRange) (a : fl_scan) : fl_scan :=
  if ir_size r =? 0 then mkFS i (succeedingExtent a) (preceedingExtent a)
  else if emBlockEnd =? ir_start r then mkFS (freeFLIndex a) i (preceedingExtent a)
  else if ir_start r + ir_size r * 1024 =? emBegin
  then mkFS (freeFLIndex a) (succeedingExtent a) i
  else a.

Definition scan_freelist (emBegin emBlockEnd : Z) (l : list InlineLBIDRange) : fl_scan :=
  scan_from (scan_freelist_step emBegin emBlockEnd) 0 l (mkFS (-1) (-1) (-1)).

(** "migrate the entry upward if there's a space": the entry [at_] moves to slot
    [free] if that comes before it; the slot where it is now. *)
Definition migrate (free at_ : Z) : M ExtentMap Z :=
  if (free <? at_) && negb (free =? -1) then
    m ← get_mem;
    f ← lift (deref ((fl_tab m).[free]));
    r ← lift (deref ((fl_tab m).[at_]));
    makeUndoRecord (DFL free f) ≫= fun _ =>
    upd_mem (set_fl free r) ≫= fun _ =>
    upd_mem (set_fl at_ (mkIR (ir_start r) 0)) ≫= fun _ =>
    mret free
  else mret at_.

(** The image of a free list entry. *)
Definition image_fl (i : Z) : M ExtentMap unit :=
  m ← get_mem;
  r ← lift (deref ((fl_tab m).[i]));
  makeUndoRecord (DFL i r).

(** The free list part of [deleteExtent], one function per branch: free entries
    on both sides, after the extent, before it, and none. *)
Definition give_between (ex : InlineLBIDRange) (a : fl_scan) : M ExtentMap unit :=
  image_fl (preceedingExtent a) ≫= fun _ =>
  p ← migrate (freeFLIndex a) (preceedingExtent a);
  m ← get_mem;
  rp ← lift (deref ((fl_tab m).[p]));
  rs ← lift (deref ((fl_tab m).[succeedingExtent a]));
  upd_mem (set_fl p (mkIR (ir_start rp) (u32 (ir_size rp + (ir_size rs + ir_size ex))))) ≫= fun _ =>
  image_fl (succeedingExtent a) ≫= fun _ =>
  upd_mem (set_fl (succeedingExtent a) (mkIR (ir_start rs) 0)) ≫= fun _ =>
  m ← get_mem;
  makeUndoRecord (DFLInfo (fl_info m)) ≫= fun _ =>
  upd_mem (fun m => set_fl_info (add_size (- sizeof_InlineLBIDRange) (fl_info m)) m).

Definition give_before (ex : InlineLBIDRange) (a : fl_scan) : M ExtentMap unit :=
  image_fl (succeedingExtent a) ≫= fun _ =>
  i ← migrate (freeFLIndex a) (succeedingExtent a);
  m ← get_mem;
  r ← lift (deref ((fl_tab m).[i]));
  upd_mem (set_fl i (mkIR (ir_start ex) (u32 (ir_size r + ir_size ex)))).

Definition give_after (ex : InlineLBIDRange) (a : fl_scan) : M ExtentMap unit :=
  image_fl (preceedingExtent a) ≫= fun _ =>
  i ← migrate (freeFLIndex a) (preceedingExtent a);
  m ← get_mem;
  r ← lift (deref ((fl_tab m).[i]));
  upd_mem (set_fl i (mkIR (ir_start r) (u32 (ir_size r + ir_size ex)))).

Definition give_new (ex : InlineLBIDRange) (a : fl_scan) : M ExtentMap unit :=
  m ← get_mem;
  i ← (if mst_currentSize (fl_info m) =? allocdSize (fl_info m)
       then growFLShmseg ≫= fun _ => mret (flEntries m) else mret (freeFLIndex a));
  image_fl i ≫= fun _ =>
  upd_mem (set_fl i ex) ≫= fun _ =>
  makeUndoRecord DPointer ≫= fun _ =>
  upd_mem (fun m => set_fl_info (add_size sizeof_InlineLBIDRange (fl_info m)) m).

(** [ExtentMap::deleteExtent(emIndex)] *)
Definition deleteExtent (emIndex : Z) : M ExtentMap unit :=
  m ← get_mem;
  e ← lift (deref ((em_tab m).[emIndex]));
  let emBegin := ir_start (range e) in
  let a := scan_freelist emBegin (emBegin + ir_size (range e) * 1024) (freelist m) in
  (if negb (preceedingExtent a =? -1) && negb (succeedingExtent a =? -1) then give_between (range e) a
   else if negb (succeedingExtent a =? -1) then give_before (range e) a
   else if negb (preceedingExtent a =? -1) then give_after (range e) a
   else give_new (range e) a) ≫= fun _ =>
  makeUndoRecord (DEM emIndex e) ≫= fun _ =>
  upd_mem (set_em emIndex (set_size 0 e)) ≫= fun _ =>
  makeUndoRecord DPointer ≫= fun _ =>
  upd_mem (fun m => set_em_info (add_size (- sizeof_EMEntry) (em_info m)) m).
