(* ===== verification/EmCp.v ===== *)
(** * Casual partitioning: the range of values in an extent ([extentmap.cpp])

    Each extent records the least and the greatest value stored in it, a state
    and a sequence number.  A change of the data marks the extent first; a query
    that computed the range hands it in with the sequence number it read, and
    the range is taken only if nothing changed in between. *)

From S2P Require Import Prelude Undo Table ColType ExtentMap.

(** ** Operations *)

(** [incSeqNum] *)
Definition incSeqNum (n : Z) : Z :=
  let n := n + 1 in if EM_MAX_SEQNUM <? n then 0 else n.

(** The last LBID of an extent, and whether an extent in use has an LBID. *)
Definition lastBlock (e : EMEntry) : Z := ir_start (range e) + ir_size (range e) * 1024 - 1.
Definition has_lbid (lbid : Z) (e : EMEntry) : bool :=
  negb (ir_size (range e) =? 0) && (ir_start (range e) <=? lbid) && (lbid <=? lastBlock e).

(** The range of an extent without values: its minimum is the greatest number and
    its maximum the least; [numeric_limits<uint64_t>::max()] is -1 in the signed
    field. *)
Definition no_values (t : ColDataType) : Z * Z :=
  if isUnsigned t then (0, i64 max_u64) else (min_i64, max_i64).

(** [ExtentMap::_markInvalid] *)
Definition markInvalid_ (lbid : Z) (t : ColDataType) : M ExtentMap Z :=
  m ← get_mem;
  match find_index (has_lbid lbid) (extents m) with
  | None => throw LogicError
  | Some (i, e) =>
      makeUndoRecord (DEM i e) ≫= fun _ =>
      upd_mem (set_em i (set_cprange
        (mkCP (fst (no_values t)) (snd (no_values t)) (incSeqNum (sequenceNum (cprange e))) CP_UPDATING) e))
        ≫= fun _ => mret 0
  end.

(** [ExtentMap::markInvalid(lbid, colDataType)] *)
Definition markInvalid (lbid : Z) (t : ColDataType) : M ExtentMap Z :=
  grabEMEntryTable WRITE ≫= fun _ => markInvalid_ lbid t.

(** [ExtentMap::markInvalid(lbids, colDataTypes)]: a failure is logged and
    ignored. *)
Fixpoint mark_each (lbids : list Z) (ts : list ColDataType) : M ExtentMap unit :=
  match lbids with
  | [] => mret tt
  | l :: lbids' =>
      t ← lift (deref (head ts));
      catch (markInvalid_ l t) (fun _ => mret 0) ≫= fun _ =>
      mark_each lbids' (tail ts)
  end.
Definition markInvalid_list (lbids : list Z) (ts : list ColDataType) : M ExtentMap Z :=
  grabEMEntryTable WRITE ≫= fun _ => mark_each lbids ts ≫= fun _ => mret 0.

(** [ExtentMap::setMaxMin] *)
Definition setMaxMin (lbid max min seqNum : Z) : M ExtentMap Z :=
  grabEMEntryTable WRITE ≫= fun _ =>
  m ← get_mem;
  match find_index (has_lbid lbid) (extents m) with
  | Some (i, e) =>
      let c := cprange e in
      if sequenceNum c =? seqNum then
        makeUndoRecord (DEM i e) ≫= fun _ =>
        upd_mem (set_em i (set_cprange (mkCP max min (incSeqNum (sequenceNum c)) CP_VALID) e)) ≫= fun _ =>
        mret 0
      else if seqNum =? -1 then
        makeUndoRecord (DEM i e) ≫= fun _ =>
        upd_mem (set_em i (set_cprange
          (mkCP (hi_val c) (lo_val c) (incSeqNum (sequenceNum c)) CP_INVALID) e)) ≫= fun _ =>
        mret 0
      else mret 0
  | None =>
      (if emLocked m then releaseEMEntryTable WRITE else mret tt) ≫= fun _ => throw LogicError
  end.

(** [CPMaxMin] and [CPMaxMinMap_t] *)
Record CPMaxMin := mkMaxMin { cp_max : Z; cp_min : Z; cp_seqNum : Z }.

(** What [setExtentsMaxMin] makes of the range of an extent in the map. *)
Definition set_cp (x : CPMaxMin) (c : EMCasualPartition) : option EMCasualPartition :=
  if (sequenceNum c =? cp_seqNum x) && (isValid c =? CP_INVALID) then
    Some (mkCP (cp_max x) (cp_min x) (incSeqNum (sequenceNum c)) CP_VALID)
  else if cp_seqNum x =? -1 then
    Some (mkCP (hi_val c) (lo_val c) (incSeqNum (sequenceNum c)) CP_INVALID)
  else if cp_seqNum x =? -2 then
    Some (mkCP (cp_max x) (cp_min x) (incSeqNum (sequenceNum c)) CP_INVALID)
  else None.

(** The loop of [setExtentsMaxMin] over the slots; [n] extents are still to be
    found. *)
Fixpoint set_cp_loop (cpMap : gmap Z CPMaxMin) (slots : list Z) (n : nat) : M ExtentMap unit :=
  match slots with
  | [] => throw LogicError
  | i :: slots' =>
      m ← get_mem;
      e ← lift (deref ((em_tab m).[i]));
      if ir_size (range e) =? 0 then set_cp_loop cpMap slots' n
      else match cpMap !! ir_start (range e) with
           | None => set_cp_loop cpMap slots' n
           | Some x =>
               match set_cp x (cprange e) with
               | Some c => makeUndoRecord (DEM i e) ≫= fun _ => upd_mem (set_em i (set_cprange c e))
               | None => mret tt
               end ≫= fun _ =>
               match n with
               | 1%nat => mret tt
               | _ => set_cp_loop cpMap slots' (n - 1)
               end
           end
  end.

(** [ExtentMap::setExtentsMaxMin] *)
Definition setExtentsMaxMin (cpMap : gmap Z CPMaxMin) (useLock : bool) : M ExtentMap unit :=
  (if useLock then grabEMEntryTable WRITE else mret tt) ≫= fun _ =>
  m ← get_mem;
  set_cp_loop cpMap (zseq 0 (emEntries m)) (size cpMap).

(** [ExtentMap::isValidCPRange] *)
Definition isValidCPRange (max min : Z) (t : ColDataType) : bool :=
  if isUnsigned t then negb ((max_u64 - 1 <=? u64 min) || (max_u64 - 1 <=? u64 max))
  else negb ((min <=? min_i64 + 1) || (max <=? min_i64 + 1)).

(** [uint64ToStr]: the bytes in the other order, compared as [int64_t]. *)
Definition uint64ToStr (n : Z) : Z := le_value (rev (le_bytes 8 n)).

(** The order of the values of a type in [mergeExtentsMaxMin]. *)
Definition cp_key (t : ColDataType) (x : Z) : Z :=
  if isCharType t then i64 (uint64ToStr (u64 x)) else if isUnsigned t then u64 x else x.

(** [CPMaxMinMerge] *)
Record CPMaxMinMerge := mkMerge {
  mg_max : Z;
  mg_min : Z;
  mg_type : ColDataType;
  mg_newExtent : bool;
}.

(** The [switch] of [mergeExtentsMaxMin]; [None] when the range handed in is
    passed over. *)
Definition merge_cp (x : CPMaxMinMerge) (c : EMCasualPartition) : option EMCasualPartition :=
  let seq := incSeqNum (sequenceNum c) in
  let t := mg_type x in
  let valid := isValidCPRange (mg_max x) (mg_min x) t in
  if isValid c =? CP_VALID then
    if negb valid then None
    else if isValidCPRange (hi_val c) (lo_val c) t then
      Some (mkCP (if cp_key t (hi_val c) <? cp_key t (mg_max x) then mg_max x else hi_val c)
                 (if cp_key t (mg_min x) <? cp_key t (lo_val c) then mg_min x else lo_val c)
                 seq CP_VALID)
    else Some (mkCP (mg_max x) (mg_min x) seq CP_VALID)
  else if isValid c =? CP_UPDATING then
    Some (mkCP (hi_val c) (lo_val c) seq CP_UPDATING)
  else if mg_newExtent x then
    Some (if valid then mkCP (mg_max x) (mg_min x) seq CP_VALID
          else mkCP (hi_val c) (lo_val c) seq CP_VALID)
  else Some (mkCP (hi_val c) (lo_val c) seq (isValid c)).

(** The loop of [mergeExtentsMaxMin]; extents found are erased from the map. *)
Fixpoint merge_cp_loop (cpMap : gmap Z CPMaxMinMerge) (slots : list Z) (n : nat) : M ExtentMap unit :=
  match slots with
  | [] => throw LogicError
  | i :: slots' =>
      m ← get_mem;
      e ← lift (deref ((em_tab m).[i]));
      if ir_size (range e) =? 0 then merge_cp_loop cpMap slots' n
      else match cpMap !! ir_start (range e) with
           | None => merge_cp_loop cpMap slots' n
           | Some x =>
               match merge_cp x (cprange e) with
               | Some c => makeUndoRecord (DEM i e) ≫= fun _ => upd_mem (set_em i (set_cprange c e))
               | None => mret tt
               end ≫= fun _ =>
               match n with
               | 1%nat => mret tt
               | _ => merge_cp_loop (delete (ir_start (range e)) cpMap) slots' (n - 1)
               end
           end
  end.

(** [ExtentMap::mergeExtentsMaxMin] *)
Definition mergeExtentsMaxMin (cpMap : gmap Z CPMaxMinMerge) (useLock : bool) : M ExtentMap unit :=
  (if useLock then grabEMEntryTable WRITE else mret tt) ≫= fun _ =>
  m ← get_mem;
  merge_cp_loop cpMap (zseq 0 (emEntries m)) (size cpMap).

(** [ExtentMap::getMaxMin]: the state, the maximum, the minimum and the sequence
    number. *)
Definition getMaxMin (lbid : Z) : M ExtentMap (Z * Z * Z * Z) :=
  grabEMEntryTable READ ≫= fun _ =>
  m ← get_mem;
  releaseEMEntryTable READ ≫= fun _ =>
  match find_index (has_lbid lbid) (extents m) with
  | Some (_, e) =>
      let c := cprange e in mret (isValid c, hi_val c, lo_val c, sequenceNum c)
  | None => throw LogicError
  end.
