(* ===== verification/EmCreate.v ===== *)
(** * Creating extents ([extentmap.cpp])

    A new extent takes LBIDs from the free list and a place in a column or
    dictionary file.  For columns, [createColumnExtent_DBroot] chooses the
    partition, the segment file and the offset from the extents the column has;
    the other two are told the file. *)

From S2P Require Import Prelude Undo Table Vbbm ColType ExtentMap EmCp.

(** [getFilesPerColumnPartition], [getExtentsPerSegmentFile] and
    [getDbRootCount]: from the configuration. *)
Record EMConfig := mkEMConfig {
  filesPerColumnPartition : Z;
  extentsPerSegmentFile : Z;
  dbRootCount : Z;
}.

(** [ExtentMap::getExtentRows] *)
Definition getExtentRows : Z := 0x800000.

(** [EXTENT_SIZE]: the blocks of an extent of a column. *)
Definition EXTENT_SIZE (colWidth : Z) : Z := u32 (getExtentRows * colWidth) / BLOCK_SIZE.

(** ** Choosing the place of a column extent *)

(** First step of [_createColumnExtent_DBroot]: the first free slot, the last
    extent of the column on the DBRoot, and the highest segment of the partition
    asked for. *)
Record scan1 := mkScan1 {
  emptyEMEntry : Z;
  lastExtent : option (Z * EMEntry);
  highestOffset : Z;
  highestPartNum : Z;
  highestSegNum : Z;
  highEmptySegNum : Z;
  bHighEmptySegNumSet : bool;
}.
Definition scan1_init : scan1 := mkScan1 (-1) None 0 0 0 0 false.

(** Whether the extent comes after the last one found. *)
Definition later (e : EMEntry) (part off seg : Z) : bool :=
  (part <? partitionNum e)
  || ((partitionNum e =? part) && (off <? blockOffset e))
  || ((partitionNum e =? part) && (blockOffset e =? off) && (seg <=? segmentNum e)).

Definition scan1_step (OID dbroot part : Z) (i : Z) (e : EMEntry) (a : scan1) : scan1 :=
  if ir_size (range e) =? 0 then
    if emptyEMEntry a <? 0 then
      mkScan1 i (lastExtent a) (highestOffset a) (highestPartNum a) (highestSegNum a)
        (highEmptySegNum a) (bHighEmptySegNumSet a)
    else a
  else if negb (fileID e =? OID) then a
  else
    let a := if (dbRoot e =? dbroot)
                && later e (highestPartNum a) (highestOffset a) (highestSegNum a)
             then mkScan1 (emptyEMEntry a) (Some (i, e)) (blockOffset e) (partitionNum e) (segmentNum e)
                    (highEmptySegNum a) (bHighEmptySegNumSet a)
             else a in
    match lastExtent a with
    | Some _ => a
    | None =>
        if (partitionNum e =? part)
           && ((highEmptySegNum a <? segmentNum e) || negb (bHighEmptySegNumSet a))
        then mkScan1 (emptyEMEntry a) None (highestOffset a) (highestPartNum a) (highestSegNum a)
               (segmentNum e) true
        else a
    end.

(** Second step, for a DBRoot that has extents of the column: the highest segment
    of the last partition and of the next one, and the segment files of the last
    partition on the DBRoot with their highest offsets. *)
Record scan2 := mkScan2 {
  partHighSeg : Z;
  partHighSegNext : Z;
  targetDbRootSegs : gmap Z Z;
  bSegsOutOfService : bool;
}.

Definition scan2_step (OID dbroot part : Z) (i : Z) (e : EMEntry) (a : scan2) : scan2 :=
  if (ir_size (range e) =? 0) || negb (fileID e =? OID) then a
  else if partitionNum e =? u32 (part + 1) then
    if partHighSegNext a <? segmentNum e
    then mkScan2 (partHighSeg a) (segmentNum e) (targetDbRootSegs a) (bSegsOutOfService a) else a
  else if partitionNum e =? part then
    let high := if partHighSeg a <? segmentNum e then segmentNum e else partHighSeg a in
    if dbRoot e =? dbroot then
      mkScan2 high (partHighSegNext a)
        (match targetDbRootSegs a !! segmentNum e with
         | None => <[segmentNum e := blockOffset e]> (targetDbRootSegs a)
         | Some off => if off <? blockOffset e
                       then <[segmentNum e := blockOffset e]> (targetDbRootSegs a)
                       else targetDbRootSegs a
         end)
        (bSegsOutOfService a || (status e =? EXTENTOUTOFSERVICE))
    else mkScan2 high (partHighSegNext a) (targetDbRootSegs a) (bSegsOutOfService a)
  else a.

(** The loop over [targetDbRootSegs]: the first, the last and the next segment. *)
Record target_segs := mkTargets { firstTargetSeg : Z; lastTargetSeg : Z; nextTargetSeg : option Z }.

Definition target_step (seg : Z) (a : target_segs) (targetSeg : Z) : target_segs :=
  let first := if targetSeg <? firstTargetSeg a then targetSeg else firstTargetSeg a in
  let last := if targetSeg <? firstTargetSeg a then lastTargetSeg a
              else if lastTargetSeg a <? targetSeg then targetSeg else lastTargetSeg a in
  let next := if seg <? targetSeg
              then match nextTargetSeg a with
                   | Some n => if targetSeg <? n then Some targetSeg else Some n
                   | None => Some targetSeg
                   end
              else nextTargetSeg a in
  mkTargets first last next.

Definition find_targets (seg : Z) (segs : gmap Z Z) : target_segs :=
  foldl (target_step seg) (mkTargets seg seg None) (fst <$> map_to_list segs).

(** A place for an extent. *)
Record place := mkPlace { pl_part : Z; pl_seg : Z; pl_offset : Z }.

(** Third step: where the extent after [last] goes. *)
Definition next_place (cfg : EMConfig) (colWidth : Z) (last : EMEntry) (a : scan2) : place :=
  let filesPerDBRoot := filesPerColumnPartition cfg / dbRootCount cfg in
  let nfiles := Z.of_nat (size (targetDbRootSegs a)) in
  let seg := segmentNum last in
  let t := find_targets seg (targetDbRootSegs a) in
  let unbalanced := existsb (fun kv => 0 <? kv.2) (map_to_list (targetDbRootSegs a)) in
  let skip := bSegsOutOfService a || ((nfiles <? filesPerDBRoot) && unbalanced) in
  let full := filesPerDBRoot <=? nfiles in
  let atEnd := blockOffset last =?
                 u32 (u32 (extentsPerSegmentFile cfg - 1) * (u32 (getExtentRows * colWidth) / BLOCK_SIZE)) in
  let startNewPartition := skip || (full && (seg =? lastTargetSeg t) && atEnd) in
  let startNewStripe := negb startNewPartition && full && (seg =? lastTargetSeg t) in
  let newSeg :=
    if startNewPartition then
      if partHighSegNext a =? -1 then 0 else u16 (partHighSegNext a + 1)
    else if startNewStripe then firstTargetSeg t
    else if full then default seg (nextTargetSeg t)
    else u16 (partHighSeg a + 1) in
  let newOffset :=
    if startNewPartition then 0
    else if (blockOffset last =? 0) && (firstTargetSeg t <? newSeg) then 0
    else if startNewStripe then u32 (ir_size (range last) * 1024 + blockOffset last)
    else blockOffset last in
  mkPlace (if startNewPartition then u32 (partitionNum last + 1) else partitionNum last) newSeg newOffset.

(** The first place of a column on a DBRoot: the partition asked for. *)
Definition first_place (part : Z) (a : scan1) : place :=
  mkPlace part (if bHighEmptySegNumSet a then u16 (highEmptySegNum a + 1) else 0) 0.

(** The first three steps, on the table. *)
Definition choose_place (cfg : EMConfig) (OID colWidth dbroot part : Z) (l : list EMEntry) : place :=
  let a := scan_from (scan1_step OID dbroot part) 0 l scan1_init in
  match lastExtent a with
  | None => first_place part a
  | Some (_, last) =>
      next_place cfg colWidth last
        (scan_from (scan2_step OID dbroot (partitionNum last)) 0 l
           (mkScan2 (segmentNum last) (-1) {[segmentNum last := blockOffset last]} false))
  end.

(** ** Writing the entry *)

(** A new extent of a column. *)
Definition column_entry (startLBID size OID colWidth dbroot : Z) (t : ColDataType) (pl : place) : EMEntry :=
  mkEM (mkIR startLBID size) OID (pl_offset pl) 0 (pl_part pl) (pl_seg pl) dbroot (u16 colWidth)
    EXTENTUNAVAILABLE
    (mkCP (fst (no_values t)) (snd (no_values t)) 0
       (if (pl_part pl =? 0) && (pl_seg pl =? 0) && (pl_offset pl =? 0) then CP_VALID else CP_INVALID)).

(** The entry stored in a free slot, and the count of entries. *)
Definition add_extent (slot : Z) (e : EMEntry) : M ExtentMap unit :=
  m ← get_mem;
  old ← lift (deref ((em_tab m).[slot]));
  makeUndoRecord (DEM slot old) ≫= fun _ =>
  upd_mem (set_em slot e) ≫= fun _ =>
  makeUndoRecord (DEMInfo (em_info m)) ≫= fun _ =>
  upd_mem (fun m => set_em_info (add_size sizeof_EMEntry (em_info m)) m).

(** [ExtentMap::_createColumnExtent_DBroot]: the first LBID and the place. The
    division of the files by the number of DBRoots is a fault if there are none. *)
Definition createColumnExtent_ (cfg : EMConfig) (size OID colWidth dbroot : Z) (t : ColDataType) (part : Z)
    : M ExtentMap (Z * place) :=
  startLBID ← getLBIDsFromFreeList size;
  m ← get_mem;
  let a := scan_from (scan1_step OID dbroot part) 0 (extents m) scan1_init in
  if emptyEMEntry a =? -1 then throw LogicError
  else if bool_decide (is_Some (lastExtent a)) && (dbRootCount cfg =? 0) then throw Segfault
  else
    let pl := choose_place cfg OID colWidth dbroot part (extents m) in
    add_extent (emptyEMEntry a) (column_entry startLBID size OID colWidth dbroot t pl) ≫= fun _ =>
    mret (startLBID, pl).

(** [if (currentSize == allocdSize) growEMShmseg();] *)
Definition make_em_room : M ExtentMap unit :=
  m ← get_mem;
  if mst_currentSize (em_info m) =? allocdSize (em_info m) then growEMShmseg 0 else mret tt.

Definition grab_both : M ExtentMap unit :=
  grabEMEntryTable WRITE ≫= fun _ => grabFreeList WRITE.

(** [ExtentMap::createColumnExtent_DBroot]: the first LBID, the number of blocks
    and the place. *)
Definition createColumnExtent_DBroot (cfg : EMConfig) (OID colWidth dbroot : Z) (t : ColDataType)
    (part : Z) (useLock : bool) : M ExtentMap (Z * Z * place) :=
  (if useLock then grab_both else mret tt) ≫= fun _ =>
  make_em_room ≫= fun _ =>
  '(lbid, pl) ← createColumnExtent_ cfg (EXTENT_SIZE colWidth / 1024) OID colWidth dbroot t part;
  mret (lbid, EXTENT_SIZE colWidth, pl).

(** [CreateStripeColumnExtentsArgIn], [CreateStripeColumnExtentsArgOut] *)
Record StripeArgIn := mkStripeIn { st_oid : Z; st_width : Z; st_type : ColDataType }.
Record StripeArgOut := mkStripeOut { st_startLbid : Z; st_allocSize : Z; st_startBlkOffset : Z }.

(** The loop of [createStripeColumnExtents]; [base] is the partition and segment
    of the first column. *)
Fixpoint create_stripe (cfg : EMConfig) (cols : list StripeArgIn) (dbroot part seg : Z)
    (base : option (Z * Z)) (out : list StripeArgOut) : M ExtentMap (Z * Z * list StripeArgOut) :=
  match cols with
  | [] => mret (part, seg, out)
  | c :: cols' =>
      '(lbid, n, pl) ← createColumnExtent_DBroot cfg (st_oid c) (st_width c) dbroot (st_type c) part false;
      let here := (pl_part pl, pl_seg pl) in
      if bool_decide (here = default here base) then
        create_stripe cfg cols' dbroot (pl_part pl) (pl_seg pl) (Some (default here base))
          (out ++ [mkStripeOut lbid n (pl_offset pl)])
      else throw InvalidArgument
  end.

(** [ExtentMap::createStripeColumnExtents] *)
Definition createStripeColumnExtents (cfg : EMConfig) (cols : list StripeArgIn) (dbroot part seg : Z)
    : M ExtentMap (Z * Z * list StripeArgOut) :=
  grab_both ≫= fun _ => create_stripe cfg cols dbroot part seg None [].

(** ** Extents of a given file *)

(** The scan of the other two functions: the first free slot and the extent of the
    file with the highest offset. *)
Record scan_file := mkScanF { sf_empty : Z; sf_last : option EMEntry; sf_offset : Z }.

Definition scan_file_step (in_file : EMEntry → bool) (i : Z) (e : EMEntry) (a : scan_file) : scan_file :=
  if ir_size (range e) =? 0 then
    if sf_empty a <? 0 then mkScanF i (sf_last a) (sf_offset a) else a
  else if in_file e && (sf_offset a <=? blockOffset e)
  then mkScanF (sf_empty a) (Some e) (blockOffset e)
  else a.

Definition find_file (in_file : EMEntry → bool) (l : list EMEntry) : scan_file :=
  scan_from (scan_file_step in_file) 0 l (mkScanF (-1) None 0).

(** The offset after an extent. *)
Definition end_offset (last : option EMEntry) : Z :=
  match last with
  | None => 0
  | Some e => u32 (ir_size (range e) * 1024 + blockOffset e)
  end.

Definition in_column_file (OID dbroot part seg : Z) (e : EMEntry) : bool :=
  (fileID e =? OID) && (dbRoot e =? dbroot) && (partitionNum e =? part) && (segmentNum e =? seg).
Definition in_dict_file (OID part seg : Z) (e : EMEntry) : bool :=
  (fileID e =? OID) && (partitionNum e =? part) && (segmentNum e =? seg).

(** [ExtentMap::_createColumnExtentExactFile] *)
Definition createColumnExtentExactFile_ (size OID colWidth dbroot part seg : Z) (t : ColDataType)
    : M ExtentMap (Z * Z) :=
  startLBID ← getLBIDsFromFreeList size;
  m ← get_mem;
  let a := find_file (in_column_file OID dbroot part seg) (extents m) in
  if sf_empty a =? -1 then throw LogicError
  else
    let off := end_offset (sf_last a) in
    add_extent (sf_empty a)
      (column_entry startLBID size OID colWidth dbroot t (mkPlace part seg off)) ≫= fun _ =>
    mret (startLBID, off).

(** [ExtentMap::createColumnExtentExactFile] *)
Definition createColumnExtentExactFile (OID colWidth dbroot part seg : Z) (t : ColDataType)
    : M ExtentMap (Z * Z * Z) :=
  grab_both ≫= fun _ =>
  make_em_room ≫= fun _ =>
  '(lbid, off) ← createColumnExtentExactFile_ (EXTENT_SIZE colWidth / 1024) OID colWidth dbroot part seg t;
  mret (lbid, EXTENT_SIZE colWidth, off).

(** A new extent of a dictionary; after the first one everything is taken from
    the last extent of the file. *)
Definition dict_entry (startLBID size OID dbroot part seg : Z) (last : option EMEntry) : EMEntry :=
  let file := match last with
              | None => (seg, part, dbroot, 0)
              | Some e => (segmentNum e, partitionNum e, dbRoot e, colWid e)
              end in
  mkEM (mkIR startLBID size) OID (end_offset last) 0 file.1.1.2 file.1.1.1 file.1.2 file.2
    EXTENTUNAVAILABLE (mkCP min_i64 max_i64 0 CP_INVALID).

(** [ExtentMap::_createDictStoreExtent] *)
Definition createDictStoreExtent_ (size OID dbroot part seg : Z) : M ExtentMap Z :=
  startLBID ← getLBIDsFromFreeList size;
  m ← get_mem;
  let a := find_file (in_dict_file OID part seg) (extents m) in
  if sf_empty a =? -1 then throw LogicError
  else
    add_extent (sf_empty a) (dict_entry startLBID size OID dbroot part seg (sf_last a)) ≫= fun _ =>
    mret startLBID.

(** [ExtentMap::createDictStoreExtent] *)
Definition createDictStoreExtent (OID dbroot part seg : Z) : M ExtentMap (Z * Z) :=
  grab_both ≫= fun _ =>
  make_em_room ≫= fun _ =>
  lbid ← createDictStoreExtent_ (EXTENT_SIZE DICT_COL_WIDTH / 1024) OID dbroot part seg;
  mret (lbid, EXTENT_SIZE DICT_COL_WIDTH).
