(* ===== verification/EmDelete.v ===== *)
(** * Deleting, rolling back and disabling extents ([extentmap.cpp]) *)

From S2P Require Import Prelude Undo Table ColType ExtentMap EmCp EmCreate.

(** The entry in a slot. *)
Definition get_em (i : Z) : M ExtentMap EMEntry :=
  m ← get_mem; lift (deref ((em_tab m).[i])).

(** Image an entry and store another. *)
Definition write_em (i : Z) (e e' : EMEntry) : M ExtentMap unit :=
  makeUndoRecord (DEM i e) ≫= fun _ => upd_mem (set_em i e').

(** Delete the extents that pass the test, in the order of their slots. *)
Definition delete_if (p : EMEntry → bool) (i : Z) : M ExtentMap unit :=
  e ← get_em i;
  if negb (ir_size (range e) =? 0) && p e then deleteExtent i else mret tt.
Definition delete_all (p : EMEntry → bool) : M ExtentMap unit :=
  m ← get_mem; forM (zseq 0 (emEntries m)) (delete_if p).

(** ** Deleting *)

(** [ExtentMap::deleteOID] *)
Definition EM_deleteOID (OID : Z) : M ExtentMap unit :=
  grab_both ≫= fun _ =>
  m ← get_mem;
  delete_all (fun e => fileID e =? OID) ≫= fun _ =>
  if existsb (fun e => negb (ir_size (range e) =? 0) && (fileID e =? OID)) (extents m) then mret tt
  else throw InvalidArgument.

(** [ExtentMap::deleteOIDs] *)
Definition EM_deleteOIDs (OIDs : list Z) : M ExtentMap unit :=
  grab_both ≫= fun _ => delete_all (fun e => bool_decide (fileID e ∈ OIDs)).

(** [ExtentMap::deleteDBRoot] *)
Definition EM_deleteDBRoot (dbroot : Z) : M ExtentMap unit :=
  grab_both ≫= fun _ => delete_all (fun e => dbRoot e =? dbroot).

(** ** Rolling back *)

(** What becomes of an extent. *)
Inductive action := Keep | Delete | SetHWM (hwm : Z).

Definition act (i : Z) (e : EMEntry) (a : action) : M ExtentMap unit :=
  match a with
  | Keep => mret tt
  | Delete => deleteExtent i
  | SetHWM h => if HWM e =? h then mret tt else write_em i e (set_hwm_status h EXTENTAVAILABLE e)
  end.

(** The stripe that contains the HWM: the first and the last block of it, and
    the first block of the stripe before. *)
Record stripe := mkStripe { fboLo : Z; fboHi : Z; fboLoPreviousStripe : Z }.
Definition no_stripe : stripe := mkStripe 0 0 0.

(** [if (fboHi == 0) ...] *)
Definition compute_stripe (hwm : Z) (e : EMEntry) (s : stripe) : stripe :=
  if fboHi s =? 0 then
    let rng := u32 (ir_size (range e) * 1024) in
    let lo := hwm - hwm mod rng in
    mkStripe lo (u32 (lo + rng - 1)) (if 0 <? lo then u32 (lo - rng) else fboLoPreviousStripe s)
  else s.

(** The cases 1 to 5 of [rollbackColumnExtents_DBroot] and [deleteEmptyColExtents]. *)
Definition column_action (part seg hwm : Z) (s : stripe) (e : EMEntry) : action :=
  if part <? partitionNum e then Delete
  else if partitionNum e =? part then
    if fboHi s <? blockOffset e then Delete
    else if blockOffset e <? fboLo s then
      if (fboLoPreviousStripe s <=? blockOffset e) && (seg <? segmentNum e)
      then SetHWM (u32 (fboLo s - 1)) else Keep
    else if seg <? segmentNum e then Delete
    else if segmentNum e <? seg then SetHWM (fboHi s)
    else SetHWM hwm
  else Keep.

(** The loop of [rollbackColumnExtents_DBroot]. *)
Fixpoint rollback_column (oid : Z) (bDeleteAll : bool) (dbroot part seg hwm : Z) (slots : list Z) (s : stripe)
    : M ExtentMap unit :=
  match slots with
  | [] => mret tt
  | i :: slots' =>
      e ← get_em i;
      if negb (ir_size (range e) =? 0) && (fileID e =? oid) && (dbRoot e =? dbroot)
         && negb (status e =? EXTENTOUTOFSERVICE)
      then
        if bDeleteAll then
          deleteExtent i ≫= fun _ => rollback_column oid bDeleteAll dbroot part seg hwm slots' s
        else
          let s := compute_stripe hwm e s in
          act i e (column_action part seg hwm s e) ≫= fun _ =>
          rollback_column oid bDeleteAll dbroot part seg hwm slots' s
      else rollback_column oid bDeleteAll dbroot part seg hwm slots' s
  end.

(** [ExtentMap::rollbackColumnExtents_DBroot] *)
Definition rollbackColumnExtents_DBroot (oid : Z) (bDeleteAll : bool) (dbroot part seg hwm : Z)
    : M ExtentMap unit :=
  grab_both ≫= fun _ =>
  m ← get_mem;
  rollback_column oid bDeleteAll dbroot part seg hwm (zseq 0 (emEntries m)) no_stripe.

(** The map from segment files to (hwm, fboLo); a file named twice has the last
    of its HWMs. *)
Fixpoint seg_hwms (rng : Z) (segNums hwms : list Z) : outcome (gmap Z (Z * Z)) :=
  match hwms, segNums with
  | [], _ => Ret ∅
  | h :: hwms', s :: segNums' =>
      r ← seg_hwms rng segNums' hwms';
      Ret (match r !! s with Some _ => r | None => <[s := (h, h - h mod rng)]> r end)
  | _ :: _, [] => Exn Segfault
  end.

(** The cases 1 to 4 of [rollbackDictStoreExtents_DBroot]. *)
Definition dict_action (part : Z) (segs : gmap Z (Z * Z)) (e : EMEntry) : action :=
  if part <? partitionNum e then Delete
  else if partitionNum e =? part then
    match segs !! segmentNum e with
    | None => Delete
    | Some (hwm, lo) =>
        if blockOffset e <? lo then Keep else if blockOffset e =? lo then SetHWM hwm else Delete
    end
  else Keep.

(** The loop of [rollbackDictStoreExtents_DBroot]. *)
Fixpoint rollback_dict (oid dbroot part : Z) (segNums hwms : list Z) (slots : list Z)
    (segs : gmap Z (Z * Z)) : M ExtentMap unit :=
  match slots with
  | [] => mret tt
  | i :: slots' =>
      e ← get_em i;
      if negb (ir_size (range e) =? 0) && (fileID e =? oid) && (dbRoot e =? dbroot)
         && negb (status e =? EXTENTOUTOFSERVICE)
      then
        if bool_decide (hwms = []) then
          deleteExtent i ≫= fun _ => rollback_dict oid dbroot part segNums hwms slots' segs
        else
          segs ← lift (if bool_decide (segs = ∅)
                       then seg_hwms (u32 (ir_size (range e) * 1024)) segNums hwms else Ret segs);
          act i e (dict_action part segs e) ≫= fun _ =>
          rollback_dict oid dbroot part segNums hwms slots' segs
      else rollback_dict oid dbroot part segNums hwms slots' segs
  end.

(** [ExtentMap::rollbackDictStoreExtents_DBroot] *)
Definition rollbackDictStoreExtents_DBroot (oid dbroot part : Z) (segNums hwms : list Z)
    : M ExtentMap unit :=
  grab_both ≫= fun _ =>
  m ← get_mem;
  rollback_dict oid dbroot part segNums hwms (zseq 0 (emEntries m)) ∅.

(** [ExtentInfo]; an [ExtentsInfoMap_t] is the list of its elements in the order
    of iteration. *)
Record ExtentInfo := mkExtentInfo {
  xi_partitionNum : Z;
  xi_segmentNum : Z;
  xi_dbRoot : Z;
  xi_hwm : Z;
  xi_newFile : bool;
}.
Abbreviation ExtentsInfoMap := (list (Z * ExtentInfo)).

Definition xi_find (oid : Z) (l : ExtentsInfoMap) : option ExtentInfo :=
  snd <$> find (fun kv => kv.1 =? oid) l.

(** The loop of [deleteEmptyColExtents]: the stripe is computed for the first
    extent that is found. *)
Fixpoint empty_column (info : ExtentsInfoMap) (slots : list Z) (s : stripe) : M ExtentMap unit :=
  match slots with
  | [] => mret tt
  | i :: slots' =>
      e ← get_em i;
      match xi_find (fileID e) info with
      | Some x =>
          if (ir_size (range e) =? 0) || (status e =? EXTENTOUTOFSERVICE)
          then empty_column info slots' s
          else
            let s := compute_stripe (xi_hwm x) e s in
            act i e (column_action (xi_partitionNum x) (xi_segmentNum x) (xi_hwm x) s e) ≫= fun _ =>
            empty_column info slots' s
      | None => empty_column info slots' s
      end
  end.

(** [ExtentMap::deleteEmptyColExtents] *)
Definition deleteEmptyColExtents (info : ExtentsInfoMap) : M ExtentMap unit :=
  grab_both ≫= fun _ =>
  m ← get_mem;
  empty_column info (zseq 0 (emEntries m)) no_stripe.

(** The cases of [deleteEmptyDictStoreExtents] for an old file. *)
Definition empty_dict_action (x : ExtentInfo) (lo : Z) (e : EMEntry) : action :=
  if xi_partitionNum x <? partitionNum e then Delete
  else if (partitionNum e =? xi_partitionNum x) && (segmentNum e =? xi_segmentNum x) then
    if blockOffset e <? lo then Keep
    else if blockOffset e =? lo then SetHWM (xi_hwm x) else Delete
  else Keep.

Fixpoint empty_dict (info : ExtentsInfoMap) (slots : list Z) (s : stripe) : M ExtentMap unit :=
  match slots with
  | [] => mret tt
  | i :: slots' =>
      e ← get_em i;
      match xi_find (fileID e) info with
      | Some x =>
          if (ir_size (range e) =? 0) || (status e =? EXTENTOUTOFSERVICE)
          then empty_dict info slots' s
          else
            let s := compute_stripe (xi_hwm x) e s in
            act i e (empty_dict_action x (fboLo s) e) ≫= fun _ => empty_dict info slots' s
      | None => empty_dict info slots' s
      end
  end.

(** [ExtentMap::deleteEmptyDictStoreExtents] *)
Definition deleteEmptyDictStoreExtents (info : ExtentsInfoMap) : M ExtentMap unit :=
  grab_both ≫= fun _ =>
  x0 ← lift (deref (head info));
  m ← get_mem;
  if xi_newFile (snd x0) then
    delete_all (fun e =>
      match xi_find (fileID e) info with
      | Some x => (partitionNum e =? xi_partitionNum x) && (segmentNum e =? xi_segmentNum x)
                  && (dbRoot e =? xi_dbRoot x)
      | None => false
      end)
  else empty_dict info (zseq 0 (emEntries m)) no_stripe.

(** ** Logical partitions *)

(** [LogicalPartition]: DBRoot, physical partition and segment. *)
Definition LogicalPartition : Type := Z * Z * Z.
Definition partition_of (e : EMEntry) : LogicalPartition := (dbRoot e, partitionNum e, segmentNum e).

Definition ERR_PARTITION_NOT_EXIST : Z := 4003.
Definition WARN_NO_PARTITION_PERFORMED : Z := 2042.
Definition ERR_PARTITION_ALREADY_DISABLED : Z := 4002.
Definition ERR_PARTITION_ALREADY_ENABLED : Z := 4004.

Section Partitions.
Context (oids : gset Z) (parts : gset LogicalPartition).

(** Extents in use of the columns and the partitions. *)
Definition in_partitions (e : EMEntry) : bool :=
  negb (ir_size (range e) =? 0) && bool_decide (partition_of e ∈ parts) && bool_decide (fileID e ∈ oids).

(** The scan: the slots of these extents and the partitions found. *)
Definition found_slots (l : list EMEntry) : list Z :=
  scan_from (fun i e a => if in_partitions e then a ++ [i] else a) 0 l [].
Definition foundPartitions (l : list EMEntry) : gset LogicalPartition :=
  list_to_set (partition_of <$> List.filter in_partitions l).

Definition set_status (st : Z) (i : Z) : M ExtentMap unit :=
  e ← get_em i; write_em i e (set_hwm_status (HWM e) st e).

(** [if (rc) throw IDBExcept(emsg, rc);] *)
Definition throw_rc (rc : Z) : M ExtentMap unit := if rc =? 0 then mret tt else throw (IDBExcept rc).

(** [ExtentMap::deletePartition] *)
Definition EM_deletePartition : M ExtentMap unit :=
  if bool_decide (oids = ∅) then mret tt
  else
    grab_both ≫= fun _ =>
    m ← get_mem;
    let found := foundPartitions (extents m) in
    forM (found_slots (extents m)) deleteExtent ≫= fun _ =>
    throw_rc (if bool_decide (found = ∅) then WARN_NO_PARTITION_PERFORMED
              else if negb (Nat.eqb (size found) (size parts)) then ERR_PARTITION_NOT_EXIST else 0).

(** [ExtentMap::markPartitionForDeletion] *)
Definition EM_markPartitionForDeletion : M ExtentMap unit :=
  if bool_decide (oids = ∅) then mret tt
  else
    grabEMEntryTable WRITE ≫= fun _ =>
    m ← get_mem;
    let found := foundPartitions (extents m) in
    forM (found_slots (extents m)) (set_status EXTENTOUTOFSERVICE) ≫= fun _ =>
    throw_rc (if bool_decide (found = ∅) then WARN_NO_PARTITION_PERFORMED
              else if existsb (fun e => in_partitions e && (status e =? EXTENTOUTOFSERVICE)) (extents m)
              then ERR_PARTITION_ALREADY_DISABLED
              else if negb (Nat.eqb (size found) (size parts)) then ERR_PARTITION_NOT_EXIST else 0).

(** [ExtentMap::restorePartition] *)
Definition EM_restorePartition : M ExtentMap unit :=
  if bool_decide (oids = ∅) then mret tt
  else
    grabEMEntryTable WRITE ≫= fun _ =>
    m ← get_mem;
    let found := foundPartitions (extents m) in
    if negb (Nat.eqb (size found) (size parts)) then throw (IDBExcept ERR_PARTITION_NOT_EXIST)
    else
      forM (found_slots (extents m)) (set_status EXTENTAVAILABLE) ≫= fun _ =>
      throw_rc (if existsb (fun e => in_partitions e && (status e =? EXTENTAVAILABLE)) (extents m)
                then ERR_PARTITION_ALREADY_ENABLED else 0).
End Partitions.

(** [ExtentMap::markAllPartitionForDeletion] *)
Definition EM_markAllPartitionForDeletion (oids : gset Z) : M ExtentMap unit :=
  if bool_decide (oids = ∅) then mret tt
  else
    grabEMEntryTable WRITE ≫= fun _ =>
    m ← get_mem;
    forM (zseq 0 (emEntries m)) (fun i =>
      e ← get_em i;
      if negb (ir_size (range e) =? 0) && bool_decide (fileID e ∈ oids)
      then set_status EXTENTOUTOFSERVICE i else mret tt).
