(* ===== verification/EmQuery.v ===== *)
(** * Looking extents up, high water marks and the consistency check ([extentmap.cpp]) *)

From stdpp Require Import sorting.
From S2P Require Import Prelude Undo Table Vbbm Vss ColType ExtentMap EmCp EmCreate EmDelete.

(** An extent in use. *)
Definition em_used (e : EMEntry) : bool := negb (ir_size (range e) =? 0).

(** [grabEMEntryTable(READ); ...; releaseEMEntryTable(READ);] around a function of
    the table, with the lock released on every path. *)
Definition reading {A} (f : EMMem → outcome A) : M ExtentMap A :=
  grabEMEntryTable READ ≫= fun _ =>
  m ← get_mem;
  releaseEMEntryTable READ ≫= fun _ => lift (f m).

(** [throw invalid_argument] unless the number is not negative. *)
Definition nonneg_arg (x : Z) : M ExtentMap unit := if x <? 0 then throw InvalidArgument else mret tt.

(** ** Lookups *)

(** [ExtentMap::lookup(lbid, first, last)]: [None] for -1. *)
Definition EM_lookup (lbid : Z) : M ExtentMap (option (Z * Z)) :=
  reading (fun m => Ret match find_index (has_lbid lbid) (extents m) with
                        | Some (_, e) => Some (ir_start (range e), lastBlock e)
                        | None => None
                        end).

(** The place of a block in a file: OID, DBRoot, partition, segment and offset. *)
Record block_place := mkBP { bp_oid : Z; bp_dbRoot : Z; bp_part : Z; bp_seg : Z; bp_fbo : Z }.

(** [ExtentMap::lookupLocal(lbid, ...)] *)
Definition lookupLocal (lbid : Z) : M ExtentMap (option block_place) :=
  nonneg_arg lbid ≫= fun _ =>
  reading (fun m => Ret match find_index (has_lbid lbid) (extents m) with
    | Some (_, e) =>
        Some (mkBP (fileID e) (dbRoot e) (partitionNum e) (segmentNum e)
                (u32 (blockOffset e + i32 (lbid - ir_start (range e)))))
    | None => None
    end).

(** An extent in use of the file that has the block. *)
Definition has_fbo (OID part seg fbo : Z) (e : EMEntry) : bool :=
  em_used e && (fileID e =? OID) && (partitionNum e =? part) && (segmentNum e =? seg)
  && (blockOffset e <=? fbo) && (fbo <=? blockOffset e + ir_size (range e) * 1024 - 1).

Definition lbid_at (fbo : Z) (e : EMEntry) : Z := ir_start (range e) + i32 (fbo - blockOffset e).

(** [ExtentMap::lookupLocal(OID, partition, segment, offset, LBID)] *)
Definition lookupLocal_file (OID part seg fbo : Z) : M ExtentMap (option Z) :=
  nonneg_arg OID ≫= fun _ =>
  reading (fun m => Ret ((fun ie => lbid_at fbo ie.2) <$> find_index (has_fbo OID part seg fbo) (extents m))).

(** [ExtentMap::lookupLocal_DBroot] *)
Definition lookupLocal_DBroot (OID dbroot part seg fbo : Z) : M ExtentMap (option Z) :=
  nonneg_arg OID ≫= fun _ =>
  reading (fun m => Ret ((fun ie => lbid_at fbo ie.2) <$>
    find_index (fun e => has_fbo OID part seg fbo e && (dbRoot e =? dbroot)) (extents m))).

(** [ExtentMap::lookupLocalStartLbid] *)
Definition lookupLocalStartLbid (OID part seg fbo : Z) : M ExtentMap (option Z) :=
  nonneg_arg OID ≫= fun _ =>
  reading (fun m => Ret ((fun ie : Z * EMEntry => ir_start (range ie.2)) <$>
    find_index (has_fbo OID part seg fbo) (extents m))).

(** [ExtentMap::lookup(OID, ranges)] *)
Definition EM_lookup_oid (OID : Z) : M ExtentMap (list LBIDRange) :=
  nonneg_arg OID ≫= fun _ =>
  reading (fun m => Ret ((fun e => mkRange (ir_start (range e)) (u32 (ir_size (range e) * 1024))) <$>
    List.filter (fun e => (fileID e =? OID) && em_used e && negb (status e =? EXTENTOUTOFSERVICE))
      (extents m))).

(** [EMEntry::operator<], and [sort] by it. *)
Definition em_le (e1 e2 : EMEntry) : Prop := ir_start (range e1) ≤ ir_start (range e2).
#[global] Instance em_le_dec : RelDecision em_le.
Proof. intros e1 e2. unfold em_le. apply _. Defined.

(** [ExtentMap::getExtents] *)
Definition getExtents (OID : Z) (sorted incOutOfService : bool) : M ExtentMap (list EMEntry) :=
  nonneg_arg OID ≫= fun _ =>
  l ← reading (fun m => Ret (List.filter (fun e =>
        (fileID e =? OID) && em_used e && (incOutOfService || negb (status e =? EXTENTOUTOFSERVICE)))
        (extents m)));
  mret (if sorted then merge_sort em_le l else l).

(** [ExtentMap::getExtents_dbroot] *)
Definition getExtents_dbroot (OID dbroot : Z) : M ExtentMap (list EMEntry) :=
  nonneg_arg OID ≫= fun _ =>
  reading (fun m => Ret (List.filter (fun e => (fileID e =? OID) && em_used e && (dbRoot e =? dbroot))
                           (extents m))).

(** [ExtentMap::getExtentCount_dbroot] *)
Definition getExtentCount_dbroot (OID dbroot : Z) (incOutOfService : bool) : M ExtentMap Z :=
  nonneg_arg OID ≫= fun _ =>
  reading (fun m => Ret (count (fun e =>
    (fileID e =? OID) && em_used e && (dbRoot e =? dbroot)
    && (incOutOfService || negb (status e =? EXTENTOUTOFSERVICE))) (extents m))).

(** [ExtentMap::getSysCatDBRoot] *)
Definition getSysCatDBRoot (oid : Z) : M ExtentMap Z :=
  reading (fun m => match find_index (fun e => em_used e && (fileID e =? oid)) (extents m) with
                    | Some (_, e) => Ret (dbRoot e)
                    | None => Exn LogicError
                    end).

(** [ExtentMap::getOutOfServicePartitions] *)
Definition getOutOfServicePartitions (oid : Z) : M ExtentMap (gset LogicalPartition) :=
  nonneg_arg oid ≫= fun _ =>
  reading (fun m => Ret (list_to_set (partition_of <$>
    List.filter (fun e => em_used e && (fileID e =? oid) && (status e =? EXTENTOUTOFSERVICE)) (extents m)))).

(** [ExtentMap::isDBRootEmpty]: the exception leaves the table locked. *)
Definition isDBRootEmpty (dbroot : Z) : M ExtentMap bool :=
  grabEMEntryTable READ ≫= fun _ =>
  m ← get_mem;
  if mst_currentSize (em_info m) =? 0 then throw RuntimeError
  else
    releaseEMEntryTable READ ≫= fun _ =>
    mret (negb (existsb (fun e => em_used e && (dbRoot e =? dbroot)) (extents m))).

(** [ExtentMap::getFreeListEntries] *)
Definition getFreeListEntries : M ExtentMap (list InlineLBIDRange) :=
  grabEMEntryTable READ ≫= fun _ =>
  grabFreeList READ ≫= fun _ =>
  m ← get_mem;
  releaseFreeList READ ≫= fun _ =>
  releaseEMEntryTable READ ≫= fun _ => mret (freelist m).

(** ** High water marks *)

Definition in_segment (OID part seg : Z) (e : EMEntry) : bool :=
  em_used e && (fileID e =? OID) && (partitionNum e =? part) && (segmentNum e =? seg).

(** [ExtentMap::getExtentState]: [bFound] and the status. *)
Definition getExtentState (OID part seg : Z) : M ExtentMap (bool * Z) :=
  nonneg_arg OID ≫= fun _ =>
  reading (fun m => Ret match find_index (in_segment OID part seg) (extents m) with
                        | Some (_, e) => (true, status e)
                        | None => (false, EXTENTAVAILABLE)
                        end).

(** The loop of [getLocalHWM]: the first HWM that is not 0, else 0 with the status
    of the last extent; [None] if there is no extent. *)
Fixpoint local_hwm (OID part seg : Z) (l : list EMEntry) (found : option Z) : option (Z * Z) :=
  match l with
  | [] => (fun st => (0, st)) <$> found
  | e :: l' =>
      if in_segment OID part seg e then
        if HWM e =? 0 then local_hwm OID part seg l' (Some (status e)) else Some (HWM e, status e)
      else local_hwm OID part seg l' found
  end.

(** [ExtentMap::getLocalHWM]: the HWM and the status. *)
Definition getLocalHWM (OID part seg : Z) : M ExtentMap (Z * Z) :=
  nonneg_arg OID ≫= fun _ =>
  reading (fun m => match local_hwm OID part seg (extents m) None with
                    | Some r => Ret r
                    | None => Exn InvalidArgument
                    end).

(** The scan of [setLocalHWM]: the extent with the highest offset and the last one
    that has an HWM. *)
Record hwm_scan := mkHS { hs_last : option (Z * EMEntry); hs_highest : Z; hs_old : option Z }.

Definition hwm_step (OID part seg : Z) (i : Z) (e : EMEntry) (a : hwm_scan) : hwm_scan :=
  if in_segment OID part seg e then
    let a := if hs_highest a <=? blockOffset e then mkHS (Some (i, e)) (blockOffset e) (hs_old a) else a in
    if HWM e =? 0 then a else mkHS (hs_last a) (hs_highest a) (Some i)
  else a.

Definition find_hwm (OID part seg : Z) (l : list EMEntry) : hwm_scan :=
  scan_from (hwm_step OID part seg) 0 l (mkHS None 0 None).

(** [ExtentMap::setLocalHWM] *)
Definition EM_setLocalHWM (OID part seg newHWM : Z) (uselock : bool) : M ExtentMap unit :=
  (if uselock then grabEMEntryTable WRITE else mret tt) ≫= fun _ =>
  m ← get_mem;
  let a := find_hwm OID part seg (extents m) in
  match hs_last a with
  | None => throw InvalidArgument
  | Some (i, e) =>
      if u32 (blockOffset e + u32 (ir_size (range e) * 1024)) <=? newHWM then throw InvalidArgument
      else
        write_em i e (set_hwm_status newHWM EXTENTAVAILABLE e) ≫= fun _ =>
        match hs_old a with
        | Some j =>
            if j =? i then mret tt
            else o ← get_em j; write_em j o (set_hwm_status 0 (status o) o)
        | None => mret tt
        end
  end.

(** [BulkSetHWMArg] and [ExtentMap::bulkSetHWM] *)
Record BulkSetHWMArg := mkBulkHWM { bh_oid : Z; bh_partNum : Z; bh_segNum : Z; bh_hwm : Z }.
Definition EM_bulkSetHWM (v : list BulkSetHWMArg) : M ExtentMap unit :=
  grabEMEntryTable WRITE ≫= fun _ =>
  forM v (fun a => EM_setLocalHWM (bh_oid a) (bh_partNum a) (bh_segNum a) (bh_hwm a) false).

(** [ExtentMap::bulkUpdateDBRoot]: pairs of a first LBID and a DBRoot; the entries
    are changed without an image. *)
Definition EM_bulkUpdateDBRoot (args : list (Z * Z)) : M ExtentMap unit :=
  grabEMEntryTable WRITE ≫= fun _ =>
  m ← get_mem;
  forM (zseq 0 (emEntries m)) (fun i =>
    e ← get_em i;
    match find (fun a => a.1 =? ir_start (range e)) args with
    | Some a => upd_mem (set_em i (set_dbRoot a.2 e))
    | None => mret tt
    end).

(** The last extent of a column on a DBRoot, as the functions below scan for it,
    from the end of the table. *)
Record last_scan := mkLS { ls_part : Z; ls_seg : Z; ls_offset : Z; ls_entry : option EMEntry }.

Definition last_step (p : EMEntry → bool) (e : EMEntry) (a : last_scan) : last_scan :=
  if p e && later e (ls_part a) (ls_offset a) (ls_seg a)
  then mkLS (partitionNum e) (segmentNum e) (blockOffset e) (Some e) else a.

Definition find_last (p : EMEntry → bool) (l : list EMEntry) : last_scan :=
  foldr (last_step p) (mkLS 0 0 0 None) l.

(** [ExtentMap::getLastHWM_DBroot]: the HWM, the partition, the segment and the
    status if an extent was found. *)
Definition getLastHWM_DBroot (OID dbroot : Z) : M ExtentMap (Z * Z * Z * option Z) :=
  nonneg_arg OID ≫= fun _ =>
  reading (fun m =>
    let a := find_last (fun e =>
      em_used e && (fileID e =? OID) && (dbRoot e =? dbroot)
      && ((status e =? EXTENTAVAILABLE) || (status e =? EXTENTOUTOFSERVICE))) (extents m) in
    Ret (match ls_entry a with Some e => HWM e | None => 0 end, ls_part a, ls_seg a,
         status <$> ls_entry a)).

(** [EmDbRootHWMInfo]: the last extent of a DBRoot and the blocks in use. *)
Record EmDbRootHWMInfo := mkHWMInfo { hi_last : last_scan; hi_totalBlocks : Z }.

(** One DBRoot of [getDbRootHWMInfo]. *)
Definition dbroot_info (OID dbroot : Z) (l : list EMEntry) : outcome EmDbRootHWMInfo :=
  let mine e := em_used e && (fileID e =? OID) && (dbRoot e =? dbroot) in
  let a := find_last mine l in
  let total := foldr (fun e n =>
    if mine e && negb (status e =? EXTENTOUTOFSERVICE) && negb (HWM e =? 0)
    then u64 (n + u32 (HWM e + 1)) else n) 0 l in
  match ls_entry a with
  | None => Ret (mkHWMInfo a total)
  | Some e =>
      if status e =? EXTENTUNAVAILABLE then Exn RuntimeError
      else Ret (mkHWMInfo a (if (HWM e =? 0) && (status e =? EXTENTAVAILABLE) then u64 (total + 1) else total))
  end.

(** [ExtentMap::getDbRootHWMInfo]; [roots] are the DBRoots of the module. *)
Definition getDbRootHWMInfo (roots : list Z) (OID : Z) : M ExtentMap (list (Z * EmDbRootHWMInfo)) :=
  nonneg_arg OID ≫= fun _ =>
  if bool_decide (roots = []) then throw InvalidArgument
  else reading (fun m => mapM (fun r => info ← dbroot_info OID r (extents m); Ret (r, info)) roots).

(** ** The consistency check *)

(** Test 1a: an extent and a free entry overlap.  The sizes are multiplied in
    32-bit arithmetic. *)
Definition overlap_1a (e : EMEntry) (f : InlineLBIDRange) : bool :=
  let emBegin := ir_start (range e) in
  let emEnd := emBegin + u32 (ir_size (range e) * 1024) - 1 in
  let flBegin := ir_start f in
  let flEnd := flBegin + u32 (ir_size f * 1024) - 1 in
  ((emBegin <=? flBegin) && (flBegin <=? emEnd))
  || ((flBegin <=? emBegin) && (emEnd <=? flEnd))
  || ((emBegin <=? flEnd) && (flEnd <=? emEnd)).

Definition test_1a (em : list EMEntry) (fl : list InlineLBIDRange) : bool :=
  forallb (fun e => negb (em_used e) ||
    forallb (fun f => (ir_size f =? 0) || negb (overlap_1a e f)) fl) em.

(** Test 1b: the entries cover the LBIDs, counted in units; one pass over the
    entries of a list, and the [while] loop. *)
Fixpoint pass_1b (l : list InlineLBIDRange) (lbid : Z) : option Z :=
  match l with
  | [] => Some lbid
  | r :: l' =>
      if negb (Z.rem (ir_start r) 1024 =? 0) then None
      else pass_1b l' (if Z.quot (ir_start r) 1024 =? lbid then i32 (lbid + ir_size r) else lbid)
  end.

Fixpoint test_1b (fuel : nat) (fl em : list InlineLBIDRange) (lbid : Z) : outcome unit :=
  if lbid <? 67108864 then
    match fuel with
    | O => Exn OutOfFuel
    | S fuel' =>
        match pass_1b fl lbid ≫= pass_1b em with
        | None => Exn LogicError
        | Some lbid' => if lbid' =? lbid then Exn LogicError else test_1b fuel' fl em lbid'
        end
    end
  else Ret tt.

(** Test 2: no free entry is followed by another one in a later slot. *)
Fixpoint test_2 (fl : list InlineLBIDRange) : bool :=
  match fl with
  | [] => true
  | f :: fl' =>
      ((ir_size f =? 0)
       || forallb (fun g => (ir_size g =? 0)
                            || negb (ir_start g =? ir_start f + u32 (ir_size f * 1024))) fl')
      && test_2 fl'
  end.

(** All the tests. *)
Definition consistency_tests (m : EMMem) : outcome unit :=
  let em := extents m in
  let fl := freelist m in
  _ ← (if test_1a em fl then Ret tt else Exn LogicError);
  _ ← test_1b (S (length em + length fl)) fl (range <$> em) 0;
  _ ← (if existsb (fun e => em_used e && (dbRoot e =? 0)) em then Exn LogicError else Ret tt);
  _ ← (if test_2 fl then Ret tt else Exn LogicError);
  _ ← (if count em_used em =? mst_currentSize (em_info m) / sizeof_EMEntry then Ret tt else Exn LogicError);
  if count (fun r => negb (ir_size r =? 0)) fl =? mst_currentSize (fl_info m) / sizeof_InlineLBIDRange
  then Ret tt else Exn LogicError.

(** [ExtentMap::checkConsistency]: a failed test leaves the tables locked. *)
Definition EM_checkConsistency : M ExtentMap Z :=
  grabEMEntryTable READ ≫= fun _ =>
  grabFreeList_or_release READ ≫= fun _ =>
  m ← get_mem;
  lift (consistency_tests m) ≫= fun _ =>
  releaseFreeList READ ≫= fun _ =>
  releaseEMEntryTable READ ≫= fun _ => mret 0.
