(* ===== verification/EmFile.v ===== *)
(** * The extent map file ([ExtentMap::save], [ExtentMap::load])

    The file has the extents as they lie in memory and the free list after them.
    Loading reads the extents only: it starts from a free list with all the LBIDs
    and takes the ranges of the extents out of it. *)

From S2P Require Import Prelude BinFile Undo Table ColType ExtentMap EmCp EmCreate EmDelete EmQuery.

Definition EM_MAGIC_V4 : Z := 0x76f78b1f.

(** The image of an [EMEntry]: 64 bytes, 4 of padding after the range and 3 at the
    end. *)
Definition em_bytes (e : EMEntry) : list Z :=
  le_bytes 8 (ir_start (range e)) ++ le_bytes 4 (ir_size (range e)) ++ le_bytes 4 0 ++
  le_bytes 4 (fileID e) ++ le_bytes 4 (blockOffset e) ++ le_bytes 4 (HWM e) ++
  le_bytes 4 (partitionNum e) ++ le_bytes 2 (segmentNum e) ++ le_bytes 2 (dbRoot e) ++
  le_bytes 2 (colWid e) ++ le_bytes 2 (status e) ++
  le_bytes 8 (hi_val (cprange e)) ++ le_bytes 8 (lo_val (cprange e)) ++
  le_bytes 4 (sequenceNum (cprange e)) ++ le_bytes 1 (isValid (cprange e)) ++ le_bytes 3 0.

Definition em_of (bs : list Z) : EMEntry :=
  mkEM (mkIR (get_s (field 0 8 bs)) (get_u (field 8 4 bs)))
    (get_s (field 16 4 bs)) (get_u (field 20 4 bs)) (get_u (field 24 4 bs)) (get_u (field 28 4 bs))
    (get_u (field 32 2 bs)) (get_u (field 34 2 bs)) (get_u (field 36 2 bs)) (get_s (field 38 2 bs))
    (mkCP (get_s (field 40 8 bs)) (get_s (field 48 8 bs)) (get_s (field 56 4 bs)) (get_s (field 60 1 bs))).

Definition fl_bytes (r : InlineLBIDRange) : list Z :=
  le_bytes 8 (ir_start r) ++ le_bytes 4 (ir_size r) ++ le_bytes 4 0.

(** The file [ExtentMap::save] writes. *)
Definition em_image (m : EMMem) : list Z :=
  le_bytes 4 EM_MAGIC_V4 ++ le_bytes 4 (mst_currentSize (em_info m) / sizeof_EMEntry) ++
  le_bytes 4 (flEntries m) ++
  (List.filter em_used (extents m) ≫= em_bytes) ++ (freelist m ≫= fl_bytes).

(** [ExtentMap::save] *)
Definition EM_save : M ExtentMap (list Z) :=
  grabEMEntryTable READ ≫= fun _ =>
  grabFreeList_or_release READ ≫= fun _ =>
  m ← get_mem;
  releaseFreeList READ ≫= fun _ =>
  releaseEMEntryTable READ ≫= fun _ =>
  if mst_currentSize (em_info m) =? 0 then throw RuntimeError else mret (em_image m).

(** ** Loading *)

(** The search of [reserveLBIDRange]: the entry the request meets, how it lies in
    it, and the first free slot passed. *)
Inductive met := Front | Back | Middle.

Fixpoint reserve_scan (start lastLBID i : Z) (l : list InlineLBIDRange) (freeIndex : Z)
    : option (met * Z * InlineLBIDRange * Z) :=
  match l with
  | [] => None
  | r :: l' =>
      if ir_size r =? 0 then
        reserve_scan start lastLBID (i + 1) l' (if freeIndex =? -1 then i else freeIndex)
      else
        let eLastLBID := ir_start r + ir_size r * 1024 - 1 in
        if start =? ir_start r then Some (Front, i, r, freeIndex)
        else if eLastLBID =? lastLBID then Some (Back, i, r, freeIndex)
        else if (ir_start r <? start) && (lastLBID <? eLastLBID) then Some (Middle, i, r, freeIndex)
        else reserve_scan start lastLBID (i + 1) l' freeIndex
  end.

(** An entry shrinks; if nothing is left of it there is one less. *)
Definition shrink_fl (i : Z) (r r' : InlineLBIDRange) : M ExtentMap unit :=
  makeUndoRecord (DFL i r) ≫= fun _ =>
  upd_mem (set_fl i r') ≫= fun _ =>
  if ir_size r' =? 0 then
    m ← get_mem;
    makeUndoRecord (DFLInfo (fl_info m)) ≫= fun _ =>
    upd_mem (fun m => set_fl_info (add_size (- sizeof_InlineLBIDRange) (fl_info m)) m)
  else mret tt.

(** A slot for the second half of an entry that is split. *)
Definition split_slot (i freeIndex : Z) : M ExtentMap Z :=
  if negb (freeIndex =? -1) then mret freeIndex
  else
    m ← get_mem;
    if mst_currentSize (fl_info m) =? allocdSize (fl_info m)
    then growFLShmseg ≫= fun _ => mret (flEntries m)
    else mret match find_from (fun r => ir_size r =? 0) (i + 1) (drop (Z.to_nat (i + 1)) (freelist m)) with
              | Some (j, _) => j
              | None => flEntries m
              end.

(** [ExtentMap::reserveLBIDRange]; [size] is a [uint8_t]. *)
Definition reserveLBIDRange (start size : Z) : M ExtentMap unit :=
  m ← get_mem;
  let lastLBID := start + size * 1024 - 1 in
  match reserve_scan start lastLBID 0 (freelist m) (-1) with
  | None => mret tt
  | Some (Front, i, r, _) =>
      shrink_fl i r (mkIR (ir_start r + size * 1024) (u32 (ir_size r - size)))
  | Some (Back, i, r, _) => shrink_fl i r (mkIR (ir_start r) (u32 (ir_size r - size)))
  | Some (Middle, i, r, freeIndex) =>
      let eLastLBID := ir_start r + ir_size r * 1024 - 1 in
      j ← split_slot i freeIndex;
      image_fl i ≫= fun _ =>
      image_fl j ≫= fun _ =>
      m ← get_mem;
      makeUndoRecord (DFLInfo (fl_info m)) ≫= fun _ =>
      upd_mem (set_fl i (mkIR (ir_start r) (u32 (Z.quot (start - ir_start r) 1024)))) ≫= fun _ =>
      upd_mem (set_fl j (mkIR (start + size * 1024) (u32 (Z.quot (eLastLBID - lastLBID) 1024)))) ≫= fun _ =>
      upd_mem (fun m => set_fl_info (add_size sizeof_InlineLBIDRange (fl_info m)) m)
  end.

(** [in.read(...)], which throws at the end of the file. *)
Definition read_or (hdfs : bool) (n : nat) (file : list Z) : outcome (list Z * list Z) :=
  match read n file with
  | Some r => Ret r
  | None => Exn (if hdfs then RuntimeError else IosFailure)
  end.

(** A status outside its values is read as available. *)
Definition fix_status (e : EMEntry) : EMEntry :=
  if (status e <? 0) || (2 <? status e) then set_hwm_status (HWM e) EXTENTAVAILABLE e else e.

(** The loop of [loadVersion4]. *)
Fixpoint load_extents (hdfs : bool) (slots : list Z) (file : list Z) : M ExtentMap unit :=
  match slots with
  | [] => mret tt
  | i :: slots' =>
      _ ← get_em i;
      '(bs, file') ← lift (read_or hdfs 64 file);
      let e := em_of bs in
      upd_mem (set_em i e) ≫= fun _ =>
      reserveLBIDRange (ir_start (range e)) (u8 (ir_size (range e))) ≫= fun _ =>
      upd_mem (set_em i (fix_status e)) ≫= fun _ =>
      load_extents hdfs slots' file'
  end.

(** The tables zeroed, all the LBIDs free. *)
Definition cleared (m : EMMem) : EMMem :=
  mkEMMem (mkMST (tableShmkey (em_info m)) (allocdSize (em_info m)) 0) (em_key m)
    (replicate (length (em_tab m)) empty_EMEntry)
    (mkMST (tableShmkey (fl_info m)) (allocdSize (fl_info m)) sizeof_InlineLBIDRange) (fl_key m)
    ((replicate (length (fl_tab m)) empty_range).[0 <- mkIR 0 (2 ^ 26)])
    (emLocked m) (flLocked m) (emReaders m) (flReaders m).

(** [nrows] rounded up to [EM_INCREMENT_ROWS]. *)
Definition round_rows (n : Z) : Z :=
  if n mod EM_INCREMENT_ROWS =? 0 then n else (n / EM_INCREMENT_ROWS + 1) * EM_INCREMENT_ROWS.

(** The two counts at the head of the file, of which the first is used; on HDFS
    [idbassert] sees it before the number of bytes read is tested. *)
Definition read_counts (hdfs : bool) (file : list Z) : outcome (Z * list Z) :=
  if hdfs then
    let n := get_s (take 4 (take 4 file ++ [0; 0; 0; 0])) in
    if negb (0 <? n) then Exn AssertFailure
    else if (length file <? 8)%nat then Exn RuntimeError
    else Ret (n, drop 8 file)
  else
    '(b, file) ← read_or hdfs 4 file;
    '(_, file) ← read_or hdfs 4 file;
    if 0 <? get_s b then Ret (get_s b, file) else Exn AssertFailure.

(** [ExtentMap::loadVersion4] *)
Definition loadVersion4 (hdfs : bool) (file : list Z) : M ExtentMap unit :=
  '(emNumElements, file) ← lift (read_counts hdfs file);
  upd_mem cleared ≫= fun _ =>
  m ← get_mem;
  (if emEntries m <? emNumElements then growEMShmseg (round_rows emNumElements) else mret tt) ≫= fun _ =>
  load_extents hdfs (zseq 0 emNumElements) file ≫= fun _ =>
  upd_mem (fun m => set_em_info (mkMST (tableShmkey (em_info m)) (allocdSize (em_info m))
                                   (emNumElements * sizeof_EMEntry)) m).

(** [ExtentMap::load]; [None] is a file that cannot be opened. *)
Definition EM_load (hdfs : bool) (file : option (list Z)) : M ExtentMap unit :=
  let release := releaseFreeList WRITE ≫= fun _ => releaseEMEntryTable WRITE in
  grabEMEntryTable WRITE ≫= fun _ =>
  grabFreeList_or_release WRITE ≫= fun _ =>
  catch (f ← lift (match file with Some f => Ret f | None => Exn IosFailure end);
         '(b, f) ← lift (read_or hdfs 4 f);
         (if get_s b =? EM_MAGIC_V4 then loadVersion4 hdfs f else throw RuntimeError) ≫= fun _ =>
         release)
    (fun e => release ≫= fun _ => throw e).
