(* ===== verification/EmSpace.v ===== *)
(** * The LBID space ([ExtentMap::getLBIDsFromFreeList], [deleteExtent], ...)

    The invariant of the extent map: every LBID below [2^36] is in exactly one
    extent or exactly one entry of the free list, the free list is merged, and
    the descriptors count the entries in use.  The free list operations preserve
    it and move exactly the LBIDs they say. *)

From S2P Require Import Prelude Undo Table Vbbm Vss ColType ExtentMap EmCp EmCreate EmDelete EmQuery.

#[global] Instance em_restorable_laws : RestorableLaws em_delta EMMem.
Proof. split; [by intros [] []|]. intros []; vm_compute; discriminate. Qed.

(** ** Covering *)

Definition ir_end (r : InlineLBIDRange) : Z := ir_start r + ir_size r * 1024.
Definition fl_used (r : InlineLBIDRange) : bool := negb (ir_size r =? 0).

(** 1 if the range has the LBID, else 0; how many ranges of a list have it. *)
Definition ind (r : InlineLBIDRange) (x : Z) : Z :=
  if (ir_start r <=? x) && (x <? ir_end r) then 1 else 0.
Fixpoint cover (l : list InlineLBIDRange) (x : Z) : Z :=
  match l with
  | [] => 0
  | r :: l' => ind r x + cover l' x
  end.

Lemma ind_range r x : 0 ≤ ind r x ≤ 1.
Proof. unfold ind. case_if; lia. Qed.

Lemma ind_one r x : ind r x = 1 ↔ ir_start r ≤ x < ir_end r.
Proof. unfold ind. case_if; zbool; lia. Qed.

Lemma ind_zero r x : ind r x = 0 ↔ ¬ (ir_start r ≤ x < ir_end r).
Proof. unfold ind. case_if; zbool; lia. Qed.

Lemma ind_unused r x : fl_used r = false → ind r x = 0.
Proof. unfold fl_used. intros. zbool. apply ind_zero. unfold ir_end. lia. Qed.

Lemma cover_app l1 l2 x : cover (l1 ++ l2) x = cover l1 x + cover l2 x.
Proof. induction l1 as [|r l1 IH]; cbn; [done|]. rewrite IH. lia. Qed.

Lemma cover_nonneg l x : 0 ≤ cover l x.
Proof. induction l as [|r l IH]; cbn; [done|]. pose proof (ind_range r x). lia. Qed.

#[global] Instance cover_proper : Proper ((≡ₚ) ==> (=) ==> (=)) cover.
Proof.
  intros l1 l2 Hp x ? <-. induction Hp; cbn; lia.
Qed.

Lemma cover_elem l r x : r ∈ l → ind r x ≤ cover l x.
Proof.
  induction l as [|r' l IH]; intros Hr; [by apply elem_of_nil in Hr|].
  pose proof (ind_range r' x). pose proof (cover_nonneg l x). cbn.
  apply elem_of_cons in Hr as [->|Hr]; [lia|]. specialize (IH Hr). lia.
Qed.

Lemma cover_pos l x : 0 < cover l x → ∃ r, r ∈ l ∧ ind r x = 1.
Proof.
  induction l as [|r l IH]; cbn; [lia|]. intros H. destruct (decide (ind r x = 1)) as [Hi|Hi].
  - exists r. split; [by left|done].
  - pose proof (ind_range r x). destruct IH as (r' & Hr' & Hi'); [lia|]. exists r'. split; [by right|done].
Qed.

(** ** Lists of slots *)

Lemma zget_cons {A} (x : A) l i : 0 ≤ i → (x :: l).[i + 1] = l.[i].
Proof.
  intros. unfold zget. rewrite !(proj2 (Z.ltb_ge _ _)) by lia.
  by replace (Z.to_nat (i + 1)) with (S (Z.to_nat i)) by lia.
Qed.

Section Slots.
Context {A : Type} (used : A → bool).

Definition opt_used (x : A) : list A := if used x then [x] else [].

Lemma used_zset l i x :
  l.[i] = Some x →
  ∃ rest, List.filter used l ≡ₚ opt_used x ++ rest ∧
          ∀ y, List.filter used (l.[i <- y]) ≡ₚ opt_used y ++ rest.
Proof.
  intros Hi. assert (∃ l1 l2, l = l1 ++ x :: l2 ∧ i = zlength l1) as (l1 & l2 & -> & ->).
  { unfold zget in Hi. destruct (i <? 0) eqn:Hn; [done|]. zbool.
    exists (take (Z.to_nat i) l), (drop (S (Z.to_nat i)) l). split; [by rewrite take_drop_middle|].
    unfold zlength. rewrite length_take_le; [lia|]. apply lookup_lt_Some in Hi. lia. }
  exists (List.filter used l1 ++ List.filter used l2).
  assert (∀ y, List.filter used (l1 ++ y :: l2) ≡ₚ opt_used y ++ List.filter used l1 ++ List.filter used l2) as Hy.
  { intros y. rewrite List.filter_app. unfold opt_used. cbn. destruct (used y); [|done].
    cbn. by rewrite <- Permutation_middle. }
  split; [apply Hy|]. intros y. rewrite zset_middle. apply Hy.
Qed.

Lemma count_zset l i x y :
  l.[i] = Some x →
  count used (l.[i <- y]) = count used l - zlength (opt_used x) + zlength (opt_used y).
Proof.
  intros Hi. destruct (used_zset l i x Hi) as (rest & Hx & Hy). unfold count, zlength in *.
  rewrite Hx, (Hy y), !length_app. lia.
Qed.

Lemma used_elem l i x : l.[i] = Some x → used x = true → x ∈ List.filter used l.
Proof. intros Hi Hu. apply list_elem_of_In, filter_In. split; [|done]. apply list_elem_of_In, zget_elem_of. eauto. Qed.

Lemma elem_used l x : x ∈ List.filter used l → used x = true ∧ ∃ i, l.[i] = Some x.
Proof.
  intros Hx%list_elem_of_In%filter_In. destruct Hx as [Hx%list_elem_of_In Hu]. split; [done|].
  by apply zget_elem_of.
Qed.

Lemma count_full l : (∀ i x, l.[i] = Some x → used x = true) → count used l = zlength l.
Proof.
  intros H. unfold count, zlength. f_equal. induction l as [|x l IH]; [done|]. cbn.
  rewrite (H 0 x eq_refl). cbn. f_equal. apply IH. intros i y Hi. apply (H (i + 1)).
  pose proof (zget_range _ _ _ Hi). by rewrite zget_cons by lia.
Qed.

Lemma count_le l : 0 ≤ count used l ≤ zlength l.
Proof. unfold count, zlength. pose proof (filter_length_le used l). lia. Qed.
End Slots.

(** [find_from] and [scan_from] over arrays. *)
Lemma find_from_Some {A} (p : A → bool) l k i x :
  find_from p k l = Some (i, x) → k ≤ i ∧ l.[i - k] = Some x ∧ p x = true.
Proof.
  revert k. induction l as [|y l IH]; intros k; cbn; [done|]. case_if.
  - intros [= -> ->]. rewrite Z.sub_diag. done.
  - intros (Hk & Hi & Hp)%IH. split; [lia|]. split; [|done].
    replace (i - k) with (i - (k + 1) + 1) by lia. by rewrite zget_cons by lia.
Qed.

Lemma find_from_None {A} (p : A → bool) l k x : find_from p k l = None → x ∈ l → p x = false.
Proof.
  revert k. induction l as [|y l IH]; intros k; cbn; intros Hf Hx; [by apply elem_of_nil in Hx|].
  case_if; [done|]. apply elem_of_cons in Hx as [->|Hx]; eauto.
Qed.

(** ** The invariant *)

Definition aligned (r : InlineLBIDRange) : Prop := ir_start r mod 1024 = 0 ∧ 0 ≤ ir_size r.

(** Entries that follow each other are merged. *)
Definition merged (l : list InlineLBIDRange) : Prop := ∀ r s, r ∈ l → s ∈ l → ir_end r ≠ ir_start s.

Record fl_wf (d : MSTEntry) (fl : list InlineLBIDRange) : Prop := mkFlWf {
  fw_len : allocdSize d = sizeof_InlineLBIDRange * zlength fl;
  fw_count : mst_currentSize d = sizeof_InlineLBIDRange * count fl_used fl;
  fw_shape : Forall aligned fl;
  fw_merged : merged (List.filter fl_used fl);
}.

Record em_wf (d : MSTEntry) (tab : list EMEntry) : Prop := mkEmWf {
  ew_len : allocdSize d = sizeof_EMEntry * zlength tab;
  ew_count : mst_currentSize d = sizeof_EMEntry * count em_used tab;
  ew_shape : Forall (fun e => aligned (range e)) tab;
}.

(** The free ranges and the ranges of the extents. *)
Definition free_ranges (m : EMMem) : list InlineLBIDRange := List.filter fl_used (fl_tab m).
Definition em_ranges (m : EMMem) : list InlineLBIDRange := range <$> List.filter em_used (em_tab m).

(** Every LBID is free, in an extent, or in a range held by the function that is
    running, and only once. *)
Definition lbid_space (held : list InlineLBIDRange) (m : EMMem) : Prop :=
  ∀ x, cover (free_ranges m) x + cover (em_ranges m) x + cover held x =
       if (0 <=? x) && (x <? 2 ^ 36) then 1 else 0.

(** Both segments are mapped. *)
Record em_mapped (m : EMMem) : Prop := mkMapped {
  mp_em : 0 < em_key m ∧ em_key m = tableShmkey (em_info m);
  mp_fl : 0 < fl_key m ∧ fl_key m = tableShmkey (fl_info m);
  mp_some : 0 < allocdSize (em_info m) ∧ 0 < allocdSize (fl_info m);
}.

Record em_inv_with (held : list InlineLBIDRange) (m : EMMem) : Prop := mkEmInv {
  ei_em : em_wf (em_info m) (em_tab m);
  ei_fl : fl_wf (fl_info m) (fl_tab m);
  ei_space : lbid_space held m;
  ei_mapped : em_mapped m;
}.
Abbreviation em_inv := (em_inv_with []).

Lemma extents_all held m : em_inv_with held m → extents m = em_tab m ∧ emEntries m = zlength (em_tab m).
Proof.
  intros [[Hl _ _] _ _ _]. unfold extents, emEntries, sizeof_EMEntry in *. rewrite Hl, Z.mul_comm, Z.div_mul by lia.
  split; [|done]. apply take_ge. unfold zlength. lia.
Qed.

Lemma freelist_all held m : em_inv_with held m → freelist m = fl_tab m ∧ flEntries m = zlength (fl_tab m).
Proof.
  intros [_ [Hl _ _ _] _ _]. unfold freelist, flEntries, sizeof_InlineLBIDRange in *.
  rewrite Hl, Z.mul_comm, Z.div_mul by lia. split; [|done]. apply take_ge. unfold zlength. lia.
Qed.

(** Ranges of the space lie in it. *)
Lemma space_bounds held m r :
  lbid_space held m → r ∈ free_ranges m ++ em_ranges m ++ held → 0 < ir_size r →
  0 ≤ ir_start r ∧ ir_end r ≤ 2 ^ 36.
Proof.
  intros Hs Hr Hz. assert (∀ x, ind r x ≤ if (0 <=? x) && (x <? 2 ^ 36) then 1 else 0) as Hx.
  { intros x. rewrite <- (Hs x), <- Z.add_assoc, <- !cover_app. by apply cover_elem. }
  pose proof (Hx (ir_start r)) as H1. pose proof (Hx (ir_end r - 1)) as H2. unfold ind, ir_end in *.
  repeat case_if; zbool; lia.
Qed.

(** Two different ranges of the space do not meet. *)
Lemma space_disjoint held m r s rest :
  lbid_space held m → free_ranges m ++ em_ranges m ++ held ≡ₚ r :: s :: rest →
  ∀ x, ¬ (ind r x = 1 ∧ ind s x = 1).
Proof.
  intros Hs Hp x [Hr Hq]. specialize (Hs x). rewrite <- Z.add_assoc, <- !cover_app, Hp in Hs. cbn in Hs.
  pose proof (cover_nonneg rest x). case_if; lia.
Qed.

(** ** Running the free list operations *)

(** The memory with another free list. *)
Definition with_fl (d : MSTEntry) (fl : list InlineLBIDRange) (m : EMMem) : EMMem :=
  mkEMMem (em_info m) (em_key m) (em_tab m) d (fl_key m) fl (emLocked m) (flLocked m) (emReaders m) (flReaders m).

Lemma set_fl_with d fl i r m : set_fl i r (with_fl d fl m) = with_fl d (fl.[i <- r]) m.
Proof. done. Qed.
Lemma set_fl_info_with d d' fl m : set_fl_info d' (with_fl d fl m) = with_fl d' fl m.
Proof. done. Qed.
Lemma with_fl_id m : with_fl (fl_info m) (fl_tab m) m = m.
Proof. by destruct m. Qed.

Lemma set_fl_eq i r m : set_fl i r m = with_fl (fl_info m) ((fl_tab m).[i <- r]) m.
Proof. done. Qed.
Lemma set_fl_info_eq d m : set_fl_info d m = with_fl d (fl_tab m) m.
Proof. done. Qed.
Lemma with_fl_with d fl d' fl' m : with_fl d' fl' (with_fl d fl m) = with_fl d' fl' m.
Proof. done. Qed.

Lemma fl_wf_change d d' fl fl' :
  fl_wf d fl → allocdSize d' = allocdSize d → zlength fl' = zlength fl → Forall aligned fl' →
  mst_currentSize d' - mst_currentSize d = sizeof_InlineLBIDRange * (count fl_used fl' - count fl_used fl) →
  merged (List.filter fl_used fl') → fl_wf d' fl'.
Proof. intros [] ? ? ? ? ?. split; [congruence|lia|done|done]. Qed.

Lemma aligned_zset fl i r : Forall aligned fl → aligned r → Forall aligned (fl.[i <- r]).
Proof.
  intros Hf Hr. unfold zset. case_if; [done|]. by apply Forall_insert.
Qed.

Lemma aligned_get fl i r : Forall aligned fl → fl.[i] = Some r → aligned r.
Proof. intros Hf Hi. rewrite Forall_forall in Hf. apply Hf, zget_elem_of. eauto. Qed.

Lemma merged_perm l l' : l ≡ₚ l' → merged l → merged l'.
Proof. intros Hp H r s. rewrite <- Hp. apply H. Qed.

Lemma merged_sub l l' : (∀ r, r ∈ l' → r ∈ l) → merged l → merged l'.
Proof. intros Hs H r s ? ?. apply H; by apply Hs. Qed.

(** A new entry among merged ones. *)
Lemma merged_cons r l :
  merged l → ir_size r ≠ 0 → (∀ s, s ∈ l → ir_end r ≠ ir_start s ∧ ir_end s ≠ ir_start r) → merged (r :: l).
Proof.
  intros Hl Hr Ho a b [->|Ha]%elem_of_cons [->|Hb]%elem_of_cons; [unfold ir_end; lia|by apply Ho..|by apply Hl].
Qed.

Lemma used_size r : fl_used r = true ↔ ir_size r ≠ 0.
Proof. unfold fl_used. rewrite negb_true_iff, Z.eqb_neq. done. Qed.

Lemma count_with fl i r :
  fl.[i] = Some r → fl_used r = true → ∀ r', fl_used r' = true → count fl_used (fl.[i <- r']) = count fl_used fl.
Proof. intros Hi Hr r' Hr'. rewrite (count_zset _ _ _ _ _ Hi). unfold opt_used. rewrite Hr, Hr'. unfold zlength. cbn. lia. Qed.

Lemma zlength_opt_used r : zlength (opt_used fl_used r) = if fl_used r then 1 else 0.
Proof. unfold opt_used. by destruct (fl_used r). Qed.

Lemma space_with_fl held held' d fl m :
  lbid_space held m →
  (∀ x, cover (List.filter fl_used fl) x + cover held' x = cover (free_ranges m) x + cover held x) →
  lbid_space held' (with_fl d fl m).
Proof. intros Hs Hx x. rewrite <- (Hs x). specialize (Hx x). unfold free_ranges, em_ranges in *. cbn. lia. Qed.

Lemma free_bounds held m r :
  em_inv_with held m → r ∈ free_ranges m → 0 < ir_size r ∧ 0 ≤ ir_start r ∧ ir_end r ≤ 2 ^ 36 ∧ aligned r.
Proof.
  intros Hi Hr. pose proof (elem_used _ _ _ Hr) as [Hu [i Hg]].
  assert (aligned r) as Ha by (eapply aligned_get; [apply Hi|done]).
  apply used_size in Hu. destruct Ha. assert (0 < ir_size r) by lia. split; [done|].
  destruct (space_bounds held m r (ei_space _ _ Hi)); [set_solver|done|]. done.
Qed.

(** An entry of the free list is as large as [size], or none is. *)
Lemma getLBIDs_spec held size s :
  em_inv_with held (u_mem s) → 0 < size < 2 ^ 22 →
  (getLBIDsFromFreeList size s = (Exn RuntimeError, s) ∧ ∀ r, r ∈ free_ranges (u_mem s) → ir_size r < size) ∨
  ∃ lbid s' fl', getLBIDsFromFreeList size s = (Ret lbid, s') ∧ lbid mod 1024 = 0 ∧
    em_inv_with (mkIR lbid size :: held) (u_mem s') ∧
    ∃ d', u_mem s' = with_fl d' fl' (u_mem s).
Proof.
  intros Hi Hz. unfold getLBIDsFromFreeList. autorewrite with run.
  rewrite (proj1 (freelist_all _ _ Hi)). set (m := u_mem s) in *.
  destruct (find_index _ (fl_tab m)) as [[i r]|] eqn:Hf.
  2: { left. split; [done|]. intros r [_ [i Hr]]%elem_used.
       apply (find_from_None _ _ _ r) in Hf; [cbn in Hf; zbool; lia|]. apply zget_elem_of. eauto. }
  right. apply find_from_Some in Hf as (_ & Hr & Hle). rewrite Z.sub_0_r in Hr. zbool.
  assert (fl_used r = true) as Hu by (apply used_size; lia).
  assert (r ∈ free_ranges m) as Hin by by eapply used_elem.
  destruct (free_bounds _ _ _ Hi Hin) as (Hpos & Hlo & Hhi & Hal & _). unfold ir_end in Hhi.
  autorewrite with run. rewrite (wrap_u_small 32 (size * 1024)) by lia.
  rewrite (wrap_u_small 32 (ir_size r - size)) by lia.
  set (r' := mkIR (ir_start r + size * 1024) (ir_size r - size)).
  destruct (used_zset fl_used _ _ _ Hr) as (rest & Hp & Hp').
  assert (∀ x, ind r x = ind r' x + ind (mkIR (ir_start r) size) x) as Hind.
  { intros x. unfold ind, ir_end, r'. cbn. repeat case_if; zbool; lia. }
  set (fl' := (fl_tab m).[i <- r']). set (d' := if fl_used r' then fl_info m else add_size (- 16) (fl_info m)).
  assert (em_inv_with (mkIR (ir_start r) size :: held) (with_fl d' fl' m)) as Hi'.
  { unfold opt_used in *. rewrite Hu in Hp. destruct Hi as [He Hfl Hs Hm]. split; [done| | |].
    - change (fl_wf d' fl'). apply (fl_wf_change (fl_info m) d' (fl_tab m)); [done|by unfold d'; case_if|apply zlength_zset| | |].
      + apply aligned_zset; [apply Hfl|]. unfold aligned, r'. cbn.
        rewrite Z.add_mod, (Z.mul_comm size), Hal by lia. cbn. rewrite Z.mul_comm, Z.mod_mul by lia. split; [done|lia].
      + unfold fl'. rewrite (count_zset _ _ _ _ _ Hr), !zlength_opt_used, Hu.
        unfold d'. case_if; unfold add_size, sizeof_InlineLBIDRange; cbn; lia.
      + apply (merged_perm _ _ (symmetry (Hp' r'))). destruct (fl_used r') eqn:Hu'.
        * cbn. apply merged_cons; [|by apply used_size|].
          { apply (merged_sub (List.filter fl_used (fl_tab m))); [|apply Hfl]. intros a Ha. rewrite Hp. set_solver. }
          intros a Ha. assert (a ∈ free_ranges m) as Hfa by (unfold free_ranges; rewrite Hp; set_solver).
          pose proof (fw_merged _ _ Hfl r a Hin Hfa). split; [unfold ir_end, r' in *; cbn; lia|].
          intros Hend. destruct (proj1 (elem_of_Permutation rest a) Ha) as [rest' Hr'].
          apply (space_disjoint held m r a (rest' ++ em_ranges m ++ held) Hs) with (ir_end a - 1).
          { unfold free_ranges. by rewrite Hp, Hr'. }
          destruct (free_bounds held m a) as (Hz' & _); [done..|]. unfold ir_end, r' in *. cbn in Hend.
          rewrite !ind_one. unfold ir_end. lia.
        * cbn. apply (merged_sub (List.filter fl_used (fl_tab m))); [|apply Hfl]. intros a Ha. rewrite Hp. set_solver.
    - apply (space_with_fl held); [done|]. intros x. unfold free_ranges, fl'. rewrite Hp, (Hp' r'). cbn.
      rewrite Hind. destruct (fl_used r') eqn:Hu'; cbn; [lia|]. rewrite (ind_unused r') by done. lia.
    - destruct Hm as [? [] []]. unfold d'. by destruct (fl_used r'). }
  unfold d', fl_used in Hi'. cbn in Hi'.
  destruct (ir_size r - size =? 0); cbn in Hi'; do 3 eexists; (split; [reflexivity|]);
    (split; [done|]); (split; [exact Hi'|by eexists]).
Qed.
