(* ===== verification/EmFree.v ===== *)
(** * Giving LBIDs back ([ExtentMap::deleteExtent])

    The scan of the free list, and the four ways in which the LBIDs of an extent
    go back to it: each keeps the free list merged and counted and adds exactly
    the LBIDs of the extent. *)

From S2P Require Import Prelude Undo Table Vbbm Vss ColType ExtentMap EmCp EmCreate EmDelete EmQuery EmSpace.

(** ** Two slots of an array *)

Lemma zget_split {A} (l : list A) i x : l.[i] = Some x → ∃ l1 l2, l = l1 ++ x :: l2 ∧ i = zlength l1.
Proof.
  intros Hi. unfold zget in Hi. destruct (i <? 0) eqn:Hn; [done|]. zbool.
  exists (take (Z.to_nat i) l), (drop (S (Z.to_nat i)) l). split; [by rewrite take_drop_middle|].
  unfold zlength. rewrite length_take_le; [lia|]. apply lookup_lt_Some in Hi. lia.
Qed.

Lemma zget_app_r {A} (l1 l2 : list A) i : 0 ≤ i → (l1 ++ l2).[zlength l1 + i] = l2.[i].
Proof.
  intros Hi. unfold zget, zlength. rewrite !(proj2 (Z.ltb_ge _ _)) by lia.
  rewrite lookup_app_r by lia. f_equal. lia.
Qed.

Lemma zget_app_l {A} (l1 l2 : list A) i : i < zlength l1 → (l1 ++ l2).[i] = l1.[i].
Proof.
  unfold zget, zlength. intros. destruct (i <? 0) eqn:?; [done|]. zbool. apply lookup_app_l. lia.
Qed.

Section Slots2.
Context {A : Type} (used : A → bool).

Lemma used_zset2_lt l i j x y :
  i < j → l.[i] = Some x → l.[j] = Some y →
  ∃ rest, List.filter used l ≡ₚ opt_used used x ++ opt_used used y ++ rest ∧
    ∀ x' y', List.filter used ((l.[i <- x']).[j <- y']) ≡ₚ opt_used used x' ++ opt_used used y' ++ rest.
Proof.
  intros Hij Hi Hj. apply zget_split in Hi as (l1 & l2 & -> & ->).
  replace j with (zlength l1 + (j - zlength l1 - 1 + 1)) in Hj by lia.
  rewrite zget_app_r, zget_cons in Hj by lia. apply zget_split in Hj as (l3 & l4 & -> & Hj).
  exists (List.filter used l1 ++ List.filter used l3 ++ List.filter used l4).
  assert (∀ x' y', List.filter used (l1 ++ x' :: l3 ++ y' :: l4) ≡ₚ
    opt_used used x' ++ opt_used used y' ++ List.filter used l1 ++ List.filter used l3 ++ List.filter used l4) as Hp.
  { intros x' y'. rewrite List.filter_app. cbn. rewrite List.filter_app. cbn. unfold opt_used.
    destruct (used x'), (used y'); cbn; rewrite <- ?Permutation_middle; done. }
  split; [apply Hp|]. intros x' y'. rewrite zset_middle.
  replace (l1 ++ x' :: l3 ++ y :: l4) with ((l1 ++ x' :: l3) ++ y :: l4) by by rewrite <- app_assoc.
  replace j with (zlength (l1 ++ x' :: l3)) by (rewrite zlength_app, zlength_cons; lia).
  rewrite zset_middle, <- app_assoc. apply Hp.
Qed.

Lemma used_zset2 l i j x y :
  i ≠ j → l.[i] = Some x → l.[j] = Some y →
  ∃ rest, List.filter used l ≡ₚ opt_used used x ++ opt_used used y ++ rest ∧
    ∀ x' y', List.filter used ((l.[i <- x']).[j <- y']) ≡ₚ opt_used used x' ++ opt_used used y' ++ rest.
Proof.
  intros Hij Hi Hj. destruct (decide (i < j)); [by apply used_zset2_lt|].
  destruct (used_zset2_lt l j i y x) as (rest & Hp & Hp'); [lia|done..|]. exists rest. split.
  - rewrite Hp, !app_assoc. f_equiv. apply Permutation_app_comm.
  - intros x' y'. rewrite zset_comm, Hp' by done. rewrite !app_assoc. f_equiv. apply Permutation_app_comm.
Qed.
End Slots2.

(** ** The scan *)

Lemma scan_from_snoc {A B} (f : Z → A → B → B) k l x b :
  scan_from f k (l ++ [x]) b = f (k + zlength l) x (scan_from f k l b).
Proof.
  revert k b. induction l as [|y l IH]; intros k b; cbn.
  - by rewrite Z.add_0_r.
  - rewrite IH, zlength_cons. f_equal. lia.
Qed.

(** A property of the elements seen so far that each step keeps. *)
Lemma scan_inv {A B} (I : list A → B → Prop) (f : Z → A → B → B) l b :
  I [] b → (∀ pre x b, I pre b → I (pre ++ [x]) (f (zlength pre) x b)) → I l (scan_from f 0 l b).
Proof.
  intros H0 Hs. induction l as [|x l IH] using rev_ind; [done|]. rewrite scan_from_snoc. by apply Hs.
Qed.

(** -1 if no element has the property, or the index of one that has it. *)
Definition slot_of {A} (p : A → bool) (l : list A) (i : Z) : Prop :=
  (i = -1 ∧ ∀ x, x ∈ l → p x = false) ∨ ∃ x, l.[i] = Some x ∧ p x = true.

Lemma slot_of_nil {A} (p : A → bool) : slot_of p [] (-1).
Proof. left. split; [done|]. intros x Hx. by apply elem_of_nil in Hx. Qed.

Lemma slot_of_here {A} (p : A → bool) l x : p x = true → slot_of p (l ++ [x]) (zlength l).
Proof. intros. right. exists x. split; [|done]. by rewrite zget_middle. Qed.

Lemma slot_of_skip {A} (p : A → bool) l x i : p x = false → slot_of p l i → slot_of p (l ++ [x]) i.
Proof.
  intros Hx [[-> Hl]|(y & Hi & Hy)].
  - left. split; [done|]. intros y [Hy|Hy]%elem_of_app; [by apply Hl|]. apply list_elem_of_singleton in Hy as ->. done.
  - right. exists y. split; [|done]. rewrite zget_app_l; [done|]. apply zget_range in Hi. lia.
Qed.

Lemma slot_of_found {A} (p : A → bool) l i : slot_of p l i → i ≠ -1 → ∃ x, l.[i] = Some x ∧ p x = true.
Proof. intros [[-> _]|H] ?; done. Qed.

Lemma slot_of_none {A} (p : A → bool) l x : slot_of p l (-1) → x ∈ l → p x = false.
Proof. intros [[_ H]|(y & Hi & _)] Hx; [by apply H|]. apply zget_range in Hi. lia. Qed.

Definition fl_unused (r : InlineLBIDRange) : bool := ir_size r =? 0.
Definition fl_after (ex r : InlineLBIDRange) : bool := fl_used r && (ir_end ex =? ir_start r).
Definition fl_before (ex r : InlineLBIDRange) : bool := fl_used r && (ir_end r =? ir_start ex).

Lemma scan_freelist_spec ex fl :
  0 < ir_size ex → Forall aligned fl →
  let a := scan_freelist (ir_start ex) (ir_end ex) fl in
  slot_of fl_unused fl (freeFLIndex a) ∧ slot_of (fl_after ex) fl (succeedingExtent a) ∧
  slot_of (fl_before ex) fl (preceedingExtent a).
Proof.
  intros Hz Ha. unfold scan_freelist. revert Ha. apply (scan_inv (fun pre a => Forall aligned pre →
    slot_of fl_unused pre (freeFLIndex a) ∧ slot_of (fl_after ex) pre (succeedingExtent a) ∧
    slot_of (fl_before ex) pre (preceedingExtent a))).
  - intros _. cbn. split_and!; apply slot_of_nil.
  - intros pre r a IH [Hp [Hr _]%Forall_cons]%Forall_app. destruct (IH Hp) as (H1 & H2 & H3), Hr as [_ Hr].
    assert (fl_unused r = negb (fl_used r)) as Hu by (unfold fl_used; by rewrite negb_involutive).
    unfold scan_freelist_step. fold (fl_unused r). change (ir_start r + ir_size r * 1024) with (ir_end r).
    unfold fl_after, fl_before in *. destruct (fl_used r) eqn:Hur; rewrite Hu; cbn in *.
    2: { split_and!; [apply slot_of_here|apply slot_of_skip..]; by rewrite ?Hu, ?Hur. }
    apply used_size in Hur as Hnz. destruct (ir_end ex =? ir_start r) eqn:Hs; cbn.
    { split_and!; [apply slot_of_skip|apply slot_of_here|apply slot_of_skip]; rewrite ?Hu, ?Hur, ?Hs; try done.
      cbn. unfold ir_end in *. zbool. lia. }
    destruct (ir_end r =? ir_start ex) eqn:Hb; cbn;
      (split_and!; [apply slot_of_skip|apply slot_of_skip|first [apply slot_of_skip; [by rewrite Hur|done]|apply slot_of_here]]); by rewrite ?Hu, ?Hur, ?Hs, ?Hb.
Qed.

(** ** Moving an entry *)

(** The memory with another free list segment. *)
Definition with_flk (k : Z) (d : MSTEntry) (fl : list InlineLBIDRange) (m : EMMem) : EMMem :=
  mkEMMem (em_info m) (em_key m) (em_tab m) d k fl (emLocked m) (flLocked m) (emReaders m) (flReaders m).

Lemma image_fl_run {A} i r (f : unit → M ExtentMap A) s :
  (fl_tab (u_mem s)).[i] = Some r →
  (image_fl i ≫= f) s = f tt (mkUndoable (u_mem s) (undoRecords s ++ images (u_mem s) [DFL i r])).
Proof. intros Hi. unfold image_fl, mbind, M_bind. cbn. by rewrite Hi. Qed.

(** The entry is in a slot [j], and the entries in use are the same. *)
Lemma migrate_spec free at_ r s :
  let fl := fl_tab (u_mem s) in
  slot_of fl_unused fl free → fl.[at_] = Some r → fl_used r = true → Forall aligned fl →
  ∃ j fl' log, migrate free at_ s = (Ret j, mkUndoable (with_fl (fl_info (u_mem s)) fl' (u_mem s)) log) ∧
    fl'.[j] = Some r ∧ List.filter fl_used fl' ≡ₚ List.filter fl_used fl ∧ zlength fl' = zlength fl ∧
    Forall aligned fl' ∧ ∀ k q, k ≠ at_ → fl.[k] = Some q → fl_used q = true → fl'.[k] = Some q ∧ k ≠ j.
Proof.
  cbn. intros Hf Hr Hu Ha. unfold migrate. set (m := u_mem s) in *. destruct ((free <? at_) && negb (free =? -1)) eqn:Hc.
  2: { exists at_, (fl_tab m), (undoRecords s). rewrite with_fl_id. by destruct s. }
  apply andb_true_iff in Hc as [Hlt Hne]. zbool. apply slot_of_found in Hf as (f & Hf & Hfu); [|lia].
  assert (fl_used f = false) as Hfn by (unfold fl_used; unfold fl_unused in Hfu; by rewrite Hfu).
  rewrite get_mem_run. fold m. rewrite Hf, Hr. exists free, (((fl_tab m).[free <- r]).[at_ <- mkIR (ir_start r) 0]). eexists. split; [reflexivity|]. cbn.
  destruct (used_zset2 fl_used (fl_tab m) free at_ f r) as (rest & Hp & Hp'); [lia|done..|].
  pose proof (zget_range _ _ _ Hf). pose proof (zget_range _ _ _ Hr).
  split_and!.
  - rewrite zget_zset_ne by lia. by rewrite zget_zset_eq.
  - rewrite Hp', Hp. unfold opt_used. rewrite Hfn, Hu. done.
  - by rewrite !zlength_zset.
  - apply aligned_get in Hr; [|done]. repeat apply aligned_zset; [done..|]. destruct Hr. split; cbn; [done|lia].
  - intros k q Hk Hq Hqu. rewrite zget_zset_ne by done. assert (k ≠ free) by (intros ->; congruence).
    by rewrite zget_zset_ne by done.
Qed.

(** ** Growing *)

Lemma chooseFL_pos d : 0 < tableShmkey d → 0 < chooseFLShmkey d.
Proof. intros. unfold chooseFLShmkey, KEYRANGE_EMFREELIST_BASE. case_if; lia. Qed.

(** A free list in use grows by 50 slots. *)
Lemma growFL_free s :
  let m := u_mem s in
  let k := chooseFLShmkey (fl_info m) in
  allocdSize (fl_info m) = 16 * zlength (fl_tab m) → 0 < allocdSize (fl_info m) → 0 < tableShmkey (fl_info m) →
  growFLShmseg s =
    (Ret tt, mkUndoable (with_flk k (mkMST k (allocdSize (fl_info m) + 800) (mst_currentSize (fl_info m)))
                           (fl_tab m ++ replicate 50 empty_range) m) (undoRecords s)) ∧ 0 < k.
Proof.
  cbn. intros Hl Ha Hk. split; [|by apply chooseFL_pos].
  unfold growFLShmseg, upd_mem, modify. rewrite (proj2 (Z.eqb_neq _ _)) by lia.
  unfold with_flk, grown_to, EM_FREELIST_INCREMENT, sizeof_InlineLBIDRange in *. rewrite Hl.
  replace (16 * zlength (fl_tab (u_mem s)) + 50 * 16) with ((zlength (fl_tab (u_mem s)) + 50) * 16) by lia.
  rewrite Z.div_mul by lia.
  replace (Z.to_nat (zlength (fl_tab (u_mem s)) + 50) - length (fl_tab (u_mem s)))%nat with 50%nat by (unfold zlength; lia).
  do 5 f_equal. lia.
Qed.

Lemma growFL_run held s :
  em_inv_with held (u_mem s) →
  let m := u_mem s in
  let k := chooseFLShmkey (fl_info m) in
  growFLShmseg s =
    (Ret tt, mkUndoable (with_flk k (mkMST k (allocdSize (fl_info m) + 800) (mst_currentSize (fl_info m)))
                           (fl_tab m ++ replicate 50 empty_range) m) (undoRecords s)) ∧ 0 < k.
Proof. intros [_ [Hl _ _ _] _ [_ [Hk1 Hk2] [_ Ha]]]. apply growFL_free; [done|done|lia]. Qed.

(** ** The four branches *)

(** The free list of [m'] is that of [m] and the LBIDs of [ex]; nothing else changed. *)
Definition gave (ex : InlineLBIDRange) (m m' : EMMem) : Prop :=
  ∃ k d fl, m' = with_flk k d fl m ∧ fl_wf d fl ∧ 0 < k ∧ k = tableShmkey d ∧ 0 < allocdSize d ∧
    ∀ x, cover (List.filter fl_used fl) x = cover (free_ranges m) x + ind ex x.

Section Give.
Context (held : list InlineLBIDRange) (ex : InlineLBIDRange) (s : ExtentMap).
Context (Hi : em_inv_with held (u_mem s)) (Hex : ex ∈ em_ranges (u_mem s)) (Hz : 0 < ir_size ex) (Hal : aligned ex).
Abbreviation m := (u_mem s).
Abbreviation fl := (fl_tab m).

Lemma ex_bounds : 0 ≤ ir_start ex ∧ ir_end ex ≤ 2 ^ 36.
Proof using All. apply (space_bounds held m); [apply Hi| |done]. set_solver. Qed.

Lemma found_free p i :
  slot_of p fl i → i ≠ -1 → (∀ r, p r = true → fl_used r = true) →
  ∃ r, fl.[i] = Some r ∧ p r = true ∧ fl_used r = true ∧ r ∈ free_ranges m ∧
       0 < ir_size r ∧ 0 ≤ ir_start r ∧ ir_end r ≤ 2 ^ 36 ∧ aligned r.
Proof using All.
  intros Hs Hn Hp. apply slot_of_found in Hs as (r & Hr & Hpr); [|done]. pose proof (Hp r Hpr) as Hu.
  assert (r ∈ free_ranges m) as Hin by by eapply used_elem.
  exists r. destruct (free_bounds held m r Hi Hin) as (? & ? & ? & ?). done.
Qed.

(** [new] takes the place of the entries [old]. *)
Lemma gave_intro fl' d' old new rest :
  zlength fl' = zlength fl → Forall aligned fl' → allocdSize d' = allocdSize (fl_info m) →
  tableShmkey d' = tableShmkey (fl_info m) →
  mst_currentSize d' = mst_currentSize (fl_info m) + 16 * (1 - zlength old) →
  List.filter fl_used fl ≡ₚ old ++ rest → List.filter fl_used fl' ≡ₚ new :: rest →
  ir_size new ≠ 0 → (∀ x, ind new x = cover old x + ind ex x) →
  (∀ a, a ∈ rest → a ∈ free_ranges m → ir_end new ≠ ir_start a ∧ ir_end a ≠ ir_start new) →
  gave ex m (with_flk (fl_key m) d' fl' m).
Proof using All.
  intros ? ? ? ? Hsz Hp Hp' Hnz Hind Hm. destruct Hi as [_ Hf _ [_ [] []]]. exists (fl_key m), d', fl'.
  split_and!; [done| |done|congruence|lia|].
  - eapply fl_wf_change; [done..| |].
    + rewrite Hsz. unfold count, sizeof_InlineLBIDRange. rewrite Hp, Hp'. unfold zlength in *.
      cbn [length]. rewrite length_app. lia.
    + apply (merged_perm _ _ (symmetry Hp')), merged_cons; [|done|].
      * apply (merged_sub (List.filter fl_used fl)); [|apply Hf]. intros r Hr. rewrite Hp. set_solver.
      * intros a Ha. apply Hm; [done|]. unfold free_ranges. rewrite Hp. set_solver.
  - intros x. unfold free_ranges. rewrite Hp', Hp, cover_app. cbn. rewrite Hind. lia.
Qed.

Lemma used_of ex' r : fl_after ex' r = true ∨ fl_before ex' r = true → fl_used r = true.
Proof. unfold fl_after, fl_before. by destruct (fl_used r); cbn; [|intros []]. Qed.

(** Run the migration of entry [r]. *)
Ltac step_migrate r :=
  match goal with
  | |- context [(migrate ?f ?p ≫= _) ?st] =>
      destruct (migrate_spec f p r st) as (j & fl' & log & Hm & Hj & Hperm & Hlen & Hal' & Hk);
      [assumption|assumption|assumption|apply Hi|]; rewrite (bind_ret _ _ _ _ _ Hm), get_mem_run; cbn [u_mem fl_tab with_fl] in *
  end.

Lemma give_between_spec a :
  slot_of fl_unused fl (freeFLIndex a) → slot_of (fl_after ex) fl (succeedingExtent a) →
  slot_of (fl_before ex) fl (preceedingExtent a) → preceedingExtent a ≠ -1 → succeedingExtent a ≠ -1 →
  ∃ s', give_between ex a s = (Ret tt, s') ∧ gave ex m (u_mem s').
Proof using All.
  intros Hf Hsu Hpr Hp1 Hs1.
  destruct (found_free _ _ Hpr Hp1) as (rp & Hrp & Hbp & Hup & Hinp & Hzp & Hlop & Hhip & Halp); [by eauto using used_of|].
  destruct (found_free _ _ Hsu Hs1) as (rs & Hrs & Hbs & Hus & Hins & Hzs & Hlos & Hhis & Hals); [by eauto using used_of|].
  unfold fl_before, fl_after in Hbp, Hbs. rewrite Hup in Hbp. rewrite Hus in Hbs. cbn in Hbp, Hbs. zbool.
  assert (preceedingExtent a ≠ succeedingExtent a) as Hne.
  { intros He. rewrite He in Hrp. assert (rp = rs) as -> by congruence. unfold ir_end in *. lia. }
  unfold give_between. rewrite (image_fl_run _ rp) by done.
  step_migrate rp.
  destruct (Hk _ _ (not_eq_sym Hne) Hrs Hus) as [Hrs' Hsj]. rewrite Hj, Hrs'. autorewrite with run.
  rewrite (wrap_u_small 32) by (unfold ir_end in *; lia).
  rewrite (image_fl_run _ rs) by (cbn; by rewrite zget_zset_ne). eexists. split; [reflexivity|].
  destruct (used_zset2 fl_used fl' j (succeedingExtent a) rp rs) as (rest & Hq & Hq'); [done..|].
  rewrite Hperm in Hq. unfold opt_used in Hq at 1 2. rewrite Hup, Hus in Hq.
  set (big := mkIR (ir_start rp) (ir_size rp + (ir_size rs + ir_size ex))).
  apply (gave_intro ((fl'.[j <- big]).[succeedingExtent a <- mkIR (ir_start rs) 0]) (add_size (- 16) (fl_info m))
    [rp; rs] big rest); try done.
  - by rewrite !zlength_zset.
  - repeat apply aligned_zset; [done| |]; (split; [apply Halp || apply Hals|cbn; lia]).
  - etrans; [apply Hq'|]. unfold opt_used, fl_used. cbn. rewrite (proj2 (Z.eqb_neq (_ + _) 0)) by lia. done.
  - cbn. lia.
  - intros x. cbn. unfold big, ind, ir_end in *. cbn. repeat case_if; zbool; lia.
  - intros b _ Hb. pose proof (fw_merged _ _ (ei_fl _ _ Hi)) as Hmg. unfold ir_end at 1. cbn.
    specialize (Hmg rs b Hins Hb) as H1. specialize (Hmg b rp Hb Hinp) as H2. unfold ir_end in *. lia.
Qed.

(** No entry of the free list is next to [ex] on a side where none was found. *)
Lemma not_after : slot_of (fl_after ex) fl (-1) → ∀ b, b ∈ free_ranges m → ir_end ex ≠ ir_start b.
Proof.
  intros Hs b [Hu [i Hb]]%elem_used. assert (fl_after ex b = false) as Hf.
  { apply (slot_of_none _ _ _ Hs), zget_elem_of. eauto. }
  unfold fl_after in Hf. rewrite Hu in Hf. cbn in Hf. zbool. done.
Qed.

Lemma not_before : slot_of (fl_before ex) fl (-1) → ∀ b, b ∈ free_ranges m → ir_end b ≠ ir_start ex.
Proof.
  intros Hs b [Hu [i Hb]]%elem_used. assert (fl_before ex b = false) as Hf.
  { apply (slot_of_none _ _ _ Hs), zget_elem_of. eauto. }
  unfold fl_before in Hf. rewrite Hu in Hf. cbn in Hf. zbool. done.
Qed.

(** One entry replaced by a larger one. *)
Lemma gave_one fl' j r new :
  fl'.[j] = Some r → fl_used r = true → List.filter fl_used fl' ≡ₚ List.filter fl_used fl → zlength fl' = zlength fl →
  Forall aligned fl' → aligned new → ir_size new ≠ 0 → (∀ x, ind new x = ind r x + ind ex x) →
  (∀ a, a ∈ free_ranges m → ir_end new ≠ ir_start a ∧ ir_end a ≠ ir_start new) →
  gave ex m (with_flk (fl_key m) (fl_info m) (fl'.[j <- new]) m).
Proof using All.
  intros Hj Hu Hperm Hlen Hal' Hnew Hnz Hind Hm.
  destruct (used_zset fl_used fl' j r Hj) as (rest & Hq & Hq'). unfold opt_used in Hq. rewrite Hu, Hperm in Hq.
  apply (gave_intro _ _ [r] new rest); try done.
  - by rewrite zlength_zset.
  - by apply aligned_zset.
  - unfold zlength. cbn. lia.
  - rewrite Hq'. unfold opt_used. by rewrite (proj2 (used_size new)).
  - intros x. cbn. rewrite Hind. lia.
  - intros b _ Hb. by apply Hm.
Qed.

Lemma give_before_spec a :
  slot_of fl_unused fl (freeFLIndex a) → slot_of (fl_after ex) fl (succeedingExtent a) →
  slot_of (fl_before ex) fl (-1) → succeedingExtent a ≠ -1 →
  ∃ s', give_before ex a s = (Ret tt, s') ∧ gave ex m (u_mem s').
Proof using All.
  intros Hf Hsu Hpr Hs1.
  destruct (found_free _ _ Hsu Hs1) as (rs & Hrs & Hbs & Hus & Hins & Hzs & Hlos & Hhis & Hals); [by eauto using used_of|].
  unfold fl_after in Hbs. rewrite Hus in Hbs. cbn in Hbs. zbool. pose proof ex_bounds as [He1 He2].
  unfold give_before. rewrite (image_fl_run _ rs) by done. step_migrate rs. rewrite Hj. autorewrite with run.
  rewrite (wrap_u_small 32) by (unfold ir_end in *; lia). eexists. split; [reflexivity|].
  apply (gave_one fl' j rs); try done.
  - split; [apply Hal|cbn; lia].
  - cbn. lia.
  - intros x. unfold ind, ir_end in *. cbn. repeat case_if; zbool; lia.
  - intros b Hb. pose proof (not_before Hpr b Hb). pose proof (fw_merged _ _ (ei_fl _ _ Hi) rs b Hins Hb).
    unfold ir_end in *. cbn. lia.
Qed.

Lemma give_after_spec a :
  slot_of fl_unused fl (freeFLIndex a) → slot_of (fl_after ex) fl (-1) →
  slot_of (fl_before ex) fl (preceedingExtent a) → preceedingExtent a ≠ -1 →
  ∃ s', give_after ex a s = (Ret tt, s') ∧ gave ex m (u_mem s').
Proof using All.
  intros Hf Hsu Hpr Hp1.
  destruct (found_free _ _ Hpr Hp1) as (rp & Hrp & Hbp & Hup & Hinp & Hzp & Hlop & Hhip & Halp); [by eauto using used_of|].
  unfold fl_before in Hbp. rewrite Hup in Hbp. cbn in Hbp. zbool. pose proof ex_bounds as [He1 He2].
  unfold give_after. rewrite (image_fl_run _ rp) by done. step_migrate rp. rewrite Hj. autorewrite with run.
  rewrite (wrap_u_small 32) by (unfold ir_end in *; lia). eexists. split; [reflexivity|].
  apply (gave_one fl' j rp); try done.
  - split; [apply Halp|cbn; lia].
  - cbn. lia.
  - intros x. unfold ind, ir_end in *. cbn. repeat case_if; zbool; lia.
  - intros b Hb. pose proof (not_after Hsu b Hb). pose proof (fw_merged _ _ (ei_fl _ _ Hi) b rp Hb Hinp).
    unfold ir_end in *. cbn. lia.
Qed.

Lemma give_new_spec a :
  slot_of fl_unused fl (freeFLIndex a) → slot_of (fl_after ex) fl (-1) → slot_of (fl_before ex) fl (-1) →
  ∃ s', give_new ex a s = (Ret tt, s') ∧ gave ex m (u_mem s').
Proof using All.
  intros Hf Hsu Hpr. unfold give_new. rewrite get_mem_run.
  assert (fl_used ex = true) as Hux by (apply used_size; lia).
  destruct (mst_currentSize (fl_info m) =? allocdSize (fl_info m)) eqn:Hc.
  - zbool. set (k := chooseFLShmkey (fl_info m)).
    assert (count fl_used fl = zlength fl) as Hfull by (destruct (ei_fl _ _ Hi); unfold sizeof_InlineLBIDRange in *; lia).
    destruct (growFL_run held s) as (Hg & Hk); [done|]. rewrite assoc_run, (bind_ret _ _ _ _ _ Hg), mret_run.
    rewrite (proj2 (freelist_all held m Hi)). rewrite (image_fl_run _ empty_range) by apply zget_middle.
    eexists. split; [reflexivity|]. fold k in Hk.
    exists k, (mkMST k (allocdSize (fl_info m) + 800) (mst_currentSize (fl_info m) + 16)), (fl ++ ex :: replicate 49 empty_range).
    assert (List.filter fl_used (fl ++ ex :: replicate 49 empty_range) ≡ₚ ex :: List.filter fl_used fl) as Hp.
    { rewrite List.filter_app. cbn [List.filter]. rewrite Hux, <- Permutation_middle. cbn. by rewrite app_nil_r. }
    destruct (ei_fl _ _ Hi) as [Hl Hn Ha Hm]. split_and!; [|split| | | |]; try done.
    + cbn. unfold set_fl_info, set_fl, with_flk. cbn. by rewrite (zset_middle fl (replicate 49 empty_range)).
    + cbn. rewrite zlength_app, zlength_cons. unfold sizeof_InlineLBIDRange, zlength in *. cbn. lia.
    + cbn. unfold count, sizeof_InlineLBIDRange, zlength in *. rewrite Hp. cbn [length]. lia.
    + apply Forall_app. split; [done|]. constructor; [done|]. by apply Forall_replicate.
    + apply (merged_perm _ _ (symmetry Hp)), merged_cons; [done|lia|].
      intros b Hb. split; [by apply not_after|by apply not_before].
    + cbn. destruct (ei_mapped _ _ Hi) as [_ _ []]. lia.
    + intros x. rewrite Hp. unfold free_ranges. cbn. lia.
  - assert (freeFLIndex a ≠ -1) as Hn.
    { intros Hn. rewrite Hn in Hf. zbool. apply Hc. destruct (ei_fl _ _ Hi) as [-> -> _ _]. f_equal. apply count_full.
      intros i r Hr. unfold fl_used. apply negb_true_iff, (slot_of_none _ _ _ Hf), zget_elem_of. eauto. }
    destruct (slot_of_found _ _ _ Hf Hn) as (r & Hr & Hu). rewrite mret_run, (image_fl_run _ r) by done.
    eexists. split; [reflexivity|].
    destruct (used_zset fl_used fl _ r Hr) as (rest & Hq & Hq'). unfold opt_used, fl_used in Hq.
    unfold fl_unused in Hu. rewrite Hu in Hq. cbn in Hq.
    apply (gave_intro (fl.[freeFLIndex a <- ex]) (add_size 16 (fl_info m)) [] ex rest); try done.
    + by rewrite zlength_zset.
    + apply aligned_zset; [apply Hi|done].
    + etrans; [apply Hq'|]. unfold opt_used. by rewrite Hux.
    + lia.
    + intros b _ Hb. split; [by apply not_after|by apply not_before].
Qed.
End Give.

(** ** The extents *)

(** The memory with other extents. *)
Definition with_em (d : MSTEntry) (tab : list EMEntry) (m : EMMem) : EMMem :=
  mkEMMem d (em_key m) tab (fl_info m) (fl_key m) (fl_tab m) (emLocked m) (flLocked m) (emReaders m) (flReaders m).

Definition locks_of (m : EMMem) : bool * bool * Z * Z := (emLocked m, flLocked m, emReaders m, flReaders m).

Lemma zlength_opt_em e : zlength (opt_used em_used e) = if em_used e then 1 else 0.
Proof. unfold opt_used. by destruct (em_used e). Qed.

(** One entry of the extent map replaced. *)
Lemma em_wf_zset d tab i old new :
  em_wf d tab → tab.[i] = Some old → aligned (range new) →
  em_wf (add_size (64 * ((if em_used new then 1 else 0) - (if em_used old then 1 else 0))) d) (tab.[i <- new]).
Proof.
  intros [Hl Hn Ha] Hi Hnew. split.
  - by rewrite zlength_zset.
  - cbn. rewrite (count_zset _ _ _ _ _ Hi), !zlength_opt_em, Hn. unfold sizeof_EMEntry. lia.
  - unfold zset. case_if; [done|]. by apply Forall_insert.
Qed.

Lemma em_ranges_zset tab i old new :
  tab.[i] = Some old →
  ∀ x, cover (range <$> List.filter em_used (tab.[i <- new])) x + (if em_used old then ind (range old) x else 0) =
       cover (range <$> List.filter em_used tab) x + (if em_used new then ind (range new) x else 0).
Proof.
  intros Hi x. destruct (used_zset em_used tab i old Hi) as (rest & Hp & Hp').
  rewrite Hp, (Hp' new). unfold opt_used. rewrite !fmap_app, !cover_app.
  destruct (em_used old), (em_used new); cbn; lia.
Qed.

Lemma em_aligned held m i e : em_inv_with held m → (em_tab m).[i] = Some e → aligned (range e).
Proof. intros [[_ _ Ha] _ _ _] Hi. rewrite Forall_forall in Ha. apply Ha, zget_elem_of. eauto. Qed.

Lemma em_used_size e : em_used e = true ↔ ir_size (range e) ≠ 0.
Proof. unfold em_used. rewrite negb_true_iff, Z.eqb_neq. done. Qed.

Lemma em_range_elem m i e : (em_tab m).[i] = Some e → em_used e = true → range e ∈ em_ranges m.
Proof. intros. apply list_elem_of_fmap. exists e. split; [done|]. by eapply used_elem. Qed.

(** [ExtentMap::deleteExtent]: the entry is free, its LBIDs are in the free list,
    and the invariant holds. *)
Lemma deleteExtent_spec held i e s :
  em_inv_with held (u_mem s) → (em_tab (u_mem s)).[i] = Some e → em_used e = true →
  ∃ s', deleteExtent i s = (Ret tt, s') ∧ em_inv_with held (u_mem s') ∧
    em_tab (u_mem s') = (em_tab (u_mem s)).[i <- set_size 0 e] ∧ locks_of (u_mem s') = locks_of (u_mem s).
Proof.
  intros Hi He Hu. set (m := u_mem s) in *. pose proof (em_range_elem _ _ _ He Hu) as Hex.
  pose proof (em_aligned _ _ _ _ Hi He) as Hal. pose proof (proj1 (em_used_size e) Hu) as Hnz.
  assert (0 < ir_size (range e)) as Hz by (destruct Hal; lia).
  destruct (scan_freelist_spec (range e) (fl_tab m) Hz) as (Hf & Hs & Hp); [apply Hi|].
  unfold deleteExtent. rewrite get_mem_run. fold m. rewrite He, (proj1 (freelist_all _ _ Hi)). autorewrite with run.
  fold (ir_end (range e)). set (a := scan_freelist _ _ _) in *. cbv zeta in Hf, Hs, Hp.
  assert (∃ s1, (if negb (preceedingExtent a =? -1) && negb (succeedingExtent a =? -1) then give_between (range e) a
     else if negb (succeedingExtent a =? -1) then give_before (range e) a
     else if negb (preceedingExtent a =? -1) then give_after (range e) a
     else give_new (range e) a) s = (Ret tt, s1) ∧ gave (range e) m (u_mem s1)) as (s1 & Hrun & Hg).
  { destruct (preceedingExtent a =? -1) eqn:Hp1, (succeedingExtent a =? -1) eqn:Hs1; cbn; zbool.
    - rewrite Hp1 in Hp. rewrite Hs1 in Hs. by apply (give_new_spec held).
    - rewrite Hp1 in Hp. by apply (give_before_spec held).
    - rewrite Hs1 in Hs. by apply (give_after_spec held).
    - by apply (give_between_spec held). }
  rewrite (bind_ret _ _ _ _ _ Hrun), makeUndoRecord_bind, upd_mem_run, makeUndoRecord_bind.
  eexists. split; [reflexivity|]. destruct Hg as (k & d & fl & Hm1 & Hfl & Hk & Hkd & Ha & Hcov).
  cbn [u_mem undoRecords]. rewrite Hm1. cbn. split; [|done].
  assert (em_used (set_size 0 e) = false) as Hu0 by done.
  destruct Hi as [Hem _ Hsp [Hmp _ [Hal1 Hal2]]]. split.
  - pose proof (em_wf_zset _ _ _ _ (set_size 0 e) Hem He) as Hw. rewrite Hu, Hu0 in Hw. apply Hw. split; [apply Hal|done].
  - done.
  - intros x. unfold free_ranges, em_ranges. cbn. rewrite Hcov.
    pose proof (em_ranges_zset _ _ _ (set_size 0 e) He x) as Hr. rewrite Hu, Hu0 in Hr. specialize (Hsp x).
    unfold em_ranges, free_ranges in Hsp. unfold free_ranges. lia.
  - split; cbn; done.
Qed.
