(* ===== verification/EmInv.v ===== *)
(** * The invariant of the extent map ([extentmap.cpp])

    A small program logic over the operations, and the proof that each of them
    keeps the invariant of [EmSpace], whether it returns or throws, and reads no
    slot outside the tables. *)

From S2P Require Import Prelude Undo Table Vbbm Vss ColType ExtentMap EmCp EmCreate EmDelete EmQuery EmSpace EmFree.

(** ** Triples *)

(** From [P], a return leads to [Q], and an exception leaves the invariant. *)
Definition triple {A} (P : EMMem → Prop) (op : M ExtentMap A) (Q : A → EMMem → Prop) : Prop :=
  ∀ s, P (u_mem s) →
    match op s with
    | (Ret a, s') => Q a (u_mem s')
    | (Exn e, s') => is_exception e = true ∧ em_inv (u_mem s')
    end.

Lemma triple_pre {A} (P P' : EMMem → Prop) (op : M ExtentMap A) Q :
  (∀ m, P m → P' m) → triple P' op Q → triple P op Q.
Proof. intros HP H s Hs. by apply H, HP. Qed.

Lemma triple_post {A} P (op : M ExtentMap A) (Q Q' : A → EMMem → Prop) :
  (∀ a m, Q' a m → Q a m) → triple P op Q' → triple P op Q.
Proof. intros HQ H s Hs. specialize (H s Hs). destruct (op s) as [[a|e] s']; auto. Qed.

Lemma triple_ret {A} (P : EMMem → Prop) (a : A) (Q : A → EMMem → Prop) :
  (∀ m, P m → Q a m) → triple P (mret a) Q.
Proof. intros H s Hs. by apply H. Qed.

Lemma triple_throw {A} (P : EMMem → Prop) e (Q : A → EMMem → Prop) :
  is_exception e = true → (∀ m, P m → em_inv m) → triple P (throw e) Q.
Proof. intros He H s Hs. split; [done|]. by apply H. Qed.

Lemma triple_bind {A B} P (op : M ExtentMap A) (f : A → M ExtentMap B) R Q :
  triple P op R → (∀ a, triple (R a) (f a) Q) → triple P (op ≫= f) Q.
Proof.
  intros Ho Hf s Hs. specialize (Ho s Hs). unfold mbind, M_bind. destruct (op s) as [[a|e] s']; [|done].
  apply Hf, Ho.
Qed.

Lemma triple_seq {A B} R P (op : M ExtentMap A) (f : A → M ExtentMap B) Q :
  triple P op (fun _ => R) → (∀ a, triple R (f a) Q) → triple P (op ≫= f) Q.
Proof. apply triple_bind. Qed.

Lemma triple_lift {A B} P (a : A) (f : A → M ExtentMap B) Q : triple P (f a) Q → triple P (lift (Ret a) ≫= f) Q.
Proof. intros H s Hs. rewrite lift_run. by apply H. Qed.

Lemma triple_get {A} P (f : EMMem → M ExtentMap A) Q :
  (∀ m, P m → triple (fun m' => P m' ∧ m' = m) (f m) Q) → triple P (get_mem ≫= f) Q.
Proof. intros H s Hs. rewrite get_mem_run. by apply H. Qed.

Lemma triple_upd P g (Q : unit → EMMem → Prop) : (∀ m, P m → Q tt (g m)) → triple P (upd_mem g) Q.
Proof. intros H s Hs. by apply H. Qed.

Lemma triple_record P d (Q : unit → EMMem → Prop) : (∀ m, P m → Q tt m) → triple P (makeUndoRecord d) Q.
Proof. intros H s Hs. rewrite makeUndoRecord_run. by apply H. Qed.

Lemma triple_forM {A} (P : EMMem → Prop) (l : list A) (f : A → M ExtentMap unit) :
  (∀ x, x ∈ l → triple P (f x) (fun _ => P)) → triple P (forM l f) (fun _ => P).
Proof.
  induction l as [|x l IH]; intros H; [by apply triple_ret|]. cbn. eapply triple_bind.
  - apply H. by left.
  - intros []. apply IH. intros y Hy. apply H. by right.
Qed.

Lemma triple_if {A} (b : bool) P (o1 o2 : M ExtentMap A) Q :
  triple P o1 Q → triple P o2 Q → triple P (if b then o1 else o2) Q.
Proof. by destruct b. Qed.

Lemma triple_catch {A} P (op : M ExtentMap A) h Q :
  triple P op Q → (∀ e, is_exception e = true → triple em_inv (h e) Q) → triple P (catch op h) Q.
Proof.
  intros Ho Hh s Hs. specialize (Ho s Hs). unfold catch. destruct (op s) as [[a|e] s']; [done|].
  destruct Ho as [He Hi]. rewrite He. by apply Hh.
Qed.

(** ** Locks and growth *)

(** The invariant, with [n] slots. *)
Definition em_n (n : Z) (m : EMMem) : Prop := em_inv m ∧ zlength (em_tab m) = n.

Lemma inv_locks held ew fw er fr m : em_inv_with held m → em_inv_with held (set_locks ew fw er fr m).
Proof. intros [H1 H2 H3 [H4 H5 H6]]. by split. Qed.

Lemma grabEM_run op s :
  em_mapped (u_mem s) →
  grabEMEntryTable op s = (Ret tt, mkUndoable (match op with
    | READ => set_locks (emLocked (u_mem s)) (flLocked (u_mem s)) (emReaders (u_mem s) + 1) (flReaders (u_mem s)) (u_mem s)
    | WRITE => set_locks true (flLocked (u_mem s)) (emReaders (u_mem s)) (flReaders (u_mem s)) (u_mem s)
    end) (undoRecords s)).
Proof.
  intros [[Hk Hkd] _ _]. unfold grabEMEntryTable. rewrite upd_mem_run, get_mem_run. cbn [u_mem].
  assert (∀ m', em_key m' = em_key (u_mem s) → em_info m' = em_info (u_mem s) →
    negb (em_key m' =? -1) && (em_key m' =? tableShmkey (em_info m')) = true) as Hc.
  { intros m' -> ->. rewrite <- Hkd, Z.eqb_refl, (proj2 (Z.eqb_neq _ _)) by lia. done. }
  rewrite Hc; by destruct op.
Qed.

Lemma grabFL_run op s :
  em_mapped (u_mem s) →
  grabFreeList op s = (Ret tt, mkUndoable (match op with
    | READ => set_locks (emLocked (u_mem s)) (flLocked (u_mem s)) (emReaders (u_mem s)) (flReaders (u_mem s) + 1) (u_mem s)
    | WRITE => set_locks (emLocked (u_mem s)) true (emReaders (u_mem s)) (flReaders (u_mem s)) (u_mem s)
    end) (undoRecords s)).
Proof.
  intros [_ [Hk Hkd] _]. unfold grabFreeList. rewrite upd_mem_run, get_mem_run. cbn [u_mem].
  assert (∀ m', fl_key m' = fl_key (u_mem s) → fl_info m' = fl_info (u_mem s) →
    negb (fl_key m' =? -1) && (fl_key m' =? tableShmkey (fl_info m')) = true) as Hc.
  { intros m' -> ->. rewrite <- Hkd, Z.eqb_refl, (proj2 (Z.eqb_neq _ _)) by lia. done. }
  rewrite Hc; by destruct op.
Qed.

Lemma grab_both_run s :
  em_mapped (u_mem s) →
  grab_both s = (Ret tt, mkUndoable (set_locks true true (emReaders (u_mem s)) (flReaders (u_mem s)) (u_mem s)) (undoRecords s)).
Proof.
  intros Hm. unfold grab_both. rewrite (bind_ret _ _ _ _ _ (grabEM_run WRITE s Hm)).
  rewrite grabFL_run; [done|]. destruct Hm. by split.
Qed.

(** A property that does not look at the locks. *)
Class LockFree (P : EMMem → Prop) : Prop := {
  lf_locks m ew fw er fr : P m → P (set_locks ew fw er fr m);
  lf_inv m : P m → em_inv m;
}.

#[global] Instance em_inv_lock_free : LockFree em_inv.
Proof. split; [|done]. intros. by apply inv_locks. Qed.
#[global] Instance em_n_lock_free n : LockFree (em_n n).
Proof. split; [|by intros m []]. intros m ew fw er fr [Hi Hn]. split; [by apply inv_locks|done]. Qed.

Lemma triple_grabEM P op `{!LockFree P} : triple P (grabEMEntryTable op) (fun _ => P).
Proof.
  intros s Hs. rewrite grabEM_run by apply (lf_inv _ Hs). cbn. destruct op; by apply lf_locks.
Qed.

Lemma triple_grabFL P op `{!LockFree P} : triple P (grabFreeList op) (fun _ => P).
Proof.
  intros s Hs. rewrite grabFL_run by apply (lf_inv _ Hs). cbn. destruct op; by apply lf_locks.
Qed.

Lemma triple_grab_both P `{!LockFree P} : triple P grab_both (fun _ => P).
Proof. eapply triple_bind; [by apply triple_grabEM|]. intros []. by apply triple_grabFL. Qed.

Lemma triple_releaseEM P op `{!LockFree P} : triple P (releaseEMEntryTable op) (fun _ => P).
Proof. apply triple_upd. intros m Hm. destruct op; by apply lf_locks. Qed.

Lemma chooseEM_pos d : 0 < tableShmkey d → 0 < chooseEMShmkey d.
Proof. intros. unfold chooseEMShmkey, KEYRANGE_EXTENTMAP_BASE. case_if; lia. Qed.

Lemma count_app {A} (p : A → bool) l1 l2 : count p (l1 ++ l2) = count p l1 + count p l2.
Proof. unfold count. by rewrite List.filter_app, zlength_app. Qed.

Lemma filter_none {A} (p : A → bool) l : (∀ x, x ∈ l → p x = false) → List.filter p l = [].
Proof.
  induction l as [|x l IH]; intros H; [done|]. cbn. rewrite (H x) by by left. apply IH. intros y Hy. apply H. by right.
Qed.

(** Zeroed slots after the extents. *)
Lemma inv_more held m n k :
  em_inv_with held m → 0 < k →
  em_inv_with held (mkEMMem (mkMST k (allocdSize (em_info m) + 64 * Z.of_nat n) (mst_currentSize (em_info m))) k
    (em_tab m ++ replicate n empty_EMEntry) (fl_info m) (fl_key m) (fl_tab m)
    (emLocked m) (flLocked m) (emReaders m) (flReaders m)).
Proof.
  intros [[Hl Hn Ha] H2 H3 [H4 H5 H6]] Hk.
  assert (List.filter em_used (replicate n empty_EMEntry) = []) as Hf.
  { apply filter_none. intros x [-> _]%elem_of_replicate. done. }
  split; [split| | |split]; cbn; try done.
  - rewrite zlength_app, Hl. unfold sizeof_EMEntry, zlength. rewrite length_replicate. lia.
  - rewrite count_app, Hn. unfold count at 3, sizeof_EMEntry. rewrite Hf. unfold zlength. cbn. lia.
  - apply Forall_app. split; [done|]. by apply Forall_replicate.
  - intros x. rewrite <- (H3 x). unfold em_ranges, free_ranges. cbn. by rewrite List.filter_app, Hf, app_nil_r.
  - lia.
Qed.

Lemma growEM_run held s :
  em_inv_with held (u_mem s) →
  ∃ k, growEMShmseg 0 s = (Ret tt, mkUndoable
    (mkEMMem (mkMST k (allocdSize (em_info (u_mem s)) + 64 * Z.of_nat 100) (mst_currentSize (em_info (u_mem s)))) k
       (em_tab (u_mem s) ++ replicate 100 empty_EMEntry) (fl_info (u_mem s)) (fl_key (u_mem s)) (fl_tab (u_mem s))
       (emLocked (u_mem s)) (flLocked (u_mem s)) (emReaders (u_mem s)) (flReaders (u_mem s))) (undoRecords s)) ∧ 0 < k.
Proof.
  intros [[Hl _ _] _ _ [[Hk1 Hk2] _ [Ha _]]]. exists (chooseEMShmkey (em_info (u_mem s))).
  split; [|apply chooseEM_pos; lia]. unfold growEMShmseg, upd_mem, modify.
  rewrite (proj2 (Z.eqb_neq _ 0)) by lia. unfold grown_to, EM_INCREMENT, EM_INCREMENT_ROWS, sizeof_EMEntry in *.
  rewrite Z.max_l by lia. rewrite Hl.
  replace ((64 * zlength (em_tab (u_mem s)) + 100 * 64) / 64) with (zlength (em_tab (u_mem s)) + 100)
    by (replace (64 * zlength (em_tab (u_mem s)) + 100 * 64) with ((zlength (em_tab (u_mem s)) + 100) * 64) by lia;
        by rewrite Z.div_mul).
  replace (Z.to_nat (zlength (em_tab (u_mem s)) + 100) - length (em_tab (u_mem s)))%nat with 100%nat by (unfold zlength; lia).
  done.
Qed.

(** A slot is free. *)
Definition has_room (m : EMMem) : Prop := count em_used (em_tab m) < zlength (em_tab m).

Lemma triple_make_room : triple em_inv make_em_room (fun _ m => em_inv m ∧ has_room m).
Proof.
  intros s Hs. unfold make_em_room. rewrite get_mem_run. destruct (_ =? _) eqn:Hc.
  - destruct (growEM_run [] s Hs) as (k & -> & Hk). split; [by apply inv_more|].
    unfold has_room. cbn [em_tab u_mem]. rewrite count_app, zlength_app.
    change (count em_used (replicate 100 empty_EMEntry)) with 0. change (zlength (replicate 100 empty_EMEntry)) with 100.
    pose proof (count_le em_used (em_tab (u_mem s))). lia.
  - split; [done|]. destruct Hs as [[Hl Hn _] _ _ _]. unfold has_room. zbool.
    pose proof (count_le em_used (em_tab (u_mem s))). unfold sizeof_EMEntry in *. lia.
Qed.

(** ** Creating extents *)

(** The slot the scans find. *)
Lemma room_slot m : has_room m → ∃ i e, (em_tab m).[i] = Some e ∧ em_used e = false.
Proof.
  intros Hr. destruct (decide (Forall (fun e => em_used e = true) (em_tab m))) as [Hf|Hf].
  - exfalso. unfold has_room in Hr. rewrite count_full in Hr; [lia|].
    intros i x Hx. rewrite Forall_forall in Hf. apply Hf, zget_elem_of. eauto.
  - apply not_Forall_Exists, Exists_exists in Hf; [|apply _]. destruct Hf as (e & [i Hi]%zget_elem_of & He).
    exists i, e. split; [done|]. destruct (em_used e) eqn:Hu; [by destruct He|done].
Qed.

Definition em_unused (e : EMEntry) : bool := ir_size (range e) =? 0.

(** A scan that remembers the first free slot. *)
Lemma first_free {B} (f : Z → EMEntry → B → B) (g : B → Z) b l :
  g b = -1 →
  (∀ i e b, 0 ≤ i → g (f i e b) = if em_unused e && (g b <? 0) then i else g b) →
  slot_of em_unused l (g (scan_from f 0 l b)).
Proof.
  intros H0 Hf. apply (scan_inv (fun pre b => slot_of em_unused pre (g b))); [rewrite H0; apply slot_of_nil|].
  intros pre e b' IH. rewrite Hf by apply zlength_nonneg. destruct (em_unused e) eqn:He; cbn.
  - destruct IH as [[Hg _]|(x & Hx & Hu)].
    + rewrite Hg. by apply slot_of_here.
    + pose proof (zget_range _ _ _ Hx). rewrite (proj2 (Z.ltb_ge _ _)) by lia. right. exists x. split; [|done].
      rewrite zget_app_l; [done|]. lia.
  - by apply slot_of_skip.
Qed.

Lemma scan1_free OID dbroot part l :
  slot_of em_unused l (emptyEMEntry (scan_from (scan1_step OID dbroot part) 0 l scan1_init)).
Proof.
  apply first_free; [done|]. intros i e b Hi. unfold scan1_step, em_unused. destruct (ir_size (range e) =? 0); cbn.
  - by destruct (_ <? 0).
  - repeat case_match; done.
Qed.

Lemma find_file_free p l : slot_of em_unused l (sf_empty (find_file p l)).
Proof.
  apply first_free; [done|]. intros i e b Hi. unfold scan_file_step, em_unused. destruct (ir_size (range e) =? 0); cbn.
  - by destruct (_ <? 0).
  - by case_match.
Qed.

(** The free slot of a table with room. *)
Lemma free_slot m i : has_room m → slot_of em_unused (em_tab m) i → i ≠ -1 ∧ ∃ e, (em_tab m).[i] = Some e ∧ em_used e = false.
Proof.
  intros Hr [[-> Hn]|(e & Hi & He)].
  - destruct (room_slot m Hr) as (j & e & Hj & He). specialize (Hn e). unfold em_used, em_unused in *.
    rewrite Hn in He; [done|]. apply zget_elem_of. eauto.
  - split; [pose proof (zget_range _ _ _ Hi); lia|]. exists e. split; [done|]. unfold em_used. by apply negb_false_iff.
Qed.

(** Storing an extent: the LBIDs held go to it. *)
Lemma add_extent_run held slot old e s :
  em_inv_with (range e :: held) (u_mem s) → (em_tab (u_mem s)).[slot] = Some old → em_used old = false →
  em_used e = true → aligned (range e) →
  ∃ log, add_extent slot e s = (Ret tt, mkUndoable
     (with_em (add_size 64 (em_info (u_mem s))) ((em_tab (u_mem s)).[slot <- e]) (u_mem s)) log) ∧
   em_inv_with held (with_em (add_size 64 (em_info (u_mem s))) ((em_tab (u_mem s)).[slot <- e]) (u_mem s)).
Proof.
  intros Hi Hs Hou Hu Ha. unfold add_extent. rewrite get_mem_run, Hs. eexists. split; [reflexivity|].
  destruct Hi as [H1 H2 H3 [H4 H5 H6]]. split; [|done| |by split].
  - pose proof (em_wf_zset _ _ _ _ e H1 Hs Ha) as Hw. by rewrite Hou, Hu in Hw.
  - intros x. rewrite <- (H3 x). unfold em_ranges, free_ranges. cbn.
    pose proof (em_ranges_zset _ _ _ e Hs x) as Hr. rewrite Hou, Hu in Hr. lia.
Qed.

(** The extent [e] was put into a free slot; LBIDs came from the free list. *)
Definition created (e : EMEntry) (m m' : EMMem) : Prop :=
  em_inv m' ∧ locks_of m' = locks_of m ∧
  ∃ slot old, (em_tab m).[slot] = Some old ∧ em_used old = false ∧ em_tab m' = (em_tab m).[slot <- e].

(** What the functions that create an extent have in common. *)
Definition create_with {A} (size : Z) (slot : list EMEntry → Z) (fault : list EMEntry → bool)
    (entry : Z → list EMEntry → EMEntry) (res : Z → list EMEntry → A) : M ExtentMap A :=
  lbid ← getLBIDsFromFreeList size;
  m ← get_mem;
  if slot (extents m) =? -1 then throw LogicError
  else if fault (extents m) then throw Segfault
  else add_extent (slot (extents m)) (entry lbid (extents m)) ≫= fun _ => mret (res lbid (extents m)).

Lemma create_spec {A} size slot fault entry (res : Z → list EMEntry → A) s :
  em_inv (u_mem s) → has_room (u_mem s) → 0 < size < 2 ^ 22 →
  (∀ l, slot_of em_unused l (slot l)) → (∀ l, fault l = false) → (∀ lbid l, range (entry lbid l) = mkIR lbid size) →
  let l := em_tab (u_mem s) in
  (create_with size slot fault entry res s = (Exn RuntimeError, s) ∧ ∀ r, r ∈ free_ranges (u_mem s) → ir_size r < size) ∨
  ∃ lbid s', create_with size slot fault entry res s = (Ret (res lbid l), s') ∧ created (entry lbid l) (u_mem s) (u_mem s').
Proof.
  intros Hi Hr Hz Hslot Hfault Hent l. unfold create_with.
  destruct (getLBIDs_spec [] size s Hi Hz) as [[He Hn]|(lbid & s1 & fl' & He & Hal & Hi1 & d' & Hm1)].
  { left. split; [|done]. by rewrite (bind_exn _ _ _ _ _ He). }
  right. rewrite (bind_ret _ _ _ _ _ He), get_mem_run.
  assert (em_tab (u_mem s1) = l) as Htab by by rewrite Hm1.
  assert (extents (u_mem s1) = l) as -> by (rewrite <- Htab; apply (extents_all _ _ Hi1)).
  destruct (free_slot (u_mem s) (slot l) Hr (Hslot l)) as (Hne & old & Hold & Hou).
  rewrite (proj2 (Z.eqb_neq _ _) Hne), Hfault.
  destruct (add_extent_run [] (slot l) old (entry lbid l) s1) as (log & Hrun & Hinv).
  - by rewrite Hent.
  - by rewrite Htab.
  - done.
  - apply em_used_size. rewrite Hent. cbn. lia.
  - rewrite Hent. split; [done|cbn; lia].
  - rewrite (bind_ret _ _ _ _ _ Hrun). eexists _, _. split; [reflexivity|]. split; [exact Hinv|].
    cbn [u_mem]. split; [by rewrite Hm1|]. exists (slot l), old. split; [done|]. split; [done|]. cbn. by rewrite Htab.
Qed.

(** The extent size of a column is as many units as the column has bytes. *)
Lemma extent_units w : 0 < w < 512 → EXTENT_SIZE w / 1024 = w.
Proof.
  intros. unfold EXTENT_SIZE, getExtentRows, BLOCK_SIZE. rewrite wrap_u_small by lia.
  rewrite Z.div_div by lia. change (8192 * 1024) with 0x800000. rewrite Z.mul_comm. by apply Z.div_mul.
Qed.

Lemma createColumnExtent_eq cfg size OID w dbroot t part :
  createColumnExtent_ cfg size OID w dbroot t part =
  create_with size (fun l => emptyEMEntry (scan_from (scan1_step OID dbroot part) 0 l scan1_init))
    (fun l => bool_decide (is_Some (lastExtent (scan_from (scan1_step OID dbroot part) 0 l scan1_init))) && (dbRootCount cfg =? 0))
    (fun lbid l => column_entry lbid size OID w dbroot t (choose_place cfg OID w dbroot part l))
    (fun lbid l => (lbid, choose_place cfg OID w dbroot part l)).
Proof. done. Qed.

Lemma createExact_eq size OID w dbroot part seg t :
  createColumnExtentExactFile_ size OID w dbroot part seg t =
  create_with size (fun l => sf_empty (find_file (in_column_file OID dbroot part seg) l)) (fun _ => false)
    (fun lbid l => column_entry lbid size OID w dbroot t
       (mkPlace part seg (end_offset (sf_last (find_file (in_column_file OID dbroot part seg) l)))))
    (fun lbid l => (lbid, end_offset (sf_last (find_file (in_column_file OID dbroot part seg) l)))).
Proof. done. Qed.

Lemma createDict_eq size OID dbroot part seg :
  createDictStoreExtent_ size OID dbroot part seg =
  create_with size (fun l => sf_empty (find_file (in_dict_file OID part seg) l)) (fun _ => false)
    (fun lbid l => dict_entry lbid size OID dbroot part seg (sf_last (find_file (in_dict_file OID part seg) l)))
    (fun lbid _ => lbid).
Proof. done. Qed.

(** The extents in use. *)
Definition live (m : EMMem) : list EMEntry := List.filter em_used (em_tab m).

(** The extent [e] is new. *)
Definition new_extent (e : EMEntry) (m m' : EMMem) : Prop := em_inv m' ∧ live m' ≡ₚ e :: live m.

Lemma created_new e m m' : created e m m' → em_used e = true → new_extent e m m'.
Proof.
  intros (Hi & _ & slot & old & Hs & Ho & Ht) Hu. split; [done|]. unfold live. rewrite Ht.
  destruct (used_zset em_used _ _ _ Hs) as (rest & Hp & Hp'). unfold opt_used in *. rewrite Ho in Hp.
  rewrite Hp, Hp', Hu. done.
Qed.

(** The locks and the room for an entry. *)
Definition prepare (useLock : bool) : M ExtentMap unit :=
  (if useLock then grab_both else mret tt) ≫= fun _ => make_em_room.

Lemma live_grown (l : list EMEntry) n : List.filter em_used (l ++ replicate n empty_EMEntry) = List.filter em_used l.
Proof. rewrite List.filter_app, (filter_none _ (replicate n _)), app_nil_r; [done|]. by intros x [-> _]%elem_of_replicate. Qed.

Lemma prepare_run lock s :
  em_inv (u_mem s) →
  ∃ s1, prepare lock s = (Ret tt, s1) ∧ em_inv (u_mem s1) ∧ has_room (u_mem s1) ∧ live (u_mem s1) = live (u_mem s).
Proof.
  intros Hi. unfold prepare. assert (∃ s0, (if lock then grab_both else mret tt) s = (Ret tt, s0) ∧
    em_inv (u_mem s0) ∧ em_tab (u_mem s0) = em_tab (u_mem s)) as (s0 & H0 & Hi0 & Ht).
  { destruct lock; [|by eexists]. rewrite grab_both_run by apply Hi. eexists. split; [reflexivity|]. split; [|done].
    by apply inv_locks. }
  rewrite (bind_ret _ _ _ _ _ H0). pose proof (triple_make_room s0 Hi0) as Hr. unfold live. rewrite <- Ht.
  unfold make_em_room in *. rewrite get_mem_run in *. destruct (_ =? _).
  - destruct (growEM_run [] s0 Hi0) as (k & Hg & Hk). rewrite Hg in *. eexists. split; [reflexivity|].
    destruct Hr. split; [done|]. split; [done|]. apply (live_grown (em_tab (u_mem s0)) 100).
  - eexists. split; [reflexivity|]. by destruct Hr.
Qed.

(** [create_with] after [prepare]. *)
Lemma create_full {A B} (lock : bool) size slot fault entry (res : Z → list EMEntry → A)
    (k : A → M ExtentMap B) (out : A → B) s :
  em_inv (u_mem s) → 0 < size < 2 ^ 22 → (∀ a s, k a s = (Ret (out a), s)) →
  (∀ l, slot_of em_unused l (slot l)) → (∀ l, fault l = false) → (∀ lbid l, range (entry lbid l) = mkIR lbid size) →
  let op : M ExtentMap B := (if lock then grab_both else mret tt) ≫= fun _ => make_em_room ≫= fun _ =>
            create_with size slot fault entry res ≫= k in
  (∃ s', op s = (Exn RuntimeError, s') ∧ em_inv (u_mem s') ∧ live (u_mem s') = live (u_mem s) ∧
     ∀ r, r ∈ free_ranges (u_mem s') → ir_size r < size) ∨
  ∃ lbid s' l, op s = (Ret (out (res lbid l)), s') ∧ List.filter em_used l = live (u_mem s) ∧
    new_extent (entry lbid l) (u_mem s) (u_mem s').
Proof.
  intros Hi Hz Hk Hslot Hf He. cbn zeta. destruct (prepare_run lock s Hi) as (s1 & Hp & Hi1 & Hr1 & Hl).
  rewrite <- (assoc_run _ (fun _ => make_em_room) (fun _ => create_with size slot fault entry res ≫= k)).
  rewrite (bind_ret _ _ _ _ _ Hp).
  destruct (create_spec size slot fault entry res s1 Hi1 Hr1 Hz Hslot Hf He) as [[Hx Hn]|(lbid & s' & Hx & Hc)].
  - left. rewrite (bind_exn _ _ _ _ _ Hx). by exists s1.
  - right. exists lbid, s', (em_tab (u_mem s1)). rewrite (bind_ret _ _ _ _ _ Hx). split; [apply Hk|].
    split; [done|]. apply created_new in Hc as [Hi' Hp']; [|apply em_used_size; rewrite He; cbn; lia].
    split; [done|]. by rewrite Hp', Hl.
Qed.

Section Create.
Context (cfg : EMConfig) (Hcfg : dbRootCount cfg ≠ 0).

Lemma createColumn_spec OID w dbroot t part lock s :
  em_inv (u_mem s) → 0 < w < 512 →
  (∃ s', createColumnExtent_DBroot cfg OID w dbroot t part lock s = (Exn RuntimeError, s') ∧
     em_inv (u_mem s') ∧ live (u_mem s') = live (u_mem s) ∧ ∀ r, r ∈ free_ranges (u_mem s') → ir_size r < w) ∨
  ∃ lbid s' l, let pl := choose_place cfg OID w dbroot part l in
    createColumnExtent_DBroot cfg OID w dbroot t part lock s = (Ret (lbid, EXTENT_SIZE w, pl), s') ∧
    List.filter em_used l = live (u_mem s) ∧
    new_extent (column_entry lbid w OID w dbroot t pl) (u_mem s) (u_mem s').
Proof using Hcfg.
  intros Hi Hw. unfold createColumnExtent_DBroot. rewrite extent_units, createColumnExtent_eq by lia.
  apply (create_full lock w (fun l => emptyEMEntry (scan_from (scan1_step OID dbroot part) 0 l scan1_init))
    (fun l => bool_decide (is_Some (lastExtent (scan_from (scan1_step OID dbroot part) 0 l scan1_init))) && (dbRootCount cfg =? 0))
    (fun lbid l => column_entry lbid w OID w dbroot t (choose_place cfg OID w dbroot part l))
    (fun lbid l => (lbid, choose_place cfg OID w dbroot part l))
    (fun '(lbid, pl) => mret (lbid, EXTENT_SIZE w, pl)) (fun a : Z * place => (a.1, EXTENT_SIZE w, a.2)) s Hi);
    [lia|by intros []| |intros l|done].
  - intros l. apply scan1_free.
  - by rewrite (proj2 (Z.eqb_neq _ _) Hcfg), andb_false_r.
Qed.

Lemma createExact_spec OID w dbroot part seg t s :
  em_inv (u_mem s) → 0 < w < 512 →
  (∃ s', createColumnExtentExactFile OID w dbroot part seg t s = (Exn RuntimeError, s') ∧
     em_inv (u_mem s') ∧ live (u_mem s') = live (u_mem s) ∧ ∀ r, r ∈ free_ranges (u_mem s') → ir_size r < w) ∨
  ∃ lbid s' l, let off := end_offset (sf_last (find_file (in_column_file OID dbroot part seg) l)) in
    createColumnExtentExactFile OID w dbroot part seg t s = (Ret (lbid, EXTENT_SIZE w, off), s') ∧
    List.filter em_used l = live (u_mem s) ∧
    new_extent (column_entry lbid w OID w dbroot t (mkPlace part seg off)) (u_mem s) (u_mem s').
Proof.
  intros Hi Hw. unfold createColumnExtentExactFile. rewrite extent_units, createExact_eq by lia.
  apply (create_full true w (fun l => sf_empty (find_file (in_column_file OID dbroot part seg) l)) (fun _ => false)
    (fun lbid l => column_entry lbid w OID w dbroot t
       (mkPlace part seg (end_offset (sf_last (find_file (in_column_file OID dbroot part seg) l)))))
    (fun lbid l => (lbid, end_offset (sf_last (find_file (in_column_file OID dbroot part seg) l))))
    (fun '(lbid, off) => mret (lbid, EXTENT_SIZE w, off)) (fun a : Z * Z => (a.1, EXTENT_SIZE w, a.2)) s Hi);
    [lia|by intros []| |done|done].
  intros l. apply find_file_free.
Qed.

Lemma createDict_spec OID dbroot part seg s :
  em_inv (u_mem s) →
  (∃ s', createDictStoreExtent OID dbroot part seg s = (Exn RuntimeError, s') ∧
     em_inv (u_mem s') ∧ live (u_mem s') = live (u_mem s) ∧ ∀ r, r ∈ free_ranges (u_mem s') → ir_size r < 8) ∨
  ∃ lbid s' l,
    createDictStoreExtent OID dbroot part seg s = (Ret (lbid, EXTENT_SIZE DICT_COL_WIDTH), s') ∧
    List.filter em_used l = live (u_mem s) ∧
    new_extent (dict_entry lbid 8 OID dbroot part seg (sf_last (find_file (in_dict_file OID part seg) l)))
      (u_mem s) (u_mem s').
Proof.
  intros Hi. unfold createDictStoreExtent. rewrite extent_units, createDict_eq by (unfold DICT_COL_WIDTH; lia).
  apply (create_full true 8 (fun l => sf_empty (find_file (in_dict_file OID part seg) l)) (fun _ => false)
    (fun lbid l => dict_entry lbid 8 OID dbroot part seg (sf_last (find_file (in_dict_file OID part seg) l)))
    (fun lbid _ => lbid) (fun lbid => mret (lbid, EXTENT_SIZE DICT_COL_WIDTH))
    (fun lbid : Z => (lbid, EXTENT_SIZE DICT_COL_WIDTH)) s Hi);
    [unfold DICT_COL_WIDTH; lia|done| |done|done].
  intros l. apply find_file_free.
Qed.
End Create.
