(* ===== verification/EmKeeps.v ===== *)
(** * Every operation of the extent map keeps its invariant ([extentmap.cpp])

    Then the states that can be reached from zeroed shared memory by any sequence of
    the operations, and small states for the examples. *)

From S2P Require Import Prelude ColType Undo Table Vbbm Vss ExtentMap EmCp EmCreate EmDelete EmQuery EmSpace EmFree EmInv.

(** ** Writing and deleting an entry *)

Lemma inv_set_em held m i e e' :
  em_inv_with held m → (em_tab m).[i] = Some e → range e' = range e → em_inv_with held (set_em i e' m).
Proof.
  intros [H1 H2 H3 [H4 H5 H6]] Hi Hr. assert (em_used e' = em_used e) as Hu by (unfold em_used; by rewrite Hr).
  assert (aligned (range e)) as Ha by (destruct H1 as [_ _ Ha]; rewrite Forall_forall in Ha; apply Ha, zget_elem_of; eauto).
  split; [|done| |by split].
  - pose proof (em_wf_zset _ _ _ _ e' H1 Hi) as Hw. rewrite Hr, Hu, Z.sub_diag in Hw. specialize (Hw Ha).
    destruct Hw as [Hl Hn Hs]. split; [done| |done]. cbn in *. lia.
  - intros x. rewrite <- (H3 x). unfold free_ranges, em_ranges. cbn.
    pose proof (em_ranges_zset _ _ _ e' Hi x) as Hx. rewrite Hu, Hr in Hx. lia.
Qed.

(** The invariant, with [n] slots and [e] in slot [i]. *)
Definition em_at (n i : Z) (e : EMEntry) (m : EMMem) : Prop := em_n n m ∧ (em_tab m).[i] = Some e.

Lemma triple_get_em {A} n i (f : EMEntry → M ExtentMap A) Q :
  0 ≤ i < n → (∀ e, triple (em_at n i e) (f e) Q) → triple (em_n n) (get_em i ≫= f) Q.
Proof.
  intros Hi H s Hs. destruct (zget_is_Some (em_tab (u_mem s)) i) as [e He]; [destruct Hs; lia|].
  assert ((get_em i ≫= f) s = f e s) as ->.
  { unfold get_em, mbind, M_bind. cbn. by rewrite He. }
  by apply H.
Qed.

Lemma triple_set_em n i e e' : range e' = range e → triple (em_at n i e) (upd_mem (set_em i e')) (fun _ => em_n n).
Proof.
  intros Hr. apply triple_upd. intros m [[Hi Hn] He]. split; [by eapply inv_set_em|]. cbn. by rewrite zlength_zset.
Qed.

Lemma triple_write_em n i e e' : range e' = range e → triple (em_at n i e) (write_em i e e') (fun _ => em_n n).
Proof.
  intros Hr. apply (triple_bind _ _ _ (fun _ => em_at n i e)); [by apply triple_record|intros []; by apply triple_set_em].
Qed.

Lemma triple_delete n i e : em_used e = true → triple (em_at n i e) (deleteExtent i) (fun _ => em_n n).
Proof.
  intros Hu s [[Hi Hn] He]. destruct (deleteExtent_spec [] i e s Hi He Hu) as (s' & -> & Hi' & Ht & _).
  split; [done|]. by rewrite Ht, zlength_zset.
Qed.

(** [n] is the number of slots the loops run over. *)
Lemma em_n_slots n m : em_n n m → emEntries m = n.
Proof. intros [Hi Hn]. by rewrite (proj2 (extents_all _ _ Hi)). Qed.

Lemma em_at_n n i e m : em_at n i e m → em_n n m.
Proof. by intros []. Qed.

Create HintDb em discriminated.
#[export] Hint Resolve em_at_n triple_write_em triple_delete triple_set_em : em.

(** Run the loops: over the slots of the table. *)
Lemma triple_slots {A} (P : Z → EMMem → M ExtentMap A) Q :
  (∀ n m, triple (em_n n) (P n m) Q) → triple em_inv (m ← get_mem; P (emEntries m) m) Q.
Proof.
  intros H s Hs. rewrite get_mem_run. apply H. split; [done|]. symmetry. apply (extents_all _ _ Hs).
Qed.

Lemma triple_for_slots n (f : Z → M ExtentMap unit) :
  (∀ i, 0 ≤ i < n → triple (em_n n) (f i) (fun _ => em_n n)) → triple (em_n n) (forM (zseq 0 n) f) (fun _ => em_n n).
Proof. intros H. apply triple_forM. intros i Hi%zseq_elem. apply H. lia. Qed.

Lemma triple_delete_all p : triple em_inv (delete_all p) (fun _ => em_inv).
Proof.
  apply (triple_slots (fun n _ => forM (zseq 0 n) (delete_if p))). intros n _.
  eapply triple_post; [|apply triple_for_slots]; [by intros _ m []|]. intros i Hi. apply triple_get_em; [done|].
  intros e. destruct (negb (ir_size (range e) =? 0)) eqn:Hu; cbn; [|apply triple_ret; by intros m []].
  destruct (p e); [by apply triple_delete|]. apply triple_ret. by intros m [].
Qed.

(** ** Deleting and rolling back *)

Lemma triple_act n i e a : em_used e = true → triple (em_at n i e) (act i e a) (fun _ => em_n n).
Proof.
  intros Hu. destruct a; cbn; [apply triple_ret; by intros m []|by apply triple_delete|].
  apply triple_if; [apply triple_ret; by intros m []|]. by apply triple_write_em.
Qed.

Lemma triple_rollback_column n oid del dbroot part seg hwm slots st :
  (∀ i, i ∈ slots → 0 ≤ i < n) →
  triple (em_n n) (rollback_column oid del dbroot part seg hwm slots st) (fun _ => em_n n).
Proof.
  revert st. induction slots as [|i slots IH]; intros st Hs; cbn [rollback_column]; [by apply triple_ret|].
  apply triple_get_em; [apply Hs; by left|]. intros e.
  assert (∀ st, triple (em_n n) (rollback_column oid del dbroot part seg hwm slots st) (fun _ => em_n n)) as Hrest.
  { intros st'. apply IH. intros j Hj. apply Hs. by right. }
  destruct (negb (ir_size (range e) =? 0)) eqn:Hu; cbn [andb]; [|eapply triple_pre; [apply em_at_n|apply Hrest]].
  destruct (_ && _ && _); [|eapply triple_pre; [apply em_at_n|apply Hrest]].
  destruct del; (apply (triple_seq (em_n n)); [|intros []; apply Hrest]); [by apply triple_delete|by apply triple_act].
Qed.

Lemma seg_hwms_ret rng segNums hwms : length hwms = length segNums → ∃ g, seg_hwms rng segNums hwms = Ret g.
Proof.
  revert segNums. induction hwms as [|h hwms IH]; intros [|sg segNums] Hl; cbn in *; [by eexists|done..|].
  destruct (IH segNums) as [g ->]; [lia|]. by eexists.
Qed.

Lemma triple_rollback_dict n oid dbroot part segNums hwms slots segs :
  (∀ i, i ∈ slots → 0 ≤ i < n) → length hwms = length segNums →
  triple (em_n n) (rollback_dict oid dbroot part segNums hwms slots segs) (fun _ => em_n n).
Proof.
  intros Hs Hlen. revert segs Hs. induction slots as [|i slots IH]; intros segs Hs; cbn [rollback_dict]; [by apply triple_ret|].
  apply triple_get_em; [apply Hs; by left|]. intros e.
  assert (∀ segs, triple (em_n n) (rollback_dict oid dbroot part segNums hwms slots segs) (fun _ => em_n n)) as Hrest.
  { intros segs'. apply IH. intros j Hj. apply Hs. by right. }
  destruct (negb (ir_size (range e) =? 0)) eqn:Hu; cbn [andb]; [|eapply triple_pre; [apply em_at_n|apply Hrest]].
  destruct (_ && _ && _); [|eapply triple_pre; [apply em_at_n|apply Hrest]].
  case_bool_decide.
  { apply (triple_seq (em_n n)); [by apply triple_delete|]. intros []. apply Hrest. }
  assert (∃ g, (if bool_decide (segs = ∅) then seg_hwms (u32 (ir_size (range e) * 1024)) segNums hwms else Ret segs) = Ret g)
    as [g ->].
  { case_bool_decide; [|by eexists]. by apply seg_hwms_ret. }
  apply triple_lift, (triple_seq (em_n n)); [by apply triple_act|]. intros []. apply Hrest.
Qed.

Lemma triple_empty_column n info slots st :
  (∀ i, i ∈ slots → 0 ≤ i < n) → triple (em_n n) (empty_column info slots st) (fun _ => em_n n).
Proof.
  revert st. induction slots as [|i slots IH]; intros st Hs; cbn [empty_column]; [by apply triple_ret|].
  apply triple_get_em; [apply Hs; by left|]. intros e.
  assert (∀ st, triple (em_n n) (empty_column info slots st) (fun _ => em_n n)) as Hrest.
  { intros st'. apply IH. intros j Hj. apply Hs. by right. }
  destruct (xi_find (fileID e) info) as [x|]; [|eapply triple_pre; [apply em_at_n|apply Hrest]].
  destruct (ir_size (range e) =? 0) eqn:Hu; cbn [orb]; [eapply triple_pre; [apply em_at_n|apply Hrest]|].
  apply triple_if; [eapply triple_pre; [apply em_at_n|apply Hrest]|].
  apply (triple_seq (em_n n)); [|intros []; apply Hrest]. apply triple_act. unfold em_used. by rewrite Hu.
Qed.

Lemma triple_empty_dict n info slots st :
  (∀ i, i ∈ slots → 0 ≤ i < n) → triple (em_n n) (empty_dict info slots st) (fun _ => em_n n).
Proof.
  revert st. induction slots as [|i slots IH]; intros st Hs; cbn [empty_dict]; [by apply triple_ret|].
  apply triple_get_em; [apply Hs; by left|]. intros e.
  assert (∀ st, triple (em_n n) (empty_dict info slots st) (fun _ => em_n n)) as Hrest.
  { intros st'. apply IH. intros j Hj. apply Hs. by right. }
  destruct (xi_find (fileID e) info) as [x|]; [|eapply triple_pre; [apply em_at_n|apply Hrest]].
  destruct (ir_size (range e) =? 0) eqn:Hu; cbn [orb]; [eapply triple_pre; [apply em_at_n|apply Hrest]|].
  apply triple_if; [eapply triple_pre; [apply em_at_n|apply Hrest]|].
  apply (triple_seq (em_n n)); [|intros []; apply Hrest]. apply triple_act. unfold em_used. by rewrite Hu.
Qed.

(** ** Partitions *)

Lemma zget_snoc {A} (l : list A) x i y : (l ++ [x]).[i] = Some y ↔ l.[i] = Some y ∨ (i = zlength l ∧ y = x).
Proof.
  split.
  - intros Hi. pose proof (zget_range _ _ _ Hi) as Hr. rewrite zlength_app in Hr. change (zlength [x]) with 1 in Hr.
    destruct (decide (i < zlength l)); [left; by rewrite zget_app_l in Hi|]. right. assert (i = zlength l) as -> by lia.
    rewrite zget_middle in Hi. naive_solver.
  - intros [Hi|[-> ->]]; [|apply zget_middle]. rewrite zget_app_l; [done|]. apply zget_range in Hi. lia.
Qed.

Lemma found_slots_spec oids parts l :
  NoDup (found_slots oids parts l) ∧
  ∀ i, i ∈ found_slots oids parts l ↔ ∃ e, l.[i] = Some e ∧ in_partitions oids parts e = true.
Proof.
  unfold found_slots. apply (scan_inv (fun pre b => NoDup b ∧
    ∀ i, i ∈ b ↔ ∃ e, pre.[i] = Some e ∧ in_partitions oids parts e = true)).
  { split; [constructor|]. intros i. split; [by intros ?%elem_of_nil|]. intros (e & He & _). apply zget_range in He.
    unfold zlength in He. cbn in He. lia. }
  intros pre x b [Hnd Hb].
  destruct (in_partitions oids parts x) eqn:Hx.
  - split.
    + apply NoDup_app. split; [done|]. split; [|apply NoDup_singleton]. intros i Hi ->%list_elem_of_singleton.
      apply Hb in Hi as (e & He & _). apply zget_range in He. lia.
    + intros i. rewrite elem_of_app, list_elem_of_singleton, Hb. split.
      * intros [(e & He & Hp)| ->]; [exists e|exists x]; rewrite zget_snoc; auto.
      * intros (e & [He|[-> ->]]%zget_snoc & Hp); eauto.
  - split; [done|]. intros i. rewrite Hb. split.
    + intros (e & He & Hp). exists e. rewrite zget_snoc. auto.
    + intros (e & [He|[-> ->]]%zget_snoc & Hp); [eauto|congruence].
Qed.

Lemma in_partitions_used oids parts e : in_partitions oids parts e = true → em_used e = true.
Proof. unfold in_partitions, em_used. by destruct (negb _). Qed.

(** Deleting some slots in use. *)
Lemma delete_slots held slots s :
  NoDup slots → em_inv_with held (u_mem s) →
  (∀ i, i ∈ slots → ∃ e, (em_tab (u_mem s)).[i] = Some e ∧ em_used e = true) →
  ∃ s', forM slots deleteExtent s = (Ret tt, s') ∧ em_inv_with held (u_mem s') ∧
    zlength (em_tab (u_mem s')) = zlength (em_tab (u_mem s)) ∧ locks_of (u_mem s') = locks_of (u_mem s) ∧
    ∀ i, (em_tab (u_mem s')).[i] =
         if bool_decide (i ∈ slots) then set_size 0 <$> (em_tab (u_mem s)).[i] else (em_tab (u_mem s)).[i].
Proof.
  intros Hnd. revert s. induction Hnd as [|i slots Hni Hnd IH]; intros s Hi Hs.
  { exists s. split; [done|]. split; [done|]. split; [done|]. split; [done|]. intros i.
    by rewrite bool_decide_false by apply not_elem_of_nil. }
  destruct (Hs i) as (e & He & Hu); [by left|].
  destruct (deleteExtent_spec held i e s Hi He Hu) as (s1 & H1 & Hi1 & Ht1 & Hl1).
  destruct (IH s1 Hi1) as (s2 & H2 & Hi2 & Hn2 & Hl2 & Ht2).
  { intros j Hj. rewrite Ht1, zget_zset_ne by (intros ->; done). apply Hs. by right. }
  exists s2. cbn. rewrite (bind_ret _ _ _ _ _ H1). split; [done|]. split; [done|].
  split; [by rewrite Hn2, Ht1, zlength_zset|]. split; [congruence|]. intros j. rewrite Ht2, Ht1.
  destruct (decide (j = i)) as [->|Hne].
  - rewrite bool_decide_false by done. rewrite bool_decide_true by by left.
    rewrite zget_zset_eq, He; [done|]. by apply zget_range in He.
  - rewrite zget_zset_ne by done. by rewrite (bool_decide_ext (j ∈ i :: slots) (j ∈ slots)) by set_solver.
Qed.

Lemma triple_throw_rc rc : triple em_inv (throw_rc rc) (fun _ => em_inv).
Proof. unfold throw_rc. apply triple_if; [by apply triple_ret|by apply triple_throw]. Qed.

Lemma triple_set_status n st i : 0 ≤ i < n → triple (em_n n) (set_status st i) (fun _ => em_n n).
Proof. intros Hi. apply triple_get_em; [done|]. intros e. by apply triple_write_em. Qed.

(** The slots found are slots of the table. *)
Lemma triple_found oids parts st m :
  em_inv m →
  triple (fun m' => em_inv m' ∧ m' = m) (forM (found_slots oids parts (extents m)) (set_status st)) (fun _ => em_inv).
Proof.
  intros Hi. apply (triple_pre _ (em_n (zlength (em_tab m)))); [intros m' [? ->]; by split|].
  eapply triple_post; [|apply triple_forM]; [by intros [] m' []|]. intros i Hs. apply triple_set_status.
  apply found_slots_spec in Hs as (e & He & _). rewrite (proj1 (extents_all _ _ Hi)) in He.
  by apply zget_range in He.
Qed.

Lemma keeps_deletePartition oids parts : triple em_inv (EM_deletePartition oids parts) (fun _ => em_inv).
Proof.
  apply triple_if; [by apply triple_ret|]. apply (triple_seq em_inv); [apply triple_grab_both, _|]. intros _.
  apply triple_get. intros m Hi. apply (triple_seq em_inv).
  - intros s [Hs Hm]. destruct (found_slots_spec oids parts (extents m)) as [Hnd Hf].
    destruct (delete_slots [] _ s Hnd Hs) as (s' & -> & Hi' & _); [|done].
    intros i (e & He & Hp)%Hf. exists e. rewrite Hm. rewrite (proj1 (extents_all _ _ Hi)) in He.
    split; [done|]. by eapply in_partitions_used.
  - intros []. apply triple_throw_rc.
Qed.

Lemma keeps_markPartition oids parts : triple em_inv (EM_markPartitionForDeletion oids parts) (fun _ => em_inv).
Proof.
  apply triple_if; [by apply triple_ret|]. apply (triple_seq em_inv); [apply triple_grabEM, _|]. intros _.
  apply triple_get. intros m Hi. apply (triple_seq em_inv); [by apply triple_found|]. intros []. apply triple_throw_rc.
Qed.

Lemma keeps_restorePartition oids parts : triple em_inv (EM_restorePartition oids parts) (fun _ => em_inv).
Proof.
  apply triple_if; [by apply triple_ret|]. apply (triple_seq em_inv); [apply triple_grabEM, _|]. intros _.
  apply triple_get. intros m Hi. apply triple_if; [apply triple_throw; [done|by intros m' []]|].
  apply (triple_seq em_inv); [by apply triple_found|]. intros []. apply triple_throw_rc.
Qed.

Lemma keeps_markAll oids : triple em_inv (EM_markAllPartitionForDeletion oids) (fun _ => em_inv).
Proof.
  apply triple_if; [by apply triple_ret|]. apply (triple_seq em_inv); [apply triple_grabEM, _|]. intros _.
  eapply (triple_slots (fun n _ => forM (zseq 0 n) _)). intros n _.
  eapply triple_post; [|apply triple_for_slots]; [by intros [] m []|]. intros i Hi. apply triple_get_em; [done|].
  intros e. apply triple_if; [|apply triple_ret; by intros m []].
  eapply triple_pre; [apply em_at_n|]. by apply triple_set_status.
Qed.

(** ** Deleting *)

Lemma keeps_deleteOID OID : triple em_inv (EM_deleteOID OID) (fun _ => em_inv).
Proof.
  apply (triple_seq em_inv); [apply triple_grab_both, _|]. intros _. apply triple_get. intros m Hi.
  apply (triple_seq em_inv); [eapply triple_pre; [|apply triple_delete_all]; by intros m' []|].
  intros []. apply triple_if; [by apply triple_ret|by apply triple_throw].
Qed.

Lemma keeps_deleteOIDs OIDs : triple em_inv (EM_deleteOIDs OIDs) (fun _ => em_inv).
Proof. apply (triple_seq em_inv); [apply triple_grab_both, _|]. intros _. apply triple_delete_all. Qed.

Lemma keeps_deleteDBRoot dbroot : triple em_inv (EM_deleteDBRoot dbroot) (fun _ => em_inv).
Proof. apply (triple_seq em_inv); [apply triple_grab_both, _|]. intros _. apply triple_delete_all. Qed.

Lemma zseq_slots n i : i ∈ zseq 0 n → 0 ≤ i < n.
Proof. intros Hi%zseq_elem. lia. Qed.

Lemma keeps_rollbackColumn oid del dbroot part seg hwm :
  triple em_inv (rollbackColumnExtents_DBroot oid del dbroot part seg hwm) (fun _ => em_inv).
Proof.
  apply (triple_seq em_inv); [apply triple_grab_both, _|]. intros _.
  apply (triple_slots (fun n _ => rollback_column oid del dbroot part seg hwm (zseq 0 n) no_stripe)). intros n _.
  eapply triple_post; [|apply triple_rollback_column, zseq_slots]. by intros [] m [].
Qed.

Lemma keeps_rollbackDict oid dbroot part segNums hwms :
  length hwms = length segNums →
  triple em_inv (rollbackDictStoreExtents_DBroot oid dbroot part segNums hwms) (fun _ => em_inv).
Proof.
  intros Hl. apply (triple_seq em_inv); [apply triple_grab_both, _|]. intros _.
  apply (triple_slots (fun n _ => rollback_dict oid dbroot part segNums hwms (zseq 0 n) ∅)). intros n _.
  eapply triple_post; [|apply triple_rollback_dict; [apply zseq_slots|done]]. by intros [] m [].
Qed.

Lemma keeps_deleteEmptyCol info : triple em_inv (deleteEmptyColExtents info) (fun _ => em_inv).
Proof.
  apply (triple_seq em_inv); [apply triple_grab_both, _|]. intros _.
  apply (triple_slots (fun n _ => empty_column info (zseq 0 n) no_stripe)). intros n _.
  eapply triple_post; [|apply triple_empty_column, zseq_slots]. by intros [] m [].
Qed.

Lemma keeps_deleteEmptyDict info : info ≠ [] → triple em_inv (deleteEmptyDictStoreExtents info) (fun _ => em_inv).
Proof.
  intros Hn. apply (triple_seq em_inv); [apply triple_grab_both, _|]. intros _.
  destruct info as [|x info]; [done|]. apply triple_lift. destruct (xi_newFile x.2).
  - apply triple_get. intros m Hi. eapply triple_pre; [|apply triple_delete_all]. by intros m' [].
  - apply (triple_slots (fun n _ => empty_dict (x :: info) (zseq 0 n) no_stripe)). intros n _.
    eapply triple_post; [|apply triple_empty_dict, zseq_slots]. by intros [] m [].
Qed.

(** ** Values and high water marks *)

Lemma find_extent m p i e :
  em_inv m → find_index p (extents m) = Some (i, e) → (em_tab m).[i] = Some e ∧ p e = true.
Proof.
  intros Hi (_ & He & Hp)%find_from_Some. rewrite Z.sub_0_r, (proj1 (extents_all _ _ Hi)) in He. done.
Qed.

(** Image an entry found in the table and store another with the same LBIDs. *)
Lemma triple_replace {A} m i e e' (a : A) :
  em_inv m → (em_tab m).[i] = Some e → range e' = range e →
  triple (fun m' => em_inv m' ∧ m' = m)
    (makeUndoRecord (DEM i e) ≫= fun _ => upd_mem (set_em i e') ≫= fun _ => mret a) (fun _ => em_inv).
Proof.
  intros Hi He Hr. apply (triple_seq (em_at (zlength (em_tab m)) i e)).
  - apply triple_record. by intros m' [? ->].
  - intros []. apply (triple_seq (em_n (zlength (em_tab m)))); [by apply triple_set_em|]. intros [].
    apply triple_ret. by intros m' [].
Qed.

Lemma keeps_markInvalid_ lbid t : triple em_inv (markInvalid_ lbid t) (fun _ => em_inv).
Proof.
  apply triple_get. intros m Hi. destruct (find_index _ _) as [[i e]|] eqn:Hf.
  - destruct (find_extent _ _ _ _ Hi Hf). by apply triple_replace.
  - apply triple_throw; [done|by intros m' []].
Qed.

Lemma keeps_mark_each lbids ts :
  length ts = length lbids → triple em_inv (mark_each lbids ts) (fun _ => em_inv).
Proof.
  revert ts. induction lbids as [|l lbids IH]; intros [|t ts] Hl; try done; cbn [mark_each]; [by apply triple_ret|].
  apply triple_lift. apply (triple_seq em_inv).
  - apply triple_catch; [apply keeps_markInvalid_|]. intros e _. by apply triple_ret.
  - intros _. apply IH. cbn in *. lia.
Qed.

Lemma keeps_setMaxMin lbid mx mn seq : triple em_inv (setMaxMin lbid mx mn seq) (fun _ => em_inv).
Proof.
  apply (triple_seq em_inv); [apply triple_grabEM, _|]. intros _. apply triple_get. intros m Hi.
  destruct (find_index _ _) as [[i e]|] eqn:Hf.
  - destruct (find_extent _ _ _ _ Hi Hf). repeat apply triple_if; try by apply triple_replace.
    apply triple_ret. by intros m' [].
  - apply (triple_seq em_inv).
    + apply triple_if; [|apply triple_ret; by intros m' []].
      eapply triple_pre; [|apply triple_releaseEM, _]. by intros m' [].
    + intros []. by apply triple_throw.
Qed.

(** A loop over the slots that may store another range of values. *)
Lemma triple_store_cp {A} n i e (c : option EMCasualPartition) (rest : M ExtentMap A) Q :
  triple (em_n n) rest Q →
  triple (em_at n i e)
    ((match c with
      | Some c => makeUndoRecord (DEM i e) ≫= fun _ => upd_mem (set_em i (set_cprange c e))
      | None => mret tt
      end) ≫= fun _ => rest) Q.
Proof.
  intros Hr. apply (triple_seq (em_n n)); [|by intros []]. destruct c as [c|]; [|apply triple_ret; by intros m []].
  apply (triple_write_em n i e (set_cprange c e)). done.
Qed.

Lemma keeps_set_cp n cpMap slots k :
  (∀ i, i ∈ slots → 0 ≤ i < n) → triple (em_n n) (set_cp_loop cpMap slots k) (fun _ => em_n n).
Proof.
  revert k. induction slots as [|i slots IH]; intros k Hs; cbn [set_cp_loop].
  { apply triple_throw; [done|by intros m []]. }
  assert (∀ k, triple (em_n n) (set_cp_loop cpMap slots k) (fun _ => em_n n)) as Hrest.
  { intros k'. apply IH. intros j Hj. apply Hs. by right. }
  eassert (triple (em_n n) (get_em i ≫= _) _) as H; [|exact H]. apply triple_get_em; [apply Hs; by left|]. intros e.
  apply triple_if; [eapply triple_pre; [apply em_at_n|apply Hrest]|].
  destruct (cpMap !! _) as [x|]; [|eapply triple_pre; [apply em_at_n|apply Hrest]].
  apply triple_store_cp. destruct k as [|[|k]]; [apply Hrest|by apply triple_ret|apply Hrest].
Qed.

Lemma keeps_merge_cp n cpMap slots k :
  (∀ i, i ∈ slots → 0 ≤ i < n) → triple (em_n n) (merge_cp_loop cpMap slots k) (fun _ => em_n n).
Proof.
  revert cpMap k. induction slots as [|i slots IH]; intros cpMap k Hs; cbn [merge_cp_loop].
  { apply triple_throw; [done|by intros m []]. }
  assert (∀ cpMap k, triple (em_n n) (merge_cp_loop cpMap slots k) (fun _ => em_n n)) as Hrest.
  { intros c' k'. apply IH. intros j Hj. apply Hs. by right. }
  eassert (triple (em_n n) (get_em i ≫= _) _) as H; [|exact H]. apply triple_get_em; [apply Hs; by left|]. intros e.
  apply triple_if; [eapply triple_pre; [apply em_at_n|apply Hrest]|].
  destruct (cpMap !! _) as [x|]; [|eapply triple_pre; [apply em_at_n|apply Hrest]].
  apply triple_store_cp. destruct k as [|[|k]]; [apply Hrest|by apply triple_ret|apply Hrest].
Qed.

Lemma triple_lock_em (b : bool) : triple em_inv (if b then grabEMEntryTable WRITE else mret tt) (fun _ => em_inv).
Proof. apply triple_if; [apply triple_grabEM, _|by apply triple_ret]. Qed.

Lemma keeps_setExtentsMaxMin cpMap b : triple em_inv (setExtentsMaxMin cpMap b) (fun _ => em_inv).
Proof.
  apply (triple_seq em_inv); [apply triple_lock_em|]. intros _.
  apply (triple_slots (fun n _ => set_cp_loop cpMap (zseq 0 n) (size cpMap))). intros n _.
  eapply triple_post; [|apply keeps_set_cp, zseq_slots]. by intros [] m [].
Qed.

Lemma keeps_mergeExtentsMaxMin cpMap b : triple em_inv (mergeExtentsMaxMin cpMap b) (fun _ => em_inv).
Proof.
  apply (triple_seq em_inv); [apply triple_lock_em|]. intros _.
  apply (triple_slots (fun n _ => merge_cp_loop cpMap (zseq 0 n) (size cpMap))). intros n _.
  eapply triple_post; [|apply keeps_merge_cp, zseq_slots]. by intros [] m [].
Qed.

(** The slots [setLocalHWM] finds. *)
Lemma find_hwm_slots OID part seg l :
  (∀ i e, hs_last (find_hwm OID part seg l) = Some (i, e) → l.[i] = Some e) ∧
  (∀ j, hs_old (find_hwm OID part seg l) = Some j → is_Some (l.[j])).
Proof.
  unfold find_hwm. apply (scan_inv (fun pre a =>
    (∀ i e, hs_last a = Some (i, e) → pre.[i] = Some e) ∧ (∀ j, hs_old a = Some j → is_Some (pre.[j])))); [done|].
  intros pre x a [H1 H2].
  assert ((∀ i e, hs_last a = Some (i, e) → (pre ++ [x]).[i] = Some e) ∧
          (∀ j, hs_old a = Some j → is_Some ((pre ++ [x]).[j]))) as [K1 K2].
  { split; [intros i e Ha; rewrite zget_snoc; left; by apply H1|]. intros j [y Hy]%H2. exists y. rewrite zget_snoc. by left. }
  unfold hwm_step. destruct (in_segment _ _ _ _); [|done].
  destruct (hs_highest a <=? blockOffset x), (HWM x =? 0); cbn; split; try done;
    try (intros i e [= <- <-]; by rewrite zget_middle); intros j [= <-]; rewrite zget_middle; by eexists.
Qed.

Lemma keeps_setLocalHWM OID part seg h b : triple em_inv (EM_setLocalHWM OID part seg h b) (fun _ => em_inv).
Proof.
  apply (triple_seq em_inv); [apply triple_lock_em|]. intros _. apply triple_get. intros m Hi.
  destruct (find_hwm_slots OID part seg (extents m)) as [H1 H2]. rewrite (proj1 (extents_all _ _ Hi)) in H1, H2 |- *. cbv zeta.
  destruct (hs_last _) as [[i e]|] eqn:Hl; [|apply triple_throw; [done|by intros m' []]].
  apply triple_if; [apply triple_throw; [done|by intros m' []]|].
  apply (triple_seq (em_n (zlength (em_tab m)))).
  - eapply triple_pre; [|apply (triple_write_em (zlength (em_tab m)))]; [|done]. intros m' [? ->]. split; [done|by apply H1].
  - intros []. destruct (hs_old _) as [j|] eqn:Ho; [|apply triple_ret; by intros m' []].
    apply triple_if; [apply triple_ret; by intros m' []|]. apply triple_get_em.
    + destruct (H2 j eq_refl) as [y Hy]. by apply zget_range in Hy.
    + intros o. eapply triple_post; [|by apply triple_write_em]. by intros [] m' [].
Qed.

Lemma keeps_bulkSetHWM v : triple em_inv (EM_bulkSetHWM v) (fun _ => em_inv).
Proof.
  apply (triple_seq em_inv); [apply triple_grabEM, _|]. intros _. apply triple_forM. intros a _. apply keeps_setLocalHWM.
Qed.

Lemma keeps_bulkUpdateDBRoot args : triple em_inv (EM_bulkUpdateDBRoot args) (fun _ => em_inv).
Proof.
  apply (triple_seq em_inv); [apply triple_grabEM, _|]. intros _.
  eapply (triple_slots (fun n _ => forM (zseq 0 n) _)). intros n _.
  eapply triple_post; [|apply triple_for_slots]; [by intros [] m []|]. intros i Hi. apply triple_get_em; [done|].
  intros e. destruct (find _ _) as [a|]; [by apply triple_set_em|]. apply triple_ret. by intros m [].
Qed.

(** ** Creating *)

Section CreateKeeps.
Context (cfg : EMConfig) (Hcfg : dbRootCount cfg ≠ 0).

Lemma keeps_createColumn OID w dbroot t part b :
  0 < w < 512 → triple em_inv (createColumnExtent_DBroot cfg OID w dbroot t part b) (fun _ => em_inv).
Proof using Hcfg.
  intros Hw s Hs. destruct (createColumn_spec cfg Hcfg OID w dbroot t part b s Hs Hw)
    as [(s' & -> & Hi & _)|(lbid & s' & l & -> & _ & Hi & _)]; done.
Qed.

Lemma keeps_createExact OID w dbroot part seg t :
  0 < w < 512 → triple em_inv (createColumnExtentExactFile OID w dbroot part seg t) (fun _ => em_inv).
Proof.
  intros Hw s Hs. destruct (createExact_spec OID w dbroot part seg t s Hs Hw)
    as [(s' & -> & Hi & _)|(lbid & s' & l & -> & _ & Hi & _)]; done.
Qed.

Lemma keeps_createDict OID dbroot part seg : triple em_inv (createDictStoreExtent OID dbroot part seg) (fun _ => em_inv).
Proof.
  intros s Hs. destruct (createDict_spec OID dbroot part seg s Hs)
    as [(s' & -> & Hi & _)|(lbid & s' & l & -> & _ & Hi & _)]; done.
Qed.

Lemma keeps_create_stripe cols dbroot part seg base out :
  (∀ c, c ∈ cols → 0 < st_width c < 512) →
  triple em_inv (create_stripe cfg cols dbroot part seg base out) (fun _ => em_inv).
Proof using Hcfg.
  revert part seg base out. induction cols as [|c cols IH]; intros part seg base out Hw; cbn [create_stripe].
  { by apply triple_ret. }
  apply (triple_seq em_inv); [apply keeps_createColumn, Hw; by left|]. intros [[lbid n] pl].
  apply triple_if; [|by apply triple_throw]. apply IH. intros c' Hc. apply Hw. by right.
Qed.
End CreateKeeps.

(** ** The operations together *)

(** The calls that change the extent map. *)
Inductive em_op :=
  | OpMarkInvalid (lbids : list Z) (ts : list ColDataType)
  | OpSetMaxMin (lbid mx mn seq : Z)
  | OpSetExtentsMaxMin (cpMap : gmap Z CPMaxMin)
  | OpMergeExtentsMaxMin (cpMap : gmap Z CPMaxMinMerge)
  | OpCreateStripe (cols : list StripeArgIn) (dbroot part seg : Z)
  | OpCreateColumn (OID w dbroot : Z) (t : ColDataType) (part : Z)
  | OpCreateExact (OID w dbroot part seg : Z) (t : ColDataType)
  | OpCreateDict (OID dbroot part seg : Z)
  | OpRollbackColumn (oid : Z) (del : bool) (dbroot part seg hwm : Z)
  | OpRollbackDict (oid dbroot part : Z) (segNums hwms : list Z)
  | OpDeleteEmptyCol (info : ExtentsInfoMap)
  | OpDeleteEmptyDict (info : ExtentsInfoMap)
  | OpDeleteOID (OID : Z)
  | OpDeleteOIDs (OIDs : list Z)
  | OpDeleteDBRoot (dbroot : Z)
  | OpDeletePartition (oids : gset Z) (parts : gset LogicalPartition)
  | OpMarkPartition (oids : gset Z) (parts : gset LogicalPartition)
  | OpRestorePartition (oids : gset Z) (parts : gset LogicalPartition)
  | OpMarkAllPartition (oids : gset Z)
  | OpSetLocalHWM (OID part seg hwm : Z)
  | OpBulkSetHWM (v : list BulkSetHWMArg)
  | OpBulkUpdateDBRoot (args : list (Z * Z))
  | OpConfirm.

Definition op_ok (o : em_op) : Prop :=
  match o with
  | OpMarkInvalid lbids ts => length ts = length lbids
  | OpCreateStripe cols _ _ _ => ∀ c, c ∈ cols → 0 < st_width c < 512
  | OpCreateColumn _ w _ _ _ | OpCreateExact _ w _ _ _ _ => 0 < w < 512
  | OpRollbackDict _ _ _ segNums hwms => length hwms = length segNums
  | OpDeleteEmptyDict info => info ≠ []
  | _ => True
  end.

Definition no_result {A} (op : M ExtentMap A) : M ExtentMap unit := op ≫= fun _ => mret tt.

Definition run_op (cfg : EMConfig) (o : em_op) : M ExtentMap unit :=
  match o with
  | OpMarkInvalid lbids ts => no_result (markInvalid_list lbids ts)
  | OpSetMaxMin lbid mx mn seq => no_result (setMaxMin lbid mx mn seq)
  | OpSetExtentsMaxMin cpMap => setExtentsMaxMin cpMap true
  | OpMergeExtentsMaxMin cpMap => mergeExtentsMaxMin cpMap true
  | OpCreateStripe cols dbroot part seg => no_result (createStripeColumnExtents cfg cols dbroot part seg)
  | OpCreateColumn OID w dbroot t part => no_result (createColumnExtent_DBroot cfg OID w dbroot t part true)
  | OpCreateExact OID w dbroot part seg t => no_result (createColumnExtentExactFile OID w dbroot part seg t)
  | OpCreateDict OID dbroot part seg => no_result (createDictStoreExtent OID dbroot part seg)
  | OpRollbackColumn oid del dbroot part seg hwm => rollbackColumnExtents_DBroot oid del dbroot part seg hwm
  | OpRollbackDict oid dbroot part segNums hwms => rollbackDictStoreExtents_DBroot oid dbroot part segNums hwms
  | OpDeleteEmptyCol info => deleteEmptyColExtents info
  | OpDeleteEmptyDict info => deleteEmptyDictStoreExtents info
  | OpDeleteOID OID => EM_deleteOID OID
  | OpDeleteOIDs OIDs => EM_deleteOIDs OIDs
  | OpDeleteDBRoot dbroot => EM_deleteDBRoot dbroot
  | OpDeletePartition oids parts => EM_deletePartition oids parts
  | OpMarkPartition oids parts => EM_markPartitionForDeletion oids parts
  | OpRestorePartition oids parts => EM_restorePartition oids parts
  | OpMarkAllPartition oids => EM_markAllPartitionForDeletion oids
  | OpSetLocalHWM OID part seg hwm => EM_setLocalHWM OID part seg hwm true
  | OpBulkSetHWM v => EM_bulkSetHWM v
  | OpBulkUpdateDBRoot args => EM_bulkUpdateDBRoot args
  | OpConfirm => EM_confirmChanges
  end.

Lemma triple_no_result {A} (op : M ExtentMap A) : triple em_inv op (fun _ => em_inv) → triple em_inv (no_result op) (fun _ => em_inv).
Proof. intros H. apply (triple_seq em_inv); [done|]. intros _. by apply triple_ret. Qed.

Lemma keeps_confirm : triple em_inv EM_confirmChanges (fun _ => em_inv).
Proof.
  apply (triple_seq em_inv); [by intros s Hs|]. intros []. apply triple_get. intros m Hi.
  apply (triple_seq em_inv).
  - apply triple_if; [|apply triple_ret; by intros m' []]. apply triple_upd. intros m' [? _]. by apply inv_locks.
  - intros []. apply triple_if; [apply triple_releaseEM, _|by apply triple_ret].
Qed.

Lemma op_keeps cfg o :
  dbRootCount cfg ≠ 0 → op_ok o → triple em_inv (run_op cfg o) (fun _ => em_inv).
Proof.
  intros Hcfg Hok. destruct o; cbn [run_op op_ok] in *; try apply triple_no_result.
  - apply (triple_seq em_inv); [apply triple_grabEM, _|]. intros _.
    apply (triple_seq em_inv); [by apply keeps_mark_each|]. intros []. by apply triple_ret.
  - apply keeps_setMaxMin.
  - apply keeps_setExtentsMaxMin.
  - apply keeps_mergeExtentsMaxMin.
  - apply (triple_seq em_inv); [apply triple_grab_both, _|]. intros _. by apply keeps_create_stripe.
  - by apply keeps_createColumn.
  - by apply keeps_createExact.
  - apply keeps_createDict.
  - apply keeps_rollbackColumn.
  - by apply keeps_rollbackDict.
  - apply keeps_deleteEmptyCol.
  - by apply keeps_deleteEmptyDict.
  - apply keeps_deleteOID.
  - apply keeps_deleteOIDs.
  - apply keeps_deleteDBRoot.
  - apply keeps_deletePartition.
  - apply keeps_markPartition.
  - apply keeps_restorePartition.
  - apply keeps_markAll.
  - apply keeps_setLocalHWM.
  - apply keeps_bulkSetHWM.
  - apply keeps_bulkUpdateDBRoot.
  - apply keeps_confirm.
Qed.

(** * The states the extent map can reach *)


(** Shared memory before the first call: [MasterSegmentTable::initMSTData] zeroes
    the descriptors, and nothing is mapped. *)
Definition em_fresh : EMMem := mkEMMem (mkMST 0 0 0) (-1) [] (mkMST 0 0 0) (-1) [] false false 0 0.

Definition em_boot : ExtentMap := (grab_both (mkUndoable em_fresh [])).2.

Lemma em_boot_run : grab_both (mkUndoable em_fresh []) = (Ret tt, em_boot).
Proof. vm_compute. reflexivity. Qed.

(** All the LBIDs are free. *)
Lemma em_boot_inv : em_inv (u_mem em_boot).
Proof.
  assert (List.filter em_used (em_tab (u_mem em_boot)) = []) as He by (vm_compute; reflexivity).
  assert (List.filter fl_used (fl_tab (u_mem em_boot)) = [mkIR 0 (2 ^ 26)]) as Hf by (vm_compute; reflexivity).
  split; [split|split| |].
  - vm_compute. reflexivity.
  - unfold count. rewrite He. vm_compute. reflexivity.
  - change (em_tab (u_mem em_boot)) with (replicate 1000 empty_EMEntry). by apply Forall_replicate.
  - vm_compute. reflexivity.
  - unfold count. rewrite Hf. vm_compute. reflexivity.
  - change (fl_tab (u_mem em_boot)) with (mkIR 0 (2 ^ 26) :: replicate 49 empty_range).
    constructor; [by split|]. by apply Forall_replicate.
  - intros r s. rewrite Hf, !list_elem_of_singleton. by intros -> ->.
  - intros x. unfold free_ranges, em_ranges. rewrite He, Hf. cbn. unfold ind, ir_end. cbn.
    rewrite !Z.add_0_r. done.
  - split; vm_compute; done.
Qed.

(** Two extents of the same column, one of a dictionary. *)
Definition cfg1 : EMConfig := mkEMConfig 4 2 2.

Definition em_sample : ExtentMap :=
  (createDictStoreExtent 3001 1 0 0
    (createColumnExtent_DBroot cfg1 3000 4 1 INT 0 true
      (createColumnExtent_DBroot cfg1 3000 4 1 INT 0 true em_boot).2).2).2.
