(* ===== verification/EmPlace.v ===== *)
(** * Where a new extent goes ([ExtentMap::_createColumnExtent_DBroot])

    The three steps that choose the partition, the segment file and the offset:
    what the scans find, and that the place is a new file or the next free place
    in a file of the DBRoot. *)

From S2P Require Import Prelude Undo Table Vbbm Vss ColType ExtentMap EmCp EmCreate EmDelete EmQuery EmSpace EmFree EmInv EmKeeps.

Section Place.
Context (cfg : EMConfig) (OID colWidth dbroot part : Z).

(** An extent of the column; one on the DBRoot. *)
Definition mine (e : EMEntry) : bool := em_used e && (fileID e =? OID).
Definition here (e : EMEntry) : bool := mine e && (dbRoot e =? dbroot).

(** Numbers of the file are unsigned. *)
Definition place_nonneg (e : EMEntry) : Prop := 0 ≤ partitionNum e ∧ 0 ≤ segmentNum e ∧ 0 ≤ blockOffset e.

(** [e1] is not after [e2] in the order of creation. *)
Definition not_after (e1 e2 : EMEntry) : Prop :=
  partitionNum e1 < partitionNum e2 ∨
  (partitionNum e1 = partitionNum e2 ∧
    (blockOffset e1 < blockOffset e2 ∨ (blockOffset e1 = blockOffset e2 ∧ segmentNum e1 ≤ segmentNum e2))).

(** ** First step *)

(** What the first scan has found in the entries seen. *)
Record scan1_ok (l : list EMEntry) (a : scan1) : Prop := {
  s1_last : ∀ i e, lastExtent a = Some (i, e) →
    l.[i] = Some e ∧ here e = true ∧
    highestPartNum a = partitionNum e ∧ highestOffset a = blockOffset e ∧ highestSegNum a = segmentNum e ∧
    ∀ x, x ∈ l → here x = true → not_after x e;
  s1_none : lastExtent a = None →
    highestPartNum a = 0 ∧ highestOffset a = 0 ∧ highestSegNum a = 0 ∧ (∀ x, x ∈ l → here x = false) ∧
    (∀ x, x ∈ l → mine x = true → partitionNum x = part →
       bHighEmptySegNumSet a = true ∧ segmentNum x ≤ highEmptySegNum a) ∧
    (bHighEmptySegNumSet a = true → ∃ x, x ∈ l ∧ mine x = true ∧ partitionNum x = part ∧ segmentNum x = highEmptySegNum a);
}.

Lemma later_iff e p o s :
  later e p o s = true ↔
  p < partitionNum e ∨ (p = partitionNum e ∧ (o < blockOffset e ∨ (o = blockOffset e ∧ s ≤ segmentNum e))).
Proof. unfold later. rewrite !orb_true_iff, !andb_true_iff, !Z.ltb_lt, !Z.eqb_eq, Z.leb_le. lia. Qed.

Lemma elem_snoc {A} (l : list A) x y : y ∈ l ++ [x] ↔ y ∈ l ∨ y = x.
Proof. by rewrite elem_of_app, list_elem_of_singleton. Qed.

(** An entry that is passed over. *)
Lemma scan1_skip l e a a' :
  scan1_ok l a → here e = false → (lastExtent a = None → mine e = true → partitionNum e = part → False) →
  lastExtent a' = lastExtent a → highestPartNum a' = highestPartNum a → highestOffset a' = highestOffset a →
  highestSegNum a' = highestSegNum a → highEmptySegNum a' = highEmptySegNum a →
  bHighEmptySegNumSet a' = bHighEmptySegNumSet a → scan1_ok (l ++ [e]) a'.
Proof.
  intros [H1 H2] He Hm E1 E2 E3 E4 E5 E6. split; rewrite E1, E2, E3, E4, ?E5, ?E6.
  - intros i x (Hx & Hh & ? & ? & ? & Hall)%H1. split; [rewrite zget_snoc; by left|]. split_and!; try done.
    intros y [Hy| ->]%elem_snoc Hyh; [by apply Hall|congruence].
  - intros Hn. destruct (H2 Hn) as (? & ? & ? & K1 & K2 & K3). split_and!; try done.
    + intros y [Hy| ->]%elem_snoc; [by apply K1|done].
    + intros y [Hy| ->]%elem_snoc ? ?; [by apply K2|]. by destruct Hm.
    + intros (x & Hx & ?)%K3. exists x. split; [rewrite elem_snoc; by left|done].
Qed.

(** An extent of the DBRoot after the others. *)
Lemma scan1_later l e a k :
  scan1_ok l a → here e = true → later e (highestPartNum a) (highestOffset a) (highestSegNum a) = true →
  scan1_ok (l ++ [e]) (mkScan1 k (Some (zlength l, e)) (blockOffset e) (partitionNum e) (segmentNum e)
                         (highEmptySegNum a) (bHighEmptySegNumSet a)).
Proof.
  intros [H1 H2] He Hl. split; cbn; [|done]. intros i x [= <- <-]. split; [apply zget_middle|]. split_and!; try done.
  apply later_iff in Hl. intros y [Hy| ->]%elem_snoc Hyh; [|right; split; [done|right; split; [done|lia]]].
  destruct (lastExtent a) as [[j z]|] eqn:Hz.
  - destruct (H1 j z eq_refl) as (_ & _ & E1 & E2 & E3 & Hall). specialize (Hall y Hy Hyh).
    rewrite E1, E2, E3 in Hl. unfold not_after in *. lia.
  - destruct (H2 eq_refl) as (_ & _ & _ & K1 & _). rewrite K1 in Hyh; done.
Qed.

(** An extent of another DBRoot in the partition asked for. *)
Lemma scan1_other l e a :
  scan1_ok l a → mine e = true → here e = false → lastExtent a = None → partitionNum e = part →
  scan1_ok (l ++ [e])
    (if (highEmptySegNum a <? segmentNum e) || negb (bHighEmptySegNumSet a)
     then mkScan1 (emptyEMEntry a) None (highestOffset a) (highestPartNum a) (highestSegNum a) (segmentNum e) true
     else a).
Proof.
  intros [H1 H2] Hm He Hn Hpt. destruct (H2 Hn) as (E1 & E2 & E3 & K1 & K2 & K3).
  assert (∀ x, x ∈ l ++ [e] → here x = false) as Hh.
  { intros x [Hx| ->]%elem_snoc; [by apply K1|done]. }
  destruct (_ || _) eqn:Hc; (split; [cbn; congruence|]); intros _; cbn; split_and!; try done.
  - intros x [Hx| ->]%elem_snoc Hxm Hxp; [|split; [done|lia]]. split; [done|]. destruct (K2 x Hx Hxm Hxp) as [Hb Hle].
    rewrite Hb in Hc. rewrite orb_false_r in Hc. zbool. lia.
  - intros _. exists e. rewrite elem_snoc. auto.
  - apply orb_false_iff in Hc as [Hc1 Hc2%negb_false_iff]. zbool.
    intros x [Hx| ->]%elem_snoc Hxm Hxp; [by apply K2|]. done.
  - intros (x & Hx & ?)%K3. exists x. rewrite elem_snoc. auto.
Qed.

Lemma scan1_spec l :
  (∀ x, x ∈ l → mine x = true → place_nonneg x) →
  scan1_ok l (scan_from (scan1_step OID dbroot part) 0 l scan1_init).
Proof.
  intros Hn. revert Hn.
  apply (scan_inv (fun pre a => (∀ x, x ∈ pre → mine x = true → place_nonneg x) → scan1_ok pre a)).
  { intros _. split; [done|]. intros _. cbn. split_and!; try done; by intros x ?%elem_of_nil. }
  intros pre e a IH Hnn.
  assert (scan1_ok pre a) as IH' by (apply IH; intros x Hx; apply Hnn; apply elem_snoc; by left).
  clear IH. rename IH' into IH. unfold scan1_step.
  destruct (em_used e) eqn:Hu.
  2: { assert (ir_size (range e) =? 0 = true) as -> by (unfold em_used in Hu; by apply negb_false_iff in Hu).
       apply (scan1_skip pre e a); try case_if; try done; unfold here, mine; rewrite Hu; done. }
  assert (ir_size (range e) =? 0 = false) as -> by (unfold em_used in Hu; by apply negb_true_iff in Hu).
  destruct (fileID e =? OID) eqn:Ho'; cbn [negb].
  2: { apply (scan1_skip pre e a); try done; unfold here, mine; rewrite Ho', andb_false_r; done. }
  assert (mine e = true) as Hm by (unfold mine; by rewrite Hu, Ho').
  destruct (Hnn e) as (Hp & Hs & Ho); [apply elem_snoc; by right|done|].
  destruct (dbRoot e =? dbroot) eqn:Hd; cbn [andb].
  - assert (here e = true) as Hh by (unfold here; by rewrite Hm, Hd).
    destruct (later _ _ _ _) eqn:Hl; [by apply scan1_later|].
    destruct (lastExtent a) as [[j z]|] eqn:Hz.
    + destruct IH as [H1 H2]. split; [|congruence]. intros i x Hx. rewrite Hz in Hx. injection Hx as <- <-.
      destruct (H1 j z Hz) as (? & ? & E1 & E2 & E3 & Hall). split; [rewrite zget_snoc; by left|]. split_and!; try done.
      intros y [Hy| ->]%elem_snoc Hyh; [by apply Hall|]. unfold not_after.
      destruct (later_iff e (highestPartNum a) (highestOffset a) (highestSegNum a)) as [_ Hlt]. rewrite Hl in Hlt. lia.
    + destruct IH as [_ H2]. destruct (H2 Hz) as (E1 & E2 & E3 & _).
      destruct (later_iff e (highestPartNum a) (highestOffset a) (highestSegNum a)) as [_ Hlt].
      rewrite E1, E2, E3 in Hlt, Hl. rewrite Hlt in Hl; [done|]. lia.
  - assert (here e = false) as Hh by (unfold here; by rewrite Hm, Hd).
    destruct (lastExtent a) as [z|] eqn:Hz; [apply (scan1_skip pre e a); try done; congruence|].
    destruct (partitionNum e =? part) eqn:Hpt; cbn [andb].
    + zbool. apply scan1_other; try done.
    + zbool. apply (scan1_skip pre e a); done.
Qed.

(** ** Second step *)

Section Step2.
Context (last : EMEntry) (Hlast : here last = true) (Hnn : place_nonneg last) (Hpart : partitionNum last < 2 ^ 32 - 1).
Abbreviation P := (partitionNum last).

(** An extent of the column in the partition of the last one, on the DBRoot. *)
Definition target (e : EMEntry) : bool := here e && (partitionNum e =? P).

Record scan2_ok (l : list EMEntry) (a : scan2) : Prop := {
  s2_high : ∀ x, x ∈ l → mine x = true → partitionNum x = P → segmentNum x ≤ partHighSeg a;
  s2_high0 : segmentNum last ≤ partHighSeg a;
  s2_high_in : partHighSeg a = segmentNum last ∨
    ∃ x, x ∈ l ∧ mine x = true ∧ partitionNum x = P ∧ segmentNum x = partHighSeg a;
  s2_next : ∀ x, x ∈ l → mine x = true → partitionNum x = P + 1 → segmentNum x ≤ partHighSegNext a;
  s2_next_in : partHighSegNext a = -1 ∨
    ∃ x, x ∈ l ∧ mine x = true ∧ partitionNum x = P + 1 ∧ segmentNum x = partHighSegNext a;
  s2_segs : ∀ x, x ∈ l → target x = true → is_Some (targetDbRootSegs a !! segmentNum x);
  s2_seg0 : ∃ o, targetDbRootSegs a !! segmentNum last = Some o ∧ blockOffset last ≤ o;
  s2_segs_in : ∀ sg, is_Some (targetDbRootSegs a !! sg) →
    sg = segmentNum last ∨ ∃ x, x ∈ l ∧ target x = true ∧ segmentNum x = sg;
}.

Lemma scan2_init : scan2_ok [] (mkScan2 (segmentNum last) (-1) {[segmentNum last := blockOffset last]} false).
Proof.
  split; cbn; try by intros x ?%elem_of_nil.
  - lia.
  - by left.
  - by left.
  - exists (blockOffset last). rewrite lookup_singleton_eq. split; [done|lia].
  - intros sg [o Ho]. apply lookup_singleton_Some in Ho as [-> _]. by left.
Qed.

(** An entry that adds nothing. *)
Lemma scan2_skip l e a :
  scan2_ok l a → (mine e = true → partitionNum e ≠ P ∧ partitionNum e ≠ P + 1) → scan2_ok (l ++ [e]) a.
Proof.
  intros [] He. assert (mine e = true → partitionNum e = P → False) as H1 by (intros Hm; destruct (He Hm); done).
  assert (mine e = true → partitionNum e = P + 1 → False) as H2 by (intros Hm; destruct (He Hm); done).
  assert (target e = false) as H3.
  { unfold target, here. destruct (mine e) eqn:Hm; cbn; [|done]. destruct (partitionNum e =? P) eqn:Hp; [|by rewrite andb_false_r].
    zbool. by destruct H1. }
  split; try done; setoid_rewrite elem_snoc.
  - intros x [Hx| ->]; [eauto|]. intros. by destruct H1.
  - destruct s2_high_in0 as [?|(x & ? & ?)]; [by left|right]. exists x. auto.
  - intros x [Hx| ->]; [eauto|]. intros. by destruct H2.
  - destruct s2_next_in0 as [?|(x & ? & ?)]; [by left|right]. exists x. auto.
  - intros x [Hx| ->]; [eauto|]. congruence.
  - intros sg [?|(x & ? & ?)]%s2_segs_in0; [by left|right]. exists x. auto.
Qed.

(** An extent of the next partition. *)
Lemma scan2_next l e a :
  scan2_ok l a → mine e = true → partitionNum e = P + 1 →
  scan2_ok (l ++ [e]) (if partHighSegNext a <? segmentNum e
    then mkScan2 (partHighSeg a) (segmentNum e) (targetDbRootSegs a) (bSegsOutOfService a) else a).
Proof.
  intros [] Hm Hp. assert (target e = false) as Ht.
  { unfold target. rewrite (proj2 (Z.eqb_neq _ _)) by lia. by rewrite andb_false_r. }
  assert (partitionNum e ≠ P) as Hne by lia. destruct (_ <? _) eqn:Hc; zbool; split; cbn; try done; setoid_rewrite elem_snoc.
  all: try (intros x [Hx| ->]; [by eauto|congruence]).
  all: try (destruct s2_high_in0 as [?|(x & ? & ?)]; [by left|right; exists x; by auto]).
  all: try (intros sg [?|(x & ? & ?)]%s2_segs_in0; [by left|right; exists x; by auto]).
  - intros x [Hx| ->] ? ?; [|lia]. specialize (s2_next0 x). naive_solver lia.
  - right. exists e. auto.
  - destruct s2_next_in0 as [?|(x & ? & ?)]; [by left|right; exists x; by auto].
Qed.

(** The map of segment files after an extent of the partition on the DBRoot. *)
Definition add_target (e : EMEntry) (segs : gmap Z Z) : gmap Z Z :=
  match segs !! segmentNum e with
  | None => <[segmentNum e := blockOffset e]> segs
  | Some off => if off <? blockOffset e then <[segmentNum e := blockOffset e]> segs else segs
  end.

Lemma add_target_keys e segs sg : is_Some (add_target e segs !! sg) ↔ sg = segmentNum e ∨ is_Some (segs !! sg).
Proof.
  unfold add_target. destruct (segs !! segmentNum e) as [o|] eqn:He; [case_if|].
  - rewrite lookup_insert_is_Some. destruct (decide (sg = segmentNum e)); naive_solver.
  - split; [by right|]. intros [-> |?]; [by eexists|done].
  - rewrite lookup_insert_is_Some. destruct (decide (sg = segmentNum e)); naive_solver.
Qed.

Lemma add_target_le e segs sg o :
  segs !! sg = Some o → ∃ o', add_target e segs !! sg = Some o' ∧ o ≤ o'.
Proof.
  intros Ho. unfold add_target. destruct (decide (sg = segmentNum e)) as [->|Hne].
  - rewrite Ho. case_if; [rewrite lookup_insert_eq|]; eexists; split; try done; zbool; lia.
  - exists o. split; [|lia]. destruct (segs !! segmentNum e); [case_if|]; by rewrite ?lookup_insert_ne.
Qed.

(** An extent of the partition. *)
Lemma scan2_part l e a oos :
  scan2_ok l a → mine e = true → partitionNum e = P →
  let high := if partHighSeg a <? segmentNum e then segmentNum e else partHighSeg a in
  scan2_ok (l ++ [e])
    (if dbRoot e =? dbroot then mkScan2 high (partHighSegNext a) (add_target e (targetDbRootSegs a)) oos
     else mkScan2 high (partHighSegNext a) (targetDbRootSegs a) (bSegsOutOfService a)).
Proof.
  intros [] Hm Hp high. assert (target e = (dbRoot e =? dbroot)) as Ht.
  { unfold target, here. rewrite Hm, Hp, Z.eqb_refl. by rewrite andb_true_r. }
  assert (partitionNum e ≠ P + 1) as Hne by lia.
  assert (segmentNum e ≤ high ∧ partHighSeg a ≤ high ∧ (high = segmentNum e ∨ high = partHighSeg a)) as (Hh1 & Hh2 & Hh3).
  { unfold high. case_if; zbool; lia. }
  assert (∀ x, x ∈ l ++ [e] → mine x = true → partitionNum x = P → segmentNum x ≤ high) as G1.
  { intros x [Hx| ->]%elem_snoc ? ?; [|done]. specialize (s2_high1 x). naive_solver lia. }
  assert (high = segmentNum last ∨ ∃ x, x ∈ l ++ [e] ∧ mine x = true ∧ partitionNum x = P ∧ segmentNum x = high) as G2.
  { setoid_rewrite elem_snoc. destruct Hh3 as [->|Hh3]; [right; exists e; auto|].
    destruct s2_high_in0 as [?|(x & ? & ? & ? & ?)]; [left; lia|right]. exists x. split_and!; auto. lia. }
  assert (∀ x, x ∈ l ++ [e] → mine x = true → partitionNum x = P + 1 → segmentNum x ≤ partHighSegNext a) as G3.
  { intros x [Hx| ->]%elem_snoc ? ?; [by apply s2_next0|done]. }
  assert (partHighSegNext a = -1 ∨ ∃ x, x ∈ l ++ [e] ∧ mine x = true ∧ partitionNum x = P + 1 ∧ segmentNum x = partHighSegNext a) as G4.
  { setoid_rewrite elem_snoc. destruct s2_next_in0 as [?|(x & ? & ?)]; [by left|right; exists x; auto]. }
  destruct (dbRoot e =? dbroot) eqn:Hd; split; cbn; try done; try lia.
  - intros x Hx Hxt. apply add_target_keys. apply elem_snoc in Hx as [Hx| ->]; [right; by apply s2_segs0|by left].
  - destruct s2_seg1 as (o & Ho & Hle). destruct (add_target_le e _ _ _ Ho) as (o' & ? & ?). exists o'. split; [done|lia].
  - setoid_rewrite elem_snoc. intros sg [->|[?|(x & ? & ?)]%s2_segs_in0]%add_target_keys; [|by left|].
    + right. exists e. auto.
    + right. exists x. auto.
  - intros x [Hx| ->]%elem_snoc Hxt; [by apply s2_segs0|congruence].
  - setoid_rewrite elem_snoc. intros sg [?|(x & ? & ?)]%s2_segs_in0; [by left|right; exists x; auto].
Qed.

Lemma scan2_spec l :
  scan2_ok l (scan_from (scan2_step OID dbroot P) 0 l
    (mkScan2 (segmentNum last) (-1) {[segmentNum last := blockOffset last]} false)).
Proof using Hnn Hpart.
  apply (scan_inv scan2_ok); [apply scan2_init|]. intros pre e a IH. unfold scan2_step.
  destruct ((ir_size (range e) =? 0) || negb (fileID e =? OID)) eqn:Hc.
  { apply scan2_skip; [done|]. unfold mine, em_used. destruct (ir_size (range e) =? 0), (fileID e =? OID); done. }
  assert (mine e = true) as Hm by (unfold mine, em_used; by destruct (ir_size (range e) =? 0), (fileID e =? OID)).
  rewrite wrap_u_small by (destruct Hnn; lia). destruct (partitionNum e =? P + 1) eqn:H1.
  { zbool. by apply scan2_next. }
  destruct (partitionNum e =? P) eqn:H2; [zbool; by apply scan2_part|]. zbool. by apply scan2_skip.
Qed.
End Step2.

(** ** Third step *)

Record targets_ok (seg : Z) (ks : list Z) (t : target_segs) : Prop := {
  t_first : firstTargetSeg t = seg ∨ firstTargetSeg t ∈ ks;
  t_first_le : firstTargetSeg t ≤ seg;
  t_last_ge : seg ≤ lastTargetSeg t;
  t_last_all : ∀ k, k ∈ ks → k ≤ lastTargetSeg t;
  t_last : lastTargetSeg t = seg ∨ lastTargetSeg t ∈ ks;
  t_next : ∀ n, nextTargetSeg t = Some n → n ∈ ks ∧ seg < n;
  t_none : nextTargetSeg t = None → ∀ k, k ∈ ks → k ≤ seg;
}.

Lemma find_targets_ok seg ks : targets_ok seg ks (foldl (target_step seg) (mkTargets seg seg None) ks).
Proof.
  induction ks as [|k ks [H1 H2 H3 H4 H5 H6 H7]] using rev_ind.
  { split; cbn; try lia; try by left.
    - intros k Hk. by apply elem_of_nil in Hk.
    - done.
    - intros _ k Hk. by apply elem_of_nil in Hk. }
  rewrite foldl_snoc. set (t := foldl _ _ ks) in *. unfold target_step. split; cbn; try setoid_rewrite elem_snoc.
  - case_if; [auto|naive_solver].
  - case_if; zbool; lia.
  - repeat case_if; zbool; lia.
  - intros j [Hj| ->]; [specialize (H4 j Hj)|]; repeat case_if; zbool; lia.
  - repeat case_if; naive_solver.
  - intros n. repeat case_if; zbool; repeat case_match; repeat case_if; intros; simplify_eq; auto; naive_solver.
  - repeat case_if; zbool; repeat case_match; repeat case_if; intros; simplify_eq. naive_solver.
Qed.

Lemma find_targets_spec seg segs :
  is_Some (segs !! seg) → let t := find_targets seg segs in
  is_Some (segs !! firstTargetSeg t) ∧
  (seg ≠ lastTargetSeg t → ∃ n, nextTargetSeg t = Some n ∧ is_Some (segs !! n) ∧ seg < n).
Proof.
  intros Hs. cbn zeta. unfold find_targets. set (ks := fst <$> map_to_list segs).
  assert (∀ k, k ∈ ks ↔ is_Some (segs !! k)) as Hk.
  { intros k. unfold ks. rewrite list_elem_of_fmap. split.
    - intros ([k' v] & -> & Hv). apply elem_of_map_to_list in Hv. by exists v.
    - intros [v Hv]. exists (k, v). split; [done|]. by apply elem_of_map_to_list. }
  destruct (find_targets_ok seg ks). set (t := foldl _ _ ks) in *. split.
  - destruct t_first0 as [->|?]; [done|]. by apply Hk.
  - intros Hne. destruct (nextTargetSeg t) as [n|] eqn:Hn.
    + destruct (t_next0 n eq_refl) as [Hin ?]. exists n. rewrite <- Hk. done.
    + destruct t_last0 as [?|Hin]; [congruence|]. specialize (t_none0 eq_refl _ Hin). lia.
Qed.

(** A file the column does not have, or a place in a file on the DBRoot that no
    extent has, at the offset of an extent of the DBRoot or just after it. *)
Definition place_free (l : list EMEntry) (pl : place) : Prop :=
  (pl_offset pl = 0 ∧ ∀ x, x ∈ l → mine x = true → partitionNum x = pl_part pl → segmentNum x ≠ pl_seg pl) ∨
  ((∃ y, y ∈ l ∧ here y = true ∧ partitionNum y = pl_part pl ∧ segmentNum y = pl_seg pl) ∧
   (∀ x, x ∈ l → here x = true → partitionNum x = pl_part pl → segmentNum x = pl_seg pl → blockOffset x ≠ pl_offset pl) ∧
   ∃ z, z ∈ l ∧ here z = true ∧
     (pl_offset pl = blockOffset z ∨ pl_offset pl = blockOffset z + ir_size (range z) * 1024)).

Definition place_in_range (pl : place) : Prop :=
  0 ≤ pl_part pl < 2 ^ 32 ∧ 0 ≤ pl_seg pl < 2 ^ 16 ∧ 0 ≤ pl_offset pl.

(** The place comes after the extent in the order of creation. *)
Definition place_after (e : EMEntry) (pl : place) : Prop :=
  partitionNum e < pl_part pl ∨
  (partitionNum e = pl_part pl ∧
    (blockOffset e < pl_offset pl ∨ (blockOffset e = pl_offset pl ∧ segmentNum e < pl_seg pl))).

(** The numbers of the next extent fit their types. *)
Definition room_after (e : EMEntry) : Prop :=
  partitionNum e < 2 ^ 32 - 1 ∧ segmentNum e < 2 ^ 16 - 1 ∧
  0 < ir_size (range e) ∧ blockOffset e + ir_size (range e) * 1024 < 2 ^ 32.

Section Next.
Context (l : list EMEntry) (last : EMEntry) (a : scan2).
Context (Hl : last ∈ l) (Hlast : here last = true) (Hmax : ∀ x, x ∈ l → here x = true → not_after x last).
Context (Hnn : ∀ x, x ∈ l → mine x = true → place_nonneg x) (Hroom : ∀ x, x ∈ l → mine x = true → room_after x) (Ha : scan2_ok last l a).

Lemma here_mine x : here x = true → mine x = true.
Proof. unfold here. by intros [? _]%andb_true_iff. Qed.

(** The highest segments leave room for one more. *)
Lemma high_bound : 0 ≤ partHighSeg a < 2 ^ 16 - 1.
Proof using All.
  destruct (s2_high_in _ _ _ Ha) as [->|(x & Hx & Hm & _ & <-)].
  - pose proof (Hnn last Hl (here_mine _ Hlast)) as (_ & ? & _). destruct (Hroom last Hl (here_mine _ Hlast)) as (_ & ? & _). done.
  - pose proof (Hnn x Hx Hm) as (_ & ? & _). destruct (Hroom x Hx Hm) as (_ & ? & _). done.
Qed.

Lemma next_bound : -1 ≤ partHighSegNext a < 2 ^ 16 - 1.
Proof using All.
  destruct (s2_next_in _ _ _ Ha) as [->|(x & Hx & Hm & _ & <-)]; [done|].
  pose proof (Hnn x Hx Hm) as (_ & ? & _). destruct (Hroom x Hx Hm) as (_ & ? & _). lia.
Qed.

(** A segment of the partition on the DBRoot. *)
Lemma seg_target sg : is_Some (targetDbRootSegs a !! sg) →
  ∃ y, y ∈ l ∧ here y = true ∧ partitionNum y = partitionNum last ∧ segmentNum y = sg.
Proof using All.
  intros [->|(x & Hx & Ht & <-)]%(s2_segs_in _ _ _ Ha); [by exists last|].
  apply andb_true_iff in Ht as [? ?]. zbool. by exists x.
Qed.

(** The four outcomes. *)
Lemma next_new_partition :
  let pl := mkPlace (u32 (partitionNum last + 1))
              (if partHighSegNext a =? -1 then 0 else u16 (partHighSegNext a + 1)) 0 in
  place_free l pl ∧ place_in_range pl ∧ place_after last pl.
Proof using All.
  destruct (Hnn last Hl (here_mine _ Hlast)) as (Hn1 & _). destruct (Hroom last Hl (here_mine _ Hlast)) as (Hr1 & _).
  pose proof next_bound as Hx. rewrite (wrap_u_small 32) by lia.
  assert ((if partHighSegNext a =? -1 then 0 else u16 (partHighSegNext a + 1)) = partHighSegNext a + 1) as ->.
  { case_if; zbool; [lia|]. by rewrite wrap_u_small by lia. }
  split; [left; split; [done|]|unfold place_in_range, place_after; cbn; lia].
  intros x Hxl Hm Hp. pose proof (s2_next _ _ _ Ha x Hxl Hm Hp). cbn. lia.
Qed.

Lemma next_new_file :
  blockOffset last = 0 →
  let pl := mkPlace (partitionNum last) (u16 (partHighSeg a + 1)) 0 in
  place_free l pl ∧ place_in_range pl ∧ place_after last pl.
Proof using All.
  intros H0. pose proof (s2_high0 _ _ _ Ha) as Hh0.
  destruct (Hnn last Hl (here_mine _ Hlast)) as (Hn1 & _). destruct (Hroom last Hl (here_mine _ Hlast)) as (Hr1 & _).
  pose proof high_bound as Hh. rewrite wrap_u_small by lia.
  split; [left; split; [done|]|unfold place_in_range, place_after; cbn; lia].
  intros x Hxl Hm Hp. pose proof (s2_high _ _ _ Ha x Hxl Hm Hp). cbn. lia.
Qed.

(** An offset not lower than any of the file. *)
Lemma next_old_file sg off :
  is_Some (targetDbRootSegs a !! sg) → off = blockOffset last ∨ off = blockOffset last + ir_size (range last) * 1024 →
  blockOffset last < off ∨ (blockOffset last = off ∧ segmentNum last < sg) →
  let pl := mkPlace (partitionNum last) sg off in place_free l pl ∧ place_in_range pl ∧ place_after last pl.
Proof using All.
  intros Hs Ho Hf. destruct (Hnn last Hl (here_mine _ Hlast)) as (Hn1 & _ & Hn3). destruct (Hroom last Hl (here_mine _ Hlast)) as (Hr1 & _ & Hr3 & _).
  destruct (seg_target sg Hs) as (y & Hy & Hyh & Hyp & <-). split.
  - right. split; [by exists y|]. split; [|by exists last]. intros x Hx Hxh. cbn.
    specialize (Hmax x Hx Hxh). unfold not_after in Hmax. lia.
  - pose proof (Hnn y Hy (here_mine _ Hyh)) as (_ & ? & _). destruct (Hroom y Hy (here_mine _ Hyh)) as (_ & ? & _).
    unfold place_in_range, place_after. cbn. lia.
Qed.

Lemma next_place_spec :
  let pl := next_place cfg colWidth last a in place_free l pl ∧ place_in_range pl ∧ place_after last pl.
Proof using All.
  destruct (Hnn last Hl (here_mine _ Hlast)) as (Hn1 & Hn2 & Hn3). destruct (Hroom last Hl (here_mine _ Hlast)) as (Hr1 & Hr2 & Hr3 & Hr4).
  destruct (s2_seg0 _ _ _ Ha) as (o & Ho & Hle).
  destruct (find_targets_spec (segmentNum last) (targetDbRootSegs a)) as [Hfirst Hnext]; [by eexists|].
  unfold next_place. set (t := find_targets _ _) in *.
  destruct (bSegsOutOfService a || _) eqn:Hskip; cbn [orb]; [apply next_new_partition|].
  apply orb_false_iff in Hskip as [_ Hskip]. destruct (_ <=? _) eqn:Hfull; cbn [andb].
  - destruct (segmentNum last =? lastTargetSeg t) eqn:Hsl; cbn [andb].
    + destruct (blockOffset last =? _); cbn [negb andb]; [apply next_new_partition|].
      rewrite Z.ltb_irrefl, andb_false_r, wrap_u_small by lia. rewrite Z.add_comm.
      apply next_old_file; [done|by right|]. left. lia.
    + zbool. destruct (Hnext Hsl) as (n & -> & Hn & Hlt). cbn [negb default id andb].
      assert ((if (blockOffset last =? 0) && (firstTargetSeg t <? n) then 0 else blockOffset last) = blockOffset last) as ->.
      { case_if; zbool; lia. }
      apply next_old_file; [done|by left|]. by right.
  - cbn [negb andb]. assert (blockOffset last = 0) as H0.
    { rewrite (proj2 (Z.ltb_lt _ _)) in Hskip by (zbool; lia). cbn in Hskip.
      destruct (decide (0 < o)) as [Hpos|]; [|lia]. exfalso. assert (existsb (fun kv => 0 <? kv.2) (map_to_list (targetDbRootSegs a)) = true) as He.
      { apply existsb_exists. exists (segmentNum last, o). split; [|cbn; zbool; lia].
        by apply list_elem_of_In, elem_of_map_to_list. }
      congruence. }
    rewrite H0. cbn [Z.eqb andb]. assert (∀ b : bool, (if b then 0 else 0) = 0) as -> by by intros [].
    by apply next_new_file.
Qed.
End Next.

(** The place chosen. *)
Lemma choose_place_spec l :
  (∀ x, x ∈ l → mine x = true → place_nonneg x) → (∀ x, x ∈ l → mine x = true → room_after x) → 0 ≤ part < 2 ^ 32 →
  let pl := choose_place cfg OID colWidth dbroot part l in
  place_free l pl ∧ place_in_range pl ∧ ∀ x, x ∈ l → here x = true → place_after x pl.
Proof.
  intros Hnn Hroom Hpart. unfold choose_place. destruct (scan1_spec l Hnn) as [H1 H2].
  destruct (lastExtent _) as [[i last]|] eqn:Hlast.
  - destruct (H1 i last eq_refl) as (Hi & Hh & _ & _ & _ & Hmax).
    assert (last ∈ l) as Hl by (apply zget_elem_of; eauto).
    set (a := scan_from (scan2_step _ _ _) _ _ _). assert (scan2_ok last l a) as Ha; [apply scan2_spec|].
    + by apply (Hnn last Hl), here_mine.
    + by apply (Hroom last Hl), here_mine.
    + destruct (next_place_spec l last a) as (Hfree & Hin & Haft); try done. split; [done|]. split; [done|].
      intros x Hx Hxh. specialize (Hmax x Hx Hxh). unfold not_after, place_after in *. lia.
  - destruct (H2 eq_refl) as (_ & _ & _ & Hn & Hhigh & Hin). unfold first_place.
    set (a := scan_from _ _ _ _) in *. destruct (bHighEmptySegNumSet a) eqn:Hb.
    + destruct (Hin eq_refl) as (x & Hx & Hm & Hp & Hs). destruct (Hroom x Hx Hm) as (_ & Hr & _).
      pose proof (Hnn x Hx Hm) as (_ & ? & _). rewrite wrap_u_small by lia.
      split; [left; split; [done|]|split; [unfold place_in_range; cbn; lia|intros y Hy Hyh; by rewrite Hn in Hyh]].
      intros y Hy Hym Hyp. destruct (Hhigh y Hy Hym Hyp). cbn. lia.
    + split; [left; split; [done|]|split; [unfold place_in_range; cbn; lia|intros y Hy Hyh; by rewrite Hn in Hyh]]. intros y Hy Hym Hyp.
      destruct (Hhigh y Hy Hym Hyp). done.
Qed.
End Place.
