(* ===== verification/EmLayout.v ===== *)
(** * The files of the columns ([extentmap.cpp])

    No two extents share a block of a file: the layout of the extents of a
    column, that every way to create an extent keeps it, and that the lookups
    from LBIDs to places and back are inverse to each other. *)

From S2P Require Import Prelude Undo Table Vbbm Vss ColType ExtentMap EmCp EmCreate EmDelete EmQuery EmSpace EmFree EmInv EmKeeps EmPlace.

(** ** The layout *)

Definition file_of (e : EMEntry) : Z * Z * Z := (fileID e, partitionNum e, segmentNum e).
Definition place_of (e : EMEntry) : Z * Z * Z * Z := (file_of e, blockOffset e).

(** The extents of a column have one size and lie at multiples of it; a file is on
    one DBRoot; no two extents have the same place. *)
Record file_layout (l : list EMEntry) : Prop := mkLayout {
  ly_nonneg : Forall place_nonneg l;
  ly_size : ∀ e1 e2, e1 ∈ l → e2 ∈ l → fileID e1 = fileID e2 → ir_size (range e1) = ir_size (range e2);
  ly_align : ∀ e, e ∈ l → blockOffset e mod (ir_size (range e) * 1024) = 0;
  ly_root : ∀ e1 e2, e1 ∈ l → e2 ∈ l → file_of e1 = file_of e2 → dbRoot e1 = dbRoot e2;
  ly_places : NoDup (place_of <$> l);
}.

Lemma layout_perm l l' : l ≡ₚ l' → file_layout l → file_layout l'.
Proof.
  intros Hp [H1 H2 H3 H4 H5]. split.
  - by rewrite <- Hp.
  - intros e1 e2. rewrite <- Hp. apply H2.
  - intros e. rewrite <- Hp. apply H3.
  - intros e1 e2. rewrite <- Hp. apply H4.
  - by rewrite <- Hp.
Qed.

(** One more extent. *)
Lemma layout_cons e l :
  file_layout l → place_nonneg e →
  (∀ x, x ∈ l → fileID x = fileID e → ir_size (range x) = ir_size (range e)) →
  blockOffset e mod (ir_size (range e) * 1024) = 0 →
  (∀ x, x ∈ l → file_of x = file_of e → dbRoot x = dbRoot e ∧ blockOffset x ≠ blockOffset e) →
  file_layout (e :: l).
Proof.
  intros [H1 H2 H3 H4 H5] Hn Hs Ha Hf. split.
  - by constructor.
  - intros x y [->|Hx]%elem_of_cons [->|Hy]%elem_of_cons Heq; [done|symmetry; by apply Hs|by apply Hs|by apply H2].
  - intros x [->|Hx]%elem_of_cons; [done|by apply H3].
  - intros x y [->|Hx]%elem_of_cons [->|Hy]%elem_of_cons Heq; [done|symmetry; by apply Hf|by apply Hf|by apply H4].
  - cbn. constructor; [|done]. intros (x & Hx & Hin)%list_elem_of_fmap. injection Hx as ? ? ? Ho.
    destruct (Hf x Hin) as [_ Hne]; [unfold file_of; congruence|congruence].
Qed.

Lemma place_inj l x y : NoDup (place_of <$> l) → x ∈ l → y ∈ l → place_of x = place_of y → x = y.
Proof.
  intros Hnd [i Hi]%list_elem_of_lookup [j Hj]%list_elem_of_lookup Heq.
  assert (i = j) as ->; [|congruence]. eapply (NoDup_lookup _ i j (place_of x) Hnd); rewrite list_lookup_fmap.
  - by rewrite Hi.
  - by rewrite Hj, Heq.
Qed.

(** Extents of a file do not overlap. *)
Lemma layout_disjoint l x y fbo :
  file_layout l → x ∈ l → y ∈ l → file_of x = file_of y → 0 < ir_size (range x) →
  blockOffset x ≤ fbo < blockOffset x + ir_size (range x) * 1024 →
  blockOffset y ≤ fbo < blockOffset y + ir_size (range y) * 1024 → x = y.
Proof.
  intros [H1 H2 H3 H4 H5] Hx Hy Hf Hz Bx By.
  assert (ir_size (range x) = ir_size (range y)) as Hs by (apply H2; try done; unfold file_of in Hf; congruence).
  apply (place_inj l); try done. unfold place_of. rewrite Hf. f_equal.
  pose proof (H3 x Hx) as Ax. pose proof (H3 y Hy) as Ay. rewrite <- Hs in *.
  set (n := ir_size (range x) * 1024) in *. assert (0 < n) by lia.
  assert (fbo / n = blockOffset x / n) as E1.
  { apply Z.div_exact in Ax; [|lia]. rewrite Ax in Bx.
    symmetry. apply (Z.div_unique _ _ _ (fbo - n * (blockOffset x / n))); lia. }
  assert (fbo / n = blockOffset y / n) as E2.
  { apply Z.div_exact in Ay; [|lia]. rewrite Ay in By.
    symmetry. apply (Z.div_unique _ _ _ (fbo - n * (blockOffset y / n))); lia. }
  apply Z.div_exact in Ax, Ay; lia.
Qed.

(** ** Creating keeps the layout *)

(** The column has room for another extent, and extents of [w] units. *)
Definition column_room (OID w : Z) (l : list EMEntry) : Prop :=
  ∀ x, x ∈ l → fileID x = OID → ir_size (range x) = w ∧ room_after x.

Lemma live_elem m l x : List.filter em_used l = live m → x ∈ l → em_used x = true → x ∈ live m.
Proof. intros <- Hx Hu. apply list_elem_of_In, filter_In. split; [by apply list_elem_of_In|done]. Qed.

Lemma elem_live m x : x ∈ live m → em_used x = true.
Proof. intros Hx%list_elem_of_In%filter_In. by destruct Hx. Qed.

Lemma filter_elem l m x : List.filter em_used l = live m → x ∈ live m → x ∈ l.
Proof. intros <- Hx%list_elem_of_In%filter_In. destruct Hx. by apply list_elem_of_In. Qed.

Lemma mine_live OID m l x : List.filter em_used l = live m → x ∈ l → mine OID x = true → x ∈ live m ∧ fileID x = OID.
Proof. intros Hl Hx [Hu Ho]%andb_true_iff. zbool. split; [by eapply live_elem|done]. Qed.

Lemma live_mine OID m x : x ∈ live m → fileID x = OID → mine OID x = true.
Proof. intros Hx <-. unfold mine. by rewrite (elem_live m x), Z.eqb_refl. Qed.

(** The entry for a free place. *)
Lemma layout_new OID w dbroot lbid t pl m l :
  file_layout (live m) → column_room OID w (live m) → 0 < w → List.filter em_used l = live m →
  place_free OID dbroot l pl → place_in_range pl →
  file_layout (column_entry lbid w OID w dbroot t pl :: live m).
Proof.
  intros Hly Hcr Hw Hl Hfree (Hp & Hs & Ho). apply layout_cons; try done.
  - split_and!; cbn; lia.
  - intros x Hx Hf. cbn in *. by apply Hcr.
  - cbn. destruct Hfree as [[-> _]|(_ & _ & z & Hz & Hzh & Hoff)]; [by rewrite Z.mod_0_l by lia|].
    destruct (mine_live OID m l z Hl Hz (here_mine _ _ _ Hzh)) as [Hzl Hzo]. destruct (Hcr z Hzl Hzo) as [Hsz _].
    pose proof (ly_align _ Hly z Hzl) as Haz. rewrite Hsz in Haz, Hoff. destruct Hoff as [-> | ->]; [done|].
    rewrite Z.add_mod, Haz, Z.mod_same by lia. done.
  - intros x Hx Hf. unfold file_of in Hf. cbn in Hf. injection Hf as Hxo Hxp Hxs. cbn.
    pose proof (filter_elem _ _ _ Hl Hx) as Hxl. pose proof (live_mine OID m x Hx Hxo) as Hxm.
    destruct Hfree as [[_ Hnew]|((y & Hy & Hyh & Hyp & Hys) & Hno & _)]; [by destruct (Hnew x Hxl Hxm)|].
    destruct (mine_live OID m l y Hl Hy (here_mine _ _ _ Hyh)) as [Hyl Hyo].
    assert (dbRoot x = dbRoot y) as Hr by (apply (ly_root _ Hly); try done; unfold file_of; congruence).
    apply andb_true_iff in Hyh as [_ Hyd]. zbool. split; [congruence|].
    apply Hno; try done. unfold here. rewrite Hxm. cbn. rewrite Hr. by apply Z.eqb_eq.
Qed.

Lemma layout_created cfg OID w dbroot t part lbid m m' l :
  dbRootCount cfg ≠ 0 → file_layout (live m) → column_room OID w (live m) → 0 < w → 0 ≤ part < 2 ^ 32 →
  List.filter em_used l = live m →
  new_extent (column_entry lbid w OID w dbroot t (choose_place cfg OID w dbroot part l)) m m' → file_layout (live m').
Proof.
  intros Hc Hly Hcr Hw Hpart Hl [_ Hp]. apply (layout_perm _ _ (symmetry Hp)).
  destruct (choose_place_spec cfg OID w dbroot part l) as (Hfree & Hin & _); [| |done|by eapply layout_new].
  - intros x Hx [Hxl _]%(mine_live OID m l x Hl Hx). pose proof (ly_nonneg _ Hly) as Hn. rewrite Forall_forall in Hn. by apply Hn.
  - intros x Hx [Hxl Ho]%(mine_live OID m l x Hl Hx). by apply Hcr.
Qed.

(** The extent of the file with the highest offset. *)
Lemma find_file_spec p l :
  (∀ x, x ∈ l → em_used x = true → p x = true → 0 ≤ blockOffset x) →
  match sf_last (find_file p l) with
  | None => ∀ x, x ∈ l → em_used x = true → p x = false
  | Some e => e ∈ l ∧ em_used e = true ∧ p e = true ∧
      ∀ x, x ∈ l → em_used x = true → p x = true → blockOffset x ≤ blockOffset e
  end.
Proof.
  intros Hn. assert (match sf_last (find_file p l) with
    | None => sf_offset (find_file p l) = 0 ∧ ∀ x, x ∈ l → em_used x = true → p x = false
    | Some e => sf_offset (find_file p l) = blockOffset e ∧ e ∈ l ∧ em_used e = true ∧ p e = true ∧
        ∀ x, x ∈ l → em_used x = true → p x = true → blockOffset x ≤ blockOffset e
    end) as H; [|by destruct (sf_last _); destruct H].
  revert Hn. unfold find_file. apply (scan_inv (fun pre a =>
    (∀ x, x ∈ pre → em_used x = true → p x = true → 0 ≤ blockOffset x) →
    match sf_last a with
    | None => sf_offset a = 0 ∧ ∀ x, x ∈ pre → em_used x = true → p x = false
    | Some e => sf_offset a = blockOffset e ∧ e ∈ pre ∧ em_used e = true ∧ p e = true ∧
        ∀ x, x ∈ pre → em_used x = true → p x = true → blockOffset x ≤ blockOffset e
    end)).
  { intros _. split; [done|]. intros x Hx. by apply elem_of_nil in Hx. }
  intros pre e a IH Hnn. assert (∀ x, x ∈ pre → em_used x = true → p x = true → 0 ≤ blockOffset x) as Hpre.
  { intros x Hx. apply Hnn, elem_snoc. by left. }
  specialize (IH Hpre). unfold scan_file_step. destruct (em_used e) eqn:Hu.
  2: { assert (ir_size (range e) =? 0 = true) as -> by (unfold em_used in Hu; by apply negb_false_iff in Hu).
       assert (∀ b : bool, sf_last (if b then mkScanF (zlength pre) (sf_last a) (sf_offset a) else a) = sf_last a ∧
         sf_offset (if b then mkScanF (zlength pre) (sf_last a) (sf_offset a) else a) = sf_offset a) as Hb by by intros [].
       destruct (Hb (sf_empty a <? 0)) as [-> ->]. destruct (sf_last a) as [z|].
       - destruct IH as (? & ? & ? & ? & Hm). split_and!; try done; [apply elem_snoc; by left|].
         intros x [Hx| ->]%elem_snoc; [by apply Hm|congruence].
       - destruct IH as [? Hm]. split; [done|]. intros x [Hx| ->]%elem_snoc; [by apply Hm|congruence]. }
  assert (ir_size (range e) =? 0 = false) as -> by (unfold em_used in Hu; by apply negb_true_iff in Hu).
  destruct (p e) eqn:Hp; cbn [andb].
  2: { destruct (sf_last a) as [z|].
       - destruct IH as (? & ? & ? & ? & Hm). split_and!; try done; [apply elem_snoc; by left|].
         intros x [Hx| ->]%elem_snoc; [by apply Hm|congruence].
       - destruct IH as [? Hm]. split; [done|]. intros x [Hx| ->]%elem_snoc; [by apply Hm|congruence]. }
  assert (0 ≤ blockOffset e) as He by (apply Hnn; [apply elem_snoc; by right|done..]).
  destruct (sf_offset a <=? blockOffset e) eqn:Hc; zbool; cbn.
  - split_and!; try done; [apply elem_snoc; by right|]. intros x [Hx| ->]%elem_snoc Hxu Hxp; [|lia].
    destruct (sf_last a) as [z|].
    + destruct IH as (Hz & _ & _ & _ & Hm). specialize (Hm x Hx Hxu Hxp). lia.
    + destruct IH as [_ Hm]. by rewrite Hm in Hxp.
  - destruct (sf_last a) as [z|]; [|destruct IH; lia].
    destruct IH as (? & ? & ? & ? & Hm). split_and!; try done; [apply elem_snoc; by left|].
    intros x [Hx| ->]%elem_snoc; [by apply Hm|lia].
Qed.

(** An extent at the end of a file. *)
Lemma layout_end p e m l :
  file_layout (live m) → List.filter em_used l = live m → 0 < ir_size (range e) →
  column_room (fileID e) (ir_size (range e)) (live m) → 0 ≤ partitionNum e → 0 ≤ segmentNum e →
  (∀ x, x ∈ live m → p x = true ↔ file_of x = file_of e) →
  (∀ x, x ∈ live m → file_of x = file_of e → dbRoot x = dbRoot e) →
  blockOffset e = end_offset (sf_last (find_file p l)) → file_layout (e :: live m).
Proof.
  intros Hly Hl Hz Hcr Hp Hs Hpf Hroot Ho. pose proof (ly_nonneg _ Hly) as Hnn. rewrite Forall_forall in Hnn.
  assert (∀ x, x ∈ l → em_used x = true → p x = true → 0 ≤ blockOffset x) as Hoff.
  { intros x Hx Hu _. by apply Hnn, (live_elem m l). }
  pose proof (find_file_spec p l Hoff) as Hspec. unfold end_offset in Ho. destruct (sf_last _) as [z|].
  - destruct Hspec as (Hzl & Hzu & Hzp & Hmax). assert (z ∈ live m) as Hzm by by apply (live_elem m l).
    pose proof (proj1 (Hpf z Hzm) Hzp) as Hzf. assert (fileID z = fileID e) as Hzo by (unfold file_of in Hzf; congruence).
    destruct (Hcr z Hzm Hzo) as [Hzs (_ & _ & _ & Hr)]. pose proof (Hnn z Hzm) as (_ & _ & Hz0).
    rewrite wrap_u_small in Ho by lia. apply layout_cons; try done.
    + split_and!; [done..|lia].
    + intros x Hx Hf. by apply Hcr.
    + rewrite Ho, Hzs. pose proof (ly_align _ Hly z Hzm) as Ha. rewrite Hzs in Ha.
      rewrite Z.add_mod, Ha, Z.mod_same by lia. done.
    + intros x Hx Hf. split; [by apply Hroot|]. assert (blockOffset x ≤ blockOffset z); [|lia].
      apply Hmax; [by eapply filter_elem|by eapply elem_live|by apply Hpf].
  - apply layout_cons; try done.
    + split_and!; [done..|lia].
    + intros x Hx Hf. by apply Hcr.
    + rewrite Ho, Z.mod_0_l by lia. done.
    + intros x Hx Hf. exfalso. apply Hpf in Hf; [|done]. rewrite Hspec in Hf; [done|by eapply filter_elem|by eapply elem_live].
Qed.

(** [ExtentMap::createColumnExtentExactFile] in a file that is on the DBRoot, if
    the column has it. *)
Lemma layout_exact OID w dbroot part seg t lbid m m' l :
  let pl := mkPlace part seg (end_offset (sf_last (find_file (in_column_file OID dbroot part seg) l))) in
  file_layout (live m) → column_room OID w (live m) → 0 < w → 0 ≤ part → 0 ≤ seg → List.filter em_used l = live m →
  (∀ x, x ∈ live m → file_of x = (OID, part, seg) → dbRoot x = dbroot) →
  new_extent (column_entry lbid w OID w dbroot t pl) m m' → file_layout (live m').
Proof.
  intros pl Hly Hcr Hw Hp Hs Hl Hroot [_ Hperm]. apply (layout_perm _ _ (symmetry Hperm)).
  apply (layout_end (in_column_file OID dbroot part seg) _ m l); try done.
  intros x Hx. unfold in_column_file, file_of. cbn. rewrite !andb_true_iff, !Z.eqb_eq. split.
  - intros (((-> & _) & ->) & ->). done.
  - intros [= H1 H2 H3]. split_and!; try done. apply Hroot; [done|]. unfold file_of. congruence.
Qed.

(** [ExtentMap::createDictStoreExtent] *)
Lemma layout_dict OID dbroot part seg lbid m m' l :
  file_layout (live m) → column_room OID 8 (live m) → 0 ≤ part → 0 ≤ seg → List.filter em_used l = live m →
  new_extent (dict_entry lbid 8 OID dbroot part seg (sf_last (find_file (in_dict_file OID part seg) l))) m m' →
  file_layout (live m').
Proof.
  intros Hly Hcr Hp Hs Hl [_ Hperm]. apply (layout_perm _ _ (symmetry Hperm)).
  pose proof (ly_nonneg _ Hly) as Hnn. rewrite Forall_forall in Hnn.
  assert (∀ x, x ∈ l → em_used x = true → in_dict_file OID part seg x = true → 0 ≤ blockOffset x) as Hoff.
  { intros x Hx Hu _. by apply Hnn, (live_elem m l). }
  assert (∀ x, in_dict_file OID part seg x = true ↔ file_of x = (OID, part, seg)) as Hin.
  { intros x. unfold in_dict_file, file_of. rewrite !andb_true_iff, !Z.eqb_eq. split; [intros ((-> & ->) & ->)|intros [= -> -> ->]]; done. }
  pose proof (find_file_spec _ l Hoff) as Hspec. set (z := sf_last _) in *.
  assert (file_of (dict_entry lbid 8 OID dbroot part seg z) = (OID, part, seg)) as Hfe.
  { destruct z as [z|]; [|done]. destruct Hspec as (_ & _ & Hz%Hin & _). unfold file_of in *. cbn. congruence. }
  apply (layout_end (in_dict_file OID part seg) _ m l); try done.
  - destruct z; [|done]. unfold file_of in Hfe. cbn in *. congruence.
  - destruct z; [|done]. unfold file_of in Hfe. cbn in *. congruence.
  - intros x _. by rewrite Hfe, Hin.
  - intros x Hx. rewrite Hfe, <- Hin. intros Hxi. pose proof (filter_elem _ _ _ Hl Hx). pose proof (elem_live m x Hx).
    destruct z as [z|].
    + destruct Hspec as (Hzl & Hzu & Hzi & _). cbn. apply (ly_root _ Hly); [done|by apply (live_elem m l)|].
      apply Hin in Hxi, Hzi. congruence.
    + by rewrite Hspec in Hxi.
Qed.

(** ** Lookups *)

(** A query returns what it computes from the extents, and gives its lock back. *)
Lemma reading_run {A} (g : list EMEntry → outcome A) s :
  em_mapped (u_mem s) → reading (fun m => g (extents m)) s = (g (extents (u_mem s)), s).
Proof.
  intros Hm. unfold reading. rewrite (bind_ret _ _ _ _ _ (grabEM_run READ s Hm)). rewrite get_mem_run.
  unfold releaseEMEntryTable. rewrite upd_mem_run. destruct s as [[] log]. cbn.
  unfold lift, set_locks, extents, emEntries. cbn. by rewrite Z.add_simpl_r.
Qed.

(** The sizes and numbers of the extents fit the arithmetic of the lookups. *)
Definition lookup_bounds (m : EMMem) : Prop :=
  ∀ e, e ∈ live m → 0 ≤ fileID e ∧ ir_size (range e) * 1024 < 2 ^ 31 ∧ blockOffset e + ir_size (range e) * 1024 ≤ 2 ^ 32.

Lemma has_lbid_iff lbid e :
  has_lbid lbid e = true ↔ em_used e = true ∧ ir_start (range e) ≤ lbid < ir_end (range e).
Proof.
  unfold has_lbid, lastBlock, em_used, ir_end. rewrite !andb_true_iff, !Z.leb_le. lia.
Qed.

Lemma has_fbo_iff OID part seg fbo e :
  has_fbo OID part seg fbo e = true ↔
  em_used e = true ∧ file_of e = (OID, part, seg) ∧ blockOffset e ≤ fbo < blockOffset e + ir_size (range e) * 1024.
Proof.
  unfold has_fbo, file_of. rewrite !andb_true_iff, !Z.leb_le, !Z.eqb_eq. split.
  - intros (((((? & ->) & ->) & ->) & ?) & ?). split_and!; try done. lia.
  - intros (? & [= -> -> ->] & ?). split_and!; try done; lia.
Qed.

(** Two extents with the same LBID are the same. *)
Lemma lbid_unique m x y lbid :
  em_inv m → x ∈ live m → y ∈ live m → has_lbid lbid x = true → has_lbid lbid y = true → x = y.
Proof.
  intros Hi Hx Hy Bx By. apply has_lbid_iff in Bx as [_ Bx], By as [_ By].
  destruct (decide (x = y)) as [|Hne]; [done|exfalso].
  apply elem_of_Permutation in Hx as [rest Hp]. rewrite Hp in Hy. apply elem_of_cons in Hy as [->|Hy]; [done|].
  apply elem_of_Permutation in Hy as [rest' Hp'].
  pose proof (ei_space _ _ Hi lbid) as Hs. unfold em_ranges in Hs. fold (live m) in Hs.
  rewrite Hp, Hp' in Hs. cbn in Hs. pose proof (cover_nonneg (free_ranges m) lbid).
  pose proof (cover_nonneg (range <$> rest') lbid). rewrite (proj2 (ind_one _ _) Bx), (proj2 (ind_one _ _) By) in Hs.
  case_if; lia.
Qed.

(** The extent a search finds, when at most one passes the test. *)
Lemma find_unique p m e :
  em_inv m → e ∈ live m → p e = true → (∀ x, p x = true → em_used x = true) →
  (∀ x, x ∈ live m → p x = true → x = e) → ∃ i, find_index p (extents m) = Some (i, e).
Proof.
  intros Hi He Hp Hu Hun. rewrite (proj1 (extents_all _ _ Hi)). apply list_elem_of_In, filter_In in He as [He _].
  destruct (find_index p (em_tab m)) as [[i x]|] eqn:Hf.
  - exists i. apply find_from_Some in Hf as (_ & Hx & Hpx). rewrite (Hun x); [done| |done].
    eapply used_elem; [done|by apply Hu].
  - apply list_elem_of_In in He. pose proof (find_from_None _ _ _ e Hf He). congruence.
Qed.

Section Lookup.
Context (s : ExtentMap) (Hi : em_inv (u_mem s)) (Hly : file_layout (live (u_mem s))) (Hb : lookup_bounds (u_mem s)).
Abbreviation m := (u_mem s).

Lemma extent_bounds e : e ∈ live m →
  0 < ir_size (range e) ∧ 0 ≤ ir_start (range e) ∧ ir_end (range e) ≤ 2 ^ 36 ∧ place_nonneg e.
Proof using All.
  intros He. pose proof (elem_live _ _ He) as Hu. apply list_elem_of_In, filter_In in He as [He%list_elem_of_In _].
  apply zget_elem_of in He as [i He]. pose proof (em_aligned _ _ _ _ Hi He) as [_ Hn].
  pose proof (proj1 (em_used_size e) Hu). assert (0 < ir_size (range e)) as Hz by lia.
  pose proof (em_range_elem m i e He Hu) as Hr.
  destruct (space_bounds [] m (range e) (ei_space _ _ Hi)) as [? ?]; [set_solver|done|]. split_and!; try done.
  all: pose proof (ly_nonneg _ Hly) as Hnn; rewrite Forall_forall in Hnn; apply Hnn; eapply used_elem; done.
Qed.

(** The place of an LBID of extent [e]. *)
Lemma lookupLocal_run e lbid :
  e ∈ live m → ir_start (range e) ≤ lbid < ir_end (range e) →
  lookupLocal lbid s = (Ret (Some (mkBP (fileID e) (dbRoot e) (partitionNum e) (segmentNum e)
                                     (blockOffset e + (lbid - ir_start (range e))))), s).
Proof using All.
  intros He Hl. destruct (extent_bounds e He) as (Hz & H0 & H36 & Hp & Hs & Ho). destruct (Hb e He) as (Hf & H31 & H32).
  unfold lookupLocal, nonneg_arg. rewrite (proj2 (Z.ltb_ge _ _)) by lia. rewrite mret_run.
  rewrite (reading_run (fun l => Ret match find_index (has_lbid lbid) l with
    | Some (_, e) => Some (mkBP (fileID e) (dbRoot e) (partitionNum e) (segmentNum e) (u32 (blockOffset e + i32 (lbid - ir_start (range e)))))
    | None => None end)) by apply Hi.
  assert (has_lbid lbid e = true) as Hh by (apply has_lbid_iff; split; [by eapply elem_live|done]).
  destruct (find_unique (has_lbid lbid) m e Hi He Hh) as [i ->].
  - intros x Hx. by apply has_lbid_iff in Hx as [? _].
  - intros x Hx Hxl. by apply (lbid_unique m x e lbid).
  - unfold ir_end in *. rewrite (wrap_s_small 32), (wrap_u_small 32) by lia. done.
Qed.

(** The LBID of a place of extent [e]. *)
Lemma lookupLocal_file_run e fbo :
  e ∈ live m → blockOffset e ≤ fbo < blockOffset e + ir_size (range e) * 1024 →
  lookupLocal_file (fileID e) (partitionNum e) (segmentNum e) fbo s =
    (Ret (Some (ir_start (range e) + (fbo - blockOffset e))), s).
Proof using All.
  intros He Hl. destruct (extent_bounds e He) as (Hz & H0 & H36 & Hp & Hs & Ho). destruct (Hb e He) as (Hf & H31 & H32).
  unfold lookupLocal_file, nonneg_arg. rewrite (proj2 (Z.ltb_ge _ _)) by lia. rewrite mret_run.
  rewrite (reading_run (fun l => Ret ((fun ie => lbid_at fbo ie.2) <$>
    find_index (has_fbo (fileID e) (partitionNum e) (segmentNum e) fbo) l))) by apply Hi.
  assert (has_fbo (fileID e) (partitionNum e) (segmentNum e) fbo e = true) as Hh.
  { apply has_fbo_iff. split; [by eapply elem_live|]. split; [done|lia]. }
  destruct (find_unique (has_fbo (fileID e) (partitionNum e) (segmentNum e) fbo) m e Hi He Hh) as [i ->].
  - intros x Hx. by apply has_fbo_iff in Hx as [? _].
  - intros x Hx (_ & Hfx & Bx)%has_fbo_iff. symmetry. apply (layout_disjoint (live m) e x fbo); try done.
  - cbn. unfold lbid_at. cbn. by rewrite wrap_s_small by lia.
Qed.
End Lookup.
