(* ===== verification/EmRollback.v ===== *)
(** * Rolling back a load ([ExtentMap::rollbackColumnExtents_DBroot])

    What a rollback makes of every extent, and that it takes back the extents a
    load created; the deletions remove exactly the extents they name. *)

From S2P Require Import Prelude ColType Undo Table Vbbm Vss ExtentMap EmCp EmCreate EmDelete EmQuery EmSpace EmFree EmInv EmKeeps EmPlace EmLayout.

(** ** The effect of a rollback on every slot *)

(** The entry after the action. *)
Definition after_act (a : action) (e : EMEntry) : EMEntry :=
  match a with
  | Keep => e
  | Delete => set_size 0 e
  | SetHWM h => if HWM e =? h then e else set_hwm_status h EXTENTAVAILABLE e
  end.

Lemma act_run i e a s :
  em_inv (u_mem s) → (em_tab (u_mem s)).[i] = Some e → em_used e = true →
  ∃ s', act i e a s = (Ret tt, s') ∧ em_inv (u_mem s') ∧ em_tab (u_mem s') = (em_tab (u_mem s)).[i <- after_act a e].
Proof.
  intros Hi He Hu. destruct a as [| |h]; cbn.
  - exists s. split; [done|]. split; [done|]. by rewrite zset_id.
  - destruct (deleteExtent_spec [] i e s Hi He Hu) as (s' & H & Hi' & Ht & _). by exists s'.
  - case_if; [exists s; split; [done|]; split; [done|]; by rewrite zset_id|].
    unfold write_em. rewrite makeUndoRecord_bind. eexists. split; [reflexivity|]. split; [|done]. by eapply inv_set_em.
Qed.

Section Rollback.
Context (oid dbroot part seg hwm w : Z).

(** The extents looked at. *)
Definition rolled (e : EMEntry) : bool :=
  em_used e && (fileID e =? oid) && (dbRoot e =? dbroot) && negb (status e =? EXTENTOUTOFSERVICE).

(** The stripe of the HWM. *)
Definition the_stripe : stripe :=
  let n := w * 1024 in
  let lo := hwm - hwm mod n in
  mkStripe lo (lo + n - 1) (if 0 <? lo then lo - n else 0).

Definition rollback_entry (e : EMEntry) : EMEntry :=
  if rolled e then after_act (column_action part seg hwm the_stripe e) e else e.

Context (Hw : 0 < w < 512) (Hhwm : 0 ≤ hwm < 2 ^ 31).

Lemma the_stripe_bounds : 0 ≤ fboLo the_stripe ≤ hwm ∧ hwm ≤ fboHi the_stripe < 2 ^ 32 ∧
  fboHi the_stripe = fboLo the_stripe + w * 1024 - 1 ∧ (fboLo the_stripe) mod (w * 1024) = 0.
Proof using Hw Hhwm.
  cbn. pose proof (Z.mod_pos_bound hwm (w * 1024)). pose proof (Z.div_mod hwm (w * 1024)).
  assert (hwm - hwm mod (w * 1024) = (hwm / (w * 1024)) * (w * 1024)) as E by lia.
  pose proof (Z.div_pos hwm (w * 1024)).
  split; [nia|]. split; [lia|]. split; [done|]. rewrite E. apply Z.mod_mul. lia.
Qed.

Lemma compute_stripe_eq e st :
  ir_size (range e) = w → st = no_stripe ∨ st = the_stripe → compute_stripe hwm e st = the_stripe.
Proof using Hw Hhwm.
  intros Hs Hst. unfold compute_stripe. pose proof the_stripe_bounds as (Hlo & Hhi & Heq & Hmod).
  destruct Hst as [-> | ->].
  - cbn [fboHi no_stripe fboLoPreviousStripe Z.eqb]. rewrite Hs. rewrite !(wrap_u_small 32 (w * 1024)) by lia.
    unfold the_stripe in *. cbn in Hlo, Hhi, Hmod. rewrite (wrap_u_small 32) by lia. f_equal. case_if; [|done].
    apply wrap_u_small. zbool. split; [|lia].
    assert (hwm - hwm mod (w * 1024) = (hwm / (w * 1024)) * (w * 1024)) as E.
    { pose proof (Z.div_mod hwm (w * 1024)). lia. }
    rewrite E in *. assert (0 < hwm / (w * 1024)) by nia. nia.
  - rewrite (proj2 (Z.eqb_neq _ _)) by lia. done.
Qed.

Lemma rollback_column_run slots st s :
  NoDup slots → em_inv (u_mem s) → (∀ i, i ∈ slots → is_Some ((em_tab (u_mem s)).[i])) →
  (∀ i e, i ∈ slots → (em_tab (u_mem s)).[i] = Some e → rolled e = true → ir_size (range e) = w) →
  st = no_stripe ∨ st = the_stripe →
  ∃ s', rollback_column oid false dbroot part seg hwm slots st s = (Ret tt, s') ∧ em_inv (u_mem s') ∧
    ∀ i, (em_tab (u_mem s')).[i] =
         if bool_decide (i ∈ slots) then rollback_entry <$> (em_tab (u_mem s)).[i] else (em_tab (u_mem s)).[i].
Proof using Hw Hhwm.
  intros Hnd. revert st s. induction Hnd as [|i slots Hni Hnd IH]; intros st s Hi Hsl Hsz Hst.
  { exists s. split; [done|]. split; [done|]. intros j. by rewrite bool_decide_false by apply not_elem_of_nil. }
  destruct (Hsl i) as [e He]; [by left|]. cbn [rollback_column].
  assert (∀ (f : EMEntry → M ExtentMap unit), (get_em i ≫= f) s = f e s) as Hget.
  { intros f. unfold get_em, mbind, M_bind. cbn. by rewrite He. }
  rewrite Hget. fold (em_used e). fold (rolled e).
  (** after slot [i] *)
  assert (∀ s1 st1, em_inv (u_mem s1) → em_tab (u_mem s1) = (em_tab (u_mem s)).[i <- rollback_entry e] →
    st1 = no_stripe ∨ st1 = the_stripe →
    ∃ s', rollback_column oid false dbroot part seg hwm slots st1 s1 = (Ret tt, s') ∧ em_inv (u_mem s') ∧
      ∀ j, (em_tab (u_mem s')).[j] =
        if bool_decide (j ∈ i :: slots) then rollback_entry <$> (em_tab (u_mem s)).[j] else (em_tab (u_mem s)).[j]) as Hrest.
  { intros s1 st1 Hi1 Ht1 Hst1. assert (∀ j, j ∈ slots → (em_tab (u_mem s1)).[j] = (em_tab (u_mem s)).[j]) as Hsame.
    { intros j Hj. rewrite Ht1, zget_zset_ne; [done|]. by intros ->. }
    destruct (IH st1 s1 Hi1) as (s' & Hr & Hi' & Ht'); [| |done|].
    - intros j Hj. rewrite Hsame by done. apply Hsl. by right.
    - intros j x Hj Hx. rewrite Hsame in Hx by done. apply (Hsz j); [by right|done].
    - exists s'. split; [done|]. split; [done|]. intros j. rewrite Ht'. destruct (decide (j = i)) as [->|Hne].
      + rewrite bool_decide_false by done. rewrite bool_decide_true by by left.
        rewrite Ht1, zget_zset_eq, He; [done|]. by apply zget_range in He.
      + rewrite (bool_decide_ext (j ∈ i :: slots) (j ∈ slots)) by set_solver.
        rewrite Ht1, zget_zset_ne by done. done. }
  unfold rollback_entry in Hrest. destruct (rolled e) eqn:Hrol; [|apply Hrest; [done|by rewrite zset_id|done]].
  rewrite (compute_stripe_eq e st); [|apply (Hsz i); [by left|done|done]|done].
  destruct (act_run i e (column_action part seg hwm the_stripe e) s Hi He) as (s1 & H1 & Hi1 & Ht1).
  { unfold rolled in Hrol. by destruct (em_used e). }
  rewrite (bind_ret _ _ _ _ _ H1). apply Hrest; [done|done|by right].
Qed.
End Rollback.

(** ** Rolling back what was created *)

Lemma filter_perm {A} (p : A → bool) l l' : l ≡ₚ l' → List.filter p l ≡ₚ List.filter p l'.
Proof.
  induction 1; cbn; try case_match; try case_match; try (constructor; done); try done; by etrans.
Qed.

Lemma filter_all {A} (p : A → bool) (l : list A) : (∀ x, x ∈ l → p x = true) → List.filter p l = l.
Proof.
  induction l as [|x l IH]; intros H; [done|]. cbn. rewrite (H x) by by left. f_equal. apply IH. intros y Hy. apply H. by right.
Qed.

Lemma fmap_same {A} (f : A → A) (l : list A) : (∀ x, x ∈ l → f x = x) → f <$> l = l.
Proof.
  induction l as [|x l IH]; intros H; [done|]. cbn. rewrite (H x) by by left. f_equal. apply IH. intros y Hy. apply H. by right.
Qed.

Lemma filter_map_used (g : EMEntry → EMEntry) l :
  (∀ e, em_used e = false → em_used (g e) = false) →
  List.filter em_used (g <$> l) = List.filter em_used (g <$> List.filter em_used l).
Proof.
  intros Hg. induction l as [|e l IH]; [done|]. cbn. destruct (em_used e) eqn:He; cbn.
  - by rewrite IH.
  - rewrite (Hg e He). done.
Qed.

(** Every extent becomes what [rollback_entry] says. *)
Lemma rollback_run oid dbroot part seg hwm w s :
  0 < w < 512 → 0 ≤ hwm < 2 ^ 31 → em_inv (u_mem s) →
  (∀ e, e ∈ live (u_mem s) → fileID e = oid → ir_size (range e) = w) →
  ∃ s', rollbackColumnExtents_DBroot oid false dbroot part seg hwm s = (Ret tt, s') ∧ em_inv (u_mem s') ∧
    em_tab (u_mem s') = rollback_entry oid dbroot part seg hwm w <$> em_tab (u_mem s).
Proof.
  intros Hw Hh Hi Hsz. unfold rollbackColumnExtents_DBroot.
  rewrite (bind_ret _ _ _ _ _ (grab_both_run s (ei_mapped _ _ Hi))), get_mem_run.
  match goal with |- context [rollback_column _ _ _ _ _ _ _ _ ?st] => set (s1 := st) end.
  assert (em_inv (u_mem s1)) as Hi1 by by apply inv_locks.
  assert (em_tab (u_mem s1) = em_tab (u_mem s)) as Ht1 by done.
  rewrite (proj2 (extents_all _ _ Hi1)).
  destruct (rollback_column_run oid dbroot part seg hwm w Hw Hh (zseq 0 (zlength (em_tab (u_mem s1)))) no_stripe s1)
    as (s' & Hr & Hi' & Ht'); [| | | |by left|].
  - apply zseq_nodup.
  - done.
  - intros i Hin%zseq_elem. apply zget_is_Some. lia.
  - intros i e _ He Hr. rewrite Ht1 in He. unfold rolled in Hr.
    apply andb_true_iff in Hr as [[[Hu Ho]%andb_true_iff _]%andb_true_iff _]. zbool.
    apply Hsz; [|done]. by eapply used_elem.
  - exists s'. split; [done|]. split; [done|]. apply list_zget_ext. intros i. rewrite Ht', Ht1, zget_fmap.
    case_bool_decide as Hin; [done|]. rewrite zget_None; [done|]. rewrite zseq_elem in Hin. lia.
Qed.

(** The order of creation decides what is deleted. *)
Section Order.
Context (w hwm : Z) (last : EMEntry) (Hw : 0 < w < 512) (Hhwm : 0 ≤ hwm < 2 ^ 31).
Context (Hlast : blockOffset last mod (w * 1024) = 0) (Hin : blockOffset last ≤ hwm < blockOffset last + w * 1024).

Lemma stripe_of_last : fboLo (the_stripe hwm w) = blockOffset last.
Proof using All.
  unfold the_stripe. cbn. apply Z.div_exact in Hlast; [|lia].
  assert (hwm / (w * 1024) = blockOffset last / (w * 1024)) as E.
  { symmetry. apply (Z.div_unique _ _ _ (hwm - blockOffset last)); lia. }
  pose proof (Z.div_mod hwm (w * 1024)). lia.
Qed.

Lemma delete_after e :
  blockOffset e mod (w * 1024) = 0 → 0 ≤ blockOffset e →
  column_action (partitionNum last) (segmentNum last) hwm (the_stripe hwm w) e = Delete ↔ ¬ not_after e last.
Proof using All.
  intros He H0. pose proof (the_stripe_bounds hwm w Hw Hhwm) as (Hlo & Hhi & Heq & _). rewrite stripe_of_last in *.
  unfold column_action, not_after. rewrite stripe_of_last.
  assert (blockOffset last ≤ blockOffset e ≤ fboHi (the_stripe hwm w) → blockOffset e = blockOffset last) as Hal.
  { intros Hb. apply Z.div_exact in Hlast, He; [|lia..].
    assert (blockOffset e / (w * 1024) = blockOffset last / (w * 1024)); [|lia].
    symmetry. apply (Z.div_unique _ _ _ (blockOffset e - blockOffset last)); lia. }
  repeat case_if; zbool; split; intros Hcase; try done; lia.
Qed.

(** The HWM of an extent that is not after [last], when the column was filled up to
    [hwm] in the file of [last]: it is kept in the last extent of a file.  In the
    stripe of [last], that is [hwm] for the file of [last] and the last block of the
    extent for the files before it; the files after it end with the stripe before. *)
Definition filled_hwm (x : EMEntry) : Prop :=
  partitionNum x = partitionNum last →
  (blockOffset x = blockOffset last →
     HWM x = if segmentNum x =? segmentNum last then hwm else blockOffset last + w * 1024 - 1) ∧
  (blockOffset x + w * 1024 = blockOffset last → segmentNum last < segmentNum x → HWM x = blockOffset last - 1).

Lemma kept_before e :
  blockOffset e mod (w * 1024) = 0 → 0 ≤ blockOffset e → not_after e last → filled_hwm e →
  after_act (column_action (partitionNum last) (segmentNum last) hwm (the_stripe hwm w) e) e = e.
Proof using All.
  intros He H0 Hna Hf. pose proof (delete_after e He H0) as [Hdel _].
  pose proof (the_stripe_bounds hwm w Hw Hhwm) as (Hlo & Hhi & Heq & _).
  assert (fboLoPreviousStripe (the_stripe hwm w) = if 0 <? blockOffset last then blockOffset last - w * 1024 else 0) as Hprev.
  { rewrite <- stripe_of_last. done. }
  unfold filled_hwm, column_action in *. rewrite Hprev in *. rewrite stripe_of_last in *. apply Z.div_exact in Hlast, He; [|lia..].
  assert (blockOffset last - w * 1024 ≤ blockOffset e < blockOffset last → blockOffset e + w * 1024 = blockOffset last) as Hp1.
  { intros Hb. assert (blockOffset e / (w * 1024) = blockOffset last / (w * 1024) - 1); [|lia].
    symmetry. apply (Z.div_unique _ _ _ (blockOffset e - blockOffset last + w * 1024)); lia. }
  assert (blockOffset last ≤ blockOffset e ≤ fboHi (the_stripe hwm w) → blockOffset e = blockOffset last) as Hp2.
  { intros Hb. assert (blockOffset e / (w * 1024) = blockOffset last / (w * 1024)); [|lia].
    symmetry. apply (Z.div_unique _ _ _ (blockOffset e - blockOffset last)); lia. }
  destruct (_ <? partitionNum e) eqn:E1; [by destruct Hdel|]. destruct (partitionNum e =? _) eqn:E2; [|done]. zbool.
  specialize (Hf E2). destruct (_ <? blockOffset e) eqn:E3; [by destruct Hdel|]. zbool.
  destruct (blockOffset e <? _) eqn:E4; zbool.
  { destruct (_ && (_ <? segmentNum e)) eqn:E5; [|done]. zbool. cbn [after_act].
    assert (0 < blockOffset last) by lia. rewrite (proj2 (Z.ltb_lt 0 _)) in * by done.
    rewrite (wrap_u_small 32) by lia. by rewrite (proj2 Hf), Z.eqb_refl by lia. }
  destruct Hf as [Hf _]. specialize (Hf ltac:(lia)).
  destruct (_ <? segmentNum e) eqn:E5; [by destruct Hdel|]. zbool.
  destruct (segmentNum e <? _) eqn:E6; zbool; cbn [after_act].
  - rewrite (proj2 (Z.eqb_neq _ _)) in Hf by lia. by rewrite Hf, Heq, Z.eqb_refl.
  - rewrite (proj2 (Z.eqb_eq _ _)) in Hf by lia. by rewrite Hf, Z.eqb_refl.
Qed.
End Order.

(** ** A load: extents created one after the other *)

Definition create_extents (cfg : EMConfig) (OID w dbroot : Z) (t : ColDataType) (parts : list Z) : M ExtentMap unit :=
  forM parts (fun part => no_result (createColumnExtent_DBroot cfg OID w dbroot t part true)).

Section Load.
Context (cfg : EMConfig) (Hcfg : dbRootCount cfg ≠ 0) (OID w dbroot : Z) (t : ColDataType) (Hw : 0 < w < 512).

(** The first of the creates. *)
Lemma create_extents_cons part parts s s1 :
  em_inv (u_mem s) → create_extents cfg OID w dbroot t (part :: parts) s = (Ret tt, s1) →
  ∃ lbid s0 l, create_extents cfg OID w dbroot t parts s0 = (Ret tt, s1) ∧ List.filter em_used l = live (u_mem s) ∧
    new_extent (column_entry lbid w OID w dbroot t (choose_place cfg OID w dbroot part l)) (u_mem s) (u_mem s0).
Proof using All.
  intros Hi Hrun. unfold create_extents, no_result in Hrun. cbn [forM] in Hrun. rewrite assoc_run in Hrun.
  destruct (createColumn_spec cfg Hcfg OID w dbroot t part true s Hi Hw) as [(s0 & Hx & _)|(lbid & s0 & l & Hx & Hl & Hne)].
  - by rewrite (bind_exn _ _ _ _ _ Hx) in Hrun.
  - rewrite (bind_ret _ _ _ _ _ Hx), mret_run in Hrun. by exists lbid, s0, l.
Qed.

Lemma create_extents_grow parts s s1 :
  em_inv (u_mem s) → create_extents cfg OID w dbroot t parts s = (Ret tt, s1) →
  ∃ news, live (u_mem s1) ≡ₚ news ++ live (u_mem s).
Proof using All.
  revert s. induction parts as [|part parts IH]; intros s Hi Hrun.
  { injection Hrun as <-. by exists []. }
  apply create_extents_cons in Hrun as (lbid & s0 & l & Hr & Hl & Hi0 & Hp); [|done].
  destruct (IH s0 Hi0 Hr) as [news Hn]. match type of Hp with _ ≡ₚ ?e :: _ => exists (news ++ [e]) end.
  by rewrite Hn, Hp, <- app_assoc.
Qed.

Lemma create_extents_spec last parts s s1 :
  em_inv (u_mem s) → file_layout (live (u_mem s)) → (∀ part, part ∈ parts → 0 ≤ part < 2 ^ 32) →
  last ∈ live (u_mem s) → here OID dbroot last = true →
  create_extents cfg OID w dbroot t parts s = (Ret tt, s1) → column_room OID w (live (u_mem s1)) →
  ∃ news, live (u_mem s1) ≡ₚ news ++ live (u_mem s) ∧ em_inv (u_mem s1) ∧ file_layout (live (u_mem s1)) ∧
    ∀ x, x ∈ news → here OID dbroot x = true ∧ status x = EXTENTUNAVAILABLE ∧ ¬ not_after x last.
Proof using All.
  revert s. induction parts as [|part parts IH]; intros s Hi Hly Hparts Hlast Hh Hrun Hcr.
  { injection Hrun as <-. exists []. split; [done|]. split; [done|]. split; [done|]. intros x Hx. by apply elem_of_nil in Hx. }
  destruct (create_extents_grow _ _ _ Hi Hrun) as [all Hall].
  assert (column_room OID w (live (u_mem s))) as Hcr0 by (intros x Hx; apply Hcr; rewrite Hall; set_solver).
  apply create_extents_cons in Hrun as (lbid & s0 & l & Hr & Hl & Hnew); [|done].
  assert (0 ≤ part < 2 ^ 32) as Hpart by (apply Hparts; by left).
  pose proof (layout_created cfg OID w dbroot t part lbid _ _ l Hcfg Hly Hcr0 (proj1 Hw) Hpart Hl Hnew) as Hly0.
  destruct Hnew as [Hi0 Hp0].
  destruct (IH s0 Hi0 Hly0) as (news & Hn & Hi1 & Hly1 & Hx); try done.
  { intros p Hp. apply Hparts. by right. }
  { rewrite Hp0. by right. }
  match type of Hp0 with _ ≡ₚ ?e :: _ => exists (news ++ [e]) end.
  split; [by rewrite Hn, Hp0, <- app_assoc|]. split; [done|]. split; [done|].
  intros x [Hxn| ->]%elem_snoc; [by apply Hx|]. split_and!.
  - unfold here, mine. cbn. rewrite (proj2 (em_used_size _)) by (cbn; lia). by rewrite !Z.eqb_refl.
  - done.
  - destruct (choose_place_spec cfg OID w dbroot part l) as (_ & _ & Haft); [| |done|].
    + intros y Hy [Hyl _]%(mine_live OID _ l y Hl Hy). pose proof (ly_nonneg _ Hly) as Hnn. rewrite Forall_forall in Hnn. by apply Hnn.
    + intros y Hy [Hyl Ho]%(mine_live OID _ l y Hl Hy). by apply Hcr0.
    + specialize (Haft last (filter_elem _ _ _ Hl Hlast) Hh). unfold place_after, not_after in *. cbn. lia.
Qed.

(** The column is filled up to block [hwm] of the file of [last] on the DBRoot: none
    of its extents there that is in service comes after [last] in the order of
    creation, and the HWMs say so. *)
Definition filled_to (last : EMEntry) (hwm : Z) (l : list EMEntry) : Prop :=
  ∀ x, x ∈ l → fileID x = OID → dbRoot x = dbroot → status x ≠ EXTENTOUTOFSERVICE →
    not_after x last ∧ filled_hwm w hwm last x.

Lemma rollback_load last hwm parts s s1 :
  em_inv (u_mem s) → file_layout (live (u_mem s)) → (∀ part, part ∈ parts → 0 ≤ part < 2 ^ 32) →
  last ∈ live (u_mem s) → here OID dbroot last = true →
  blockOffset last ≤ hwm < blockOffset last + w * 1024 → hwm < 2 ^ 31 → filled_to last hwm (live (u_mem s)) →
  create_extents cfg OID w dbroot t parts s = (Ret tt, s1) → column_room OID w (live (u_mem s1)) →
  ∃ s2, rollbackColumnExtents_DBroot OID false dbroot (partitionNum last) (segmentNum last) hwm s1 = (Ret tt, s2) ∧
    em_inv (u_mem s2) ∧ live (u_mem s2) ≡ₚ live (u_mem s).
Proof using All.
  intros Hi Hly Hparts Hlast Hh Hin H31 Hfill Hrun Hcr.
  destruct (create_extents_spec last parts s s1) as (news & Hp & Hi1 & Hly1 & Hnews); try done.
  pose proof (ly_nonneg _ Hly1) as Hnn. rewrite Forall_forall in Hnn.
  assert (last ∈ live (u_mem s1)) as Hl1 by (rewrite Hp; set_solver). pose proof (Hnn last Hl1) as (_ & _ & Hl0).
  assert (∀ x, x ∈ live (u_mem s1) → here OID dbroot x = true → blockOffset x mod (w * 1024) = 0) as Hal.
  { intros x Hx Hxh. apply here_mine, andb_true_iff in Hxh as [_ Ho]. zbool.
    rewrite <- (proj1 (Hcr x Hx Ho)). by apply (ly_align _ Hly1). }
  destruct (rollback_run OID dbroot (partitionNum last) (segmentNum last) hwm w s1) as (s2 & Hr & Hi2 & Ht2); try done; [lia| |].
  { intros x Hx Ho. by apply Hcr. }
  exists s2. split; [done|]. split; [done|]. unfold live at 1. rewrite Ht2, filter_map_used.
  2: { intros e He. unfold rollback_entry, rolled. by rewrite He. }
  fold (live (u_mem s1)). etrans; [apply filter_perm; rewrite Hp; reflexivity|]. rewrite fmap_app, List.filter_app.
  rewrite (filter_none em_used (_ <$> news)).
  - rewrite app_nil_l. assert (rollback_entry OID dbroot (partitionNum last) (segmentNum last) hwm w <$> live (u_mem s) = live (u_mem s)) as ->.
    { apply fmap_same. intros x Hx. unfold rollback_entry. destruct (rolled OID dbroot x) eqn:Hrol; [|done].
      unfold rolled in Hrol. apply andb_true_iff in Hrol as [[[Hu Ho]%andb_true_iff Hd]%andb_true_iff Hst]. apply negb_true_iff in Hst. zbool.
      destruct (Hfill x Hx Ho Hd Hst) as [Hna Hf]. assert (x ∈ live (u_mem s1)) as Hxl by (rewrite Hp; set_solver).
      pose proof (Hnn x Hxl) as (_ & _ & Hx0).
      apply kept_before; try done; [lia|by apply Hal|]. apply Hal; [done|]. unfold here, mine. by rewrite Hu, Ho, Hd, !Z.eqb_refl. }
    rewrite filter_all; [done|]. intros x. apply elem_live.
  - intros x (y & -> & Hy)%list_elem_of_fmap. destruct (Hnews y Hy) as (Hyh & Hys & Hna).
    assert (y ∈ live (u_mem s1)) as Hyl by (rewrite Hp; set_solver). pose proof (Hnn y Hyl) as (_ & _ & Hy0).
    assert (rolled OID dbroot y = true) as Hrol.
    { unfold rolled. unfold here, mine in Hyh. rewrite Hyh, Hys. done. }
    unfold rollback_entry. rewrite Hrol.
    assert (column_action (partitionNum last) (segmentNum last) hwm (the_stripe hwm w) y = Delete) as ->; [|done].
    apply delete_after; try done; [lia|by apply Hal|by apply Hal].
Qed.
End Load.

(** * Dropping columns and DBRoots *)


Lemma get_em_run {A} i e (f : EMEntry → M ExtentMap A) s : (em_tab (u_mem s)).[i] = Some e → (get_em i ≫= f) s = f e s.
Proof. intros He. unfold get_em, mbind, M_bind. cbn. by rewrite He. Qed.

(** A step that only changes its own slot. *)
Definition slotwise (op : Z → M ExtentMap unit) (g : EMEntry → EMEntry) : Prop :=
  ∀ i e s, em_inv (u_mem s) → (em_tab (u_mem s)).[i] = Some e →
    ∃ s', op i s = (Ret tt, s') ∧ em_inv (u_mem s') ∧ em_tab (u_mem s') = (em_tab (u_mem s)).[i <- g e].

(** A loop of such steps over all the slots. *)
Lemma slotwise_all op g s :
  slotwise op g → em_inv (u_mem s) →
  ∃ s', forM (zseq 0 (emEntries (u_mem s))) op s = (Ret tt, s') ∧ em_inv (u_mem s') ∧
    em_tab (u_mem s') = g <$> em_tab (u_mem s).
Proof.
  intros Hop Hi. rewrite (proj2 (extents_all _ _ Hi)).
  assert (∀ slots s, NoDup slots → em_inv (u_mem s) → (∀ i, i ∈ slots → is_Some ((em_tab (u_mem s)).[i])) →
    ∃ s', forM slots op s = (Ret tt, s') ∧ em_inv (u_mem s') ∧
      ∀ i, (em_tab (u_mem s')).[i] = if bool_decide (i ∈ slots) then g <$> (em_tab (u_mem s)).[i] else (em_tab (u_mem s)).[i]) as H.
  { clear s Hi. intros slots s Hnd. revert s. induction Hnd as [|i slots Hni Hnd IH]; intros s Hi Hs.
    { exists s. split; [done|]. split; [done|]. intros j. by rewrite bool_decide_false by apply not_elem_of_nil. }
    destruct (Hs i) as [e He]; [by left|]. destruct (Hop i e s Hi He) as (s1 & H1 & Hi1 & Ht1).
    destruct (IH s1 Hi1) as (s2 & H2 & Hi2 & Ht2).
    { intros j Hj. rewrite Ht1, zget_zset_ne by (by intros ->). apply Hs. by right. }
    exists s2. cbn. rewrite (bind_ret _ _ _ _ _ H1). split; [done|]. split; [done|]. intros j. rewrite Ht2, Ht1.
    destruct (decide (j = i)) as [->|Hne].
    - rewrite bool_decide_false by done. rewrite bool_decide_true by by left.
      rewrite zget_zset_eq, He; [done|]. by apply zget_range in He.
    - rewrite zget_zset_ne by done. by rewrite (bool_decide_ext (j ∈ i :: slots) (j ∈ slots)) by set_solver. }
  destruct (H (zseq 0 (zlength (em_tab (u_mem s)))) s) as (s' & Hr & Hi' & Ht'); [apply zseq_nodup|done| |].
  { intros i Hin%zseq_elem. apply zget_is_Some. lia. }
  exists s'. split; [done|]. split; [done|]. apply list_zget_ext. intros i. rewrite Ht', zget_fmap.
  case_bool_decide as Hin; [done|]. rewrite zget_None; [done|]. rewrite zseq_elem in Hin. lia.
Qed.

Definition dropped (p : EMEntry → bool) (e : EMEntry) : EMEntry := if em_used e && p e then set_size 0 e else e.

Lemma delete_if_slotwise p : slotwise (delete_if p) (dropped p).
Proof.
  intros i e s Hi He. unfold delete_if. rewrite (get_em_run i e) by done. fold (em_used e). unfold dropped. destruct (em_used e && p e) eqn:Hc.
  - apply andb_true_iff in Hc as [Hu _]. destruct (deleteExtent_spec [] i e s Hi He Hu) as (s' & ? & ? & ? & _). by exists s'.
  - exists s. split; [done|]. split; [done|]. by rewrite zset_id.
Qed.

Lemma live_dropped p l : List.filter em_used (dropped p <$> l) = List.filter (fun e => em_used e && negb (p e)) l.
Proof.
  induction l as [|e l IH]; [done|]. cbn [fmap list_fmap List.filter].
  assert (em_used (dropped p e) = em_used e && negb (p e)) as ->.
  { unfold dropped. destruct (em_used e) eqn:Hu, (p e); cbn; done. }
  destruct (em_used e && negb (p e)) eqn:Hc; [|done]. rewrite <- IH. f_equal. unfold dropped.
  destruct (em_used e), (p e); done.
Qed.

(** [delete_all]: what is left are the extents that do not pass the test. *)
Lemma delete_all_run p s :
  em_inv (u_mem s) →
  ∃ s', delete_all p s = (Ret tt, s') ∧ em_inv (u_mem s') ∧
    live (u_mem s') = List.filter (fun e => negb (p e)) (live (u_mem s)).
Proof.
  intros Hi. unfold delete_all. rewrite get_mem_run.
  destruct (slotwise_all _ _ s (delete_if_slotwise p) Hi) as (s' & Hr & Hi' & Ht).
  exists s'. split; [done|]. split; [done|]. unfold live. rewrite Ht, live_dropped.
  generalize (em_tab (u_mem s)) as l. induction l as [|e l IH]; [done|]. cbn. destruct (em_used e); cbn; [|done].
  destruct (p e); cbn; [done|by f_equal].
Qed.

Lemma deleteOID_run OID s :
  em_inv (u_mem s) →
  ∃ s', EM_deleteOID OID s = (if existsb (fun e => fileID e =? OID) (live (u_mem s)) then Ret tt else Exn InvalidArgument, s') ∧
    em_inv (u_mem s') ∧ live (u_mem s') = List.filter (fun e => negb (fileID e =? OID)) (live (u_mem s)).
Proof.
  intros Hi. unfold EM_deleteOID. rewrite (bind_ret _ _ _ _ _ (grab_both_run s (ei_mapped _ _ Hi))), get_mem_run.
  set (s1 := mkUndoable _ _). assert (em_inv (u_mem s1)) as Hi1 by by apply inv_locks.
  destruct (delete_all_run (fun e => fileID e =? OID) s1 Hi1) as (s' & Hr & Hi' & Hl).
  rewrite (bind_ret _ _ _ _ _ Hr). exists s'. change (live (u_mem s1)) with (live (u_mem s)) in Hl.
  assert (existsb (fun e => negb (ir_size (range e) =? 0) && (fileID e =? OID)) (extents (u_mem s1)) =
          existsb (fun e => fileID e =? OID) (live (u_mem s))) as ->.
  { rewrite (proj1 (extents_all _ _ Hi1)). unfold live. change (em_tab (u_mem s1)) with (em_tab (u_mem s)).
    generalize (em_tab (u_mem s)) as l. induction l as [|e l IH]; [done|]. cbn. fold (em_used e). rewrite IH.
    by destruct (em_used e). }
  split; [by destruct (existsb _ _)|done].
Qed.

(** The LBIDs of the extents that went are free. *)
Lemma dropped_free m m' p x :
  em_inv m → em_inv m' → live m' = List.filter (fun e => negb (p e)) (live m) →
  cover (free_ranges m') x = cover (free_ranges m) x + cover (range <$> List.filter p (live m)) x.
Proof.
  intros H1 H2 Hl. pose proof (ei_space _ _ H1 x) as S1. pose proof (ei_space _ _ H2 x) as S2.
  unfold em_ranges in S1, S2. fold (live m) in S1. fold (live m') in S2. rewrite Hl in S2.
  assert (cover (range <$> live m) x =
    cover (range <$> List.filter p (live m)) x + cover (range <$> List.filter (fun e => negb (p e)) (live m)) x) as Hc.
  { generalize (live m) as l. induction l as [|e l IH]; [done|]. cbn. destruct (p e); cbn; lia. }
  lia.
Qed.
