(* ===== verification/EmHwm.v ===== *)
(** * High water marks ([ExtentMap::setLocalHWM], [ExtentMap::getLocalHWM])

    The HWM of a segment file is kept in its last extent. *)

From S2P Require Import Prelude BinFile ColType Undo Table Vbbm Vss ExtentMap EmCp EmCreate EmDelete EmQuery EmFile EmSpace EmFree EmInv EmKeeps EmPlace EmLayout.

Section Hwm.
Context (OID part seg : Z).
Abbreviation inseg := (in_segment OID part seg).

(** At most one extent of the file has an HWM. *)
Definition one_hwm (l : list EMEntry) : Prop :=
  ∀ i j e f, l.[i] = Some e → l.[j] = Some f → inseg e = true → inseg f = true → HWM e ≠ 0 → HWM f ≠ 0 → i = j.

(** The scan of [setLocalHWM]: the extent with the highest offset, and the last one
    with an HWM. *)
Record hwm_ok (l : list EMEntry) (a : hwm_scan) : Prop := {
  hw_last : ∀ i e, hs_last a = Some (i, e) → l.[i] = Some e ∧ inseg e = true ∧ hs_highest a = blockOffset e ∧
    ∀ x, x ∈ l → inseg x = true → blockOffset x ≤ blockOffset e;
  hw_none : hs_last a = None → hs_highest a = 0 ∧ ∀ x, x ∈ l → inseg x = false;
  hw_old : ∀ j, hs_old a = Some j → ∃ e, l.[j] = Some e ∧ inseg e = true ∧ HWM e ≠ 0;
  hw_no_old : hs_old a = None → ∀ x, x ∈ l → inseg x = true → HWM x = 0;
}.

Lemma find_hwm_spec l :
  (∀ x, x ∈ l → inseg x = true → 0 ≤ blockOffset x) → hwm_ok l (find_hwm OID part seg l).
Proof.
  intros Hn. revert Hn. unfold find_hwm. apply (scan_inv (fun pre a =>
    (∀ x, x ∈ pre → inseg x = true → 0 ≤ blockOffset x) → hwm_ok pre a)).
  { intros _. split; try done.
    - intros _. split; [done|]. intros x Hx. by apply elem_of_nil in Hx.
    - intros _ x Hx. by apply elem_of_nil in Hx. }
  intros pre e a IH Hnn. destruct IH as [H1 H2 H3 H4]. { intros x Hx. apply Hnn, elem_snoc. by left. }
  unfold hwm_step. destruct (inseg e) eqn:He.
  2: { split.
       - intros i x (Hx & Hs & Hh & Hm)%H1. split_and!; try done; [rewrite zget_snoc; by left|].
         intros y [Hy| ->]%elem_snoc; [by apply Hm|congruence].
       - intros [Hh Hm]%H2. split; [done|]. intros y [Hy| ->]%elem_snoc; [by apply Hm|done].
       - intros j (x & Hx & ?)%H3. exists x. rewrite zget_snoc. auto.
       - intros Ho y [Hy| ->]%elem_snoc; [by apply H4|congruence]. }
  assert (0 ≤ blockOffset e) as H0 by (apply Hnn; [apply elem_snoc; by right|done]).
  set (a1 := if hs_highest a <=? blockOffset e then mkHS (Some (zlength pre, e)) (blockOffset e) (hs_old a) else a).
  assert (hs_old a1 = hs_old a) as Eo by (unfold a1; by case_if).
  assert (∃ i x, hs_last a1 = Some (i, x) ∧ (pre ++ [e]).[i] = Some x ∧ inseg x = true ∧ hs_highest a1 = blockOffset x ∧
    ∀ y, y ∈ pre ++ [e] → inseg y = true → blockOffset y ≤ blockOffset x) as (i & x & El & Hx & Hs & Hh & Hm).
  { unfold a1. destruct (hs_highest a <=? blockOffset e) eqn:Hc; zbool; cbn.
    - exists (zlength pre), e. split_and!; try done; [apply zget_middle|]. intros y [Hy| ->]%elem_snoc Hyi; [|lia].
      destruct (hs_last a) as [[i x]|].
      + destruct (H1 i x eq_refl) as (_ & _ & Hh & Hm). specialize (Hm y Hy Hyi). lia.
      + destruct (H2 eq_refl) as [_ Hm]. rewrite Hm in Hyi; done.
    - destruct (hs_last a) as [[i x]|]; [|destruct (H2 eq_refl); lia].
      destruct (H1 i x eq_refl) as (Hx & Hs & Hh & Hm). exists i, x. split_and!; try done; [rewrite zget_snoc; by left|].
      intros y [Hy| ->]%elem_snoc Hyi; [by apply Hm|lia]. }
  destruct (HWM e =? 0) eqn:H0e; zbool.
  - split; try congruence.
    + intros i' x'. rewrite El. intros [= <- <-]. done.
    + intros j. rewrite Eo. intros (y & Hy & ?)%H3. exists y. rewrite zget_snoc. auto.
    + rewrite Eo. intros Ho y [Hy| ->]%elem_snoc Hyi; [by apply H4|done].
  - split; cbn; try congruence.
    + intros i' x'. rewrite El. intros [= <- <-]. done.
    + intros j [= <-]. exists e. rewrite zget_middle. done.
Qed.

(** The first extent of the file with an HWM, or none has one. *)
Lemma local_hwm_one l found i e :
  l.[i] = Some e → inseg e = true → HWM e ≠ 0 →
  (∀ j f, l.[j] = Some f → inseg f = true → j ≠ i → HWM f = 0) →
  local_hwm OID part seg l found = Some (HWM e, status e).
Proof.
  revert found i. induction l as [|x l IH]; intros found i Hi He Hh Hz; [apply zget_range in Hi; unfold zlength in Hi; cbn in Hi; lia|].
  pose proof (zget_range _ _ _ Hi) as Hr. cbn. destruct (decide (i = 0)) as [->|Hne].
  - injection Hi as ->. rewrite He, (proj2 (Z.eqb_neq _ _) Hh). done.
  - replace i with (i - 1 + 1) in Hi by lia. rewrite zget_cons in Hi by lia.
    assert (∀ j f, l.[j] = Some f → inseg f = true → j ≠ i - 1 → HWM f = 0) as Hz'.
    { intros j f Hj Hf Hn. pose proof (zget_range _ _ _ Hj). apply (Hz (j + 1)); [by rewrite zget_cons by lia|done|lia]. }
    destruct (inseg x) eqn:Hx; [|by eapply IH].
    rewrite (Hz 0 x eq_refl Hx) by lia. by eapply IH.
Qed.

Lemma local_hwm_none l found :
  (∀ x, x ∈ l → inseg x = true → HWM x = 0) → found ≠ None ∨ (∃ x, x ∈ l ∧ inseg x = true) →
  ∃ st, local_hwm OID part seg l found = Some (0, st).
Proof.
  revert found. induction l as [|x l IH]; intros found Hz Hex; cbn.
  - destruct found as [st|]; [by exists st|]. destruct Hex as [?|(x & Hx & _)]; [done|]. by apply elem_of_nil in Hx.
  - destruct (inseg x) eqn:Hx.
    + rewrite (Hz x) by (done || by left). cbn. apply IH; [|by left]. intros y Hy. apply Hz. by right.
    + apply IH; [intros y Hy; apply Hz; by right|]. destruct Hex as [?|(y & [->|Hy]%elem_of_cons & Hyi)]; [by left|congruence|].
      right. by exists y.
Qed.
End Hwm.

(** ** Setting and reading back *)

(** The entries after [setLocalHWM]. *)
Definition hwm_entries (i : Z) (e : EMEntry) (h : Z) (old : option Z) (l : list EMEntry) : list EMEntry :=
  let l1 := l.[i <- set_hwm_status h EXTENTAVAILABLE e] in
  match old with
  | Some j => if j =? i then l1 else match l1.[j] with Some o => l1.[j <- set_hwm_status 0 (status o) o] | None => l1 end
  | None => l1
  end.

Lemma setLocalHWM_run OID part seg h (lock : bool) s i e :
  em_inv (u_mem s) → (∀ x, x ∈ live (u_mem s) → 0 ≤ blockOffset x) →
  let a := find_hwm OID part seg (em_tab (u_mem s)) in
  hs_last a = Some (i, e) → h < u32 (blockOffset e + u32 (ir_size (range e) * 1024)) →
  ∃ s', EM_setLocalHWM OID part seg h lock s = (Ret tt, s') ∧ em_inv (u_mem s') ∧
    em_tab (u_mem s') = hwm_entries i e h (hs_old a) (em_tab (u_mem s)).
Proof.
  intros Hi Hnn a Ha Hh. pose proof (keeps_setLocalHWM OID part seg h lock s Hi) as Hk.
  assert (∃ s', EM_setLocalHWM OID part seg h lock s = (Ret tt, s') ∧
    em_tab (u_mem s') = hwm_entries i e h (hs_old a) (em_tab (u_mem s))) as (s' & Hr & Ht).
  2: { exists s'. rewrite Hr in Hk. done. }
  unfold EM_setLocalHWM. assert (∃ s0, (if lock then grabEMEntryTable WRITE else mret tt) s = (Ret tt, s0) ∧
    em_inv (u_mem s0) ∧ em_tab (u_mem s0) = em_tab (u_mem s)) as (s0 & H0 & Hi0 & Ht0).
  { destruct lock; [|by eexists]. rewrite grabEM_run by apply Hi. eexists. split; [reflexivity|]. split; [by apply inv_locks|done]. }
  rewrite (bind_ret _ _ _ _ _ H0), get_mem_run, (proj1 (extents_all _ _ Hi0)), Ht0. fold a. rewrite Ha.
  rewrite (proj2 (Z.leb_gt _ _) Hh). unfold write_em. rewrite assoc_run, makeUndoRecord_bind, upd_mem_run.
  unfold hwm_entries. rewrite <- Ht0. destruct (hs_old a) as [j|] eqn:Ho; [|eexists; split; [reflexivity|done]].
  destruct (j =? i) eqn:Hj; [eexists; split; [reflexivity|done]|]. zbool.
  destruct (find_hwm_slots OID part seg (em_tab (u_mem s))) as [_ Hold]. destruct (Hold j Ho) as [o Hjo].
  assert (((em_tab (u_mem s0)).[i <- set_hwm_status h EXTENTAVAILABLE e]).[j] = Some o) as Hjo'.
  { rewrite zget_zset_ne by done. by rewrite Ht0. }
  unfold get_em. rewrite assoc_run, get_mem_run. cbn [u_mem set_em em_tab]. rewrite Hjo'. eexists. split; [reflexivity|done].
Qed.

Section SetGet.
Context (OID part seg h : Z) (l : list EMEntry).
Abbreviation inseg := (in_segment OID part seg).
Context (Hnn : ∀ x, x ∈ l → inseg x = true → 0 ≤ blockOffset x) (Hone : one_hwm OID part seg l).
Abbreviation a := (find_hwm OID part seg l).
Context (i : Z) (e : EMEntry) (Ha : hs_last a = Some (i, e)).
Abbreviation l' := (hwm_entries i e h (hs_old a) l).

(** The extent with the highest offset has the HWM, the others of the file none. *)
Lemma hwm_entries_get :
  l'.[i] = Some (set_hwm_status h EXTENTAVAILABLE e) ∧
  ∀ j f, l'.[j] = Some f → inseg f = true → j ≠ i → HWM f = 0.
Proof using All.
  destruct (find_hwm_spec OID part seg l Hnn) as [H1 _ H3 H4]. destruct (H1 i e Ha) as (Hi & He & _ & _).
  pose proof (zget_range _ _ _ Hi) as Hr. unfold hwm_entries.
  assert ((l.[i <- set_hwm_status h EXTENTAVAILABLE e]).[i] = Some (set_hwm_status h EXTENTAVAILABLE e)) as Hii by by apply zget_zset_eq.
  destruct (hs_old a) as [j|] eqn:Ho.
  - destruct (H3 j eq_refl) as (o & Hj & Ho1 & Ho2).
    assert (∀ k f, l.[k] = Some f → inseg f = true → k ≠ j → HWM f = 0) as Hz.
    { intros k f Hk Hf Hn. destruct (decide (HWM f = 0)); [done|]. destruct Hn. by apply (Hone k j f o). }
    destruct (j =? i) eqn:Hji; zbool.
    + subst j. split; [done|]. intros k f Hk Hf Hn. rewrite zget_zset_ne in Hk by done. by apply (Hz k).
    + rewrite zget_zset_ne by done. rewrite Hj. rewrite zget_zset_ne by done. split; [done|]. intros k f Hk Hf Hn.
      destruct (decide (k = j)) as [->|Hkj].
      * rewrite zget_zset_eq in Hk; [|rewrite zlength_zset; by apply zget_range in Hj]. by injection Hk as <-.
      * rewrite !zget_zset_ne in Hk by done. by apply (Hz k).
  - split; [done|]. intros k f Hk Hf Hn. rewrite zget_zset_ne in Hk by done. apply H4; [done| |done].
    apply zget_elem_of. eauto.
Qed.

Lemma hwm_entries_one : one_hwm OID part seg l'.
Proof using All.
  destruct hwm_entries_get as [_ Hz]. intros j k x y Hj Hk Hx Hy Nx Ny.
  destruct (decide (j = i)) as [->|]; [|by destruct Nx; apply (Hz j)].
  destruct (decide (k = i)) as [->|]; [done|by destruct Ny; apply (Hz k)].
Qed.

Lemma hwm_entries_local : ∃ st, local_hwm OID part seg l' None = Some (h, st) ∧ (h ≠ 0 → st = EXTENTAVAILABLE).
Proof using All.
  destruct hwm_entries_get as [Hi Hz]. destruct (find_hwm_spec OID part seg l Hnn) as [H1 _ _ _].
  destruct (H1 i e Ha) as (_ & He & _ & _). assert (inseg (set_hwm_status h EXTENTAVAILABLE e) = true) as He' by done.
  destruct (decide (h = 0)) as [H0|Hn].
  - destruct (local_hwm_none OID part seg l' None) as [st Hst].
    + intros x [j Hj]%zget_elem_of Hx. destruct (decide (j = i)) as [->|Hne]; [|by apply (Hz j)].
      rewrite Hi in Hj. injection Hj as <-. exact H0.
    + right. eexists. split; [apply zget_elem_of; eauto|done].
    + exists st. rewrite Hst. split; [by rewrite H0|done].
  - exists EXTENTAVAILABLE. split; [|done].
    by rewrite (local_hwm_one OID part seg l' None i (set_hwm_status h EXTENTAVAILABLE e)).
Qed.
End SetGet.

(** * Undoing the operations of the extent map *)


(** The same tables; the locks may differ. *)
Definition em_eq (m1 m2 : EMMem) : Prop :=
  em_info m1 = em_info m2 ∧ em_key m1 = em_key m2 ∧ em_tab m1 = em_tab m2 ∧
  fl_info m1 = fl_info m2 ∧ fl_key m1 = fl_key m2 ∧ fl_tab m1 = fl_tab m2.

#[export] Instance em_eq_undo : UndoRel em_eq.
Proof.
  split.
  - split; [by intros m|]. intros m1 m2 m3 (? & ? & ? & ? & ? & ?) (? & ? & ? & ? & ? & ?). unfold em_eq. split_and!; congruence.
  - intros d m1 m2 (H1 & H2 & H3 & H4 & H5 & H6). unfold em_eq. destruct d; cbn; split_and!; congruence.
Qed.

Lemma em_eq_locks ew fw er fr m : em_eq (set_locks ew fw er fr m) m.
Proof. done. Qed.

(** Taking locks. *)
Lemma recorded_grabEM op s : em_mapped (u_mem s) → recorded em_eq s (grabEMEntryTable op s).
Proof. intros Hm. rewrite grabEM_run by done. exists []. cbn. rewrite app_nil_r. split; [done|]. by destruct op. Qed.

Lemma recorded_grab_both s : em_mapped (u_mem s) → recorded em_eq s (grab_both s).
Proof. intros Hm. rewrite grab_both_run by done. exists []. cbn. by rewrite app_nil_r. Qed.

(** An entry that is imaged and replaced. *)
Lemma recorded_set_em i e e' s :
  (em_tab (u_mem s)).[i] = Some e →
  recorded em_eq s ((makeUndoRecord (DEM i e) ≫= fun _ => upd_mem (set_em i e')) s).
Proof.
  intros He. apply recorded_write; [apply _| |by intros []]. cbn. split_and!; try done. cbn. by rewrite zset_zset, zset_id.
Qed.

Lemma recorded_set_fl i r r' s :
  (fl_tab (u_mem s)).[i] = Some r →
  recorded em_eq s ((makeUndoRecord (DFL i r) ≫= fun _ => upd_mem (set_fl i r')) s).
Proof.
  intros He. apply recorded_write; [apply _| |by intros []]. cbn. split_and!; try done. cbn. by rewrite zset_zset, zset_id.
Qed.

(** A descriptor that is imaged and counted up or down. *)
Lemma recorded_fl_size n s :
  recorded em_eq s ((makeUndoRecord (DFLInfo (fl_info (u_mem s))) ≫= fun _ =>
    upd_mem (fun m => set_fl_info (add_size n (fl_info m)) m)) s).
Proof. apply recorded_write; [apply _| |by intros []]. by split_and!. Qed.

Lemma recorded_em_size n s :
  recorded em_eq s ((makeUndoRecord (DEMInfo (em_info (u_mem s))) ≫= fun _ =>
    upd_mem (fun m => set_em_info (add_size n (em_info m)) m)) s).
Proof. apply recorded_write; [apply _| |by intros []]. by split_and!. Qed.

(** [(a ≫= b) ≫= c] as one step after another. *)
Lemma recorded_seq {A B C} (a : M ExtentMap A) (b : A → M ExtentMap B) (c : B → M ExtentMap C) s :
  recorded em_eq s (((a ≫= b) ≫= c) s) → recorded em_eq s ((a ≫= fun x => b x ≫= c) s).
Proof. by rewrite assoc_run. Qed.

Lemma recorded_getLBIDs size s : recorded em_eq s (getLBIDsFromFreeList size s).
Proof.
  unfold getLBIDsFromFreeList. apply recorded_get. destruct (find_index _ _) as [[i r]|] eqn:Hf; [|apply recorded_ret, _].
  apply find_from_Some in Hf as (_ & Hr & _). rewrite Z.sub_0_r in Hr.
  assert ((fl_tab (u_mem s)).[i] = Some r) as Hr'.
  { unfold freelist, zget in *. destruct (i <? 0); [done|]. by apply lookup_take_Some in Hr as [? _]. }
  apply recorded_seq, recorded_bind; [apply _|by apply recorded_set_fl|]. intros [] s1 H1.
  assert (fl_info (u_mem s1) = fl_info (u_mem s)) as <-.
  { rewrite makeUndoRecord_bind in H1. by injection H1 as <-. }
  apply recorded_bind; [apply _| |intros []; intros; apply recorded_ret, _].
  case_if; [|apply recorded_ret, _]. apply recorded_fl_size.
Qed.

Lemma recorded_add_extent slot e s : recorded em_eq s (add_extent slot e s).
Proof.
  unfold add_extent. apply recorded_get. apply recorded_lift; [apply _|]. intros old Ho.
  destruct ((em_tab (u_mem s)).[slot]) as [o|] eqn:Hs; [|done]. injection Ho as ->.
  apply recorded_seq, recorded_bind; [apply _|by apply recorded_set_em|]. intros [] s1 H1.
  assert (em_info (u_mem s1) = em_info (u_mem s)) as <-.
  { rewrite makeUndoRecord_bind in H1. by injection H1 as <-. }
  apply recorded_em_size.
Qed.

Lemma recorded_create_with {A} size slot fault entry (res : Z → list EMEntry → A) s :
  recorded em_eq s (create_with size slot fault entry res s).
Proof.
  apply recorded_bind; [apply _|apply recorded_getLBIDs|]. intros lbid s1 _. apply recorded_get.
  repeat case_if; try apply recorded_ret, _.
  apply recorded_bind; [apply _|apply recorded_add_extent|]. intros; apply recorded_ret, _.
Qed.

(** The extent map does not have to grow. *)
Definition em_roomy (m : EMMem) : Prop := mst_currentSize (em_info m) ≠ allocdSize (em_info m).

(** Locks, then room, then a recorded operation. *)
Lemma recorded_prepare {A} (k : M ExtentMap A) s :
  em_inv (u_mem s) → em_roomy (u_mem s) → (∀ s', recorded em_eq s' (k s')) →
  recorded em_eq s ((grab_both ≫= fun _ => make_em_room ≫= fun _ => k) s).
Proof.
  intros Hi Hr Hk. apply recorded_bind; [apply _|by apply recorded_grab_both, Hi|]. intros [] s1 H1.
  rewrite grab_both_run in H1 by apply Hi. injection H1 as <-. unfold make_em_room. rewrite assoc_run, get_mem_run.
  cbn [u_mem set_locks em_info]. rewrite (proj2 (Z.eqb_neq _ _) Hr), mret_run. apply Hk.
Qed.

Section Recorded.
Context (s : ExtentMap) (Hi : em_inv (u_mem s)) (Hr : em_roomy (u_mem s)).

Lemma recorded_createColumn cfg OID w dbroot t part :
  recorded em_eq s (createColumnExtent_DBroot cfg OID w dbroot t part true s).
Proof using All.
  apply recorded_prepare; [done..|]. intros s'. apply recorded_bind; [apply _| |intros [] ? _; apply recorded_ret, _].
  rewrite createColumnExtent_eq. apply recorded_create_with.
Qed.

Lemma recorded_createExact OID w dbroot part seg t :
  recorded em_eq s (createColumnExtentExactFile OID w dbroot part seg t s).
Proof using All.
  apply recorded_prepare; [done..|]. intros s'. apply recorded_bind; [apply _| |intros [] ? _; apply recorded_ret, _].
  rewrite createExact_eq. apply recorded_create_with.
Qed.

Lemma recorded_createDict OID dbroot part seg : recorded em_eq s (createDictStoreExtent OID dbroot part seg s).
Proof using All.
  apply recorded_prepare; [done..|]. intros s'. apply recorded_bind; [apply _| |intros; apply recorded_ret, _].
  rewrite createDict_eq. apply recorded_create_with.
Qed.

(** High water marks. *)
Lemma recorded_setLocalHWM OID part seg h s0 : recorded em_eq s0 (EM_setLocalHWM OID part seg h false s0).
Proof.
  unfold EM_setLocalHWM. rewrite mret_run. apply recorded_get. destruct (hs_last _) as [[i e]|] eqn:Hl; [|apply recorded_ret, _].
  assert (∀ (l : list EMEntry) n j x, (take n l).[j] = Some x → l.[j] = Some x) as Htake.
  { intros l n j x. unfold zget. case_if; [done|]. by intros [? _]%lookup_take_Some. }
  destruct (find_hwm_slots OID part seg (extents (u_mem s0))) as [H1 H2]. apply H1, Htake in Hl.
  case_if; [apply recorded_ret, _|]. unfold write_em.
  apply recorded_bind; [apply _|by apply recorded_set_em|]. intros [] s1 _.
  destruct (hs_old _) as [j|]; [|apply recorded_ret, _]. case_if; [apply recorded_ret, _|].
  unfold get_em. rewrite assoc_run. apply recorded_get, recorded_lift; [apply _|]. intros o Ho.
  destruct ((em_tab (u_mem s1)).[j]) as [o'|] eqn:Hj; [|done]. injection Ho as ->. by apply recorded_set_em.
Qed.

Lemma recorded_bulkSetHWM v : recorded em_eq s (EM_bulkSetHWM v s).
Proof using All.
  apply recorded_bind; [apply _|by apply recorded_grabEM, Hi|]. intros [] s1 _. apply recorded_forM; [apply _|].
  intros a s2 _. apply recorded_setLocalHWM.
Qed.
End Recorded.

(** [EM_undoChanges] after a recorded operation. *)
Lemma undo_recorded {A} (op : M ExtentMap A) s :
  undoRecords s = [] → recorded em_eq s (op s) →
  ∃ s', EM_undoChanges (op s).2 = (Ret tt, s') ∧ em_eq (u_mem s') (u_mem s) ∧ undoRecords s' = [] ∧
    emLocked (u_mem s') = false ∧ flLocked (u_mem s') = false.
Proof.
  intros H0 Hr. destruct (recorded_undo_rel em_eq s (op s) H0 Hr) as (m' & Hu & He).
  unfold EM_undoChanges. rewrite (bind_ret _ _ _ _ _ Hu). unfold finishChanges. rewrite get_mem_run. cbn [u_mem].
  destruct (flLocked m') eqn:Hf, (emLocked m') eqn:Hl; eexists; (split; [reflexivity|]); cbn; rewrite ?Hf, ?Hl; done.
Qed.
