(* ===== verification/EmCpProofs.v ===== *)
(** * The protocol of the value ranges ([extentmap.cpp])

    A range computed by a query is taken only if the extent did not change since
    the query read its sequence number; ranges merged in contain both. *)

From S2P Require Import Prelude Undo Table Vbbm Vss ColType ExtentMap EmCp EmCreate EmDelete EmQuery EmSpace EmFree EmInv EmKeeps EmPlace EmLayout.

(** ** Sequence numbers *)

Lemma incSeqNum_mod n : 0 ≤ n ≤ EM_MAX_SEQNUM → incSeqNum n = (n + 1) mod (EM_MAX_SEQNUM + 1).
Proof.
  unfold incSeqNum, EM_MAX_SEQNUM. intros Hn. case_if; zbool.
  - replace (n + 1) with 2000000001 by lia. done.
  - rewrite Z.mod_small by lia. done.
Qed.

Lemma incSeqNum_range n : 0 ≤ n ≤ EM_MAX_SEQNUM → 0 ≤ incSeqNum n ≤ EM_MAX_SEQNUM.
Proof. unfold incSeqNum, EM_MAX_SEQNUM. intros Hn. case_if; zbool; lia. Qed.

(** [j] changes of a range of values: the number moves on with each. *)
Definition adv (j : nat) (c c' : EMCasualPartition) : Prop :=
  sequenceNum c' = Nat.iter j incSeqNum (sequenceNum c) ∧ (j = 0%nat → c' = c).

Lemma adv_0 c : adv 0 c c.
Proof. done. Qed.
Lemma adv_1 c c' : sequenceNum c' = incSeqNum (sequenceNum c) → adv 1 c c'.
Proof. done. Qed.

Lemma iter_add {A} (f : A → A) n m x : Nat.iter (n + m) f x = Nat.iter n f (Nat.iter m f x).
Proof. induction n as [|n IH]; [done|]. cbn. f_equal. apply IH. Qed.

Lemma adv_trans j k c1 c2 c3 : adv j c1 c2 → adv k c2 c3 → adv (k + j) c1 c3.
Proof.
  intros [H1 H2] [H3 H4]. split; [by rewrite iter_add, H3, H1|]. intros Hz. rewrite H4, H2 by lia. done.
Qed.

Lemma iter_incSeqNum n x :
  0 ≤ x ≤ EM_MAX_SEQNUM → Nat.iter n incSeqNum x = (x + Z.of_nat n) mod (EM_MAX_SEQNUM + 1).
Proof.
  intros Hx. induction n as [|n IH]; [cbn; rewrite Z.add_0_r, Z.mod_small by lia; done|].
  change (Nat.iter (S n) incSeqNum x) with (incSeqNum (Nat.iter n incSeqNum x)). rewrite IH, incSeqNum_mod.
  - rewrite Zplus_mod_idemp_l. f_equal. lia.
  - unfold EM_MAX_SEQNUM. change (2000000000 + 1) with 2000000001. pose proof (Z.mod_pos_bound (x + Z.of_nat n) 2000000001). lia.
Qed.

(** Up to 2000000000 changes leave another number. *)
Lemma adv_differ n c c' :
  adv n c c' → 0 ≤ sequenceNum c ≤ EM_MAX_SEQNUM → 0 < Z.of_nat n ≤ EM_MAX_SEQNUM → sequenceNum c' ≠ sequenceNum c.
Proof.
  intros [Hc _] Hr Hn. rewrite Hc, iter_incSeqNum by done. unfold EM_MAX_SEQNUM in *.
  destruct (decide (sequenceNum c + Z.of_nat n < 2000000001)).
  - rewrite Z.mod_small by lia. lia.
  - rewrite <- (Z.mod_add _ (-1)) by lia. rewrite Z.mod_small by lia. lia.
Qed.

Lemma set_cp_adv x c c' : set_cp x c = Some c' → adv 1 c c'.
Proof. intros H. apply adv_1. unfold set_cp in H. repeat case_if; naive_solver. Qed.
Lemma merge_cp_adv x c c' : merge_cp x c = Some c' → adv 1 c c'.
Proof. intros H. apply adv_1. unfold merge_cp in H. repeat case_if; naive_solver. Qed.

(** ** What the calls do to an extent *)

Section Advances.
Variable i : Z.

(** The entry in the slot has at most [n] changes of its range, and no others. *)
Definition slot_adv (n : nat) (s s' : ExtentMap) : Prop :=
  ∀ e, (em_tab (u_mem s)).[i] = Some e →
  ∃ j c, (em_tab (u_mem s')).[i] = Some (set_cprange c e) ∧ adv j (cprange e) c ∧ (j ≤ n)%nat.

Definition advances {A} (n : nat) (m : M ExtentMap A) : Prop := ∀ s, slot_adv n s (m s).2.

Lemma set_cprange_id e : set_cprange (cprange e) e = e.
Proof. by destruct e. Qed.

Lemma slot_adv_same n s s' : em_tab (u_mem s') = em_tab (u_mem s) → slot_adv n s s'.
Proof. intros Ht e He. exists 0%nat, (cprange e). rewrite Ht, set_cprange_id. split; [done|]. split; [done|lia]. Qed.

Lemma slot_adv_trans n m s1 s2 s3 : slot_adv n s1 s2 → slot_adv m s2 s3 → slot_adv (n + m) s1 s3.
Proof.
  intros H1 H2 e He. destruct (H1 e He) as (j & c & Hc & Ha & Hj). destruct (H2 _ Hc) as (k & c' & Hc' & Ha' & Hk).
  exists (k + j)%nat, c'. split; [|split; [|lia]].
  - rewrite Hc'. by destruct e.
  - eapply adv_trans; [done|]. by destruct e.
Qed.

Lemma slot_adv_le n m s s' : slot_adv n s s' → (n ≤ m)%nat → slot_adv m s s'.
Proof. intros H Hle e He. destruct (H e He) as (j & c & ? & ? & ?). exists j, c. split; [done|]. split; [done|lia]. Qed.

Lemma advances_keep {A} n (m : M ExtentMap A) : (∀ s, em_tab (u_mem (m s).2) = em_tab (u_mem s)) → advances n m.
Proof. intros H s. by apply slot_adv_same. Qed.

Lemma advances_bind {A B} n m (a : M ExtentMap A) (f : A → M ExtentMap B) :
  advances n a → (∀ x, advances m (f x)) → advances (n + m) (a ≫= f).
Proof.
  intros Ha Hf s. specialize (Ha s). unfold mbind, M_bind. destruct (a s) as [[x|e] s1]; cbn [snd] in *.
  - eapply slot_adv_trans; [done|apply Hf].
  - eapply slot_adv_le; [done|lia].
Qed.

Lemma advances_catch {A} n (a : M ExtentMap A) h : advances n a → (∀ e, advances 0 (h e)) → advances n (catch a h).
Proof.
  intros Ha Hh s. specialize (Ha s). unfold catch. destruct (a s) as [[x|e] s1]; cbn [snd] in *; [done|].
  destruct (is_exception e); [|done]. replace n with (n + 0)%nat by lia. eapply slot_adv_trans; [done|apply Hh].
Qed.

Lemma advances_ret {A} n (x : A) : advances n (mret x).
Proof. by apply advances_keep. Qed.
Lemma advances_throw {A} n e : advances n (throw (A := A) e).
Proof. by apply advances_keep. Qed.

(** Replacing the range in a slot. *)
Lemma advances_store {A} n j c e s (r : A) :
  (em_tab (u_mem s)).[j] = Some e → (j = i → adv 1 (cprange e) c) → (if decide (j = i) then 1 ≤ n else 0 ≤ n)%nat →
  slot_adv n s ((makeUndoRecord (DEM j e) ≫= fun _ => upd_mem (set_em j (set_cprange c e)) ≫= fun _ => mret r) s).2.
Proof.
  intros Hj Ha Hn x Hx. rewrite makeUndoRecord_bind, upd_mem_run. cbn. case_decide as Hji.
  - subst j. rewrite Hx in Hj. injection Hj as ->. exists 1%nat, c. rewrite zget_zset_eq by by apply zget_range in Hx.
    split; [done|]. split; [by apply Ha|done].
  - exists 0%nat, (cprange x). rewrite zget_zset_ne, set_cprange_id by done. split; [done|]. split; [done|lia].
Qed.

Lemma found_slot p m j e : find_index p (extents m) = Some (j, e) → (em_tab m).[j] = Some e ∧ p e = true.
Proof.
  intros Hf. apply find_from_Some in Hf as (_ & Hj & Hx). rewrite Z.sub_0_r in Hj. split; [|done].
  unfold extents, zget in *. case_if; [done|]. by apply lookup_take_Some in Hj as [? _].
Qed.

Lemma advances_markInvalid_ l t : advances 1 (markInvalid_ l t).
Proof.
  intros s. unfold markInvalid_. rewrite get_mem_run. destruct (find_index _ _) as [[j e]|] eqn:Hf; [|by apply slot_adv_same].
  destruct (found_slot _ _ _ _ Hf) as [Hj _]. apply advances_store; [done|by intros _|case_decide; lia].
Qed.

Lemma advances_mark_each lbids ts : advances (length lbids) (mark_each lbids ts).
Proof.
  revert ts. induction lbids as [|l lbids IH]; intros ts; cbn [mark_each length]; [apply advances_ret|].
  apply (advances_bind 0); [by apply advances_keep|]. intros t. apply (advances_bind 1 (length lbids)); [|intros _; apply IH].
  apply advances_catch; [apply advances_markInvalid_|]. intros e. apply advances_ret.
Qed.

(** A loop that changes the ranges of some slots, each at most once. *)
Lemma advances_slots {X} (set : X → EMCasualPartition → option EMCasualPartition)
    (next : gmap Z X → Z → gmap Z X) (loop : gmap Z X → list Z → nat → M ExtentMap unit) :
  (∀ x c c', set x c = Some c' → adv 1 c c') →
  (∀ cpMap n, loop cpMap [] n = throw LogicError) →
  (∀ cpMap j slots n, loop cpMap (j :: slots) n =
     (m ← get_mem;
      e ← lift (deref ((em_tab m).[j]));
      if ir_size (range e) =? 0 then loop cpMap slots n
      else match cpMap !! ir_start (range e) with
           | None => loop cpMap slots n
           | Some x =>
               match set x (cprange e) with
               | Some c => makeUndoRecord (DEM j e) ≫= fun _ => upd_mem (set_em j (set_cprange c e))
               | None => mret tt
               end ≫= fun _ =>
               match n with
               | 1%nat => mret tt
               | _ => loop (next cpMap (ir_start (range e))) slots (n - 1)%nat
               end
           end)) →
  ∀ slots cpMap n, NoDup slots → advances (if decide (i ∈ slots) then 1 else 0) (loop cpMap slots n).
Proof.
  intros Hset Hnil Hcons slots. induction slots as [|j slots IH]; intros cpMap n Hnd; [rewrite Hnil; apply advances_throw|].
  apply NoDup_cons in Hnd as [Hj Hnd]. intros s. rewrite Hcons, get_mem_run. set (b := if decide (i ∈ j :: slots) then 1%nat else 0%nat).
  assert (∀ cpMap' n' s', slot_adv b s' (loop cpMap' slots n' s').2) as Hrest.
  { intros cpMap' n' s'. eapply slot_adv_le; [by apply IH|]. unfold b. repeat case_decide; try lia. set_solver. }
  destruct ((em_tab (u_mem s)).[j]) as [e|] eqn:He; [|by apply slot_adv_same]. cbn [deref]. rewrite lift_run.
  destruct (ir_size (range e) =? 0); [apply Hrest|]. destruct (cpMap !! ir_start (range e)) as [x|]; [|apply Hrest].
  assert (∀ s', slot_adv (if decide (i ∈ slots) then 1 else 0) s'
    ((match n with 1%nat => mret tt | _ => loop (next cpMap (ir_start (range e))) slots (n - 1)%nat end) s').2) as Htail.
  { intros s'. destruct n as [|[|n]]; [by apply IH|by apply slot_adv_same|by apply IH]. }
  destruct (set x (cprange e)) as [c|] eqn:Hc.
  - replace b with ((if decide (j = i) then 1 else 0) + (if decide (i ∈ slots) then 1 else 0))%nat.
    + rewrite assoc_run, makeUndoRecord_bind, upd_mem_run. eapply slot_adv_trans; [|apply Htail].
      pose proof (advances_store (if decide (j = i) then 1 else 0) j c e s tt He) as Hst. rewrite makeUndoRecord_bind, upd_mem_run in Hst.
      apply Hst; [intros _; by eapply Hset|by case_decide].
    + unfold b. repeat case_decide; subst; try done; set_solver.
  - rewrite mret_run. eapply slot_adv_le; [apply Htail|]. unfold b. repeat case_decide; try lia. set_solver.
Qed.
End Advances.

(** ** The calls on an extent *)

Section Calls.
Context (s : ExtentMap) (Hi : em_inv (u_mem s)) (i : Z) (e : EMEntry) (lbid : Z).
Context (He : (em_tab (u_mem s)).[i] = Some e) (Hl : has_lbid lbid e = true).

(** The extent of the LBID is found. *)
Lemma find_lbid : find_index (has_lbid lbid) (extents (u_mem s)) = Some (i, e).
Proof using All.
  rewrite (proj1 (extents_all _ _ Hi)). destruct (find_index _ _) as [[j x]|] eqn:Hf.
  - apply find_from_Some in Hf as (_ & Hj & Hx). rewrite Z.sub_0_r in Hj.
    pose proof (proj1 (proj1 (has_lbid_iff _ _) Hl)) as Hu. pose proof (proj1 (proj1 (has_lbid_iff _ _) Hx)) as Hux.
    destruct (decide (j = i)) as [->|Hne]; [congruence|exfalso].
    destruct (used_zset2 em_used (em_tab (u_mem s)) i j e x) as (rest & Hp & _); [done..|].
    unfold opt_used in Hp. rewrite Hu, Hux in Hp. cbn in Hp.
    apply has_lbid_iff in Hl as [_ Bl], Hx as [_ Bx].
    pose proof (ei_space _ _ Hi lbid) as Hs. unfold em_ranges in Hs. rewrite Hp in Hs. cbn in Hs.
    pose proof (cover_nonneg (free_ranges (u_mem s)) lbid). pose proof (cover_nonneg (range <$> rest) lbid).
    rewrite (proj2 (ind_one _ _) Bl), (proj2 (ind_one _ _) Bx) in Hs. case_if; lia.
  - pose proof (find_from_None _ _ _ e Hf) as Hn. rewrite Hn in Hl; [done|]. apply zget_elem_of. eauto.
Qed.

(** [getMaxMin] reads the range and the number. *)
Lemma getMaxMin_run :
  getMaxMin lbid s = (Ret (isValid (cprange e), hi_val (cprange e), lo_val (cprange e), sequenceNum (cprange e)), s).
Proof using All.
  unfold getMaxMin. rewrite (bind_ret _ _ _ _ _ (grabEM_run READ s (ei_mapped _ _ Hi))), get_mem_run.
  unfold releaseEMEntryTable. rewrite upd_mem_run. cbn [u_mem].
  change (extents (set_locks (emLocked (u_mem s)) (flLocked (u_mem s)) (emReaders (u_mem s) + 1) (flReaders (u_mem s)) (u_mem s)))
    with (extents (u_mem s)). rewrite find_lbid. destruct s as [[] log]. cbn. unfold set_locks. cbn. by rewrite Z.add_simpl_r.
Qed.

(** The state after an entry was replaced. *)
Definition cp_stored (c : EMCasualPartition) (s' : ExtentMap) : Prop :=
  em_inv (u_mem s') ∧ em_tab (u_mem s') = (em_tab (u_mem s)).[i <- set_cprange c e].

Lemma setMaxMin_run mx mn seq :
  ∃ s', setMaxMin lbid mx mn seq s = (Ret 0, s') ∧ em_inv (u_mem s') ∧
    em_tab (u_mem s') =
      if sequenceNum (cprange e) =? seq
      then (em_tab (u_mem s)).[i <- set_cprange (mkCP mx mn (incSeqNum seq) CP_VALID) e]
      else if seq =? -1
      then (em_tab (u_mem s)).[i <- set_cprange (mkCP (hi_val (cprange e)) (lo_val (cprange e))
                                      (incSeqNum (sequenceNum (cprange e))) CP_INVALID) e]
      else em_tab (u_mem s).
Proof using All.
  pose proof (keeps_setMaxMin lbid mx mn seq s Hi) as Hk. unfold setMaxMin in *.
  rewrite (bind_ret _ _ _ _ _ (grabEM_run WRITE s (ei_mapped _ _ Hi))), get_mem_run in *. cbn [u_mem] in *.
  change (extents (set_locks true (flLocked (u_mem s)) (emReaders (u_mem s)) (flReaders (u_mem s)) (u_mem s)))
    with (extents (u_mem s)) in *. rewrite find_lbid in *.
  destruct (sequenceNum (cprange e) =? seq) eqn:Hs; [|destruct (seq =? -1)]; eexists; (split; [reflexivity|]); (split; [exact Hk|]); try done.
  zbool. by subst seq.
Qed.

Lemma markInvalid_run t :
  ∃ s', markInvalid lbid t s = (Ret 0, s') ∧ em_inv (u_mem s') ∧ em_tab (u_mem s') = (em_tab (u_mem s)).[i <- set_cprange
    (mkCP (fst (no_values t)) (snd (no_values t)) (incSeqNum (sequenceNum (cprange e))) CP_UPDATING) e].
Proof using All.
  pose proof (keeps_markInvalid_ lbid t) as Hk. unfold markInvalid.
  rewrite (bind_ret _ _ _ _ _ (grabEM_run WRITE s (ei_mapped _ _ Hi))).
  set (s0 := mkUndoable _ _). specialize (Hk s0 (inv_locks [] _ _ _ _ _ Hi)). unfold markInvalid_ in *.
  rewrite get_mem_run in *. change (extents (u_mem s0)) with (extents (u_mem s)) in *. rewrite find_lbid in *.
  eexists. split; [reflexivity|]. split; [exact Hk|done].
Qed.
End Calls.

(** ** Sequences of calls *)

(** The calls that change ranges of values, and how often each may change one. *)
Definition cp_op (o : em_op) : bool :=
  match o with
  | OpMarkInvalid _ _ | OpSetMaxMin _ _ _ _ | OpSetExtentsMaxMin _ | OpMergeExtentsMaxMin _ => true
  | _ => false
  end.
Definition cp_weight (o : em_op) : nat :=
  match o with OpMarkInvalid lbids _ => length lbids | _ => 1 end.

(** A call, whether it returns or throws, and its confirmation. *)
Definition cp_call (cfg : EMConfig) (o : em_op) (s : ExtentMap) : ExtentMap :=
  (EM_confirmChanges (run_op cfg o s).2).2.
Definition cp_calls (cfg : EMConfig) (os : list em_op) (s : ExtentMap) : ExtentMap :=
  foldl (fun s o => cp_call cfg o s) s os.

Lemma confirm_tab s : em_tab (u_mem (EM_confirmChanges s).2) = em_tab (u_mem s).
Proof.
  unfold EM_confirmChanges, finishChanges, mbind, M_bind, get_mem, gets, releaseFreeList, releaseEMEntryTable, upd_mem, modify, mret, M_ret.
  cbn. by destruct (flLocked _), (emLocked _).
Qed.

Lemma cp_call_inv cfg o s : cp_op o = true → op_ok o → em_inv (u_mem s) → em_inv (u_mem (cp_call cfg o s)).
Proof.
  intros Hcp Hok Hi. assert (em_inv (u_mem (run_op cfg o s).2)) as Hi1.
  { assert (triple em_inv (run_op cfg o) (fun _ => em_inv)) as Hk; [|specialize (Hk s Hi); by destruct (run_op cfg o s) as [[]]; [|apply Hk]].
    destruct o; try discriminate Hcp; cbn [run_op op_ok] in *; try apply triple_no_result.
    - apply (triple_seq em_inv); [apply triple_grabEM, _|]. intros _.
      apply (triple_seq em_inv); [by apply keeps_mark_each|]. intros []. by apply triple_ret.
    - apply keeps_setMaxMin.
    - apply keeps_setExtentsMaxMin.
    - apply keeps_mergeExtentsMaxMin. }
  pose proof (keeps_confirm _ Hi1) as Hk. unfold cp_call. destruct (EM_confirmChanges _) as [[]]; [done|apply Hk].
Qed.

Lemma advances_no_result {A} i n (m : M ExtentMap A) s : slot_adv i n s (m s).2 → slot_adv i n s (no_result m s).2.
Proof. unfold no_result, mbind, M_bind. by destruct (m s) as [[] ?]. Qed.

Lemma run_op_adv cfg i o s :
  cp_op o = true → em_inv (u_mem s) → slot_adv i (cp_weight o) s (run_op cfg o s).2.
Proof.
  intros Hcp Hi. destruct o as [lbids ts|lbid mx mn seq|cpMap|cpMap| | | | | | | | | | | | | | | | | | |]; try discriminate Hcp;
    cbn [run_op cp_weight]; try apply advances_no_result.
  - unfold markInvalid_list. rewrite (bind_ret _ _ _ _ _ (grabEM_run WRITE s (ei_mapped _ _ Hi))).
    set (s1 := mkUndoable _ _). replace (length lbids) with (0 + (length lbids + 0))%nat by lia.
    apply (slot_adv_trans _ 0 _ s s1); [by apply slot_adv_same|].
    refine (advances_bind i _ 0 _ _ _ _ _); [apply advances_mark_each|intros []; apply advances_ret].
  - unfold setMaxMin. rewrite (bind_ret _ _ _ _ _ (grabEM_run WRITE s (ei_mapped _ _ Hi))), get_mem_run.
    set (s1 := mkUndoable _ _). eapply (slot_adv_trans _ 0 1 s s1); [by apply slot_adv_same|].
    destruct (find_index _ _) as [[j e]|] eqn:Hf; [|by destruct (emLocked _); apply slot_adv_same].
    destruct (found_slot _ _ _ _ Hf) as [Hj _].
    destruct (sequenceNum (cprange e) =? seq); [|destruct (seq =? -1)]; try by apply slot_adv_same.
    all: apply advances_store; [done|by intros _|case_decide; lia].
  - unfold setExtentsMaxMin. cbn zeta. rewrite (bind_ret _ _ _ _ _ (grabEM_run WRITE s (ei_mapped _ _ Hi))), get_mem_run.
    set (s1 := mkUndoable _ _). apply (slot_adv_trans _ 0 1 s s1); [by apply slot_adv_same|].
    eapply slot_adv_le; [refine (advances_slots i set_cp (fun m _ => m) set_cp_loop set_cp_adv _ _ _ _ _ _ _); [done|done|apply zseq_nodup]|].
    case_decide; lia.
  - unfold mergeExtentsMaxMin. cbn zeta. rewrite (bind_ret _ _ _ _ _ (grabEM_run WRITE s (ei_mapped _ _ Hi))), get_mem_run.
    set (s1 := mkUndoable _ _). apply (slot_adv_trans _ 0 1 s s1); [by apply slot_adv_same|].
    eapply slot_adv_le; [refine (advances_slots i merge_cp (fun m l => delete l m) merge_cp_loop merge_cp_adv _ _ _ _ _ _ _); [done|done|apply zseq_nodup]|].
    case_decide; lia.
Qed.

Lemma cp_call_adv cfg i o s :
  cp_op o = true → em_inv (u_mem s) → slot_adv i (cp_weight o) s (cp_call cfg o s).
Proof. intros Hcp Hi e He. unfold cp_call. rewrite confirm_tab. by apply (run_op_adv cfg i o s). Qed.

Definition cp_ok (o : em_op) : Prop := cp_op o = true ∧ op_ok o.

Lemma cp_calls_adv cfg i os s :
  Forall cp_ok os → em_inv (u_mem s) →
  em_inv (u_mem (cp_calls cfg os s)) ∧ slot_adv i (sum_list (cp_weight <$> os)) s (cp_calls cfg os s).
Proof.
  intros Hos. revert s. induction Hos as [|o os [Hcp Hok] Hos IH]; intros s Hi; [split; [done|by apply slot_adv_same]|].
  destruct (IH (cp_call cfg o s)) as [H1 H2]; [by apply cp_call_inv|]. split; [done|].
  eapply slot_adv_trans; [by apply cp_call_adv|done].
Qed.

(** Marking an extent by any of its LBIDs moves its number on. *)
Lemma mark_each_touch i lbids ts s e l :
  length ts = length lbids → em_inv (u_mem s) → (em_tab (u_mem s)).[i] = Some e → l ∈ lbids → has_lbid l e = true →
  ∃ j c, (em_tab (u_mem (mark_each lbids ts s).2)).[i] = Some (set_cprange c e) ∧ adv j (cprange e) c ∧ (1 ≤ j ≤ length lbids)%nat.
Proof.
  intros Hlen Hi He Hin Hl. revert ts s e Hlen Hi He Hl. induction lbids as [|l0 lbids IH]; intros [|t ts] s e Hlen Hi He Hl; try done;
    [by apply elem_of_nil in Hin|]. cbn [mark_each head deref tail]. rewrite lift_run. cbn [length].
  pose proof (keeps_markInvalid_ l0 t s Hi) as Hk. pose proof (advances_markInvalid_ i l0 t s e He) as (j & c & Hs1 & Ha & Hj).
  assert (∃ x s1, catch (markInvalid_ l0 t) (fun _ => mret 0) s = (Ret x, s1) ∧ em_inv (u_mem s1) ∧ s1 = (markInvalid_ l0 t s).2)
    as (x & s1 & Hc & Hi1 & E1).
  { unfold catch. destruct (markInvalid_ l0 t s) as [[x|ex] s1]; [by exists x, s1|]. destruct Hk as [Hex Hk].
    destruct ex; try discriminate Hex; by exists 0, s1. }
  rewrite (bind_ret _ _ _ _ _ Hc). rewrite <- E1 in Hs1. destruct (has_lbid l0 e) eqn:Hl0.
  - assert (c = mkCP (fst (no_values t)) (snd (no_values t)) (incSeqNum (sequenceNum (cprange e))) CP_UPDATING) as Hce.
    { unfold markInvalid_ in E1. rewrite get_mem_run, (find_lbid s Hi i e l0 He Hl0), makeUndoRecord_bind, upd_mem_run in E1.
      rewrite E1 in Hs1. cbn in Hs1. rewrite zget_zset_eq in Hs1 by by apply zget_range in He.
      apply (f_equal (fmap cprange)) in Hs1. destruct e. cbn in Hs1. by injection Hs1. }
    destruct (advances_mark_each i lbids ts s1 _ Hs1) as (k & c' & Hs2 & Ha2 & Hk2). exists (k + 1)%nat, c'.
    split; [rewrite Hs2; by destruct e|]. split; [|lia]. eapply adv_trans; [|by destruct e]. apply adv_1. by rewrite Hce.
  - apply elem_of_cons in Hin as [->|Hin]; [by rewrite Hl0 in Hl|].
    destruct (IH Hin ts s1 (set_cprange c e)) as (k & c' & Hs2 & Ha2 & Hk2); [cbn in *; lia|done|done|by destruct e|].
    exists (k + j)%nat, c'. split; [rewrite Hs2; by destruct e|]. split; [|lia]. eapply adv_trans; [done|]. by destruct e.
Qed.

(** The call changed the range or the state of the extent in the slot, or marked it. *)
Definition values (c : EMCasualPartition) : Z * Z * Z := (hi_val c, lo_val c, isValid c).
Definition touched (i : Z) (o : em_op) (s s' : ExtentMap) : Prop :=
  ∃ e, (em_tab (u_mem s)).[i] = Some e ∧
  ((∃ lbids ts l, o = OpMarkInvalid lbids ts ∧ l ∈ lbids ∧ has_lbid l e = true) ∨
   ∃ e', (em_tab (u_mem s')).[i] = Some e' ∧ values (cprange e') ≠ values (cprange e)).

Lemma touched_adv cfg i o s :
  cp_ok o → em_inv (u_mem s) → touched i o s (cp_call cfg o s) →
  ∃ e j c, (em_tab (u_mem s)).[i] = Some e ∧ (em_tab (u_mem (cp_call cfg o s))).[i] = Some (set_cprange c e) ∧
    adv j (cprange e) c ∧ (1 ≤ j ≤ cp_weight o)%nat.
Proof.
  intros [Hcp Hok] Hi (e & He & Ht). exists e. destruct Ht as [(lbids & ts & l & -> & Hin & Hl)|(e' & He' & Hne)].
  - unfold cp_call. rewrite confirm_tab. cbn [run_op cp_weight op_ok] in *. unfold markInvalid_list, no_result.
    unfold mbind at 1, M_bind at 1. rewrite (bind_ret _ _ _ _ _ (grabEM_run WRITE s (ei_mapped _ _ Hi))). set (s1 := mkUndoable _ _).
    destruct (mark_each_touch i lbids ts s1 e l Hok) as (j & c & Hs & Ha & Hj); [by apply inv_locks|done|done|done|].
    exists j, c. split; [done|]. split; [|done]. rewrite <- Hs. unfold mbind, M_bind. by destruct (mark_each lbids ts s1) as [[]].
  - destruct (cp_call_adv cfg i o s Hcp Hi e He) as (j & c & Hs & Ha & Hj). exists j, c. split; [done|]. split; [done|]. split; [done|].
    split; [|done]. destruct j as [|j]; [|lia]. destruct Ha as [_ Ha]. rewrite Hs in He'. injection He' as <-.
    rewrite (Ha eq_refl) in Hne. by destruct e.
Qed.

(** A sequence of calls of which one touches the extent. *)
Lemma cp_calls_touched cfg before o after s0 i e0 :
  em_inv (u_mem s0) → (em_tab (u_mem s0)).[i] = Some e0 → Forall cp_ok before → cp_ok o → Forall cp_ok after →
  let s1 := cp_calls cfg before s0 in
  let s2 := cp_call cfg o s1 in
  let s := cp_calls cfg after s2 in
  touched i o s1 s2 →
  ∃ n c, em_inv (u_mem s) ∧ (em_tab (u_mem s)).[i] = Some (set_cprange c e0) ∧ adv n (cprange e0) c ∧
    (1 ≤ n ≤ sum_list (cp_weight <$> before ++ o :: after))%nat.
Proof.
  intros Hi0 He0 Hb Ho Ha s1 s2 s Ht. destruct (cp_calls_adv cfg i before s0 Hb Hi0) as [Hi1 A1]. fold s1 in Hi1, A1.
  destruct (touched_adv cfg i o s1 Ho Hi1 Ht) as (e & k & c2 & He & Hs2 & Hk & Hkn).
  assert (em_inv (u_mem s2)) as Hi2 by (apply cp_call_inv; [apply Ho|apply Ho|done]).
  destruct (cp_calls_adv cfg i after s2 Ha Hi2) as [Hi A3]. fold s in Hi, A3.
  destruct (A1 e0 He0) as (j & c1 & Hs1 & Hj & Hjn). rewrite He in Hs1. injection Hs1 as ->.
  destruct (A3 _ Hs2) as (l & c3 & Hs3 & Hl & Hln). exists (l + (k + j))%nat, c3. split; [done|].
  split; [rewrite Hs3; by destruct e0|]. split.
  - eapply adv_trans; [eapply adv_trans; [done|]|]; by destruct e0.
  - rewrite fmap_app, (sum_list_with_app id). change (sum_list (cp_weight <$> o :: after)) with (cp_weight o + sum_list (cp_weight <$> after))%nat. lia.
Qed.

(** ** Merging ranges *)

(** The order of strings: byte by byte; the first byte is compared as a signed
    number, as the first of an [int64_t], the others are unsigned. *)
Fixpoint lex_le (l l' : list Z) : Prop :=
  match l, l' with
  | x :: l1, y :: l1' => x < y ∨ x = y ∧ lex_le l1 l1'
  | [], _ => True
  | _, [] => False
  end.
Definition string_le (x y : Z) : Prop :=
  match le_bytes 8 x, le_bytes 8 y with
  | a :: l, b :: l' => wrap_s 8 a < wrap_s 8 b ∨ a = b ∧ lex_le l l'
  | _, _ => False
  end.

(** The values are in order, by the type of the column; a [char] is in memory as a
    string, its first character in the lowest byte. *)
Definition value_le (t : ColDataType) (x y : Z) : Prop :=
  if isCharType t then string_le x y
  else if isUnsigned t then u64 x ≤ u64 y
  else x ≤ y.

(** The value is in the range. *)
Definition in_cp (t : ColDataType) (mx mn v : Z) : Prop := value_le t mn v ∧ value_le t v mx.

(** The number of big-endian bytes. *)
Fixpoint be_number (l : list Z) : Z :=
  match l with [] => 0 | b :: l' => b * 256 ^ Z.of_nat (length l') + be_number l' end.

Lemma le_value_snoc l b : le_value (l ++ [b]) = le_value l + b * 256 ^ Z.of_nat (length l).
Proof.
  induction l as [|x l IH]; [cbn; lia|]. cbn [le_value app length]. rewrite IH, Nat2Z.inj_succ, Z.pow_succ_r by lia. lia.
Qed.

Lemma le_value_rev l : le_value (rev l) = be_number l.
Proof.
  induction l as [|b l IH]; [done|]. cbn [rev be_number]. rewrite le_value_snoc, IH, length_rev. lia.
Qed.

Definition all_bytes (l : list Z) : Prop := Forall (fun b => 0 ≤ b < 256) l.

Lemma be_number_bounds l : all_bytes l → 0 ≤ be_number l < 256 ^ Z.of_nat (length l).
Proof.
  induction 1 as [|b l Hb Hl IH]; [cbn; lia|]. cbn [be_number length]. rewrite Nat2Z.inj_succ, Z.pow_succ_r by lia. nia.
Qed.

Lemma lex_be l l' : all_bytes l → all_bytes l' → length l = length l' → lex_le l l' ↔ be_number l ≤ be_number l'.
Proof.
  intros Hl. revert l'. induction Hl as [|x l Hx Hl IH]; intros [|y l'] Hl' Hlen; try done.
  apply Forall_cons in Hl' as [Hy Hl']. cbn in Hlen. injection Hlen as Hlen. cbn [lex_le be_number]. rewrite IH by done.
  pose proof (be_number_bounds _ Hl). pose proof (be_number_bounds _ Hl'). rewrite <- Hlen in *.
  set (p := 256 ^ Z.of_nat (length l)) in *. split; [intros [?|[-> ?]]; nia|]. intros Hle. destruct (decide (x < y)); [by left|].
  right. assert (x = y) as -> by nia. split; [done|lia].
Qed.

(** The number that is compared is the signed first byte and the others. *)
Lemma cp_key_char x a l :
  le_bytes 8 x = a :: l → i64 (uint64ToStr (u64 x)) = wrap_s 8 a * 256 ^ 7 + be_number l ∧ all_bytes (a :: l) ∧ length l = 7%nat.
Proof.
  intros Hb. pose proof (le_bytes_byte 8 x) as Hall. rewrite Hb in Hall. pose proof (length_le_bytes 8 x) as Hlen. rewrite Hb in Hlen.
  injection Hlen as Hlen. split; [|done]. unfold uint64ToStr. assert (le_bytes 8 (u64 x) = a :: l) as ->.
  { rewrite <- Hb. apply (le_bytes_mod 8). }
  rewrite le_value_rev. cbn [be_number]. rewrite Hlen. apply Forall_cons in Hall as [Ha Hl]. unfold is_byte in Ha. pose proof (be_number_bounds _ Hl) as Hv. rewrite Hlen in Hv.
  change (256 ^ Z.of_nat 7) with (2 ^ 56) in *. change (256 ^ 7) with (2 ^ 56).
  unfold wrap_s. rewrite (Z.mod_small a) by lia. rewrite Z.mod_small by lia.
  change (2 ^ (64 - 1)) with (2 ^ 63). change (2 ^ (8 - 1)) with 128. change (2 ^ 8) with 256. repeat case_if; zbool; lia.
Qed.

(** The comparisons of [mergeExtentsMaxMin] are those of the order. *)
Lemma cp_key_le t x y : cp_key t x ≤ cp_key t y ↔ value_le t x y.
Proof.
  unfold cp_key, value_le. destruct (isCharType t); [|by destruct (isUnsigned t)]. unfold string_le.
  destruct (le_bytes 8 x) as [|a l] eqn:Hx; [by apply (f_equal length) in Hx|].
  destruct (le_bytes 8 y) as [|b l'] eqn:Hy; [by apply (f_equal length) in Hy|].
  destruct (cp_key_char x a l Hx) as (-> & [Ha Hl]%Forall_cons & Hn). destruct (cp_key_char y b l' Hy) as (-> & [Hb Hl']%Forall_cons & Hn').
  rewrite lex_be by (done || lia). pose proof (be_number_bounds _ Hl) as B. pose proof (be_number_bounds _ Hl') as B'.
  rewrite Hn in B. rewrite Hn' in B'. change (256 ^ Z.of_nat 7) with (256 ^ 7) in *.
  assert (wrap_s 8 a = wrap_s 8 b → a = b) as Hinj.
  { unfold wrap_s. change (2 ^ (8 - 1)) with 128. change (2 ^ 8) with 256. rewrite !Z.mod_small by lia. repeat case_if; zbool; lia. }
  split.
  - intros Hle. destruct (decide (wrap_s 8 a < wrap_s 8 b)); [by left|right]. assert (wrap_s 8 a = wrap_s 8 b) as E by nia. split; [by apply Hinj|]. rewrite E in Hle. lia.
  - intros [?|[-> ?]]; nia.
Qed.

Lemma merge_cp_contains x c c' :
  merge_cp x c = Some c' → isValid c = CP_VALID →
  isValidCPRange (mg_max x) (mg_min x) (mg_type x) = true ∧ isValid c' = CP_VALID ∧
  sequenceNum c' = incSeqNum (sequenceNum c) ∧
  (∀ v, in_cp (mg_type x) (mg_max x) (mg_min x) v → in_cp (mg_type x) (hi_val c') (lo_val c') v) ∧
  (isValidCPRange (hi_val c) (lo_val c) (mg_type x) = true →
   ∀ v, in_cp (mg_type x) (hi_val c) (lo_val c) v → in_cp (mg_type x) (hi_val c') (lo_val c') v).
Proof.
  intros Hm Hv. unfold merge_cp in Hm. rewrite Hv, Z.eqb_refl in Hm.
  destruct (isValidCPRange (mg_max x) (mg_min x) (mg_type x)) eqn:Hx; cbn in Hm; [|done].
  destruct (isValidCPRange (hi_val c) (lo_val c) (mg_type x)) eqn:Hc; injection Hm as <-; cbn; split_and!; try done;
    intros; unfold in_cp in *; rewrite <- !cp_key_le in *; repeat case_if; zbool; lia.
Qed.
