(* ===== verification/EmReserve.v ===== *)
(** * Taking LBIDs out of the free list when loading ([ExtentMap::reserveLBIDRange]) *)

From S2P Require Import Prelude BinFile Undo Table Vbbm Vss ColType ExtentMap EmCp EmCreate EmDelete EmQuery EmFile EmSpace EmFree.

(** The free list has every LBID that is not in a range held. *)
Record fl_space (held : list InlineLBIDRange) (m : EMMem) : Prop := {
  fs_wf : fl_wf (fl_info m) (fl_tab m);
  fs_cover : ∀ x, cover (free_ranges m) x + cover held x = if (0 <=? x) && (x <? 2 ^ 36) then 1 else 0;
  fs_key : 0 < fl_key m ∧ fl_key m = tableShmkey (fl_info m);
  fs_alloc : 0 < allocdSize (fl_info m);
}.

Section Reserve.
Context (held : list InlineLBIDRange) (s : ExtentMap) (Hs : fl_space held (u_mem s)).
Abbreviation m := (u_mem s).
Abbreviation fl := (fl_tab m).

Lemma fs_all : freelist m = fl ∧ flEntries m = zlength fl.
Proof using Hs.
  destruct Hs as [[Hl _ _ _] _ _ _]. unfold freelist, flEntries, sizeof_InlineLBIDRange in *.
  rewrite Hl, Z.mul_comm, Z.div_mul by lia. split; [|done]. apply take_ge. unfold zlength. lia.
Qed.

Lemma fs_le x : cover (free_ranges m) x ≤ 1.
Proof using Hs. pose proof (fs_cover _ _ Hs x). pose proof (cover_nonneg held x). case_if; lia. Qed.

Lemma fs_free r : r ∈ free_ranges m → 0 < ir_size r ∧ 0 ≤ ir_start r ∧ ir_end r ≤ 2 ^ 36 ∧ aligned r.
Proof using Hs.
  intros Hr. pose proof (elem_used _ _ _ Hr) as [Hu [i Hg]].
  assert (aligned r) as Ha by (eapply aligned_get; [apply Hs|done]). apply used_size in Hu.
  pose proof Ha as [_ Hn]. assert (0 < ir_size r) as Hz by lia. split; [done|].
  assert (∀ x, ind r x ≤ if (0 <=? x) && (x <? 2 ^ 36) then 1 else 0) as Hx.
  { intros x. rewrite <- (fs_cover _ _ Hs x). pose proof (cover_elem _ _ x Hr). pose proof (cover_nonneg held x). lia. }
  pose proof (Hx (ir_start r)) as H1. pose proof (Hx (ir_end r - 1)) as H2. unfold ind, ir_end in *.
  repeat case_if; zbool; split_and!; try done; lia.
Qed.

(** Entries that share an LBID are the same. *)
Lemma fs_unique r r' x : r ∈ free_ranges m → r' ∈ free_ranges m → ind r x = 1 → ind r' x = 1 → r = r'.
Proof using Hs.
  intros Hr Hr' H1 H2. destruct (decide (r = r')) as [|Hne]; [done|exfalso]. pose proof (fs_le x) as Hle.
  apply elem_of_Permutation in Hr as [rest Hp]. rewrite Hp in Hr', Hle. apply elem_of_cons in Hr' as [->|Hr']; [done|].
  cbn in Hle. pose proof (cover_elem _ _ x Hr'). lia.
Qed.

(** A range of free LBIDs lies in one entry. *)
Lemma fs_inside ex :
  0 < ir_size ex → (∀ x, ir_start ex ≤ x < ir_end ex → cover (free_ranges m) x = 1) →
  ∃ r, r ∈ free_ranges m ∧ ir_start r ≤ ir_start ex ∧ ir_end ex ≤ ir_end r.
Proof using Hs.
  intros Hz Hex. destruct (cover_pos (free_ranges m) (ir_start ex)) as (r & Hr & H1).
  { rewrite Hex; [done|]. unfold ir_end. lia. }
  exists r. apply ind_one in H1. split; [done|]. split; [lia|]. destruct (decide (ir_end ex ≤ ir_end r)); [done|exfalso].
  destruct (cover_pos (free_ranges m) (ir_end r)) as (r' & Hr' & H2); [rewrite Hex; lia|]. apply ind_one in H2.
  pose proof (fw_merged _ _ (fs_wf _ _ Hs) r r' Hr Hr') as Hm. destruct (fs_free r Hr) as (Hrz & _).
  assert (r = r') as <-; [|unfold ir_end in *; lia].
  apply (fs_unique r r' (ir_end r - 1)); try done; apply ind_one; unfold ir_end in *; lia.
Qed.

(** ** The search *)

(** How the request lies in the entry. *)
Definition met_as (k : met) (ex r : InlineLBIDRange) : Prop :=
  match k with
  | Front => ir_start ex = ir_start r
  | Back => ir_start ex ≠ ir_start r ∧ ir_end r = ir_end ex
  | Middle => ir_start r < ir_start ex ∧ ir_end ex < ir_end r
  end.

Lemma reserve_scan_spec ex pre l f :
  (f = -1 ∧ ∀ x, x ∈ pre → fl_used x = true) ∨ (∃ x, pre.[f] = Some x ∧ fl_used x = false) →
  match reserve_scan (ir_start ex) (ir_end ex - 1) (zlength pre) l f with
  | Some (k, i, r, f') => (pre ++ l).[i] = Some r ∧ fl_used r = true ∧ met_as k ex r ∧
      ((f' = -1 ∧ ∀ j x, 0 ≤ j < i → (pre ++ l).[j] = Some x → fl_used x = true) ∨
       ∃ x, (pre ++ l).[f'] = Some x ∧ fl_used x = false)
  | None => ∀ k r, r ∈ l → fl_used r = true → ¬ met_as k ex r
  end.
Proof.
  revert pre f. induction l as [|r l IH]; intros pre f Hf; cbn [reserve_scan].
  { intros k r Hr. by apply elem_of_nil in Hr. }
  destruct (ir_size r =? 0) eqn:Hz.
  - assert (fl_used r = false) as Hu by (unfold fl_used; by rewrite Hz).
    specialize (IH (pre ++ [r]) (if f =? -1 then zlength pre else f)). rewrite zlength_app, <- app_assoc in IH.
    change (zlength [r]) with 1 in IH.
    assert (∃ x, (pre ++ [r]).[if f =? -1 then zlength pre else f] = Some x ∧ fl_used x = false) as Hf'.
    { case_if; zbool; [exists r; by rewrite zget_middle|]. destruct Hf as [[? _]|(x & Hx & Hxu)]; [done|].
      exists x. split; [|done]. rewrite zget_app_l; [done|]. apply zget_range in Hx. lia. }
    specialize (IH (or_intror Hf')). destruct (reserve_scan _ _ _ _ _) as [[[[k i] q] f']|]; [done|].
    intros k q [->|Hq]%elem_of_cons Hqu; [congruence|by apply IH].
  - assert (fl_used r = true) as Hu by (unfold fl_used; by rewrite Hz).
    assert ((f = -1 ∧ ∀ j x, 0 ≤ j < zlength pre → (pre ++ r :: l).[j] = Some x → fl_used x = true) ∨
            ∃ x, (pre ++ r :: l).[f] = Some x ∧ fl_used x = false) as Hf'.
    { destruct Hf as [[-> Hall]|(x & Hx & Hxu)]; [left|right].
      - split; [done|]. intros j x Hj Hx. rewrite zget_app_l in Hx by lia. apply Hall, zget_elem_of. eauto.
      - exists x. split; [|done]. rewrite zget_app_l; [done|]. apply zget_range in Hx. lia. }
    cbv zeta. fold (ir_end r). destruct (ir_start ex =? ir_start r) eqn:E1; zbool.
    { split; [apply zget_middle|]. split; [done|]. split; [|done]. cbn. lia. }
    destruct (ir_end r - 1 =? ir_end ex - 1) eqn:E2; zbool.
    { split; [apply zget_middle|]. split; [done|]. split; [|done]. cbn. lia. }
    destruct ((ir_start r <? ir_start ex) && (ir_end ex - 1 <? ir_end r - 1)) eqn:E3; zbool.
    { split; [apply zget_middle|]. split; [done|]. split; [|done]. cbn. lia. }
    specialize (IH (pre ++ [r]) f). rewrite zlength_app, <- app_assoc in IH. change (zlength [r]) with 1 in IH.
    assert ((f = -1 ∧ ∀ x, x ∈ pre ++ [r] → fl_used x = true) ∨ (∃ x, (pre ++ [r]).[f] = Some x ∧ fl_used x = false)) as Hf''.
    { destruct Hf as [[-> Hall]|(x & Hx & Hxu)]; [left|right].
      - split; [done|]. intros x [Hx|Hx]%elem_of_app; [by apply Hall|]. apply list_elem_of_singleton in Hx as ->. done.
      - exists x. split; [|done]. rewrite zget_app_l; [done|]. apply zget_range in Hx. lia. }
    specialize (IH Hf''). destruct (reserve_scan _ _ _ _ _) as [[[[k i] q] f']|]; [done|].
    intros k q [->|Hq]%elem_of_cons Hqu; [|by apply IH]. destruct k; cbn; lia.
Qed.

(** ** Shrinking and splitting an entry *)

Context (ex : InlineLBIDRange) (Hz : 0 < ir_size ex) (Hal : aligned ex).

(** Pieces of an entry do not touch the others. *)
Lemma piece_apart r rest a r' :
  List.filter fl_used fl ≡ₚ r :: rest → a ∈ rest → 0 < ir_size r' → ir_start r ≤ ir_start r' → ir_end r' ≤ ir_end r →
  ir_end r' ≠ ir_start a ∧ ir_end a ≠ ir_start r'.
Proof using Hs.
  intros Hp Ha Hr' H1 H2. assert (∀ x, ¬ (ind r x = 1 ∧ ind a x = 1)) as Hd.
  { intros x [Hx1 Hx2]. pose proof (fs_le x) as Hle. unfold free_ranges in Hle. rewrite Hp in Hle. cbn in Hle.
    pose proof (cover_elem _ _ x Ha). lia. }
  assert (r ∈ free_ranges m) as Hr by (unfold free_ranges; rewrite Hp; by left).
  assert (a ∈ free_ranges m) as Ha' by (unfold free_ranges; rewrite Hp; by right).
  destruct (fs_free a Ha') as (Haz & _). pose proof (fw_merged _ _ (fs_wf _ _ Hs) r a Hr Ha') as M1.
  pose proof (fw_merged _ _ (fs_wf _ _ Hs) a r Ha' Hr) as M2.
  pose proof (Hd (ir_start a)) as D1. pose proof (Hd (ir_end a - 1)) as D2. rewrite !ind_one in D1, D2.
  unfold ir_end in *. lia.
Qed.

(** What is to be shown of the new free list. *)
Lemma fs_intro k d fl' :
  fl_wf d fl' → 0 < k → k = tableShmkey d → 0 < allocdSize d →
  (∀ x, cover (List.filter fl_used fl') x + ind ex x = cover (free_ranges m) x) →
  fl_space (ex :: held) (with_flk k d fl' m).
Proof using Hs.
  intros Hw Hk Hkd Ha Hc. split; try done. intros x. rewrite <- (fs_cover _ _ Hs x), <- Hc. unfold free_ranges. cbn. lia.
Qed.

(** One end of an entry is taken. *)
Lemma shrink_spec i r r' :
  fl.[i] = Some r → fl_used r = true → aligned r' → ir_start r ≤ ir_start r' → ir_end r' ≤ ir_end r →
  (∀ x, ind r x = ind r' x + ind ex x) →
  ∃ s', shrink_fl i r r' s = (Ret tt, s') ∧ fl_space (ex :: held) (u_mem s') ∧
    ∃ k d fl', u_mem s' = with_flk k d fl' m.
Proof using All.
  intros Hi Hu Hal' H1 H2 Hind. destruct (used_zset fl_used fl i r Hi) as (rest & Hp & Hp').
  unfold opt_used in Hp. rewrite Hu in Hp. cbn in Hp. destruct Hs as [Hw Hc [Hk1 Hk2] Ha].
  set (d' := if fl_used r' then fl_info m else add_size (- 16) (fl_info m)).
  assert (fl_space (ex :: held) (with_flk (fl_key m) d' (fl.[i <- r']) m)) as Hres.
  { apply fs_intro; try done; [|by unfold d'; case_if|by unfold d'; case_if|].
    - apply (fl_wf_change (fl_info m) d' fl); [done|by unfold d'; case_if|apply zlength_zset|by apply aligned_zset; [apply Hw|]| |].
      + rewrite (count_zset _ _ _ _ _ Hi), !zlength_opt_used, Hu. unfold d', sizeof_InlineLBIDRange. case_if; cbn; lia.
      + apply (merged_perm _ _ (symmetry (Hp' r'))). unfold opt_used. assert (merged rest) as Hmr.
        { apply (merged_sub (List.filter fl_used fl)); [|apply Hw]. intros a Hin. rewrite Hp. by right. }
        destruct (fl_used r') eqn:Hu'; [|done]. apply used_size in Hu' as Hnz. cbn. apply merged_cons; [done|done|].
        intros a Hin. destruct Hal' as [_ ?]. apply (piece_apart r rest a r'); try done. lia.
    - intros x. rewrite (Hp' r'). unfold free_ranges, opt_used. rewrite Hp. cbn. rewrite Hind.
      destruct (fl_used r') eqn:Hu'; cbn; [lia|]. rewrite (ind_unused r') by done. lia. }
  unfold d', fl_used in Hres. unfold shrink_fl. rewrite makeUndoRecord_bind, upd_mem_run.
  destruct (ir_size r' =? 0); cbn in Hres; eexists; (split; [reflexivity|]); (split; [exact Hres|]); by eexists _, _, _.
Qed.

(** The entry in slot [i] of a list with the entries of the free list is split;
    the second piece goes to slot [j]. *)
Lemma split_space k d flb i j r u r1 r2 :
  fl_wf d flb → 0 < k → k = tableShmkey d → 0 < allocdSize d → List.filter fl_used flb ≡ₚ List.filter fl_used fl →
  flb.[i] = Some r → fl_used r = true → flb.[j] = Some u → fl_used u = false →
  aligned r1 → aligned r2 → 0 < ir_size r1 → 0 < ir_size r2 →
  ir_start r1 = ir_start r → ir_end r1 = ir_start ex → ir_start r2 = ir_end ex → ir_end r2 = ir_end r →
  fl_space (ex :: held) (with_flk k (add_size 16 d) ((flb.[i <- r1]).[j <- r2]) m).
Proof using All.
  intros Hw Hk Hkd Ha Hperm Hi Hu Hj Huu Al1 Al2 Z1 Z2 E1 E2 E3 E4.
  assert (i ≠ j) as Hij by (intros ->; congruence).
  destruct (used_zset2 fl_used flb i j r u) as (rest & Hp & Hp'); [done..|].
  unfold opt_used in Hp. rewrite Hu, Huu in Hp. cbn in Hp.
  assert (List.filter fl_used ((flb.[i <- r1]).[j <- r2]) ≡ₚ r1 :: r2 :: rest) as Hq.
  { etrans; [apply Hp'|]. unfold opt_used. rewrite !(proj2 (used_size _)) by lia. done. }
  assert (List.filter fl_used fl ≡ₚ r :: rest) as Hpf by (by rewrite <- Hperm).
  assert (∀ a, a ∈ rest → ir_end r1 ≠ ir_start a ∧ ir_end a ≠ ir_start r1) as A1.
  { intros a Hin. apply (piece_apart r rest a r1); try done; unfold ir_end in *; lia. }
  assert (∀ a, a ∈ rest → ir_end r2 ≠ ir_start a ∧ ir_end a ≠ ir_start r2) as A2.
  { intros a Hin. apply (piece_apart r rest a r2); try done; unfold ir_end in *; lia. }
  apply fs_intro; try done.
  - apply (fl_wf_change d _ flb); [done|done|by rewrite !zlength_zset|by repeat apply aligned_zset; [apply Hw|..]| |].
    + cbn. unfold count, sizeof_InlineLBIDRange, zlength. rewrite Hq, Hp. cbn [length]. lia.
    + apply (merged_perm _ _ (symmetry Hq)). apply merged_cons; [apply merged_cons|lia|]; [|lia|done|].
      * apply (merged_sub (List.filter fl_used flb)); [|apply Hw]. intros a Hin. rewrite Hp. by right.
      * intros a [->|Hin]%elem_of_cons; [unfold ir_end in *; lia|by apply A1].
  - intros x. rewrite Hq. unfold free_ranges. rewrite Hpf. cbn. unfold ind, ir_end in *. repeat case_if; zbool; lia.
Qed.

(** The slot for the second piece, and the list that has it. *)
Lemma split_slot_spec i r f :
  fl.[i] = Some r → fl_used r = true →
  (f = -1 ∧ ∀ j x, 0 ≤ j < i → fl.[j] = Some x → fl_used x = true) ∨ (∃ x, fl.[f] = Some x ∧ fl_used x = false) →
  ∃ j k d flb u, split_slot i f s = (Ret j, mkUndoable (with_flk k d flb m) (undoRecords s)) ∧
    fl_wf d flb ∧ 0 < k ∧ k = tableShmkey d ∧ 0 < allocdSize d ∧
    List.filter fl_used flb ≡ₚ List.filter fl_used fl ∧ flb.[i] = Some r ∧ flb.[j] = Some u ∧ fl_used u = false.
Proof using All.
  intros Hi Hu Hf. pose proof Hs as [Hw Hc [Hk1 Hk2] Ha]. unfold split_slot.
  destruct Hf as [[-> Hall]|(x & Hx & Hxu)].
  2: { pose proof (zget_range _ _ _ Hx). rewrite (proj2 (Z.eqb_neq _ _)) by lia. cbn [negb].
       exists f, (fl_key m), (fl_info m), fl, x. destruct s as [[] ?]. done. }
  rewrite Z.eqb_refl. cbn [negb]. rewrite get_mem_run. pose proof fs_all as [Hfa Hfe].
  destruct (mst_currentSize (fl_info m) =? allocdSize (fl_info m)) eqn:Hfull; zbool.
  - destruct (growFL_free s) as [Hg Hk]; [apply Hw|done|lia|]. rewrite (bind_ret _ _ _ _ _ Hg), Hfe.
    assert (List.filter fl_used (fl ++ replicate 50 empty_range) = List.filter fl_used fl) as Hfil.
    { rewrite List.filter_app. cbn. by rewrite app_nil_r. }
    do 4 eexists. exists empty_range. split; [reflexivity|]. pose proof (zget_range _ _ _ Hi). split_and!; try done.
    + destruct Hw as [Hl Hn Hs1 Hm]. split; cbn [allocdSize mst_currentSize].
      * rewrite zlength_app. change (zlength (replicate 50 empty_range)) with 50. unfold sizeof_InlineLBIDRange in *. lia.
      * unfold count in *. by rewrite Hfil.
      * apply Forall_app. split; [done|]. by apply Forall_replicate.
      * by rewrite Hfil.
    + cbn. lia.
    + by rewrite Hfil.
    + rewrite zget_app_l; [done|lia].
    + apply (zget_middle fl (replicate 49 empty_range)).
  - rewrite Hfa, Hfe. pose proof (zget_range _ _ _ Hi) as Hir.
    assert (∃ j u, find_from (fun r => ir_size r =? 0) (i + 1) (drop (Z.to_nat (i + 1)) fl) = Some (j, u) ∧
      fl.[j] = Some u ∧ fl_used u = false) as (j & u & -> & Hj & Huu).
    { assert (¬ (∀ j x, fl.[j] = Some x → fl_used x = true)) as Hnot.
      { intros H. apply Hfull. destruct Hw as [-> -> _ _]. f_equal. by apply count_full. }
      destruct (find_from _ _ _) as [[j u]|] eqn:Hff.
      - exists j, u. split; [done|]. apply find_from_Some in Hff as (Hge & Hj & Hz0). split.
        + unfold zget in *. rewrite (proj2 (Z.ltb_ge j 0)) by lia. rewrite (proj2 (Z.ltb_ge _ 0)) in Hj by lia.
          rewrite lookup_drop in Hj. rewrite <- Hj. f_equal. lia.
        + unfold fl_used. by rewrite Hz0.
      - destruct Hnot. intros j x Hx. destruct (decide (j < i)).
        + apply (Hall j x); [|done]. pose proof (zget_range _ _ _ Hx). lia.
        + destruct (decide (j = i)) as [->|]; [congruence|]. unfold fl_used. apply negb_true_iff.
          apply (find_from_None _ _ _ x Hff). apply list_elem_of_lookup. exists (Z.to_nat (j - (i + 1))).
          rewrite lookup_drop. unfold zget in Hx. rewrite (proj2 (Z.ltb_ge j 0)) in Hx by lia. rewrite <- Hx. f_equal. lia. }
    exists j, (fl_key m), (fl_info m), fl, u. destruct s as [[] ?]. done.
Qed.

Lemma div_1024 a b : a mod 1024 = 0 → b mod 1024 = 0 → b ≤ a → Z.quot (a - b) 1024 * 1024 = a - b ∧ 0 ≤ Z.quot (a - b) 1024.
Proof.
  intros Ha Hb Hle. rewrite Z.quot_div_nonneg by lia. apply Z.div_exact in Ha, Hb; [|lia..].
  assert (a - b = (a / 1024 - b / 1024) * 1024) as -> by lia. rewrite Z.div_mul by lia. lia.
Qed.

(** [ExtentMap::reserveLBIDRange]: the LBIDs, which were free, are held. *)
Lemma reserve_spec :
  (∀ x, ir_start ex ≤ x < ir_end ex → cover held x = 0) → 0 ≤ ir_start ex → ir_end ex ≤ 2 ^ 36 →
  ∃ s', reserveLBIDRange (ir_start ex) (ir_size ex) s = (Ret tt, s') ∧ fl_space (ex :: held) (u_mem s') ∧
    ∃ k d fl', u_mem s' = with_flk k d fl' m.
Proof using All.
  intros Hfree Hlo Hhi. destruct (fs_inside ex Hz) as (r & Hr & Hr1 & Hr2).
  { intros x Hx. pose proof (fs_cover _ _ Hs x) as Hc. rewrite Hfree in Hc by done. case_if; zbool; lia. }
  destruct (fs_free r Hr) as (Hrz & Hrlo & Hrhi & Hral & Hrn). destruct Hal as [Hea _].
  unfold reserveLBIDRange. rewrite get_mem_run, (proj1 fs_all). fold (ir_end ex).
  pose proof (reserve_scan_spec ex [] fl (-1)) as Hscan. cbn [app] in Hscan. change (zlength []) with 0 in Hscan.
  assert ((∀ x : InlineLBIDRange, x ∈ [] → fl_used x = true)) as Hnil by (intros x Hx; by apply elem_of_nil in Hx).
  specialize (Hscan (or_introl (conj eq_refl Hnil))).
  destruct (reserve_scan _ _ _ _ _) as [[[[k i] r'] f]|].
  2: { exfalso. assert (r ∈ fl) as Hrf by (apply elem_used in Hr as [_ ?]; by apply zget_elem_of).
       assert (fl_used r = true) as Hru by (apply used_size; lia).
       destruct (decide (ir_start ex = ir_start r)); [by apply (Hscan Front r Hrf Hru)|].
       destruct (decide (ir_end r = ir_end ex)); [by apply (Hscan Back r Hrf Hru)|].
       apply (Hscan Middle r Hrf Hru). cbn. lia. }
  destruct Hscan as (Hi & Hu & Hmet & Hf). assert (r' ∈ free_ranges m) as Hr' by by eapply used_elem.
  destruct (fs_free r' Hr') as (Hz' & _).
  assert (r' = r) as ->.
  { destruct k; cbn in Hmet.
    - apply (fs_unique r' r (ir_start ex)); try done; apply ind_one; unfold ir_end in *; lia.
    - apply (fs_unique r' r (ir_end ex - 1)); try done; apply ind_one; unfold ir_end in *; lia.
    - apply (fs_unique r' r (ir_start ex)); try done; apply ind_one; unfold ir_end in *; lia. }
  destruct k; cbn in Hmet.
  - rewrite (wrap_u_small 32) by (unfold ir_end in *; lia). apply shrink_spec; try done.
    + split; cbn; [|unfold ir_end in *; lia]. rewrite Z.add_mod, Z.mod_mul, Hral by lia. done.
    + cbn. lia.
    + unfold ir_end. cbn. lia.
    + intros x. unfold ind, ir_end in *. cbn. repeat case_if; zbool; lia.
  - rewrite (wrap_u_small 32) by (unfold ir_end in *; lia). apply shrink_spec; try done.
    + split; cbn; [done|unfold ir_end in *; lia].
    + unfold ir_end. cbn. lia.
    + intros x. unfold ind, ir_end in *. cbn. repeat case_if; zbool; lia.
  - destruct (split_slot_spec i r f Hi Hu Hf) as (j & k & d & flb & u & Hrun & Hw & Hk & Hkd & Ha & Hperm & Hbi & Hbj & Huu).
    rewrite (bind_ret _ _ _ _ _ Hrun). rewrite (image_fl_run _ r) by done. rewrite (image_fl_run _ u) by done.
    rewrite get_mem_run, makeUndoRecord_bind, !upd_mem_run. fold (ir_end r).
    destruct (div_1024 (ir_start ex) (ir_start r)) as [Q1 Q1']; [done..|lia|].
    replace (ir_end r - 1 - (ir_end ex - 1)) with (ir_end r - ir_end ex) by lia.
    destruct (div_1024 (ir_end r) (ir_end ex)) as [Q2 Q2']; [| |lia|].
    { unfold ir_end. rewrite Z.add_mod, Z.mod_mul, Hral by lia. done. }
    { unfold ir_end. rewrite Z.add_mod, Z.mod_mul, Hea by lia. done. }
    rewrite !(wrap_u_small 32) by (unfold ir_end in *; lia). eexists. split; [reflexivity|]. split; [|by eexists _, _, _].
    apply (split_space k d flb i j r u (mkIR (ir_start r) (Z.quot (ir_start ex - ir_start r) 1024))
             (mkIR (ir_end ex) (Z.quot (ir_end r - ir_end ex) 1024))); try done; try (unfold ir_end in *; cbn; lia).
    split; cbn; [|done]. unfold ir_end. rewrite Z.add_mod, Z.mod_mul, Hea by lia. done.
Qed.
End Reserve.
