(* ===== verification/EmLoad.v ===== *)
(** * Saving and loading the extent map ([ExtentMap::save], [ExtentMap::load]) *)

From S2P Require Import Prelude BinFile ColType Undo Table Vbbm Vss ExtentMap EmCp EmCreate EmDelete EmQuery EmFile EmSpace EmFree EmInv EmKeeps EmPlace EmLayout EmReserve.

(** ** Entries on disk *)

(** The fields of an entry fit their types. *)
Definition em_fits (e : EMEntry) : bool :=
  fits_s 8 (ir_start (range e)) && fits_u 4 (ir_size (range e)) && fits_s 4 (fileID e) && fits_u 4 (blockOffset e)
  && fits_u 4 (HWM e) && fits_u 4 (partitionNum e) && fits_u 2 (segmentNum e) && fits_u 2 (dbRoot e)
  && fits_u 2 (colWid e) && fits_s 2 (status e) && fits_s 8 (hi_val (cprange e)) && fits_s 8 (lo_val (cprange e))
  && fits_s 4 (sequenceNum (cprange e)) && fits_s 1 (isValid (cprange e)).

Lemma em_of_bytes e : em_fits e = true → em_of (em_bytes e) = e.
Proof.
  unfold em_fits. intros. zbool.
  unfold em_of, em_bytes. destruct e as [[st sz] fid bo hwm pn sn dr cw stt [hi lo sq iv]]. cbn [range ir_start ir_size fileID
    blockOffset HWM partitionNum segmentNum dbRoot colWid status cprange hi_val lo_val sequenceNum isValid] in *.
  f_equal; [f_equal|..|f_equal]; solve_field; done.
Qed.

Lemma length_em_bytes e : length (em_bytes e) = 64%nat.
Proof. unfold em_bytes. by rewrite !length_app, !length_le_bytes. Qed.

(** What [load] can read back: the sizes it passes on are bytes. *)
Definition em_loadable (e : EMEntry) : Prop :=
  em_fits e = true ∧ ir_size (range e) < 256 ∧ 0 ≤ status e ≤ 2 ∧ em_used e = true ∧ aligned (range e) ∧
  0 ≤ ir_start (range e) ∧ ir_end (range e) ≤ 2 ^ 36.

(** ** The loop over the entries *)

Lemma with_both em_d tab k d fl m :
  with_em em_d tab (with_flk k d fl m) = mkEMMem em_d (em_key m) tab d k fl (emLocked m) (flLocked m) (emReaders m) (flReaders m).
Proof. done. Qed.

Lemma load_extents_spec hdfs l : ∀ k s file held,
  0 ≤ k → k + zlength l ≤ zlength (em_tab (u_mem s)) → fl_space held (u_mem s) → Forall em_loadable l →
  (∀ x, cover (range <$> l) x + cover held x ≤ 1) →
  ∃ s' held', load_extents hdfs (zseq k (zlength l)) ((l ≫= em_bytes) ++ file) s = (Ret tt, s') ∧
    fl_space held' (u_mem s') ∧ (∀ x, cover held' x = cover (range <$> l) x + cover held x) ∧
    zlength (em_tab (u_mem s')) = zlength (em_tab (u_mem s)) ∧
    (∀ i, (em_tab (u_mem s')).[i] = if (k <=? i) && (i <? k + zlength l) then l.[i - k] else (em_tab (u_mem s)).[i]) ∧
    ∃ kf d fl tab, u_mem s' = with_em (em_info (u_mem s)) tab (with_flk kf d fl (u_mem s)).
Proof.
  induction l as [|e l IH]; intros k s file held Hk Hlen Hs Hl Hc.
  { exists s, held. change (zlength []) with 0. rewrite zseq_nil. split; [done|]. split; [done|]. split; [done|]. split; [done|]. split.
    - intros i. rewrite Z.add_0_r. assert ((k <=? i) && (i <? k) = false) as -> by (destruct (k <=? i) eqn:?, (i <? k) eqn:?; try done; zbool; lia). done.
    - exists (fl_key (u_mem s)), (fl_info (u_mem s)), (fl_tab (u_mem s)), (em_tab (u_mem s)). by destruct (u_mem s). }
  apply Forall_cons in Hl as [(Hfit & Hsz & Hst & Hu & Hal & Hlo & Hhi) Hl].
  rewrite zlength_cons in *. pose proof (zlength_nonneg l) as Hn. rewrite zseq_cons by lia. cbn [load_extents].
  destruct (zget_is_Some (em_tab (u_mem s)) k) as [old Hold]; [lia|].
  assert (∀ A (f : EMEntry → M ExtentMap A), (get_em k ≫= f) s = f old s) as Hget.
  { intros A f. unfold get_em, mbind, M_bind. cbn. by rewrite Hold. }
  rewrite Hget. cbn [mbind list_bind]. rewrite <- app_assoc. unfold read_or. rewrite read_app by apply length_em_bytes.
  rewrite lift_run. cbv beta iota zeta. rewrite em_of_bytes by done. rewrite upd_mem_run.
  apply em_used_size in Hu as Hnz. pose proof Hal as [_ Hsz0]. assert (0 < ir_size (range e)) as Hz by lia.
  rewrite (wrap_u_small 8 (ir_size (range e))) by lia.
  set (s1 := mkUndoable (set_em k e (u_mem s)) (undoRecords s)).
  assert (fl_space held (u_mem s1)) as Hs1 by (destruct Hs; by split).
  destruct (reserve_spec held s1 Hs1 (range e) Hz Hal) as (s2 & Hr2 & Hs2 & kf & d & fl & Hm2); [|done|done|].
  { intros x Hx. specialize (Hc x). cbn in Hc. rewrite (proj2 (ind_one _ _) Hx) in Hc.
    pose proof (cover_nonneg (range <$> l) x). pose proof (cover_nonneg held x). lia. }
  rewrite (bind_ret _ _ _ _ _ Hr2), upd_mem_run.
  assert (fix_status e = e) as Hfix.
  { unfold fix_status. rewrite (proj2 (Z.ltb_ge _ _)), (proj2 (Z.ltb_ge _ _)) by lia. done. }
  rewrite Hfix. set (s3 := mkUndoable (set_em k e (u_mem s2)) (undoRecords s2)).
  assert (em_tab (u_mem s3) = (em_tab (u_mem s)).[k <- e]) as Ht3 by (cbn; rewrite Hm2; cbn; by rewrite zset_zset).
  destruct (IH (k + 1) s3 file (range e :: held)) as (s' & held' & Hr & Hs' & Hc' & Hlen' & Ht' & kf' & d' & fl' & tab' & Hm'); try done; [lia| | | |].
  { rewrite Ht3, zlength_zset. lia. }
  { destruct Hs2; by split. }
  { intros x. specialize (Hc x). cbn in *. lia. }
  exists s', held'. split; [done|]. split; [done|]. split; [intros x; rewrite Hc'; cbn; lia|].
  split; [by rewrite Hlen', Ht3, zlength_zset|]. split.
  - intros i. rewrite Ht', Ht3. destruct (decide (i = k)) as [->|Hne].
    + rewrite (proj2 (Z.leb_gt (k + 1) k)) by lia. cbn [andb]. rewrite zget_zset_eq by lia.
      rewrite Z.leb_refl, (proj2 (Z.ltb_lt _ _)), Z.sub_diag by lia. done.
    + rewrite zget_zset_ne by done. destruct (k <=? i) eqn:H1, (k + 1 <=? i) eqn:H2; zbool; try lia; cbn [andb]; [|done].
      replace (k + 1 + zlength l) with (k + (zlength l + 1)) by lia. case_if; [|done].
      replace (i - k) with (i - (k + 1) + 1) by lia. by rewrite zget_cons by lia.
  - exists kf', d', fl', tab'. rewrite Hm'. cbn. rewrite Hm2. done.
Qed.

(** ** The whole file *)

(** The tables zeroed: all the LBIDs are free. *)
Lemma cleared_space m : em_inv m → fl_space [] (cleared m).
Proof.
  intros [_ [Hl _ _ _] _ [_ [Hk1 Hk2] [_ Ha]]]. unfold sizeof_InlineLBIDRange in *.
  destruct (fl_tab m) as [|r fl] eqn:Hfl; [unfold zlength in Hl; cbn in Hl; lia|].
  assert ((replicate (length (r :: fl)) empty_range).[0 <- mkIR 0 (2 ^ 26)] = mkIR 0 (2 ^ 26) :: replicate (length fl) empty_range) as E by done.
  assert (List.filter fl_used (mkIR 0 (2 ^ 26) :: replicate (length fl) empty_range) = [mkIR 0 (2 ^ 26)]) as Ef.
  { cbn [List.filter]. rewrite filter_none; [done|]. by intros x [-> _]%elem_of_replicate. }
  unfold cleared. rewrite Hfl, E. split; [split| | |]; cbn [fl_info fl_tab fl_key allocdSize mst_currentSize tableShmkey].
  - rewrite Hl. unfold sizeof_InlineLBIDRange, zlength. cbn [length]. rewrite length_replicate. lia.
  - unfold count. by rewrite Ef.
  - constructor; [by split|]. by apply Forall_replicate.
  - rewrite Ef. intros a b ->%list_elem_of_singleton ->%list_elem_of_singleton. done.
  - intros x. unfold free_ranges. cbn [fl_tab]. rewrite Ef. cbn. unfold ind, ir_end. cbn. by rewrite !Z.add_0_r.
  - done.
  - done.
Qed.

(** Room for the entries of the file. *)
Lemma grown_rows s n :
  let m := u_mem s in
  allocdSize (em_info m) = 64 * zlength (em_tab m) → 0 < allocdSize (em_info m) → 0 < em_key m → em_key m = tableShmkey (em_info m) →
  em_tab m = replicate (length (em_tab m)) empty_EMEntry → 0 < n →
  ∃ s' k N, (if emEntries m <? n then growEMShmseg (round_rows n) else mret tt) s = (Ret tt, s') ∧
    u_mem s' = mkEMMem (mkMST k (64 * Z.of_nat N) (mst_currentSize (em_info m))) k (replicate N empty_EMEntry)
                 (fl_info m) (fl_key m) (fl_tab m) (emLocked m) (flLocked m) (emReaders m) (flReaders m) ∧
    n ≤ Z.of_nat N ∧ 0 < k.
Proof.
  cbn zeta. intros Hl Ha Hk Hkd Htab Hn. assert (emEntries (u_mem s) = zlength (em_tab (u_mem s))) as He.
  { unfold emEntries, sizeof_EMEntry. rewrite Hl, Z.mul_comm, Z.div_mul by lia. done. }
  rewrite He. destruct (_ <? n) eqn:Hc; zbool.
  - assert (n ≤ round_rows n) as Hrr.
    { unfold round_rows, EM_INCREMENT_ROWS. case_if; [lia|]. pose proof (Z.div_mod n 100). pose proof (Z.mod_pos_bound n 100). lia. }
    unfold growEMShmseg, upd_mem, modify. rewrite (proj2 (Z.eqb_neq _ 0)) by lia.
    set (alloc := Z.max _ _). set (key := chooseEMShmkey _).
    assert (∃ N, alloc = 64 * Z.of_nat N) as [N HN].
    { exists (Z.to_nat (alloc / 64)). unfold alloc, EM_INCREMENT, EM_INCREMENT_ROWS, sizeof_EMEntry. rewrite Hl.
      pose proof (zlength_nonneg (em_tab (u_mem s))).
      replace (64 * zlength (em_tab (u_mem s)) + 100 * 64) with (64 * (zlength (em_tab (u_mem s)) + 100)) by lia.
      rewrite (Z.mul_comm (round_rows n)), Z.mul_max_distr_nonneg_l by lia.
      rewrite (Z.mul_comm 64 (Z.max _ _)), Z.div_mul by lia. rewrite Z2Nat.id by lia. lia. }
    eexists _, key, N. split; [reflexivity|]. cbn [u_mem]. rewrite HN. unfold sizeof_EMEntry.
    rewrite (Z.mul_comm 64 (Z.of_nat N)), Z.div_mul by lia. assert (n ≤ Z.of_nat N) as HnN.
    { unfold alloc, sizeof_EMEntry in HN. lia. }
    split; [|split; [done|apply chooseEM_pos; lia]]. f_equal.
    unfold grown_to. rewrite Htab, length_replicate, <- replicate_add. f_equal. unfold zlength in Hc. lia.
  - exists s, (em_key (u_mem s)), (length (em_tab (u_mem s))). split; [done|]. unfold zlength in *. split; [|lia].
    rewrite <- Hl, <- Htab. destruct s as [[[] ? ? [] ? ? ? ? ? ?] ?]. cbn in *. by rewrite Hkd.
Qed.

Lemma read_counts_ok hdfs n k rest :
  0 < n < 2 ^ 31 → read_counts hdfs (le_bytes 4 n ++ le_bytes 4 k ++ rest) = Ret (n, rest).
Proof.
  intros Hn. assert (get_s (le_bytes 4 n) = n) as Hg by (apply get_s_bytes; [lia|]; unfold fits_s; change (8 * Z.of_nat 4 - 1) with 31; rewrite andb_true_iff, Z.leb_le, Z.ltb_lt; lia).
  unfold read_counts. destruct hdfs.
  - assert (take 4 (take 4 (le_bytes 4 n ++ le_bytes 4 k ++ rest) ++ [0; 0; 0; 0]) = le_bytes 4 n) as ->.
    { by rewrite !(take_app_length' (le_bytes 4 n)) by by rewrite length_le_bytes. }
    rewrite Hg, (proj2 (Z.ltb_lt _ _)) by lia. cbn [negb].
    rewrite (proj2 (Nat.ltb_ge _ _)) by (rewrite !length_app, !length_le_bytes; lia).
    done.
  - unfold read_or. rewrite read_app by apply length_le_bytes. unfold mbind, outcome_bind.
    rewrite read_app by apply length_le_bytes.
    rewrite Hg, (proj2 (Z.ltb_lt _ _)) by lia. done.
Qed.

(** A loaded table has the entries of the file and then zeroed slots. *)
Lemma loaded_table (tab l : list EMEntry) N :
  zlength l ≤ Z.of_nat N → zlength tab = Z.of_nat N →
  (∀ i, tab.[i] = if (0 <=? i) && (i <? 0 + zlength l) then l.[i - 0] else (replicate N empty_EMEntry).[i]) →
  tab = l ++ replicate (N - length l) empty_EMEntry.
Proof.
  intros Hle Hlen Hget. apply list_zget_ext. intros i. rewrite Hget, Z.add_0_l, Z.sub_0_r. unfold zlength in *.
  destruct (decide (i < 0)) as [Hneg|Hneg].
  { rewrite (proj2 (Z.leb_gt _ _)) by lia. cbn. by rewrite !zget_None by lia. }
  rewrite (proj2 (Z.leb_le _ _)) by lia. cbn [andb]. destruct (i <? Z.of_nat (length l)) eqn:Hi; zbool.
  - rewrite zget_app_l; [done|]. unfold zlength. lia.
  - replace i with (zlength l + (i - zlength l)) by (unfold zlength; lia). rewrite zget_app_r by (unfold zlength; lia).
    unfold zget, zlength. rewrite !(proj2 (Z.ltb_ge _ _)) by lia.
    destruct (decide (i < Z.of_nat N)).
    + rewrite !lookup_replicate_2 by lia. done.
    + rewrite !lookup_ge_None_2; [done|rewrite length_replicate; lia..].
Qed.

(** Loading what was saved, into any memory: the same extents, and every other
    LBID is free. *)
Lemma load_image hdfs m s :
  em_inv m → live m ≠ [] → zlength (live m) < 2 ^ 25 → Forall em_loadable (live m) → em_inv (u_mem s) →
  ∃ s', EM_load hdfs (Some (em_image m)) s = (Ret tt, s') ∧ em_inv (u_mem s') ∧ live (u_mem s') = live m ∧
    emLocked (u_mem s') = false ∧ flLocked (u_mem s') = false.
Proof.
  intros Hm Hne Hcnt Hld Hi. set (l := live m) in *.
  assert (List.filter em_used (extents m) = l) as Hl by (by rewrite (proj1 (extents_all _ _ Hm))).
  assert (mst_currentSize (em_info m) / sizeof_EMEntry = zlength l) as Hn.
  { destruct Hm as [[_ Hc _] _ _ _]. rewrite Hc, Z.mul_comm, Z.div_mul by done. done. }
  assert (0 < zlength l) as Hpos by (destruct l; [done|rewrite zlength_cons; pose proof (zlength_nonneg l); lia]).
  unfold EM_load. rewrite (bind_ret _ _ _ _ _ (grabEM_run WRITE s (ei_mapped _ _ Hi))).
  set (s1 := mkUndoable _ _). assert (em_inv (u_mem s1)) as Hi1 by by apply inv_locks.
  unfold grabFreeList_or_release, catch. unfold mbind at 1, M_bind at 1. rewrite grabFL_run by apply Hi1.
  set (s2 := mkUndoable _ _). assert (em_inv (u_mem s2)) as Hi2 by by apply inv_locks.
  unfold em_image. rewrite Hn, Hl. unfold read_or at 1. rewrite lift_run, read_app by apply length_le_bytes. rewrite lift_run.
  cbv beta iota. rewrite get_s_bytes by (lia || done). rewrite Z.eqb_refl. unfold loadVersion4.
  rewrite assoc_run, read_counts_ok, lift_run by lia. rewrite assoc_run, upd_mem_run, assoc_run, get_mem_run.
  set (s3 := mkUndoable (cleared (u_mem s2)) _). pose proof (cleared_space _ Hi2 : fl_space [] (u_mem s3)) as Hs3.
  destruct (grown_rows s3 (zlength l)) as (s4 & k & N & Hr4 & Hm4 & HN & Hk); [| | | | |done|].
  { etrans; [exact (ew_len _ _ (ei_em _ _ Hi2))|]. unfold zlength. cbn. by rewrite length_replicate. }
  { apply (ei_mapped _ _ Hi2). }
  { apply (ei_mapped _ _ Hi2). }
  { apply (ei_mapped _ _ Hi2). }
  { cbn. by rewrite length_replicate. }
  rewrite assoc_run, (bind_ret _ _ _ _ _ Hr4).
  assert (fl_space [] (u_mem s4)) as Hs4 by (rewrite Hm4; destruct Hs3; by split).
  destruct (load_extents_spec hdfs l 0 s4 (freelist m ≫= fl_bytes) []) as
    (s5 & held & Hr5 & Hs5 & Hc5 & Hlen5 & Ht5 & kf & d & fl & tab & Hm5); try done.
  { rewrite Hm4. cbn. unfold zlength at 2. rewrite length_replicate. lia. }
  { intros x. cbn. rewrite Z.add_0_r. pose proof (ei_space _ _ Hm x) as Hsp. unfold em_ranges in Hsp. fold (live m) in Hsp. fold l in Hsp.
    pose proof (cover_nonneg (free_ranges m) x). cbn in Hsp. case_if; lia. }
  rewrite assoc_run, (bind_ret _ _ _ _ _ Hr5), upd_mem_run.
  eexists. split; [reflexivity|]. rewrite Hm4 in Hlen5, Ht5. cbn [em_tab] in Hlen5, Ht5.
  unfold zlength in Hlen5 at 2. rewrite length_replicate in Hlen5.
  pose proof (loaded_table _ l N HN Hlen5 Ht5) as Htab. unfold zlength in HN.
  assert (List.filter em_used (em_tab (u_mem s5)) = l) as Hlive.
  { rewrite Htab, live_grown. unfold l, live. generalize (em_tab m) as t. clear. induction t as [|e t IH]; [done|].
    cbn. destruct (em_used e) eqn:He; cbn; [rewrite He; by f_equal|done]. }
  split; [|split; [done|done]]. rewrite Hm5, Hm4 in *. cbn. destruct Hs5 as [Hw5 Hcov5 Hkey5 Hal5]. cbn in *.
  split; cbn.
  - split; cbn.
    + unfold sizeof_EMEntry. lia.
    + unfold count. cbn. rewrite Hlive. unfold sizeof_EMEntry. lia.
    + rewrite Htab. apply Forall_app. split; [|by apply Forall_replicate].
      eapply Forall_impl; [exact Hld|]. intros e (_ & _ & _ & _ & ? & _). done.
  - done.
  - intros x. rewrite <- (Hcov5 x), Hc5. unfold free_ranges, em_ranges. cbn. rewrite Hlive. lia.
  - split; cbn; [done|done|]. split; [unfold zlength in Hpos; lia|done].
Qed.

(** [save] writes the image of the tables and gives its read locks back. *)
Lemma save_run s0 : em_inv (u_mem s0) → live (u_mem s0) ≠ [] → EM_save s0 = (Ret (em_image (u_mem s0)), s0).
Proof.
  intros Hi0 Hne. unfold EM_save. rewrite (bind_ret _ _ _ _ _ (grabEM_run READ s0 (ei_mapped _ _ Hi0))).
  set (s1 := mkUndoable _ _). assert (em_inv (u_mem s1)) as Hi1 by by apply inv_locks.
  unfold grabFreeList_or_release, catch. unfold mbind at 1, M_bind at 1. rewrite grabFL_run by apply Hi1.
  rewrite get_mem_run. unfold releaseFreeList, releaseEMEntryTable. rewrite !upd_mem_run. cbn [u_mem].
  match goal with |- context [em_info ?x] => change (em_info x) with (em_info (u_mem s0)) end.
  assert (mst_currentSize (em_info (u_mem s0)) ≠ 0) as Hz.
  { rewrite (ew_count _ _ (ei_em _ _ Hi0)). unfold count. fold (live (u_mem s0)). destruct (live (u_mem s0)) as [|e l]; [done|].
    rewrite zlength_cons. pose proof (zlength_nonneg l). unfold sizeof_EMEntry. lia. }
  rewrite (proj2 (Z.eqb_neq _ _) Hz). destruct s0 as [[] log]. cbn.
  unfold set_locks, mret, M_ret, em_image, extents, freelist, emEntries, flEntries. cbn. by rewrite !Z.add_simpl_r.
Qed.

(** * The consistency check of the extent map *)


(** ** The walk over the LBIDs *)

Section Walk.
Context (A : list InlineLBIDRange).
Context (Hal : ∀ r, r ∈ A → aligned r).
Context (Hcov : ∀ x, cover (List.filter fl_used A) x = if (0 <=? x) && (x <? 2 ^ 36) then 1 else 0).

Lemma walk_used r : r ∈ A → fl_used r = true → r ∈ List.filter fl_used A.
Proof. intros. apply list_elem_of_In, filter_In. by rewrite <- list_elem_of_In. Qed.

Lemma walk_bounds r : r ∈ A → fl_used r = true → 0 < ir_size r ∧ 0 ≤ ir_start r ∧ ir_end r ≤ 2 ^ 36.
Proof using All.
  intros Hr Hu. pose proof (Hal r Hr) as [_ Hn]. pose proof (proj1 (used_size r) Hu) as Hnz. pose proof (walk_used r Hr Hu) as Hin.
  assert (∀ x, ind r x ≤ if (0 <=? x) && (x <? 2 ^ 36) then 1 else 0) as Hx.
  { intros x. rewrite <- Hcov. by apply cover_elem. }
  pose proof (Hx (ir_start r)) as H1. pose proof (Hx (ir_end r - 1)) as H2. unfold ind, ir_end in *.
  repeat case_if; zbool; lia.
Qed.

Lemma walk_unique r1 r2 x :
  r1 ∈ A → r2 ∈ A → fl_used r1 = true → fl_used r2 = true → ind r1 x = 1 → ind r2 x = 1 → r1 = r2.
Proof using All.
  intros H1 H2 U1 U2 I1 I2. destruct (decide (r1 = r2)) as [|Hne]; [done|exfalso].
  pose proof (walk_used r1 H1 U1) as Hr1. pose proof (walk_used r2 H2 U2) as Hr2. pose proof (Hcov x) as Hc.
  apply elem_of_Permutation in Hr1 as [rest Hp]. rewrite Hp in Hr2, Hc. apply elem_of_cons in Hr2 as [->|Hr2]; [done|].
  cbn in Hc. pose proof (cover_elem _ _ x Hr2). case_if; lia.
Qed.

(** No entry lies across unit [u]. *)
Definition boundary (u : Z) : Prop :=
  0 ≤ u ≤ 2 ^ 26 ∧ ∀ r, r ∈ A → fl_used r = true → ir_end r ≤ u * 1024 ∨ u * 1024 ≤ ir_start r.

Lemma boundary_0 : boundary 0.
Proof using All. split; [lia|]. intros r Hr Hu. right. pose proof (walk_bounds r Hr Hu). lia. Qed.

Lemma boundary_step u r :
  boundary u → r ∈ A → fl_used r = true → ir_start r = u * 1024 → boundary (u + ir_size r).
Proof using All.
  intros [Hu Hb] Hr Hur Hs. pose proof (walk_bounds r Hr Hur) as (Hz & _ & Hend). split; [unfold ir_end in *; lia|].
  intros q Hq Hqu. pose proof (walk_bounds q Hq Hqu) as (Hqz & _ & _). destruct (Hb q Hq Hqu) as [?|Hge]; [left; unfold ir_end in *; lia|].
  destruct (decide (ir_start q < ir_end r)) as [Hlt|]; [left|right; unfold ir_end in *; lia].
  assert (q = r) as ->; [|unfold ir_end; lia].
  apply (walk_unique q r (ir_start q)); try done; apply ind_one; unfold ir_end in *; lia.
Qed.

(** The entry that starts at a boundary. *)
Lemma boundary_entry u : boundary u → u < 2 ^ 26 → ∃ r, r ∈ A ∧ fl_used r = true ∧ ir_start r = u * 1024.
Proof using All.
  intros [Hu Hb] Hlt. destruct (cover_pos (List.filter fl_used A) (u * 1024)) as (r & Hr & Hi).
  { rewrite Hcov. case_if; zbool; lia. }
  apply list_elem_of_In, filter_In in Hr as [Hr%list_elem_of_In Hur]. exists r. split; [done|]. split; [done|].
  apply ind_one in Hi. destruct (Hb r Hr Hur); lia.
Qed.

(** One pass over some of the entries. *)
Lemma pass_spec l u :
  (∀ r, r ∈ l → r ∈ A) → boundary u →
  ∃ u', pass_1b l u = Some u' ∧ boundary u' ∧ u ≤ u' ∧
    ((∃ r, r ∈ l ∧ fl_used r = true ∧ ir_start r = u * 1024) → u < u') ∧
    ((∀ r, r ∈ l → fl_used r = true → ir_start r ≠ u * 1024) → u' = u).
Proof using All.
  revert u. induction l as [|r l IH]; intros u Hl Hb.
  { exists u. split; [done|]. split; [done|]. split; [lia|]. split; [|done]. intros (r & Hr & _). by apply elem_of_nil in Hr. }
  cbn [pass_1b]. assert (r ∈ A) as Hr by (apply Hl; by left). pose proof (Hal r Hr) as [Hm Hn].
  assert (∃ q, ir_start r = q * 1024) as [q Hq].
  { exists (ir_start r / 1024). apply Z.div_exact in Hm; lia. }
  rewrite Hq, Z.rem_mul by lia. cbn [Z.eqb negb]. rewrite Z.quot_mul by lia. destruct (q =? u) eqn:Hc; zbool.
  - subst q. destruct (fl_used r) eqn:Hu.
    + pose proof (boundary_step u r Hb Hr Hu Hq) as Hb'. pose proof Hb' as [Hr' _].
      destruct (walk_bounds r Hr Hu) as (Hz & _ & _). destruct Hb as [? _].
      rewrite wrap_s_small by lia. destruct (IH (u + ir_size r)) as (u' & Hp & Hbu & Hle & _ & _); [|done|].
      { intros x Hx. apply Hl. by right. }
      exists u'. split; [done|]. split; [done|]. split; [lia|]. split; [lia|]. intros Hno. exfalso. apply (Hno r); [by left|done|done].
    + assert (ir_size r = 0) as -> by (unfold fl_used in Hu; zbool; lia). destruct Hb as [Hb1 Hb2].
      rewrite Z.add_0_r, wrap_s_small by lia. destruct (IH u) as (u' & Hp & Hbu & Hle & H1 & H2); [|done|].
      { intros x Hx. apply Hl. by right. }
      exists u'. split; [done|]. split; [done|]. split; [lia|]. split.
      * intros (x & [->|Hx]%elem_of_cons & Hxu & Hxs); [congruence|]. apply H1. by exists x.
      * intros Hno. apply H2. intros x Hx. apply Hno. by right.
  - destruct (IH u) as (u' & Hp & Hbu & Hle & H1 & H2); [|done|].
    { intros x Hx. apply Hl. by right. }
    exists u'. split; [done|]. split; [done|]. split; [lia|]. split.
    + intros (x & [->|Hx]%elem_of_cons & Hxu & Hxs); [lia|]. apply H1. by exists x.
    + intros Hno. apply H2. intros x Hx. apply Hno. by right.
Qed.

(** The entries still to come. *)
Definition ahead (u : Z) : nat := length (List.filter (fun r => fl_used r && (u * 1024 <=? ir_start r)) A).

Lemma filter_lt {B} (p q : B → bool) (l : list B) x :
  (∀ y, q y = true → p y = true) → x ∈ l → p x = true → q x = false →
  (length (List.filter q l) < length (List.filter p l))%nat.
Proof.
  intros Hpq Hx Hp Hq. assert (∀ l, (length (List.filter q l) ≤ length (List.filter p l))%nat) as Hle.
  { intros l'. induction l' as [|y l' IH]; [done|]. cbn. destruct (q y) eqn:Hy; [rewrite (Hpq y Hy)|destruct (p y)]; cbn; lia. }
  induction l as [|y l IH]; [by apply elem_of_nil in Hx|]. apply elem_of_cons in Hx as [->|Hx]; cbn.
  - rewrite Hp, Hq. cbn. specialize (Hle l). lia.
  - specialize (IH Hx). destruct (q y) eqn:Hy; [rewrite (Hpq y Hy)|destruct (p y)]; cbn; lia.
Qed.

Lemma test_1b_ends fl em fuel u :
  A = fl ++ em → boundary u → (ahead u < fuel)%nat → test_1b fuel fl em u = Ret tt.
Proof using All.
  intros HA. revert u. induction fuel as [|fuel IH]; intros u Hb Hf; [lia|]. cbn [test_1b].
  destruct (u <? 67108864) eqn:Hu; [|done]. zbool.
  destruct (pass_spec fl u) as (u1 & H1 & Hb1 & Hle1 & Hs1 & He1); [rewrite HA; set_solver|done|].
  destruct (pass_spec em u1) as (u2 & H2 & Hb2 & Hle2 & Hs2 & He2); [rewrite HA; set_solver|done|].
  rewrite H1. cbn. rewrite H2. destruct (boundary_entry u Hb) as (r & Hr & Hur & Hrs); [lia|].
  assert (u < u2) as Hlt.
  { rewrite HA in Hr. apply elem_of_app in Hr as [Hr|Hr]; [assert (u < u1) by (apply Hs1; by exists r); lia|].
    destruct (decide (u1 = u)) as [->|]; [apply Hs2; by exists r|lia]. }
  rewrite (proj2 (Z.eqb_neq _ _)) by lia. apply IH; [done|]. unfold ahead in *. 
  set (q := fun r => fl_used r && (u2 * 1024 <=? ir_start r)).
  set (p := fun r => fl_used r && (u * 1024 <=? ir_start r)) in Hf.
  assert (length (List.filter q A) < length (List.filter p A))%nat; [|lia].
  apply (filter_lt p q A r); unfold p, q; [|done|rewrite Hur; apply Z.leb_le; lia|rewrite Hur; apply Z.leb_gt; lia].
  intros y. rewrite !andb_true_iff, !Z.leb_le. intros [? ?]. split; [done|lia].
Qed.
End Walk.

(** ** The other tests *)

(** What the check relies on besides the invariant.  It multiplies the sizes in 32
    bits: the extents must be shorter than 2^32 blocks, and the length of a free
    entry not a multiple of that. *)
Record checkable (m : EMMem) : Prop := {
  ck_roots : ∀ e, e ∈ live m → dbRoot e ≠ 0;
  ck_sizes : ∀ e, e ∈ live m → ir_size (range e) < 2 ^ 22;
  ck_free : ∀ r, r ∈ free_ranges m → ir_size r mod 2 ^ 22 ≠ 0;
}.

Lemma truncated n : 0 < n → n mod 2 ^ 22 ≠ 0 → 0 < u32 (n * 1024) ≤ n * 1024.
Proof.
  intros Hn Hm. unfold wrap_u. change (2 ^ 32) with (2 ^ 22 * 1024). rewrite Z.mul_mod_distr_r by lia.
  pose proof (Z.mod_pos_bound n (2 ^ 22)). pose proof (Z.mod_le n (2 ^ 22)). lia.
Qed.

Section Check.
Context (s : ExtentMap) (Hi : em_inv (u_mem s)) (Hck : checkable (u_mem s)).
Abbreviation m := (u_mem s).

Lemma live_bounds e : e ∈ live m → 0 < ir_size (range e) ∧ range e ∈ em_ranges m.
Proof using Hi.
  intros He. pose proof (elem_live _ _ He) as Hu. apply list_elem_of_In, filter_In in He as [He%list_elem_of_In _].
  apply zget_elem_of in He as [i He]. pose proof (em_aligned _ _ _ _ Hi He) as [_ Hn].
  pose proof (proj1 (em_used_size e) Hu). split; [lia|]. by eapply em_range_elem.
Qed.

(** An extent and a free entry have no LBID in common. *)
Lemma extent_free_disjoint e f x : e ∈ live m → f ∈ free_ranges m → ind (range e) x = 1 → ind f x = 1 → False.
Proof using Hi.
  intros He Hf H1 H2. destruct (live_bounds e He) as [_ Hr]. pose proof (ei_space _ _ Hi x) as Hs.
  pose proof (cover_elem _ _ x Hr). pose proof (cover_elem _ _ x Hf). cbn in Hs. case_if; lia.
Qed.

Lemma free_disjoint f g rest x : free_ranges m ≡ₚ f :: g :: rest → ind f x = 1 → ind g x = 1 → False.
Proof using Hi.
  intros Hp H1 H2. pose proof (ei_space _ _ Hi x) as Hs. rewrite Hp in Hs. cbn in Hs.
  pose proof (cover_nonneg rest x). pose proof (cover_nonneg (em_ranges m) x). case_if; lia.
Qed.

Lemma test_1a_ok : test_1a (em_tab m) (fl_tab m) = true.
Proof using All.
  apply forallb_forall. intros e He%list_elem_of_In. destruct (em_used e) eqn:Hu; [|done]. cbn [negb orb].
  assert (e ∈ live m) as Hl by (apply list_elem_of_In, filter_In; by rewrite <- list_elem_of_In).
  destruct (live_bounds e Hl) as [Hz _]. pose proof (ck_sizes _ Hck e Hl) as Hsz.
  apply forallb_forall. intros f Hf%list_elem_of_In. destruct (ir_size f =? 0) eqn:Hfz; [done|]. cbn [orb].
  assert (f ∈ free_ranges m) as Hff.
  { apply list_elem_of_In, filter_In. rewrite <- list_elem_of_In. split; [done|]. unfold fl_used. by rewrite Hfz. }
  destruct (free_bounds [] m f Hi Hff) as (Hf0 & _). destruct (truncated (ir_size f) Hf0 (ck_free _ Hck f Hff)) as [T1 T2].
  apply negb_true_iff. unfold overlap_1a. rewrite (wrap_u_small 32 (ir_size (range e) * 1024)) by lia.
  pose proof (extent_free_disjoint e f (ir_start f) Hl Hff) as D1.
  pose proof (extent_free_disjoint e f (ir_start (range e)) Hl Hff) as D2.
  pose proof (extent_free_disjoint e f (ir_start f + u32 (ir_size f * 1024) - 1) Hl Hff) as D3.
  rewrite !ind_one in D1, D2, D3. unfold ir_end in *. apply not_true_is_false.
  rewrite !orb_true_iff, !andb_true_iff, !Z.leb_le. lia.
Qed.

Lemma test_2_ok : test_2 (fl_tab m) = true.
Proof using All.
  assert (∀ l pre, fl_tab m = pre ++ l → test_2 l = true) as H; [|by apply (H _ [])].
  induction l as [|f l IH]; intros pre Hl; [done|]. cbn [test_2].
  rewrite (IH (pre ++ [f])) by (by rewrite <- app_assoc). rewrite andb_true_r. destruct (ir_size f =? 0) eqn:Hfz; [done|]. cbn [orb].
  assert (fl_used f = true) as Hfu by (unfold fl_used; by rewrite Hfz).
  apply forallb_forall. intros g Hg%list_elem_of_In. destruct (ir_size g =? 0) eqn:Hgz; [done|]. cbn [orb].
  assert (fl_used g = true) as Hgu by (unfold fl_used; by rewrite Hgz).
  apply list_elem_of_split in Hg as (l1 & l2 & ->).
  assert (free_ranges m ≡ₚ f :: g :: List.filter fl_used pre ++ List.filter fl_used l1 ++ List.filter fl_used l2) as Hp.
  { unfold free_ranges. rewrite Hl, List.filter_app. cbn. rewrite Hfu, List.filter_app. cbn. rewrite Hgu.
    rewrite <- !Permutation_middle. done. }
  assert (f ∈ free_ranges m) as Hff by (rewrite Hp; by left). assert (g ∈ free_ranges m) as Hgf by (rewrite Hp; right; by left).
  destruct (free_bounds [] m f Hi Hff) as (Hf0 & _). destruct (free_bounds [] m g Hi Hgf) as (Hg0 & _).
  destruct (truncated (ir_size f) Hf0 (ck_free _ Hck f Hff)) as [T1 T2].
  pose proof (fw_merged _ _ (ei_fl _ _ Hi) f g Hff Hgf) as Hmg. apply negb_true_iff, Z.eqb_neq. intros Heq.
  apply (free_disjoint f g _ (ir_start g) Hp); apply ind_one; unfold ir_end in *; lia.
Qed.

Lemma filter_ranges (l : list EMEntry) : List.filter fl_used (range <$> l) = range <$> List.filter em_used l.
Proof. induction l as [|e l IH]; [done|]. cbn. unfold fl_used at 1, em_used at 1. destruct (negb _); cbn; [by f_equal|done]. Qed.

Lemma tests_pass : consistency_tests m = Ret tt.
Proof using All.
  set (A := fl_tab m ++ (range <$> em_tab m)).
  assert (∀ r, r ∈ A → aligned r) as Hal.
  { intros r [Hr|Hr]%elem_of_app.
    - pose proof (fw_shape _ _ (ei_fl _ _ Hi)) as Hs. rewrite Forall_forall in Hs. by apply Hs.
    - apply list_elem_of_fmap in Hr as (e & -> & He). pose proof (ew_shape _ _ (ei_em _ _ Hi)) as Hs.
      rewrite Forall_forall in Hs. by apply Hs. }
  assert (∀ x, cover (List.filter fl_used A) x = if (0 <=? x) && (x <? 2 ^ 36) then 1 else 0) as Hcov.
  { intros x. unfold A. rewrite List.filter_app, cover_app, filter_ranges. rewrite <- (ei_space _ _ Hi x). cbn.
    unfold free_ranges, em_ranges. lia. }
  unfold consistency_tests. rewrite (proj1 (extents_all _ _ Hi)), (proj1 (freelist_all _ _ Hi)).
  rewrite test_1a_ok, test_2_ok. rewrite (test_1b_ends A Hal Hcov _ _ _ 0 eq_refl (boundary_0 A Hal Hcov)).
  2: { unfold ahead. pose proof (filter_length_le (fun r => fl_used r && (0 * 1024 <=? ir_start r)) A) as Hle.
       unfold A in Hle at 2. rewrite length_app, length_fmap in Hle. lia. }
  unfold mbind, outcome_bind.
  assert (existsb (fun e => em_used e && (dbRoot e =? 0)) (em_tab m) = false) as ->.
  { apply not_true_is_false. rewrite existsb_exists. intros (e & He & [Hu Hd]%andb_true_iff). zbool.
    apply (ck_roots _ Hck e); [|done]. apply list_elem_of_In, filter_In. done. }
  destruct Hi as [[_ He _] [_ Hf _ _] _ _]. rewrite He, Hf. unfold sizeof_EMEntry, sizeof_InlineLBIDRange.
  rewrite (Z.mul_comm 64), (Z.mul_comm 16), !Z.div_mul by lia. rewrite Z.eqb_refl.
  unfold fl_used. by rewrite Z.eqb_refl.
Qed.

Lemma checkConsistency_run : EM_checkConsistency s = (Ret 0, s).
Proof using All.
  unfold EM_checkConsistency. rewrite (bind_ret _ _ _ _ _ (grabEM_run READ s (ei_mapped _ _ Hi))).
  set (s1 := mkUndoable _ _). assert (em_inv (u_mem s1)) as Hi1 by by apply inv_locks.
  unfold grabFreeList_or_release, catch. unfold mbind at 1, M_bind at 1. rewrite grabFL_run by apply Hi1.
  rewrite get_mem_run. cbn [u_mem]. match goal with |- context [consistency_tests ?x] => change (consistency_tests x) with (consistency_tests m) end.
  rewrite tests_pass, lift_run. unfold releaseFreeList, releaseEMEntryTable. rewrite !upd_mem_run.
  destruct s as [[] log]. cbn. unfold set_locks, mret, M_ret. cbn. by rewrite !Z.add_simpl_r.
Qed.
End Check.
