(* ===== verification/EmTheorems.v ===== *)
(** * What the extent map guarantees

    The statements about the extent map, each with an instance at a small state. *)

From S2P Require Import Prelude BinFile Undo Table Vbbm Vss ColType ExtentMap EmCp EmCreate EmDelete EmQuery EmFile EmSpace EmFree EmInv EmKeeps EmPlace EmLayout EmRollback EmHwm EmCpProofs EmReserve EmLoad.

(** ** The states the extent map can reach *)

(** The calls whose changes are all in the undo log. *)
Definition undoable (o : em_op) : bool :=
  match o with
  | OpCreateColumn _ _ _ _ _ | OpCreateExact _ _ _ _ _ _ | OpCreateDict _ _ _ _ | OpBulkSetHWM _ => true
  | _ => false
  end.

(** Calls, confirmed ([OpConfirm]) or not yet; calls that were undone, where no
    change was pending before and the segment need not be moved; and loading a file
    that was saved in such a state. *)
Inductive em_reachable (cfg : EMConfig) : ExtentMap → Prop :=
  | reach_boot : em_reachable cfg em_boot
  | reach_call s o : em_reachable cfg s → op_ok o → em_reachable cfg (run_op cfg o s).2
  | reach_undone s o :
      em_reachable cfg s → op_ok o → undoable o = true → undoRecords s = [] → em_roomy (u_mem s) →
      em_reachable cfg (EM_undoChanges (run_op cfg o s).2).2
  | reach_load hdfs s0 s file :
      em_reachable cfg s0 → (EM_save s0).1 = Ret file → zlength (live (u_mem s0)) < 2 ^ 25 →
      Forall em_loadable (live (u_mem s0)) → em_reachable cfg s → em_reachable cfg (EM_load hdfs (Some file) s).2.

Lemma inv_em_eq m m' : em_inv m → em_eq m' m → em_inv m'.
Proof.
  intros [H1 H2 H3 [H4 H5 H6]] (E1 & E2 & E3 & E4 & E5 & E6). destruct m, m'; cbn in *. subst. by split.
Qed.

Lemma recorded_no_result {A} (op : M ExtentMap A) s : recorded em_eq s (op s) → recorded em_eq s (no_result op s).
Proof. intros H. apply recorded_bind; [apply _|done|]. intros a s1 _. apply recorded_ret, _. Qed.

Lemma undone_inv cfg o s :
  em_inv (u_mem s) → undoable o = true → undoRecords s = [] → em_roomy (u_mem s) →
  em_inv (u_mem (EM_undoChanges (run_op cfg o s).2).2).
Proof.
  intros Hi Hu Hl Hr. destruct (undo_recorded (run_op cfg o) s Hl) as (s' & -> & He & _); [|by eapply inv_em_eq].
  destruct o; try discriminate Hu; cbn [run_op]; try apply recorded_no_result.
  - by apply recorded_createColumn.
  - by apply recorded_createExact.
  - by apply recorded_createDict.
  - by apply recorded_bulkSetHWM.
Qed.

(** [save] writes nothing when there are no extents. *)
Lemma save_live s file : em_inv (u_mem s) → (EM_save s).1 = Ret file → live (u_mem s) ≠ [] ∧ file = em_image (u_mem s).
Proof.
  intros Hi Hs. destruct (decide (live (u_mem s) = [])) as [He|Hne].
  - exfalso. revert Hs. unfold EM_save. rewrite (bind_ret _ _ _ _ _ (grabEM_run READ s (ei_mapped _ _ Hi))).
    set (s1 := mkUndoable _ _). assert (em_inv (u_mem s1)) as Hi1 by by apply inv_locks.
    unfold grabFreeList_or_release, catch. unfold mbind at 1, M_bind at 1. rewrite grabFL_run by apply Hi1.
    rewrite get_mem_run. unfold releaseFreeList, releaseEMEntryTable. rewrite !upd_mem_run. cbn [u_mem].
    pose proof (ew_count _ _ (ei_em _ _ Hi)) as Hc. unfold count in Hc. fold (live (u_mem s)) in Hc. rewrite He in Hc.
    change (length (@nil EMEntry)) with 0%nat in Hc. cbn [set_locks em_info]. unfold s1. cbn [u_mem set_locks em_info]. rewrite Hc. done.
  - split; [done|]. rewrite (save_run s Hi Hne) in Hs. by injection Hs.
Qed.

Lemma reachable_inv cfg s : dbRootCount cfg ≠ 0 → em_reachable cfg s → em_inv (u_mem s).
Proof.
  intros Hc H. induction H as [|s o Hr IH Hok|s o Hr IH Hok Hu Hl Hro|hdfs s0 s file H0 IH0 Hs Hn Hld H IH].
  - apply em_boot_inv.
  - pose proof (op_keeps cfg o Hc Hok s IH) as Hk. destruct (run_op cfg o s) as [[]]; [done|]. apply Hk.
  - by apply undone_inv.
  - destruct (save_live s0 file IH0 Hs) as [Hne ->].
    by destruct (load_image hdfs (u_mem s0) s IH0 Hne Hn Hld IH) as (s' & -> & Hi' & _).
Qed.

Lemma em_sample_reachable : em_reachable cfg1 em_sample.
Proof.
  assert (∀ s o A (op : M ExtentMap A), em_reachable cfg1 s → op_ok o → run_op cfg1 o = no_result op →
    em_reachable cfg1 (op s).2) as Hstep.
  { intros s o A op Hr Hok Ho. pose proof (reach_call cfg1 s o Hr Hok) as H. rewrite Ho in H.
    unfold no_result, mbind, M_bind in H. by destruct (op s) as [[] ?]. }
  apply (Hstep _ (OpCreateDict 3001 1 0 0)); [|done..].
  apply (Hstep _ (OpCreateColumn 3000 4 1 INT 0)); [|done..].
  apply (Hstep _ (OpCreateColumn 3000 4 1 INT 0)); [|done..]. constructor.
Qed.

(** ** A small state *)

Lemma em_sample_inv : em_inv (u_mem em_sample).
Proof. by apply (reachable_inv cfg1 _ ltac:(done) em_sample_reachable). Qed.

Definition no_cp (t : ColDataType) (v : Z) : EMCasualPartition := mkCP (fst (no_values t)) (snd (no_values t)) 0 v.
Definition sample_extents : list EMEntry :=
  [mkEM (mkIR 0 4) 3000 0 0 0 0 1 4 1 (no_cp INT 2); mkEM (mkIR 4096 4) 3000 0 0 0 1 1 4 1 (no_cp INT 0);
   mkEM (mkIR 8192 8) 3001 0 0 0 0 1 0 1 (no_cp INT 0)].

Lemma em_sample_live : live (u_mem em_sample) = sample_extents.
Proof. vm_compute. reflexivity. Qed.

Ltac each_extent := repeat match goal with
  | H : _ ∈ _ :: _ |- _ => apply elem_of_cons in H as [->|H]
  | H : _ ∈ [] |- _ => by apply elem_of_nil in H
  | H : _ ∈ sample_extents |- _ => unfold sample_extents in H
  end.

Lemma sample_layout : file_layout sample_extents.
Proof.
  split.
  - repeat constructor; done.
  - intros e1 e2 H1 H2. each_extent; done.
  - intros e He. each_extent; done.
  - intros e1 e2 H1 H2. each_extent; done.
  - apply (bool_decide_unpack _). vm_compute. exact I.
Qed.

Lemma sample_room OID : OID = 3000 → column_room OID 4 sample_extents.
Proof. intros -> e He. each_extent; done. Qed.

(** ** The LBIDs *)



(** C17 [createColumnExtent_DBroot] fails only when no free range is long enough, and
    then leaves the extents as they were.  Otherwise it adds one extent of the
    column's size, on fresh LBIDs, and the place it chooses (partition, segment
    file and offset) keeps the layout of the files: in particular no block of a
    file is in two extents, and no file is on two DBRoots. *)
Theorem column_extent_new_place cfg OID w dbroot t part s :
  dbRootCount cfg ≠ 0 → em_inv (u_mem s) → file_layout (live (u_mem s)) → column_room OID w (live (u_mem s)) →
  0 < w < 512 → 0 ≤ part < 2 ^ 32 →
  let op := createColumnExtent_DBroot cfg OID w dbroot t part true in
  (∃ s', op s = (Exn RuntimeError, s') ∧ em_inv (u_mem s') ∧ live (u_mem s') = live (u_mem s) ∧
     ∀ r, r ∈ free_ranges (u_mem s') → ir_size r < w) ∨
  ∃ lbid pl s', op s = (Ret (lbid, EXTENT_SIZE w, pl), s') ∧ em_inv (u_mem s') ∧
    live (u_mem s') ≡ₚ column_entry lbid w OID w dbroot t pl :: live (u_mem s) ∧ file_layout (live (u_mem s')).
Proof.
  intros Hc Hi Hly Hcr Hw Hp op.
  destruct (createColumn_spec cfg Hc OID w dbroot t part true s Hi Hw) as [H|(lbid & s' & l & Hr & Hl & Hn)]; [by left|right].
  exists lbid, (choose_place cfg OID w dbroot part l), s'. split; [done|].
  pose proof (layout_created cfg OID w dbroot t part lbid _ _ l Hc Hly Hcr (proj1 Hw) Hp Hl Hn). destruct Hn. done.
Qed.

Lemma column_extent_new_place_witness :
  let op := createColumnExtent_DBroot cfg1 3000 4 2 INT 0 true in
  (∃ s', op em_sample = (Exn RuntimeError, s') ∧ em_inv (u_mem s') ∧ live (u_mem s') = live (u_mem em_sample) ∧
     ∀ r, r ∈ free_ranges (u_mem s') → ir_size r < 4) ∨
  ∃ lbid pl s', op em_sample = (Ret (lbid, EXTENT_SIZE 4, pl), s') ∧ em_inv (u_mem s') ∧
    live (u_mem s') ≡ₚ column_entry lbid 4 3000 4 2 INT pl :: live (u_mem em_sample) ∧ file_layout (live (u_mem s')).
Proof.
  apply (column_extent_new_place cfg1 3000 4 2 INT 0 em_sample); [done|exact em_sample_inv| | |lia|lia].
  - rewrite em_sample_live. exact sample_layout.
  - rewrite em_sample_live. by apply sample_room.
Defined.

(** An extent created in a given file goes to the end of that file, for columns
    ([createColumnExtentExactFile]) and for dictionaries ([createDictStoreExtent]):
    when the call returns, the layout of the files is kept. *)
Theorem file_extent_at_end OID w dbroot part seg t s :
  em_inv (u_mem s) → file_layout (live (u_mem s)) → 0 < w < 512 → 0 ≤ part → 0 ≤ seg →
  (∀ lbid n off s', column_room OID w (live (u_mem s)) →
     (∀ x, x ∈ live (u_mem s) → file_of x = (OID, part, seg) → dbRoot x = dbroot) →
     createColumnExtentExactFile OID w dbroot part seg t s = (Ret (lbid, n, off), s') →
     em_inv (u_mem s') ∧ file_layout (live (u_mem s')) ∧
     live (u_mem s') ≡ₚ column_entry lbid w OID w dbroot t (mkPlace part seg off) :: live (u_mem s)) ∧
  (∀ lbid n s', column_room OID 8 (live (u_mem s)) →
     createDictStoreExtent OID dbroot part seg s = (Ret (lbid, n), s') →
     em_inv (u_mem s') ∧ file_layout (live (u_mem s')) ∧
     ∃ e, live (u_mem s') ≡ₚ e :: live (u_mem s) ∧ range e = mkIR lbid 8 ∧ file_of e = (OID, part, seg)).
Proof.
  intros Hi Hly Hw Hp Hs. split.
  - intros lbid n off s' Hcr Hroot Hrun.
    destruct (createExact_spec OID w dbroot part seg t s Hi Hw) as [(s1 & Hr & _)|(lb & s1 & l & Hr & Hl & Hn)];
      rewrite Hr in Hrun; [done|]. injection Hrun as <- <- <- <-. split; [apply Hn|]. split; [|apply Hn].
    apply (layout_exact OID w dbroot part seg t lb (u_mem s) (u_mem s1) l); try done. lia.
  - intros lbid n s' Hcr Hrun.
    destruct (createDict_spec OID dbroot part seg s Hi) as [(s1 & Hr & _)|(lb & s1 & l & Hr & Hl & Hn)];
      rewrite Hr in Hrun; [done|]. injection Hrun as <- <- <-. split; [apply Hn|].
    split; [by apply (layout_dict OID dbroot part seg lb (u_mem s) (u_mem s1) l)|]. eexists. split; [apply Hn|]. split; [done|].
    assert (∀ x, x ∈ l → em_used x = true → in_dict_file OID part seg x = true → 0 ≤ blockOffset x) as Hoff.
    { intros x Hx Hu _. pose proof (ly_nonneg _ Hly) as Hnn. rewrite Forall_forall in Hnn. by apply Hnn, (live_elem _ l). }
    pose proof (find_file_spec _ l Hoff) as Hsp. unfold dict_entry, file_of. destruct (sf_last _) as [z|]; [|done]. cbn.
    destruct Hsp as (_ & _ & Hz & _). unfold in_dict_file in Hz. zbool. congruence.
Qed.

Lemma file_extent_at_end_witness :
  (∀ lbid n off s', column_room 3000 4 (live (u_mem em_sample)) →
     (∀ x, x ∈ live (u_mem em_sample) → file_of x = (3000, 0, 1) → dbRoot x = 1) →
     createColumnExtentExactFile 3000 4 1 0 1 INT em_sample = (Ret (lbid, n, off), s') →
     em_inv (u_mem s') ∧ file_layout (live (u_mem s')) ∧
     live (u_mem s') ≡ₚ column_entry lbid 4 3000 4 1 INT (mkPlace 0 1 off) :: live (u_mem em_sample)) ∧
  (∀ lbid n s', column_room 3000 8 (live (u_mem em_sample)) →
     createDictStoreExtent 3000 1 0 1 em_sample = (Ret (lbid, n), s') →
     em_inv (u_mem s') ∧ file_layout (live (u_mem s')) ∧
     ∃ e, live (u_mem s') ≡ₚ e :: live (u_mem em_sample) ∧ range e = mkIR lbid 8 ∧ file_of e = (3000, 0, 1)).
Proof.
  apply (file_extent_at_end 3000 4 1 0 1 INT em_sample); [exact em_sample_inv| |lia|lia|lia].
  rewrite em_sample_live. exact sample_layout.
Defined.

(** ** Rolling back a load *)

(** The column filled up to block 100 of its second file. *)
Definition em_filled : ExtentMap :=
  (EM_setLocalHWM 3000 0 1 100 true (EM_setLocalHWM 3000 0 0 4095 true em_sample).2).2.

Definition filled_extents : list EMEntry :=
  [mkEM (mkIR 0 4) 3000 0 4095 0 0 1 4 0 (no_cp INT 2); mkEM (mkIR 4096 4) 3000 0 100 0 1 1 4 0 (no_cp INT 0);
   mkEM (mkIR 8192 8) 3001 0 0 0 0 1 0 1 (no_cp INT 0)].

Lemma em_filled_live : live (u_mem em_filled) = filled_extents.
Proof. vm_compute. reflexivity. Qed.

Lemma em_filled_inv : em_inv (u_mem em_filled).
Proof.
  pose proof (keeps_setLocalHWM 3000 0 0 4095 true em_sample em_sample_inv) as H1. unfold em_filled.
  destruct (EM_setLocalHWM 3000 0 0 4095 true em_sample) as [o1 s1]. cbn [snd].
  assert (em_inv (u_mem s1)) as Hi1 by (destruct o1; [done|apply H1]).
  pose proof (keeps_setLocalHWM 3000 0 1 100 true s1 Hi1) as H2.
  destruct (EM_setLocalHWM 3000 0 1 100 true s1) as [o2 s2]. destruct o2; [done|apply H2].
Qed.

Ltac each_filled := repeat match goal with
  | H : _ ∈ _ :: _ |- _ => apply elem_of_cons in H as [->|H]
  | H : _ ∈ [] |- _ => by apply elem_of_nil in H
  | H : _ ∈ filled_extents |- _ => unfold filled_extents in H
  end.





(** ** Lookups *)

(** C31 The two directions of the lookup are inverse to each other: the place of an
    LBID of an extent leads back to it, and the LBID of a place in an extent leads
    back to the place.  Both give their read lock back. *)
Theorem lookup_inverse s e :
  em_inv (u_mem s) → file_layout (live (u_mem s)) → lookup_bounds (u_mem s) → e ∈ live (u_mem s) →
  (∀ lbid, ir_start (range e) ≤ lbid < ir_end (range e) →
     ∃ fbo, lookupLocal lbid s = (Ret (Some (mkBP (fileID e) (dbRoot e) (partitionNum e) (segmentNum e) fbo)), s) ∧
            lookupLocal_file (fileID e) (partitionNum e) (segmentNum e) fbo s = (Ret (Some lbid), s)) ∧
  (∀ fbo, blockOffset e ≤ fbo < blockOffset e + ir_size (range e) * 1024 →
     ∃ lbid, lookupLocal_file (fileID e) (partitionNum e) (segmentNum e) fbo s = (Ret (Some lbid), s) ∧
             lookupLocal lbid s = (Ret (Some (mkBP (fileID e) (dbRoot e) (partitionNum e) (segmentNum e) fbo)), s)).
Proof.
  intros Hi Hly Hb He. split.
  - intros lbid Hl. eexists. split; [by apply lookupLocal_run|].
    rewrite lookupLocal_file_run; [|done..|unfold ir_end in *; lia]. do 3 f_equal. lia.
  - intros fbo Hf. eexists. split; [by apply lookupLocal_file_run|].
    rewrite (lookupLocal_run s Hi Hly Hb e); [|done|unfold ir_end; lia]. do 4 f_equal. lia.
Qed.

Lemma lookup_inverse_witness :
  let e := mkEM (mkIR 4096 4) 3000 0 0 0 1 1 4 1 (no_cp INT 0) in
  (∀ lbid, 4096 ≤ lbid < ir_end (range e) →
     ∃ fbo, lookupLocal lbid em_sample = (Ret (Some (mkBP 3000 1 0 1 fbo)), em_sample) ∧
            lookupLocal_file 3000 0 1 fbo em_sample = (Ret (Some lbid), em_sample)) ∧
  (∀ fbo, 0 ≤ fbo < 0 + 4 * 1024 →
     ∃ lbid, lookupLocal_file 3000 0 1 fbo em_sample = (Ret (Some lbid), em_sample) ∧
             lookupLocal lbid em_sample = (Ret (Some (mkBP 3000 1 0 1 fbo)), em_sample)).
Proof.
  intros e. apply (lookup_inverse em_sample e).
  - exact em_sample_inv.
  - rewrite em_sample_live. exact sample_layout.
  - intros x. rewrite em_sample_live. intros Hx. each_extent; done.
  - rewrite em_sample_live. right. left.
Defined.

(** ** High water marks *)

(** [setLocalHWM] and [getLocalHWM]: when at most one extent of a segment file
    has an HWM, setting one that lies in the file succeeds, the same holds after it,
    and the HWM is what is read back, with the extent available. *)
Theorem hwm_set_get OID part seg h s i e :
  em_inv (u_mem s) → (∀ x, x ∈ live (u_mem s) → 0 ≤ blockOffset x) → one_hwm OID part seg (em_tab (u_mem s)) → 0 ≤ OID →
  hs_last (find_hwm OID part seg (em_tab (u_mem s))) = Some (i, e) →
  h < u32 (blockOffset e + u32 (ir_size (range e) * 1024)) →
  ∃ s' st, EM_setLocalHWM OID part seg h true s = (Ret tt, s') ∧ em_inv (u_mem s') ∧
    one_hwm OID part seg (em_tab (u_mem s')) ∧
    getLocalHWM OID part seg s' = (Ret (h, st), s') ∧ (h ≠ 0 → st = EXTENTAVAILABLE).
Proof.
  intros Hi Hnn Hone Ho Hl Hh. destruct (setLocalHWM_run OID part seg h true s i e) as (s' & Hr & Hi' & Ht); try done.
  assert (∀ x, x ∈ em_tab (u_mem s) → in_segment OID part seg x = true → 0 ≤ blockOffset x) as Hnn'.
  { intros x Hx Hs. apply Hnn. apply list_elem_of_In, filter_In. rewrite <- list_elem_of_In. split; [done|].
    unfold in_segment in Hs. by destruct (em_used x). }
  destruct (hwm_entries_local OID part seg h _ Hnn' Hone i e Hl) as (st & Hst & Hav).
  exists s', st. split; [done|]. split; [done|]. split; [rewrite Ht; by apply hwm_entries_one|]. split; [|done].
  unfold getLocalHWM, nonneg_arg. rewrite (proj2 (Z.ltb_ge _ _) Ho), mret_run.
  rewrite (reading_run (fun l => match local_hwm OID part seg l None with Some r => Ret r | None => Exn InvalidArgument end)) by apply Hi'.
  rewrite (proj1 (extents_all _ _ Hi')), Ht, Hst. done.
Qed.

Lemma hwm_set_get_witness :
  ∃ s' st, EM_setLocalHWM 3000 0 1 77 true em_filled = (Ret tt, s') ∧ em_inv (u_mem s') ∧
    one_hwm 3000 0 1 (em_tab (u_mem s')) ∧
    getLocalHWM 3000 0 1 s' = (Ret (77, st), s') ∧ (77 ≠ 0 → st = EXTENTAVAILABLE).
Proof.
  apply (hwm_set_get 3000 0 1 77 em_filled 1 (mkEM (mkIR 4096 4) 3000 0 100 0 1 1 4 0 (no_cp INT 0))).
  - exact em_filled_inv.
  - rewrite em_filled_live. intros x Hx. each_filled; done.
  - intros j k x y Hj Hk Hx Hy _ _. assert (∀ j x, (em_tab (u_mem em_filled)).[j] = Some x → in_segment 3000 0 1 x = true → j = 1) as H.
    { clear. intros j x Hj Hx. change (em_tab (u_mem em_filled)) with (filled_extents ++ replicate 997 empty_EMEntry) in Hj.
      destruct (decide (j < 3)).
      - assert (j = 0 ∨ j = 1 ∨ j = 2) as [->|[-> | ->]] by (apply zget_range in Hj; lia); injection Hj as <-; done.
      - replace j with (zlength filled_extents + (j - 3)) in Hj by (unfold zlength; cbn; lia). rewrite zget_app_r in Hj by lia.
        assert (x ∈ replicate 997 empty_EMEntry) as [-> _]%elem_of_replicate by (apply zget_elem_of; eauto). done. }
    rewrite (H j x), (H k y); done.
  - lia.
  - vm_compute. reflexivity.
  - vm_compute. reflexivity.
Defined.
