(* ===== verification/EmTheorems2.v ===== *)
(** * What the extent map guarantees, continued

    The value ranges, the file, the consistency check, undoing, and deleting. *)

From S2P Require Import Prelude BinFile Undo Table Vbbm Vss ColType ExtentMap EmCp EmCreate EmDelete EmQuery EmFile EmSpace EmFree EmInv EmKeeps EmPlace EmLayout EmRollback EmHwm EmCpProofs EmReserve EmLoad EmTheorems.

(** ** Ranges of values *)





(** ** The file *)

(** C35 Loading what [save] wrote, into whatever memory and from either kind of file
    system: the call returns, the extents are the same, every other LBID is free,
    the invariant holds and the locks are released. *)
Theorem em_load_save hdfs s0 s :
  em_inv (u_mem s0) → live (u_mem s0) ≠ [] → zlength (live (u_mem s0)) < 2 ^ 25 → Forall em_loadable (live (u_mem s0)) →
  em_inv (u_mem s) →
  ∃ file, EM_save s0 = (Ret file, s0) ∧
  ∃ s', EM_load hdfs (Some file) s = (Ret tt, s') ∧ em_inv (u_mem s') ∧ live (u_mem s') = live (u_mem s0) ∧
    (∀ x, cover (free_ranges (u_mem s')) x = cover (free_ranges (u_mem s0)) x) ∧
    emLocked (u_mem s') = false ∧ flLocked (u_mem s') = false.
Proof.
  intros Hi0 Hne Hcnt Hld Hi. exists (em_image (u_mem s0)). split.
  - by apply save_run.
  - destruct (load_image hdfs (u_mem s0) s) as (s' & Hr & Hi' & Hl & Hu1 & Hu2); try done.
    exists s'. split; [done|]. split; [done|]. split; [done|]. split; [|done]. intros x.
    pose proof (ei_space _ _ Hi0 x) as S0. pose proof (ei_space _ _ Hi' x) as S1. unfold em_ranges in S0, S1.
    fold (live (u_mem s0)) in S0. fold (live (u_mem s')) in S1. rewrite Hl in S1. lia.
Qed.

Lemma sample_loadable : Forall em_loadable sample_extents.
Proof. repeat constructor; cbn; try done; lia. Qed.

Lemma em_load_save_witness :
  ∃ file, EM_save em_sample = (Ret file, em_sample) ∧
  ∃ s', EM_load false (Some file) em_boot = (Ret tt, s') ∧ em_inv (u_mem s') ∧ live (u_mem s') = live (u_mem em_sample) ∧
    (∀ x, cover (free_ranges (u_mem s')) x = cover (free_ranges (u_mem em_sample)) x) ∧
    emLocked (u_mem s') = false ∧ flLocked (u_mem s') = false.
Proof.
  apply (em_load_save false em_sample em_boot).
  - exact em_sample_inv.
  - by rewrite em_sample_live.
  - rewrite em_sample_live. vm_compute. reflexivity.
  - rewrite em_sample_live. exact sample_loadable.
  - exact em_boot_inv.
Defined.

(** ** The consistency check *)

(** C36 [checkConsistency] returns 0 on every state that satisfies the invariant and
    in which every extent has a DBRoot other than 0, all its loops end, and its read
    locks are given back.  It multiplies sizes in 32 bits, so extents must be shorter
    than 2^32 blocks and free entries not as long as a multiple of 2^32 blocks. *)
Theorem em_check_accepts s :
  em_inv (u_mem s) → checkable (u_mem s) → EM_checkConsistency s = (Ret 0, s).
Proof. apply checkConsistency_run. Qed.

Lemma em_check_accepts_witness : EM_checkConsistency em_sample = (Ret 0, em_sample).
Proof.
  apply (em_check_accepts em_sample); [exact em_sample_inv|]. split.
  - rewrite em_sample_live. intros e He. each_extent; done.
  - rewrite em_sample_live. intros e He. each_extent; done.
  - assert (free_ranges (u_mem em_sample) = [mkIR 16384 67108848]) as -> by (vm_compute; reflexivity).
    intros r ->%list_elem_of_singleton. vm_compute. discriminate.
Defined.

(** ** Undoing *)

(** [undoChanges] after an extent was created, or after HWMs were set, succeeds or
    not: the extents, the free list and both descriptors are as they were, the log
    is empty and the locks are released.  The extent map must have a free slot, so
    that its segment does not have to be moved. *)
Theorem em_create_undone cfg OID w dbroot t part seg v s :
  em_inv (u_mem s) → em_roomy (u_mem s) → undoRecords s = [] →
  let undone {A} (op : M ExtentMap A) :=
    ∃ s', EM_undoChanges (op s).2 = (Ret tt, s') ∧ em_eq (u_mem s') (u_mem s) ∧ undoRecords s' = [] ∧
      emLocked (u_mem s') = false ∧ flLocked (u_mem s') = false in
  undone (createColumnExtent_DBroot cfg OID w dbroot t part true) ∧
  undone (createColumnExtentExactFile OID w dbroot part seg t) ∧
  undone (createDictStoreExtent OID dbroot part seg) ∧
  undone (EM_bulkSetHWM v).
Proof.
  intros Hi Hr Hl undone. unfold undone. split_and!; (apply undo_recorded; [done|]).
  - by apply recorded_createColumn.
  - by apply recorded_createExact.
  - by apply recorded_createDict.
  - by apply recorded_bulkSetHWM.
Qed.

(** The sample, its changes confirmed. *)
Definition em_confirmed : ExtentMap := (EM_confirmChanges em_sample).2.

Lemma em_confirmed_inv : em_inv (u_mem em_confirmed).
Proof.
  pose proof (keeps_confirm em_sample em_sample_inv) as Hk. unfold em_confirmed.
  destruct (EM_confirmChanges em_sample) as [[]]; [done|apply Hk].
Qed.

Lemma em_create_undone_witness :
  let undone {A} (op : M ExtentMap A) :=
    ∃ s', EM_undoChanges (op em_confirmed).2 = (Ret tt, s') ∧ em_eq (u_mem s') (u_mem em_confirmed) ∧ undoRecords s' = [] ∧
      emLocked (u_mem s') = false ∧ flLocked (u_mem s') = false in
  undone (createColumnExtent_DBroot cfg1 3000 4 1 INT 0 true) ∧
  undone (createColumnExtentExactFile 3000 4 1 0 1 INT) ∧
  undone (createDictStoreExtent 3000 1 0 1) ∧
  undone (EM_bulkSetHWM [mkBulkHWM 3000 0 0 7]).
Proof.
  apply (em_create_undone cfg1 3000 4 1 INT 0 1 [mkBulkHWM 3000 0 0 7] em_confirmed).
  - exact em_confirmed_inv.
  - vm_compute. discriminate.
  - vm_compute. reflexivity.
Defined.

(** [deleteExtent] takes images of the pointers to the two descriptors where it
    means the descriptors: when a [deleteOID] is undone, every extent is in its slot
    again, but the count of extents is not restored.  The extent map is then
    inconsistent, and the next [save] and [load] lose an extent. *)
Theorem delete_undo_loses_extent :
  let s := (EM_undoChanges (EM_deleteOID 3001 em_confirmed).2).2 in
  em_tab (u_mem s) = em_tab (u_mem em_confirmed) ∧
  mst_currentSize (em_info (u_mem s)) = mst_currentSize (em_info (u_mem em_confirmed)) - sizeof_EMEntry ∧
  ¬ em_inv (u_mem s) ∧
  ∃ file s1, EM_save s = (Ret file, s1) ∧
    live (u_mem (EM_load false (Some file) s1).2) = take 2 (live (u_mem em_confirmed)).
Proof.
  set (s := (EM_undoChanges (EM_deleteOID 3001 em_confirmed).2).2).
  assert (em_tab (u_mem s) = em_tab (u_mem em_confirmed)) as Ht by (vm_compute; reflexivity).
  assert (mst_currentSize (em_info (u_mem s)) = mst_currentSize (em_info (u_mem em_confirmed)) - sizeof_EMEntry) as Hc
    by (vm_compute; reflexivity).
  split; [exact Ht|]. split; [exact Hc|]. split.
  - clearbody s. intros [[_ Hn _] _ _ _]. pose proof (ew_count _ _ (ei_em _ _ em_confirmed_inv)) as Hn'. rewrite Ht in Hn.
    unfold sizeof_EMEntry in *. lia.
  - assert (match EM_save s with (Ret f, s2) => live (u_mem (EM_load false (Some f) s2).2) | _ => [] end =
            take 2 (live (u_mem em_confirmed))) as H by (vm_compute; reflexivity).
    clearbody s. destruct (EM_save s) as [[file|e] s1]; [exists file, s1; split; [reflexivity|exact H]|].
    assert (live (u_mem em_confirmed) = sample_extents) as Hl by (vm_compute; reflexivity). rewrite Hl in H. discriminate H.
Qed.

(** ** Deleting *)

(** C34 [deleteOID] removes exactly the extents of the column and gives exactly their
    LBIDs back to the free list; it throws if the column has none, having changed
    nothing but the locks. *)
Theorem deleteOID_exact OID s :
  em_inv (u_mem s) →
  ∃ s', EM_deleteOID OID s = (if existsb (fun e => fileID e =? OID) (live (u_mem s)) then Ret tt else Exn InvalidArgument, s') ∧
    em_inv (u_mem s') ∧ live (u_mem s') = List.filter (fun e => negb (fileID e =? OID)) (live (u_mem s)) ∧
    ∀ x, cover (free_ranges (u_mem s')) x =
         cover (free_ranges (u_mem s)) x + cover (range <$> List.filter (fun e => fileID e =? OID) (live (u_mem s))) x.
Proof.
  intros Hi. destruct (deleteOID_run OID s Hi) as (s' & Hr & Hi' & Hl). exists s'. split; [done|]. split; [done|]. split; [done|].
  intros x. by apply dropped_free.
Qed.

Lemma deleteOID_exact_witness :
  ∃ s', EM_deleteOID 3000 em_sample =
      (if existsb (fun e => fileID e =? 3000) (live (u_mem em_sample)) then Ret tt else Exn InvalidArgument, s') ∧
    em_inv (u_mem s') ∧ live (u_mem s') = List.filter (fun e => negb (fileID e =? 3000)) (live (u_mem em_sample)) ∧
    ∀ x, cover (free_ranges (u_mem s')) x =
         cover (free_ranges (u_mem em_sample)) x +
         cover (range <$> List.filter (fun e => fileID e =? 3000) (live (u_mem em_sample))) x.
Proof. exact (deleteOID_exact 3000 em_sample em_sample_inv). Defined.

(** Two columns of 4 and 8 bytes with two extents each, on one DBRoot. *)
Definition cfg0 : EMConfig := mkEMConfig 1 2 1.
Definition em_table : ExtentMap :=
  let mk OID w s := (createColumnExtent_DBroot cfg0 OID w 1 INT 0 true s).2 in
  mk 3002 8 (mk 3002 8 (mk 3000 4 (mk 3000 4 em_boot))).

(** [deleteEmptyColExtents] computes the stripe of the HWM once, from the first
    extent it meets, and uses it for all the columns it is given, whose widths and
    HWMs differ.  It deletes an extent that holds data: here the HWM of the second
    column is block 8200, and after the call the column has no such block. *)
Theorem deleteEmptyCol_drops_data :
  let info := [(3000, mkExtentInfo 0 0 1 4100 false); (3002, mkExtentInfo 0 0 1 8200 false)] in
  let s := (deleteEmptyColExtents info em_table).2 in
  (deleteEmptyColExtents info em_table).1 = Ret tt ∧
  (lookupLocal_file 3002 0 0 8200 em_table).1 = Ret (Some 16392) ∧
  (lookupLocal_file 3002 0 0 8200 s).1 = Ret None.
Proof. vm_compute. done. Qed.

(** [bulkUpdateDBRoot] takes no images: undoing it changes nothing back. *)
Lemma bulkUpdateDBRoot_not_undone :
  let s := (EM_undoChanges (EM_bulkUpdateDBRoot [(8192, 2)] em_confirmed).2).2 in
  dbRoot <$> live (u_mem em_confirmed) = [1; 1; 1] ∧ dbRoot <$> live (u_mem s) = [1; 1; 2].
Proof. vm_compute. done. Qed.

(** [isDBRootEmpty] on an empty extent map keeps its read lock. *)
Lemma isDBRootEmpty_keeps_lock :
  (isDBRootEmpty 1 em_boot).1 = Exn RuntimeError ∧
  emReaders (u_mem (isDBRootEmpty 1 em_boot).2) = emReaders (u_mem em_boot) + 1.
Proof. vm_compute. done. Qed.
