(* ===== verification/NodeEm.v ===== *)
(** * The worker's calls on the extent map ([slavedbrmnode.cpp])

    The extent map of [ExtentMap] behind the class [ExtentMapCalls], and the
    operations of the worker that are calls of it.  Each catches the exceptions
    of the call and returns a code; an operation with output parameters returns
    them, or [None] for the code -1. *)

From S2P Require Import Prelude Undo Table Vbbm Vss CopyLocks SlaveNode ColType ExtentMap EmCp EmCreate EmDelete EmQuery EmFile.

(** The extent map behind the interface; [hdfs] is [IDBPolicy::useHdfs()], which
    only matters when the file is loaded. *)
Definition ExtentMap_calls_on (hdfs : bool) : ExtentMapCalls ExtentMap := {|
  em_lookup := EM_lookup_oid;
  em_deleteOID := EM_deleteOID;
  em_deleteOIDs := EM_deleteOIDs;
  em_confirmChanges := EM_confirmChanges;
  em_undoChanges := EM_undoChanges;
  em_checkConsistency := EM_checkConsistency;
  em_save := EM_save;
  em_load := EM_load hdfs;
|}.

#[global] Instance ExtentMap_calls : ExtentMapCalls ExtentMap := ExtentMap_calls_on false.

Abbreviation Node := (SlaveDBRMNode (EM := ExtentMap)).

(** [try { em.f(..); } catch (exception &e) { return -1; } return 0;] *)
Definition em_code (op : M ExtentMap unit) : M Node Z :=
  catch (on_em op ≫= fun _ => mret 0) (fun _ => mret (-1)).

(** [try { err = em.f(..); } catch (exception &e) { return -1; } return err;] *)
Definition em_err (op : M ExtentMap Z) : M Node Z :=
  catch (err ← on_em op; mret err) (fun _ => mret (-1)).

(** The same with output parameters. *)
Definition em_out {A} (op : M ExtentMap A) : M Node (option A) :=
  catch (a ← on_em op; mret (Some a)) (fun _ => mret None).

(** ** Creating, rolling back and deleting extents *)

Section Create.
Variable cfg : EMConfig.

Definition sn_createStripeColumnExtents (cols : list StripeArgIn) (dbroot part seg : Z) :=
  em_out (createStripeColumnExtents cfg cols dbroot part seg).
Definition sn_createColumnExtent_DBroot (oid colWidth dbroot : Z) (t : ColDataType) (part : Z) :=
  em_out (createColumnExtent_DBroot cfg oid colWidth dbroot t part true).
Definition sn_createColumnExtentExactFile (oid colWidth dbroot part seg : Z) (t : ColDataType) :=
  em_out (createColumnExtentExactFile oid colWidth dbroot part seg t).
Definition sn_createDictStoreExtent (oid dbroot part seg : Z) :=
  em_out (createDictStoreExtent oid dbroot part seg).
End Create.

Definition sn_rollbackColumnExtents_DBroot (oid : Z) (bDeleteAll : bool) (dbroot part seg hwm : Z) : M Node Z :=
  em_code (rollbackColumnExtents_DBroot oid bDeleteAll dbroot part seg hwm).
Definition sn_rollbackDictStoreExtents_DBroot (oid dbroot part : Z) (segNums hwms : list Z) : M Node Z :=
  em_code (rollbackDictStoreExtents_DBroot oid dbroot part segNums hwms).
Definition sn_deleteEmptyColExtents (info : ExtentsInfoMap) : M Node Z := em_code (deleteEmptyColExtents info).
Definition sn_deleteEmptyDictStoreExtents (info : ExtentsInfoMap) : M Node Z := em_code (deleteEmptyDictStoreExtents info).

(** ** High water marks, casual partitioning *)

Definition sn_setLocalHWM (oid part seg hwm : Z) : M Node Z := em_code (EM_setLocalHWM oid part seg hwm true).

(** [if (transID) vbCommit(transID);] the code of [vbCommit] is not looked at. *)
Definition commit_first (transID : Z) : M Node unit :=
  if transID =? 0 then mret tt else vbCommit transID ≫= fun _ => mret tt.

Definition sn_bulkSetHWM (args : list BulkSetHWMArg) (transID : Z) : M Node Z :=
  catch (
    commit_first transID ≫= fun _ =>
    on_em (EM_bulkSetHWM args) ≫= fun _ =>
    mret 0)
    (fun _ => mret (-1)).

(** The loop over [hwmArgs]: only the first call takes the lock.  Whether the
    next call is still the first one. *)
Fixpoint set_hwms (args : list BulkSetHWMArg) (firstCall : bool) : M ExtentMap bool :=
  match args with
  | [] => mret firstCall
  | a :: args' =>
      EM_setLocalHWM (bh_oid a) (bh_partNum a) (bh_segNum a) (bh_hwm a) firstCall ≫= fun _ =>
      set_hwms args' false
  end.

Record CPInfo := mkCPInfo { ci_firstLbid : Z; ci_max : Z; ci_min : Z; ci_seqNum : Z }.
Record CPInfoMerge := mkCPInfoMerge { cm_startLbid : Z; cm_value : CPMaxMinMerge }.

(** [bulkSetCPMap] and [bulkMergeCPMap]: a later entry replaces an earlier one. *)
Definition cp_map (args : list CPInfo) : gmap Z CPMaxMin :=
  foldl (fun m a => <[ci_firstLbid a := mkMaxMin (ci_max a) (ci_min a) (ci_seqNum a)]> m) ∅ args.
Definition merge_map (args : list CPInfoMerge) : gmap Z CPMaxMinMerge :=
  foldl (fun m a => <[cm_startLbid a := cm_value a]> m) ∅ args.

(** The calls on the extent map of [bulkSetHWMAndCP]. *)
Definition set_hwms_and_cp (hwmArgs : list BulkSetHWMArg) (setArgs : list CPInfo)
    (mergeArgs : list CPInfoMerge) : M ExtentMap unit :=
  firstCall ← set_hwms hwmArgs true;
  firstCall ← (match setArgs with
               | [] => mret firstCall
               | _ => setExtentsMaxMin (cp_map setArgs) firstCall ≫= fun _ => mret false
               end);
  match mergeArgs with
  | [] => mret tt
  | _ => mergeExtentsMaxMin (merge_map mergeArgs) firstCall
  end.

Definition sn_bulkSetHWMAndCP (hwmArgs : list BulkSetHWMArg) (setArgs : list CPInfo)
    (mergeArgs : list CPInfoMerge) (transID : Z) : M Node Z :=
  catch (
    commit_first transID ≫= fun _ =>
    on_em (set_hwms_and_cp hwmArgs setArgs mergeArgs) ≫= fun _ =>
    mret 0)
    (fun _ => mret (-1)).

Definition sn_bulkUpdateDBRoot (args : list (Z * Z)) : M Node Z := em_code (EM_bulkUpdateDBRoot args).

Definition sn_markExtentInvalid (lbid : Z) (t : ColDataType) : M Node Z := em_err (markInvalid lbid t).
Definition sn_markExtentsInvalid (lbids : list Z) (ts : list ColDataType) : M Node Z := em_err (markInvalid_list lbids ts).
Definition sn_setExtentMaxMin (lbid max min seqNum : Z) : M Node Z := em_err (setMaxMin lbid max min seqNum).
Definition sn_setExtentsMaxMin (cpMap : gmap Z CPMaxMin) : M Node Z := em_code (setExtentsMaxMin cpMap true).
Definition sn_mergeExtentsMaxMin (cpMap : gmap Z CPMaxMinMerge) : M Node Z := em_code (mergeExtentsMaxMin cpMap true).

(** ** Partitions *)

Definition ERR_INVALID_LAST_PARTITION : Z := 4001.
Definition ERR_INVALID_OP_LAST_PARTITION : Z := 10.
Definition ERR_PARTITION_DISABLED : Z := 11.
Definition ERR_NOT_EXIST_PARTITION : Z := 12.
Definition ERR_PARTITION_ENABLED : Z := 13.
Definition ERR_NO_PARTITION_PERFORMED : Z := 16.

(** The handlers of the partition operations: [codes] maps the error codes of an
    [IDBExcept] to return codes, in order; any other exception is -1. *)
Definition partition_code (codes : list (Z * Z)) (e : exn) : Z :=
  match e with
  | IDBExcept c => match find (fun kv => fst kv =? c) codes with Some kv => snd kv | None => -1 end
  | _ => -1
  end.

Definition em_partition (codes : list (Z * Z)) (op : M ExtentMap unit) : M Node Z :=
  catch (on_em op ≫= fun _ => mret 0) (fun e => mret (partition_code codes e)).

Definition sn_deletePartition (oids : gset Z) (parts : gset LogicalPartition) : M Node Z :=
  em_partition [(ERR_PARTITION_NOT_EXIST, ERR_NOT_EXIST_PARTITION);
                (ERR_INVALID_LAST_PARTITION, ERR_INVALID_OP_LAST_PARTITION);
                (WARN_NO_PARTITION_PERFORMED, ERR_NO_PARTITION_PERFORMED)]
    (EM_deletePartition oids parts).

Definition sn_markPartitionForDeletion (oids : gset Z) (parts : gset LogicalPartition) : M Node Z :=
  em_partition [(ERR_PARTITION_ALREADY_DISABLED, ERR_PARTITION_DISABLED);
                (ERR_PARTITION_NOT_EXIST, ERR_NOT_EXIST_PARTITION);
                (ERR_INVALID_LAST_PARTITION, ERR_INVALID_OP_LAST_PARTITION);
                (WARN_NO_PARTITION_PERFORMED, ERR_NO_PARTITION_PERFORMED)]
    (EM_markPartitionForDeletion oids parts).

Definition sn_markAllPartitionForDeletion (oids : gset Z) : M Node Z :=
  em_partition [(ERR_PARTITION_ALREADY_DISABLED, ERR_PARTITION_DISABLED);
                (ERR_PARTITION_NOT_EXIST, ERR_NOT_EXIST_PARTITION);
                (ERR_INVALID_LAST_PARTITION, ERR_INVALID_OP_LAST_PARTITION)]
    (EM_markAllPartitionForDeletion oids).

Definition sn_restorePartition (oids : gset Z) (parts : gset LogicalPartition) : M Node Z :=
  em_partition [(ERR_PARTITION_NOT_EXIST, ERR_NOT_EXIST_PARTITION);
                (ERR_PARTITION_ALREADY_ENABLED, ERR_PARTITION_ENABLED);
                (ERR_INVALID_LAST_PARTITION, ERR_INVALID_OP_LAST_PARTITION)]
    (EM_restorePartition oids parts).

Definition sn_deleteDBRoot (dbroot : Z) : M Node Z := em_partition [] (EM_deleteDBRoot dbroot).
