(* ===== verification/Wire.v ===== *)
(** * The types of the messages between the client, the controller and the workers

    [LBIDRange], [VBRange], [TableLockInfo], [QueryContext] ([brmtypes.cpp],
    [brmtypes.h]) and [LogicalPartition] ([logicalpartition.h]) write themselves; the
    structs of the bulk calls are sent as they lie in memory. *)

From S2P Require Import Prelude BinFile ByteStream ColType Vbbm Vss Session TableLock EmCp EmCreate EmDelete EmQuery NodeEm.

(** ** Commands ([brmtypes.h]) *)

Definition DELETE_OID : Z := 1.
Definition WRITE_VB_ENTRY : Z := 3.
Definition BEGIN_VB_COPY : Z := 4.
Definition END_VB_COPY : Z := 5.
Definition VB_ROLLBACK1 : Z := 6.
Definition VB_ROLLBACK2 : Z := 7.
Definition VB_COMMIT : Z := 8.
Definition BRM_UNDO : Z := 9.
Definition CONFIRM : Z := 10.
Definition FLUSH_INODE_CACHES : Z := 16.
Definition BRM_CLEAR : Z := 17.
Definition MARKEXTENTINVALID : Z := 18.
Definition MARKMANYEXTENTSINVALID : Z := 19.
Definition SETEXTENTMAXMIN : Z := 21.
Definition DELETE_EMPTY_COL_EXTENTS : Z := 24.
Definition DELETE_EMPTY_DICT_STORE_EXTENTS : Z := 25.
Definition SETMANYEXTENTSMAXMIN : Z := 26.
Definition CREATE_DICT_STORE_EXTENT : Z := 28.
Definition SET_LOCAL_HWM : Z := 29.
Definition DELETE_OIDS : Z := 30.
Definition TAKE_SNAPSHOT : Z := 31.
Definition MERGEMANYEXTENTSMAXMIN : Z := 32.
Definition DELETE_PARTITION : Z := 33.
Definition MARK_PARTITION_FOR_DELETION : Z := 34.
Definition RESTORE_PARTITION : Z := 35.
Definition CREATE_COLUMN_EXTENT_DBROOT : Z := 36.
Definition BULK_SET_HWM : Z := 37.
Definition ROLLBACK_COLUMN_EXTENTS_DBROOT : Z := 38.
Definition ROLLBACK_DICT_STORE_EXTENTS_DBROOT : Z := 39.
Definition BULK_SET_HWM_AND_CP : Z := 40.
Definition MARK_ALL_PARTITION_FOR_DELETION : Z := 41.
Definition CREATE_COLUMN_EXTENT_EXACT_FILE : Z := 42.
Definition DELETE_DBROOT : Z := 43.
Definition CREATE_STRIPE_COLUMN_EXTENTS : Z := 44.
Definition OWNER_CHECK : Z := 77.
Definition DELETE_AI_SEQUENCE : Z := 85.
Definition LOCK_LBID_RANGES : Z := 90.
Definition RELEASE_LBID_RANGES : Z := 91.
Definition BULK_UPDATE_DBROOT : Z := 100.

Definition ERR_FAILURE : Z := 1.
Definition ERR_SLAVE_INCONSISTENCY : Z := 2.
Definition ERR_NETWORK : Z := 3.
Definition ERR_READONLY : Z := 5.

(** ** Values *)

(** The column types in the order of the enumeration.  A value that is none of them
    is in no case of any [switch] and has no property, like the last but two. *)
Definition ctypes : list ColDataType :=
  [BIT; TINYINT; CHAR; SMALLINT; DECIMAL; MEDINT; INT; FLOAT; DATE; BIGINT; DOUBLE; DATETIME; VARCHAR; VARBINARY;
   CLOB; BLOB; UTINYINT; USMALLINT; UDECIMAL; UMEDINT; UINT; UFLOAT; UBIGINT; UDOUBLE; NUM_OF_COL_DATA_TYPE;
   LONGDOUBLE; STRINT].

Definition ctype_code (t : ColDataType) : Z :=
  match t with
  | BIT => 0 | TINYINT => 1 | CHAR => 2 | SMALLINT => 3 | DECIMAL => 4 | MEDINT => 5 | INT => 6 | FLOAT => 7
  | DATE => 8 | BIGINT => 9 | DOUBLE => 10 | DATETIME => 11 | VARCHAR => 12 | VARBINARY => 13 | CLOB => 14
  | BLOB => 15 | UTINYINT => 16 | USMALLINT => 17 | UDECIMAL => 18 | UMEDINT => 19 | UINT => 20 | UFLOAT => 21
  | UBIGINT => 22 | UDOUBLE => 23 | NUM_OF_COL_DATA_TYPE => 24 | LONGDOUBLE => 25 | STRINT => 26
  end.
Definition ctype_of (z : Z) : ColDataType := default NUM_OF_COL_DATA_TYPE (ctypes.[z]).

Definition put_bool (b : bool) : Z := if b then 1 else 0.
Definition get_bool (z : Z) : bool := negb (z =? 0).

(** [LBIDRange::serialize], [LBIDRange::deserialize] *)
Definition RANGE_V2_MAGIC : Z := 0x80000000ffff0000.
Definition put_range (r : LBIDRange) : list Z := put64 RANGE_V2_MAGIC ++ put64 (range_start r) ++ put32 (range_size r).
Definition get_range : Get LBIDRange :=
  tmp ← get64;
  if tmp =? RANGE_V2_MAGIC then
    start ← get64;
    size ← get32;
    mret (mkRange (i64 start) size)
  else mret (mkRange (Z.land tmp 0xffffffff) (Z.shiftr (Z.land tmp 0xffffffff00000000) 32)).

(** [VBRange::serialize], [VBRange::deserialize] *)
Definition put_vbrange (r : VBRange) : list Z := put32 (r_vbOID r) ++ put32 (r_vbFBO r) ++ put32 (r_size r).
Definition get_vbrange : Get VBRange :=
  oid ← get32;
  fbo ← get32;
  size ← get32;
  mret (mkVBRange (i32 oid) fbo size).

(** [LogicalPartition::serialize], [LogicalPartition::unserialize] *)
Definition put_partition (p : LogicalPartition) : list Z :=
  let '(dbroot, pp, seg) := p in put16 dbroot ++ put32 pp ++ put16 seg.
Definition get_partition : Get LogicalPartition :=
  dbroot ← get16;
  pp ← get32;
  seg ← get16;
  mret (dbroot, pp, seg).

(** ** Structs in memory *)

(** [CreateStripeColumnExtentsArgIn] *)
Definition stripein_bytes (a : StripeArgIn) : list Z :=
  le_bytes 4 (st_oid a) ++ le_bytes 4 (st_width a) ++ le_bytes 4 (ctype_code (st_type a)).
Definition stripein_of (bs : list Z) : StripeArgIn :=
  mkStripeIn (get_s (field 0 4 bs)) (get_u (field 4 4 bs)) (ctype_of (get_u (field 8 4 bs))).

(** [CreateStripeColumnExtentsArgOut] *)
Definition stripeout_bytes (a : StripeArgOut) : list Z :=
  le_bytes 8 (st_startLbid a) ++ le_bytes 4 (st_allocSize a) ++ le_bytes 4 (st_startBlkOffset a).
Definition stripeout_of (bs : list Z) : StripeArgOut :=
  mkStripeOut (get_s (field 0 8 bs)) (get_s (field 8 4 bs)) (get_u (field 12 4 bs)).

(** [BulkSetHWMArg] *)
Definition hwmarg_bytes (a : BulkSetHWMArg) : list Z :=
  le_bytes 4 (bh_oid a) ++ le_bytes 4 (bh_partNum a) ++ le_bytes 2 (bh_segNum a) ++ le_bytes 2 0 ++ le_bytes 4 (bh_hwm a).
Definition hwmarg_of (bs : list Z) : BulkSetHWMArg :=
  mkBulkHWM (get_s (field 0 4 bs)) (get_u (field 4 4 bs)) (get_u (field 8 2 bs)) (get_u (field 12 4 bs)).

(** [CPInfo] *)
Definition cpinfo_bytes (a : CPInfo) : list Z :=
  le_bytes 8 (ci_firstLbid a) ++ le_bytes 8 (ci_max a) ++ le_bytes 8 (ci_min a) ++ le_bytes 4 (ci_seqNum a) ++ le_bytes 4 0.
Definition cpinfo_of (bs : list Z) : CPInfo :=
  mkCPInfo (get_s (field 0 8 bs)) (get_s (field 8 8 bs)) (get_s (field 16 8 bs)) (get_s (field 24 4 bs)).

(** [CPInfoMerge]; its sequence number is sent and not used. *)
Record CPInfoMergeMsg := mkMergeMsg { im_seqNum : Z; im_info : CPInfoMerge }.

Definition cpmerge_bytes (m : CPInfoMergeMsg) : list Z :=
  let a := im_info m in
  le_bytes 8 (cm_startLbid a) ++ le_bytes 8 (mg_max (cm_value a)) ++ le_bytes 8 (mg_min (cm_value a)) ++
  le_bytes 4 (im_seqNum m) ++ le_bytes 4 (ctype_code (mg_type (cm_value a))) ++
  le_bytes 1 (put_bool (mg_newExtent (cm_value a))) ++ le_bytes 7 0.
Definition cpmerge_of (bs : list Z) : CPInfoMergeMsg :=
  mkMergeMsg (get_s (field 24 4 bs))
    (mkCPInfoMerge (get_s (field 0 8 bs))
       (mkMerge (get_s (field 8 8 bs)) (get_s (field 16 8 bs)) (ctype_of (get_u (field 28 4 bs)))
          (get_bool (get_u (field 32 1 bs))))).

(** [BulkUpdateDBRootArg] *)
Definition dbrootarg_bytes (a : Z * Z) : list Z := le_bytes 8 a.1 ++ le_bytes 2 a.2 ++ le_bytes 6 0.
Definition dbrootarg_of (bs : list Z) : Z * Z := (get_s (field 0 8 bs), get_u (field 8 2 bs)).

(** ** Laws *)

(** Values of the C types. *)
Definition is_u (w x : Z) : Prop := 0 ≤ x < 2 ^ w.
Definition is_s (w x : Z) : Prop := - 2 ^ (w - 1) ≤ x < 2 ^ (w - 1).

Lemma ctype_law t : ctype_of (ctype_code t) = t.
Proof. by destruct t. Qed.

Lemma ctype_range t : 0 ≤ ctype_code t < 27.
Proof. destruct t; cbn; lia. Qed.

Lemma bool_law b : get_bool (put_bool b) = b.
Proof. by destruct b. Qed.

(** Run a reader on what was written. *)
Ltac read_back :=
  repeat (rewrite <- app_assoc);
  repeat first
    [ rewrite (get_bind get8 _ _ _ _ (get8_put _ _))
    | rewrite (get_bind get16 _ _ _ _ (get16_put _ _))
    | rewrite (get_bind get32 _ _ _ _ (get32_put _ _))
    | rewrite (get_bind get64 _ _ _ _ (get64_put _ _)) ].

Lemma fits_of_u (n : nat) x : is_u (8 * Z.of_nat n) x → fits_u n x = true.
Proof. intros Hx. unfold fits_u. apply andb_true_iff. rewrite Z.leb_le, Z.ltb_lt. exact Hx. Qed.

Lemma fits_of_s (n : nat) x : is_s (8 * Z.of_nat n) x → fits_s n x = true.
Proof. intros Hx. unfold fits_s. apply andb_true_iff. rewrite Z.leb_le, Z.ltb_lt. exact Hx. Qed.

Definition range_fits (r : LBIDRange) : Prop := is_s 64 (range_start r) ∧ is_u 32 (range_size r).
Definition vbrange_fits (r : VBRange) : Prop := is_s 32 (r_vbOID r) ∧ is_u 32 (r_vbFBO r) ∧ is_u 32 (r_size r).
Definition partition_fits (p : LogicalPartition) : Prop := is_u 16 p.1.1 ∧ is_u 32 p.1.2 ∧ is_u 16 p.2.

Lemma length_puts n x l : length (le_bytes n x ++ l) = (n + length l)%nat.
Proof. by rewrite length_app, length_le_bytes. Qed.

Program Definition range_codec : codec LBIDRange := mkCodec put_range get_range range_fits _ _.
Next Obligation.
  intros [start size] tl [H1 H2]. cbn in H1, H2. unfold get_range, put_range. read_back.
  rewrite (u_of_u 64 RANGE_V2_MAGIC) by done. rewrite Z.eqb_refl. cbn [range_start range_size]. read_back.
  rewrite s_of_u by done. rewrite u_of_u by done. done.
Qed.
Next Obligation. intros [start size]. unfold put_range, put64. rewrite length_puts. lia. Qed.

Program Definition vbrange_codec : codec VBRange := mkCodec put_vbrange get_vbrange vbrange_fits _ _.
Next Obligation.
  intros [oid fbo size] tl (H1 & H2 & H3). cbn in H1, H2, H3. unfold get_vbrange, put_vbrange. cbn [r_vbOID r_vbFBO r_size]. read_back.
  rewrite s_of_u by done. rewrite !u_of_u by done. done.
Qed.
Next Obligation. intros [oid fbo size]. unfold put_vbrange, put32. rewrite length_puts. lia. Qed.

Program Definition partition_codec : codec LogicalPartition := mkCodec put_partition get_partition partition_fits _ _.
Next Obligation.
  intros [[d p] s] tl (H1 & H2 & H3). cbn in H1, H2, H3. unfold get_partition, put_partition. read_back. by rewrite !u_of_u by done.
Qed.
Next Obligation. intros [[d p] s]. unfold put_partition, put16. rewrite length_puts. lia. Qed.

Program Definition u16_codec : codec Z := mkCodec put16 get16 (is_u 16) _ _.
Next Obligation. intros x tl Hx. by rewrite get16_put, u_of_u. Qed.
Next Obligation. intros x. unfold put16. rewrite length_le_bytes. lia. Qed.

Program Definition u32_codec : codec Z := mkCodec put32 get32 (is_u 32) _ _.
Next Obligation. intros x tl Hx. by rewrite get32_put, u_of_u. Qed.
Next Obligation. intros x. unfold put32. rewrite length_le_bytes. lia. Qed.

(** A signed 32-bit number, sent as [quadbyte]. *)
Definition get_oid : Get Z := q ← get32; mret (i32 q).
Program Definition oid_codec : codec Z := mkCodec put32 get_oid (is_s 32) _ _.
Next Obligation. intros x tl Hx. unfold get_oid. rewrite (get_bind _ _ _ _ _ (get32_put _ _)). by rewrite s_of_u. Qed.
Next Obligation. intros x. unfold put32. rewrite length_le_bytes. lia. Qed.

Definition stripein_fits (a : StripeArgIn) : Prop := is_s 32 (st_oid a) ∧ is_u 32 (st_width a).
Definition stripeout_fits (a : StripeArgOut) : Prop :=
  is_s 64 (st_startLbid a) ∧ is_s 32 (st_allocSize a) ∧ is_u 32 (st_startBlkOffset a).
Definition hwmarg_fits (a : BulkSetHWMArg) : Prop :=
  is_s 32 (bh_oid a) ∧ is_u 32 (bh_partNum a) ∧ is_u 16 (bh_segNum a) ∧ is_u 32 (bh_hwm a).
Definition cpinfo_fits (a : CPInfo) : Prop :=
  is_s 64 (ci_firstLbid a) ∧ is_s 64 (ci_max a) ∧ is_s 64 (ci_min a) ∧ is_s 32 (ci_seqNum a).
Definition cpmerge_fits (m : CPInfoMergeMsg) : Prop :=
  is_s 32 (im_seqNum m) ∧ is_s 64 (cm_startLbid (im_info m)) ∧ is_s 64 (mg_max (cm_value (im_info m))) ∧
  is_s 64 (mg_min (cm_value (im_info m))).
Definition dbrootarg_fits (a : Z * Z) : Prop := is_s 64 a.1 ∧ is_u 16 a.2.

(** One field after the other. *)
Ltac field_back :=
  repeat first
    [ rewrite field_app by (rewrite ?length_le_bytes; cbn; lia)
    | rewrite length_le_bytes; cbn [Nat.sub]
    | rewrite field_0 by apply length_le_bytes
    | rewrite field_all by apply length_le_bytes ].

Ltac value_back :=
  first [ apply get_s_bytes; [lia|by apply fits_of_s] | apply get_u_bytes; by apply fits_of_u ].

Lemma get_ctype t : ctype_of (get_u (le_bytes 4 (ctype_code t))) = t.
Proof. rewrite get_u_bytes; [apply ctype_law|]. apply fits_of_u. pose proof (ctype_range t). unfold is_u. lia. Qed.

Lemma stripein_law a : stripein_fits a → length (stripein_bytes a) = 12%nat ∧ stripein_of (stripein_bytes a) = a.
Proof.
  destruct a as [oid w t]. intros [H1 H2]. split; [unfold stripein_bytes; by rewrite !length_puts, length_le_bytes|].
  unfold stripein_of, stripein_bytes. cbn [st_oid st_width st_type]. f_equal; field_back; [value_back|value_back|apply get_ctype].
Qed.

Lemma stripeout_law a : stripeout_fits a → length (stripeout_bytes a) = 16%nat ∧ stripeout_of (stripeout_bytes a) = a.
Proof.
  destruct a as [l n o]. intros (H1 & H2 & H3). split; [unfold stripeout_bytes; by rewrite !length_puts, length_le_bytes|].
  unfold stripeout_of, stripeout_bytes. cbn [st_startLbid st_allocSize st_startBlkOffset]. f_equal; field_back; value_back.
Qed.

Lemma hwmarg_law a : hwmarg_fits a → length (hwmarg_bytes a) = 16%nat ∧ hwmarg_of (hwmarg_bytes a) = a.
Proof.
  destruct a as [o p s h]. intros (H1 & H2 & H3 & H4). split; [unfold hwmarg_bytes; by rewrite !length_puts, length_le_bytes|].
  unfold hwmarg_of, hwmarg_bytes. cbn [bh_oid bh_partNum bh_segNum bh_hwm]. f_equal; field_back; value_back.
Qed.

Lemma cpinfo_law a : cpinfo_fits a → length (cpinfo_bytes a) = 32%nat ∧ cpinfo_of (cpinfo_bytes a) = a.
Proof.
  destruct a as [l x n s]. intros (H1 & H2 & H3 & H4). split; [unfold cpinfo_bytes; by rewrite !length_puts, length_le_bytes|].
  unfold cpinfo_of, cpinfo_bytes. cbn [ci_firstLbid ci_max ci_min ci_seqNum]. f_equal; field_back; value_back.
Qed.

Lemma cpmerge_law a : cpmerge_fits a → length (cpmerge_bytes a) = 40%nat ∧ cpmerge_of (cpmerge_bytes a) = a.
Proof.
  destruct a as [s [l [x n t b]]]. intros (H1 & H2 & H3 & H4). split; [unfold cpmerge_bytes; by rewrite !length_puts, length_le_bytes|].
  unfold cpmerge_of, cpmerge_bytes. cbn [im_seqNum im_info cm_startLbid cm_value mg_max mg_min mg_type mg_newExtent].
  f_equal; [field_back; value_back|]. f_equal; [field_back; value_back|].
  f_equal; field_back; [value_back|value_back|apply get_ctype|]. by destruct b.
Qed.

Lemma dbrootarg_law a : dbrootarg_fits a → length (dbrootarg_bytes a) = 16%nat ∧ dbrootarg_of (dbrootarg_bytes a) = a.
Proof.
  destruct a as [l d]. intros (H1 & H2). split; [unfold dbrootarg_bytes; by rewrite !length_puts, length_le_bytes|].
  unfold dbrootarg_of, dbrootarg_bytes. cbn [fst snd]. f_equal; field_back; value_back.
Qed.

(** * The messages for the controller's own servers *)


(** ** Commands *)

Definition HALT : Z := 11.
Definition RESUME : Z := 12.
Definition RELOAD : Z := 13.
Definition SETREADONLY : Z := 14.
Definition SETREADWRITE : Z := 15.
Definition GETREADONLY : Z := 20.
Definition VER_ID : Z := 45.
Definition NEW_TXN_ID : Z := 46.
Definition COMMITTED : Z := 47.
Definition ROLLED_BACK : Z := 48.
Definition GET_TXN_ID : Z := 49.
Definition SID_TID_MAP : Z := 50.
Definition SM_RESET : Z := 51.
Definition GET_UNIQUE_UINT32 : Z := 52.
Definition SYSCAT_VER_ID : Z := 53.
Definition GET_SYSTEM_STATE : Z := 54.
Definition SET_SYSTEM_STATE : Z := 55.
Definition GET_UNIQUE_UINT64 : Z := 56.
Definition CLEAR_SYSTEM_STATE : Z := 57.
Definition ALLOC_OIDS : Z := 60.
Definition RETURN_OIDS : Z := 61.
Definition OIDM_SIZE : Z := 62.
Definition ALLOC_VBOID : Z := 63.
Definition GETDBROOTOFVBOID : Z := 64.
Definition GETVBOIDTODBROOTMAP : Z := 65.
Definition GET_TABLE_LOCK : Z := 70.
Definition RELEASE_TABLE_LOCK : Z := 71.
Definition CHANGE_TABLE_LOCK_STATE : Z := 72.
Definition CHANGE_TABLE_LOCK_OWNER : Z := 73.
Definition GET_ALL_TABLE_LOCKS : Z := 74.
Definition RELEASE_ALL_TABLE_LOCKS : Z := 75.
Definition GET_TABLE_LOCK_INFO : Z := 76.
Definition START_AI_SEQUENCE : Z := 80.
Definition GET_AI_RANGE : Z := 81.
Definition RESET_AI_SEQUENCE : Z := 82.
Definition GET_AI_LOCK : Z := 83.
Definition RELEASE_AI_LOCK : Z := 84.

(** ** Values *)

(** [QueryContext]: [currentScn] and [*currentTxns]. *)
Abbreviation QueryContext := (Z * list Z)%type.

(** [QueryContext::serialize], [QueryContext::deserialize] *)
Definition put_context (c : QueryContext) : list Z := put32 c.1 ++ put_inline (le_bytes 4) c.2.
Definition get_context : Get QueryContext :=
  scn ← get32;
  txns ← get_inline 4 get_s;
  mret (i32 scn, txns).

(** [TableLockInfo::serialize(ByteStream &)],
    [TableLockInfo::deserialize(ByteStream &)]: the state is a byte here. *)
Definition put_tli (t : TableLockInfo) : list Z :=
  put64 (tli_id t) ++ put32 (tableOID t) ++ put_string (ownerName t) ++ put32 (ownerPID t) ++
  put32 (ownerSessionID t) ++ put32 (ownerTxnID t) ++ put8 (tli_state t) ++ put64 (creationTime t) ++
  put_inline (le_bytes 4) (dbrootList t).
Definition get_tli : Get TableLockInfo :=
  id ← get64;
  oid ← get32;
  name ← get_string;
  pid ← get32;
  session ← get32;
  txn ← get32;
  state ← get8;
  time ← get64;
  roots ← get_inline 4 get_u;
  mret (mkTLI id oid name pid (i32 session) (i32 txn) state (i64 time) roots).

(** ** Laws *)

(** A string the stream can hold. *)
Definition is_string (s : list Z) : Prop := zlength s < 2 ^ 31 - 4.

Definition context_fits (c : QueryContext) : Prop := is_s 32 c.1 ∧ Forall (is_s 32) c.2 ∧ zlength c.2 < 2 ^ 64.
Definition lock_fits (t : TableLockInfo) : Prop :=
  is_u 64 (tli_id t) ∧ is_u 32 (tableOID t) ∧ is_string (ownerName t) ∧ is_u 32 (ownerPID t) ∧
  is_s 32 (ownerSessionID t) ∧ is_s 32 (ownerTxnID t) ∧ is_u 8 (tli_state t) ∧ is_s 64 (creationTime t) ∧
  Forall (is_u 32) (dbrootList t) ∧ zlength (dbrootList t) < 2 ^ 64.

Lemma words_s_law l tl :
  Forall (is_s 32) l → zlength l < 2 ^ 64 → get_inline 4 get_s (put_inline (le_bytes 4) l ++ tl) = (Ret l, tl).
Proof.
  intros Hl Hn. apply get_inline_put; [lia| |done]. intros x Hx. rewrite Forall_forall in Hl.
  split; [apply length_le_bytes|]. apply get_s_bytes; [lia|]. by apply fits_of_s, Hl.
Qed.

Lemma words_u_law (n : nat) l tl :
  (0 < n)%nat → Forall (is_u (8 * Z.of_nat n)) l → zlength l < 2 ^ 64 →
  get_inline n get_u (put_inline (le_bytes n) l ++ tl) = (Ret l, tl).
Proof.
  intros Hp Hl Hn. apply get_inline_put; [done| |done]. intros x Hx. rewrite Forall_forall in Hl.
  split; [apply length_le_bytes|]. apply get_u_bytes. by apply fits_of_u, Hl.
Qed.

Lemma context_law c tl : context_fits c → get_context (put_context c ++ tl) = (Ret c, tl).
Proof.
  destruct c as [scn txns]. intros (H1 & H2 & H3). cbn [fst snd] in *. unfold get_context, put_context. cbn [fst snd]. read_back.
  rewrite (get_bind _ _ _ _ _ (words_s_law txns tl H2 H3)). by rewrite s_of_u.
Qed.

Program Definition tli_codec : codec TableLockInfo := mkCodec put_tli get_tli lock_fits _ _.
Next Obligation.
  intros [id oid name pid ses txn st time roots] tl (H1 & H2 & H3 & H4 & H5 & H6 & H7 & H8 & H9 & H10).
  cbn in H1, H2, H3, H4, H5, H6, H7, H8, H9, H10. unfold get_tli, put_tli.
  cbn [tli_id tableOID ownerName ownerPID ownerSessionID ownerTxnID tli_state creationTime dbrootList].
  read_back. rewrite (get_bind _ _ _ _ _ (get_string_put name _ H3)). read_back.
  rewrite (get_bind _ _ _ _ _ (words_u_law 4 roots tl ltac:(lia) H9 H10)).
  rewrite !s_of_u by done. by rewrite !u_of_u by done.
Qed.
Next Obligation. intros t. unfold put_tli, put64. rewrite length_puts. lia. Qed.
