(* ===== verification/SlaveComm.v ===== *)
(** * The worker process ([slavecomm.cpp])

    A worker reads commands from the controller, carries them out on its node and
    replies.  The first worker also keeps what a restart needs: a journal of the
    commands that were confirmed, and a snapshot of the node from time to time.

    Each [do_] function reads the rest of the message, calls the node, and returns
    the reply with what is to be saved when the command is confirmed. *)

From S2P Require Import Prelude BinFile ByteStream Undo Table Vbbm Vss CopyLocks SlaveNode ColType ExtentMap EmCp EmCreate EmDelete EmQuery EmFile NodeEm Wire.

(** What [takeSnapshot] and [doSaveDelta] are set to. *)
Inductive save := SaveDelta | Snapshot.

(** What a worker does not decide itself: the configuration of the extent map and of
    the version buffer; what other processes do to the copy locks while a call
    waits; the order in which the elements of an [unordered_map] with the given
    insertions are visited; the texts of the error messages; a local variable before
    its first assignment. *)
Record World := mkWorld {
  cfg : EMConfig;
  vbcfg : option Z;
  env : nat → Node → Node;
  iter : ∀ {A : Type}, list (Z * A) → list (Z * A);
  emsg : list Z → Node → Z → list Z;
  uninit : Z;
}.

Section Worker.
Variable W : World.

(** Reading the arguments of a command. *)
Definition args {A} (get : Get A) (msg : list Z) : M Node A := lift (get msg).1.

(** [reply << (uint8_t) err;] *)
Definition code_reply (save : save) (op : M Node Z) : M Node (list Z * SlaveComm.save) :=
  err ← op; mret (put8 err, save).

(** ** Creating extents *)

Definition get_stripe : Get (list StripeArgIn * Z * Z) :=
  cols ← get_inline 12 stripein_of;
  dbRoot ← get16;
  tmp32 ← get16;
  mret (cols, dbRoot, tmp32).

(** [SlaveComm::do_createStripeColumnExtents] *)
Definition do_createStripeColumnExtents (msg : list Z) : M Node (list Z * save) :=
  '(cols, dbRoot, partitionNum) ← args get_stripe msg;
  out ← sn_createStripeColumnExtents (cfg W) cols dbRoot partitionNum (uninit W);
  let reply :=
    match out with
    | Some (part, seg, extents) => put8 0 ++ put32 part ++ put16 seg ++ put_inline stripeout_bytes extents
    | None => put8 (-1)
    end in
  mret (reply, match cols with c :: _ => if st_oid c <? 3000 then Snapshot else SaveDelta | [] => SaveDelta end).

Definition get_column : Get (Z * Z * Z * Z * Z * ColDataType) :=
  oid ← get32;
  colWidth ← get32;
  dbRoot ← get16;
  partitionNum ← get32;
  segmentNum ← get16;
  tmp8 ← get8;
  mret (i32 oid, colWidth, dbRoot, partitionNum, segmentNum, ctype_of tmp8).

Definition extent_reply (part seg lbid allocdSize startBlockOffset : Z) : list Z :=
  put8 0 ++ put32 part ++ put16 seg ++ put64 lbid ++ put32 allocdSize ++ put32 startBlockOffset.

(** [SlaveComm::do_createColumnExtent_DBroot] *)
Definition do_createColumnExtent_DBroot (msg : list Z) : M Node (list Z * save) :=
  '(oid, colWidth, dbRoot, partitionNum, segmentNum, t) ← args get_column msg;
  out ← sn_createColumnExtent_DBroot (cfg W) oid colWidth dbRoot t partitionNum;
  let reply :=
    match out with
    | Some (lbid, n, pl) => extent_reply (pl_part pl) (pl_seg pl) lbid n (pl_offset pl)
    | None => put8 (-1)
    end in
  mret (reply, if oid <? 3000 then Snapshot else SaveDelta).

(** [SlaveComm::do_createColumnExtentExactFile] *)
Definition do_createColumnExtentExactFile (msg : list Z) : M Node (list Z * save) :=
  '(oid, colWidth, dbRoot, partitionNum, segmentNum, t) ← args get_column msg;
  out ← sn_createColumnExtentExactFile oid colWidth dbRoot partitionNum segmentNum t;
  let reply :=
    match out with
    | Some (lbid, n, off) => extent_reply partitionNum segmentNum lbid n off
    | None => put8 (-1)
    end in
  mret (reply, if oid <? 3000 then Snapshot else SaveDelta).

Definition get_dict : Get (Z * Z * Z * Z) :=
  oid ← get32;
  dbRoot ← get16;
  partitionNum ← get32;
  segmentNum ← get16;
  mret (i32 oid, dbRoot, partitionNum, segmentNum).

(** [SlaveComm::do_createDictStoreExtent] *)
Definition do_createDictStoreExtent (msg : list Z) : M Node (list Z * save) :=
  '(oid, dbRoot, partitionNum, segmentNum) ← args get_dict msg;
  out ← sn_createDictStoreExtent oid dbRoot partitionNum segmentNum;
  let reply := match out with Some (lbid, n) => put8 0 ++ put64 lbid ++ put32 n | None => put8 (-1) end in
  mret (reply, SaveDelta).

(** ** Rolling back and deleting extents *)

Definition get_rollback : Get (Z * bool * Z * Z * Z * Z) :=
  oid ← get32;
  tmp8 ← get8;
  dbRoot ← get16;
  partitionNum ← get32;
  segmentNum ← get16;
  hwm ← get32;
  mret (i32 oid, get_bool tmp8, dbRoot, partitionNum, segmentNum, hwm).

(** [SlaveComm::do_rollbackColumnExtents_DBroot] *)
Definition do_rollbackColumnExtents_DBroot (msg : list Z) : M Node (list Z * save) :=
  '(oid, bDeleteAll, dbRoot, partitionNum, segmentNum, hwm) ← args get_rollback msg;
  code_reply SaveDelta (sn_rollbackColumnExtents_DBroot oid bDeleteAll dbRoot partitionNum segmentNum hwm).

Definition get_rollback_dict : Get (Z * Z * Z * list Z * list Z) :=
  oid ← get32;
  dbRoot ← get16;
  partitionNum ← get32;
  segNums ← get_vector get16;
  hwms ← get_vector get32;
  mret (i32 oid, dbRoot, partitionNum, segNums, hwms).

(** [SlaveComm::do_rollbackDictStoreExtents_DBroot] *)
Definition do_rollbackDictStoreExtents_DBroot (msg : list Z) : M Node (list Z * save) :=
  '(oid, dbRoot, partitionNum, segNums, hwms) ← args get_rollback_dict msg;
  code_reply SaveDelta (sn_rollbackDictStoreExtents_DBroot oid dbRoot partitionNum segNums hwms).

(** [extentsInfoMap[oid].partitionNum = ..]: a later element replaces an earlier one
    with the same key. *)
Fixpoint insertions {A} (l : list (Z * A)) (acc : list (Z * A)) : list (Z * A) :=
  match l with
  | [] => acc
  | (k, x) :: l' =>
      insertions l' (if existsb (fun kv => kv.1 =? k) acc
                     then (fun kv => if kv.1 =? k then (k, x) else kv) <$> acc
                     else acc ++ [(k, x)])
  end.

(** The elements of the map; [newFile] is not sent for columns, and [operator[]] has
    made it false. *)
Definition get_info (dict : bool) : Get (Z * ExtentInfo) :=
  oid ← get32;
  partitionNum ← get32;
  segmentNum ← get16;
  dbRoot ← get16;
  hwm ← get32;
  newFile ← (if dict then (b ← get8; mret (get_bool b)) else mret false);
  mret (i32 oid, mkExtentInfo partitionNum segmentNum dbRoot hwm newFile).

Definition get_infos (dict : bool) : Get ExtentsInfoMap :=
  size ← get32;
  l ← get_count size (get_info dict);
  mret (iter W (insertions l [])).

(** [SlaveComm::do_deleteEmptyColExtents], [SlaveComm::do_deleteEmptyDictStoreExtents] *)
Definition do_deleteEmptyColExtents (msg : list Z) : M Node (list Z * save) :=
  info ← args (get_infos false) msg;
  code_reply SaveDelta (sn_deleteEmptyColExtents info).
Definition do_deleteEmptyDictStoreExtents (msg : list Z) : M Node (list Z * save) :=
  info ← args (get_infos true) msg;
  code_reply SaveDelta (sn_deleteEmptyDictStoreExtents info).

(** [SlaveComm::do_deleteOID] *)
Definition do_deleteOID (msg : list Z) : M Node (list Z * save) :=
  oid ← args get_oid msg;
  code_reply SaveDelta (deleteOID oid).

(** [SlaveComm::do_deleteOIDs] *)
Definition get_oids : Get (list Z) := size ← get32; get_count size get_oid.
Definition do_deleteOIDs (msg : list Z) : M Node (list Z * save) :=
  oids ← args get_oids msg;
  code_reply SaveDelta (deleteOIDs (fst <$> iter W (insertions ((fun o => (o, tt)) <$> oids) []))).

(** ** High water marks and value ranges *)

Definition get_hwm : Get (Z * Z * Z * Z) :=
  oid ← get32;
  partitionNum ← get32;
  segmentNum ← get16;
  hwm ← get32;
  mret (i32 oid, partitionNum, segmentNum, hwm).

(** [SlaveComm::do_setLocalHWM] *)
Definition do_setLocalHWM (msg : list Z) : M Node (list Z * save) :=
  '(oid, partitionNum, segmentNum, hwm) ← args get_hwm msg;
  code_reply SaveDelta (sn_setLocalHWM oid partitionNum segmentNum hwm).

Definition get_hwms : Get (list BulkSetHWMArg * Z) :=
  l ← get_inline 16 hwmarg_of;
  transID ← get32;
  mret (l, i32 transID).

(** [SlaveComm::do_bulkSetHWM] *)
Definition do_bulkSetHWM (msg : list Z) : M Node (list Z * save) :=
  '(l, transID) ← args get_hwms msg;
  code_reply SaveDelta (sn_bulkSetHWM l transID).

Definition get_hwms_cp : Get (list BulkSetHWMArg * list CPInfo * list CPInfoMergeMsg * Z) :=
  hwmArgs ← get_inline 16 hwmarg_of;
  setCPDataArgs ← get_inline 32 cpinfo_of;
  mergeCPDataArgs ← get_inline 40 cpmerge_of;
  transID ← get32;
  mret (hwmArgs, setCPDataArgs, mergeCPDataArgs, i32 transID).

(** [SlaveComm::do_bulkSetHWMAndCP] *)
Definition do_bulkSetHWMAndCP (msg : list Z) : M Node (list Z * save) :=
  '(hwmArgs, setArgs, mergeArgs, transID) ← args get_hwms_cp msg;
  code_reply SaveDelta (sn_bulkSetHWMAndCP hwmArgs setArgs (im_info <$> mergeArgs) transID).

(** [SlaveComm::do_bulkUpdateDBRoot] *)
Definition do_bulkUpdateDBRoot (msg : list Z) : M Node (list Z * save) :=
  l ← args (get_inline 16 dbrootarg_of) msg;
  code_reply SaveDelta (sn_bulkUpdateDBRoot l).

(** [msg >> lbid] into an [LBID_t] and [msg >> colDataType] *)
Definition get_invalid : Get (Z * ColDataType) :=
  lbid ← get64;
  t ← get32;
  mret (i64 lbid, ctype_of t).

(** [SlaveComm::do_markInvalid], [SlaveComm::do_markManyExtentsInvalid] *)
Definition do_markInvalid (msg : list Z) : M Node (list Z * save) :=
  '(lbid, t) ← args get_invalid msg;
  code_reply SaveDelta (sn_markExtentInvalid lbid t).
Definition do_markManyExtentsInvalid (msg : list Z) : M Node (list Z * save) :=
  l ← args (size ← get32; get_count size get_invalid) msg;
  code_reply SaveDelta (sn_markExtentsInvalid (fst <$> l) (snd <$> l)).

Definition get_maxmin : Get CPInfo :=
  lbid ← get64;
  max ← get64;
  min ← get64;
  sequence ← get32;
  mret (mkCPInfo (i64 lbid) (i64 max) (i64 min) (i32 sequence)).

(** [SlaveComm::do_setExtentMaxMin], [SlaveComm::do_setExtentsMaxMin] *)
Definition do_setExtentMaxMin (msg : list Z) : M Node (list Z * save) :=
  a ← args get_maxmin msg;
  code_reply SaveDelta (sn_setExtentMaxMin (ci_firstLbid a) (ci_max a) (ci_min a) (ci_seqNum a)).
Definition do_setExtentsMaxMin (msg : list Z) : M Node (list Z * save) :=
  l ← args (updateCount ← get32; get_count (i32 updateCount) get_maxmin) msg;
  code_reply SaveDelta (sn_setExtentsMaxMin (cp_map l)).

Definition get_merge : Get CPInfoMerge :=
  startLbid ← get64;
  max ← get64;
  min ← get64;
  seqNum ← get32;
  type ← get32;
  newExtent ← get32;
  mret (mkCPInfoMerge (i64 startLbid) (mkMerge (i64 max) (i64 min) (ctype_of type) (get_bool newExtent))).

(** [SlaveComm::do_mergeExtentsMaxMin] *)
Definition do_mergeExtentsMaxMin (msg : list Z) : M Node (list Z * save) :=
  l ← args (mergeCount ← get32; get_count (i32 mergeCount) get_merge) msg;
  code_reply SaveDelta (sn_mergeExtentsMaxMin (merge_map l)).

(** ** Partitions *)

Definition get_partitions : Get (list LogicalPartition * list Z) :=
  partitionNums ← get_vector get_partition;
  oids ← get_oids;
  mret (partitionNums, oids).

(** [reply << (uint8_t) err; if (err != 0) reply << emsg;] *)
Definition partition_reply (msg : list Z) (op : M Node Z) : M Node (list Z * save) :=
  n ← gets id;
  err ← op;
  mret (put8 err ++ (if err =? 0 then [] else put_string (emsg W msg n err)), SaveDelta).

(** [SlaveComm::do_deletePartition], [SlaveComm::do_markPartitionForDeletion],
    [SlaveComm::do_restorePartition] *)
Definition do_deletePartition (msg : list Z) : M Node (list Z * save) :=
  '(parts, oids) ← args get_partitions msg;
  partition_reply msg (sn_deletePartition (list_to_set oids) (list_to_set parts)).
Definition do_markPartitionForDeletion (msg : list Z) : M Node (list Z * save) :=
  '(parts, oids) ← args get_partitions msg;
  partition_reply msg (sn_markPartitionForDeletion (list_to_set oids) (list_to_set parts)).
Definition do_restorePartition (msg : list Z) : M Node (list Z * save) :=
  '(parts, oids) ← args get_partitions msg;
  partition_reply msg (sn_restorePartition (list_to_set oids) (list_to_set parts)).

(** [SlaveComm::do_markAllPartitionForDeletion] *)
Definition do_markAllPartitionForDeletion (msg : list Z) : M Node (list Z * save) :=
  oids ← args get_oids msg;
  code_reply SaveDelta (sn_markAllPartitionForDeletion (list_to_set oids)).

(** [SlaveComm::do_deleteDBRoot] *)
Definition do_deleteDBRoot (msg : list Z) : M Node (list Z * save) :=
  q ← args get32 msg;
  code_reply SaveDelta (sn_deleteDBRoot (u16 q)).

(** ** Versions *)

Definition get_write : Get (Z * Z * Z * Z) :=
  transID ← get32;
  lbid ← get64;
  vbOID ← get32;
  vbFBO ← get32;
  mret (i32 transID, i64 lbid, i32 vbOID, vbFBO).

(** [SlaveComm::do_writeVBEntry] *)
Definition do_writeVBEntry (msg : list Z) : M Node (list Z * save) :=
  '(transID, lbid, vbOID, vbFBO) ← args get_write msg;
  code_reply SaveDelta (writeVBEntry transID lbid vbOID vbFBO).

Definition get_begin : Get (Z * Z * list LBIDRange) :=
  transID ← get32;
  dbRoot ← get16;
  ranges ← get_vector get_range;
  mret (i32 transID, dbRoot, ranges).

(** [SlaveComm::do_beginVBCopy] *)
Definition do_beginVBCopy (msg : list Z) : M Node (list Z * save) :=
  '(transID, dbRoot, ranges) ← args get_begin msg;
  '(err, freeList, _) ← beginVBCopy (env W) (vbcfg W) transID dbRoot ranges;
  mret (put8 err ++ (if err =? 0 then put_vector put_vbrange freeList else []), SaveDelta).

Definition get_ranges : Get (Z * list LBIDRange) :=
  transID ← get32;
  ranges ← get_vector get_range;
  mret (i32 transID, ranges).

(** [SlaveComm::do_endVBCopy] *)
Definition do_endVBCopy (msg : list Z) : M Node (list Z * save) :=
  '(transID, ranges) ← args get_ranges msg;
  code_reply SaveDelta (endVBCopy transID ranges).

(** [SlaveComm::do_vbRollback1], [SlaveComm::do_vbRollback2], [SlaveComm::do_vbCommit] *)
Definition do_vbRollback1 (msg : list Z) : M Node (list Z * save) :=
  '(transID, lbidList) ← args get_ranges msg;
  '(err, _) ← vbRollback_ranges transID lbidList;
  mret (put8 err, Snapshot).

Definition get_lbids : Get (Z * list Z) :=
  transID ← get32;
  lbids ← get_inline 8 get_s;
  mret (i32 transID, lbids).

Definition do_vbRollback2 (msg : list Z) : M Node (list Z * save) :=
  '(transID, lbidList) ← args get_lbids msg;
  '(err, _) ← vbRollback transID lbidList;
  mret (put8 err, Snapshot).
Definition do_vbCommit (msg : list Z) : M Node (list Z * save) :=
  transID ← args get_oid msg;
  code_reply Snapshot (vbCommit transID).

(** [SlaveComm::do_dmlLockLBIDRanges], with [assert(msg.length() == 0)], and
    [SlaveComm::do_dmlReleaseLBIDRanges] *)
Definition at_end {A} (x : A) : Get A := fun bs =>
  match bs with [] => (Ret x, []) | _ => (Exn Segfault, bs) end.
Definition get_dml : Get (list LBIDRange * Z) :=
  ranges ← get_vector get_range;
  tmp32 ← get32;
  at_end (ranges, i32 tmp32).

Definition do_dmlLockLBIDRanges (msg : list Z) : M Node (list Z * save) :=
  '(ranges, txnID) ← args get_dml msg;
  code_reply SaveDelta (dmlLockLBIDRanges (env W) ranges txnID).
Definition do_dmlReleaseLBIDRanges (msg : list Z) : M Node (list Z * save) :=
  ranges ← args (get_vector get_range) msg;
  code_reply SaveDelta (dmlReleaseLBIDRanges ranges).

(** The commands on the node, of the [switch] of [SlaveComm::processCommand]; [None]
    for another command. *)
Definition node_command (cmd : Z) : option (list Z → M Node (list Z * save)) :=
  if cmd =? CREATE_STRIPE_COLUMN_EXTENTS then Some do_createStripeColumnExtents
  else if cmd =? CREATE_COLUMN_EXTENT_DBROOT then Some do_createColumnExtent_DBroot
  else if cmd =? CREATE_COLUMN_EXTENT_EXACT_FILE then Some do_createColumnExtentExactFile
  else if cmd =? CREATE_DICT_STORE_EXTENT then Some do_createDictStoreExtent
  else if cmd =? ROLLBACK_COLUMN_EXTENTS_DBROOT then Some do_rollbackColumnExtents_DBroot
  else if cmd =? ROLLBACK_DICT_STORE_EXTENTS_DBROOT then Some do_rollbackDictStoreExtents_DBroot
  else if cmd =? DELETE_EMPTY_COL_EXTENTS then Some do_deleteEmptyColExtents
  else if cmd =? DELETE_EMPTY_DICT_STORE_EXTENTS then Some do_deleteEmptyDictStoreExtents
  else if cmd =? DELETE_OID then Some do_deleteOID
  else if cmd =? DELETE_OIDS then Some do_deleteOIDs
  else if cmd =? SET_LOCAL_HWM then Some do_setLocalHWM
  else if cmd =? BULK_SET_HWM then Some do_bulkSetHWM
  else if cmd =? BULK_SET_HWM_AND_CP then Some do_bulkSetHWMAndCP
  else if cmd =? WRITE_VB_ENTRY then Some do_writeVBEntry
  else if cmd =? BEGIN_VB_COPY then Some do_beginVBCopy
  else if cmd =? END_VB_COPY then Some do_endVBCopy
  else if cmd =? VB_ROLLBACK1 then Some do_vbRollback1
  else if cmd =? VB_ROLLBACK2 then Some do_vbRollback2
  else if cmd =? VB_COMMIT then Some do_vbCommit
  else if cmd =? MARKEXTENTINVALID then Some do_markInvalid
  else if cmd =? MARKMANYEXTENTSINVALID then Some do_markManyExtentsInvalid
  else if cmd =? SETEXTENTMAXMIN then Some do_setExtentMaxMin
  else if cmd =? SETMANYEXTENTSMAXMIN then Some do_setExtentsMaxMin
  else if cmd =? MERGEMANYEXTENTSMAXMIN then Some do_mergeExtentsMaxMin
  else if cmd =? DELETE_PARTITION then Some do_deletePartition
  else if cmd =? MARK_PARTITION_FOR_DELETION then Some do_markPartitionForDeletion
  else if cmd =? MARK_ALL_PARTITION_FOR_DELETION then Some do_markAllPartitionForDeletion
  else if cmd =? RESTORE_PARTITION then Some do_restorePartition
  else if cmd =? LOCK_LBID_RANGES then Some do_dmlLockLBIDRanges
  else if cmd =? RELEASE_LBID_RANGES then Some do_dmlReleaseLBIDRanges
  else if cmd =? DELETE_DBROOT then Some do_deleteDBRoot
  else if cmd =? BULK_UPDATE_DBROOT then Some do_bulkUpdateDBRoot
  else None.
End Worker.
