(* ===== verification/SlaveServe.v ===== *)
(** * The worker's loop, its journal and its snapshots ([slavecomm.cpp])

    The first worker appends every confirmed command to the journal, or saves the
    whole node and empties the journal.  [replayJournal] runs the journal on a node
    that was loaded from the last snapshot. *)

From S2P Require Import Prelude BinFile ByteStream Undo Table Vbbm Vss CopyLocks SlaveNode ExtentMap EmFile NodeEm Wire SlaveComm.

(** The three files of [SlaveDBRMNode::saveState]. *)
Definition image : Type := list Z * list Z * list Z.

(** [SlaveComm]; [journal] and the save files are the contents of the files, and
    [savefile_current] is the suffix the file of that name holds.  [sent] are the
    messages written to the controller, [isOpen] is the state of the connection. *)
Record SlaveComm := mkSlaveComm {
  slave : Node;
  firstSlave : bool;
  standalone : bool;
  takeSnapshot : bool;
  doSaveDelta : bool;
  delta : list Z;
  journal : list Z;
  journalCount : Z;
  snapshotInterval : Z;
  saveFileToggle : bool;
  savefileA : option image;
  savefileB : option image;
  savefile_current : option bool;
  sent : list (list Z);
  isOpen : bool;
}.

Definition with_slave (n : Node) (c : SlaveComm) : SlaveComm :=
  mkSlaveComm n (firstSlave c) (standalone c) (takeSnapshot c) (doSaveDelta c) (delta c) (journal c) (journalCount c)
    (snapshotInterval c) (saveFileToggle c) (savefileA c) (savefileB c) (savefile_current c) (sent c) (isOpen c).
Definition set_save (snap save : bool) (c : SlaveComm) : SlaveComm :=
  mkSlaveComm (slave c) (firstSlave c) (standalone c) snap save (delta c) (journal c) (journalCount c)
    (snapshotInterval c) (saveFileToggle c) (savefileA c) (savefileB c) (savefile_current c) (sent c) (isOpen c).
Definition with_delta (d : list Z) (c : SlaveComm) : SlaveComm :=
  mkSlaveComm (slave c) (firstSlave c) (standalone c) (takeSnapshot c) (doSaveDelta c) d (journal c) (journalCount c)
    (snapshotInterval c) (saveFileToggle c) (savefileA c) (savefileB c) (savefile_current c) (sent c) (isOpen c).
Definition with_journal (j : list Z) (count : Z) (c : SlaveComm) : SlaveComm :=
  mkSlaveComm (slave c) (firstSlave c) (standalone c) (takeSnapshot c) (doSaveDelta c) (delta c) j count
    (snapshotInterval c) (saveFileToggle c) (savefileA c) (savefileB c) (savefile_current c) (sent c) (isOpen c).
Definition with_files (a b : option image) (cur : option bool) (toggle : bool) (c : SlaveComm) : SlaveComm :=
  mkSlaveComm (slave c) (firstSlave c) (standalone c) (takeSnapshot c) (doSaveDelta c) (delta c) (journal c) (journalCount c)
    (snapshotInterval c) toggle a b cur (sent c) (isOpen c).
Definition with_sent (s : list (list Z)) (c : SlaveComm) : SlaveComm :=
  mkSlaveComm (slave c) (firstSlave c) (standalone c) (takeSnapshot c) (doSaveDelta c) (delta c) (journal c) (journalCount c)
    (snapshotInterval c) (saveFileToggle c) (savefileA c) (savefileB c) (savefile_current c) s (isOpen c).
Definition with_open (o : bool) (c : SlaveComm) : SlaveComm :=
  mkSlaveComm (slave c) (firstSlave c) (standalone c) (takeSnapshot c) (doSaveDelta c) (delta c) (journal c) (journalCount c)
    (snapshotInterval c) (saveFileToggle c) (savefileA c) (savefileB c) (savefile_current c) (sent c) o.

Definition on_slave {A} : M Node A → M SlaveComm A := zoom slave with_slave.

(** [SlaveComm::SlaveComm(hostname, s)] on the journal and the save files there are,
    for the first worker and another one, and [SlaveComm::SlaveComm()], which
    [replayJournal] is called on. *)
Definition first_worker (n : Node) (j : list Z) (interval : option Z) (a b : option image) (cur : option bool) : SlaveComm :=
  mkSlaveComm n true false false false [] j 0 (default 100000 interval) true a b cur [] true.
Definition other_worker (n : Node) : SlaveComm :=
  mkSlaveComm n false false false false [] [] 0 0 true None None None [] true.
Definition standalone_worker (n : Node) : SlaveComm :=
  mkSlaveComm n false true false false [] [] 0 0 true None None None [] true.

Section Serve.
(** The world of the worker; whether the file [_current] can be opened; whether a
    process with this id and name runs; what the buffer of a message held where
    [read] stopped short. *)
Variable W : World.
Variable can_open : bool.
Variable processExists : Z → list Z → bool.
Variable junk : nat → Z.

(** [if (!standalone) master.write(reply);] *)
Definition answer (reply : list Z) : M SlaveComm unit :=
  modify (fun c => if standalone c then c else with_sent (sent c ++ [reply]) c).

(** [SlaveComm::do_undo] *)
Definition do_undo : M SlaveComm unit :=
  on_slave sn_undoChanges ≫= fun _ => modify (set_save false false).

(** [SlaveComm::saveDelta] *)
Definition record (d : list Z) : list Z := put32 (zlength d) ++ d.
Definition saveDelta : M SlaveComm unit :=
  modify (fun c => with_journal (journal c ++ record (delta c)) (journalCount c + 1) c).

(** The snapshot of [do_confirm]: the code of [saveState] is not looked at. *)
Definition snapshot : M SlaveComm unit :=
  if can_open then
    img ← on_slave saveState;
    modify (fun c =>
      let t := saveFileToggle c in
      let put old := match img with Some f => Some f | None => old end in
      with_files (if t then put (savefileA c) else savefileA c) (if t then savefileB c else put (savefileB c))
        (Some t) (negb t) c) ≫= fun _ =>
    modify (fun c => with_journal [] 0 (set_save false false c))
  else throw RuntimeError.

(** [SlaveComm::do_confirm] *)
Definition do_confirm : M SlaveComm unit :=
  c ← gets id;
  (if firstSlave c && doSaveDelta c && ((journalCount c <? snapshotInterval c) || (snapshotInterval c <? 0))
   then modify (fun c => set_save (takeSnapshot c) false c) ≫= fun _ => saveDelta
   else mret tt) ≫= fun _ =>
  on_slave sn_confirmChanges ≫= fun _ =>
  c ← gets id;
  if firstSlave c && (takeSnapshot c || ((snapshotInterval c <=? journalCount c) && (0 <=? snapshotInterval c)))
  then snapshot
  else mret tt.

(** [SlaveComm::do_flushInodeCache]: the caches of the system are not modelled. *)
Definition do_flushInodeCache : M SlaveComm unit := answer (put8 ERR_OK).

(** [SlaveComm::do_clear] *)
Definition do_clear : M SlaveComm unit :=
  err ← on_slave (sn_clear (vbcfg W));
  if err =? 0 then
    c ← gets id;
    (if firstSlave c then saveDelta else mret tt) ≫= fun _ =>
    answer (put8 ERR_OK)
  else throw RuntimeError.

(** [SlaveComm::do_takeSnapshot] *)
Definition do_takeSnapshot : M SlaveComm unit :=
  modify (fun c => set_save true (doSaveDelta c) c) ≫= fun _ =>
  do_confirm ≫= fun _ =>
  answer (put8 0).

(** [SlaveComm::do_ownerCheck] *)
Definition get_owner : Get (list Z * Z) :=
  processName ← get_string;
  pid ← get32;
  mret (processName, pid).
Definition do_ownerCheck (msg : list Z) : M SlaveComm unit :=
  match get_owner msg with
  | (Exn e, _) => throw e
  | (Ret (processName, pid), rest) =>
      if negb (bool_decide (rest = [])) then throw AssertFailure
      else
        c ← gets id;
        if standalone c then mret tt
        else answer (put8 (if processExists pid processName then 1 else 0))
  end.

(** A [do_] function on the node: the reply is written, then one flag is set. *)
Definition do_node (op : list Z → M Node (list Z * save)) (msg : list Z) : M SlaveComm unit :=
  '(reply, save) ← on_slave (op msg);
  answer reply ≫= fun _ =>
  modify (fun c => match save with
                   | Snapshot => set_save true (doSaveDelta c) c
                   | SaveDelta => set_save (takeSnapshot c) true c
                   end).

(** [SlaveComm::processCommand] *)
Definition processCommand (msg : list Z) : M SlaveComm unit :=
  c ← gets id;
  (if firstSlave c then
     cmd ← lift (peek8 msg);
     modify (fun c => if cmd =? CONFIRM then c else with_delta msg c)
   else mret tt) ≫= fun _ =>
  match get8 msg with
  | (Exn e, _) => throw e
  | (Ret cmd, msg') =>
      match node_command W cmd with
      | Some op => do_node op msg'
      | None =>
          if cmd =? BRM_UNDO then do_undo
          else if cmd =? CONFIRM then do_confirm
          else if cmd =? FLUSH_INODE_CACHES then do_flushInodeCache
          else if cmd =? BRM_CLEAR then do_clear
          else if cmd =? TAKE_SNAPSHOT then do_takeSnapshot
          else if cmd =? OWNER_CHECK then do_ownerCheck msg'
          else mret tt
      end
  end.

(** One round of the inner loop of [SlaveComm::run]. *)
Definition serve (msg : list Z) : M SlaveComm unit :=
  c ← gets id;
  if negb (isOpen c) || bool_decide (msg = []) then mret tt
  else catch (processCommand msg) (fun _ => do_undo ≫= fun _ => modify (with_open false)).

(** [SlaveComm::replayJournal]: every round reads four bytes or ends. *)
Fixpoint replay (fuel : nat) (j : list Z) (ret : Z) : M SlaveComm Z :=
  match fuel with
  | O => throw OutOfFuel
  | S fuel' =>
      match get32 j with
      | (Exn _, _) => mret ret
      | (Ret len, rest) =>
          let cmd := take (Z.to_nat len) rest in
          let cmd := cmd ++ (junk <$> seq 0 (Z.to_nat len - length cmd)) in
          ok ← catch (processCommand cmd ≫= fun _ => mret true)
                     (fun _ => on_slave sn_undoChanges ≫= fun _ => mret false);
          if ok : bool then
            on_slave sn_confirmChanges ≫= fun _ => replay fuel' (drop (Z.to_nat len) rest) (ret + 1)
          else mret (-1)
      end
  end.
Definition replayJournal (j : list Z) : M SlaveComm Z := replay (S (length j)) j 0.
End Serve.
