(* ===== verification/DbrmClient.v ===== *)
(** * The client of the controller ([dbrm.cpp])

    The calls of [DBRM] that change the extent map, the versions or the copy locks:
    each builds a message, has it carried out by [send_recv], and reads the answer.
    [S] is the state of the system that answers. *)

From S2P Require Import Prelude BinFile ByteStream Vbbm Vss ColType EmCp EmCreate EmDelete EmQuery NodeEm Wire.

(** What a call hands back: the code alone, with the text of the error, or success
    with the output parameters. *)
Inductive Answer :=
  | ACode (err : Z)
  | AText (err : Z) (emsg : list Z)
  | AStripe (partitionNum segmentNum : Z) (extents : list StripeArgOut)
  | AExtent (partitionNum segmentNum lbid allocdSize startBlockOffset : Z)
  | ADict (lbid allocdSize : Z)
  | ABuffer (freeList : list VBRange).

(** A function declared [throw()]: an exception that leaves it ends the program. *)
Definition nothrow {S A} (op : M S A) : M S A := fun s =>
  match op s with (Exn e, s') => (Exn (if is_exception e then Segfault else e), s') | r => r end.

(** ** The connection *)

Section Connection.
Context {S : Type}.
(** [new MessageQueueClient], and [write] with [read]: [None] is an exception. *)
Variable connect : M S bool.
Variable exchange : list Z → M S (option (list Z)).

(** [DBRM::send_recv]; the first component of the state is [msgClient != NULL]. *)
Definition open_client : M (bool * S) bool := fun '(up, s) =>
  if up : bool then (Ret true, (true, s))
  else match connect s with
       | (Ret b, s') => (Ret b, (b, s'))
       | (Exn e, s') => (Exn e, (false, s'))
       end.
Definition drop_client : M (bool * S) unit := modify (fun '(_, s) => (false, s)).
Definition on_link {A} : M S A → M (bool * S) A := zoom snd (fun s x => (fst x, s)).

Fixpoint send_recv (attempts : nat) (msg : list Z) : M (bool * S) (Z * list Z) :=
  up ← open_client;
  if up : bool then
    out ← on_link (exchange msg);
    match out, attempts with
    | Some (b :: bs), _ => mret (ERR_OK, b :: bs)
    | _, O => drop_client ≫= fun _ => mret (ERR_NETWORK, [])
    | _, Datatypes.S attempts' => drop_client ≫= fun _ => send_recv attempts' msg
    end
  else mret (ERR_NETWORK, []).
End Connection.

Section Client.
Context {S : Type}.
Variable send_recv : list Z → M S (Z * list Z).

(** ** Reading the answer *)

(** [if (response.length() != 1) return ERR_NETWORK; response >> err; return err;] *)
Definition one_byte (response : list Z) : M S Answer :=
  if zlength response =? 1 then err ← lift (peek8 response); mret (ACode err) else mret (ACode ERR_NETWORK).
(** The same with [if (response.length() == 0)]. *)
Definition first_byte (response : list Z) : M S Answer :=
  if zlength response =? 0 then mret (ACode ERR_NETWORK) else err ← lift (peek8 response); mret (ACode err).

(** [err = send_recv(command, response); if (err != ERR_OK) return err;] *)
Definition call (command : list Z) (read : list Z → M S Answer) : M S Answer :=
  '(err, response) ← send_recv command;
  if err =? ERR_OK then read response else mret (ACode (u8 err)).

(** The bodies that read output parameters inside [try]: [onerr] is what [catch]
    returns. *)
Definition get_out (get : Get Answer) : Get Answer :=
  err ← get8;
  if err =? 0 then get else mret (ACode err).
Definition read_out (onerr : Z) (get : Get Answer) (response : list Z) : M S Answer :=
  if zlength response =? 0 then mret (ACode ERR_NETWORK)
  else catch (lift (get_out get response).1) (fun _ => mret (ACode onerr)).

(** ** Value ranges *)

(** [DBRM::markExtentInvalid] *)
Definition dbrm_markExtentInvalid (lbid : Z) (t : ColDataType) : M S Answer :=
  nothrow (call (put8 MARKEXTENTINVALID ++ put64 lbid ++ put32 (ctype_code t)) first_byte).

(** [DBRM::markExtentsInvalid]; [colDataTypes[i]] is read without looking at its
    size. *)
Fixpoint put_invalids (lbids : list Z) (ts : list ColDataType) : outcome (list Z) :=
  match lbids, ts with
  | [], _ => Ret []
  | l :: lbids', t :: ts' => bs ← put_invalids lbids' ts'; Ret (put64 l ++ put32 (ctype_code t) ++ bs)
  | _ :: _, [] => Exn Segfault
  end.
Definition dbrm_markExtentsInvalid (lbids : list Z) (ts : list ColDataType) : M S Answer :=
  nothrow (
    bs ← lift (put_invalids lbids ts);
    call (put8 MARKMANYEXTENTSINVALID ++ put32 (zlength lbids) ++ bs) first_byte).

(** [DBRM::setExtentMaxMin]: the sequence number is sent as 64 bits. *)
Definition dbrm_setExtentMaxMin (lbid max min seqNum : Z) : M S Answer :=
  nothrow (call (put8 SETEXTENTMAXMIN ++ put64 lbid ++ put64 max ++ put64 min ++ put64 seqNum) first_byte).

(** [DBRM::setExtentsMaxMin] *)
Definition put_maxmin (a : CPInfo) : list Z :=
  put64 (ci_firstLbid a) ++ put64 (ci_max a) ++ put64 (ci_min a) ++ put32 (ci_seqNum a).
Definition dbrm_setExtentsMaxMin (cpInfos : list CPInfo) : M S Answer :=
  nothrow (
    match cpInfos with
    | [] => mret (ACode 0)
    | _ => call (put8 SETMANYEXTENTSMAXMIN ++ put32 (zlength cpInfos) ++ (cpInfos ≫= put_maxmin)) first_byte
    end).

(** [DBRM::mergeExtentsMaxMin] *)
Definition put_merge (m : CPInfoMergeMsg) : list Z :=
  let a := im_info m in
  put64 (cm_startLbid a) ++ put64 (mg_max (cm_value a)) ++ put64 (mg_min (cm_value a)) ++ put32 (im_seqNum m) ++
  put32 (ctype_code (mg_type (cm_value a))) ++ put32 (put_bool (mg_newExtent (cm_value a))).
Definition dbrm_mergeExtentsMaxMin (cpInfos : list CPInfoMergeMsg) : M S Answer :=
  nothrow (call (put8 MERGEMANYEXTENTSMAXMIN ++ put32 (zlength cpInfos) ++ (cpInfos ≫= put_merge)) first_byte).

(** ** Creating extents *)

(** [DBRM::createStripeColumnExtents] *)
Definition get_stripe_out : Get Answer :=
  part ← get32;
  seg ← get16;
  extents ← get_inline 16 stripeout_of;
  mret (AStripe part seg extents).
Definition dbrm_createStripeColumnExtents (cols : list StripeArgIn) (dbRoot partitionNum : Z) : M S Answer :=
  nothrow (
    call (put8 CREATE_STRIPE_COLUMN_EXTENTS ++ put_inline stripein_bytes cols ++ put16 dbRoot ++ put32 partitionNum)
      (read_out ERR_FAILURE get_stripe_out)).

Definition get_extent_out : Get Answer :=
  part ← get32;
  seg ← get16;
  lbid ← get64;
  allocdSize ← get32;
  startBlockOffset ← get32;
  mret (AExtent part seg (i64 lbid) (i32 allocdSize) startBlockOffset).

(** [DBRM::createColumnExtent_DBroot]: the type is sent as 32 bits. *)
Definition dbrm_createColumnExtent_DBroot (oid colWidth dbRoot partitionNum segmentNum : Z) (t : ColDataType) : M S Answer :=
  nothrow (
    call (put8 CREATE_COLUMN_EXTENT_DBROOT ++ put32 oid ++ put32 colWidth ++ put16 dbRoot ++ put32 partitionNum ++
          put16 segmentNum ++ put32 (u8 (ctype_code t)))
      (read_out ERR_FAILURE get_extent_out)).

(** [DBRM::createColumnExtentExactFile] *)
Definition dbrm_createColumnExtentExactFile (oid colWidth dbRoot partitionNum segmentNum : Z) (t : ColDataType) : M S Answer :=
  nothrow (
    call (put8 CREATE_COLUMN_EXTENT_EXACT_FILE ++ put32 oid ++ put32 colWidth ++ put16 dbRoot ++ put32 partitionNum ++
          put16 segmentNum ++ put8 (ctype_code t))
      (read_out ERR_FAILURE get_extent_out)).

(** [DBRM::createDictStoreExtent] *)
Definition get_dict_out : Get Answer :=
  lbid ← get64;
  allocdSize ← get32;
  mret (ADict (i64 lbid) (i32 allocdSize)).
Definition dbrm_createDictStoreExtent (oid dbRoot partitionNum segmentNum : Z) : M S Answer :=
  nothrow (
    call (put8 CREATE_DICT_STORE_EXTENT ++ put32 oid ++ put16 dbRoot ++ put32 partitionNum ++ put16 segmentNum)
      (read_out ERR_FAILURE get_dict_out)).

(** ** Rolling back and deleting extents *)

(** [DBRM::rollbackColumnExtents_DBroot] *)
Definition dbrm_rollbackColumnExtents_DBroot (oid : Z) (bDeleteAll : bool) (dbRoot partitionNum segmentNum hwm : Z) : M S Answer :=
  nothrow (
    call (put8 ROLLBACK_COLUMN_EXTENTS_DBROOT ++ put32 oid ++ put8 (put_bool bDeleteAll) ++ put16 dbRoot ++
          put32 partitionNum ++ put16 segmentNum ++ put32 hwm) one_byte).

(** [DBRM::rollbackDictStoreExtents_DBroot] *)
Definition dbrm_rollbackDictStoreExtents_DBroot (oid dbRoot partitionNum : Z) (segNums hwms : list Z) : M S Answer :=
  nothrow (
    call (put8 ROLLBACK_DICT_STORE_EXTENTS_DBROOT ++ put32 oid ++ put16 dbRoot ++ put32 partitionNum ++
          put_vector put16 segNums ++ put_vector put32 hwms) one_byte).

(** [DBRM::deleteEmptyColExtents], [DBRM::deleteEmptyDictStoreExtents] *)
Definition put_info (dict : bool) (x : Z * ExtentInfo) : list Z :=
  put32 x.1 ++ put32 (xi_partitionNum x.2) ++ put16 (xi_segmentNum x.2) ++ put16 (xi_dbRoot x.2) ++ put32 (xi_hwm x.2) ++
  (if dict then put8 (put_bool (xi_newFile x.2)) else []).
Definition dbrm_deleteEmptyColExtents (extentsInfo : list (Z * ExtentInfo)) : M S Answer :=
  nothrow (call (put8 DELETE_EMPTY_COL_EXTENTS ++ put32 (zlength extentsInfo) ++ (extentsInfo ≫= put_info false)) one_byte).
Definition dbrm_deleteEmptyDictStoreExtents (extentsInfo : list (Z * ExtentInfo)) : M S Answer :=
  nothrow (
    call (put8 DELETE_EMPTY_DICT_STORE_EXTENTS ++ put32 (zlength extentsInfo) ++ (extentsInfo ≫= put_info true)) one_byte).

(** [DBRM::deleteAISequence] *)
Definition dbrm_deleteAISequence (oid : Z) : M S unit :=
  '(err, response) ← send_recv (put8 DELETE_AI_SEQUENCE ++ put32 oid);
  if err =? ERR_OK then
    match get8 response with
    | (Exn e, _) => throw e
    | (Ret err, rest) =>
        if negb (bool_decide (rest = [])) then throw AssertFailure
        else if err =? ERR_OK then mret tt else throw RuntimeError
    end
  else throw RuntimeError.

(** [DBRM::deleteOID], [DBRM::deleteOIDs]: the sequences of the columns go too, also
    when the objects were not deleted; not when the answer had the wrong length. *)
Definition drop_sequences (oids : list Z) (a : Answer) : M S Answer :=
  catch (forM oids dbrm_deleteAISequence) (fun _ => mret tt) ≫= fun _ => mret a.
Definition code_then (oids : list Z) (response : list Z) : M S Answer :=
  if zlength response =? 1 then err ← lift (peek8 response); drop_sequences oids (ACode err)
  else mret (ACode ERR_NETWORK).
Definition dbrm_deleteOID (oid : Z) : M S Answer :=
  nothrow (call (put8 DELETE_OID ++ put32 oid) (code_then [oid])).
Definition put_oids (oids : list Z) : list Z := put32 (zlength oids) ++ (oids ≫= put32).
Definition dbrm_deleteOIDs (oids : list Z) : M S Answer :=
  nothrow (call (put8 DELETE_OIDS ++ put_oids oids) (code_then oids)).

(** ** High water marks *)

(** [DBRM::setLocalHWM], [DBRM::bulkSetHWM], [DBRM::bulkSetHWMAndCP],
    [DBRM::bulkUpdateDBRoot] *)
Definition dbrm_setLocalHWM (oid partitionNum segmentNum hwm : Z) : M S Answer :=
  nothrow (call (put8 SET_LOCAL_HWM ++ put32 oid ++ put32 partitionNum ++ put16 segmentNum ++ put32 hwm) one_byte).
Definition dbrm_bulkSetHWM (v : list BulkSetHWMArg) (transID : Z) : M S Answer :=
  nothrow (call (put8 BULK_SET_HWM ++ put_inline hwmarg_bytes v ++ put32 transID) one_byte).
Definition dbrm_bulkSetHWMAndCP (v : list BulkSetHWMArg) (setArgs : list CPInfo) (mergeArgs : list CPInfoMergeMsg)
    (transID : Z) : M S Answer :=
  nothrow (
    call (put8 BULK_SET_HWM_AND_CP ++ put_inline hwmarg_bytes v ++ put_inline cpinfo_bytes setArgs ++
          put_inline cpmerge_bytes mergeArgs ++ put32 transID) one_byte).
Definition dbrm_bulkUpdateDBRoot (args : list (Z * Z)) : M S Answer :=
  call (put8 BULK_UPDATE_DBROOT ++ put_inline dbrootarg_bytes args) one_byte.

(** ** Partitions *)

(** [response >> err; if (err != 0) response >> emsg;] *)
Definition get_text : Get Answer :=
  err ← get8;
  if err =? 0 then mret (ACode 0) else emsg ← get_string; mret (AText err emsg).
Definition with_text (response : list Z) : M S Answer :=
  if zlength response =? 0 then mret (ACode ERR_NETWORK) else lift (get_text response).1.

(** [DBRM::deletePartition], [DBRM::markPartitionForDeletion],
    [DBRM::restorePartition]; the partitions are the elements of a set in order. *)
Definition dbrm_deletePartition (oids : list Z) (partitionNums : list LogicalPartition) : M S Answer :=
  nothrow (call (put8 DELETE_PARTITION ++ put_vector put_partition partitionNums ++ put_oids oids) with_text).
Definition dbrm_markPartitionForDeletion (oids : list Z) (partitionNums : list LogicalPartition) : M S Answer :=
  nothrow (call (put8 MARK_PARTITION_FOR_DELETION ++ put_vector put_partition partitionNums ++ put_oids oids) with_text).
Definition dbrm_restorePartition (oids : list Z) (partitionNums : list LogicalPartition) : M S Answer :=
  nothrow (call (put8 RESTORE_PARTITION ++ put_vector put_partition partitionNums ++ put_oids oids) with_text).

(** [DBRM::markAllPartitionForDeletion], [DBRM::deleteDBRoot] *)
Definition dbrm_markAllPartitionForDeletion (oids : list Z) : M S Answer :=
  nothrow (call (put8 MARK_ALL_PARTITION_FOR_DELETION ++ put_oids oids) one_byte).
Definition dbrm_deleteDBRoot (dbroot : Z) : M S Answer :=
  nothrow (call (put8 DELETE_DBROOT ++ put32 dbroot) first_byte).

(** ** Versions *)

(** [DBRM::writeVBEntry] *)
Definition dbrm_writeVBEntry (transID lbid vbOID vbFBO : Z) : M S Answer :=
  nothrow (call (put8 WRITE_VB_ENTRY ++ put32 transID ++ put64 lbid ++ put32 vbOID ++ put32 vbFBO) one_byte).

(** [DBRM::beginVBCopy] *)
Definition get_buffer_out : Get Answer := l ← get_vector get_vbrange; mret (ABuffer l).
Definition dbrm_beginVBCopy (transID dbRoot : Z) (ranges : list LBIDRange) : M S Answer :=
  nothrow (
    call (put8 BEGIN_VB_COPY ++ put32 transID ++ put16 dbRoot ++ put_vector put_range ranges)
      (read_out ERR_NETWORK get_buffer_out)).

(** [DBRM::endVBCopy]: the code of [send_recv] is overwritten. *)
Definition dbrm_endVBCopy (transID : Z) (ranges : list LBIDRange) : M S Answer :=
  nothrow (
    '(_, response) ← send_recv (put8 END_VB_COPY ++ put32 transID ++ put_vector put_range ranges);
    one_byte response).

(** [DBRM::vbCommit], [DBRM::vbRollback] *)
Definition dbrm_vbCommit (transID : Z) : M S Answer := nothrow (call (put8 VB_COMMIT ++ put32 transID) one_byte).
Definition dbrm_vbRollback_ranges (transID : Z) (lbidList : list LBIDRange) : M S Answer :=
  nothrow (call (put8 VB_ROLLBACK1 ++ put32 transID ++ put_vector put_range lbidList) one_byte).
Definition dbrm_vbRollback (transID : Z) (lbidList : list Z) : M S Answer :=
  nothrow (call (put8 VB_ROLLBACK2 ++ put32 transID ++ put_inline (le_bytes 8) lbidList) one_byte).

(** [DBRM::dmlLockLBIDRanges], [DBRM::dmlReleaseLBIDRanges] *)
Definition dbrm_dmlLockLBIDRanges (ranges : list LBIDRange) (txnID : Z) : M S Answer :=
  call (put8 LOCK_LBID_RANGES ++ put_vector put_range ranges ++ put32 txnID) one_byte.
Definition dbrm_dmlReleaseLBIDRanges (ranges : list LBIDRange) : M S Answer :=
  call (put8 RELEASE_LBID_RANGES ++ put_vector put_range ranges) one_byte.

(** [DBRM::clear], [DBRM::takeSnapshot] *)
Definition dbrm_clear : M S Answer := nothrow (call (put8 BRM_CLEAR) one_byte).
Definition dbrm_takeSnapshot : M S Answer :=
  nothrow (call (put8 TAKE_SNAPSHOT) (fun response =>
    mret (ACode (if zlength response =? 0 then ERR_NETWORK else 0)))).
End Client.
