(* ===== verification/ClientWorker.v ===== *)
(** * A call of the client, carried out by a worker

    [Request] is a call of [DBRM] with its arguments.  [client] builds its message
    and reads the answer, [op] is the call of the node the worker makes for it.  The
    two agree: what the client sends is what the worker reads. *)

From S2P Require Import Prelude BinFile ByteStream Undo Table Vbbm Vss CopyLocks SlaveNode ColType ExtentMap EmCp EmCreate EmDelete EmQuery EmFile NodeEm Wire SlaveComm DbrmClient.

Inductive Request :=
  | MarkInvalid (lbid : Z) (t : ColDataType)
  | MarkManyInvalid (l : list (Z * ColDataType))
  | SetMaxMin (a : CPInfo)
  | SetManyMaxMin (l : list CPInfo)
  | MergeMaxMin (l : list CPInfoMergeMsg)
  | CreateStripe (cols : list StripeArgIn) (dbRoot part : Z)
  | CreateColumn (oid colWidth dbRoot part seg : Z) (t : ColDataType)
  | CreateExact (oid colWidth dbRoot part seg : Z) (t : ColDataType)
  | CreateDict (oid dbRoot part seg : Z)
  | RollbackColumn (oid : Z) (bDeleteAll : bool) (dbRoot part seg hwm : Z)
  | RollbackDict (oid dbRoot part : Z) (segNums hwms : list Z)
  | DeleteEmptyCol (l : list (Z * ExtentInfo))
  | DeleteEmptyDict (l : list (Z * ExtentInfo))
  | DeleteOID (oid : Z)
  | DeleteOIDs (oids : list Z)
  | SetLocalHWM (oid part seg hwm : Z)
  | BulkSetHWM (l : list BulkSetHWMArg) (transID : Z)
  | BulkSetHWMAndCP (h : list BulkSetHWMArg) (s : list CPInfo) (m : list CPInfoMergeMsg) (transID : Z)
  | BulkUpdateDBRoot (l : list (Z * Z))
  | DeletePartition (oids : list Z) (parts : list LogicalPartition)
  | MarkPartition (oids : list Z) (parts : list LogicalPartition)
  | RestorePartition (oids : list Z) (parts : list LogicalPartition)
  | MarkAllPartition (oids : list Z)
  | DeleteDBRoot (dbroot : Z)
  | WriteVBEntry (transID lbid vbOID vbFBO : Z)
  | BeginVBCopy (transID dbRoot : Z) (ranges : list LBIDRange)
  | EndVBCopy (transID : Z) (ranges : list LBIDRange)
  | VbCommit (transID : Z)
  | VbRollback1 (transID : Z) (ranges : list LBIDRange)
  | VbRollback2 (transID : Z) (lbids : list Z)
  | LockRanges (ranges : list LBIDRange) (txnID : Z)
  | ReleaseRanges (ranges : list LBIDRange).

Definition client {S} (send_recv : list Z → M S (Z * list Z)) (q : Request) : M S Answer :=
  match q with
  | MarkInvalid lbid t => dbrm_markExtentInvalid send_recv lbid t
  | MarkManyInvalid l => dbrm_markExtentsInvalid send_recv (fst <$> l) (snd <$> l)
  | SetMaxMin a => dbrm_setExtentMaxMin send_recv (ci_firstLbid a) (ci_max a) (ci_min a) (ci_seqNum a)
  | SetManyMaxMin l => dbrm_setExtentsMaxMin send_recv l
  | MergeMaxMin l => dbrm_mergeExtentsMaxMin send_recv l
  | CreateStripe cols d p => dbrm_createStripeColumnExtents send_recv cols d p
  | CreateColumn oid w d p s t => dbrm_createColumnExtent_DBroot send_recv oid w d p s t
  | CreateExact oid w d p s t => dbrm_createColumnExtentExactFile send_recv oid w d p s t
  | CreateDict oid d p s => dbrm_createDictStoreExtent send_recv oid d p s
  | RollbackColumn oid b d p s h => dbrm_rollbackColumnExtents_DBroot send_recv oid b d p s h
  | RollbackDict oid d p ss hs => dbrm_rollbackDictStoreExtents_DBroot send_recv oid d p ss hs
  | DeleteEmptyCol l => dbrm_deleteEmptyColExtents send_recv l
  | DeleteEmptyDict l => dbrm_deleteEmptyDictStoreExtents send_recv l
  | DeleteOID oid => dbrm_deleteOID send_recv oid
  | DeleteOIDs oids => dbrm_deleteOIDs send_recv oids
  | SetLocalHWM oid p s h => dbrm_setLocalHWM send_recv oid p s h
  | BulkSetHWM l t => dbrm_bulkSetHWM send_recv l t
  | BulkSetHWMAndCP h s m t => dbrm_bulkSetHWMAndCP send_recv h s m t
  | BulkUpdateDBRoot l => dbrm_bulkUpdateDBRoot send_recv l
  | DeletePartition oids ps => dbrm_deletePartition send_recv oids ps
  | MarkPartition oids ps => dbrm_markPartitionForDeletion send_recv oids ps
  | RestorePartition oids ps => dbrm_restorePartition send_recv oids ps
  | MarkAllPartition oids => dbrm_markAllPartitionForDeletion send_recv oids
  | DeleteDBRoot d => dbrm_deleteDBRoot send_recv d
  | WriteVBEntry t l o f => dbrm_writeVBEntry send_recv t l o f
  | BeginVBCopy t d rs => dbrm_beginVBCopy send_recv t d rs
  | EndVBCopy t rs => dbrm_endVBCopy send_recv t rs
  | VbCommit t => dbrm_vbCommit send_recv t
  | VbRollback1 t rs => dbrm_vbRollback_ranges send_recv t rs
  | VbRollback2 t ls => dbrm_vbRollback send_recv t ls
  | LockRanges rs t => dbrm_dmlLockLBIDRanges send_recv rs t
  | ReleaseRanges rs => dbrm_dmlReleaseLBIDRanges send_recv rs
  end.

(** ** What the worker does *)

Definition code (o : M Node Z) : M Node Answer := err ← o; mret (ACode err).

Section Op.
Variable W : World.

Definition partition_op (msg : list Z) (o : M Node Z) : M Node Answer :=
  n ← gets id;
  err ← o;
  mret (if err =? 0 then ACode 0 else AText err (emsg W msg n err)).

Definition partition_args (oids : list Z) (parts : list LogicalPartition) : list Z :=
  put_vector put_partition parts ++ put_oids oids.

Definition op (q : Request) : M Node Answer :=
  match q with
  | MarkInvalid lbid t => code (sn_markExtentInvalid lbid t)
  | MarkManyInvalid l => code (sn_markExtentsInvalid (fst <$> l) (snd <$> l))
  | SetMaxMin a => code (sn_setExtentMaxMin (ci_firstLbid a) (ci_max a) (ci_min a) (ci_seqNum a))
  | SetManyMaxMin l => code (sn_setExtentsMaxMin (cp_map l))
  | MergeMaxMin l => code (sn_mergeExtentsMaxMin (merge_map (im_info <$> l)))
  | CreateStripe cols d p =>
      out ← sn_createStripeColumnExtents (cfg W) cols d p (uninit W);
      mret (match out with Some (part, seg, extents) => AStripe part seg extents | None => ACode (-1) end)
  | CreateColumn oid w d p s t =>
      out ← sn_createColumnExtent_DBroot (cfg W) oid w d t p;
      mret (match out with
            | Some (lbid, n, pl) => AExtent (pl_part pl) (pl_seg pl) lbid n (pl_offset pl)
            | None => ACode (-1)
            end)
  | CreateExact oid w d p s t =>
      out ← sn_createColumnExtentExactFile oid w d p s t;
      mret (match out with Some (lbid, n, off) => AExtent p s lbid n off | None => ACode (-1) end)
  | CreateDict oid d p s =>
      out ← sn_createDictStoreExtent oid d p s;
      mret (match out with Some (lbid, n) => ADict lbid n | None => ACode (-1) end)
  | RollbackColumn oid b d p s h => code (sn_rollbackColumnExtents_DBroot oid b d p s h)
  | RollbackDict oid d p ss hs => code (sn_rollbackDictStoreExtents_DBroot oid d p ss hs)
  | DeleteEmptyCol l =>
      code (sn_deleteEmptyColExtents (iter W (insertions
        ((fun x => (x.1, mkExtentInfo (xi_partitionNum x.2) (xi_segmentNum x.2) (xi_dbRoot x.2) (xi_hwm x.2) false)) <$> l) [])))
  | DeleteEmptyDict l => code (sn_deleteEmptyDictStoreExtents (iter W (insertions l [])))
  | DeleteOID oid => code (deleteOID oid)
  | DeleteOIDs oids => code (deleteOIDs (fst <$> iter W (insertions ((fun o => (o, tt)) <$> oids) [])))
  | SetLocalHWM oid p s h => code (sn_setLocalHWM oid p s h)
  | BulkSetHWM l t => code (sn_bulkSetHWM l t)
  | BulkSetHWMAndCP h s m t => code (sn_bulkSetHWMAndCP h s (im_info <$> m) t)
  | BulkUpdateDBRoot l => code (sn_bulkUpdateDBRoot l)
  | DeletePartition oids ps => partition_op (partition_args oids ps) (sn_deletePartition (list_to_set oids) (list_to_set ps))
  | MarkPartition oids ps => partition_op (partition_args oids ps) (sn_markPartitionForDeletion (list_to_set oids) (list_to_set ps))
  | RestorePartition oids ps => partition_op (partition_args oids ps) (sn_restorePartition (list_to_set oids) (list_to_set ps))
  | MarkAllPartition oids => code (sn_markAllPartitionForDeletion (list_to_set oids))
  | DeleteDBRoot d => code (sn_deleteDBRoot d)
  | WriteVBEntry t l o f => code (writeVBEntry t l o f)
  | BeginVBCopy t d rs =>
      '(err, freeList, _) ← beginVBCopy (env W) (vbcfg W) t d rs;
      mret (if err =? 0 then ABuffer freeList else ACode err)
  | EndVBCopy t rs => code (endVBCopy t rs)
  | VbCommit t => code (vbCommit t)
  | VbRollback1 t rs => '(err, _) ← vbRollback_ranges t rs; mret (ACode err)
  | VbRollback2 t ls => '(err, _) ← vbRollback t ls; mret (ACode err)
  | LockRanges rs t => code (dmlLockLBIDRanges (env W) rs t)
  | ReleaseRanges rs => code (dmlReleaseLBIDRanges rs)
  end.

(** [takeSnapshot] or [doSaveDelta] *)
Definition saved (q : Request) : save :=
  match q with
  | CreateStripe (c :: _) _ _ => if st_oid c <? 3000 then Snapshot else SaveDelta
  | CreateColumn oid _ _ _ _ _ | CreateExact oid _ _ _ _ _ => if oid <? 3000 then Snapshot else SaveDelta
  | VbCommit _ | VbRollback1 _ _ | VbRollback2 _ _ => Snapshot
  | _ => SaveDelta
  end.
End Op.

(** The bytes of an answer, and the answer the client has read from them. *)
Definition answer_bytes (a : Answer) : list Z :=
  match a with
  | ACode err => put8 err
  | AText err emsg => put8 err ++ put_string emsg
  | AStripe part seg extents => put8 0 ++ put32 part ++ put16 seg ++ put_inline stripeout_bytes extents
  | AExtent part seg lbid n off => extent_reply part seg lbid n off
  | ADict lbid n => put8 0 ++ put64 lbid ++ put32 n
  | ABuffer freeList => put8 0 ++ put_vector put_vbrange freeList
  end.

Definition seen (a : Answer) : Answer :=
  match a with
  | ACode err => ACode (u8 err)
  | AText err emsg => AText (u8 err) emsg
  | AStripe part seg extents =>
      AStripe (u32 part) (u16 seg)
        ((fun x => mkStripeOut (i64 (st_startLbid x)) (i32 (st_allocSize x)) (u32 (st_startBlkOffset x))) <$> extents)
  | AExtent part seg lbid n off => AExtent (u32 part) (u16 seg) (i64 lbid) (i32 n) (u32 off)
  | ADict lbid n => ADict (i64 lbid) (i32 n)
  | ABuffer l => ABuffer ((fun r => mkVBRange (i32 (r_vbOID r)) (u32 (r_vbFBO r)) (u32 (r_size r))) <$> l)
  end.

(** An error keeps its meaning in a byte, and texts and lists have a length the
    stream can hold. *)
Definition answer_fits (a : Answer) : Prop :=
  match a with
  | ACode err => err ≠ 0 → u8 err ≠ 0
  | AText err emsg => u8 err ≠ 0 ∧ zlength emsg < 2 ^ 31 - 4
  | AStripe _ _ l => zlength l < 2 ^ 64
  | ABuffer l => zlength l < 2 ^ 64
  | _ => True
  end.

(** ** What fits the types of the source *)

Definition info_fits (x : Z * ExtentInfo) : Prop :=
  is_s 32 x.1 ∧ is_u 32 (xi_partitionNum x.2) ∧ is_u 16 (xi_segmentNum x.2) ∧ is_u 16 (xi_dbRoot x.2) ∧ is_u 32 (xi_hwm x.2).
Definition short {A} (w : Z) (fits : A → Prop) (l : list A) : Prop := Forall fits l ∧ zlength l < 2 ^ w.

(** The partition of [createStripeColumnExtents] has to fit 16 bits. *)
Definition request_fits (q : Request) : Prop :=
  match q with
  | MarkInvalid lbid _ => is_s 64 lbid
  | MarkManyInvalid l => short 32 (fun x => is_s 64 x.1) l
  | SetMaxMin a => cpinfo_fits a
  | SetManyMaxMin l => l ≠ [] ∧ short 31 cpinfo_fits l
  | MergeMaxMin l => short 31 cpmerge_fits l
  | CreateStripe cols d p => short 64 stripein_fits cols ∧ is_u 16 d ∧ is_u 16 p
  | CreateColumn oid w d p s _ | CreateExact oid w d p s _ => is_s 32 oid ∧ is_u 32 w ∧ is_u 16 d ∧ is_u 32 p ∧ is_u 16 s
  | CreateDict oid d p s => is_s 32 oid ∧ is_u 16 d ∧ is_u 32 p ∧ is_u 16 s
  | RollbackColumn oid _ d p s h => is_s 32 oid ∧ is_u 16 d ∧ is_u 32 p ∧ is_u 16 s ∧ is_u 32 h
  | RollbackDict oid d p ss hs => is_s 32 oid ∧ is_u 16 d ∧ is_u 32 p ∧ short 64 (is_u 16) ss ∧ short 64 (is_u 32) hs
  | DeleteEmptyCol l | DeleteEmptyDict l => short 32 info_fits l
  | DeleteOID oid => is_s 32 oid
  | DeleteOIDs oids | MarkAllPartition oids => short 32 (is_s 32) oids
  | SetLocalHWM oid p s h => is_s 32 oid ∧ is_u 32 p ∧ is_u 16 s ∧ is_u 32 h
  | BulkSetHWM l t => short 64 hwmarg_fits l ∧ is_s 32 t
  | BulkSetHWMAndCP h s m t => short 64 hwmarg_fits h ∧ short 64 cpinfo_fits s ∧ short 64 cpmerge_fits m ∧ is_s 32 t
  | BulkUpdateDBRoot l => short 64 dbrootarg_fits l
  | DeletePartition oids ps | MarkPartition oids ps | RestorePartition oids ps =>
      short 32 (is_s 32) oids ∧ short 64 partition_fits ps
  | DeleteDBRoot d => is_u 16 d
  | WriteVBEntry t l o f => is_s 32 t ∧ is_s 64 l ∧ is_s 32 o ∧ is_u 32 f
  | BeginVBCopy t d rs => is_s 32 t ∧ is_u 16 d ∧ short 64 range_fits rs
  | EndVBCopy t rs | VbRollback1 t rs | LockRanges rs t => is_s 32 t ∧ short 64 range_fits rs
  | VbCommit t => is_s 32 t
  | VbRollback2 t ls => is_s 32 t ∧ short 64 (is_s 64) ls
  | ReleaseRanges rs => short 64 range_fits rs
  end.

(** ** The message of a call *)

Definition command_of (q : Request) : Z :=
  match q with
  | MarkInvalid _ _ => MARKEXTENTINVALID
  | MarkManyInvalid _ => MARKMANYEXTENTSINVALID
  | SetMaxMin _ => SETEXTENTMAXMIN
  | SetManyMaxMin _ => SETMANYEXTENTSMAXMIN
  | MergeMaxMin _ => MERGEMANYEXTENTSMAXMIN
  | CreateStripe _ _ _ => CREATE_STRIPE_COLUMN_EXTENTS
  | CreateColumn _ _ _ _ _ _ => CREATE_COLUMN_EXTENT_DBROOT
  | CreateExact _ _ _ _ _ _ => CREATE_COLUMN_EXTENT_EXACT_FILE
  | CreateDict _ _ _ _ => CREATE_DICT_STORE_EXTENT
  | RollbackColumn _ _ _ _ _ _ => ROLLBACK_COLUMN_EXTENTS_DBROOT
  | RollbackDict _ _ _ _ _ => ROLLBACK_DICT_STORE_EXTENTS_DBROOT
  | DeleteEmptyCol _ => DELETE_EMPTY_COL_EXTENTS
  | DeleteEmptyDict _ => DELETE_EMPTY_DICT_STORE_EXTENTS
  | DeleteOID _ => DELETE_OID
  | DeleteOIDs _ => DELETE_OIDS
  | SetLocalHWM _ _ _ _ => SET_LOCAL_HWM
  | BulkSetHWM _ _ => BULK_SET_HWM
  | BulkSetHWMAndCP _ _ _ _ => BULK_SET_HWM_AND_CP
  | BulkUpdateDBRoot _ => BULK_UPDATE_DBROOT
  | DeletePartition _ _ => DELETE_PARTITION
  | MarkPartition _ _ => MARK_PARTITION_FOR_DELETION
  | RestorePartition _ _ => RESTORE_PARTITION
  | MarkAllPartition _ => MARK_ALL_PARTITION_FOR_DELETION
  | DeleteDBRoot _ => DELETE_DBROOT
  | WriteVBEntry _ _ _ _ => WRITE_VB_ENTRY
  | BeginVBCopy _ _ _ => BEGIN_VB_COPY
  | EndVBCopy _ _ => END_VB_COPY
  | VbCommit _ => VB_COMMIT
  | VbRollback1 _ _ => VB_ROLLBACK1
  | VbRollback2 _ _ => VB_ROLLBACK2
  | LockRanges _ _ => LOCK_LBID_RANGES
  | ReleaseRanges _ => RELEASE_LBID_RANGES
  end.

Definition put_invalid (x : Z * ColDataType) : list Z := put64 x.1 ++ put32 (ctype_code x.2).

Definition body (q : Request) : list Z :=
  match q with
  | MarkInvalid lbid t => put_invalid (lbid, t)
  | MarkManyInvalid l => put32 (zlength l) ++ (l ≫= put_invalid)
  | SetMaxMin a => put64 (ci_firstLbid a) ++ put64 (ci_max a) ++ put64 (ci_min a) ++ put64 (ci_seqNum a)
  | SetManyMaxMin l => put32 (zlength l) ++ (l ≫= put_maxmin)
  | MergeMaxMin l => put32 (zlength l) ++ (l ≫= put_merge)
  | CreateStripe cols d p => put_inline stripein_bytes cols ++ put16 d ++ put32 p
  | CreateColumn oid w d p s t => put32 oid ++ put32 w ++ put16 d ++ put32 p ++ put16 s ++ put32 (u8 (ctype_code t))
  | CreateExact oid w d p s t => put32 oid ++ put32 w ++ put16 d ++ put32 p ++ put16 s ++ put8 (ctype_code t)
  | CreateDict oid d p s => put32 oid ++ put16 d ++ put32 p ++ put16 s
  | RollbackColumn oid b d p s h => put32 oid ++ put8 (put_bool b) ++ put16 d ++ put32 p ++ put16 s ++ put32 h
  | RollbackDict oid d p ss hs => put32 oid ++ put16 d ++ put32 p ++ put_vector put16 ss ++ put_vector put32 hs
  | DeleteEmptyCol l => put32 (zlength l) ++ (l ≫= put_info false)
  | DeleteEmptyDict l => put32 (zlength l) ++ (l ≫= put_info true)
  | DeleteOID oid => put32 oid
  | DeleteOIDs oids | MarkAllPartition oids => put_oids oids
  | SetLocalHWM oid p s h => put32 oid ++ put32 p ++ put16 s ++ put32 h
  | BulkSetHWM l t => put_inline hwmarg_bytes l ++ put32 t
  | BulkSetHWMAndCP h s m t =>
      put_inline hwmarg_bytes h ++ put_inline cpinfo_bytes s ++ put_inline cpmerge_bytes m ++ put32 t
  | BulkUpdateDBRoot l => put_inline dbrootarg_bytes l
  | DeletePartition oids ps | MarkPartition oids ps | RestorePartition oids ps => partition_args oids ps
  | DeleteDBRoot d => put32 d
  | WriteVBEntry t l o f => put32 t ++ put64 l ++ put32 o ++ put32 f
  | BeginVBCopy t d rs => put32 t ++ put16 d ++ put_vector put_range rs
  | EndVBCopy t rs | VbRollback1 t rs => put32 t ++ put_vector put_range rs
  | VbCommit t => put32 t
  | VbRollback2 t ls => put32 t ++ put_inline (le_bytes 8) ls
  | LockRanges rs t => put_vector put_range rs ++ put32 t
  | ReleaseRanges rs => put_vector put_range rs
  end.

Definition message (q : Request) : list Z := put8 (command_of q) ++ body q.

(** How the client reads the answer. *)
Definition reader {S} (send_recv : list Z → M S (Z * list Z)) (q : Request) : list Z → M S Answer :=
  match q with
  | MarkInvalid _ _ | MarkManyInvalid _ | SetMaxMin _ | SetManyMaxMin _ | MergeMaxMin _ | DeleteDBRoot _ => first_byte
  | CreateStripe _ _ _ => read_out ERR_FAILURE get_stripe_out
  | CreateColumn _ _ _ _ _ _ | CreateExact _ _ _ _ _ _ => read_out ERR_FAILURE get_extent_out
  | CreateDict _ _ _ _ => read_out ERR_FAILURE get_dict_out
  | DeleteOID oid => code_then send_recv [oid]
  | DeleteOIDs oids => code_then send_recv oids
  | DeletePartition _ _ | MarkPartition _ _ | RestorePartition _ _ => with_text
  | BeginVBCopy _ _ _ => read_out ERR_NETWORK get_buffer_out
  | _ => one_byte
  end.

Lemma put_invalids_all l : put_invalids (fst <$> l) (snd <$> l) = Ret (l ≫= put_invalid).
Proof. induction l as [|[x t] l IH]; [done|]. change (put_invalids (fst <$> (x, t) :: l) (snd <$> (x, t) :: l)) with (bs ← put_invalids (fst <$> l) (snd <$> l); Ret (put64 x ++ put32 (ctype_code t) ++ bs)).
  rewrite IH. change (((x, t) :: l) ≫= put_invalid) with ((put64 x ++ put32 (ctype_code t)) ++ (l ≫= put_invalid)). by rewrite <- app_assoc. Qed.

(** The client sends the message and reads an answer the worker has sent. *)
Lemma client_sends {S} (sr : list Z → M S (Z * list Z)) q s r s' a s'' :
  request_fits q → sr (message q) s = (Ret (ERR_OK, r), s') → reader sr q r s' = (Ret a, s'') →
  client sr q s = (Ret a, s'').
Proof.
  intros Hq Hs Hr.
  assert (call sr (message q) (reader sr q) s = (Ret a, s'')) as Hc.
  { unfold call. rewrite (bind_ret _ _ _ _ _ Hs). exact Hr. }
  assert (nothrow (call sr (message q) (reader sr q)) s = (Ret a, s'')) as Hn by (unfold nothrow; by rewrite Hc).
  destruct q; try exact Hn; try exact Hc.
  - cbn [client]. unfold dbrm_markExtentsInvalid. rewrite put_invalids_all. unfold zlength. rewrite length_fmap. exact Hn.
  - cbn [client]. destruct l; [by destruct Hq|exact Hn].
  - cbn [client]. unfold dbrm_endVBCopy, nothrow. rewrite (bind_ret _ _ _ _ _ Hs). cbn [reader] in Hr. by rewrite Hr.
Qed.
