(* ===== verification/ClientProofs.v ===== *)
(** * The client's messages are read by the worker as they were meant

    For every call: the reader of the worker's [do_] function gives the arguments
    back, and the reader of the client gives the answer back. *)

From S2P Require Import Prelude BinFile ByteStream Undo Table Vbbm Vss CopyLocks SlaveNode ColType ExtentMap EmCp EmCreate EmDelete EmQuery EmFile NodeEm Wire SlaveComm DbrmClient ClientWorker.

(** ** Readers *)

(** The rest of a reader, when the step gives [a] back. *)
Ltac read_with law := rewrite (get_bind _ _ _ _ _ law).

(** Widths of what was read. *)
Ltac widths := rewrite ?s_of_u, ?u_of_u by (assumption || done).

Lemma nil_tail {A} (get : Get A) bs r : get (bs ++ []) = r → get bs = r.
Proof. by rewrite app_nil_r. Qed.

Lemma get_invalid_put x tl : is_s 64 x.1 → get_invalid (put_invalid x ++ tl) = (Ret x, tl).
Proof.
  destruct x as [l t]. intros Hl. cbn in Hl. unfold get_invalid, put_invalid. cbn [fst snd]. read_back.
  rewrite s_of_u by (done || lia). pose proof (ctype_range t). rewrite u_of_u by lia. by rewrite ctype_law.
Qed.

Lemma get_maxmin_put a tl : cpinfo_fits a → get_maxmin (put_maxmin a ++ tl) = (Ret a, tl).
Proof.
  destruct a as [l x n s]. intros (H1 & H2 & H3 & H4). cbn in H1, H2, H3, H4. unfold get_maxmin, put_maxmin.
  cbn [ci_firstLbid ci_max ci_min ci_seqNum]. read_back. by rewrite !s_of_u by (done || lia).
Qed.

Lemma get_merge_put m tl : cpmerge_fits m → get_merge (put_merge m ++ tl) = (Ret (im_info m), tl).
Proof.
  destruct m as [s [l [x n t b]]]. intros (H1 & H2 & H3 & H4). cbn in H1, H2, H3, H4. unfold get_merge, put_merge.
  cbn [im_seqNum im_info cm_startLbid cm_value mg_max mg_min mg_type mg_newExtent]. read_back.
  rewrite !s_of_u by (done || lia). pose proof (ctype_range t). rewrite (u_of_u 32 (ctype_code t)) by lia.
  rewrite ctype_law. by destruct b.
Qed.

Lemma get_info_put dict x tl :
  info_fits x →
  get_info dict (put_info dict x ++ tl) =
    (Ret (x.1, mkExtentInfo (xi_partitionNum x.2) (xi_segmentNum x.2) (xi_dbRoot x.2) (xi_hwm x.2)
                 (if dict then xi_newFile x.2 else false)), tl).
Proof.
  destruct x as [o [p s d h b]]. intros (H1 & H2 & H3 & H4 & H5). cbn in H1, H2, H3, H4, H5. unfold get_info, put_info.
  cbn [fst snd xi_partitionNum xi_segmentNum xi_dbRoot xi_hwm xi_newFile]. read_back.
  rewrite s_of_u by (done || lia). rewrite !u_of_u by done. destruct dict; [|done].
  erewrite get_bind; [|rewrite (get_bind _ _ _ _ _ (get8_put _ _)); reflexivity]. by destruct b.
Qed.

Lemma put_size n x l : (1 ≤ n)%nat → (1 ≤ length (le_bytes n x ++ l))%nat.
Proof. rewrite length_puts. lia. Qed.

Lemma get_counted {A B} (put : A → list Z) (get : Get B) (f : A → B) l tl :
  (∀ x tl, x ∈ l → get (put x ++ tl) = (Ret (f x), tl)) → (∀ x, (1 ≤ length (put x))%nat) → zlength l < 2 ^ 32 →
  (size ← get32; get_count size get) (put32 (zlength l) ++ (l ≫= put) ++ tl) = (Ret (f <$> l), tl).
Proof.
  intros Hl Hs Hn. pose proof (zlength_nonneg l). read_back. rewrite u_of_u by lia. by apply get_count_map.
Qed.

Lemma get_counted_s {A B} (put : A → list Z) (get : Get B) (f : A → B) l tl :
  (∀ x tl, x ∈ l → get (put x ++ tl) = (Ret (f x), tl)) → (∀ x, (1 ≤ length (put x))%nat) → zlength l < 2 ^ 31 →
  (size ← get32; get_count (i32 size) get) (put32 (zlength l) ++ (l ≫= put) ++ tl) = (Ret (f <$> l), tl).
Proof.
  intros Hl Hs Hn. pose proof (zlength_nonneg l). read_back. rewrite u_of_u by lia. rewrite wrap_s_small by lia.
  by apply get_count_map.
Qed.

Lemma get_oids_put oids tl : short 32 (is_s 32) oids → get_oids (put_oids oids ++ tl) = (Ret oids, tl).
Proof.
  intros [Hl Hn]. unfold get_oids, put_oids. rewrite <- app_assoc. rewrite (get_counted put32 get_oid id); [by rewrite list_fmap_id| | |done].
  - intros x tl' Hx. apply (c_law oid_codec). by eapply Forall_forall in Hl.
  - apply (c_size oid_codec).
Qed.

Lemma get_inline_short {A} (image : A → list Z) size parse fits l tl :
  (0 < size)%nat → (∀ x, fits x → length (image x) = size ∧ parse (image x) = x) → short 64 fits l →
  get_inline size parse (put_inline image l ++ tl) = (Ret l, tl).
Proof. intros Hs Hlaw [Hl Hn]. apply get_inline_put; [done| |done]. intros x Hx. apply Hlaw. by eapply Forall_forall in Hl. Qed.

Lemma lbid_law x : is_s 64 x → length (le_bytes 8 x) = 8%nat ∧ get_s (le_bytes 8 x) = x.
Proof. intros Hx. split; [apply length_le_bytes|]. apply get_s_bytes; [lia|]. by apply fits_of_s. Qed.

Lemma get_partitions_put oids ps tl :
  short 32 (is_s 32) oids → short 64 partition_fits ps →
  get_partitions (partition_args oids ps ++ tl) = (Ret (ps, oids), tl).
Proof.
  intros Ho [Hp Hn]. unfold get_partitions, partition_args. rewrite <- app_assoc.
  read_with (get_vector_put partition_codec ps (put_oids oids ++ tl) Hp Hn). by read_with (get_oids_put oids tl Ho).
Qed.

Lemma get_ranges_put t rs tl :
  is_s 32 t → short 64 range_fits rs → get_ranges (put32 t ++ put_vector put_range rs ++ tl) = (Ret (t, rs), tl).
Proof.
  intros Ht [Hr Hn]. unfold get_ranges. read_back. read_with (get_vector_put range_codec rs tl Hr Hn). by rewrite s_of_u by (done || lia).
Qed.

(** ** The worker *)

Lemma args_run {A B} (get : Get A) msg a tl (k : A → M Node B) n :
  get (msg ++ []) = (Ret a, tl) → (args get msg ≫= k) n = k a n.
Proof. rewrite app_nil_r. intros Hg. unfold args. apply bind_ret. unfold lift. by rewrite Hg. Qed.

(** The reply of a function that returns a code. *)
Lemma code_run sv o n : code_reply sv o n = (a ← code o; mret (answer_bytes a, sv)) n.
Proof. unfold code_reply, code, mbind, M_bind. by destruct (o n) as [[]]. Qed.

Definition serves (W : World) (q : Request) (n : Node) (f : list Z → M Node (list Z * save)) : Prop :=
  f (body q) n = (a ← op W q; mret (answer_bytes a, saved q)) n.

(** The arguments are read field by field. *)
Ltac fields :=
  cbn [request_fits] in *; repeat match goal with H : _ ∧ _ |- _ => destruct H end; cbn [body]; read_back;
  rewrite ?s_of_u by (done || lia); rewrite ?u_of_u by done; reflexivity.
(** The worker's function, after its arguments have been read. *)
Ltac served := first [apply code_run | unfold mbind, M_bind; repeat case_match; simplify_eq; done].

Lemma column_args oid w d p s t tl :
  is_s 32 oid → is_u 32 w → is_u 16 d → is_u 32 p → is_u 16 s →
  ∃ tl', get_column (put32 oid ++ put32 w ++ put16 d ++ put32 p ++ put16 s ++ put8 (ctype_code t) ++ tl) = (Ret (oid, w, d, p, s, t), tl').
Proof.
  intros. exists tl. unfold get_column. read_back. rewrite s_of_u by (done || lia). rewrite !u_of_u by (pose proof (ctype_range t); unfold is_u in *; lia).
  by rewrite ctype_law.
Qed.

(** The 32-bit type of [createColumnExtent_DBroot] begins with the byte the worker
    reads. *)
Lemma type_byte t : put32 (u8 (ctype_code t)) = put8 (ctype_code t) ++ [0; 0; 0].
Proof. by destruct t. Qed.

(** So does the 64-bit sequence number. *)
Lemma put64_low x : ∃ tl, put64 x = put32 x ++ tl.
Proof. exists (le_bytes 4 (x / 256 / 256 / 256 / 256)). reflexivity. Qed.

Lemma serves_extents W q n :
  request_fits q →
  match q with
  | CreateStripe _ _ _ => serves W q n (do_createStripeColumnExtents W)
  | CreateColumn _ _ _ _ _ _ => serves W q n (do_createColumnExtent_DBroot W)
  | CreateExact _ _ _ _ _ _ => serves W q n do_createColumnExtentExactFile
  | CreateDict _ _ _ _ => serves W q n do_createDictStoreExtent
  | RollbackColumn _ _ _ _ _ _ => serves W q n do_rollbackColumnExtents_DBroot
  | RollbackDict _ _ _ _ _ => serves W q n do_rollbackDictStoreExtents_DBroot
  | _ => True
  end.
Proof.
  intros Hq. destruct q; try exact I; unfold serves.
  - destruct Hq as (Hc & Hd & Hp). unfold do_createStripeColumnExtents.
    erewrite (args_run get_stripe _ (cols, dbRoot, part)); cycle 1.
    { cbn [body]. rewrite <- !app_assoc. unfold get_stripe.
      read_with (get_inline_short stripein_bytes 12 stripein_of stripein_fits cols
                   (put16 dbRoot ++ put32 part ++ []) ltac:(lia) stripein_law Hc).
      read_back. rewrite u_of_u by done. change (put32 part) with (put16 part ++ le_bytes 2 (part / 256 / 256)). read_back.
      rewrite u_of_u by done. reflexivity. }
    cbn [op saved]. unfold mbind, M_bind. destruct (sn_createStripeColumnExtents _ _ _ _ _ n) as [[[[[p s] l]|]|] n']; destruct cols; done.
  - destruct Hq as (H1 & H2 & H3 & H4 & H5). unfold do_createColumnExtent_DBroot.
    destruct (column_args oid colWidth dbRoot part seg t [0; 0; 0] H1 H2 H3 H4 H5) as (tl' & Hg).
    erewrite (args_run get_column); [|cbn [body]; rewrite app_nil_r, type_byte; exact Hg].
    cbn [op saved]. unfold mbind, M_bind. by destruct (sn_createColumnExtent_DBroot _ _ _ _ _ _ n) as [[[[[l x] pl]|]|] n'].
  - destruct Hq as (H1 & H2 & H3 & H4 & H5). unfold do_createColumnExtentExactFile.
    destruct (column_args oid colWidth dbRoot part seg t [] H1 H2 H3 H4 H5) as (tl' & Hg).
    erewrite (args_run get_column); [|cbn [body]; rewrite app_nil_r in *; exact Hg].
    cbn [op saved]. unfold mbind, M_bind. by destruct (sn_createColumnExtentExactFile _ _ _ _ _ _ n) as [[[[[l x] pl]|]|] n'].
  - unfold do_createDictStoreExtent. erewrite (args_run get_dict _ (oid, dbRoot, part, seg)); [|unfold get_dict; fields].
    cbn [op saved]. unfold mbind, M_bind. by destruct (sn_createDictStoreExtent _ _ _ _ n) as [[[[l x]|]|] n'].
  - unfold do_rollbackColumnExtents_DBroot. erewrite (args_run get_rollback _ (oid, bDeleteAll, dbRoot, part, seg, hwm)); [apply code_run|].
    destruct Hq as (H1 & H2 & H3 & H4 & H5). unfold get_rollback. cbn [body]. read_back.
    rewrite s_of_u by (done || lia). rewrite (u_of_u 8) by (by destruct bDeleteAll). rewrite !u_of_u by done. by rewrite bool_law.
  - destruct Hq as (H1 & H2 & H3 & [H4 H4'] & [H5 H5']). unfold do_rollbackDictStoreExtents_DBroot.
    erewrite (args_run get_rollback_dict _ (oid, dbRoot, part, segNums, hwms)); [apply code_run|].
    unfold get_rollback_dict. cbn [body]. read_back.
    read_with (get_vector_put u16_codec segNums (put_vector put32 hwms ++ []) H4 H4').
    read_with (get_vector_put u32_codec hwms [] H5 H5'). rewrite s_of_u by (done || lia). by rewrite !u_of_u by done.
Qed.

Lemma serves_values W q n :
  request_fits q →
  match q with
  | MarkInvalid _ _ => serves W q n do_markInvalid
  | MarkManyInvalid _ => serves W q n do_markManyExtentsInvalid
  | SetMaxMin _ => serves W q n do_setExtentMaxMin
  | SetManyMaxMin _ => serves W q n do_setExtentsMaxMin
  | MergeMaxMin _ => serves W q n do_mergeExtentsMaxMin
  | _ => True
  end.
Proof.
  intros Hq. destruct q; try exact I; unfold serves; cbn [request_fits] in Hq.
  - unfold do_markInvalid. erewrite (args_run get_invalid); [|apply (get_invalid_put (lbid, t)); exact Hq]. apply code_run.
  - destruct Hq as [Hl Hn]. unfold do_markManyExtentsInvalid. erewrite args_run; cycle 1.
    { cbn [body]. rewrite <- app_assoc. apply (get_counted put_invalid get_invalid id); [| |done].
      - intros x tl Hx. apply get_invalid_put. by eapply (Forall_forall (fun x : Z * ColDataType => is_s 64 x.1)) in Hl.
      - intros x. apply put_size. lia. }
    rewrite list_fmap_id. apply code_run.
  - unfold do_setExtentMaxMin. destruct (put64_low (ci_seqNum a)) as (tl & Htl).
    erewrite (args_run get_maxmin); [apply code_run|]. cbn [body]. rewrite Htl. rewrite <- !app_assoc.
    rewrite <- (get_maxmin_put a (tl ++ [])) by done. unfold put_maxmin. by rewrite <- !app_assoc.
  - destruct Hq as [_ [Hl Hn]]. unfold do_setExtentsMaxMin. erewrite args_run; cycle 1.
    { cbn [body]. rewrite <- app_assoc. apply (get_counted_s put_maxmin get_maxmin id); [| |done].
      - intros x tl Hx. apply get_maxmin_put. by eapply Forall_forall in Hl.
      - intros x. apply put_size. lia. }
    rewrite list_fmap_id. apply code_run.
  - destruct Hq as [Hl Hn]. unfold do_mergeExtentsMaxMin. erewrite args_run; cycle 1.
    { cbn [body]. rewrite <- app_assoc. apply (get_counted_s put_merge get_merge im_info); [| |done].
      - intros x tl Hx. apply get_merge_put. by eapply Forall_forall in Hl.
      - intros x. apply put_size. lia. }
    apply code_run.
Qed.

Lemma get_infos_put W dict l :
  short 32 info_fits l →
  get_infos W dict ((put32 (zlength l) ++ (l ≫= put_info dict)) ++ []) =
    (Ret (iter W (insertions
       ((fun x => (x.1, mkExtentInfo (xi_partitionNum x.2) (xi_segmentNum x.2) (xi_dbRoot x.2) (xi_hwm x.2)
                    (if dict then xi_newFile x.2 else false))) <$> l) [])), []).
Proof.
  intros [Hl Hn]. unfold get_infos. rewrite <- app_assoc. pose proof (zlength_nonneg l). read_back. rewrite u_of_u by lia.
  erewrite get_bind; [reflexivity|]. apply (get_count_map (put_info dict) (get_info dict)).
  - intros x tl Hx. apply get_info_put. by eapply Forall_forall in Hl.
  - intros x. apply put_size. lia.
Qed.

Lemma dict_infos (l : list (Z * ExtentInfo)) :
  (fun x : Z * ExtentInfo => (x.1, mkExtentInfo (xi_partitionNum x.2) (xi_segmentNum x.2) (xi_dbRoot x.2) (xi_hwm x.2) (xi_newFile x.2)))
    <$> l = l.
Proof. induction l as [|[o []] l IH]; [done|]. cbn. by rewrite IH. Qed.

Lemma serves_deletes W q n :
  request_fits q →
  match q with
  | DeleteEmptyCol _ => serves W q n (do_deleteEmptyColExtents W)
  | DeleteEmptyDict _ => serves W q n (do_deleteEmptyDictStoreExtents W)
  | DeleteOID _ => serves W q n do_deleteOID
  | DeleteOIDs _ => serves W q n (do_deleteOIDs W)
  | SetLocalHWM _ _ _ _ => serves W q n do_setLocalHWM
  | BulkSetHWM _ _ => serves W q n do_bulkSetHWM
  | BulkSetHWMAndCP _ _ _ _ => serves W q n do_bulkSetHWMAndCP
  | BulkUpdateDBRoot _ => serves W q n do_bulkUpdateDBRoot
  | _ => True
  end.
Proof.
  intros Hq. destruct q; try exact I; unfold serves; cbn [request_fits] in Hq.
  - unfold do_deleteEmptyColExtents. erewrite (args_run (get_infos W false)); [apply code_run|]. by apply get_infos_put.
  - unfold do_deleteEmptyDictStoreExtents. erewrite (args_run (get_infos W true)); [|by apply get_infos_put].
    rewrite dict_infos. apply code_run.
  - unfold do_deleteOID. erewrite (args_run get_oid); [apply code_run|]. by apply (c_law oid_codec).
  - unfold do_deleteOIDs. erewrite (args_run get_oids); [apply code_run|]. by apply get_oids_put.
  - unfold do_setLocalHWM. erewrite (args_run get_hwm _ (oid, part, seg, hwm)); [apply code_run|]. unfold get_hwm. fields.
  - destruct Hq as [Hl Ht]. unfold do_bulkSetHWM. erewrite (args_run get_hwms _ (l, transID)); [apply code_run|].
    unfold get_hwms. cbn [body]. rewrite <- app_assoc.
    read_with (get_inline_short hwmarg_bytes 16 hwmarg_of hwmarg_fits l (put32 transID ++ []) ltac:(lia) hwmarg_law Hl).
    read_back. by rewrite s_of_u by (done || lia).
  - destruct Hq as (Hh & Hs & Hm & Ht). unfold do_bulkSetHWMAndCP.
    erewrite (args_run get_hwms_cp _ (h, s, m, transID)); [apply code_run|].
    unfold get_hwms_cp. cbn [body]. rewrite <- !app_assoc.
    read_with (get_inline_short hwmarg_bytes 16 hwmarg_of hwmarg_fits h
                 (put_inline cpinfo_bytes s ++ put_inline cpmerge_bytes m ++ put32 transID ++ []) ltac:(lia) hwmarg_law Hh).
    read_with (get_inline_short cpinfo_bytes 32 cpinfo_of cpinfo_fits s
                 (put_inline cpmerge_bytes m ++ put32 transID ++ []) ltac:(lia) cpinfo_law Hs).
    read_with (get_inline_short cpmerge_bytes 40 cpmerge_of cpmerge_fits m (put32 transID ++ []) ltac:(lia) cpmerge_law Hm).
    read_back. by rewrite s_of_u by (done || lia).
  - unfold do_bulkUpdateDBRoot. erewrite (args_run (get_inline 16 dbrootarg_of)); [apply code_run|].
    apply (get_inline_short _ _ _ dbrootarg_fits); [lia|exact dbrootarg_law|done].
Qed.

Lemma partition_run W msg n o :
  partition_reply W msg o n = (a ← partition_op W msg o; mret (answer_bytes a, SaveDelta)) n.
Proof.
  unfold partition_reply, partition_op, gets, mbind, M_bind. destruct (o n) as [[err|e] n']; [|done]. cbn.
  destruct (Z.eqb_spec err 0) as [->|He]; done.
Qed.

Lemma serves_partitions W q n :
  request_fits q →
  match q with
  | DeletePartition _ _ => serves W q n (do_deletePartition W)
  | MarkPartition _ _ => serves W q n (do_markPartitionForDeletion W)
  | RestorePartition _ _ => serves W q n (do_restorePartition W)
  | MarkAllPartition _ => serves W q n do_markAllPartitionForDeletion
  | DeleteDBRoot _ => serves W q n do_deleteDBRoot
  | _ => True
  end.
Proof.
  intros Hq. destruct q; try exact I; unfold serves; cbn [request_fits] in Hq.
  - destruct Hq as [Ho Hp]. unfold do_deletePartition. erewrite (args_run get_partitions); [|by apply get_partitions_put]. apply partition_run.
  - destruct Hq as [Ho Hp]. unfold do_markPartitionForDeletion. erewrite (args_run get_partitions); [|by apply get_partitions_put]. apply partition_run.
  - destruct Hq as [Ho Hp]. unfold do_restorePartition. erewrite (args_run get_partitions); [|by apply get_partitions_put]. apply partition_run.
  - unfold do_markAllPartitionForDeletion. erewrite (args_run get_oids); [apply code_run|]. by apply get_oids_put.
  - unfold do_deleteDBRoot. erewrite (args_run get32); [|apply get32_put].
    assert (u16 (u32 dbroot) = dbroot) as -> by (unfold is_u in Hq; rewrite !u_of_u; [done|lia|rewrite u_of_u; lia]). apply code_run.
Qed.

Lemma get_dml_put rs t : is_s 32 t → short 64 range_fits rs → get_dml ((put_vector put_range rs ++ put32 t) ++ []) = (Ret (rs, t), []).
Proof.
  intros Ht [Hr Hn]. unfold get_dml. rewrite <- app_assoc. read_with (get_vector_put range_codec rs (put32 t ++ []) Hr Hn).
  read_back. cbn. by rewrite s_of_u by (done || lia).
Qed.

Lemma serves_versions W q n :
  request_fits q →
  match q with
  | WriteVBEntry _ _ _ _ => serves W q n do_writeVBEntry
  | BeginVBCopy _ _ _ => serves W q n (do_beginVBCopy W)
  | EndVBCopy _ _ => serves W q n do_endVBCopy
  | VbCommit _ => serves W q n do_vbCommit
  | VbRollback1 _ _ => serves W q n do_vbRollback1
  | VbRollback2 _ _ => serves W q n do_vbRollback2
  | LockRanges _ _ => serves W q n (do_dmlLockLBIDRanges W)
  | ReleaseRanges _ => serves W q n do_dmlReleaseLBIDRanges
  | _ => True
  end.
Proof.
  intros Hq. destruct q; try exact I; unfold serves; cbn [request_fits] in Hq.
  - unfold do_writeVBEntry. erewrite (args_run get_write _ (transID, lbid, vbOID, vbFBO)); [apply code_run|]. unfold get_write. fields.
  - destruct Hq as (Ht & Hd & [Hr Hn]). unfold do_beginVBCopy. erewrite (args_run get_begin _ (transID, dbRoot, ranges)).
    + cbn [op saved]. unfold mbind, M_bind. destruct (beginVBCopy _ _ _ _ _ n) as [[[[err l] fl]|] n']; [|done].
      cbn. destruct (Z.eqb_spec err 0) as [->|He]; done.
    + unfold get_begin. cbn [body]. read_back. read_with (get_vector_put range_codec ranges [] Hr Hn).
      rewrite s_of_u by (done || lia). by rewrite u_of_u by done.
  - destruct Hq as [Ht Hr]. unfold do_endVBCopy. erewrite (args_run get_ranges _ (transID, ranges)); [apply code_run|]. cbn [body]. rewrite <- app_assoc.
    by apply get_ranges_put.
  - unfold do_vbCommit. erewrite (args_run get_oid); [apply code_run|]. by apply (c_law oid_codec).
  - destruct Hq as [Ht Hr]. unfold do_vbRollback1. erewrite (args_run get_ranges _ (transID, ranges)).
    + cbn [op saved]. unfold mbind, M_bind. by destruct (vbRollback_ranges _ _ n) as [[[err fl]|] n'].
    + cbn [body]. rewrite <- app_assoc. by apply get_ranges_put.
  - destruct Hq as [Ht Hr]. unfold do_vbRollback2. erewrite (args_run get_lbids _ (transID, lbids)).
    + cbn [op saved]. unfold mbind, M_bind. by destruct (vbRollback _ _ n) as [[[err fl]|] n'].
    + unfold get_lbids. cbn [body]. read_back.
      read_with (get_inline_short (le_bytes 8) 8 get_s (is_s 64) lbids [] ltac:(lia) lbid_law Hr). by rewrite s_of_u by (done || lia).
  - destruct Hq as [Ht Hr]. unfold do_dmlLockLBIDRanges. erewrite (args_run get_dml _ (ranges, txnID)); [apply code_run|]. by apply get_dml_put.
  - destruct Hq as [Hr Hn]. unfold do_dmlReleaseLBIDRanges. erewrite (args_run (get_vector get_range)); [apply code_run|].
    by apply (get_vector_put range_codec).
Qed.

(** The message of a call is carried out as the call. *)
Lemma worker_reads W q n :
  request_fits q → ∃ f, node_command W (command_of q) = Some f ∧ f (body q) n = (a ← op W q; mret (answer_bytes a, saved q)) n.
Proof.
  intros Hq. pose proof (serves_extents W q n Hq). pose proof (serves_values W q n Hq).
  pose proof (serves_deletes W q n Hq). pose proof (serves_partitions W q n Hq). pose proof (serves_versions W q n Hq).
  destruct q; (eexists; split; [reflexivity|]); first [exact H|exact H0|exact H1|exact H2|exact H3].
Qed.

(** ** The client *)

(** The kind of answer a call has. *)
Definition answers (q : Request) (a : Answer) : Prop :=
  match q, a with
  | CreateStripe _ _ _, AStripe _ _ _ | CreateColumn _ _ _ _ _ _, AExtent _ _ _ _ _ | CreateExact _ _ _ _ _ _, AExtent _ _ _ _ _
  | CreateDict _ _ _ _, ADict _ _ | BeginVBCopy _ _ _, ABuffer _ => True
  | (CreateStripe _ _ _ | CreateColumn _ _ _ _ _ _ | CreateExact _ _ _ _ _ _ | CreateDict _ _ _ _ | BeginVBCopy _ _ _), ACode err => err ≠ 0
  | (DeletePartition _ _ | MarkPartition _ _ | RestorePartition _ _), ACode err => err = 0
  | (DeletePartition _ _ | MarkPartition _ _ | RestorePartition _ _), AText _ _ => True
  | (CreateStripe _ _ _ | CreateColumn _ _ _ _ _ _ | CreateExact _ _ _ _ _ _ | CreateDict _ _ _ _ | BeginVBCopy _ _ _
    | DeletePartition _ _ | MarkPartition _ _ | RestorePartition _ _), _ => False
  | _, ACode _ => True
  | _, _ => False
  end.

Lemma code_answers o n a n' : code o n = (Ret a, n') → ∃ err, a = ACode err.
Proof. unfold code, mbind, M_bind. destruct (o n) as [[err|e] n1]; intros Hr; [|done]. injection Hr as <- <-. eauto. Qed.

Lemma partition_answers W msg o n a n' :
  partition_op W msg o n = (Ret a, n') → match a with ACode err => err = 0 | AText _ _ => True | _ => False end.
Proof.
  unfold partition_op, gets, mbind, M_bind. destruct (o n) as [[err|e] n1]; intros Hr; [|done]. injection Hr as <- <-.
  by destruct (err =? 0).
Qed.

Lemma op_answers W q n a n' : op W q n = (Ret a, n') → answers q a.
Proof.
  intros Hr. destruct q;
    lazymatch type of Hr with
    | op W ?q n = _ => let o := eval cbn [op] in (op W q) in assert (op W q = o) as E by reflexivity; rewrite E in Hr; clear E
    end;
    try lazymatch type of Hr with
        | code _ _ = _ => apply code_answers in Hr as [err ->]; exact I
        | partition_op _ _ _ _ = _ => apply partition_answers in Hr; by destruct a
        end;
    unfold mbind, M_bind in Hr.
  - destruct (sn_createStripeColumnExtents _ _ _ _ _ n) as [[[[[p s] l]|]|] n1]; first [discriminate Hr|by injection Hr as <- <-].
  - destruct (sn_createColumnExtent_DBroot _ _ _ _ _ _ n) as [[[[[l x] pl]|]|] n1]; first [discriminate Hr|by injection Hr as <- <-].
  - destruct (sn_createColumnExtentExactFile _ _ _ _ _ _ n) as [[[[[l x] pl]|]|] n1]; first [discriminate Hr|by injection Hr as <- <-].
  - destruct (sn_createDictStoreExtent _ _ _ _ n) as [[[[l x]|]|] n1]; first [discriminate Hr|by injection Hr as <- <-].
  - destruct (beginVBCopy _ _ _ _ _ n) as [[[[err l] fl]|] n1]; [|done]. injection Hr as <- <-.
    destruct (Z.eqb_spec err 0); done.
  - destruct (vbRollback_ranges _ _ n) as [[[err fl]|] n1]; first [discriminate Hr|by injection Hr as <- <-].
  - destruct (vbRollback _ _ n) as [[[err fl]|] n1]; first [discriminate Hr|by injection Hr as <- <-].
Qed.

Section Readers.
Context {S : Type}.
Implicit Types s : S.

Lemma peek8_put x : peek8 (put8 x) = Ret (u8 x).
Proof. unfold peek8. rewrite (nil_tail get8 _ _ (get8_put x [])). done. Qed.

Lemma one_byte_put err s : one_byte (put8 err) s = (Ret (ACode (u8 err)), s).
Proof. unfold one_byte. change (zlength (put8 err) =? 1) with true. cbn iota. by rewrite peek8_put. Qed.

Lemma first_byte_put err s : first_byte (put8 err) s = (Ret (ACode (u8 err)), s).
Proof. unfold first_byte. change (zlength (put8 err) =? 0) with false. cbn iota. by rewrite peek8_put. Qed.

Lemma not_empty x l : zlength (put8 x ++ l) =? 0 = false.
Proof. apply Z.eqb_neq. unfold zlength, put8. rewrite length_puts. lia. Qed.

(** An error, and output parameters after the code of success. *)
Lemma read_out_code onerr get err s : u8 err ≠ 0 → read_out onerr get (put8 err) s = (Ret (ACode (u8 err)), s).
Proof.
  intros He. unfold read_out. change (zlength (put8 err) =? 0) with false. cbn iota. unfold catch, lift, get_out.
  rewrite (get_bind _ _ _ _ _ (nil_tail get8 _ _ (get8_put err []))). by rewrite (proj2 (Z.eqb_neq _ _) He).
Qed.

Lemma read_out_put onerr get bs a tl s : get (bs ++ []) = (Ret a, tl) → read_out onerr get (put8 0 ++ bs) s = (Ret a, s).
Proof.
  intros Hg. rewrite app_nil_r in Hg. unfold read_out. rewrite not_empty. unfold catch, lift, get_out.
  rewrite (get_bind _ _ _ _ _ (get8_put 0 bs)). change (u8 0 =? 0) with true. cbn iota. by rewrite Hg.
Qed.

Lemma with_text_put err m s :
  u8 err ≠ 0 → zlength m < 2 ^ 31 - 4 → with_text (put8 err ++ put_string m) s = (Ret (AText (u8 err) m), s).
Proof.
  intros He Hm. unfold with_text. rewrite not_empty. unfold lift, get_text. rewrite (get_bind _ _ _ _ _ (get8_put err _)).
  rewrite (proj2 (Z.eqb_neq _ _) He). rewrite (get_bind _ _ _ _ _ (nil_tail get_string _ _ (get_string_put m [] Hm))). done.
Qed.
End Readers.

(** Numbers are sent modulo their width. *)
Lemma put_u n (x : Z) : le_bytes n (wrap_u (8 * Z.of_nat n) x) = le_bytes n x.
Proof. apply le_bytes_mod. Qed.

Lemma wrap_s_u w x : 0 ≤ w → wrap_s w x mod 2 ^ w = x mod 2 ^ w.
Proof.
  intros Hw. assert (0 < 2 ^ w) by lia. unfold wrap_s. case_match; [by rewrite Zmod_mod|].
  replace (x mod 2 ^ w - 2 ^ w) with (x mod 2 ^ w + -1 * 2 ^ w) by lia. by rewrite Z_mod_plus_full, Zmod_mod.
Qed.

Lemma s_after_u w x : wrap_s w (wrap_u w x) = wrap_s w x.
Proof. apply wrap_s_mod. Qed.

Lemma put_s n (x : Z) : le_bytes n (wrap_s (8 * Z.of_nat n) x) = le_bytes n x.
Proof. rewrite <- le_bytes_mod, <- (le_bytes_mod n x). f_equal. apply wrap_s_u. lia. Qed.

Lemma is_u_wrap w x : 0 ≤ w → is_u w (wrap_u w x).
Proof. intros Hw. apply Z.mod_pos_bound. lia. Qed.

Lemma is_s_wrap w x : 0 < w → is_s w (wrap_s w x).
Proof.
  intros Hw. assert (0 < 2 ^ (w - 1)) by lia. assert (2 ^ w = 2 * 2 ^ (w - 1)) as Hp by (rewrite <- Z.pow_succ_r by lia; f_equal; lia).
  pose proof (Z.mod_pos_bound x (2 ^ w) ltac:(lia)). unfold is_s, wrap_s. case_match; lia.
Qed.

(** The list the client reads is the list of the values modulo their width. *)
Lemma bind_images {A} (image : A → list Z) (f : A → A) l : (∀ x, image (f x) = image x) → (f <$> l) ≫= image = l ≫= image.
Proof. intros Hf. induction l as [|x l IH]; [done|]. change ((f <$> x :: l) ≫= image) with (image (f x) ++ ((f <$> l) ≫= image)). by rewrite IH, Hf. Qed.

Lemma stripeouts_read l tl :
  zlength l < 2 ^ 64 →
  get_inline 16 stripeout_of (put_inline stripeout_bytes l ++ tl) =
    (Ret ((fun x => mkStripeOut (i64 (st_startLbid x)) (i32 (st_allocSize x)) (u32 (st_startBlkOffset x))) <$> l), tl).
Proof.
  intros Hn. set (f := fun x => _).
  assert (put_inline stripeout_bytes l = put_inline stripeout_bytes (f <$> l)) as ->.
  { unfold put_inline, zlength. rewrite length_fmap. f_equal. symmetry. apply bind_images. intros x.
    unfold stripeout_bytes, f. cbn [st_startLbid st_allocSize st_startBlkOffset]. f_equal; [apply (put_s 8)|]. f_equal; [apply (put_s 4)|apply (put_u 4)]. }
  apply (get_inline_short _ _ _ stripeout_fits); [lia|exact stripeout_law|]. split.
  - apply Forall_fmap, Forall_true. intros x. unfold stripeout_fits, f. cbn. repeat split; (apply is_s_wrap || apply is_u_wrap); lia.
  - unfold zlength. by rewrite length_fmap.
Qed.

Lemma vbranges_read l tl :
  zlength l < 2 ^ 64 →
  get_vector get_vbrange (put_vector put_vbrange l ++ tl) =
    (Ret ((fun r => mkVBRange (i32 (r_vbOID r)) (u32 (r_vbFBO r)) (u32 (r_size r))) <$> l), tl).
Proof.
  intros Hn. set (f := fun r => _).
  assert (put_vector put_vbrange l = put_vector put_vbrange (f <$> l)) as ->.
  { unfold put_vector, zlength. rewrite length_fmap. f_equal. symmetry. apply bind_images. intros x.
    unfold put_vbrange, f. cbn [r_vbOID r_vbFBO r_size]. f_equal; [apply (put_s 4)|]. f_equal; apply (put_u 4). }
  apply (get_vector_put vbrange_codec).
  - apply Forall_fmap, Forall_true. intros x. unfold vbrange_fits, f. cbn. repeat split; (apply is_s_wrap || apply is_u_wrap); lia.
  - unfold zlength. by rewrite length_fmap.
Qed.

(** What the client does to the sequences of the columns it has deleted. *)
Definition drops {S} (sr : list Z → M S (Z * list Z)) (q : Request) (s s' : S) : Prop :=
  match q with
  | DeleteOID oid => ∀ a, drop_sequences sr [oid] a s = (Ret a, s')
  | DeleteOIDs oids => ∀ a, drop_sequences sr oids a s = (Ret a, s')
  | _ => s' = s
  end.

(** The client reads the answer the worker has sent. *)
Lemma client_reads {S} (sr : list Z → M S (Z * list Z)) q a s s' :
  answers q a → answer_fits a → drops sr q s s' → reader sr q (answer_bytes a) s = (Ret (seen a), s').
Proof.
  intros Ha Hf Hs. destruct q, a; try (exfalso; exact Ha); cbn [drops] in Hs; try subst s'; cbn [reader answer_bytes seen];
    try lazymatch goal with
        | |- one_byte _ _ = _ => apply one_byte_put
        | |- first_byte _ _ = _ => apply first_byte_put
        | |- read_out _ _ (put8 _) _ = _ => apply read_out_code; exact (Hf Ha)
        end.
  - eapply read_out_put. unfold get_stripe_out. read_back. by read_with (stripeouts_read extents [] Hf).
  - eapply read_out_put. unfold get_extent_out. read_back. rewrite !s_after_u. reflexivity.
  - eapply read_out_put. unfold get_extent_out. read_back. rewrite !s_after_u. reflexivity.
  - eapply read_out_put. unfold get_dict_out. read_back. rewrite !s_after_u. reflexivity.
  - unfold code_then. change (zlength (put8 err) =? 1) with true. cbn iota. rewrite peek8_put. exact (Hs _).
  - unfold code_then. change (zlength (put8 err) =? 1) with true. cbn iota. rewrite peek8_put. exact (Hs _).
  - cbn in Ha. subst err. done.
  - destruct Hf. by apply with_text_put.
  - cbn in Ha. subst err. done.
  - destruct Hf. by apply with_text_put.
  - cbn in Ha. subst err. done.
  - destruct Hf. by apply with_text_put.
  - eapply read_out_put. unfold get_buffer_out. by read_with (vbranges_read freeList [] Hf).
Qed.
