(* ===== verification/ServeProofs.v ===== *)
(** * A worker between two commands, and what a command makes of it *)

From S2P Require Import Prelude BinFile ByteStream Undo Table Vbbm Vss CopyLocks SlaveNode ColType ExtentMap EmCp EmCreate EmDelete EmQuery EmFile NodeEm Wire SlaveComm SlaveServe DbrmClient ClientWorker ClientProofs.

#[global] Instance save_eq_dec : EqDecision save.
Proof. solve_decision. Defined.

(** A worker of the controller with node [n] that has no command under way. *)
Definition ready (n : Node) (c : SlaveComm) : Prop :=
  slave c = n ∧ standalone c = false ∧ isOpen c = true ∧
  (firstSlave c = true → takeSnapshot c = false ∧ doSaveDelta c = false).

(** The worker after the command: it has answered and waits for the controller. *)
Definition awaits (q : Request) (a : Answer) (n : Node) (c c' : SlaveComm) : Prop :=
  slave c' = n ∧ standalone c' = false ∧ isOpen c' = true ∧
  sent c' = sent c ++ [answer_bytes a] ∧
  firstSlave c' = firstSlave c ∧
  (firstSlave c = true →
     takeSnapshot c' = bool_decide (saved q = Snapshot) ∧ doSaveDelta c' = bool_decide (saved q = SaveDelta) ∧
     delta c' = message q) ∧
  journal c' = journal c ∧ journalCount c' = journalCount c ∧ snapshotInterval c' = snapshotInterval c.

Lemma command_byte q : u8 (command_of q) = command_of q ∧ command_of q ≠ CONFIRM.
Proof. by destruct q. Qed.

Lemma peek_message q : peek8 (message q) = Ret (command_of q).
Proof. unfold peek8, message. rewrite get8_put. cbn [fst]. by rewrite (proj1 (command_byte q)). Qed.

Lemma on_slave_ret {A} (op : M Node A) a n' c : op (slave c) = (Ret a, n') → on_slave op c = (Ret a, with_slave n' c).
Proof. intros Hr. unfold on_slave, zoom. by rewrite Hr. Qed.

Section Worker.
Variable W : World.
Variable can_open : bool.
Variable processExists : Z → list Z → bool.

Abbreviation process := (processCommand W can_open processExists).
Abbreviation serve_ := (serve W can_open processExists).

(** A command. *)
Lemma process_command q n a n' c :
  request_fits q → ready n c → op W q n = (Ret a, n') →
  ∃ c', process (message q) c = (Ret tt, c') ∧ awaits q a n' c c'.
Proof.
  intros Hq (Hs & Hst & Ho & Hfl) Hop. destruct (worker_reads W q n Hq) as (f & Hf & Hrun).
  unfold processCommand. set (c0 := if firstSlave c then with_delta (message q) c else c).
  erewrite (bind_ret _ _ _ c); [|reflexivity].
  assert ((if firstSlave c
           then cmd ← lift (peek8 (message q)); modify (fun c => if cmd =? CONFIRM then c else with_delta (message q) c)
           else mret tt) c = (Ret tt, c0)) as Hd.
  { unfold c0. destruct (firstSlave c); [|done]. rewrite peek_message. unfold mbind, M_bind, lift, modify.
    by rewrite (proj2 (Z.eqb_neq _ _) (proj2 (command_byte q))). }
  unfold id. rewrite (bind_ret _ _ _ _ _ Hd). unfold message. rewrite get8_put, (proj1 (command_byte q)), Hf.
  assert (slave c0 = n) as Hs0 by (unfold c0; by destruct (firstSlave c)).
  unfold do_node. erewrite (bind_ret _ _ c0); cycle 1.
  { apply on_slave_ret. rewrite Hs0, Hrun. erewrite bind_ret; [reflexivity|exact Hop]. }
  assert (standalone c0 = false) as Hst0 by (unfold c0; by destruct (firstSlave c)).
  cbv beta iota. erewrite bind_ret; cycle 1.
  { unfold answer, modify. cbn [standalone with_slave]. by rewrite Hst0. }
  eexists. split; [reflexivity|]. unfold awaits, c0. destruct (firstSlave c) eqn:Hfs; [destruct (Hfl eq_refl) as [Hts Hsd]|];
    destruct (saved q) eqn:Hsv; cbn; rewrite ?Hfs; repeat split; done.
Qed.

Lemma serve_ret msg c c' : isOpen c = true → msg ≠ [] → process msg c = (Ret tt, c') → serve_ msg c = (Ret tt, c').
Proof.
  intros Ho Hm Hp. unfold serve. erewrite bind_ret; [|reflexivity]. unfold id. rewrite Ho, bool_decide_eq_false_2 by done.
  cbn iota. unfold catch. cbn. by rewrite Hp.
Qed.

Lemma message_cons q : message q ≠ [].
Proof. done. Qed.

(** ** Confirm and undo *)

(** Between two messages of the controller, a command may be under way. *)
Definition busy (n : Node) (c : SlaveComm) : Prop := slave c = n ∧ standalone c = false ∧ isOpen c = true.

Lemma process_undo n n' c :
  busy n c → sn_undoChanges n = (Ret tt, n') →
  ∃ c', serve_ (put8 BRM_UNDO) c = (Ret tt, c') ∧ ready n' c' ∧ sent c' = sent c ∧
        journal c' = journal c ∧ journalCount c' = journalCount c ∧ firstSlave c' = firstSlave c ∧ snapshotInterval c' = snapshotInterval c.
Proof.
  intros (Hs & Hst & Ho) Hu. set (c0 := if firstSlave c then with_delta (put8 BRM_UNDO) c else c).
  exists (set_save false false (with_slave n' c0)). split.
  - apply serve_ret; [done|done|]. unfold processCommand. erewrite (bind_ret _ _ _ c); [|reflexivity]. unfold id.
    assert ((if firstSlave c
             then cmd ← lift (peek8 (put8 BRM_UNDO)); modify (fun c => if cmd =? CONFIRM then c else with_delta (put8 BRM_UNDO) c)
             else mret tt) c = (Ret tt, c0)) as Hd by (unfold c0; by destruct (firstSlave c)).
    rewrite (bind_ret _ _ _ _ _ Hd). change (get8 (put8 BRM_UNDO)) with (Ret BRM_UNDO : outcome Z, @nil Z). cbn iota.
    change (node_command W BRM_UNDO) with (@None (list Z → M Node (list Z * save))). cbn iota. change (BRM_UNDO =? BRM_UNDO) with true. cbn iota.
    unfold do_undo. erewrite bind_ret; [reflexivity|]. apply on_slave_ret. unfold c0. destruct (firstSlave c); cbn; by rewrite Hs.
  - unfold ready, c0. destruct (firstSlave c) eqn:Hf; cbn; rewrite ?Hf; done.
Qed.

(** [do_confirm]: the journal, the node, and perhaps a snapshot. *)
Definition journals (c : SlaveComm) : bool :=
  firstSlave c && doSaveDelta c && ((journalCount c <? snapshotInterval c) || (snapshotInterval c <? 0)).

Lemma snapshot_run n img c :
  can_open = true → slave c = n → saveState n = (Ret img, n) →
  ∃ c', snapshot can_open c = (Ret tt, c') ∧ slave c' = n ∧ takeSnapshot c' = false ∧ doSaveDelta c' = false ∧
        journal c' = [] ∧ journalCount c' = 0 ∧ sent c' = sent c ∧ standalone c' = standalone c ∧ isOpen c' = isOpen c ∧
        firstSlave c' = firstSlave c ∧ snapshotInterval c' = snapshotInterval c.
Proof.
  intros -> Hs Hi. unfold snapshot. erewrite bind_ret; [|apply on_slave_ret; rewrite Hs; exact Hi].
  eexists. split; [reflexivity|]. by cbn.
Qed.

Definition counted (c : SlaveComm) : Z := if journals c then journalCount c + 1 else journalCount c.
Definition snaps (c : SlaveComm) : bool :=
  firstSlave c && (takeSnapshot c || ((snapshotInterval c <=? counted c) && (0 <=? snapshotInterval c))).

Lemma process_confirm n n' img c :
  can_open = true → busy n c → sn_confirmChanges n = (Ret tt, n') → saveState n' = (Ret img, n') →
  ∃ c', serve_ (put8 CONFIRM) c = (Ret tt, c') ∧ ready n' c' ∧ sent c' = sent c ∧ firstSlave c' = firstSlave c ∧
        snapshotInterval c' = snapshotInterval c ∧
        journal c' = (if snaps c then [] else journal c ++ (if journals c then record (delta c) else [])) ∧
        journalCount c' = (if snaps c then 0 else counted c).
Proof.
  intros Hopen (Hs & Hst & Ho) Hc Hi.
  set (c0 := if journals c then with_journal (journal c ++ record (delta c)) (journalCount c + 1) (set_save (takeSnapshot c) false c) else c).
  assert (process (put8 CONFIRM) c = do_confirm can_open c) as Hp.
  { unfold processCommand. erewrite (bind_ret _ _ _ c); [|reflexivity]. unfold id. by destruct (firstSlave c). }
  assert (slave c0 = n ∧ standalone c0 = false ∧ isOpen c0 = true ∧ sent c0 = sent c ∧ firstSlave c0 = firstSlave c ∧
          snapshotInterval c0 = snapshotInterval c ∧ journal c0 = journal c ++ (if journals c then record (delta c) else []) ∧
          journalCount c0 = counted c ∧ takeSnapshot c0 = takeSnapshot c ∧ (journals c = true → doSaveDelta c0 = false) ∧
          (journals c = false → doSaveDelta c0 = doSaveDelta c)) as (H1 & H2 & H3 & H4 & H5 & H6 & H7 & H8 & H9 & H10 & H11).
  { unfold c0, counted. destruct (journals c); cbn; rewrite ?app_nil_r; repeat split; done. }
  assert (do_confirm can_open c = (if snaps c then snapshot can_open else mret tt) (with_slave n' c0)) as Hd.
  { unfold do_confirm. erewrite (bind_ret _ _ _ c); [|reflexivity]. unfold id. fold (journals c).
    erewrite (bind_ret _ _ _ tt c0); [|unfold c0; by destruct (journals c)].
    erewrite bind_ret; [|apply on_slave_ret; rewrite H1; exact Hc]. erewrite (bind_ret _ _ _ (with_slave n' c0)); [|reflexivity].
    unfold snaps. cbn [firstSlave takeSnapshot snapshotInterval journalCount with_slave]. rewrite H5, H6, H8, H9. by case_match. }
  clearbody c0. destruct (snaps c) eqn:Hsn.
  - destruct (snapshot_run n' img (with_slave n' c0) Hopen eq_refl Hi) as (c' & Hr & K1 & K2 & K3 & K4 & K5 & K6 & K7 & K8 & K9 & K10).
    exists c'. split; [apply serve_ret; [done|done|]; by rewrite Hp, Hd, Hr|]. cbn in *.
    rewrite K4, K5, K6, K9, K10. unfold ready. rewrite K1, K2, K3, K7, K8. repeat split; congruence.
  - exists (with_slave n' c0). split; [apply serve_ret; [done|done|]; by rewrite Hp, Hd|].
    assert (firstSlave c0 = true → takeSnapshot c0 = false ∧ doSaveDelta c0 = false) as Hfl; [|by split_and!].
    rewrite H5, H9. intros Hf. unfold snaps in Hsn. rewrite Hf in Hsn. cbn in Hsn. apply orb_false_iff in Hsn as [Hts Hsn].
    split; [done|]. destruct (journals c) eqn:Hj; [auto|]. rewrite H11 by done. unfold counted in Hsn. rewrite Hj in Hsn.
    unfold journals in Hj. rewrite Hf in Hj. destruct (doSaveDelta c); [|done]. cbn in Hj.
    apply orb_false_iff in Hj as [Hj1 Hj2]. apply andb_false_iff in Hsn as [Hsn|Hsn]; lia.
Qed.
End Worker.
