(* ===== verification/MasterNode.v ===== *)
(** * The controller's commands for the workers ([masterdbrmnode.cpp])

    A client's command is sent to every worker, the answers are collected and
    compared, and the workers are told to confirm or to undo.  The network and the
    other threads are parameters: whether a [write] or [read] of the controller
    throws, whether [doHalt] has been called, and whether [doResume] comes in time,
    each at the tick of a clock. *)

From S2P Require Import Prelude BinFile ByteStream Undo Table Vbbm Vss CopyLocks SlaveNode ExtentMap EmFile NodeEm Wire SlaveComm SlaveServe ResourceGraph Session OidServer TableLock AutoInc.

(** The connection to a worker: the worker, the processes of its machine, and the
    replies it has sent that have not been read. *)
Record Link := mkLink { l_worker : SlaveComm; l_procs : Z → list Z → bool; l_unread : list (list Z) }.

(** [iSlave] is the position of the iterator; [slaveLock] is whether the mutex is
    held.  [tableLocks] and [tableLockFile] are what [tableLockServer] has of its own;
    its session manager is [sm]. *)
Record MasterDBRMNode := mkMaster {
  slaves : list Link;
  iSlave : nat;
  readOnly : bool;
  halting : bool;
  slaveLock : bool;
  sm : SessionManagerServer;
  oids : OIDServer;
  tableLocks : list (Z * TableLockInfo);
  tableLockFile : option (list Z);
  aiManager : AutoincrementManager;
  rg : LBIDResourceGraph;
  clock : nat;
}.

Definition set_slaves (l : list Link) (m : MasterDBRMNode) : MasterDBRMNode :=
  mkMaster l (iSlave m) (readOnly m) (halting m) (slaveLock m) (sm m) (oids m) (tableLocks m) (tableLockFile m) (aiManager m) (rg m) (clock m).
Definition set_iSlave (i : nat) (m : MasterDBRMNode) : MasterDBRMNode :=
  mkMaster (slaves m) i (readOnly m) (halting m) (slaveLock m) (sm m) (oids m) (tableLocks m) (tableLockFile m) (aiManager m) (rg m) (clock m).
Definition set_readOnly (b : bool) (m : MasterDBRMNode) : MasterDBRMNode :=
  mkMaster (slaves m) (iSlave m) b (halting m) (slaveLock m) (sm m) (oids m) (tableLocks m) (tableLockFile m) (aiManager m) (rg m) (clock m).
Definition set_halting (b : bool) (m : MasterDBRMNode) : MasterDBRMNode :=
  mkMaster (slaves m) (iSlave m) (readOnly m) b (slaveLock m) (sm m) (oids m) (tableLocks m) (tableLockFile m) (aiManager m) (rg m) (clock m).
Definition set_lock (b : bool) (m : MasterDBRMNode) : MasterDBRMNode :=
  mkMaster (slaves m) (iSlave m) (readOnly m) (halting m) b (sm m) (oids m) (tableLocks m) (tableLockFile m) (aiManager m) (rg m) (clock m).
Definition set_oids (o : OIDServer) (m : MasterDBRMNode) : MasterDBRMNode :=
  mkMaster (slaves m) (iSlave m) (readOnly m) (halting m) (slaveLock m) (sm m) o (tableLocks m) (tableLockFile m) (aiManager m) (rg m) (clock m).
Definition set_rg (g : LBIDResourceGraph) (m : MasterDBRMNode) : MasterDBRMNode :=
  mkMaster (slaves m) (iSlave m) (readOnly m) (halting m) (slaveLock m) (sm m) (oids m) (tableLocks m) (tableLockFile m) (aiManager m) g (clock m).

Definition on_oids {A} : M OIDServer A → M MasterDBRMNode A := zoom oids set_oids.

Section Controller.
(** The worker's world, whether the file [_current] can be opened, the order of the
    edges of a node of the resource graph. *)
Variable W : World.
Variable can_open : bool.
Variable order : gset rgid → list rgid.
(** The network and the other threads. *)
Variable refused : nat → bool.
Variable halts : nat → bool.
Variable resumes : nat → bool.

Abbreviation C := (M MasterDBRMNode).

Definition tick : C nat := fun m =>
  (Ret (clock m),
   mkMaster (slaves m) (iSlave m) (readOnly m) (halting m) (slaveLock m) (sm m) (oids m) (tableLocks m) (tableLockFile m) (aiManager m) (rg m) (S (clock m))).

(** Reading [halting], which another thread may have set. *)
Definition is_halting : C bool :=
  t ← tick;
  modify (fun m => if halts t then set_halting true m else m) ≫= fun _ =>
  gets halting.

(** [slaveLock.lock()] never returns when the holder is gone. *)
Definition lock : C unit := fun m => if slaveLock m then (Exn OutOfFuel, m) else (Ret tt, set_lock true m).
Definition unlock : C unit := modify (set_lock false).

(** ** Talking to the workers *)

(** What a worker makes of a message; a worker that dies is not heard of again. *)
Definition deliver (msg : list Z) (l : Link) : Link :=
  let '(r, c) := serve W can_open (l_procs l) msg (l_worker l) in
  let c := match r with Ret _ => c | Exn _ => with_open false c end in
  mkLink c (l_procs l) (l_unread l ++ drop (length (sent (l_worker l))) (sent c)).

(** [write] to the worker at [iSlave]: [false] is an exception. *)
Definition write_to (i : nat) (msg : list Z) : C bool :=
  t ← tick;
  if refused t then mret false
  else modify (fun m => set_slaves (alter (deliver msg) i (slaves m)) m) ≫= fun _ => mret true.

(** The reads of [gatherResponses] from one worker: [None] is an exception, no bytes
    a timeout. *)
Definition read_from (i : nat) : C (option (list Z)) :=
  t ← tick;
  if refused t then mret None
  else
    m ← gets id;
    match slaves m !! i with
    | Some (mkLink w p (r :: rs)) => modify (set_slaves (<[i := mkLink w p rs]> (slaves m))) ≫= fun _ => mret (Some r)
    | _ => mret (Some [])
    end.

(** [MasterDBRMNode::distribute] *)
Fixpoint distribute_loop (n i : nat) (msg : list Z) : C unit :=
  modify (set_iSlave i) ≫= fun _ =>
  match n with
  | O => mret tt
  | S n' =>
      h ← is_halting;
      if h : bool then mret tt
      else
        ok ← write_to i msg;
        if ok : bool then distribute_loop n' (S i) msg
        else
          h ← is_halting;
          if h : bool then distribute_loop n' (S i) msg else throw RuntimeError
  end.
Definition distribute (msg : list Z) : C unit := m ← gets id; distribute_loop (length (slaves m)) 0 msg.

(** [MasterDBRMNode::gatherResponses]: the responses and [readErrFlag]. *)
Fixpoint gather_loop (n i : nat) (responses : list (list Z)) : C (list (list Z) * bool) :=
  modify (set_iSlave i) ≫= fun _ =>
  match n with
  | O => mret (responses, false)
  | S n' =>
      h ← is_halting;
      if h : bool then mret (responses, false)
      else
        r ← read_from i;
        match r with
        | None => modify (set_halting true) ≫= fun _ => mret (responses, true)
        | Some tmp =>
            h ← is_halting;
            if (zlength tmp =? 0) && negb h then modify (set_halting true) ≫= fun _ => mret (responses, true)
            else gather_loop n' (S i) (responses ++ [tmp])
        end
  end.
Definition gatherResponses : C (list (list Z) * bool) := m ← gets id; gather_loop (length (slaves m)) 0 [].

(** [MasterDBRMNode::compareResponses] *)
Fixpoint compare_loop (first : list Z) (rest : list (list Z)) (errCode : Z) : C Z :=
  match rest with
  | [] => mret errCode
  | r :: rest' =>
      if bool_decide (first = r) then compare_loop r rest' errCode
      else
        h ← is_halting;
        if h : bool then compare_loop r rest' errCode
        else modify (set_readOnly true) ≫= fun _ => mret ERR_SLAVE_INCONSISTENCY
  end.
Definition compareResponses (responses : list (list Z)) : C Z :=
  match responses with
  | [] => throw Segfault
  | first :: rest =>
      match peek8 first with
      | Exn _ => modify (set_readOnly true) ≫= fun _ => mret ERR_NETWORK
      | Ret errCode => compare_loop first rest errCode
      end
  end.

(** [MasterDBRMNode::undo]: as far as [iSlave], and that worker too. *)
Fixpoint undo_loop (n i : nat) : C unit :=
  match n with
  | O => mret tt
  | S n' => write_to i (put8 BRM_UNDO) ≫= fun _ => undo_loop n' (S i)
  end.
Definition undo : C unit :=
  m ← gets id;
  undo_loop (if decide (iSlave m = length (slaves m)) then iSlave m else S (iSlave m)) 0.

(** [MasterDBRMNode::confirm] *)
Definition confirm : C unit := distribute (put8 CONFIRM).

(** [catch (...)]: whether the body threw. *)
Definition threw (op : C unit) : C bool := fun m =>
  match op m with (Ret _, m') => (Ret false, m') | (Exn _, m') => (Ret true, m') end.

(** ** A command *)

(** The end of an attempt: the command is tried again, or the client is answered.
    The message may have been changed. *)
Inductive verdict := Retry | Reply (response : list Z).

(** [CHECK_ERROR1(x)]; [next] is what follows it. *)
Definition check_error1 (x : Z) (next : C verdict) : C verdict :=
  h ← is_halting;
  if h : bool then undo ≫= fun _ => unlock ≫= fun _ => mret Retry
  else if negb (x =? 0) then undo ≫= fun _ => unlock ≫= fun _ => mret (Reply (put8 x))
  else next.

(** The wait at [retrycmd]; [doResume] ends it, or five minutes. *)
Definition wait_halting : C unit :=
  h ← is_halting;
  if h : bool then
    t ← tick;
    if resumes t then modify (set_halting false) ≫= fun _ => lock
    else lock ≫= fun _ => modify (fun m => set_halting false (set_readOnly true m))
  else lock.

(** The OID of the version buffer file takes the place of the dbroot in the message
    of [beginVBCopy]. *)
Definition dbroot_to_vboid (msg : list Z) : C (list Z) :=
  if decide (7 ≤ length msg)%nat then
    let dbRoot := get_u (field 5 2 msg) in
    m ← gets id;
    let err := wrap_s 16 (getVBOIDOfDBRoot dbRoot (oids m)) in
    err ← (if err <? 0 then on_oids (allocVBOID dbRoot) else mret err);
    mret (take 5 msg ++ put16 err ++ drop 7 msg)
  else throw Segfault.

Definition get_txn : Get Z := _ ← get8; q ← get32; mret (i32 q).

Definition no_confirm (responses : list (list Z)) : C verdict :=
  unlock ≫= fun _ =>
  match responses with r :: _ => mret (Reply r) | [] => throw Segfault end.

(** The partition commands answer with a text: some of their errors have changed
    nothing. *)
Definition partition_error (cmd err : Z) : bool :=
  ((cmd =? DELETE_PARTITION) || (cmd =? MARK_PARTITION_FOR_DELETION) || (cmd =? RESTORE_PARTITION)) && negb (err =? 0).
Definition harmless (err : Z) : bool :=
  (err =? ERR_PARTITION_DISABLED) || (err =? ERR_PARTITION_ENABLED) || (err =? ERR_INVALID_OP_LAST_PARTITION) ||
  (err =? ERR_NOT_EXIST_PARTITION) || (err =? ERR_NO_PARTITION_PERFORMED).

Definition finish (cmd : Z) (responses : list (list Z)) : C verdict :=
  if (cmd =? FLUSH_INODE_CACHES) || (cmd =? BRM_CLEAR) || (cmd =? TAKE_SNAPSHOT) then no_confirm responses
  else
    failed ← threw confirm;
    (if failed : bool then
       h ← is_halting;
       if h : bool then mret tt else modify (set_readOnly true)
     else mret tt) ≫= fun _ =>
    no_confirm responses.

(** After [distribute]. *)
Definition collect (cmd : Z) : C verdict :=
  '(responses, _) ← gatherResponses;
  check_error1 ERR_OK (
    err ← compareResponses responses;
    if partition_error cmd err then
      (if harmless err then mret tt else undo) ≫= fun _ => finish cmd responses
    else check_error1 err (finish cmd responses)).

Definition send_out (cmd : Z) (msg : list Z) : C verdict :=
  failed ← threw (distribute msg);
  if failed : bool then
    h ← is_halting;
    if h : bool then collect cmd
    else
      undo ≫= fun _ =>
      modify (set_readOnly true) ≫= fun _ =>
      unlock ≫= fun _ =>
      mret (Reply (put8 ERR_NETWORK))
  else collect cmd.

(** From [retrycmd] on; the message with the verdict. *)
Definition attempt (cmd : Z) (msg : list Z) : C (list Z * verdict) :=
  wait_halting ≫= fun _ =>
  m ← gets id;
  if readOnly m then unlock ≫= fun _ => mret (msg, Reply (put8 ERR_READONLY))
  else
    msg' ← (if cmd =? BEGIN_VB_COPY then catch (x ← dbroot_to_vboid msg; mret (Some x)) (fun _ => mret None) else mret (Some msg));
    match msg' with
    | None => mret (msg, Reply (put8 (-1)))
    | Some msg' =>
        (if (cmd =? VB_ROLLBACK1) || (cmd =? VB_ROLLBACK2) || (cmd =? VB_COMMIT) then
           txn ← lift (get_txn msg').1;
           modify (fun m => set_rg (releaseResources order txn (rg m)) m)
         else mret tt) ≫= fun _ =>
        m ← gets id;
        v ← (if (cmd =? BRM_CLEAR) && negb (getTxnCount (sm m) =? 0) then no_confirm [put8 ERR_FAILURE] else send_out cmd msg');
        mret (msg', v)
    end.

Fixpoint retry_cmd (fuel : nat) (cmd : Z) (msg : list Z) : C (list Z) :=
  match fuel with
  | O => throw OutOfFuel
  | S fuel' =>
      '(msg', v) ← attempt cmd msg;
      match v with
      | Retry => retry_cmd fuel' cmd msg'
      | Reply r => mret r
      end
  end.

(** [MasterDBRMNode::msgProcessor] for a command that is not the controller's own. *)
Definition worker_command (fuel : nat) (msg : list Z) : C (list Z) :=
  cmd ← lift (peek8 msg);
  retry_cmd fuel cmd msg.

(** ** The controller's own state *)

(** [MasterDBRMNode::doHalt], [MasterDBRMNode::doResume],
    [MasterDBRMNode::doSetReadOnly], [MasterDBRMNode::doGetReadOnly] *)
Definition doHalt : C (list Z) := modify (set_halting true) ≫= fun _ => lock ≫= fun _ => mret (put8 ERR_OK).
Definition doResume : C (list Z) := unlock ≫= fun _ => modify (set_halting false) ≫= fun _ => mret (put8 ERR_OK).
Definition doSetReadOnly (b : bool) : C (list Z) :=
  lock ≫= fun _ => modify (set_readOnly b) ≫= fun _ => unlock ≫= fun _ => mret (put8 ERR_OK).
Definition doGetReadOnly : C (list Z) := m ← gets id; mret (put8 (if readOnly m then 1 else 0)).

(** [MasterDBRMNode::doReload]: new connections to [workers], which have kept their
    state, and an undo for all of them; [None] when the configuration is bad. *)
Definition reconnected (l : Link) : Link := mkLink (with_open true (l_worker l)) (l_procs l) [].
Definition doReload (workers : option (list Link)) : C (list Z) :=
  match workers with
  | None => mret (put8 ERR_FAILURE)
  | Some ws =>
      modify (fun m => set_iSlave (length ws) (set_slaves (reconnected <$> ws) m)) ≫= fun _ =>
      undo ≫= fun _ =>
      modify (set_readOnly false) ≫= fun _ =>
      mret (put8 ERR_OK)
  end.
End Controller.
