(* ===== verification/MasterProofs.v ===== *)
(** * The controller with its workers, when the network works *)

From S2P Require Import Prelude BinFile ByteStream Undo Table Vbbm Vss CopyLocks SlaveNode ColType ExtentMap EmCp EmCreate EmDelete EmQuery EmFile NodeEm Wire SlaveComm SlaveServe DbrmClient ClientWorker ClientProofs ServeProofs ResourceGraph Session OidServer MasterNode.

Section Network.
Variable W : World.
Variable can_open : bool.
Variable order : gset rgid → list rgid.
Variable refused : nat → bool.
Variable halts : nat → bool.
Variable resumes : nat → bool.

Hypothesis delivers : ∀ t, refused t = false.
Hypothesis no_halt : ∀ t, halts t = false.

Abbreviation deliver_ := (deliver W can_open).

(** What the network operations change. *)
Definition moved (m : MasterDBRMNode) (l : list Link) (i k : nat) : MasterDBRMNode :=
  mkMaster l i (readOnly m) (halting m) (slaveLock m) (sm m) (oids m) (tableLocks m) (tableLockFile m) (aiManager m) (rg m) k.

Lemma is_halting_run m : halting m = false → is_halting halts m = (Ret false, moved m (slaves m) (iSlave m) (S (clock m))).
Proof.
  intros Hh. unfold is_halting. erewrite bind_ret; [|reflexivity]. rewrite no_halt.
  erewrite bind_ret; [|reflexivity]. unfold gets, moved. cbn. by rewrite Hh.
Qed.

Lemma write_to_run i msg m :
  write_to W can_open refused i msg m =
    (Ret true, moved m (alter (deliver_ msg) i (slaves m)) (iSlave m) (S (clock m))).
Proof. unfold write_to. erewrite bind_ret; [|reflexivity]. by rewrite delivers. Qed.

(** One worker after the other: the first [i] have the message. *)
Lemma alter_middle {A} (f : A → A) (l1 l2 : list A) x :
  alter f (length l1) (l1 ++ x :: l2) = (l1 ++ [f x]) ++ l2.
Proof. induction l1 as [|y l1 IH]; [done|]. cbn. by rewrite IH. Qed.

Lemma distribute_loop_run msg l1 l2 m :
  halting m = false → slaves m = l1 ++ l2 →
  ∃ k, distribute_loop W can_open refused halts (length l2) (length l1) msg m =
    (Ret tt, moved m (l1 ++ (deliver_ msg <$> l2)) (length (slaves m)) k).
Proof.
  revert l1 m. induction l2 as [|x l2 IH]; intros l1 m Hh Hl; cbn [length distribute_loop];
    (erewrite bind_ret; [|reflexivity]); rewrite Hl.
  - exists (clock m). unfold set_iSlave, moved. rewrite Hl, app_nil_r. cbn. by rewrite app_nil_r.
  - erewrite bind_ret; [|apply is_halting_run; exact Hh]. cbn iota.
    erewrite bind_ret; [|apply write_to_run]. cbn iota. cbn [slaves set_iSlave moved]. rewrite Hl, alter_middle.
    edestruct (IH (l1 ++ [deliver_ msg x])) as (k & Hr); [| |exists k].
    3: { rewrite length_app, Nat.add_1_r in Hr. rewrite Hr. unfold moved. cbn. rewrite <- app_assoc. cbn.
         rewrite !length_app. cbn. f_equal. f_equal. lia. }
    all: done.
Qed.

Lemma distribute_run msg m :
  halting m = false →
  ∃ k, distribute W can_open refused halts msg m =
    (Ret tt, moved m (deliver_ msg <$> slaves m) (length (slaves m)) k).
Proof.
  intros Hh. unfold distribute. erewrite bind_ret; [|reflexivity]. unfold id. by apply (distribute_loop_run msg [] (slaves m) m).
Qed.

Lemma undo_loop_run l1 l2 m :
  slaves m = l1 ++ l2 →
  ∃ k, undo_loop W can_open refused (length l2) (length l1) m =
    (Ret tt, moved m (l1 ++ (deliver_ (put8 BRM_UNDO) <$> l2)) (iSlave m) k).
Proof.
  revert l1 m. induction l2 as [|x l2 IH]; intros l1 m Hl; cbn [length undo_loop].
  - exists (clock m). rewrite app_nil_r in Hl. cbn [fmap list_fmap]. rewrite app_nil_r, <- Hl. by destruct m.
  - erewrite bind_ret; [|apply write_to_run]. cbn [slaves]. rewrite Hl, alter_middle.
    destruct (IH (l1 ++ [deliver_ (put8 BRM_UNDO) x])
                (moved m ((l1 ++ [deliver_ (put8 BRM_UNDO) x]) ++ l2) (iSlave m) (S (clock m))) eq_refl) as (k & Hr). exists k.
    rewrite length_app, Nat.add_1_r in Hr. rewrite Hr. unfold moved. cbn. by rewrite <- app_assoc.
Qed.

Lemma undo_run m :
  iSlave m = length (slaves m) →
  ∃ k, undo W can_open refused m = (Ret tt, moved m (deliver_ (put8 BRM_UNDO) <$> slaves m) (iSlave m) k).
Proof.
  intros Hi. destruct (undo_loop_run [] (slaves m) m eq_refl) as (k & Hk). exists k. rewrite <- Hi in Hk.
  unfold undo. erewrite bind_ret; [|reflexivity]. unfold id. by rewrite decide_True.
Qed.

(** Every worker has one answer to be read. *)
Definition answered (r : list Z) (l : Link) : Prop := l_unread l = [r].
Definition heard (l : Link) : Link := mkLink (l_worker l) (l_procs l) [].

Definition has_answer (l : Link) (r : list Z) : Prop := l_unread l = [r] ∧ r ≠ [].

Lemma gather_loop_run l1 l2 rs acc m :
  halting m = false → slaves m = l1 ++ l2 → Forall2 has_answer l2 rs →
  ∃ k, gather_loop refused halts (length l2) (length l1) acc m =
    (Ret (acc ++ rs, false), moved m (l1 ++ (heard <$> l2)) (length (slaves m)) k).
Proof.
  intros Hh Hl Ha. revert l1 acc m Hh Hl. induction Ha as [|[w p u] r l2 rs [Hx Hr] Ha IH]; intros l1 acc m Hh Hl;
    cbn [length gather_loop]; (erewrite bind_ret; [|reflexivity]); rewrite Hl.
  - exists (clock m). unfold set_iSlave, moved. rewrite Hl. cbn. by rewrite !app_nil_r.
  - erewrite bind_ret; [|apply is_halting_run; exact Hh]. cbn iota. cbn in Hx. subst u.
    assert ((l1 ++ mkLink w p [r] :: l2) !! length l1 = Some (mkLink w p [r])) as Hlk by by apply list_lookup_middle.
    erewrite (bind_ret (read_from refused (length l1))); cycle 1.
    { unfold read_from. erewrite bind_ret; [|reflexivity]. rewrite delivers. erewrite bind_ret; [|reflexivity].
      unfold id. cbn [slaves moved set_iSlave]. rewrite Hl, Hlk. reflexivity. }
    cbn iota. erewrite bind_ret; [|by apply is_halting_run]. cbn [negb].
    assert (zlength r =? 0 = false) as -> by (destruct r; [done|]; apply Z.eqb_neq; rewrite zlength_cons; pose proof (zlength_nonneg r); lia).
    cbn [andb]. cbn [slaves moved set_slaves set_iSlave]. rewrite ?Hl. rewrite insert_app_r_alt, Nat.sub_diag by done. cbn [insert list_insert].
    lazymatch goal with
    | |- ∃ k, gather_loop _ _ _ _ _ ?m' = _ => destruct (IH (l1 ++ [mkLink w p []]) (acc ++ [r]) m') as (k & Hk)
    end; [done|cbn; by rewrite <- app_assoc|]. exists k.
    rewrite length_app, Nat.add_1_r in Hk. rewrite Hk. unfold moved. cbn. rewrite <- !app_assoc. cbn.
    rewrite !length_app. cbn. f_equal; f_equal; lia.
Qed.

Lemma gather_run rs m :
  halting m = false → Forall2 has_answer (slaves m) rs →
  ∃ k, gatherResponses refused halts m = (Ret (rs, false), moved m (heard <$> slaves m) (length (slaves m)) k).
Proof.
  intros Hh Ha. unfold gatherResponses. erewrite bind_ret; [|reflexivity]. unfold id. by apply (gather_loop_run [] (slaves m) rs []).
Qed.

(** The same answer from all. *)
Lemma same_answers r ls : r ≠ [] → Forall (answered r) ls → Forall2 has_answer ls (replicate (length ls) r).
Proof. intros Hr Ha. induction Ha; constructor; done. Qed.

Lemma compare_run r n m :
  r ≠ [] → compareResponses halts (replicate (S n) r) m = (lift (peek8 r) : M MasterDBRMNode Z) m.
Proof.
  intros Hr. cbn [replicate compareResponses]. unfold peek8, get8, get_n.
  rewrite decide_True by (destruct r; [done|]; cbn; lia). cbn [fst]. unfold lift. set (e := get_u _). clearbody e.
  induction n as [|n IH]; [done|]. cbn [replicate compare_loop]. by rewrite bool_decide_eq_true_2.
Qed.

(** Two answers that differ. *)
Lemma compare_loop_differs first rest errCode m :
  halting m = false → (∃ r, r ∈ rest ∧ r ≠ first) →
  ∃ k, compare_loop halts first rest errCode m =
    (Ret ERR_SLAVE_INCONSISTENCY, set_readOnly true (moved m (slaves m) (iSlave m) k)).
Proof.
  intros Hh. induction rest as [|r rest IH]; intros (x & Hx & Hne); [by apply not_elem_of_nil in Hx|]. cbn [compare_loop].
  case_bool_decide as Heq.
  - subst r. apply IH. exists x. split; [|done]. apply elem_of_cons in Hx as [->|Hx]; [done|exact Hx].
  - erewrite bind_ret; [|by apply is_halting_run]. eexists. reflexivity.
Qed.

Lemma compare_differs rs m :
  halting m = false → Forall (fun r => r ≠ []) rs → (∃ r r', r ∈ rs ∧ r' ∈ rs ∧ r ≠ r') →
  ∃ k, compareResponses halts rs m = (Ret ERR_SLAVE_INCONSISTENCY, set_readOnly true (moved m (slaves m) (iSlave m) k)).
Proof.
  intros Hh Hrs (r & r' & Hr & Hr' & Hne). destruct rs as [|first rest]; [by apply not_elem_of_nil in Hr|].
  apply Forall_cons in Hrs as [Hf _]. cbn [compareResponses]. unfold peek8, get8, get_n.
  rewrite decide_True by (destruct first; [done|]; cbn; lia). cbn [fst]. apply compare_loop_differs; [done|].
  apply elem_of_cons in Hr as [->|Hr]; apply elem_of_cons in Hr' as [->|Hr']; [done| | |].
  - exists r'. by split.
  - by exists r.
  - destruct (decide (r = first)) as [->|]; [by exists r'|by exists r].
Qed.

(** ** One command *)

(** The servers of the controller. *)
Definition servers (m : MasterDBRMNode) := (sm m, oids m, tableLocks m, tableLockFile m, aiManager m).

(** Every worker has node [n] and no command under way, and the controller is
    open. *)
Definition idle (n : Node) (l : Link) : Prop := ready n (l_worker l) ∧ l_unread l = [].
Definition working (n : Node) (l : Link) : Prop := busy n (l_worker l) ∧ l_unread l = [].
Definition open_for_commands (m : MasterDBRMNode) : Prop := readOnly m = false ∧ halting m = false ∧ slaveLock m = false.
Definition cluster (n : Node) (m : MasterDBRMNode) : Prop :=
  slaves m ≠ [] ∧ Forall (idle n) (slaves m) ∧ open_for_commands m.

Definition answer_code (a : Answer) : Z := match a with ACode err | AText err _ => err | _ => 0 end.

(** What the controller makes the workers do in the end. *)
Definition settle (q : Request) (a : Answer) : M Node unit :=
  let err := u8 (answer_code a) in
  if partition_error (command_of q) err then
    (if harmless err then mret tt else sn_undoChanges) ≫= fun _ => sn_confirmChanges
  else if err =? 0 then sn_confirmChanges
  else sn_undoChanges.

Lemma answer_byte a : peek8 (answer_bytes a) = Ret (u8 (answer_code a)).
Proof. destruct a; cbn [answer_bytes answer_code]; try apply peek8_put; unfold peek8, extent_reply; by rewrite get8_put. Qed.

Lemma answer_cons a : answer_bytes a ≠ [].
Proof. by destruct a. Qed.

Lemma deliver_ret msg l c' :
  serve W can_open (l_procs l) msg (l_worker l) = (Ret tt, c') →
  deliver_ msg l = mkLink c' (l_procs l) (l_unread l ++ drop (length (sent (l_worker l))) (sent c')).
Proof. intros Hs. unfold deliver. by rewrite Hs. Qed.

Lemma deliver_command q a n n' l :
  request_fits q → op W q n = (Ret a, n') → idle n l →
  answered (answer_bytes a) (deliver_ (message q) l) ∧ working n' (heard (deliver_ (message q) l)).
Proof.
  intros Hq Hop [Hr Hu]. destruct (process_command W can_open (l_procs l) q n a n' _ Hq Hr Hop) as (c' & Hp & Hw).
  erewrite deliver_ret; [|apply serve_ret; [apply Hr|done|exact Hp]]. destruct Hw as (H1 & H2 & H3 & H4 & _).
  unfold answered, working, heard. cbn [l_worker l_unread]. rewrite H4, Hu, drop_app_length. done.
Qed.

Lemma deliver_undo n n' l : working n l → sn_undoChanges n = (Ret tt, n') → idle n' (deliver_ (put8 BRM_UNDO) l).
Proof.
  intros [Hb Hu] Hc. destruct (process_undo W can_open (l_procs l) n n' _ Hb Hc) as (c' & Hs & Hr & Hsent & _).
  rewrite (deliver_ret _ _ _ Hs). split; [exact Hr|]. cbn [l_unread]. by rewrite Hsent, Hu, drop_all.
Qed.

Lemma deliver_confirm n n' img l :
  can_open = true → working n l → sn_confirmChanges n = (Ret tt, n') → saveState n' = (Ret img, n') →
  idle n' (deliver_ (put8 CONFIRM) l).
Proof.
  intros Ho [Hb Hu] Hc Hi. destruct (process_confirm W can_open (l_procs l) n n' img _ Ho Hb Hc Hi) as (c' & Hs & Hr & Hsent & _).
  rewrite (deliver_ret _ _ _ Hs). split; [exact Hr|]. cbn [l_unread]. by rewrite Hsent, Hu, drop_all.
Qed.

Lemma idle_working n l : idle n l → working n l.
Proof. intros [(H1 & H2 & H3 & _) Hu]. done. Qed.

(** The replies have been read; the controller holds the lock. *)
Definition gathered (n : Node) (m : MasterDBRMNode) : Prop :=
  slaves m ≠ [] ∧ Forall (working n) (slaves m) ∧ iSlave m = length (slaves m) ∧ readOnly m = false ∧ halting m = false.

Lemma deliver_all (P Q : Link → Prop) msg ls : (∀ l, P l → Q (deliver_ msg l)) → Forall P ls → Forall Q (deliver_ msg <$> ls).
Proof. intros H Hf. apply Forall_fmap. by eapply Forall_impl. Qed.

Lemma fmap_cons {A B} (f : A → B) l : l ≠ [] → f <$> l ≠ [].
Proof. by destruct l. Qed.

Lemma finish_settled q n n' img r rs m :
  can_open = true → gathered n m → sn_confirmChanges n = (Ret tt, n') → saveState n' = (Ret img, n') →
  ∃ m', finish W can_open refused halts (command_of q) (r :: rs) m = (Ret (Reply r), m') ∧
        cluster n' m' ∧ servers m' = servers m.
Proof.
  intros Ho (Hne & Hw & _ & Hro & Hh) Hc Hi. unfold finish.
  assert ((command_of q =? FLUSH_INODE_CACHES) || (command_of q =? BRM_CLEAR) || (command_of q =? TAKE_SNAPSHOT) = false) as ->
    by by destruct q.
  destruct (distribute_run (put8 CONFIRM) m Hh) as (k & Hd).
  erewrite bind_ret; [|unfold threw, confirm; rewrite Hd; reflexivity]. cbn iota. erewrite bind_ret; [|reflexivity].
  eexists. split; [reflexivity|]. split; [|done]. split; [by apply fmap_cons|]. split; [|done].
  eapply deliver_all; [|exact Hw]. intros l Hl. by eapply deliver_confirm.
Qed.

Lemma undo_gathered n n' m :
  gathered n m → sn_undoChanges n = (Ret tt, n') →
  ∃ m', undo W can_open refused m = (Ret tt, m') ∧ slaves m' ≠ [] ∧ Forall (idle n') (slaves m') ∧
        iSlave m' = length (slaves m') ∧ readOnly m' = false ∧ halting m' = false ∧ servers m' = servers m.
Proof.
  intros (Hne & Hw & Hi & Hro & Hh) Hu. destruct (undo_run m Hi) as (k & Hk). eexists. split; [exact Hk|].
  split; [by apply fmap_cons|]. cbn. rewrite length_fmap. split; [|done]. eapply deliver_all; [|exact Hw]. intros l Hl. by eapply deliver_undo.
Qed.

(** The answers are the same, so the controller settles. *)
Lemma settle_run q a n n' img rs m :
  can_open = true → gathered n m → settle q a n = (Ret tt, n') → saveState n' = (Ret img, n') →
  ∃ m', (if partition_error (command_of q) (u8 (answer_code a)) then
           (if harmless (u8 (answer_code a)) then mret tt else undo W can_open refused) ≫= fun _ =>
           finish W can_open refused halts (command_of q) (answer_bytes a :: rs)
         else check_error1 W can_open refused halts (u8 (answer_code a))
                (finish W can_open refused halts (command_of q) (answer_bytes a :: rs))) m =
          (Ret (Reply (if partition_error (command_of q) (u8 (answer_code a)) then answer_bytes a
                       else if u8 (answer_code a) =? 0 then answer_bytes a else put8 (answer_code a))), m') ∧
        cluster n' m' ∧ servers m' = servers m.
Proof.
  intros Ho Hg Hs Hi. pose proof Hg as (Hne & Hw & His & Hro & Hh). unfold settle in Hs.
  destruct (partition_error _ _) eqn:Hpe.
  - destruct (harmless _) eqn:Hha.
    + erewrite bind_ret; [|reflexivity]. by eapply finish_settled.
    + apply bind_inv in Hs as ([] & n1 & Hu & Hc). destruct (undo_gathered n n1 m Hg Hu) as (m1 & Hm & H1 & H2 & H3 & H4 & H5 & H6).
      rewrite (bind_ret _ _ _ _ _ Hm). destruct (finish_settled q n1 n' img (answer_bytes a) rs m1 Ho) as (m' & Hf & Hcl & Hsv);
        [|done|done|exists m'; by rewrite Hf, Hsv].
      split; [done|]. split; [|done]. eapply Forall_impl; [exact H2|]. apply idle_working.
  - unfold check_error1. erewrite bind_ret; [|by apply is_halting_run]. cbn iota. set (m0 := moved m _ _ _).
    assert (gathered n m0) as Hg0 by exact Hg. destruct (_ =? 0) eqn:He; cbn [negb]; cbn iota.
    + by eapply (finish_settled q n n' img _ rs m0).
    + destruct (undo_gathered n n' m0 Hg0 Hs) as (m1 & Hm & H1 & H2 & H3 & H4 & H5 & H6). rewrite (bind_ret _ _ _ _ _ Hm).
      exists (set_lock false m1). split; [|split; [|done]].
      * erewrite bind_ret; [|reflexivity]. unfold mret, M_ret. do 3 f_equal. unfold put8. apply (put_u 1).
      * split; [exact H1|]. by split.
Qed.

Lemma reply_answer q a :
  answers q a → answer_fits a →
  (if partition_error (command_of q) (u8 (answer_code a)) then answer_bytes a
   else if u8 (answer_code a) =? 0 then answer_bytes a else put8 (answer_code a)) = answer_bytes a.
Proof.
  intros Ha Hf. destruct (partition_error _ _) eqn:Hp; [done|]. case_match eqn:He; [done|].
  destruct q, a; try done; cbn in Ha, Hf, He, Hp; try lia; exfalso;
    destruct Hf as [Hf _]; by rewrite (proj2 (Z.eqb_neq _ _) Hf) in Hp.
Qed.

(** From the lock to the answer. *)
Lemma send_out_run q a n n1 n' img m :
  can_open = true → request_fits q → op W q n = (Ret a, n1) → answer_fits a →
  settle q a n1 = (Ret tt, n') → saveState n' = (Ret img, n') →
  slaves m ≠ [] → Forall (idle n) (slaves m) → readOnly m = false → halting m = false →
  ∃ m', send_out W can_open refused halts (command_of q) (message q) m = (Ret (Reply (answer_bytes a)), m') ∧
        cluster n' m' ∧ servers m' = servers m.
Proof.
  intros Ho Hq Hop Hf Hs Hi Hne Hid Hro Hh. destruct (distribute_run (message q) m Hh) as (k & Hd). unfold send_out.
  erewrite bind_ret; [|unfold threw; rewrite Hd; reflexivity]. cbn iota. set (m1 := moved m _ _ _). unfold collect.
  assert (Forall (answered (answer_bytes a)) (slaves m1)) as Ha1.
  { eapply deliver_all; [|exact Hid]. intros l Hl. by eapply deliver_command. }
  destruct (gather_run _ m1 Hh (same_answers _ _ (answer_cons a) Ha1)) as (k2 & Hg). rewrite (bind_ret _ _ _ _ _ Hg).
  set (m2 := moved m1 _ _ _). assert (gathered n1 m2) as Hg2.
  { split; [by apply fmap_cons, fmap_cons|]. split; [|split; [cbn; by rewrite !length_fmap|done]].
    apply Forall_fmap, Forall_fmap. eapply Forall_impl; [exact Hid|]. intros l Hl. by eapply deliver_command. }
  unfold check_error1 at 1. erewrite bind_ret; [|by apply is_halting_run]. cbn iota. change (negb (ERR_OK =? 0)) with false. cbn iota.
  set (m3 := moved m2 _ _ _). assert (gathered n1 m3) as Hg3 by exact Hg2.
  assert (∃ j, length (slaves m1) = S j) as [j Hj].
  { exists (pred (length (slaves m))). cbn. rewrite length_fmap. by destruct (slaves m). }
  rewrite Hj. erewrite bind_ret; [|rewrite compare_run by apply answer_cons; unfold lift; rewrite answer_byte; reflexivity].
  cbn [replicate]. destruct (settle_run q a n1 n' img (replicate j (answer_bytes a)) m3 Ho Hg3 Hs Hi) as (m' & Hr & Hc & H1).
  exists m'. split; [|by split]. rewrite Hr. rewrite reply_answer; [done|by eapply op_answers|done].
Qed.

(** The call the workers get: [beginVBCopy] with the OID of the version buffer file
    of the dbroot, which is allocated already. *)
Definition on_vboid (o : OIDServer) (q : Request) : Request :=
  match q with BeginVBCopy t d rs => BeginVBCopy t (getVBOIDOfDBRoot d o) rs | _ => q end.
Definition vboid_known (o : OIDServer) (q : Request) : Prop :=
  match q with BeginVBCopy _ d _ => 0 ≤ getVBOIDOfDBRoot d o < 2 ^ 15 | _ => True end.

Lemma translate_run q m :
  request_fits q → vboid_known (oids m) q →
  (if command_of q =? BEGIN_VB_COPY then catch (x ← dbroot_to_vboid (message q); mret (Some x)) (fun _ => mret None)
   else mret (Some (message q))) m = (Ret (Some (message (on_vboid (oids m) q))), m).
Proof.
  intros Hq Hv. destruct (command_of q =? BEGIN_VB_COPY) eqn:Hc; [|by destruct q].
  destruct q; try done. clear Hc. destruct Hq as (_ & Hd & _). cbn [vboid_known on_vboid] in *.
  unfold catch. erewrite bind_ret; [reflexivity|]. unfold dbroot_to_vboid.
  change (message (BeginVBCopy transID dbRoot ranges))
    with (le_bytes 1 BEGIN_VB_COPY ++ le_bytes 4 transID ++ le_bytes 2 dbRoot ++ put_vector put_range ranges).
  set (rest := put_vector put_range ranges).
  rewrite decide_True by (rewrite !length_puts; lia). erewrite bind_ret; [|reflexivity]. unfold id.
  assert (get_u (field 5 2 (le_bytes 1 BEGIN_VB_COPY ++ le_bytes 4 transID ++ le_bytes 2 dbRoot ++ rest)) = dbRoot) as ->.
  { rewrite !field_app by (rewrite ?length_le_bytes; cbn; lia). rewrite !length_le_bytes. cbn [Nat.sub].
    rewrite field_0 by apply length_le_bytes. apply get_u_bytes. by apply fits_of_u. }
  rewrite wrap_s_small by lia. assert (getVBOIDOfDBRoot dbRoot (oids m) <? 0 = false) as -> by lia. cbn iota.
  erewrite bind_ret; reflexivity.
Qed.

Lemma txn_of_message q : request_fits q → (command_of q =? VB_ROLLBACK1) || (command_of q =? VB_ROLLBACK2) || (command_of q =? VB_COMMIT) = true →
  ∃ t, (get_txn (message q)).1 = Ret t.
Proof.
  intros Hq Hc. destruct q; try done; unfold get_txn, message; rewrite (get_bind _ _ _ _ _ (get8_put _ _)); cbn [body].
  - rewrite <- (app_nil_r (put32 transID)). rewrite (get_bind _ _ _ _ _ (get32_put _ _)). eauto.
  - rewrite (get_bind _ _ _ _ _ (get32_put _ _)). eauto.
  - rewrite (get_bind _ _ _ _ _ (get32_put _ _)). eauto.
Qed.

Lemma on_vboid_fits o q : request_fits q → vboid_known o q → request_fits (on_vboid o q).
Proof. destruct q; try done. intros (H1 & H2 & H3) Hv. cbn in *. split; [done|]. split; [unfold is_u; lia|done]. Qed.

Lemma command_of_vboid o q : command_of (on_vboid o q) = command_of q.
Proof. by destruct q. Qed.

(** Up to [distribute]. *)
Lemma start_run fuel q m :
  request_fits q → vboid_known (oids m) q → open_for_commands m →
  ∃ m1, slaves m1 = slaves m ∧ readOnly m1 = false ∧ halting m1 = false ∧ servers m1 = servers m ∧
    ∀ r m', send_out W can_open refused halts (command_of q) (message (on_vboid (oids m) q)) m1 = (Ret (Reply r), m') →
            worker_command W can_open order refused halts resumes (S fuel) (message q) m = (Ret r, m').
Proof.
  intros Hq Hv (Hro & Hh & Hlk). set (q' := on_vboid (oids m) q).
  set (m0 := set_lock true (moved m (slaves m) (iSlave m) (S (clock m)))).
  assert (wait_halting halts resumes m = (Ret tt, m0)) as Hw.
  { unfold wait_halting. erewrite bind_ret; [|by apply is_halting_run]. cbn iota. unfold lock. cbn. by rewrite Hlk. }
  assert (∃ m1, (if (command_of q =? VB_ROLLBACK1) || (command_of q =? VB_ROLLBACK2) || (command_of q =? VB_COMMIT) then
           txn ← lift (get_txn (message q')).1; modify (fun m => set_rg (releaseResources order txn (rg m)) m)
         else mret tt) m0 = (Ret tt, m1) ∧ slaves m1 = slaves m ∧ readOnly m1 = false ∧ halting m1 = false ∧ servers m1 = servers m)
    as (m1 & Hr & H1).
  { destruct (_ || _) eqn:Hc; [|by exists m0]. rewrite <- (command_of_vboid (oids m) q) in Hc.
    destruct (txn_of_message q' (on_vboid_fits _ _ Hq Hv) Hc) as [t Ht]. rewrite Ht. eexists. split; [reflexivity|]. done. }
  exists m1. do 4 (split; [by apply H1|]). intros r m' Hm. unfold worker_command.
  erewrite bind_ret; [|unfold lift; rewrite peek_message; reflexivity]. cbn [retry_cmd].
  erewrite bind_ret; [|unfold attempt; rewrite (bind_ret _ _ _ _ _ Hw); erewrite bind_ret; [|reflexivity];
    unfold id; cbn [readOnly m0 set_lock moved]; rewrite Hro; rewrite (bind_ret _ _ _ _ _ (translate_run q m0 Hq Hv));
    cbn iota; rewrite (bind_ret _ _ _ _ _ Hr); erewrite bind_ret; [|reflexivity];
    assert ((command_of q =? BRM_CLEAR) = false) as -> by (by destruct q); cbn [andb]; cbn iota; rewrite (bind_ret _ _ _ _ _ Hm); reflexivity].
  done.
Qed.

Lemma worker_command_run fuel q a n n1 n' img m :
  let q' := on_vboid (oids m) q in
  can_open = true → request_fits q → vboid_known (oids m) q →
  op W q' n = (Ret a, n1) → answer_fits a → settle q' a n1 = (Ret tt, n') → saveState n' = (Ret img, n') → cluster n m →
  ∃ m', worker_command W can_open order refused halts resumes (S fuel) (message q) m = (Ret (answer_bytes a), m') ∧
        cluster n' m' ∧ servers m' = servers m.
Proof.
  intros q' Ho Hq Hv Hop Hf Hs Hi (Hne & Hid & Hoc). destruct (start_run fuel q m Hq Hv Hoc) as (m1 & H1 & H2 & H3 & H4 & Hst).
  destruct (send_out_run q' a n n1 n' img m1 Ho (on_vboid_fits _ _ Hq Hv) Hop Hf Hs Hi) as (m' & Hm & Hc & H6);
    [by rewrite H1|by rewrite H1|done|done|].
  exists m'. split; [|by rewrite H6]. apply Hst. unfold q' in Hm. by rewrite command_of_vboid in Hm.
Qed.

(** ** Workers that do not agree *)

(** What a worker makes of the request. *)
Record Work := mkWork { wk_node : Node; wk_answer : Answer; wk_after : Node; wk_undone : Node }.
Definition works (q : Request) (x : Work) : Prop :=
  op W q (wk_node x) = (Ret (wk_answer x), wk_after x) ∧ sn_undoChanges (wk_after x) = (Ret tt, wk_undone x).
Definition disagree (xs : list Work) : Prop :=
  ∃ x y, x ∈ xs ∧ y ∈ xs ∧ answer_bytes (wk_answer x) ≠ answer_bytes (wk_answer y).

Lemma undo_each q xs ls :
  Forall (works q) xs → Forall2 (fun x l => working (wk_after x) l) xs ls →
  Forall2 (fun x l => idle (wk_undone x) l) xs (deliver_ (put8 BRM_UNDO) <$> ls).
Proof.
  intros Hw Hwk. induction Hwk as [|x l xs ls Hx Hwk IH]; [constructor|]. apply Forall_cons in Hw as [[Hop Hu] Hw].
  constructor; [by eapply deliver_undo|by apply IH].
Qed.

Lemma divergence_run fuel q xs m :
  let q' := on_vboid (oids m) q in
  request_fits q → vboid_known (oids m) q → partition_error (command_of q) ERR_SLAVE_INCONSISTENCY = false →
  Forall (works q') xs → Forall2 (fun x l => idle (wk_node x) l) xs (slaves m) → open_for_commands m → disagree xs →
  ∃ m', worker_command W can_open order refused halts resumes (S fuel) (message q) m =
          (Ret (put8 ERR_SLAVE_INCONSISTENCY), m') ∧
        readOnly m' = true ∧ halting m' = false ∧ slaveLock m' = false ∧
        Forall2 (fun x l => idle (wk_undone x) l) xs (slaves m').
Proof.
  intros q' Hq Hv Hnp Hw Hid Hoc Hdis. destruct (start_run fuel q m Hq Hv Hoc) as (m1 & H1 & H2 & H3 & _ & Hst).
  pose proof (on_vboid_fits _ _ Hq Hv) as Hq'. fold q' in Hq', Hst.
  destruct (distribute_run (message q') m1 H3) as (k & Hd). set (m2 := moved m1 _ _ _) in Hd.
  assert (Forall2 has_answer (slaves m2) ((fun x => answer_bytes (wk_answer x)) <$> xs) ∧
          Forall2 (fun x l => working (wk_after x) l) xs (heard <$> slaves m2)) as [Ha Hwk].
  { cbn. rewrite H1. clear -Hw Hid Hq'. induction Hid as [|x l xs ls Hx Hid IH]; [split; constructor|].
    apply Forall_cons in Hw as [[Hop Hu] Hw]. destruct (IH Hw) as [IH1 IH2].
    destruct (deliver_command q' _ _ _ _ Hq' Hop Hx) as [Ha Hh]. split; constructor; try done. split; [exact Ha|apply answer_cons]. }
  destruct (gather_run _ m2 H3 Ha) as (k2 & Hg). set (m3 := moved m2 _ _ _) in Hg.
  destruct (compare_differs ((fun x => answer_bytes (wk_answer x)) <$> xs) (moved m3 (slaves m3) (iSlave m3) (S (clock m3))) H3) as (k3 & Hc).
  { apply Forall_fmap, Forall_true. intros x. cbn. by destruct (wk_answer x). }
  { destruct Hdis as (x & y & Hx & Hy & Hne). exists (answer_bytes (wk_answer x)), (answer_bytes (wk_answer y)).
    split; [apply list_elem_of_fmap; by exists x|]. split; [apply list_elem_of_fmap; by exists y|done]. }
  set (m4 := set_readOnly true _) in Hc. set (m5 := moved m4 (slaves m4) (iSlave m4) (S (clock m4))).
  destruct (undo_run m5) as (k5 & Hu); [cbn; by rewrite !length_fmap|].
  eexists. split; [apply Hst|].
  - unfold send_out. erewrite bind_ret; [|unfold threw; rewrite Hd; reflexivity]. cbn iota. unfold collect.
    rewrite (bind_ret _ _ _ _ _ Hg). unfold check_error1 at 1. erewrite bind_ret; [|by apply is_halting_run]. cbn iota.
    change (negb (ERR_OK =? 0)) with false. cbn iota. rewrite (bind_ret _ _ _ _ _ Hc). rewrite Hnp.
    unfold check_error1. erewrite bind_ret; [|by apply is_halting_run]. cbn iota.
    change (negb (ERR_SLAVE_INCONSISTENCY =? 0)) with true. cbn iota. fold m5. rewrite (bind_ret _ _ _ _ _ Hu).
    erewrite bind_ret; reflexivity.
  - split; [done|]. split; [done|]. split; [done|].
    change (Forall2 (fun x l => idle (wk_undone x) l) xs (deliver_ (put8 BRM_UNDO) <$> (heard <$> slaves m2))).
    by eapply undo_each.
Qed.

(** A controller that is read-only answers so, and no worker hears of the command. *)
Lemma read_only_run fuel msg m :
  readOnly m = true → halting m = false → slaveLock m = false → msg ≠ [] →
  ∃ k, worker_command W can_open order refused halts resumes (S fuel) msg m =
    (Ret (put8 ERR_READONLY), moved m (slaves m) (iSlave m) k).
Proof.
  intros Hro Hh Hlk Hne. exists (S (clock m)). unfold worker_command. destruct msg as [|b msg]; [done|].
  erewrite bind_ret; [|reflexivity]. cbn [retry_cmd]. erewrite bind_ret; cycle 1.
  { unfold attempt. erewrite bind_ret; cycle 1.
    { unfold wait_halting. erewrite bind_ret; [|by apply is_halting_run]. cbn iota. unfold lock. cbn. rewrite Hlk. reflexivity. }
    erewrite bind_ret; [|reflexivity]. unfold id. cbn. rewrite Hro. reflexivity. }
  unfold mret, M_ret. f_equal. unfold moved. cbn. by rewrite Hlk.
Qed.
End Network.
