(* ===== verification/MasterServers.v ===== *)
(** * The controller's own servers ([masterdbrmnode.cpp])

    Sessions, OIDs, table locks and sequences live in the controller: each handler
    reads its message, calls the server and writes the reply; what the server throws
    becomes [ERR_FAILURE].  [msgProcessor] tells these commands from those of the
    workers.  The write of the reply to the client's socket is left out. *)

From S2P Require Import Prelude BinFile ByteStream Undo Table Vbbm Vss CopyLocks SlaveNode ColType ExtentMap EmFile NodeEm Wire SlaveComm SlaveServe ResourceGraph Session OidServer TableLock AutoInc MasterNode.

Abbreviation C := (M MasterDBRMNode).

(** ** The servers in the controller *)

Definition set_sm (s : SessionManagerServer) (m : MasterDBRMNode) : MasterDBRMNode :=
  mkMaster (slaves m) (iSlave m) (readOnly m) (halting m) (slaveLock m) s (oids m) (tableLocks m) (tableLockFile m) (aiManager m) (rg m) (clock m).
Definition set_ai (a : AutoincrementManager) (m : MasterDBRMNode) : MasterDBRMNode :=
  mkMaster (slaves m) (iSlave m) (readOnly m) (halting m) (slaveLock m) (sm m) (oids m) (tableLocks m) (tableLockFile m) a (rg m) (clock m).

(** [tableLockServer] shares the session manager with the controller. *)
Definition tableLockServer (m : MasterDBRMNode) : TableLockServer := mkTLS (tableLocks m) (tableLockFile m) (sm m).
Definition set_tls (t : TableLockServer) (m : MasterDBRMNode) : MasterDBRMNode :=
  mkMaster (slaves m) (iSlave m) (readOnly m) (halting m) (slaveLock m) (tl_sms t) (oids m) (tl_locks t) (tl_file t) (aiManager m) (rg m) (clock m).

Definition on_sm {A} : M SessionManagerServer A → C A := zoom sm set_sm.
Definition on_locks {A} : M TableLockServer A → C A := zoom tableLockServer set_tls.
Definition on_ai {A} : M AutoincrementManager A → C A := zoom aiManager set_ai.

(** [try { ... } catch (exception&) { reply << ERR_FAILURE }] *)
Definition or_failure (body : C (list Z)) : C (list Z) := catch body (fun _ => mret (put8 ERR_FAILURE)).

(** [msg >> cmd >> ...], and the same with [idbassert(msg.length() == 0)]. *)
Definition from_msg {A} (get : Get A) (msg : list Z) : C A := lift ((get8 ≫= fun _ => get) msg).1.
Definition from_whole {A} (get : Get A) (msg : list Z) : C A :=
  match (get8 ≫= fun _ => get) msg with
  | (Ret a, []) => mret a
  | (Ret _, _) => throw AssertFailure
  | (Exn e, _) => throw e
  end.

Definition get_pair {A B} (ga : Get A) (gb : Get B) : Get (A * B) := a ← ga; b ← gb; mret (a, b).

Section Servers.
Variable W : World.
Variable can_open : bool.
Variable order : gset rgid → list rgid.
Variable refused : nat → bool.
Variable halts : nat → bool.
Variable resumes : nat → bool.
(** What the file system makes of a write, whether the holder of the lock of a
    sequence lets go in time, and what was in a variable that nothing was assigned
    to; each at the tick of the clock. *)
Variable disk : nat → io.
Variable freed : nat → bool.
Variable junk : nat → Z.

Definition next_io : C io := t ← tick; mret (disk t).

(** ** Sessions *)

(** [MasterDBRMNode::doVerID], [MasterDBRMNode::doSysCatVerID] *)
Definition doVerID : C (list Z) := m ← gets id; mret (put8 ERR_OK ++ put_context (server_verID (sm m))).
Definition doSysCatVerID : C (list Z) := m ← gets id; mret (put8 ERR_OK ++ put_context (sysCatVerID (sm m))).

(** [MasterDBRMNode::doNewTxnID]; no reply while the thread waits for a slot, and
    the rest of it when it is woken. *)
Definition txn_bytes (t : TxnID) : list Z := put32 (txn_id t) ++ put8 (put_bool (txn_valid t)).
Definition new_txn_reply (r : newTxn) : option (list Z) :=
  match r with Txn t => Some (put8 ERR_OK ++ txn_bytes t) | Waiting => None end.
Definition get_new_txn : Get (Z * bool * bool) :=
  session ← get32;
  block ← get8;
  isDDL ← get8;
  mret (session, get_bool block, get_bool isDDL).
Definition doNewTxnID (msg : list Z) : C (option (list Z)) :=
  catch (
    '(session, block, isDDL) ← from_msg get_new_txn msg;
    w ← next_io;
    r ← on_sm (newTxnID w session block isDDL);
    mret (new_txn_reply r))
  (fun _ => mret (Some (put8 ERR_FAILURE))).
Definition doNewTxnID_woken (session : Z) (isDDL : bool) : C (option (list Z)) :=
  catch (
    w ← next_io;
    r ← on_sm (newTxnID_wait w session isDDL);
    mret (new_txn_reply r))
  (fun _ => mret (Some (put8 ERR_FAILURE))).

(** [MasterDBRMNode::doCommitted], [MasterDBRMNode::doRolledBack]:
    [SessionManagerServer::committed] and [rolledback] are the same. *)
Definition get_txnid : Get TxnID := id ← get32; valid ← get8; mret (mkTxn (i32 id) (get_bool valid)).
Definition doCommitted (msg : list Z) : C (list Z) :=
  or_failure (
    txnid ← from_msg get_txnid msg;
    on_sm (finishTransaction txnid) ≫= fun _ =>
    mret (put8 ERR_OK)).
Definition doRolledBack (msg : list Z) : C (list Z) :=
  or_failure (
    txnid ← from_msg get_txnid msg;
    on_sm (finishTransaction txnid) ≫= fun _ =>
    mret (put8 ERR_OK)).

(** [MasterDBRMNode::doGetTxnID], [MasterDBRMNode::doSIDTIDMap] *)
Definition doGetTxnID (msg : list Z) : C (list Z) :=
  or_failure (
    sid ← from_msg get32 msg;
    m ← gets id;
    mret (put8 ERR_OK ++ txn_bytes (getTxnID sid (sm m)))).
Definition sidtid_bytes (e : Z * TxnID) : list Z := txn_bytes e.2 ++ put32 e.1.
Definition doSIDTIDMap : C (list Z) :=
  m ← gets id;
  let entries := SIDTIDMap (sm m) in
  mret (put8 ERR_OK ++ put32 (zlength entries) ++ (entries ≫= sidtid_bytes)).

(** [MasterDBRMNode::doGetUniqueUint32], [MasterDBRMNode::doGetUniqueUint64] *)
Definition doGetUniqueUint32 : C (list Z) := or_failure (ret ← on_sm getUnique32; mret (put8 ERR_OK ++ put32 ret)).
Definition doGetUniqueUint64 : C (list Z) := or_failure (ret ← on_sm getUnique64; mret (put8 ERR_OK ++ put64 ret)).

(** [MasterDBRMNode::doGetSystemState], [MasterDBRMNode::doSetSystemState],
    [MasterDBRMNode::doClearSystemState], [MasterDBRMNode::doSessionManagerReset] *)
Definition doGetSystemState : C (list Z) := m ← gets id; mret (put8 ERR_OK ++ put32 (systemState (sm m))).
Definition doSetSystemState (msg : list Z) : C (list Z) :=
  or_failure (
    ss ← from_msg get32 msg;
    w ← next_io;
    on_sm (setSystemState w ss) ≫= fun _ =>
    mret (put8 ERR_OK)).
Definition doClearSystemState (msg : list Z) : C (list Z) :=
  or_failure (
    ss ← from_msg get32 msg;
    w ← next_io;
    on_sm (clearSystemState w ss) ≫= fun _ =>
    mret (put8 ERR_OK)).
Definition doSessionManagerReset : C (list Z) := or_failure (on_sm sm_reset ≫= fun _ => mret (put8 ERR_OK)).

(** ** OIDs *)

(** [MasterDBRMNode::doAllocOIDs], [MasterDBRMNode::doReturnOIDs],
    [MasterDBRMNode::doOidmSize] *)
Definition doAllocOIDs (msg : list Z) : C (list Z) :=
  or_failure (
    num ← from_msg get_oid msg;
    ret ← on_oids (allocOIDs num);
    mret (put8 ERR_OK ++ put32 ret)).
Definition doReturnOIDs (msg : list Z) : C (list Z) :=
  or_failure (
    '(start, end_) ← from_msg (get_pair get_oid get_oid) msg;
    on_oids (returnOIDs start end_) ≫= fun _ =>
    mret (put8 ERR_OK)).
Definition doOidmSize : C (list Z) := or_failure (ret ← on_oids oid_size; mret (put8 ERR_OK ++ put32 ret)).

(** [MasterDBRMNode::doAllocVBOID], [MasterDBRMNode::doGetDBRootOfVBOID],
    [MasterDBRMNode::doGetVBOIDToDBRootMap] *)
Definition doAllocVBOID (msg : list Z) : C (list Z) :=
  or_failure (
    dbroot ← from_msg get32 msg;
    ret ← on_oids (allocVBOID (u16 dbroot));
    mret (put8 ERR_OK ++ put32 ret)).
Definition doGetDBRootOfVBOID (msg : list Z) : C (list Z) :=
  or_failure (
    vbOID ← from_msg get32 msg;
    m ← gets id;
    mret (put8 ERR_OK ++ put32 (getDBRootOfVBOID vbOID (oids m)))).
Definition doGetVBOIDToDBRootMap : C (list Z) :=
  m ← gets id;
  mret (put8 ERR_OK ++ put_inline (le_bytes 2) (vbOidDBRootMap (oids m))).

(** ** Table locks *)

(** [MasterDBRMNode::doGetTableLock]: a refusal tells who has the lock. *)
Definition lock_reply (id : Z) (t : TableLockInfo) : list Z :=
  put8 ERR_OK ++ put64 id ++
  (if id =? 0 then put32 (ownerPID t) ++ put_string (ownerName t) ++ put32 (ownerSessionID t) ++ put32 (ownerTxnID t) else []).
Definition doGetTableLock (msg : list Z) : C (list Z) :=
  or_failure (
    tli ← from_whole get_tli msg;
    w ← next_io;
    '(id, tli) ← on_locks (tl_lock w tli);
    mret (lock_reply id tli)).

Definition yes_no (b : bool) : list Z := put8 ERR_OK ++ put8 (put_bool b).

(** [MasterDBRMNode::doReleaseTableLock], [MasterDBRMNode::doChangeTableLockState] *)
Definition doReleaseTableLock (msg : list Z) : C (list Z) :=
  or_failure (
    id ← from_whole get64 msg;
    w ← next_io;
    ret ← on_locks (tl_unlock w id);
    mret (yes_no ret)).
Definition doChangeTableLockState (msg : list Z) : C (list Z) :=
  or_failure (
    '(id, state) ← from_whole (get_pair get64 get32) msg;
    w ← next_io;
    ret ← on_locks (changeState w id state);
    mret (yes_no ret)).

(** The name up to the first blank. *)
Fixpoint process_name (name : list Z) : list Z :=
  match name with
  | [] => []
  | c :: name' => if c =? 32 then [] else c :: process_name name'
  end.

(** What the workers say, each in one byte. *)
Fixpoint any_exists (responses : list (list Z)) (found : bool) : outcome bool :=
  match responses with
  | [] => Ret found
  | r :: responses' =>
      if zlength r =? 1 then ret ← peek8 r; any_exists responses' (found || (ret =? 1))
      else Exn AssertFailure
  end.

(** [scoped_lock lk(slaveLock)] *)
Definition then_unlock {A} (op : C A) : C A := fun m => let '(r, m') := op m in (r, set_lock false m').
Definition with_slaves {A} (op : C A) : C A := lock ≫= fun _ => then_unlock op.

(** The workers are asked for the owner of a lock; [None] when one of them could not
    be read. *)
Definition ask_owner (t : TableLockInfo) : C (option bool) :=
  '(responses, readErrFlag) ← with_slaves (
    distribute W can_open refused halts (put8 OWNER_CHECK ++ put_string (process_name (ownerName t)) ++ put32 (ownerPID t)) ≫= fun _ =>
    gatherResponses refused halts);
  if readErrFlag : bool then mret None
  else found ← lift (any_exists responses false); mret (Some found).

(** [MasterDBRMNode::doChangeTableLockOwner] *)
Definition get_new_owner : Get (Z * list Z * Z * Z * Z) :=
  id ← get64;
  name ← get_string;
  pid ← get32;
  session ← get32;
  txn ← get32;
  mret (id, name, pid, i32 session, i32 txn).
Definition doChangeTableLockOwner (msg : list Z) : C (list Z) :=
  or_failure (
    '(id, name, pid, session, txn) ← from_whole get_new_owner msg;
    m ← gets Datatypes.id;
    match getLockInfo id (tableLockServer m) with
    | None => mret (yes_no false)
    | Some tli =>
        found ← ask_owner tli;
        match found with
        | None => mret (put8 ERR_FAILURE)
        | Some true => mret (yes_no false)
        | Some false =>
            w ← next_io;
            ret ← on_locks (changeOwner w id name pid session txn);
            mret (yes_no ret)
        end
    end).

(** [MasterDBRMNode::doOwnerCheck] *)
Definition doOwnerCheck (msg : list Z) : C (list Z) :=
  or_failure (
    id ← from_whole get64 msg;
    m ← gets Datatypes.id;
    match getLockInfo id (tableLockServer m) with
    | None => mret (yes_no false)
    | Some tli =>
        found ← ask_owner tli;
        match found with
        | None => mret (put8 ERR_FAILURE)
        | Some b => mret (yes_no b)
        end
    end).

(** [MasterDBRMNode::doGetAllTableLocks], [MasterDBRMNode::doReleaseAllTableLocks],
    [MasterDBRMNode::doGetTableLockInfo] *)
Definition doGetAllTableLocks (msg : list Z) : C (list Z) :=
  or_failure (
    from_whole (mret tt) msg ≫= fun _ =>
    m ← gets id;
    mret (put8 ERR_OK ++ put_vector put_tli (getAllLocks (tableLockServer m)))).
Definition doReleaseAllTableLocks (msg : list Z) : C (list Z) :=
  or_failure (
    from_whole (mret tt) msg ≫= fun _ =>
    w ← next_io;
    on_locks (releaseAllLocks w) ≫= fun _ =>
    mret (put8 ERR_OK)).
Definition info_reply (t : option TableLockInfo) : list Z :=
  match t with
  | Some tli => yes_no true ++ put_tli tli
  | None => yes_no false
  end.
Definition doGetTableLockInfo (msg : list Z) : C (list Z) :=
  or_failure (
    id ← from_whole get64 msg;
    m ← gets Datatypes.id;
    mret (info_reply (getLockInfo id (tableLockServer m)))).

(** ** Sequences *)

(** [MasterDBRMNode::doStartAISequence] *)
Definition get_sequence : Get (Z * Z * Z * ColDataType) :=
  oid ← get32;
  firstNum ← get64;
  colWidth ← get32;
  tmp8 ← get8;
  mret (oid, firstNum, colWidth, ctype_of tmp8).
Definition doStartAISequence (msg : list Z) : C (list Z) :=
  or_failure (
    '(oid, firstNum, colWidth, t) ← from_whole get_sequence msg;
    on_ai (startSequence oid firstNum colWidth t) ≫= fun _ =>
    mret (put8 ERR_OK)).

(** [MasterDBRMNode::doGetAIRange]: [nextVal] is sent also when nothing was assigned
    to it. *)
Definition doGetAIRange (msg : list Z) : C (list Z) :=
  or_failure (
    '(oid, count) ← from_whole (get_pair get32 get32) msg;
    t ← tick;
    ret ← on_ai (getAIRange oid count);
    mret (match ret with
          | Some nextVal => yes_no true ++ put64 nextVal
          | None => yes_no false ++ put64 (junk t)
          end)).

(** [MasterDBRMNode::doResetAISequence], [MasterDBRMNode::doGetAILock],
    [MasterDBRMNode::doReleaseAILock], [MasterDBRMNode::doDeleteAISequence] *)
Definition doResetAISequence (msg : list Z) : C (list Z) :=
  or_failure (
    '(oid, val) ← from_whole (get_pair get32 get64) msg;
    on_ai (resetSequence oid val) ≫= fun _ =>
    mret (put8 ERR_OK)).
Definition doGetAILock (msg : list Z) : C (list Z) :=
  or_failure (
    oid ← from_whole get32 msg;
    t ← tick;
    on_ai (getLock oid (freed t)) ≫= fun _ =>
    mret (put8 ERR_OK)).
Definition doReleaseAILock (msg : list Z) : C (list Z) :=
  or_failure (
    oid ← from_whole get32 msg;
    on_ai (releaseLock oid) ≫= fun _ =>
    mret (put8 ERR_OK)).
Definition doDeleteAISequence (msg : list Z) : C (list Z) :=
  or_failure (
    oid ← from_whole get32 msg;
    on_ai (deleteSequence oid) ≫= fun _ =>
    mret (put8 ERR_OK)).

(** ** Every command *)

Definition replied (op : C (list Z)) : C (option (list Z)) := r ← op; mret (Some r).

(** The [switch]es of [MasterDBRMNode::msgProcessor]; [workers] are those of the
    configuration, for [RELOAD]. *)
Definition command (workers : option (list Link)) (fuel : nat) (cmd : Z) (msg : list Z) : C (option (list Z)) :=
  if cmd =? HALT then replied doHalt
  else if cmd =? RESUME then replied doResume
  else if cmd =? RELOAD then replied (doReload W can_open refused workers)
  else if cmd =? SETREADONLY then replied (doSetReadOnly true)
  else if cmd =? SETREADWRITE then replied (doSetReadOnly false)
  else if cmd =? GETREADONLY then replied doGetReadOnly
  else if cmd =? VER_ID then replied doVerID
  else if cmd =? SYSCAT_VER_ID then replied doSysCatVerID
  else if cmd =? NEW_TXN_ID then doNewTxnID msg
  else if cmd =? COMMITTED then replied (doCommitted msg)
  else if cmd =? ROLLED_BACK then replied (doRolledBack msg)
  else if cmd =? GET_TXN_ID then replied (doGetTxnID msg)
  else if cmd =? SID_TID_MAP then replied doSIDTIDMap
  else if cmd =? GET_UNIQUE_UINT32 then replied doGetUniqueUint32
  else if cmd =? GET_UNIQUE_UINT64 then replied doGetUniqueUint64
  else if cmd =? GET_SYSTEM_STATE then replied doGetSystemState
  else if cmd =? SET_SYSTEM_STATE then replied (doSetSystemState msg)
  else if cmd =? CLEAR_SYSTEM_STATE then replied (doClearSystemState msg)
  else if cmd =? SM_RESET then replied doSessionManagerReset
  else if cmd =? GET_TABLE_LOCK then replied (doGetTableLock msg)
  else if cmd =? RELEASE_TABLE_LOCK then replied (doReleaseTableLock msg)
  else if cmd =? CHANGE_TABLE_LOCK_STATE then replied (doChangeTableLockState msg)
  else if cmd =? CHANGE_TABLE_LOCK_OWNER then replied (doChangeTableLockOwner msg)
  else if cmd =? GET_ALL_TABLE_LOCKS then replied (doGetAllTableLocks msg)
  else if cmd =? RELEASE_ALL_TABLE_LOCKS then replied (doReleaseAllTableLocks msg)
  else if cmd =? GET_TABLE_LOCK_INFO then replied (doGetTableLockInfo msg)
  else if cmd =? OWNER_CHECK then replied (doOwnerCheck msg)
  else if cmd =? ALLOC_OIDS then replied (doAllocOIDs msg)
  else if cmd =? RETURN_OIDS then replied (doReturnOIDs msg)
  else if cmd =? OIDM_SIZE then replied doOidmSize
  else if cmd =? ALLOC_VBOID then replied (doAllocVBOID msg)
  else if cmd =? GETDBROOTOFVBOID then replied (doGetDBRootOfVBOID msg)
  else if cmd =? GETVBOIDTODBROOTMAP then replied doGetVBOIDToDBRootMap
  else if cmd =? START_AI_SEQUENCE then replied (doStartAISequence msg)
  else if cmd =? GET_AI_RANGE then replied (doGetAIRange msg)
  else if cmd =? RESET_AI_SEQUENCE then replied (doResetAISequence msg)
  else if cmd =? GET_AI_LOCK then replied (doGetAILock msg)
  else if cmd =? RELEASE_AI_LOCK then replied (doReleaseAILock msg)
  else if cmd =? DELETE_AI_SEQUENCE then replied (doDeleteAISequence msg)
  else replied (worker_command W can_open order refused halts resumes fuel msg).

(** [MasterDBRMNode::msgProcessor] for one message: the reply, if there is one now. *)
Definition msgProcessor (workers : option (list Link)) (fuel : nat) (msg : list Z) : C (option (list Z)) :=
  if zlength msg =? 0 then mret None
  else cmd ← lift (peek8 msg); command workers fuel cmd msg.
End Servers.
