(* ===== verification/DbrmReads.v ===== *)
(** * The client: reads of shared memory ([dbrm.cpp])

    The calls of [DBRM] that do not go to the controller: they take the read locks of
    the tables in shared memory, call the table, release the locks, and turn an
    exception into a code.  The state of such a call is the tables and the locks its
    process holds on them.  Locks on tables other than the extent map, whose calls
    take them themselves, are counted here.

    A call with output parameters returns its code and, when it sets them, their
    values. *)

From stdpp Require Import sorting.
From S2P Require Import Prelude Undo Table Vbbm Vss CopyLocks SlaveNode ColType ExtentMap EmCp EmCreate EmDelete EmQuery EmFile NodeEm Wire.

Record Reader := mkReader {
  r_node : Node;
  r_vbbm : Z;
  r_vss : Z;
  r_cl : Z;
  r_clw : bool;
}.

(** [lock(READ)] and [release(READ)] of the three tables: [d] is 1 or -1. *)
Definition vbbm_reads (d : Z) : M Reader unit :=
  modify (fun r => mkReader (r_node r) (r_vbbm r + d) (r_vss r) (r_cl r) (r_clw r)).
Definition vss_reads (d : Z) : M Reader unit :=
  modify (fun r => mkReader (r_node r) (r_vbbm r) (r_vss r + d) (r_cl r) (r_clw r)).
Definition cl_reads (d : Z) : M Reader unit :=
  modify (fun r => mkReader (r_node r) (r_vbbm r) (r_vss r) (r_cl r + d) (r_clw r)).

Definition at_node {A} (op : M Node A) : M Reader A :=
  zoom r_node (fun n r => mkReader n (r_vbbm r) (r_vss r) (r_cl r) (r_clw r)) op.
Definition at_em {A} (op : M ExtentMap A) : M Reader A := at_node (on_em op).
Definition at_vbbm {A} (f : VBMem → outcome A) : M Reader A :=
  fun r => (f (u_mem (sn_vbbm (r_node r))), r).
Definition at_vss {A} (f : VSSMem → outcome A) : M Reader A :=
  fun r => (f (u_mem (sn_vss (r_node r))), r).
Definition at_cl {A} (f : CLMem → A) : M Reader A :=
  gets (fun r => f (u_mem (sn_copylocks (r_node r)))).

(** [lock(); locked = true; op; release();] with [if (locked) release();] in the
    handler: [op] is the only part that throws. *)
Definition under {A} (lock : Z → M Reader unit) (op : M Reader A) : M Reader A :=
  lock 1 ≫= fun _ =>
  a ← catch op (fun e => lock (-1) ≫= fun _ => throw e);
  lock (-1) ≫= fun _ => mret a.

(** [try { ...; return code; } catch (exception &e) { return err; }] *)
Definition or_code {A} (err : Z) (op : M Reader (Z * option A)) : M Reader (Z * option A) :=
  catch op (fun _ => mret (err, None)).

(** The extent map's call returns 0 with its outputs, or -1. *)
Definition em_found {A} (op : M ExtentMap (option A)) : M Reader (Z * option A) :=
  or_code (-1) (a ← at_em op; mret (match a with Some _ => 0 | None => -1 end, a)).

(** The extent map's call returns its result; an exception is [err]. *)
Definition em_call {A} (err : Z) (op : M ExtentMap A) : M Reader (Z * option A) :=
  or_code err (a ← at_em op; mret (0, Some a)).

(** ** Looking blocks up *)

(** Where a block is: in its own file, or in the version buffer. *)
Inductive Found :=
  | InFile (p : block_place)
  | InVB (oid fbo : Z).

(** [DBRM::lookupLocal(lbid, verid, vbFlag, ...)] *)
Definition dbrm_lookupLocal (lbid verid : Z) (vbFlag : bool) : M Reader (Z * option Found) :=
  or_code (-1) (
    if negb vbFlag then
      a ← at_em (lookupLocal lbid);
      mret (match a with Some p => (0, Some (InFile p)) | None => (-1, None) end)
    else
      ret ← under vbbm_reads (at_vbbm (lookup lbid verid));
      match ret with
      | Some (oid, fbo) => mret (0, Some (InVB oid fbo))
      | None =>
          tooOld ← under vss_reads (at_vss (isTooOld lbid verid));
          mret (if tooOld : bool then ERR_SNAPSHOT_TOO_OLD else -1, None)
      end).

(** [DBRM::lookupLocal(oid, ...)], [lookupLocal_DBroot], [lookupLocalStartLbid] *)
Definition dbrm_lookupLocal_file (oid part seg fbo : Z) : M Reader (Z * option Z) :=
  em_found (lookupLocal_file oid part seg fbo).
Definition dbrm_lookupLocal_DBroot (oid dbroot part seg fbo : Z) : M Reader (Z * option Z) :=
  em_found (lookupLocal_DBroot oid dbroot part seg fbo).
Definition dbrm_lookupLocalStartLbid (oid part seg fbo : Z) : M Reader (Z * option Z) :=
  em_found (lookupLocalStartLbid oid part seg fbo).

(** [DBRM::lookup(oid, ranges)] *)
Definition dbrm_lookup (oid : Z) : M Reader (Z * option (list LBIDRange)) :=
  em_call (-1) (EM_lookup_oid oid).

(** ** Versions *)

(** [struct VSSData] *)
Record VSSData := mkVD { vd_verID : Z; vd_vbFlag : bool; vd_returnCode : Z }.

Definition vd_of (r : Z * Z * bool) : VSSData := let '(rc, v, f) := r in mkVD v f rc.

(** [DBRM::vssLookup]; its catch leaves the outputs alone. *)
Definition dbrm_vssLookup (lbid : Z) (verInfo : QueryContext_vss) (txnID : Z) (vbOnly : bool)
    : M Reader (Z * option VSSData) :=
  empty ← (if vbOnly then mret false
           else
             vss_reads 1 ≫= fun _ =>
             rc ← at_vss (fun m => Ret (vss_isEmpty m));
             vss_reads (-1) ≫= fun _ => mret rc);
  if empty : bool then mret (-1, Some (mkVD 0 false (-1)))
  else
    or_code (-1) (
      vd ← under vss_reads (at_vss (vss_lookup lbid verInfo txnID vbOnly));
      mret (vd_returnCode (vd_of vd), Some (vd_of vd))).

(** The loop that looks up one block after another. *)
Fixpoint each {A} (f : Z → VSSMem → outcome A) (lbids : list Z) (m : VSSMem) : outcome (list A) :=
  match lbids with
  | [] => Ret []
  | l :: lbids' => a ← f l m; rest ← each f lbids' m; Ret (a :: rest)
  end.

(** [DBRM::bulkVSSLookup]; on an exception the list is cleared. *)
Definition dbrm_bulkVSSLookup (lbids : list Z) (verInfo : QueryContext_vss) (txnID : Z)
    : M Reader (Z * list VSSData) :=
  catch (
    out ← under vss_reads (at_vss (fun m =>
      if vss_isEmpty m then Ret ((fun _ => mkVD 0 false (-1)) <$> lbids : list VSSData)
      else l ← each (fun l => vss_lookup l verInfo txnID false) lbids m; Ret (vd_of <$> (l : list _))));
    mret (0, out : list VSSData))
    (fun _ => mret (-1, [])).

(** [DBRM::getCurrentVersion], [getHighestVerInVB], [isVersioned]: the exception is
    passed on. *)
Definition dbrm_getCurrentVersion (lbid : Z) : M Reader (Z * bool) :=
  under vss_reads (at_vss (getCurrentVersion lbid)).
Definition dbrm_getHighestVerInVB (lbid max : Z) : M Reader Z :=
  under vss_reads (at_vss (getHighestVerInVB lbid max)).
Definition dbrm_isVersioned (lbid ver : Z) : M Reader bool :=
  under vss_reads (at_vss (isVersioned lbid ver)).

(** [DBRM::bulkGetCurrentVersion]; on an exception the versions are cleared. *)
Definition dbrm_bulkGetCurrentVersion (lbids : list Z) : M Reader (Z * list (Z * bool)) :=
  catch (
    out ← under vss_reads (at_vss (each getCurrentVersion lbids));
    mret (0, out))
    (fun _ => mret (-1, [])).

(** ** Extents *)

(** [DBRM::getExtentMaxMin]: an exception is [false]. *)
Definition dbrm_getExtentMaxMin (lbid : Z) : M Reader (Z * option (Z * Z * Z)) :=
  or_code 0 (
    '(valid, max, min, seqNum) ← at_em (getMaxMin lbid);
    mret (valid, Some (max, min, seqNum))).

Definition dbrm_getLastHWM_DBroot (oid dbroot : Z) := em_call ERR_FAILURE (getLastHWM_DBroot oid dbroot).
Definition dbrm_getLocalHWM (oid part seg : Z) := em_call ERR_FAILURE (getLocalHWM oid part seg).
(** [roots] is the DBRoots of the module, which [ExtentMap] reads from the OAM. *)
Definition dbrm_getDbRootHWMInfo (roots : list Z) (oid : Z) := em_call ERR_FAILURE (getDbRootHWMInfo roots oid).
Definition dbrm_getExtentState (oid part seg : Z) := em_call ERR_FAILURE (getExtentState oid part seg).
Definition dbrm_getExtents (oid : Z) (sorted incOutOfService : bool) :=
  em_call (-1) (getExtents oid sorted incOutOfService).
Definition dbrm_getExtents_dbroot (oid dbroot : Z) := em_call (-1) (getExtents_dbroot oid dbroot).
Definition dbrm_getExtentCount_dbroot (oid dbroot : Z) (incOutOfService : bool) :=
  em_call (-1) (getExtentCount_dbroot oid dbroot incOutOfService).
Definition dbrm_getSysCatDBRoot (oid : Z) := em_call (-1) (getSysCatDBRoot oid).
Definition dbrm_getOutOfServicePartitions (oid : Z) := em_call (-1) (getOutOfServicePartitions oid).
Definition dbrm_isDBRootEmpty (dbroot : Z) := em_call ERR_FAILURE (isDBRootEmpty dbroot).

(** [DBRM::getEMFreeListEntries] *)
Definition dbrm_getEMFreeListEntries : M Reader (list InlineLBIDRange) :=
  catch (at_em getFreeListEntries) (fun _ => mret []).

(** ** Uncommitted blocks *)

(** [DBRM::getUncommittedLBIDs] *)
Definition dbrm_getUncommittedLBIDs (transID : Z) : M Reader (Z * list Z) :=
  l ← under vss_reads (at_vss (fun m => Ret (getUncommittedLBIDs transID m)));
  mret (0, l).

(** The loop of [getUncommittedExtentLBIDs] after the first block: [last] is the last
    block of the extent looked up last; [None] returns -1. *)
Fixpoint extent_starts (lbids : list Z) (last : Z) : M Reader (option (list Z)) :=
  match lbids with
  | [] => mret (Some [])
  | l :: lbids' =>
      if last <? l then
        r ← at_em (EM_lookup l);
        match r with
        | None => mret None
        | Some (first, last') => rest ← extent_starts lbids' last'; mret (cons first <$> rest)
        end
      else extent_starts lbids' last
  end.

(** [DBRM::getUncommittedExtentLBIDs]: when a block is not found, the list is the
    sorted list of blocks. *)
Definition dbrm_getUncommittedExtentLBIDs (transID : Z) : M Reader (Z * list Z) :=
  lbids ← under vss_reads (at_vss (fun m => Ret (getUncommittedLBIDs transID m)));
  match merge_sort Z.le lbids with
  | [] => mret (0, [])
  | l :: rest =>
      catch (
        r ← at_em (EM_lookup l);
        match r with
        | None => mret (-1, l :: rest)
        | Some (first, last) =>
            starts ← extent_starts rest last;
            mret (match starts with
                  | Some starts => (0, first :: starts)
                  | None => (-1, l :: rest)
                  end)
        end)
        (fun _ => mret (-1, l :: rest))
  end.

(** [lbidPruner.insert]: one block per 1024, the first that comes; the set is ordered
    by descending [lbid >> 10]. *)
Definition same_extent (l l' : Z) : bool := Z.shiftr l 10 =? Z.shiftr l' 10.
Definition prune (acc : list Z) (l : Z) : list Z :=
  if existsb (same_extent l) acc then acc else acc ++ [l].
Definition lbidPruner (lbids : list Z) : list Z := merge_sort Z.ge (foldl prune [] lbids).

Definition sorted_set (l : list Z) : list Z := merge_sort Z.le (remove_dups l).

Section Rollback.
Context {S : Type}.
(** [getDBRootOfVBOID], a call of the controller. *)
Variable getDBRootOfVBOID : Z → M S Z.

(** [vbbm->lookup] of each block, skipping those not found. *)
Fixpoint vb_oids (transID : Z) (lbids : list Z) (m : VBMem) : outcome (list Z) :=
  match lbids with
  | [] => Ret []
  | l :: lbids' =>
      r ← lookup l transID m;
      rest ← vb_oids transID lbids' m;
      Ret (match r with Some (oid, _) => oid :: rest | None => rest end)
  end.

(** The loop over the version buffer files: [None] is the return of [ERR_FAILURE]. *)
Fixpoint vb_roots (oids : list Z) (dbroots : list Z) : M S (option (list Z)) :=
  match oids with
  | [] => mret (Some dbroots)
  | oid :: oids' =>
      err ← getDBRootOfVBOID oid;
      if negb (err =? 0) then mret None else vb_roots oids' (dbroots ++ [u16 err])
  end.

(** [DBRM::getDBRootsForRollback]: the return of [ERR_FAILURE] releases nothing. *)
Definition dbrm_getDBRootsForRollback (transID : Z) : M (Reader * S) (Z * option (list Z)) :=
  let unlock := on_fst (vss_reads (-1) ≫= fun _ => vbbm_reads (-1)) in
  catch (
    on_fst (vbbm_reads 1 ≫= fun _ => vss_reads 1) ≫= fun _ =>
    roots ← catch (
      lbids ← on_fst (at_vss (fun m => Ret (getUncommittedLBIDs transID m)));
      oids ← on_fst (at_vbbm (vb_oids transID (lbidPruner lbids)));
      on_snd (vb_roots (sorted_set oids) []))
      (fun e => unlock ≫= fun _ => throw e);
    match roots with
    | None => mret (ERR_FAILURE, None)
    | Some dbroots => unlock ≫= fun _ => mret (0, Some dbroots)
    end)
    (fun _ => mret (-1, None)).
End Rollback.

(** [DBRM::getUnlockedLBIDs] *)
Definition dbrm_getUnlockedLBIDs : M Reader (Z * list (Z * Z)) :=
  l ← under vss_reads (at_vss (fun m => Ret (getUnlockedLBIDs m)));
  mret (0, l).

(** [DBRM::getCurrentTxnIDs] *)
Definition dbrm_getCurrentTxnIDs : M Reader (Z * gset Z) :=
  l ← under vss_reads (under cl_reads (
    l ← at_cl (fun m => cl_getCurrentTxnIDs m ∅);
    at_vss (fun m => Ret (vss_getCurrentTxnIDs m l))));
  mret (0, l).

(** ** Checking and saving *)

(** [DBRM::checkConsistency]: each part has its own handler. *)
Definition dbrm_checkConsistency : M Reader Z :=
  let step {A} (op : M Reader A) : M Reader bool :=
    catch (op ≫= fun _ => mret true) (fun _ => mret false) in
  ok ← step (at_em EM_checkConsistency);
  if negb ok then mret (-1)
  else
    ok ← step (under vbbm_reads (under vss_reads (fun r =>
           (vss_checkConsistency (u_mem (sn_vbbm (r_node r))) (u_mem (sn_vss (r_node r))), r))));
    if negb ok then mret (-1)
    else
      ok ← step (under vbbm_reads (at_vbbm checkConsistency));
      mret (if ok : bool then 0 else -1).

(** [DBRM::saveExtentMap] *)
Definition dbrm_saveExtentMap : M Reader (Z * option (list Z)) := em_call (-1) EM_save.

(** [DBRM::saveState]: the three files; the code of [saveExtentMap] is not used. *)
Definition dbrm_saveState : M Reader (Z * (option (list Z) * list Z * list Z)) :=
  files ← under vbbm_reads (under vss_reads (under cl_reads (
    '(_, em) ← dbrm_saveExtentMap;
    vb ← at_vbbm (fun m => Ret (vb_save m));
    vs ← at_vss (fun m => Ret (vss_save m));
    mret (em, vb, vs))));
  mret (0, files).

(** ** Locking blocks that are read ahead *)

Definition cl_write (b : bool) : M Reader unit :=
  modify (fun r => mkReader (r_node r) (r_vbbm r) (r_vss r) (r_cl r) b).
Definition at_copylocks {A} (op : M CopyLocks A) : M Reader A := at_node (on_cl op).

Definition lock_maxRetries : nat := 600.

(** [while (isLocked(range) && retries < maxRetries)]: whether the retries ran out;
    [env k] is what other processes do while the lock is released. *)
Fixpoint wait_unlocked (env : nat → Node → Node) (retries : nat) (range : LBIDRange) : M Reader bool :=
  match retries with
  | O => mret true
  | S retries' =>
      held ← at_cl (cl_isLocked range);
      if held : bool then
        cl_write false ≫= fun _ =>
        modify (fun r => mkReader (env retries' (r_node r)) (r_vbbm r) (r_vss r) (r_cl r) (r_clw r)) ≫= fun _ =>
        cl_write true ≫= fun _ =>
        wait_unlocked env retries' range
      else mret false
  end.

(** [DBRM::lockLBIDRange]; the inner handler is [if (lockedRange)]. *)
Definition dbrm_lockLBIDRange (env : nat → Node → Node) (start count : Z) : M Reader unit :=
  let range := mkRange start count in
  cl_write true ≫= fun _ =>
  catch (
    out ← wait_unlocked env lock_maxRetries range;
    (if out : bool then at_copylocks (forceRelease range) else mret tt) ≫= fun _ =>
    at_copylocks (lockRange range (-1)) ≫= fun _ =>
    catch (
      at_copylocks confirmChanges ≫= fun _ =>
      cl_write false)
      (fun e => at_copylocks (releaseRange range) ≫= fun _ => throw e))
    (fun e =>
      at_copylocks confirmChanges ≫= fun _ =>
      cl_write false ≫= fun _ => throw e).

(** [DBRM::releaseLBIDRange] *)
Definition dbrm_releaseLBIDRange (start count : Z) : M Reader unit :=
  let range := mkRange start count in
  cl_write true ≫= fun _ =>
  catch (
    at_copylocks (releaseRange range) ≫= fun _ =>
    at_copylocks confirmChanges ≫= fun _ =>
    cl_write false)
    (fun e =>
      at_copylocks confirmChanges ≫= fun _ =>
      cl_write false ≫= fun _ => throw e).

(** ** Invalidating the ranges of a transaction *)

(** The entry [invalidateUncommittedExtentLBIDs] makes for one extent; [colType] is
    the type of a column by the system catalog. *)
Definition invalid_cp (colType : Z → ColDataType) (lbid : Z) : M Reader CPInfo :=
  p ← at_em (lookupLocal lbid);
  mret (if match p with Some p => isUnsigned (colType (bp_oid p)) | None => false end
        then mkCPInfo lbid 0 (i64 max_u64) (-2)
        else mkCPInfo lbid min_i64 max_i64 (-2)).

Fixpoint invalid_cps (colType : Z → ColDataType) (lbids : list Z) : M Reader (list CPInfo) :=
  match lbids with
  | [] => mret []
  | l :: lbids' => a ← invalid_cp colType l; rest ← invalid_cps colType lbids'; mret (a :: rest)
  end.

(** [DBRM::invalidateUncommittedExtentLBIDs]; [setMaxMin] is the call
    [setExtentsMaxMin]. *)
Definition dbrm_invalidateUncommittedExtentLBIDs {S} (setMaxMin : list CPInfo → M S unit)
    (colType : Z → ColDataType) (txnid : Z) (given : option (list Z)) : M (Reader * S) unit :=
  lbids ← match given with
          | Some l => mret l
          | None => '(_, l) ← on_fst (dbrm_getUncommittedExtentLBIDs (i32 txnid)); mret l
          end;
  match lbids with
  | [] => mret tt
  | _ => cpInfos ← on_fst (invalid_cps colType lbids); on_snd (setMaxMin cpInfos)
  end.
