(* ===== verification/DbrmServers.v ===== *)
(** * The client's calls of the controller's servers ([dbrm.cpp])

    As in [DbrmClient], [S] is the state of the system that answers and [send_recv]
    carries out a message.  [CHECK_EMPTY] is empty in this build. *)

From S2P Require Import Prelude BinFile ByteStream Vbbm Vss ColType NodeEm Wire Session TableLock MasterServers DbrmClient.

Section Client.
Context {S : Type}.
Variable send_recv : list Z → M S (Z * list Z).

(** [err = send_recv(command, response)]: the response, or [None] for an error. *)
Definition exchange_msg (command : list Z) : M S (option (list Z)) :=
  '(err, response) ← send_recv command;
  mret (if err =? ERR_OK then Some response else None).

(** [if (err != ERR_OK) throw; response >> err; if (err != ERR_OK) throw;] and the
    rest of the response. *)
Definition checked {A} (command : list Z) (get : Get A) : M S A :=
  response ← exchange_msg command;
  match response with
  | None => throw RuntimeError
  | Some bs => lift ((err ← get8; if err =? ERR_OK then get else throw RuntimeError) bs).1
  end.

(** [idbassert(response.length() == 0)] *)
Definition then_end {A} (get : Get A) : Get A :=
  a ← get;
  rest ← gets id;
  if bool_decide (rest = []) then mret a else throw AssertFailure.

(** ** Sessions *)

(** [DBRM::verID], [DBRM::sysCatVerID] *)
Definition get_context_reply : Get QueryContext := get8 ≫= fun _ => get_context.
Definition context_call (command : list Z) : M S QueryContext :=
  response ← exchange_msg command;
  match response with
  | None => mret (-1, [])
  | Some bs => catch (lift (get_context_reply bs).1) (fun _ => mret (-1, []))
  end.
Definition dbrm_verID : M S QueryContext := context_call (put8 VER_ID).
Definition dbrm_sysCatVerID : M S QueryContext := context_call (put8 SYSCAT_VER_ID).

(** [DBRM::newTxnID]: an error is told by the length of the response. *)
Definition no_txn : TxnID := mkTxn 0 false.
Definition dbrm_newTxnID (session : Z) (block isDDL : bool) : M S TxnID :=
  response ← exchange_msg (put8 NEW_TXN_ID ++ put32 session ++ put8 (put_bool block) ++ put8 (put_bool isDDL));
  match response with
  | None => mret no_txn
  | Some bs => if zlength bs =? 6 then lift ((get8 ≫= fun _ => get_txnid) bs).1 else mret no_txn
  end.

(** [DBRM::getSystemState]: the flags, or [None] for -1. *)
Definition get_flags : Get (option Z) :=
  err ← get8;
  if err =? ERR_OK then flags ← get32; mret (Some flags) else mret None.
Definition dbrm_getSystemState : M S (option Z) :=
  catch (
    response ← exchange_msg (put8 GET_SYSTEM_STATE);
    match response with
    | None => mret None
    | Some bs => lift (get_flags bs).1
    end) (fun _ => mret None).

(** [DBRM::getSystemReady]: [getSystemState] returns 1 or -1, so [!getSystemState(..)]
    is never true; [uninit] was in [stateFlags]. *)
Definition dbrm_getSystemReady (uninit : Z) : M S Z :=
  flags ← dbrm_getSystemState;
  mret (Z.land (default uninit flags) SS_READY).

(** [DBRM::committed], [DBRM::rolledback]: the transaction on return; an error is only
    logged, but the read of an empty response throws. *)
Definition dbrm_committed (txnid : TxnID) : M S TxnID :=
  '(_, response) ← send_recv (put8 COMMITTED ++ put32 (txn_id txnid) ++ put8 (put_bool (txn_valid txnid)));
  lift (get8 response).1 ≫= fun _ =>
  mret (mkTxn (txn_id txnid) false).
Definition dbrm_rolledback (uninit : Z) (txnid : TxnID) : M S TxnID :=
  '(_, response) ← send_recv (put8 ROLLED_BACK ++ put32 (txn_id txnid) ++ put8 (put_bool (txn_valid txnid)));
  tmp ← lift (get8 response).1;
  (if tmp =? ERR_OK then mret tt else dbrm_getSystemReady uninit ≫= fun _ => mret tt) ≫= fun _ =>
  mret (mkTxn (txn_id txnid) false).

(** [DBRM::getTxnID] *)
Definition get_txn_reply : Get TxnID :=
  err ← get8;
  if err =? ERR_OK then get_txnid else mret no_txn.
Definition dbrm_getTxnID (session : Z) : M S TxnID :=
  response ← exchange_msg (put8 GET_TXN_ID ++ put32 session);
  match response with
  | None => mret no_txn
  | Some bs => lift (get_txn_reply bs).1
  end.

(** [DBRM::SIDTIDMap]: [None] is the null pointer. *)
Definition get_sidtid : Get (Z * TxnID) := t ← get_txnid; sid ← get32; mret (sid, t).
Definition get_sidtids : Get (option (list (Z * TxnID))) :=
  err ← get8;
  if err =? ERR_OK then
    tmp32 ← get32;
    let len := i32 tmp32 in
    if len <? 0 then throw BadAlloc
    else l ← get_count len get_sidtid; mret (Some l)
  else mret None.
Definition dbrm_SIDTIDMap : M S (option (list (Z * TxnID))) :=
  response ← exchange_msg (put8 SID_TID_MAP);
  match response with
  | None => mret None
  | Some bs => lift (get_sidtids bs).1
  end.

(** [DBRM::getUnique32], [DBRM::getUnique64] *)
Definition dbrm_getUnique32 : M S Z := checked (put8 GET_UNIQUE_UINT32) get32.
Definition dbrm_getUnique64 : M S Z := checked (put8 GET_UNIQUE_UINT64) get64.

(** [DBRM::sessionmanager_reset] *)
Definition dbrm_sessionmanager_reset : M S unit := send_recv (put8 SM_RESET) ≫= fun _ => mret tt.

(** ** The state of the system *)

(** [DBRM::setSystemState], [DBRM::clearSystemState]: 1 or -1 *)
Definition get_ok : Get Z := err ← get8; mret (if err =? ERR_OK then 1 else -1).
Definition state_call (command : list Z) : M S Z :=
  catch (
    response ← exchange_msg command;
    match response with
    | None => mret (-1)
    | Some bs => lift (get_ok bs).1
    end) (fun _ => mret (-1)).
Definition dbrm_setSystemState (stateFlags : Z) : M S Z := state_call (put8 SET_SYSTEM_STATE ++ put32 stateFlags).
Definition dbrm_clearSystemState (stateFlags : Z) : M S Z := state_call (put8 CLEAR_SYSTEM_STATE ++ put32 stateFlags).

(** [DBRM::getSystemSuspended], [DBRM::getSystemSuspendPending],
    [DBRM::getSystemShutdownPending]: the value, with the output parameters when there
    are flags. *)
Definition flag (f flags : Z) : bool := get_bool (Z.land flags f).
Definition dbrm_getSystemSuspended : M S Z :=
  flags ← dbrm_getSystemState;
  mret (match flags with None => -1 | Some f => Z.land f SS_SUSPENDED end).
Definition dbrm_getSystemSuspendPending : M S (Z * option bool) :=
  flags ← dbrm_getSystemState;
  mret (match flags with None => (-1, None) | Some f => (Z.land f SS_SUSPEND_PENDING, Some (flag SS_ROLLBACK f)) end).
Definition dbrm_getSystemShutdownPending : M S (Z * option (bool * bool)) :=
  flags ← dbrm_getSystemState;
  mret (match flags with
        | None => (-1, None)
        | Some f => (Z.land f SS_SHUTDOWN_PENDING, Some (flag SS_ROLLBACK f, flag SS_FORCE f))
        end).

(** [DBRM::setSystemReady], [DBRM::setSystemSuspended],
    [DBRM::setSystemSuspendPending], [DBRM::setSystemShutdownPending] *)
Definition dbrm_setSystemReady (bReady : bool) : M S Z :=
  if bReady then dbrm_setSystemState SS_READY else dbrm_clearSystemState SS_READY.
Definition dbrm_setSystemSuspended (bSuspended : bool) : M S Z :=
  rc ← (if bSuspended then dbrm_setSystemState SS_SUSPENDED else mret 1);
  if rc <? 0 then mret (-1)
  else
    let stateFlags := if bSuspended then 0 else SS_SUSPENDED in
    dbrm_clearSystemState (Z.lor (Z.lor stateFlags SS_SUSPEND_PENDING) SS_ROLLBACK).
Definition dbrm_setSystemSuspendPending (bPending bRollback : bool) : M S Z :=
  if bPending then
    dbrm_setSystemState (if bRollback then Z.lor SS_SUSPEND_PENDING SS_ROLLBACK else SS_SUSPEND_PENDING)
  else dbrm_clearSystemState (Z.lor SS_SUSPEND_PENDING SS_ROLLBACK).
Definition dbrm_setSystemShutdownPending (bPending bRollback bForce : bool) : M S Z :=
  if bPending then
    dbrm_setSystemState
      (if bForce then Z.lor SS_SHUTDOWN_PENDING SS_FORCE
       else if bRollback then Z.lor SS_SHUTDOWN_PENDING SS_ROLLBACK else SS_SHUTDOWN_PENDING)
  else dbrm_clearSystemState (Z.lor (Z.lor SS_SHUTDOWN_PENDING SS_ROLLBACK) SS_FORCE).

(** ** OIDs *)

(** The bodies that return -1 for every error. *)
Definition get_int : Get Z :=
  err ← get8;
  if err =? ERR_OK then get_oid else mret (-1).
Definition int_call (command : list Z) : M S Z :=
  response ← exchange_msg command;
  match response with
  | None => mret (-1)
  | Some bs => catch (lift (get_int bs).1) (fun _ => mret (-1))
  end.

(** [DBRM::allocOIDs], [DBRM::allocVBOID], [DBRM::getDBRootOfVBOID] *)
Definition dbrm_allocOIDs (num : Z) : M S Z := int_call (put8 ALLOC_OIDS ++ put32 num).
Definition dbrm_allocVBOID (dbroot : Z) : M S Z := int_call (put8 ALLOC_VBOID ++ put32 dbroot).
Definition dbrm_getDBRootOfVBOID (vbOID : Z) : M S Z := int_call (put8 GETDBROOTOFVBOID ++ put32 vbOID).

(** [DBRM::returnOIDs] *)
Definition dbrm_returnOIDs (start end_ : Z) : M S unit :=
  '(err, response) ← send_recv (put8 RETURN_OIDS ++ put32 start ++ put32 end_);
  if err =? ERR_NETWORK then throw RuntimeError
  else
    err ← catch (lift (get8 response).1) (fun _ => mret ERR_FAILURE);
    if err =? ERR_OK then mret tt else throw RuntimeError.

(** [DBRM::oidm_size] *)
Definition dbrm_oidm_size : M S Z :=
  response ← exchange_msg (put8 OIDM_SIZE);
  match response with
  | None => throw RuntimeError
  | Some bs => catch (lift (get_int bs).1) (fun _ => throw RuntimeError)
  end.

(** [DBRM::getVBOIDToDBRootMap] *)
Definition dbrm_getVBOIDToDBRootMap : M S (list Z) :=
  catch (checked (put8 GETVBOIDTODBROOTMAP) (get_inline 2 get_u)) (fun _ => throw RuntimeError).

(** ** Table locks *)

(** [DBRM::getTableLock]: the id and the owner, which a refusal replaces by the owner
    of the lock in the way.  [pmDbroots] is the configuration of the modules and
    [now] the time. *)
Definition get_lock_reply (owner : list Z * Z * Z * Z) : Get (Z * (list Z * Z * Z * Z)) :=
  ret ← get64;
  if ret =? 0 then
    pid ← get32;
    name ← get_string;
    session ← get32;
    txn ← get32;
    mret (ret, (name, pid, i32 session, i32 txn))
  else mret (ret, owner).
Definition lock_request (pmDbroots : Z → list Z) (now : Z) (pmList : list Z) (oid : Z) (name : list Z) (pid session txn state : Z)
    : TableLockInfo :=
  mkTLI 0 oid name pid session txn state now (pmList ≫= pmDbroots).
Definition dbrm_getTableLock (pmDbroots : Z → list Z) (now : Z) (pmList : list Z) (oid : Z) (name : list Z)
    (pid session txn state : Z) : M S (Z * (list Z * Z * Z * Z)) :=
  checked (put8 GET_TABLE_LOCK ++ put_tli (lock_request pmDbroots now pmList oid name pid session txn state))
    (then_end (get_lock_reply (name, pid, session, txn))).

(** [DBRM::releaseTableLock], [DBRM::changeState], [DBRM::changeOwner],
    [DBRM::checkOwner] *)
Definition get_yes_no : Get bool := err ← get8; mret (get_bool err).
Definition dbrm_releaseTableLock (id : Z) : M S bool := checked (put8 RELEASE_TABLE_LOCK ++ put64 id) (then_end get_yes_no).
Definition dbrm_changeState (id state : Z) : M S bool :=
  checked (put8 CHANGE_TABLE_LOCK_STATE ++ put64 id ++ put32 state) (then_end get_yes_no).
Definition dbrm_changeOwner (id : Z) (name : list Z) (pid session txn : Z) : M S bool :=
  checked (put8 CHANGE_TABLE_LOCK_OWNER ++ put64 id ++ put_string name ++ put32 pid ++ put32 session ++ put32 txn)
    (then_end get_yes_no).
Definition dbrm_checkOwner (id : Z) : M S bool := checked (put8 OWNER_CHECK ++ put64 id) (then_end get_yes_no).

(** [DBRM::getAllTableLocks], [DBRM::releaseAllTableLocks], [DBRM::getTableLockInfo] *)
Definition dbrm_getAllTableLocks : M S (list TableLockInfo) := checked (put8 GET_ALL_TABLE_LOCKS) (then_end (get_vector get_tli)).
Definition get_done : Get unit :=
  err ← get8;
  rest ← gets id;
  if negb (bool_decide (rest = [])) then throw AssertFailure
  else if err =? ERR_OK then mret tt else throw RuntimeError.
Definition done_call (command : list Z) : M S unit :=
  response ← exchange_msg command;
  match response with
  | None => throw RuntimeError
  | Some bs => lift (get_done bs).1
  end.
Definition dbrm_releaseAllTableLocks : M S unit := done_call (put8 RELEASE_ALL_TABLE_LOCKS).
Definition get_lock_info : Get (option TableLockInfo) :=
  err ← get8;
  if get_bool err then t ← get_tli; mret (Some t) else mret None.
Definition dbrm_getTableLockInfo (id : Z) : M S (option TableLockInfo) :=
  checked (put8 GET_TABLE_LOCK_INFO ++ put64 id) get_lock_info.

(** ** Sequences *)

(** [DBRM::startAISequence], [DBRM::resetAISequence], [DBRM::getAILock],
    [DBRM::releaseAILock] *)
Definition dbrm_startAISequence (oid firstNum colWidth : Z) (t : ColDataType) : M S unit :=
  done_call (put8 START_AI_SEQUENCE ++ put32 oid ++ put64 firstNum ++ put32 colWidth ++ put8 (ctype_code t)).
Definition dbrm_resetAISequence (oid value : Z) : M S unit := done_call (put8 RESET_AI_SEQUENCE ++ put32 oid ++ put64 value).
Definition dbrm_getAILock (oid : Z) : M S unit := done_call (put8 GET_AI_LOCK ++ put32 oid).
Definition dbrm_releaseAILock (oid : Z) : M S unit := done_call (put8 RELEASE_AI_LOCK ++ put32 oid).

(** [DBRM::getAIRange], [DBRM::getAIValue]: [None] is [false]. *)
Definition get_range_reply : Get (option Z) :=
  err ← get8;
  if err =? 0 then mret None else firstNum ← then_end get64; mret (Some firstNum).
Definition dbrm_getAIRange (oid count : Z) : M S (option Z) :=
  checked (put8 GET_AI_RANGE ++ put32 oid ++ put32 count) get_range_reply.
Definition dbrm_getAIValue (oid : Z) : M S (option Z) := dbrm_getAIRange oid 0.
End Client.
