(* ===== verification/ServerCalls.v ===== *)
(** * The client's calls of the controller's servers, carried out

    [Call A] is a call of [DBRM] with its arguments that returns an [A].  [client_of]
    builds its message and reads the answer; [server_of] is what the server does,
    with no message between.  The two agree, errors included. *)

From S2P Require Import Prelude BinFile ByteStream StdMap Undo Table Vbbm Vss CopyLocks SlaveNode ColType ExtentMap EmFile NodeEm Wire SlaveComm SlaveServe ResourceGraph Session OidServer TableLock AutoInc MasterNode MasterServers DbrmClient ClientWorker DbrmServers.

Definition Owner : Type := list Z * Z * Z * Z.

Inductive Call : Type → Type :=
  | VerID : Call QueryContext
  | SysCatVerID : Call QueryContext
  | NewTxnID (session : Z) (block isDDL : bool) : Call TxnID
  | Committed (t : TxnID) : Call TxnID
  | RolledBack (t : TxnID) : Call TxnID
  | GetTxnID (session : Z) : Call TxnID
  | SidTidMap : Call (option (list (Z * TxnID)))
  | Unique32 : Call Z
  | Unique64 : Call Z
  | ResetSessions : Call unit
  | GetState : Call (option Z)
  | SetState (flags : Z) : Call Z
  | ClearState (flags : Z) : Call Z
  | AllocOIDs (num : Z) : Call Z
  | ReturnOIDs (start end_ : Z) : Call unit
  | OidmSize : Call Z
  | AllocVBOID (dbroot : Z) : Call Z
  | DBRootOfVBOID (vbOID : Z) : Call Z
  | VBOIDMap : Call (list Z)
  | LockTable (pmDbroots : Z → list Z) (now : Z) (pmList : list Z) (oid : Z) (o : Owner) (state : Z) : Call (Z * Owner)
  | UnlockTable (id : Z) : Call bool
  | ChangeState (id state : Z) : Call bool
  | ChangeOwner (id : Z) (name : list Z) (pid session txn : Z) : Call bool
  | CheckOwner (id : Z) : Call bool
  | AllLocks : Call (list TableLockInfo)
  | UnlockAll : Call unit
  | LockInfo (id : Z) : Call (option TableLockInfo)
  | StartSequence (oid firstNum colWidth : Z) (t : ColDataType) : Call unit
  | NextRange (oid count : Z) : Call (option Z)
  | ResetSequence (oid value : Z) : Call unit
  | LockSequence (oid : Z) : Call unit
  | UnlockSequence (oid : Z) : Call unit
  | DeleteSequence (oid : Z) : Call unit.

Definition client_of {S} (send_recv : list Z → M S (Z * list Z)) (uninit : Z) {A} (q : Call A) : M S A :=
  match q in Call A return M S A with
  | VerID => dbrm_verID send_recv
  | SysCatVerID => dbrm_sysCatVerID send_recv
  | NewTxnID s b d => dbrm_newTxnID send_recv s b d
  | Committed t => dbrm_committed send_recv t
  | RolledBack t => dbrm_rolledback send_recv uninit t
  | GetTxnID s => dbrm_getTxnID send_recv s
  | SidTidMap => dbrm_SIDTIDMap send_recv
  | Unique32 => dbrm_getUnique32 send_recv
  | Unique64 => dbrm_getUnique64 send_recv
  | ResetSessions => dbrm_sessionmanager_reset send_recv
  | GetState => dbrm_getSystemState send_recv
  | SetState f => dbrm_setSystemState send_recv f
  | ClearState f => dbrm_clearSystemState send_recv f
  | AllocOIDs n => dbrm_allocOIDs send_recv n
  | ReturnOIDs s e => dbrm_returnOIDs send_recv s e
  | OidmSize => dbrm_oidm_size send_recv
  | AllocVBOID d => dbrm_allocVBOID send_recv d
  | DBRootOfVBOID v => dbrm_getDBRootOfVBOID send_recv v
  | VBOIDMap => dbrm_getVBOIDToDBRootMap send_recv
  | LockTable d now pms oid (name, pid, session, txn) st => dbrm_getTableLock send_recv d now pms oid name pid session txn st
  | UnlockTable id => dbrm_releaseTableLock send_recv id
  | ChangeState id s => dbrm_changeState send_recv id s
  | ChangeOwner id n p s t => dbrm_changeOwner send_recv id n p s t
  | CheckOwner id => dbrm_checkOwner send_recv id
  | AllLocks => dbrm_getAllTableLocks send_recv
  | UnlockAll => dbrm_releaseAllTableLocks send_recv
  | LockInfo id => dbrm_getTableLockInfo send_recv id
  | StartSequence o f w t => dbrm_startAISequence send_recv o f w t
  | NextRange o c => dbrm_getAIRange send_recv o c
  | ResetSequence o v => dbrm_resetAISequence send_recv o v
  | LockSequence o => dbrm_getAILock send_recv o
  | UnlockSequence o => dbrm_releaseAILock send_recv o
  | DeleteSequence o => dbrm_deleteAISequence send_recv o
  end.

(** ** What the servers do *)

Definition owner_of (t : TableLockInfo) : Owner := (ownerName t, ownerPID t, ownerSessionID t, ownerTxnID t).
Definition wanted (pmDbroots : Z → list Z) (now : Z) (pmList : list Z) (oid : Z) (o : Owner) (state : Z) : TableLockInfo :=
  let '(name, pid, session, txn) := o in lock_request pmDbroots now pmList oid name pid session txn state.

Section Op.
Variable W : World.
Variable can_open : bool.
Variable refused : nat → bool.
Variable halts : nat → bool.
Variable disk : nat → io.
Variable freed : nat → bool.

(** The owner of a lock, looked for by the workers: [None] for a lock that is not
    there. *)
Definition owner_lives (id : Z) : C (option bool) :=
  m ← gets Datatypes.id;
  match getLockInfo id (tableLockServer m) with
  | None => mret None
  | Some t =>
      found ← ask_owner W can_open refused halts t;
      match found with Some b => mret (Some b) | None => throw RuntimeError end
  end.

(** A call of [newTxnID] that waits has no result. *)
Definition server_of {A} (q : Call A) : C A :=
  match q in Call A return C A with
  | VerID => m ← gets id; mret (server_verID (sm m))
  | SysCatVerID => m ← gets id; mret (sysCatVerID (sm m))
  | NewTxnID s b d =>
      w ← next_io disk;
      r ← on_sm (newTxnID w s b d);
      match r with Txn t => mret t | Waiting => throw OutOfFuel end
  | Committed t | RolledBack t => on_sm (finishTransaction t)
  | GetTxnID s => m ← gets id; mret (getTxnID s (sm m))
  | SidTidMap => m ← gets id; mret (Some (SIDTIDMap (sm m)))
  | Unique32 => on_sm getUnique32
  | Unique64 => on_sm getUnique64
  | ResetSessions => on_sm sm_reset
  | GetState => m ← gets id; mret (Some (systemState (sm m)))
  | SetState f => w ← next_io disk; on_sm (setSystemState w f) ≫= fun _ => mret 1
  | ClearState f => w ← next_io disk; on_sm (clearSystemState w f) ≫= fun _ => mret 1
  | AllocOIDs n => on_oids (allocOIDs n)
  | ReturnOIDs s e => on_oids (returnOIDs s e)
  | OidmSize => on_oids oid_size
  | AllocVBOID d => on_oids (allocVBOID (u16 d))
  | DBRootOfVBOID v => m ← gets id; mret (getDBRootOfVBOID v (oids m))
  | VBOIDMap => m ← gets id; mret (vbOidDBRootMap (oids m))
  | LockTable d now pms oid o st =>
      w ← next_io disk;
      '(id, t) ← on_locks (tl_lock w (wanted d now pms oid o st));
      mret (id, owner_of t)
  | UnlockTable id => w ← next_io disk; on_locks (tl_unlock w id)
  | ChangeState id s => w ← next_io disk; on_locks (changeState w id s)
  | ChangeOwner id n p s t =>
      lives ← owner_lives id;
      match lives with
      | Some false => w ← next_io disk; on_locks (changeOwner w id n p s t)
      | _ => mret false
      end
  | CheckOwner id => lives ← owner_lives id; mret (default false lives)
  | AllLocks => m ← gets id; mret (getAllLocks (tableLockServer m))
  | UnlockAll => w ← next_io disk; on_locks (releaseAllLocks w)
  | LockInfo id => m ← gets Datatypes.id; mret (getLockInfo id (tableLockServer m))
  | StartSequence o f w t => on_ai (startSequence o f w t)
  | NextRange o c => tick ≫= fun _ => on_ai (getAIRange o c)
  | ResetSequence o v => on_ai (resetSequence o v)
  | LockSequence o => t ← tick; on_ai (getLock o (freed t)) ≫= fun _ => mret tt
  | UnlockSequence o => on_ai (releaseLock o)
  | DeleteSequence o => on_ai (deleteSequence o)
  end.
End Op.

(** What the caller gets when the server throws: [committed] and [rolledback] only log
    it, and [sessionmanager_reset] does not look at the response. *)
Definition failure_of {A} (q : Call A) : outcome A :=
  match q in Call A return outcome A with
  | VerID | SysCatVerID => Ret (-1, [])
  | NewTxnID _ _ _ | GetTxnID _ => Ret no_txn
  | Committed t | RolledBack t => Ret (mkTxn (txn_id t) false)
  | SidTidMap | GetState => Ret None
  | ResetSessions => Ret tt
  | SetState _ | ClearState _ | AllocOIDs _ | OidmSize | AllocVBOID _ | DBRootOfVBOID _ => Ret (-1)
  | Unique32 | Unique64 => Exn RuntimeError
  | ReturnOIDs _ _ | UnlockAll => Exn RuntimeError
  | VBOIDMap => Exn RuntimeError
  | LockTable _ _ _ _ _ _ => Exn RuntimeError
  | UnlockTable _ | ChangeState _ _ | ChangeOwner _ _ _ _ _ | CheckOwner _ => Exn RuntimeError
  | AllLocks => Exn RuntimeError
  | LockInfo _ => Exn RuntimeError
  | NextRange _ _ => Exn RuntimeError
  | StartSequence _ _ _ _ | ResetSequence _ _ | LockSequence _ | UnlockSequence _ | DeleteSequence _ => Exn RuntimeError
  end.

(** ** The message and the reply *)

Definition message_of {A} (q : Call A) : list Z :=
  match q with
  | VerID => put8 VER_ID
  | SysCatVerID => put8 SYSCAT_VER_ID
  | NewTxnID s b d => put8 NEW_TXN_ID ++ put32 s ++ put8 (put_bool b) ++ put8 (put_bool d)
  | Committed t => put8 COMMITTED ++ put32 (txn_id t) ++ put8 (put_bool (txn_valid t))
  | RolledBack t => put8 ROLLED_BACK ++ put32 (txn_id t) ++ put8 (put_bool (txn_valid t))
  | GetTxnID s => put8 GET_TXN_ID ++ put32 s
  | SidTidMap => put8 SID_TID_MAP
  | Unique32 => put8 GET_UNIQUE_UINT32
  | Unique64 => put8 GET_UNIQUE_UINT64
  | ResetSessions => put8 SM_RESET
  | GetState => put8 GET_SYSTEM_STATE
  | SetState f => put8 SET_SYSTEM_STATE ++ put32 f
  | ClearState f => put8 CLEAR_SYSTEM_STATE ++ put32 f
  | AllocOIDs n => put8 ALLOC_OIDS ++ put32 n
  | ReturnOIDs s e => put8 RETURN_OIDS ++ put32 s ++ put32 e
  | OidmSize => put8 OIDM_SIZE
  | AllocVBOID d => put8 ALLOC_VBOID ++ put32 d
  | DBRootOfVBOID v => put8 GETDBROOTOFVBOID ++ put32 v
  | VBOIDMap => put8 GETVBOIDTODBROOTMAP
  | LockTable d now pms oid o st => put8 GET_TABLE_LOCK ++ put_tli (wanted d now pms oid o st)
  | UnlockTable id => put8 RELEASE_TABLE_LOCK ++ put64 id
  | ChangeState id s => put8 CHANGE_TABLE_LOCK_STATE ++ put64 id ++ put32 s
  | ChangeOwner id n p s t => put8 CHANGE_TABLE_LOCK_OWNER ++ put64 id ++ put_string n ++ put32 p ++ put32 s ++ put32 t
  | CheckOwner id => put8 OWNER_CHECK ++ put64 id
  | AllLocks => put8 GET_ALL_TABLE_LOCKS
  | UnlockAll => put8 RELEASE_ALL_TABLE_LOCKS
  | LockInfo id => put8 GET_TABLE_LOCK_INFO ++ put64 id
  | StartSequence o f w t => put8 START_AI_SEQUENCE ++ put32 o ++ put64 f ++ put32 w ++ put8 (ctype_code t)
  | NextRange o c => put8 GET_AI_RANGE ++ put32 o ++ put32 c
  | ResetSequence o v => put8 RESET_AI_SEQUENCE ++ put32 o ++ put64 v
  | LockSequence o => put8 GET_AI_LOCK ++ put32 o
  | UnlockSequence o => put8 RELEASE_AI_LOCK ++ put32 o
  | DeleteSequence o => put8 DELETE_AI_SEQUENCE ++ put32 o
  end.

(** Arguments of the types of the source. *)
Definition call_fits {A} (q : Call A) : Prop :=
  match q with
  | NewTxnID s _ _ | GetTxnID s => is_u 32 s
  | Committed t | RolledBack t => is_s 32 (txn_id t)
  | SetState f | ClearState f => is_u 32 f
  | AllocOIDs n => is_s 32 n
  | ReturnOIDs s e => is_s 32 s ∧ is_s 32 e
  | AllocVBOID d => is_u 32 d
  | DBRootOfVBOID v => is_u 32 v
  | LockTable d now pms oid o st => lock_fits (wanted d now pms oid o st)
  | UnlockTable id | CheckOwner id | LockInfo id => is_u 64 id
  | ChangeState id s => is_u 64 id ∧ is_u 32 s
  | ChangeOwner id n p s t => is_u 64 id ∧ is_string n ∧ is_u 32 p ∧ is_s 32 s ∧ is_s 32 t
  | StartSequence o f w _ => is_u 32 o ∧ is_u 64 f ∧ is_u 32 w
  | NextRange o c => is_u 32 o ∧ is_u 32 c
  | ResetSequence o v => is_u 32 o ∧ is_u 64 v
  | LockSequence o | UnlockSequence o | DeleteSequence o => is_u 32 o
  | _ => True
  end.

Definition owner_fits (o : Owner) : Prop := is_string o.1.1.1 ∧ is_u 32 o.1.1.2 ∧ is_s 32 o.1.2 ∧ is_s 32 o.2.

(** Results of the types of the source. *)
Definition result_fits {A} (q : Call A) : A → Prop :=
  match q in Call A return A → Prop with
  | VerID | SysCatVerID => context_fits
  | NewTxnID _ _ _ | GetTxnID _ => fun t => is_s 32 (txn_id t)
  | SidTidMap => fun l => short 31 (fun e => is_u 32 e.1 ∧ is_s 32 (txn_id e.2)) (default [] l)
  | Unique32 => is_u 32
  | Unique64 => is_u 64
  | GetState => fun f => is_u 32 (default 0 f)
  | AllocOIDs _ | OidmSize | AllocVBOID _ | DBRootOfVBOID _ => is_s 32
  | VBOIDMap => short 64 (is_u 16)
  | LockTable _ _ _ _ _ _ => fun r => is_u 64 r.1 ∧ owner_fits r.2
  | AllLocks => short 64 lock_fits
  | LockInfo _ => fun t => ∀ x, t = Some x → lock_fits x
  | NextRange _ _ => fun o => is_u 64 (default 0 o)
  | _ => fun _ => True
  end.

(** The reply; [junk] is what was in the variable of [doGetAIRange]. *)
Definition reply_of {A} (q : Call A) (junk : Z) : A → list Z :=
  match q in Call A return A → list Z with
  | VerID | SysCatVerID => fun c => put8 ERR_OK ++ put_context c
  | NewTxnID _ _ _ | GetTxnID _ => fun t => put8 ERR_OK ++ txn_bytes t
  | Committed _ | RolledBack _ => fun _ => put8 ERR_OK
  | SidTidMap => fun l => put8 ERR_OK ++ put32 (zlength (default [] l)) ++ (default [] l ≫= sidtid_bytes)
  | Unique32 | AllocOIDs _ | OidmSize | AllocVBOID _ | DBRootOfVBOID _ => fun z => put8 ERR_OK ++ put32 z
  | Unique64 => fun z => put8 ERR_OK ++ put64 z
  | GetState => fun f => put8 ERR_OK ++ put32 (default 0 f)
  | SetState _ | ClearState _ => fun _ => put8 ERR_OK
  | VBOIDMap => fun l => put8 ERR_OK ++ put_inline (le_bytes 2) l
  | LockTable _ _ _ _ _ _ => fun '(id, (name, pid, session, txn)) =>
      lock_reply id (mkTLI 0 0 name pid session txn 0 0 [])
  | UnlockTable _ | ChangeState _ _ | ChangeOwner _ _ _ _ _ | CheckOwner _ => yes_no
  | AllLocks => fun l => put8 ERR_OK ++ put_vector put_tli l
  | LockInfo _ => info_reply
  | NextRange _ _ => fun o => match o with Some z => yes_no true ++ put64 z | None => yes_no false ++ put64 junk end
  | ResetSessions | ReturnOIDs _ _ | UnlockAll | StartSequence _ _ _ _ | ResetSequence _ _ | LockSequence _
  | UnlockSequence _ | DeleteSequence _ => fun _ => put8 ERR_OK
  end.

(** ** The whole controller *)

(** All that is outside: the world of the workers and whether their journal can be
    opened, the order of the edges of the resource graph, the network, the other
    threads, the files, and the configuration [RELOAD] reads. *)
Record Outside := mkOutside {
  x_world : World;
  x_open : bool;
  x_order : gset rgid → list rgid;
  x_refused : nat → bool;
  x_halts : nat → bool;
  x_resumes : nat → bool;
  x_disk : nat → io;
  x_freed : nat → bool;
  x_junk : nat → Z;
  x_workers : option (list Link);
}.

Definition process_on (E : Outside) (fuel : nat) : list Z → C (option (list Z)) :=
  msgProcessor (x_world E) (x_open E) (x_order E) (x_refused E) (x_halts E) (x_resumes E) (x_disk E) (x_freed E) (x_junk E)
    (x_workers E) fuel.
Definition server_on (E : Outside) {A} (q : Call A) : C A :=
  server_of (x_world E) (x_open E) (x_refused E) (x_halts E) (x_disk E) (x_freed E) q.

(** [send_recv] over a connection that works: a call whose reply does not come waits
    forever. *)
Definition ask (E : Outside) (fuel : nat) (msg : list Z) : C (Z * list Z) :=
  r ← process_on E fuel msg;
  match r with Some bs => mret (ERR_OK, bs) | None => throw OutOfFuel end.

(** The network works, and nobody halts the controller. *)
Definition network_up (E : Outside) : Prop := (∀ t, x_refused E t = false) ∧ (∀ t, x_halts E t = false).
