(* ===== verification/ServerProofs.v ===== *)
(** * A call of the controller's servers, through the wire *)

From S2P Require Import Prelude BinFile ByteStream StdMap Undo Table Vbbm Vss CopyLocks SlaveNode ColType ExtentMap EmFile NodeEm Wire SlaveComm SlaveServe ResourceGraph Session OidServer TableLock AutoInc MasterNode MasterServers DbrmClient ClientWorker ClientProofs DbrmServers ServerCalls.

(** ** The controller reads what the client has sent *)

Lemma from_msg_put {A} (get : Get A) c body a rest m :
  get body = (Ret a, rest) → from_msg get (put8 c ++ body) m = (Ret a, m).
Proof. intros Hg. unfold from_msg, lift. by rewrite (get_bind _ _ _ _ _ (get8_put _ _)), Hg. Qed.

Lemma from_whole_put {A} (get : Get A) c body a m :
  get body = (Ret a, []) → from_whole get (put8 c ++ body) m = (Ret a, m).
Proof. intros Hg. unfold from_whole. by rewrite (get_bind _ _ _ _ _ (get8_put _ _)), Hg. Qed.

Lemma get32_u x tl : is_u 32 x → get32 (put32 x ++ tl) = (Ret x, tl).
Proof. intros Hx. by rewrite get32_put, u_of_u. Qed.
Lemma get64_u x tl : is_u 64 x → get64 (put64 x ++ tl) = (Ret x, tl).
Proof. intros Hx. by rewrite get64_put, u_of_u. Qed.

Lemma get_oid_put x tl : is_s 32 x → get_oid (put32 x ++ tl) = (Ret x, tl).
Proof. apply (c_law oid_codec). Qed.
Lemma get_tli_put t tl : lock_fits t → get_tli (put_tli t ++ tl) = (Ret t, tl).
Proof. apply (c_law tli_codec). Qed.

Lemma get_pair_put {A B} (ga : Get A) (gb : Get B) bs a b bs1 bs2 :
  ga bs = (Ret a, bs1) → gb bs1 = (Ret b, bs2) → get_pair ga gb bs = (Ret (a, b), bs2).
Proof. intros Ha Hb. unfold get_pair. rewrite (get_bind _ _ _ _ _ Ha). by rewrite (get_bind _ _ _ _ _ Hb). Qed.

Lemma put_bool_u8 b : u8 (put_bool b) = put_bool b.
Proof. by destruct b. Qed.

Lemma get_txnid_put t tl : is_s 32 (txn_id t) → get_txnid (txn_bytes t ++ tl) = (Ret t, tl).
Proof.
  destruct t as [i v]. intros Hi. cbn in Hi. unfold get_txnid, txn_bytes. cbn [txn_id txn_valid]. read_back.
  by rewrite s_of_u, put_bool_u8, bool_law.
Qed.

Lemma get_new_txn_put s b d tl :
  is_u 32 s → get_new_txn (put32 s ++ put8 (put_bool b) ++ put8 (put_bool d) ++ tl) = (Ret (s, b, d), tl).
Proof. intros Hs. unfold get_new_txn. read_back. by rewrite u_of_u, !put_bool_u8, !bool_law. Qed.

Lemma get_new_owner_put id n p s t tl :
  is_u 64 id → is_string n → is_u 32 p → is_s 32 s → is_s 32 t →
  get_new_owner (put64 id ++ put_string n ++ put32 p ++ put32 s ++ put32 t ++ tl) = (Ret (id, n, p, s, t), tl).
Proof.
  intros Hid Hn Hp Hs Ht. unfold get_new_owner. read_back. rewrite (get_bind _ _ _ _ _ (get_string_put n _ Hn)). read_back.
  by rewrite !s_of_u, !u_of_u.
Qed.

Lemma get_sequence_put o f w t tl :
  is_u 32 o → is_u 64 f → is_u 32 w →
  get_sequence (put32 o ++ put64 f ++ put32 w ++ put8 (ctype_code t) ++ tl) = (Ret (o, f, w, t), tl).
Proof.
  intros Ho Hf Hw. unfold get_sequence. read_back. rewrite !(u_of_u _ o), !(u_of_u _ f), !(u_of_u _ w) by done.
  rewrite u_of_u by (pose proof (ctype_range t); unfold is_u; lia). by rewrite ctype_law.
Qed.

(** What [or_failure] makes of the call of a server. *)
Definition returns {A} (r : outcome A) : Prop := match r with Ret _ => True | Exn e => is_exception e = true end.

Lemma or_failure_run {A} (op : C A) (k : A → list Z) m r m' :
  op m = (r, m') → returns r →
  or_failure (a ← op; mret (k a)) m = (Ret (match r with Ret a => k a | Exn _ => put8 ERR_FAILURE end), m').
Proof. intros Ho Hf. unfold or_failure, catch, mbind, M_bind. rewrite Ho. destruct r; [done|]. cbn in Hf. by rewrite Hf. Qed.

Section Handled.
Variable W : World.
Variable can_open : bool.
Variable order : gset rgid → list rgid.
Variable refused : nat → bool.
Variable halts : nat → bool.
Variable resumes : nat → bool.
Variable disk : nat → io.
Variable freed : nat → bool.
Variable junk : nat → Z.
Variable workers : option (list Link).
Variable fuel : nat.

Abbreviation process := (msgProcessor W can_open order refused halts resumes disk freed junk workers fuel).
Abbreviation serve_call := (server_of W can_open refused halts disk freed).

Lemma process_run c body m :
  process (put8 c ++ body) m = command W can_open order refused halts resumes disk freed junk workers fuel (u8 c) (put8 c ++ body) m.
Proof.
  unfold msgProcessor. assert (zlength (put8 c ++ body) =? 0 = false) as ->; [|unfold peek8; by rewrite get8_put].
  apply Z.eqb_neq. unfold zlength. rewrite length_app. unfold put8. rewrite length_le_bytes. lia.
Qed.

Lemma replied_run (op : C (list Z)) m r m' : op m = (Ret r, m') → replied op m = (Ret (Some r), m').
Proof. intros Ho. unfold replied. by rewrite (bind_ret _ _ _ _ _ Ho). Qed.

Lemma or_failure_bind {A} (op : C A) (k : A → C (list Z)) m a m1 :
  op m = (Ret a, m1) → or_failure (op ≫= k) m = or_failure (k a) m1.
Proof. intros Ho. unfold or_failure, catch. by rewrite (bind_ret _ _ _ _ _ Ho). Qed.

(** The rest of a handler: the call of the server and its reply. *)
Ltac by_server :=
  unfold or_failure, catch, mbind, M_bind, mret, M_ret, throw in *; cbn iota beta in *;
  repeat (case_match; simplify_eq/=); try congruence; try done.

(** A handler whose message was read by [law]. *)
Ltac head_of t := match t with ?f _ => head_of f | _ => t end.
Tactic Notation "handled_by" constr(op) uconstr(law) :=
  rewrite process_run; refine (replied_run (op _) _ _ _ _);
  let h := head_of op in unfold h;
  rewrite (or_failure_bind _ _ _ _ _ law); by_server.
Ltac no_argument := rewrite <- (app_nil_r (put8 _)), process_run.

Lemma handled A (q : Call A) m r m' :
  call_fits q → serve_call q m = (r, m') → returns r →
  process (message_of q) m =
    (Ret (Some (match r with Ret a => reply_of q (junk (clock m)) a | Exn _ => put8 ERR_FAILURE end)), m').
Proof.
  intros Hq Hs Hf. destruct q; cbn [message_of reply_of server_of call_fits] in *.
  - no_argument. injection Hs as <- <-. reflexivity.
  - no_argument. injection Hs as <- <-. reflexivity.
  - rewrite process_run.
    refine (_ : doNewTxnID disk (put8 NEW_TXN_ID ++ put32 session ++ put8 (put_bool block) ++ put8 (put_bool isDDL) ++ []) m = _).
    unfold doNewTxnID, catch.
    rewrite (bind_ret _ _ _ _ _ (from_msg_put _ _ _ _ _ m (get_new_txn_put session block isDDL [] Hq))). by_server.
  - handled_by doCommitted (from_msg_put _ _ _ _ _ m (get_txnid_put t [] Hq)).
  - handled_by doRolledBack (from_msg_put _ _ _ _ _ m (get_txnid_put t [] Hq)).
  - handled_by doGetTxnID (from_msg_put _ _ _ _ _ m (get32_u session [] Hq)).
  - no_argument. injection Hs as <- <-. reflexivity.
  - no_argument. injection Hs as <- <-. reflexivity.
  - no_argument. injection Hs as <- <-. reflexivity.
  - no_argument. injection Hs as <- <-. reflexivity.
  - no_argument. injection Hs as <- <-. reflexivity.
  - handled_by (doSetSystemState disk) (from_msg_put _ _ _ _ _ m (get32_u flags [] Hq)).
  - handled_by (doClearSystemState disk) (from_msg_put _ _ _ _ _ m (get32_u flags [] Hq)).
  - handled_by doAllocOIDs (from_msg_put _ _ _ _ _ m (get_oid_put num [] Hq)).
  - destruct Hq as [H1 H2]. rewrite process_run. refine (replied_run (doReturnOIDs _) _ _ _ _). unfold doReturnOIDs.
    rewrite (or_failure_bind _ _ _ _ _ (from_msg_put _ _ _ _ _ m (get_pair_put _ _ _ _ _ _ _ (get_oid_put start (put32 end_ ++ []) H1) (get_oid_put end_ [] H2)))).
    by injection Hs as <- <-.
  - no_argument. refine (replied_run doOidmSize _ _ _ _). unfold doOidmSize. by_server.
  - handled_by doAllocVBOID (from_msg_put _ _ _ _ _ m (get32_u dbroot [] Hq)).
  - handled_by doGetDBRootOfVBOID (from_msg_put _ _ _ _ _ m (get32_u vbOID [] Hq)).
  - no_argument. injection Hs as <- <-. reflexivity.
  - rewrite process_run. refine (replied_run (doGetTableLock disk _) _ _ _ _). unfold doGetTableLock.
    rewrite <- (app_nil_r (put_tli _)). rewrite (or_failure_bind _ _ _ _ _ (from_whole_put _ _ _ _ m (get_tli_put _ [] Hq))).
    by_server.
  - handled_by (doReleaseTableLock disk) (from_whole_put _ _ _ _ m (get64_u id [] Hq)).
  - destruct Hq as [H1 H2]. handled_by (doChangeTableLockState disk) (from_whole_put _ _ _ _ m (get_pair_put _ _ _ _ _ _ _ (get64_u id (put32 state ++ []) H1) (get32_u state [] H2))).
  - destruct Hq as (H1 & H2 & H3 & H4 & H5). rewrite process_run. refine (replied_run (doChangeTableLockOwner W can_open refused halts disk _) _ _ _ _).
    unfold doChangeTableLockOwner.
    rewrite (or_failure_bind _ _ _ _ _ (from_whole_put _ _ _ _ m (get_new_owner_put id name pid session txn [] H1 H2 H3 H4 H5))).
    unfold owner_lives in Hs. by_server.
  - rewrite process_run. refine (replied_run (doOwnerCheck W can_open refused halts _) _ _ _ _). unfold doOwnerCheck.
    rewrite (or_failure_bind _ _ _ _ _ (from_whole_put _ _ _ _ m (get64_u id [] Hq))).
    unfold owner_lives in Hs. by_server.
  - no_argument. refine (replied_run (doGetAllTableLocks _) _ _ _ _). unfold doGetAllTableLocks.
    rewrite (or_failure_bind _ _ _ _ _ (from_whole_put (mret tt) _ [] tt m eq_refl)). by_server.
  - no_argument. refine (replied_run (doReleaseAllTableLocks disk _) _ _ _ _). unfold doReleaseAllTableLocks.
    rewrite (or_failure_bind _ _ _ _ _ (from_whole_put (mret tt) _ [] tt m eq_refl)). by_server.
  - handled_by doGetTableLockInfo (from_whole_put _ _ _ _ m (get64_u id [] Hq)).
  - destruct Hq as (H1 & H2 & H3). handled_by doStartAISequence (from_whole_put _ _ _ _ m (get_sequence_put oid firstNum colWidth t [] H1 H2 H3)).
  - destruct Hq as [H1 H2]. handled_by (doGetAIRange junk) (from_whole_put _ _ _ _ m (get_pair_put _ _ _ _ _ _ _ (get32_u oid (put32 count ++ []) H1) (get32_u count [] H2))).
    match goal with Ht : tick _ = _ |- _ => by injection Ht as <- <- end.
  - destruct Hq as [H1 H2]. handled_by doResetAISequence (from_whole_put _ _ _ _ m (get_pair_put _ _ _ _ _ _ _ (get32_u oid (put64 value ++ []) H1) (get64_u value [] H2))).
  - handled_by (doGetAILock freed) (from_whole_put _ _ _ _ m (get32_u oid [] Hq)).
  - handled_by doReleaseAILock (from_whole_put _ _ _ _ m (get32_u oid [] Hq)).
  - handled_by doDeleteAISequence (from_whole_put _ _ _ _ m (get32_u oid [] Hq)). by injection Hs as <- <-.
Qed.
End Handled.

(** ** What is known of a result without looking at the state *)

Definition proper {A} (q : Call A) : A → Prop :=
  match q in Call A return A → Prop with
  | Committed t | RolledBack t => fun t' => t' = mkTxn (txn_id t) false
  | SidTidMap => fun l => is_Some l
  | GetState => fun f => is_Some f
  | SetState _ | ClearState _ => fun z => z = 1
  | LockTable _ _ _ _ o _ => fun r => r.1 ≠ 0 → r.2 = o
  | _ => fun _ => True
  end.

Lemma finishTransaction_result t s t' s' : finishTransaction t s = (Ret t', s') → t' = mkTxn (txn_id t) false.
Proof.
  unfold finishTransaction. case_match; [done|]. unfold mbind, M_bind, gets, modify, throw, mret, M_ret. cbn.
  repeat case_match; intros; by simplify_eq/=.
Qed.

Lemma tl_lock_owner w t s id t' s' : tl_lock w t s = (Ret (id, t'), s') → id ≠ 0 → owner_of t' = owner_of t.
Proof.
  unfold tl_lock, mbind, M_bind, gets, mret, M_ret. cbn. repeat case_match; intros; by simplify_eq/=.
Qed.

Lemma server_proper W can_open refused halts disk freed A (q : Call A) m a m' :
  server_of W can_open refused halts disk freed q m = (Ret a, m') → proper q a.
Proof.
  destruct q; cbn [server_of proper]; try done; intros Hs.
  - unfold on_sm, zoom in Hs. case_match. simplify_eq/=. by eapply finishTransaction_result.
  - unfold on_sm, zoom in Hs. case_match. simplify_eq/=. by eapply finishTransaction_result.
  - by injection Hs as <- <-.
  - by injection Hs as <- <-.
  - apply bind_inv in Hs as (w & m1 & _ & Hs). apply bind_inv in Hs as ([] & m2 & _ & Hs). by injection Hs as <- <-.
  - apply bind_inv in Hs as (w & m1 & _ & Hs). apply bind_inv in Hs as ([] & m2 & _ & Hs). by injection Hs as <- <-.
  - apply bind_inv in Hs as (w & m1 & _ & Hs). apply bind_inv in Hs as ([id t] & m2 & Hl & Hs). injection Hs as <- <-. cbn. intros Hid.
    unfold on_locks, zoom in Hl. case_match. simplify_eq/=. destruct o as [[[name pid] ses] txn]. by rewrite (tl_lock_owner _ _ _ _ _ _ H Hid).
Qed.

(** ** The client reads what the controller has answered *)

Lemma exchange_msg_run {S} (sr : list Z → M S (Z * list Z)) msg s r s' :
  sr msg s = (Ret (ERR_OK, r), s') → exchange_msg sr msg s = (Ret (Some r), s').
Proof. intros Hs. unfold exchange_msg. by rewrite (bind_ret _ _ _ _ _ Hs). Qed.

Lemma checked_run {S A} (sr : list Z → M S (Z * list Z)) msg (get : Get A) s bs a rest s' :
  sr msg s = (Ret (ERR_OK, put8 ERR_OK ++ bs), s') → get bs = (Ret a, rest) → checked sr msg get s = (Ret a, s').
Proof.
  intros Hs Hg. unfold checked. rewrite (bind_ret _ _ _ _ _ (exchange_msg_run _ _ _ _ _ Hs)). unfold lift.
  rewrite (get_bind _ _ _ _ _ (get8_put _ _)). change (u8 ERR_OK =? ERR_OK) with true. cbn iota. by rewrite Hg.
Qed.

Lemma checked_failed {S A} (sr : list Z → M S (Z * list Z)) msg (get : Get A) s s' :
  sr msg s = (Ret (ERR_OK, put8 ERR_FAILURE), s') → checked sr msg get s = (Exn RuntimeError, s').
Proof. intros Hs. unfold checked. by rewrite (bind_ret _ _ _ _ _ (exchange_msg_run _ _ _ _ _ Hs)). Qed.

Lemma then_end_run {A} (get : Get A) bs a : get bs = (Ret a, []) → then_end get bs = (Ret a, []).
Proof. intros Hg. unfold then_end. rewrite (get_bind _ _ _ _ _ Hg). reflexivity. Qed.

Lemma get_yes_no_put b : get_yes_no (put8 (put_bool b)) = (Ret b, []).
Proof. by destruct b. Qed.

Lemma done_run {S} (sr : list Z → M S (Z * list Z)) msg s s' :
  sr msg s = (Ret (ERR_OK, put8 ERR_OK), s') → done_call sr msg s = (Ret tt, s').
Proof. intros Hs. unfold done_call. by rewrite (bind_ret _ _ _ _ _ (exchange_msg_run _ _ _ _ _ Hs)). Qed.

Lemma done_failed {S} (sr : list Z → M S (Z * list Z)) msg s s' :
  sr msg s = (Ret (ERR_OK, put8 ERR_FAILURE), s') → done_call sr msg s = (Exn RuntimeError, s').
Proof. intros Hs. unfold done_call. by rewrite (bind_ret _ _ _ _ _ (exchange_msg_run _ _ _ _ _ Hs)). Qed.

Lemma get_sidtid_put e tl : is_u 32 e.1 ∧ is_s 32 (txn_id e.2) → get_sidtid (sidtid_bytes e ++ tl) = (Ret e, tl).
Proof.
  destruct e as [sid t]. intros [H1 H2]. cbn [fst snd] in *. unfold get_sidtid, sidtid_bytes. cbn [fst snd]. rewrite <- app_assoc.
  rewrite (get_bind _ _ _ _ _ (get_txnid_put t _ H2)). by rewrite (get_bind _ _ _ _ _ (get32_u sid tl H1)).
Qed.

Lemma get_sidtids_put l :
  short 31 (fun e => is_u 32 e.1 ∧ is_s 32 (txn_id e.2)) l →
  get_sidtids (put8 ERR_OK ++ put32 (zlength l) ++ (l ≫= sidtid_bytes)) = (Ret (Some l), []).
Proof.
  intros [Hl Hn]. pose proof (zlength_nonneg l). unfold get_sidtids. rewrite (get_bind _ _ _ _ _ (get8_put _ _)).
  change (u8 ERR_OK =? ERR_OK) with true. cbn iota. rewrite (get_bind _ _ _ _ _ (get32_put _ _)). rewrite s_of_u by lia.
  assert (zlength l <? 0 = false) as -> by lia. rewrite <- (app_nil_r (l ≫= sidtid_bytes)).
  erewrite get_bind; [reflexivity|]. rewrite (get_count_map _ _ id); [by rewrite list_fmap_id| |].
  - intros x tl Hx. rewrite Forall_forall in Hl. by apply get_sidtid_put, Hl.
  - intros [sid t]. unfold sidtid_bytes, txn_bytes. rewrite !length_app. unfold put32. rewrite length_le_bytes. cbn. lia.
Qed.

Lemma int_call_run {S} (sr : list Z → M S (Z * list Z)) msg s z s' :
  sr msg s = (Ret (ERR_OK, put8 ERR_OK ++ put32 z), s') → is_s 32 z → int_call sr msg s = (Ret z, s').
Proof.
  intros Hs Hz. unfold int_call. rewrite (bind_ret _ _ _ _ _ (exchange_msg_run _ _ _ _ _ Hs)). unfold catch, lift, get_int.
  rewrite (get_bind _ _ _ _ _ (get8_put _ _)). change (u8 ERR_OK =? ERR_OK) with true. cbn iota.
  rewrite <- (app_nil_r (put32 z)). by rewrite (get_oid_put z [] Hz).
Qed.

Lemma context_call_run {S} (sr : list Z → M S (Z * list Z)) msg s c s' :
  sr msg s = (Ret (ERR_OK, put8 ERR_OK ++ put_context c), s') → context_fits c → context_call sr msg s = (Ret c, s').
Proof.
  intros Hs Hc. unfold context_call. rewrite (bind_ret _ _ _ _ _ (exchange_msg_run _ _ _ _ _ Hs)).
  unfold catch, lift, get_context_reply. rewrite (get_bind _ _ _ _ _ (get8_put _ _)).
  rewrite <- (app_nil_r (put_context c)). by rewrite (context_law c [] Hc).
Qed.

Lemma get_lock_reply_put id (o o' : Owner) t :
  is_u 64 id → owner_fits o → owner_of t = o → (id ≠ 0 → o = o') →
  get_lock_reply o' (put64 id ++ (if id =? 0 then put32 (ownerPID t) ++ put_string (ownerName t) ++ put32 (ownerSessionID t) ++ put32 (ownerTxnID t) else [])) =
    (Ret (id, o), []).
Proof.
  intros Hid (H1 & H2 & H3 & H4) <- Ho. destruct t as [i oid name pid ses txn st time roots]. cbn in H1, H2, H3, H4.
  unfold get_lock_reply. rewrite (get_bind _ _ _ _ _ (get64_u id _ Hid)).
  case_match eqn:Hz; [|by rewrite Ho by lia]. cbn [ownerPID ownerName ownerSessionID ownerTxnID owner_of].
  rewrite (get_bind _ _ _ _ _ (get32_u pid _ H2)), (get_bind _ _ _ _ _ (get_string_put name _ H1)).
  rewrite (get_bind _ _ _ _ _ (get32_put ses _)). rewrite <- (app_nil_r (put32 txn)), (get_bind _ _ _ _ _ (get32_put txn _)).
  by rewrite !s_of_u by done.
Qed.

Section Reads.
Context {S : Type} (sr : list Z → M S (Z * list Z)) (uninit : Z).

(** The calls that look at the response themselves. *)
Ltac open_response Hs := rewrite (bind_ret _ _ _ _ _ (exchange_msg_run _ _ _ _ _ Hs)).

Lemma client_result A (q : Call A) junk a s s' :
  sr (message_of q) s = (Ret (ERR_OK, reply_of q junk a), s') → result_fits q a → proper q a →
  client_of sr uninit q s = (Ret a, s').
Proof.
  intros Hs Hf Hp. destruct q; cbn [message_of reply_of client_of result_fits proper] in *.
  - by eapply context_call_run.
  - by eapply context_call_run.
  - unfold dbrm_newTxnID. open_response Hs. change (zlength _ =? 6) with true. cbn iota. unfold lift.
    rewrite (get_bind _ _ _ _ _ (get8_put _ _)). rewrite <- (app_nil_r (txn_bytes a)). by rewrite (get_txnid_put a [] Hf).
  - subst a. unfold dbrm_committed. rewrite (bind_ret _ _ _ _ _ Hs). done.
  - subst a. unfold dbrm_rolledback. rewrite (bind_ret _ _ _ _ _ Hs). done.
  - unfold dbrm_getTxnID. open_response Hs. unfold lift, get_txn_reply. rewrite (get_bind _ _ _ _ _ (get8_put _ _)).
    change (u8 ERR_OK =? ERR_OK) with true. cbn iota. rewrite <- (app_nil_r (txn_bytes a)). by rewrite (get_txnid_put a [] Hf).
  - destruct Hp as [l ->]. unfold dbrm_SIDTIDMap. open_response Hs. unfold lift. change (default [] (Some l)) with l in *. by rewrite get_sidtids_put.
  - eapply checked_run; [exact Hs|]. rewrite <- (app_nil_r (put32 a)). by apply get32_u.
  - eapply checked_run; [exact Hs|]. rewrite <- (app_nil_r (put64 a)). by apply get64_u.
  - unfold dbrm_sessionmanager_reset. rewrite (bind_ret _ _ _ _ _ Hs). by destruct a.
  - destruct Hp as [f ->]. unfold dbrm_getSystemState, catch. open_response Hs. unfold lift, get_flags.
    rewrite (get_bind _ _ _ _ _ (get8_put _ _)). change (u8 ERR_OK =? ERR_OK) with true. cbn iota. change (default 0 (Some f)) with f in *.
    rewrite <- (app_nil_r (put32 f)). by rewrite (get_bind _ _ _ _ _ (get32_u f [] Hf)).
  - subst a. unfold dbrm_setSystemState, state_call, catch. by open_response Hs.
  - subst a. unfold dbrm_clearSystemState, state_call, catch. by open_response Hs.
  - by eapply int_call_run.
  - unfold dbrm_returnOIDs. rewrite (bind_ret _ _ _ _ _ Hs). by destruct a.
  - unfold dbrm_oidm_size. open_response Hs. unfold catch, lift, get_int. rewrite (get_bind _ _ _ _ _ (get8_put _ _)).
    change (u8 ERR_OK =? ERR_OK) with true. cbn iota. rewrite <- (app_nil_r (put32 a)). by rewrite (get_oid_put a [] Hf).
  - by eapply int_call_run.
  - by eapply int_call_run.
  - destruct Hf as [H1 H2]. unfold dbrm_getVBOIDToDBRootMap, catch. erewrite checked_run; [done|exact Hs|].
    rewrite <- (app_nil_r (put_inline _ a)). by apply (words_u_law 2 a []); [lia|..].
  - destruct a as [id o'], o as [[[name pid] ses] txn], o' as [[[name' pid'] ses'] txn'], Hf as [H1 H2]. cbn [fst snd] in *.
    eapply checked_run; [exact Hs|]. apply then_end_run.
    by apply (get_lock_reply_put id (name', pid', ses', txn') (name, pid, ses, txn) (mkTLI 0 0 name' pid' ses' txn' 0 0 [])).
  - eapply checked_run; [exact Hs|]. apply then_end_run, get_yes_no_put.
  - eapply checked_run; [exact Hs|]. apply then_end_run, get_yes_no_put.
  - eapply checked_run; [exact Hs|]. apply then_end_run, get_yes_no_put.
  - eapply checked_run; [exact Hs|]. apply then_end_run, get_yes_no_put.
  - destruct Hf as [H1 H2]. eapply checked_run; [exact Hs|]. apply then_end_run. rewrite <- (app_nil_r (put_vector _ a)).
    by apply (get_vector_put tli_codec).
  - destruct a. by apply done_run.
  - destruct a as [t|]; [|by eapply checked_run]. eapply (checked_run _ _ _ _ (put8 1 ++ put_tli t)); [exact Hs|]. unfold get_lock_info. rewrite <- (app_nil_r (put_tli t)).
    rewrite (get_bind _ _ _ _ _ (get8_put 1 _)). change (get_bool (u8 1)) with true. cbn iota.
    by rewrite (get_bind _ _ _ _ _ (get_tli_put t [] (Hf t eq_refl))).
  - destruct a. by apply done_run.
  - destruct a as [z|]; [|eapply checked_run; [exact Hs|reflexivity]]. eapply (checked_run _ _ _ _ (put8 1 ++ put64 z)); [exact Hs|]. unfold get_range_reply.
    rewrite (get_bind _ _ _ _ _ (get8_put 1 _)). change (u8 1 =? 0) with false. cbn iota.
    rewrite <- (app_nil_r (put64 z)). by rewrite (get_bind _ _ _ _ _ (then_end_run _ _ _ (get64_u z [] Hf))).
  - destruct a. by apply done_run.
  - destruct a. by apply done_run.
  - destruct a. by apply done_run.
  - unfold dbrm_deleteAISequence. rewrite (bind_ret _ _ _ _ _ Hs). by destruct a.
Qed.

Lemma get_flags_ends r : (∃ f, (get_flags r).1 = Ret f) ∨ (get_flags r).1 = Exn UnderflowError.
Proof.
  unfold get_flags, get8, get32, get_n, mbind, M_bind, mret, M_ret. case_decide; [|by right]. case_match; [|by left; eexists].
  case_decide; [left; by eexists|by right].
Qed.

(** Asking for the state changes nothing. *)
Definition quiet_state (s : S) : Prop := ∃ e r, sr (put8 GET_SYSTEM_STATE) s = (Ret (e, r), s).

Lemma getSystemReady_quiet s : quiet_state s → ∃ z, dbrm_getSystemReady sr uninit s = (Ret z, s).
Proof.
  intros (e & r & Hg). unfold dbrm_getSystemReady.
  assert (∃ f, dbrm_getSystemState sr s = (Ret f, s)) as [f Hf]; [|by rewrite (bind_ret _ _ _ _ _ Hf); eexists].
  assert (exchange_msg sr (put8 GET_SYSTEM_STATE) s = (Ret (if e =? ERR_OK then Some r else None), s)) as He
    by (unfold exchange_msg; by rewrite (bind_ret _ _ _ _ _ Hg)).
  unfold dbrm_getSystemState, catch. rewrite (bind_ret _ _ _ _ _ He). destruct (e =? ERR_OK); [|by eexists].
  unfold lift. destruct (get_flags_ends r) as [[f ->]| ->]; by eexists.
Qed.

(** The reply to a call that threw; [rolledback] asks for the state of the system. *)
Lemma client_failure A (q : Call A) s s' :
  sr (message_of q) s = (Ret (ERR_OK, put8 ERR_FAILURE), s') → quiet_state s' → client_of sr uninit q s = (failure_of q, s').
Proof.
  intros Hs Hg. destruct q; cbn [message_of client_of failure_of] in *;
    try (by apply checked_failed); try (by apply done_failed).
  - unfold dbrm_verID, context_call. by open_response Hs.
  - unfold dbrm_sysCatVerID, context_call. by open_response Hs.
  - unfold dbrm_newTxnID. by open_response Hs.
  - unfold dbrm_committed. by rewrite (bind_ret _ _ _ _ _ Hs).
  - destruct (getSystemReady_quiet s' Hg) as [z Hz]. unfold dbrm_rolledback. rewrite (bind_ret _ _ _ _ _ Hs).
    rewrite (bind_ret _ _ s' 1 s' eq_refl). change (1 =? ERR_OK) with false. cbn iota.
    rewrite (bind_ret _ _ s' tt s'); [done|]. by rewrite (bind_ret _ _ _ _ _ Hz).
  - unfold dbrm_getTxnID. by open_response Hs.
  - unfold dbrm_SIDTIDMap. by open_response Hs.
  - unfold dbrm_sessionmanager_reset. by rewrite (bind_ret _ _ _ _ _ Hs).
  - unfold dbrm_getSystemState, catch. by open_response Hs.
  - unfold dbrm_setSystemState, state_call, catch. by open_response Hs.
  - unfold dbrm_clearSystemState, state_call, catch. by open_response Hs.
  - unfold dbrm_allocOIDs, int_call. by open_response Hs.
  - unfold dbrm_returnOIDs. by rewrite (bind_ret _ _ _ _ _ Hs).
  - unfold dbrm_oidm_size. by open_response Hs.
  - unfold dbrm_allocVBOID, int_call. by open_response Hs.
  - unfold dbrm_getDBRootOfVBOID, int_call. by open_response Hs.
  - unfold dbrm_getVBOIDToDBRootMap, catch. by rewrite (checked_failed _ _ _ _ _ Hs).
  - destruct o as [[[name pid] ses] txn]. by apply checked_failed.
  - unfold dbrm_deleteAISequence. by rewrite (bind_ret _ _ _ _ _ Hs).
Qed.
End Reads.

(** ** The client and the controller together *)

Lemma ask_reply E fuel msg m bs m' : process_on E fuel msg m = (Ret (Some bs), m') → ask E fuel msg m = (Ret (ERR_OK, bs), m').
Proof. intros Hp. unfold ask. by rewrite (bind_ret _ _ _ _ _ Hp). Qed.

Lemma ask_server E fuel A (q : Call A) m r m' :
  call_fits q → server_on E q m = (r, m') → returns r →
  ask E fuel (message_of q) m =
    (Ret (ERR_OK, match r with Ret a => reply_of q (x_junk E (clock m)) a | Exn _ => put8 ERR_FAILURE end), m').
Proof. intros Hq Hs Hr. apply ask_reply. by apply handled. Qed.

Lemma ask_quiet E fuel m : quiet_state (ask E fuel) m.
Proof. eexists _, _. by apply (ask_server E fuel _ GetState m (Ret (Some (systemState (sm m)))) m). Qed.

Lemma server_call_run E fuel uninit A (q : Call A) m r m' :
  call_fits q → server_on E q m = (r, m') → returns r → (∀ a, r = Ret a → result_fits q a) →
  client_of (ask E fuel) uninit q m = (match r with Ret a => Ret a | Exn _ => failure_of q end, m').
Proof.
  intros Hq Hs Hr Hf. pose proof (ask_server E fuel A q m r m' Hq Hs Hr) as Ha. destruct r as [a|e].
  - eapply client_result; [exact Ha|by apply Hf|by eapply server_proper].
  - apply client_failure; [exact Ha|apply ask_quiet].
Qed.

(** The sequences of deleted columns go one after the other. *)
Definition without (oids : list Z) (seqs : AutoincrementManager) : AutoincrementManager :=
  foldl (fun s oid => smap_erase (u32 oid) s) seqs oids.
Definition sequences_after (q : Request) (seqs : AutoincrementManager) : AutoincrementManager :=
  match q with
  | DeleteOID oid => without [oid] seqs
  | DeleteOIDs oids => without oids seqs
  | _ => seqs
  end.

Lemma delete_sequence_run E fuel oid m :
  dbrm_deleteAISequence (ask E fuel) oid m = (Ret tt, set_ai (smap_erase (u32 oid) (aiManager m)) m).
Proof.
  assert (dbrm_deleteAISequence (ask E fuel) oid m = dbrm_deleteAISequence (ask E fuel) (u32 oid) m) as ->
    by (unfold dbrm_deleteAISequence; by rewrite (put_u 4 oid : put32 (u32 oid) = put32 oid)).
  apply (server_call_run E fuel 0 _ (DeleteSequence (u32 oid)) m (Ret tt)); [|done..]. apply Z.mod_pos_bound. lia.
Qed.

Lemma drop_sequences_run E fuel oids a m : drop_sequences (ask E fuel) oids a m = (Ret a, set_ai (without oids (aiManager m)) m).
Proof.
  unfold drop_sequences. erewrite bind_ret; [reflexivity|]. unfold catch.
  assert (forM oids (dbrm_deleteAISequence (ask E fuel)) m = (Ret tt, set_ai (without oids (aiManager m)) m)) as ->; [|done].
  revert m. induction oids as [|oid oids IH]; intros m; cbn [forM without foldl]; [by destruct m|].
  by rewrite (bind_ret _ _ _ _ _ (delete_sequence_run E fuel oid m)), IH.
Qed.

Lemma drops_run E fuel q m : drops (ask E fuel) q m (set_ai (sequences_after q (aiManager m)) m).
Proof. destruct q; cbn [drops sequences_after]; try (by destruct m); intros a; apply drop_sequences_run. Qed.

(** A command of the workers reaches them. *)
Lemma ask_worker E fuel q m r m' :
  worker_command (x_world E) (x_open E) (x_order E) (x_refused E) (x_halts E) (x_resumes E) fuel (message q) m = (Ret r, m') →
  ask E fuel (message q) m = (Ret (ERR_OK, r), m').
Proof.
  intros Hw. apply ask_reply. unfold process_on, message. rewrite process_run. apply replied_run in Hw.
  destruct q; exact Hw.
Qed.
