(* ===== verification/NodeEmProofs.v ===== *)
(** * The worker and its extent map together

    A call of the worker on the extent map always returns a code: the exceptions
    of the extent map are caught, and its invariant excludes faults.  Deleting an
    object takes its extents and the versions of their blocks away.  Saving and
    loading the three files gives the state back. *)

From S2P Require Import Prelude Undo Table Vbbm VbbmProofs Vss VssProofs VssWrite VssUndo CopyLocks SlaveNode SlaveProofs ColType ExtentMap EmCp EmCreate EmDelete EmQuery EmFile EmSpace EmFree EmInv EmKeeps EmPlace EmLayout EmRollback EmHwm EmReserve EmLoad NodeEm.

Definition node_with (n : Node) (x : ExtentMap) : Node :=
  mkNode x (sn_vbbm n) (sn_vss n) (sn_copylocks n) (locked0 n) (locked1 n) (locked2 n).

Definition node_em (n : Node) : EMMem := u_mem (sn_em n).

(** Both invariants. *)
Definition worker_inv (n : Node) : Prop := node_inv n ∧ em_inv (node_em n).

Lemma worker_with n x : worker_inv n → em_inv (u_mem x) → worker_inv (node_with n x).
Proof. intros [[? ? ? ?] _] Hx. by split. Qed.

Lemma on_em_run {A} (op : M ExtentMap A) (n : Node) r x : op (sn_em n) = (r, x) → on_em op n = (r, node_with n x).
Proof. unfold on_em, zoom. by intros ->. Qed.

(** [try { em.op(); } catch ...]: the call returns, whatever the extent map does. *)
Lemma em_answer {A B} (op : M ExtentMap A) (f : A → B) (g : exn → B) n :
  triple em_inv op (fun _ => em_inv) → worker_inv n →
  ∃ r n', catch (on_em op ≫= fun a => mret (f a)) (fun e => mret (g e)) n = (Ret r, n') ∧ worker_inv n' ∧
    n' = node_with n (op (sn_em n)).2 ∧
    match (op (sn_em n)).1 with Ret a => r = f a | Exn e => r = g e end.
Proof.
  intros Hop Hn. pose proof (Hop (sn_em n) (proj2 Hn)) as Hr.
  destruct (op (sn_em n)) as [[a|e] x] eqn:Hx; cbn [fst snd].
  - exists (f a), (node_with n x). split; [|by split; [apply worker_with|]].
    unfold catch. by rewrite (bind_ret _ _ _ _ _ (on_em_run op n _ _ Hx)).
  - destruct Hr as [He Hi]. exists (g e), (node_with n x). split; [|by split; [apply worker_with|]].
    unfold catch, mbind, M_bind. rewrite (on_em_run op n _ _ Hx), He. done.
Qed.

(** ** Every call returns a code *)

Definition em_codes : list Z :=
  [0; -1; ERR_INVALID_OP_LAST_PARTITION; ERR_PARTITION_DISABLED; ERR_NOT_EXIST_PARTITION;
   ERR_PARTITION_ENABLED; ERR_NO_PARTITION_PERFORMED].

(** The call of the worker that a message for the extent map becomes. *)
Definition code_of {A} (op : M Node (option A)) : M Node Z :=
  r ← op; mret (match r with Some _ => 0 | None => -1 end).

Definition em_op_call (cfg : EMConfig) (o : em_op) : M Node Z :=
  match o with
  | OpMarkInvalid lbids ts => sn_markExtentsInvalid lbids ts
  | OpSetMaxMin lbid mx mn seq => sn_setExtentMaxMin lbid mx mn seq
  | OpSetExtentsMaxMin cpMap => sn_setExtentsMaxMin cpMap
  | OpMergeExtentsMaxMin cpMap => sn_mergeExtentsMaxMin cpMap
  | OpCreateStripe cols dbroot part seg => code_of (sn_createStripeColumnExtents cfg cols dbroot part seg)
  | OpCreateColumn OID w dbroot t part => code_of (sn_createColumnExtent_DBroot cfg OID w dbroot t part)
  | OpCreateExact OID w dbroot part seg t => code_of (sn_createColumnExtentExactFile OID w dbroot part seg t)
  | OpCreateDict OID dbroot part seg => code_of (sn_createDictStoreExtent OID dbroot part seg)
  | OpRollbackColumn oid del dbroot part seg hwm => sn_rollbackColumnExtents_DBroot oid del dbroot part seg hwm
  | OpRollbackDict oid dbroot part segNums hwms => sn_rollbackDictStoreExtents_DBroot oid dbroot part segNums hwms
  | OpDeleteEmptyCol info => sn_deleteEmptyColExtents info
  | OpDeleteEmptyDict info => sn_deleteEmptyDictStoreExtents info
  | OpDeleteOID OID => deleteOID OID
  | OpDeleteOIDs OIDs => deleteOIDs OIDs
  | OpDeleteDBRoot dbroot => sn_deleteDBRoot dbroot
  | OpDeletePartition oids parts => sn_deletePartition oids parts
  | OpMarkPartition oids parts => sn_markPartitionForDeletion oids parts
  | OpRestorePartition oids parts => sn_restorePartition oids parts
  | OpMarkAllPartition oids => sn_markAllPartitionForDeletion oids
  | OpSetLocalHWM OID part seg hwm => sn_setLocalHWM OID part seg hwm
  | OpBulkSetHWM v => sn_bulkSetHWM v 0
  | OpBulkUpdateDBRoot args => sn_bulkUpdateDBRoot args
  | OpConfirm => sn_confirmChanges ≫= fun _ => mret 0
  end.

(** A message: a call that the extent map alone carries out, or one of those that
    have no counterpart there. *)
Inductive worker_op :=
  | EmOp (o : em_op)
  | MarkExtentInvalid (lbid : Z) (t : ColDataType)
  | BulkSetHWM (args : list BulkSetHWMArg) (transID : Z)
  | BulkSetHWMAndCP (hwmArgs : list BulkSetHWMArg) (setArgs : list CPInfo) (mergeArgs : list CPInfoMerge) (transID : Z).

Definition worker_call (cfg : EMConfig) (o : worker_op) : M Node Z :=
  match o with
  | EmOp o => em_op_call cfg o
  | MarkExtentInvalid lbid t => sn_markExtentInvalid lbid t
  | BulkSetHWM args t => sn_bulkSetHWM args t
  | BulkSetHWMAndCP hw st mg t => sn_bulkSetHWMAndCP hw st mg t
  end.

Definition call_ok (o : worker_op) : Prop := match o with EmOp o => op_ok o | _ => True end.

Lemma partition_code_in codes e :
  Forall (fun kv => kv.2 ∈ em_codes) codes → partition_code codes e ∈ em_codes.
Proof.
  intros Hc. destruct e; cbn; try (right; left). destruct (find _ _) as [kv|] eqn:Hf; [|right; left].
  apply find_some in Hf as [Hf _]. rewrite Forall_forall in Hc. by apply Hc, list_elem_of_In.
Qed.

Definition returns_code (n : Node) (p : outcome Z * Node) : Prop :=
  ∃ code n', p = (Ret code, n') ∧ worker_inv n' ∧ code ∈ em_codes.

Lemma code_returns {A} (op : M ExtentMap A) (f : A → Z) g n :
  triple em_inv op (fun _ => em_inv) → worker_inv n → (∀ a x, op (sn_em n) = (Ret a, x) → f a ∈ em_codes) → (∀ e, g e ∈ em_codes) →
  returns_code n (catch (on_em op ≫= fun a => mret (f a)) (fun e => mret (g e)) n).
Proof.
  intros Hop Hn Hf Hg. destruct (em_answer op f g n Hop Hn) as (r & n' & Hr & Hi & _ & Hc).
  exists r, n'. split; [done|]. split; [done|]. destruct (op (sn_em n)) as [[a|e] x] eqn:Hx; cbn in Hc; subst r; [by eapply Hf|done].
Qed.

Lemma out_returns {A} (op : M ExtentMap A) n :
  triple em_inv op (fun _ => em_inv) → worker_inv n → returns_code n (code_of (em_out op) n).
Proof.
  intros Hop Hn. destruct (em_answer op Some (fun _ => None) n Hop Hn) as (r & n' & Hr & Hi & _).
  unfold code_of, em_out. rewrite (bind_ret _ _ _ _ _ Hr). eexists _, n'. split; [done|]. split; [done|].
  destruct r; [left|right; left].
Qed.

(** ** Forgetting the versions of blocks *)

(** The blocks of some ranges. *)
Definition in_ranges (rs : list LBIDRange) (l : Z) : Prop := Exists (fun r => in_range r l) rs.
#[global] Instance in_ranges_dec rs l : Decision (in_ranges rs l).
Proof. unfold in_ranges. apply _. Defined.

(** A map without the blocks of [rs]. *)
Definition without {A} (rs : list LBIDRange) (m : gmap (Z * Z) A) : gmap (Z * Z) A :=
  filter (fun kv => ¬ in_ranges rs kv.1.1) m.

Lemma without_Some {A} (rs : list LBIDRange) (m : gmap (Z * Z) A) k x : without rs m !! k = Some x ↔ m !! k = Some x ∧ ¬ in_ranges rs k.1.
Proof. unfold without. by rewrite map_lookup_filter_Some. Qed.

Lemma without_nil {A} (m : gmap (Z * Z) A) : without [] m = m.
Proof. apply map_filter_id. intros k x _ H. by inversion H. Qed.

Lemma without_cons {A} (r : LBIDRange) (rs : list LBIDRange) (m : gmap (Z * Z) A) : without rs (without [r] m) = without (r :: rs) m.
Proof.
  apply map_eq. intros k. apply option_eq. intros x. rewrite !without_Some. unfold in_ranges.
  rewrite !Exists_cons, Exists_nil. tauto.
Qed.

(** The relation between the two tables is about one block at a time. *)
Lemma without_versions_ok (rs : list LBIDRange) (a : amap) (b : bmap) : versions_ok a b → versions_ok (without rs a) (without rs b).
Proof.
  intros [H1 H2 H3 H4 H5 H6 H7]. split.
  - intros l v f [Hf _]%without_Some. by apply (H1 l v f).
  - intros k. split.
    + intros [x [Hx Hn]%without_Some]. destruct (proj1 (H2 k)) as [lck Hk]; [by exists x|]. exists lck. by apply without_Some.
    + intros [lck [Hk Hn]%without_Some]. destruct (proj2 (H2 k)) as [x Hx]; [by exists lck|]. exists x. by apply without_Some.
  - intros l v f [Hf Hn]%without_Some. destruct (H3 l v f Hf) as (c & lck & Hc & Hle). exists c, lck. split; [|done]. by apply without_Some.
  - intros l v v' x y [Hx _]%without_Some [Hy _]%without_Some. by apply (H4 l v v' x y).
  - intros l v lck [Hx _]%without_Some. by apply (H5 l v lck).
  - intros k lck [Hx _]%without_Some. by apply (H6 k lck).
  - intros l v f [Hf Hn]%without_Some. destruct (H7 l v f Hf) as (v' & lck & Hv). exists v', lck. by apply without_Some.
Qed.

(** [for (it = lbids.begin(); ..) vss.removeEntriesFromDB( *it, vbbm);] *)
Lemma remove_ranges_run (rs : list LBIDRange) (n : Node) :
  Forall (fun r => 0 ≤ range_start r) rs → node_inv n →
  ∃ n' : Node, forM rs (fun r => on_vsvb (removeEntriesFromDB r true)) n = (Ret tt, n') ∧ node_inv n' ∧
    sn_em n' = sn_em n ∧ sn_copylocks n' = sn_copylocks n ∧
    node_a n' = without rs (node_a n) ∧ node_b n' = without rs (node_b n).
Proof.
  intros Hrs. revert n. induction Hrs as [|r rs Hr _ IH]; intros n Hn.
  - exists n. split; [done|]. by rewrite !without_nil.
  - destruct Hn as [Hb Hs Hc Hok].
    destruct (removeEntriesFromDB_spec r true (sn_vss n) (sn_vbbm n) Hr Hs Hb) as (s' & b' & Hrun & Hs' & Hb' & Ha & Hvb).
    set (n1 := mkNode (sn_em n) b' s' (sn_copylocks n) (locked0 n) (locked1 n) (locked2 n)).
    assert (node_a n1 = without [r] (node_a n)) as Ha1.
    { unfold node_a at 1. cbn [sn_vss n1]. rewrite Ha. apply map_filter_ext. intros k x _. cbn. unfold in_ranges.
      rewrite Exists_cons, Exists_nil. tauto. }
    assert (node_b n1 = without [r] (node_b n)) as Hb1.
    { unfold node_b at 1. cbn [sn_vbbm n1]. rewrite Hvb. apply map_filter_ext. intros k x Hx. cbn. unfold in_ranges.
      rewrite Exists_cons, Exists_nil. destruct (proj1 (vo_vb _ _ Hok k)) as [lck Hk]; [by exists x|].
      change (vss_abs (u_mem (sn_vss n))) with (node_a n). rewrite Hk. cbn. naive_solver. }
    destruct (IH n1) as (n' & Hr' & Hn' & He & Hcl & Ha' & Hb2).
    { split; [done..|]. rewrite Ha1, Hb1. by apply without_versions_ok. }
    exists n'. split; [|split; [done|]].
    + cbn [forM]. assert (on_vsvb (removeEntriesFromDB r true) n = (Ret tt, n1)) as Hone by (unfold on_vsvb, zoom; by rewrite Hrun).
      by rewrite (bind_ret _ _ _ _ _ Hone).
    + rewrite Ha', Hb2, Ha1, Hb1, !without_cons. by split_and!.
Qed.

(** ** Deleting an object *)

(** The blocks of the extents of an object that are in service. *)
Definition object_ranges (oid : Z) (m : EMMem) : list LBIDRange :=
  (fun e => mkRange (ir_start (range e)) (u32 (ir_size (range e) * 1024))) <$>
  List.filter (fun e => (fileID e =? oid) && negb (status e =? EXTENTOUTOFSERVICE)) (live m).

Lemma object_ranges_start oid m : em_inv m → Forall (fun r => 0 ≤ range_start r) (object_ranges oid m).
Proof.
  intros Hi. apply Forall_fmap, Forall_forall. intros e He. cbn.
  apply list_elem_of_In, filter_In in He as [He%list_elem_of_In _]. destruct (live_bounds (mkUndoable m []) Hi e He) as [Hz Hr].
  by destruct (space_bounds [] m (range e) (ei_space _ _ Hi)); [set_solver|..].
Qed.

Lemma em_lookup_run oid s :
  em_inv (u_mem s) →
  EM_lookup_oid oid s = (if oid <? 0 then Exn InvalidArgument else Ret (object_ranges oid (u_mem s)), s).
Proof.
  intros Hi. unfold EM_lookup_oid, nonneg_arg. destruct (oid <? 0); [done|]. rewrite mret_run.
  rewrite (reading_run (fun l => Ret ((fun e => mkRange (ir_start (range e)) (u32 (ir_size (range e) * 1024))) <$>
    List.filter (fun e => (fileID e =? oid) && em_used e && negb (status e =? EXTENTOUTOFSERVICE)) l))) by apply Hi.
  rewrite (proj1 (extents_all _ _ Hi)). unfold object_ranges, live.
  assert (∀ l, List.filter (fun e => (fileID e =? oid) && em_used e && negb (status e =? EXTENTOUTOFSERVICE)) l =
    List.filter (fun e => (fileID e =? oid) && negb (status e =? EXTENTOUTOFSERVICE)) (List.filter em_used l)) as ->; [|done].
  induction l as [|e l IH]; [done|]. cbn [List.filter]. rewrite IH.
  destruct (em_used e); cbn [List.filter]; rewrite ?andb_true_r, ?andb_false_r; done.
Qed.

Lemma sn_lookup_run oid (n : Node) :
  em_inv (node_em n) →
  sn_lookup oid n = (Ret (if oid <? 0 then None else Some (object_ranges oid (node_em n))), n).
Proof.
  intros Hi. pose proof (em_lookup_run oid (sn_em n) Hi) as Hl. unfold sn_lookup, catch.
  change em_lookup with EM_lookup_oid.
  assert (node_with n (sn_em n) = n) as Hn by by destruct n.
  destruct (oid <? 0).
  - unfold mbind, M_bind. rewrite (on_em_run _ n _ _ Hl), Hn. done.
  - rewrite (bind_ret _ _ _ _ _ (on_em_run _ n _ _ Hl)), Hn. done.
Qed.

(** With both locks taken. *)
Definition node_locked (n : Node) : Node :=
  mkNode (sn_em n) (sn_vbbm n) (sn_vss n) (sn_copylocks n) true true (locked2 n).

Lemma locked_inv n : worker_inv n → worker_inv (node_locked n).
Proof. by intros [[? ? ? ?] ?]. Qed.

(** A worker between two messages: it holds no lock, nor does its extent map. *)
Definition worker_idle (n : Node) : Prop :=
  unlocked n ∧ emLocked (node_em n) = false ∧ flLocked (node_em n) = false.

Lemma locks_run {A} n (k : M Node A) : unlocked n →
  (lock_vbbm true ≫= fun _ => lock_vss true ≫= fun _ => k) n = k (node_locked n).
Proof.
  intros (H0 & H1 & _). rewrite (bind_ret _ _ _ _ _ (lock_vbbm_run n H0)). by erewrite bind_ret by by apply lock_vss_run.
Qed.

Lemma delete_found oid m : object_ranges oid m ≠ [] → existsb (fun e => fileID e =? oid) (live m) = true.
Proof.
  unfold object_ranges. intros Hne. apply existsb_exists. destruct (List.filter _ _) as [|e l] eqn:Hf; [done|].
  assert (In e (List.filter (fun e => (fileID e =? oid) && negb (status e =? EXTENTOUTOFSERVICE)) (live m))) as He
    by (rewrite Hf; by left). apply filter_In in He as [He Hb]. exists e. split; [done|]. by apply andb_true_iff in Hb as [? _].
Qed.

Lemma deleteOID_node oid n :
  unlocked n → worker_inv n →
  let rs := object_ranges oid (node_em n) in
  ∃ n' : Node, worker_inv n' ∧
    if (oid <? 0) || bool_decide (rs = []) then
      deleteOID oid n = (Ret (-1), n') ∧ sn_em n' = sn_em n ∧ node_a n' = node_a n ∧ node_b n' = node_b n
    else
      deleteOID oid n = (Ret 0, n') ∧
      live (node_em n') = List.filter (fun e => negb (fileID e =? oid)) (live (node_em n)) ∧
      node_a n' = without rs (node_a n) ∧ node_b n' = without rs (node_b n).
Proof.
  intros Hu Hn rs. pose proof (locked_inv n Hn) as Hl. set (n1 := node_locked n) in *.
  pose proof (sn_lookup_run oid n1 (proj2 Hl)) as Hlk. change (node_em n1) with (node_em n) in Hlk. fold rs in Hlk.
  destruct (oid <? 0); cbn [orb].
  { exists n1. split; [done|]. split; [|done]. apply catch_ret. rewrite (locks_run n _ Hu). by rewrite (bind_ret _ _ _ _ _ Hlk). }
  destruct (bool_decide_reflect (rs = [])) as [Hnil|Hne].
  { exists n1. split; [done|]. split; [|done]. apply catch_ret. rewrite (locks_run n _ Hu). rewrite (bind_ret _ _ _ _ _ Hlk). by rewrite Hnil. }
  destruct (remove_ranges_run rs n1) as (n2 & Hrm & Hi2 & He2 & _ & Ha2 & Hb2);
    [by apply object_ranges_start, Hn|apply Hl|].
  destruct (deleteOID_run oid (sn_em n2)) as (x & Hdel & Hix & Hlx); [rewrite He2; apply Hn|].
  rewrite He2 in Hlx, Hdel. change (sn_em n1) with (sn_em n) in Hlx, Hdel.
  rewrite (delete_found oid (u_mem (sn_em n)) Hne) in Hdel.
  exists (node_with n2 x). split; [apply worker_with; [split; [done|]; unfold node_em; rewrite He2; apply Hn|done]|].
  split; [|done]. apply catch_ret. rewrite (locks_run n _ Hu).
  rewrite (bind_ret _ _ _ _ _ Hlk). destruct rs as [|r rs']; [done|].
  rewrite (bind_ret _ _ _ _ _ Hrm). erewrite bind_ret; [reflexivity|]. apply on_em_run. rewrite He2. exact Hdel.
Qed.

Lemma without_app {A} (rs1 rs2 : list LBIDRange) (m : gmap (Z * Z) A) : without rs2 (without rs1 m) = without (rs1 ++ rs2) m.
Proof.
  apply map_eq. intros k. apply option_eq. intros x. rewrite !without_Some. unfold in_ranges.
  rewrite Exists_app. tauto.
Qed.

(** Several objects. *)
Definition objects_ranges (oids : list Z) (m : EMMem) : list LBIDRange := oids ≫= fun oid => object_ranges oid m.

Lemma delete_blocks_run oids n :
  worker_inv n → Forall (fun oid => 0 ≤ oid) oids →
  ∃ n' : Node, delete_blocks oids n = (Ret true, n') ∧ worker_inv n' ∧ sn_em n' = sn_em n ∧
    node_a n' = without (objects_ranges oids (node_em n)) (node_a n) ∧
    node_b n' = without (objects_ranges oids (node_em n)) (node_b n).
Proof.
  intros Hn Ho. revert n Hn. induction Ho as [|oid oids Hoid _ IH]; intros n Hn.
  - exists n. cbn. by rewrite !without_nil.
  - destruct (remove_ranges_run (object_ranges oid (node_em n)) n) as (n1 & Hr1 & Hi1 & He1 & _ & Ha1 & Hb1);
      [by apply object_ranges_start, Hn|apply Hn|].
    assert (node_em n1 = node_em n) as Hem by (unfold node_em; by rewrite He1).
    destruct (IH n1) as (n2 & Hr2 & Hi2 & He2 & Ha2 & Hb2); [split; [done|]; rewrite Hem; apply Hn|].
    exists n2. split; [|split; [done|]].
    + cbn [delete_blocks]. rewrite (bind_ret _ _ _ _ _ (sn_lookup_run oid n (proj2 Hn))).
      rewrite (proj2 (Z.ltb_ge _ _) Hoid). by rewrite (bind_ret _ _ _ _ _ Hr1).
    + rewrite He2, Ha2, Hb2, Ha1, Hb1, Hem, !without_app. done.
Qed.

Lemma deleteOIDs_em_run OIDs s :
  em_inv (u_mem s) →
  ∃ s', EM_deleteOIDs OIDs s = (Ret tt, s') ∧ em_inv (u_mem s') ∧
    live (u_mem s') = List.filter (fun e => negb (bool_decide (fileID e ∈ OIDs))) (live (u_mem s)).
Proof.
  intros Hi. unfold EM_deleteOIDs. rewrite (bind_ret _ _ _ _ _ (grab_both_run s (ei_mapped _ _ Hi))).
  set (s1 := mkUndoable _ _). assert (em_inv (u_mem s1)) as Hi1 by by apply inv_locks.
  destruct (delete_all_run (fun e => bool_decide (fileID e ∈ OIDs)) s1 Hi1) as (s' & Hr & Hi' & Hl). by exists s'.
Qed.

Lemma deleteOIDs_node oids n :
  unlocked n → worker_inv n → Forall (fun oid => 0 ≤ oid) oids →
  let rs := objects_ranges oids (node_em n) in
  ∃ n' : Node, deleteOIDs oids n = (Ret 0, n') ∧ worker_inv n' ∧
    live (node_em n') = List.filter (fun e => negb (bool_decide (fileID e ∈ oids))) (live (node_em n)) ∧
    node_a n' = without rs (node_a n) ∧ node_b n' = without rs (node_b n).
Proof.
  intros Hu Hn Ho rs. pose proof (locked_inv n Hn) as Hl. set (n1 := node_locked n) in *.
  destruct (delete_blocks_run oids n1 Hl Ho) as (n2 & Hr2 & Hi2 & He2 & Ha2 & Hb2).
  destruct (deleteOIDs_em_run oids (sn_em n2) (proj2 Hi2)) as (x & Hr3 & Hi3 & Hl3).
  rewrite He2 in Hl3. exists (node_with n2 x). split; [|split; [by apply worker_with|done]].
  apply catch_ret. rewrite (locks_run n _ Hu).
  rewrite (bind_ret _ _ _ _ _ Hr2). erewrite bind_ret; [reflexivity|]. by apply on_em_run.
Qed.

(** A negative object id ends the loop with an error. *)
Lemma delete_blocks_total oids n :
  worker_inv n → ∃ b (n' : Node), delete_blocks oids n = (Ret b, n') ∧ worker_inv n'.
Proof.
  revert n. induction oids as [|oid oids IH]; intros n Hn; [by exists true, n|].
  cbn [delete_blocks]. rewrite (bind_ret _ _ _ _ _ (sn_lookup_run oid n (proj2 Hn))).
  destruct (oid <? 0); [by exists false, n|].
  destruct (remove_ranges_run (object_ranges oid (node_em n)) n) as (n1 & Hr1 & Hi1 & He1 & _);
    [by apply object_ranges_start, Hn|apply Hn|].
  rewrite (bind_ret _ _ _ _ _ Hr1). apply IH. split; [done|]. unfold node_em. rewrite He1. apply Hn.
Qed.

(** ** The end of a load *)

Lemma keeps_set_hwms args b : triple em_inv (set_hwms args b) (fun _ => em_inv).
Proof.
  revert b. induction args as [|a args IH]; intros b; [by apply triple_ret|].
  apply (triple_seq em_inv); [apply keeps_setLocalHWM|]. intros _. apply IH.
Qed.

Lemma keeps_set_hwms_and_cp hw st mg : triple em_inv (set_hwms_and_cp hw st mg) (fun _ => em_inv).
Proof.
  apply (triple_seq em_inv); [apply keeps_set_hwms|]. intros b1.
  apply (triple_seq em_inv).
  - destruct st; [by apply triple_ret|]. apply (triple_seq em_inv); [apply keeps_setExtentsMaxMin|]. intros _. by apply triple_ret.
  - intros b2. destruct mg; [by apply triple_ret|]. apply keeps_mergeExtentsMaxMin.
Qed.

Lemma commit_first_run t n :
  unlocked n → worker_inv n → ∃ n' : Node, commit_first t n = (Ret tt, n') ∧ worker_inv n' ∧ sn_em n' = sn_em n ∧
    node_a n' = (if t =? 0 then node_a n else release_locks t (node_a n)) ∧ node_b n' = node_b n.
Proof.
  intros (_ & Hk & _) Hn. unfold commit_first. destruct (t =? 0); [by exists n|].
  destruct (commit_spec t (sn_vss n) (ni_vss _ (proj1 Hn))) as (v & Hr & Hi & Ha).
  exists (mkNode (sn_em n) (sn_vbbm n) v (sn_copylocks n) (locked0 n) true (locked2 n)). split; [|split; [|by split_and!]].
  - erewrite bind_ret; [reflexivity|]. apply catch_ret. rewrite (bind_ret _ _ _ _ _ (lock_vss_run n Hk)).
    erewrite bind_ret; [reflexivity|]. unfold on_vs, zoom. cbn [sn_vss]. by rewrite Hr.
  - destruct Hn as [[Hb Hs Hc Hok] He]. split; [|done]. split; [done..|].
    unfold node_a, node_b. cbn [sn_vss sn_vbbm]. rewrite Ha. by apply release_versions_ok.
Qed.

(** [bulkSetHWM] and [bulkSetHWMAndCP]: the transaction is committed, then the
    extent map is called. *)
Lemma commit_then_returns (op : M ExtentMap unit) t n :
  triple em_inv op (fun _ => em_inv) → unlocked n → worker_inv n →
  returns_code n (catch (commit_first t ≫= fun _ => on_em op ≫= fun _ => mret 0) (fun _ => mret (-1)) n).
Proof.
  intros Hop Hu Hn. destruct (commit_first_run t n Hu Hn) as (n1 & Hr & Hi & _).
  unfold catch. rewrite (bind_ret _ _ _ _ _ Hr). apply (code_returns op (fun _ => 0) (fun _ => -1)); try done.
  - intros _ _ _. left.
  - intros _. right. left.
Qed.

Lemma confirm_returns n : worker_inv n → ∃ n' : Node, sn_confirmChanges n = (Ret tt, n') ∧ worker_inv n'.
Proof.
  intros Hn. pose proof (keeps_confirm (sn_em n) (proj2 Hn)) as Hk. unfold sn_confirmChanges, catch.
  change em_confirmChanges with EM_confirmChanges. destruct (EM_confirmChanges (sn_em n)) as [[[]|e] x] eqn:Hx.
  - rewrite (bind_ret _ _ _ _ _ (on_em_run _ n _ _ Hx)). destruct Hn as [[Hb Hs Hc Hok] He]. destruct n as [em vb vs cl [] [] []];
      eexists; (split; [reflexivity|]); split; try done; by split.
  - destruct Hk as [He Hi]. unfold mbind, M_bind. rewrite (on_em_run _ n _ _ Hx), He. eexists. split; [reflexivity|].
    by apply worker_with.
Qed.

(** Operations that return 0 if they return. *)
Definition gives_0 (op : M ExtentMap Z) : Prop := ∀ s r s', op s = (Ret r, s') → r = 0.

Lemma gives_bind {A} (m : M ExtentMap A) f : (∀ a, gives_0 (f a)) → gives_0 (m ≫= f).
Proof. intros Hf s r s'. unfold mbind, M_bind. destruct (m s) as [[a|e] s1]; [apply Hf|done]. Qed.

Lemma gives_ret : gives_0 (mret 0).
Proof. by intros s r s' [= <- _]. Qed.

Lemma setMaxMin_gives lbid mx mn seq : gives_0 (setMaxMin lbid mx mn seq).
Proof.
  apply gives_bind. intros _. apply gives_bind. intros m. destruct (find_index _ _) as [[i e]|].
  - cbn zeta. destruct (_ =? seq), (seq =? -1); repeat (apply gives_bind; intros ?); apply gives_ret.
  - apply gives_bind. by intros _ s r s'.
Qed.

Lemma em_call_returns cfg o n :
  dbRootCount cfg ≠ 0 → op_ok o → unlocked n → worker_inv n → returns_code n (em_op_call cfg o n).
Proof.
  intros Hc Hok Hu Hn. pose proof (op_keeps cfg o Hc Hok) as Hk.
  assert (∀ {A} (op : M ExtentMap A), triple em_inv (no_result op) (fun _ => em_inv) → triple em_inv op (fun _ => em_inv)) as Hnr.
  { intros A op H s Hs. specialize (H s Hs). unfold no_result, mbind, M_bind in H. by destruct (op s) as [[]]. }
  assert (∀ op, triple em_inv op (fun _ => em_inv) → returns_code n (em_code op n)) as Hcode.
  { intros op Hop. apply code_returns; try done; intros; [left|right; left]. }
  assert (∀ codes op, triple em_inv op (fun _ => em_inv) → Forall (fun kv => kv.2 ∈ em_codes) codes →
            returns_code n (em_partition codes op n)) as Hpart.
  { intros codes op Hop Hcs. apply code_returns; try done; [intros; left|]. intros e. by apply partition_code_in. }
  destruct o; cbn [em_op_call run_op] in *.
  - apply (code_returns (markInvalid_list lbids ts) (fun r => r) (fun _ => -1)); [by apply Hnr|done| |intros; right; left].
    intros a x Ha. assert (gives_0 (markInvalid_list lbids ts)) as Hg by (do 2 (apply gives_bind; intros _); apply gives_ret).
    rewrite (Hg _ _ _ Ha). left.
  - apply (code_returns (setMaxMin lbid mx mn seq) (fun r => r) (fun _ => -1)); [by apply Hnr|done| |intros; right; left].
    intros a x Ha. rewrite (setMaxMin_gives _ _ _ _ _ _ _ Ha). left.
  - by apply Hcode.
  - by apply Hcode.
  - apply out_returns; [by apply Hnr|done].
  - apply out_returns; [by apply Hnr|done].
  - apply out_returns; [by apply Hnr|done].
  - apply out_returns; [by apply Hnr|done].
  - by apply Hcode.
  - by apply Hcode.
  - by apply Hcode.
  - by apply Hcode.
  - destruct (deleteOID_node OID n Hu Hn) as (n' & Hi & Hr). destruct (_ || _); destruct Hr as [Hr _];
      (eexists _, n'; split; [exact Hr|]; split; [done|]); [right; left|left].
  - destruct (delete_blocks_total OIDs (node_locked n) (locked_inv n Hn)) as (b & n1 & Hr & Hi).
    unfold deleteOIDs, catch. rewrite (locks_run n _ Hu), (bind_ret _ _ _ _ _ Hr).
    destruct b; [|eexists _, n1; split; [reflexivity|]; split; [done|right; left]].
    apply (code_returns (EM_deleteOIDs OIDs) (fun _ => 0) (fun _ => -1)); try done; intros; [left|right; left].
  - by apply (Hpart []).
  - apply Hpart; [done|]. repeat constructor; set_solver.
  - apply Hpart; [done|]. repeat constructor; set_solver.
  - apply Hpart; [done|]. repeat constructor; set_solver.
  - apply Hpart; [done|]. repeat constructor; set_solver.
  - by apply Hcode.
  - by apply commit_then_returns.
  - by apply Hcode.
  - destruct (confirm_returns n Hn) as (n' & Hr & Hi). rewrite (bind_ret _ _ _ _ _ Hr). eexists _, n'. split; [reflexivity|].
    split; [done|left].
Qed.

Lemma keeps_markInvalid lbid t : triple em_inv (markInvalid lbid t) (fun _ => em_inv).
Proof.
  apply (triple_seq em_inv); [apply triple_grabEM, _|]. intros _. apply keeps_markInvalid_.
Qed.

Lemma worker_call_returns cfg o n :
  dbRootCount cfg ≠ 0 → call_ok o → worker_idle n → worker_inv n → returns_code n (worker_call cfg o n).
Proof.
  intros Hc Hok [Hu _] Hn. destruct o; cbn [worker_call call_ok] in *.
  - by apply em_call_returns.
  - apply (code_returns (markInvalid lbid t) (fun r => r) (fun _ => -1)); [apply keeps_markInvalid|done| |intros; right; left].
    intros a x Ha. assert (gives_0 (markInvalid lbid t)) as Hg by (do 2 (apply gives_bind; intros ?); destruct (find_index _ _) as [[i y]|]; [do 2 (apply gives_bind; intros ?); apply gives_ret|by intros s r s']).
    rewrite (Hg _ _ _ Ha). left.
  - apply commit_then_returns; [apply keeps_bulkSetHWM|done..].
  - apply commit_then_returns; [apply keeps_set_hwms_and_cp|done..].
Qed.

(** *** What the end of a load writes is imaged *)

Lemma recorded_store_cp {A} i e (c : option EMCasualPartition) (rest : M ExtentMap A) s :
  (em_tab (u_mem s)).[i] = Some e → (∀ s', recorded em_eq s' (rest s')) →
  recorded em_eq s
    (((match c with
       | Some c => makeUndoRecord (DEM i e) ≫= fun _ => upd_mem (set_em i (set_cprange c e))
       | None => mret tt
       end) ≫= fun _ => rest) s).
Proof.
  intros He Hr. apply recorded_bind; [apply _| |done]. destruct c; [by apply recorded_set_em|apply recorded_ret, _].
Qed.

Lemma recorded_set_cp cpMap slots k s : recorded em_eq s (set_cp_loop cpMap slots k s).
Proof.
  revert k s. induction slots as [|i slots IH]; intros k s; cbn [set_cp_loop]; [apply recorded_ret, _|].
  apply recorded_get, recorded_lift; [apply _|]. intros e He.
  destruct ((em_tab (u_mem s)).[i]) as [e'|] eqn:Hi; [|done]. injection He as ->.
  case_if; [apply IH|]. destruct (cpMap !! _) as [x|]; [|apply IH].
  apply recorded_store_cp; [done|]. intros s'. destruct k as [|[|k]]; [apply IH|apply recorded_ret, _|apply IH].
Qed.

Lemma recorded_merge_cp cpMap slots k s : recorded em_eq s (merge_cp_loop cpMap slots k s).
Proof.
  revert cpMap k s. induction slots as [|i slots IH]; intros cpMap k s; cbn [merge_cp_loop]; [apply recorded_ret, _|].
  apply recorded_get, recorded_lift; [apply _|]. intros e He.
  destruct ((em_tab (u_mem s)).[i]) as [e'|] eqn:Hi; [|done]. injection He as ->.
  case_if; [apply IH|]. destruct (cpMap !! _) as [x|]; [|apply IH].
  apply recorded_store_cp; [done|]. intros s'. destruct k as [|[|k]]; [apply IH|apply recorded_ret, _|apply IH].
Qed.

Lemma recorded_lock_em (b : bool) s :
  em_inv (u_mem s) → recorded em_eq s ((if b then grabEMEntryTable WRITE else mret tt) s).
Proof. intros Hi. destruct b; [apply recorded_grabEM, Hi|apply recorded_ret, _]. Qed.

Lemma recorded_setHWM_lock OID part seg h b s :
  em_inv (u_mem s) → recorded em_eq s (EM_setLocalHWM OID part seg h b s).
Proof.
  intros Hi. destruct b; [|apply recorded_setLocalHWM].
  pose proof (recorded_grabEM WRITE s (ei_mapped _ _ Hi)) as Hg. pose proof (grabEM_run WRITE s (ei_mapped _ _ Hi)) as Hr.
  rewrite Hr in Hg. eapply (recorded_trans em_eq s); [exact Hg|].
  assert (EM_setLocalHWM OID part seg h true s = EM_setLocalHWM OID part seg h false (grabEMEntryTable WRITE s).2) as ->.
  { unfold EM_setLocalHWM at 1. rewrite (bind_ret _ _ _ _ _ Hr), Hr. reflexivity. }
  rewrite Hr. apply recorded_setLocalHWM.
Qed.

Lemma recorded_set_hwms args b s : em_inv (u_mem s) → recorded em_eq s (set_hwms args b s).
Proof.
  revert b s. induction args as [|a args IH]; intros b s Hi; cbn [set_hwms]; [apply recorded_ret, _|].
  apply recorded_bind; [apply _|by apply recorded_setHWM_lock|]. intros [] s1 H1. apply IH.
  pose proof (keeps_setLocalHWM (bh_oid a) (bh_partNum a) (bh_segNum a) (bh_hwm a) b s Hi) as Hk. by rewrite H1 in Hk.
Qed.

Lemma recorded_set_hwms_and_cp hw st mg s : em_inv (u_mem s) → recorded em_eq s (set_hwms_and_cp hw st mg s).
Proof.
  intros Hi. apply recorded_bind; [apply _|by apply recorded_set_hwms|]. intros b1 s1 H1.
  assert (em_inv (u_mem s1)) as Hi1 by (pose proof (keeps_set_hwms hw true s Hi) as Hk; by rewrite H1 in Hk).
  assert (recorded em_eq s1 ((match st with [] => mret b1 | _ => setExtentsMaxMin (cp_map st) b1 ≫= fun _ => mret false end) s1)) as Hset.
  { destruct st as [|x st]; [apply recorded_ret, _|]. apply recorded_bind; [apply _| |intros; apply recorded_ret, _].
    apply recorded_bind; [apply _|by apply recorded_lock_em|]. intros [] s' _. apply recorded_get, recorded_set_cp. }
  apply recorded_bind; [apply _|done|]. intros b2 s2 H2. destruct mg as [|x mg]; [apply recorded_ret, _|].
  apply recorded_bind; [apply _|apply recorded_lock_em|intros [] s' _; apply recorded_get, recorded_merge_cp].
  destruct st as [|y st]; [by injection H2 as <- <-|].
  pose proof (keeps_setExtentsMaxMin (cp_map (y :: st)) b1 s1 Hi1) as Hk. unfold mbind, M_bind in H2.
  destruct (setExtentsMaxMin (cp_map (y :: st)) b1 s1) as [[[]|] s'']; [by injection H2 as <- <-|done].
Qed.

(** Operations on the other structures leave the extent map alone. *)
Definition frames_em {A} (op : M Node A) : Prop := ∀ n, sn_em (op n).2 = sn_em n.

Lemma frames_bind {A B} (op : M Node A) (f : A → M Node B) : frames_em op → (∀ a, frames_em (f a)) → frames_em (op ≫= f).
Proof.
  intros Ho Hf n. specialize (Ho n). unfold mbind, M_bind. destruct (op n) as [[a|e] n1]; cbn in *; [|done].
  by rewrite Hf.
Qed.

Lemma frames_vb {A} (op : M VBBM A) : frames_em (on_vb op).
Proof. intros n. unfold on_vb, zoom. by destruct (op _). Qed.
Lemma frames_vs {A} (op : M VSS A) : frames_em (on_vs op).
Proof. intros n. unfold on_vs, zoom. by destruct (op _). Qed.
Lemma frames_cl {A} (op : M CopyLocks A) : frames_em (on_cl op).
Proof. intros n. unfold on_cl, zoom. by destruct (op _). Qed.

Lemma frames_if {A} (b : bool) (op : M Node A) (l : M Node unit) :
  frames_em op → frames_em l → frames_em (if b then op ≫= fun _ => l else mret tt).
Proof. intros Ho Hl. destruct b; [|done]. by apply frames_bind. Qed.

(** The extent map after [undoChanges] of the worker. *)
Lemma sn_undo_em (n : Node) x :
  EM_undoChanges (sn_em n) = (Ret tt, x) → sn_em (sn_undoChanges n).2 = x.
Proof.
  intros Hx. unfold sn_undoChanges, catch. change em_undoChanges with EM_undoChanges.
  rewrite (bind_ret _ _ _ _ _ (on_em_run _ n _ _ Hx)).
  match goal with |- context [?rest (node_with n x)] => assert (frames_em rest) as Hf; [|specialize (Hf (node_with n x))] end.
  - apply frames_bind; [done|]. intros n0. apply frames_bind; [by apply frames_if; [apply frames_vb|]|].
    intros _. apply frames_bind; [by apply frames_if; [apply frames_vs|]|]. intros _. by apply frames_if; [apply frames_cl|].
  - cbn [sn_em node_with] in Hf. destruct ((gets id ≫= _) (node_with n x)) as [[a|e] n2]; [done|]. by destruct (is_exception e).
Qed.

Lemma undo_load_end hw st mg t n :
  unlocked n → worker_inv n → undoRecords (sn_em n) = [] →
  let n' := (sn_undoChanges (sn_bulkSetHWMAndCP hw st mg t n).2).2 in
  em_eq (node_em n') (node_em n) ∧ undoRecords (sn_em n') = [] ∧
  emLocked (node_em n') = false ∧ flLocked (node_em n') = false.
Proof.
  intros Hidle Hn H0 n'. destruct (commit_first_run t n Hidle Hn) as (n1 & Hr & Hi & He & _).
  destruct (undo_recorded (set_hwms_and_cp hw st mg) (sn_em n1)) as (x & Hu & Heq & Hl & H1 & H2);
    [by rewrite He|apply recorded_set_hwms_and_cp, Hi|].
  assert (sn_em (sn_bulkSetHWMAndCP hw st mg t n).2 = (set_hwms_and_cp hw st mg (sn_em n1)).2) as Hb.
  { destruct (em_answer (set_hwms_and_cp hw st mg) (fun _ => 0) (fun _ => -1) n1) as (r & n2 & Hc & _ & Hn2 & _);
      [apply keeps_set_hwms_and_cp|done|].
    assert (sn_bulkSetHWMAndCP hw st mg t n = (Ret r, n2)) as ->; [|by subst n2].
    unfold sn_bulkSetHWMAndCP, catch in *. by rewrite (bind_ret _ _ _ _ _ Hr). }
  rewrite <- Hb in Hu. apply sn_undo_em in Hu. fold n' in Hu. unfold node_em. rewrite Hu. rewrite He in Heq. done.
Qed.

(** ** Restart *)

(** The extents determine which LBIDs are free. *)
Lemma same_live_free m m' x :
  em_inv m → em_inv m' → live m' = live m → cover (free_ranges m') x = cover (free_ranges m) x.
Proof.
  intros H1 H2 Hl. rewrite (dropped_free m m' (fun _ => false) x H1 H2); [|by rewrite (filter_all (fun _ => negb false))].
  rewrite filter_none by done. cbn. lia.
Qed.

Lemma saveState_run (n0 : Node) :
  worker_inv n0 → live (node_em n0) ≠ [] →
  saveState n0 = (Ret (Some (em_image (node_em n0), vb_save (u_mem (sn_vbbm n0)), vss_save (u_mem (sn_vss n0)))), n0).
Proof.
  intros Hn Hne. unfold saveState. apply catch_ret. change em_save with EM_save.
  rewrite (bind_ret _ _ _ _ _ (on_em_run _ n0 _ _ (save_run _ (proj2 Hn) Hne))). by destruct n0.
Qed.

Lemma loadState_run hdfs c (n0 n : Node) :
  1 ≤ c → worker_inv n0 → saveable (u_mem (sn_vbbm n0)) → vss_saveable (u_mem (sn_vss n0)) →
  live (node_em n0) ≠ [] → zlength (live (node_em n0)) < 2 ^ 25 → Forall em_loadable (live (node_em n0)) →
  worker_inv n →
  ∃ n' : Node, loadState (H := ExtentMap_calls_on hdfs) (Some c)
      (em_image (node_em n0), vb_save (u_mem (sn_vbbm n0)), vss_save (u_mem (sn_vss n0))) n = (Ret 0, n') ∧
    worker_inv n' ∧ live (node_em n') = live (node_em n0) ∧ node_a n' = node_a n0 ∧ node_b n' = node_b n0 ∧
    t_files (u_mem (sn_vbbm n')) = t_files (u_mem (sn_vbbm n0)).
Proof.
  intros Hc Hn0 Hvb Hvs Hne Hcnt Hld Hn.
  destruct (load_image hdfs (node_em n0) (sn_em n)) as (x & Hx & Hix & Hlx & _); try done; [apply Hn0|apply Hn|].
  destruct (load_save_spec c (u_mem (sn_vbbm n0)) (sn_vbbm n) Hc Hvb (ni_vbbm _ (proj1 Hn))) as (b & Hb & Hib & Hab & _ & Hfb).
  destruct (vss_load_save_spec (u_mem (sn_vss n0)) (sn_vss n) Hvs) as (v & Hv & Hiv & Hav & _).
  exists (mkNode x b v (sn_copylocks n) (locked0 n) (locked1 n) (locked2 n)). split; [|split].
  - apply catch_ret. change (em_load (Some (em_image (node_em n0)))) with (EM_load hdfs (Some (em_image (node_em n0)))).
    rewrite (bind_ret _ _ _ _ _ (on_em_run _ n _ _ Hx)).
    rewrite (bind_ret _ _ _ _ _ (on_vb_run _ (node_with n x) _ _ Hb)).
    erewrite bind_ret; [reflexivity|]. unfold on_vs, zoom, node_with. cbn [sn_vss]. by rewrite Hv.
  - destruct Hn as [[_ _ Hcl _] _]. split; [|done]. split; [done..|].
    unfold node_a, node_b. cbn [sn_vss sn_vbbm]. rewrite Hab, Hav. apply Hn0.
  - split; [done|]. split; [done|]. by split.
Qed.
