(* ===== verification/WorkerTheorems.v ===== *)
(** * What the worker guarantees about its structures together

    The extent map, the versions and the version buffer behind the calls of the
    worker. *)

From S2P Require Import Prelude Undo Table Vbbm VbbmProofs Vss VssProofs VssWrite VssUndo CopyLocks SlaveNode SlaveProofs Samples ColType ExtentMap EmCp EmCreate EmDelete EmQuery EmFile EmSpace EmInv EmKeeps EmPlace EmLayout EmHwm EmRollback EmLoad EmTheorems NodeEm NodeEmProofs.

(** ** A small worker *)

(** Blocks 0 to 16383 are extents of columns 3000 and 3001, and block 5 has been
    written by transaction 3. *)
Definition worker0 : Node := mkNode em_sample vbbm0 vss0 cl0 false false false.
Definition worker1 : Node := (writeVBEntry 3 5 1 7 worker0).2.

Lemma worker0_inv : worker_inv worker0.
Proof. split; [|exact em_sample_inv]. by destruct node0_inv as [? ? ? ?]. Qed.

Lemma worker1_inv : worker_inv worker1.
Proof.
  destruct (writeVBEntry_spec 3 5 1 7 worker0 0 false) as (n' & Hr & _ & _ & _ & _ & Hi & _); [apply worker0_inv|done|done|lia| |specialize (Hi ltac:(done))].
  - right. split; [done|]. split; [done|]. intros v. unfold node_a. change (sn_vss worker0) with vss0.
    rewrite (proj2 vss0_inv). apply lookup_empty.
  - unfold worker1. rewrite Hr. split; [exact Hi|]. assert (sn_em n' = em_sample) as He.
    { assert ((writeVBEntry 3 5 1 7 worker0).2 = n') as <- by by rewrite Hr. vm_compute. reflexivity. }
    unfold node_em. cbn [snd]. rewrite He. exact em_sample_inv.
Qed.

(** The worker with these changes confirmed. *)
Definition worker2 : Node := (sn_confirmChanges worker1).2.

Lemma worker2_inv : worker_inv worker2.
Proof.
  destruct (confirm_returns worker1 worker1_inv) as (n' & Hr & Hi). unfold worker2. by rewrite Hr.
Qed.

Lemma worker2_idle : worker_idle worker2.
Proof. by vm_compute. Qed.

(** ** Calls *)

(** C28 Every message for the extent map that reaches an idle worker is answered: the
    worker's call returns one of the codes of the protocol, no exception and no fault
    comes out of it, and the invariants of the extent map, of both version tables and
    of the copy locks hold after it, whether it succeeded or not.  The columns are at
    most 511 bytes wide, vectors that belong together are of the same length and the
    list of [deleteEmptyDictStoreExtents] is not empty ([call_ok]); there is a
    dbroot. *)
Theorem worker_answers cfg o n :
  dbRootCount cfg ≠ 0 → call_ok o → worker_idle n → worker_inv n →
  ∃ code n', worker_call cfg o n = (Ret code, n') ∧ worker_inv n' ∧ code ∈ em_codes.
Proof. apply worker_call_returns. Qed.

Lemma worker_answers_witness :
  let parts : gset LogicalPartition := {[ (1, 0, 0); (1, 5, 0) ]} in
  ∃ code n', worker_call cfg1 (EmOp (OpDeletePartition {[3000]} parts)) worker2 = (Ret code, n') ∧ worker_inv n' ∧ code ∈ em_codes.
Proof. intros parts. apply (worker_answers cfg1 (EmOp (OpDeletePartition {[3000]} parts)) worker2); [done|done|exact worker2_idle|exact worker2_inv]. Defined.

(** C29 Deleting an object: its extents go, and with them every version of a block of
    its extents in service, from the VSS and from the VBBM; the other extents and
    the versions of other blocks stay.  Without an extent in service the call fails
    and changes nothing. *)
Theorem object_deleted oid n :
  worker_idle n → worker_inv n →
  let rs := object_ranges oid (node_em n) in
  ∃ n' : Node, worker_inv n' ∧
    if (oid <? 0) || bool_decide (rs = []) then
      deleteOID oid n = (Ret (-1), n') ∧ sn_em n' = sn_em n ∧ node_a n' = node_a n ∧ node_b n' = node_b n
    else
      deleteOID oid n = (Ret 0, n') ∧
      live (node_em n') = List.filter (fun e => negb (fileID e =? oid)) (live (node_em n)) ∧
      node_a n' = without rs (node_a n) ∧ node_b n' = without rs (node_b n).
Proof. intros [Hu _]. by apply deleteOID_node. Qed.

Lemma object_deleted_witness :
  ∃ n' : Node, worker_inv n' ∧ deleteOID 3000 worker2 = (Ret 0, n') ∧
    live (node_em n') = List.filter (fun e => negb (fileID e =? 3000)) (live (node_em worker2)) ∧
    node_a n' = without (object_ranges 3000 (node_em worker2)) (node_a worker2) ∧
    node_b n' = without (object_ranges 3000 (node_em worker2)) (node_b worker2).
Proof.
  destruct (object_deleted 3000 worker2 worker2_idle worker2_inv) as (n' & Hi & H). exists n'. split; [exact Hi|].
  assert ((3000 <? 0) || bool_decide (object_ranges 3000 (node_em worker2) = []) = false) as Hb by (vm_compute; reflexivity).
  rewrite Hb in H. exact H.
Defined.

(** The extents that are out of service are deleted too, but not the versions of
    their blocks: here LBID 5000 becomes free while the VSS and the VBBM still have
    versions of it. *)
Definition worker_oos : Node :=
  (sn_confirmChanges (sn_markPartitionForDeletion {[3000]} {[ (1, 0, 1) ]}
    (sn_confirmChanges (writeVBEntry 3 5000 1 7 worker0).2).2).2).2.

Lemma deleteOID_leaves_versions :
  let n' := (deleteOID 3000 worker_oos).2 in
  (deleteOID 3000 worker_oos).1 = Ret 0 ∧ (fileID <$> live (node_em n')) = [3001] ∧
  cover (free_ranges (node_em worker_oos)) 5000 = 0 ∧ cover (free_ranges (node_em n')) 5000 = 1 ∧
  node_a n' !! (5000, 3) = Some (false, true) ∧ node_b n' !! (5000, 0) = Some (1, 7).
Proof. vm_compute. done. Qed.

(** Undoing the end of a load ([bulkSetHWMAndCP]), whichever of its calls failed:
    the extents, the free list and both descriptors are as they were and the locks
    are released. *)
Theorem load_end_undone hw st mg t n :
  unlocked n → worker_inv n → undoRecords (sn_em n) = [] →
  let n' := (sn_undoChanges (sn_bulkSetHWMAndCP hw st mg t n).2).2 in
  em_eq (node_em n') (node_em n) ∧ undoRecords (sn_em n') = [] ∧
  emLocked (node_em n') = false ∧ flLocked (node_em n') = false.
Proof. apply undo_load_end. Qed.

Lemma load_end_undone_witness :
  let n' := (sn_undoChanges (sn_bulkSetHWMAndCP [mkBulkHWM 3000 0 1 77; mkBulkHWM 9999 0 0 1] [] [] 3 worker2).2).2 in
  em_eq (node_em n') (node_em worker2) ∧ undoRecords (sn_em n') = [] ∧
  emLocked (node_em n') = false ∧ flLocked (node_em n') = false.
Proof.
  intros n'. apply (load_end_undone [mkBulkHWM 3000 0 1 77; mkBulkHWM 9999 0 0 1] [] [] 3 worker2).
  - apply worker2_idle.
  - exact worker2_inv.
  - vm_compute. reflexivity.
Defined.

(** ** Restart *)

(** C30 A worker that loads the three files another one saved ([saveState] and
    [loadState]): both calls return success, the extents and the free LBIDs are the
    same, the VSS and the VBBM hold the same versions at the same places, the
    version buffer files are the same, and the invariants hold. *)
Theorem worker_restart hdfs c n0 n :
  1 ≤ c → worker_inv n0 → saveable (u_mem (sn_vbbm n0)) → vss_saveable (u_mem (sn_vss n0)) →
  live (node_em n0) ≠ [] → zlength (live (node_em n0)) < 2 ^ 25 → Forall em_loadable (live (node_em n0)) →
  worker_inv n →
  ∃ files, saveState n0 = (Ret (Some files), n0) ∧
  ∃ n' : Node, loadState (H := ExtentMap_calls_on hdfs) (Some c) files n = (Ret 0, n') ∧ worker_inv n' ∧
    live (node_em n') = live (node_em n0) ∧
    (∀ x, cover (free_ranges (node_em n')) x = cover (free_ranges (node_em n0)) x) ∧
    node_a n' = node_a n0 ∧ node_b n' = node_b n0 ∧ t_files (u_mem (sn_vbbm n')) = t_files (u_mem (sn_vbbm n0)).
Proof.
  intros Hc Hn0 Hvb Hvs Hne Hcnt Hld Hn. eexists. split; [by apply saveState_run|].
  destruct (loadState_run hdfs c n0 n) as (n' & Hr & Hi & Hl & Ha & Hb & Hf); try done.
  exists n'. split; [done|]. split; [done|]. split; [done|]. split; [|done].
  intros x. apply same_live_free; [apply Hn0|apply Hi|done].
Qed.

Lemma worker_restart_witness :
  ∃ files, saveState worker1 = (Ret (Some files), worker1) ∧
  ∃ n' : Node, loadState (H := ExtentMap_calls_on true) (Some 8192) files worker0 = (Ret 0, n') ∧ worker_inv n' ∧
    live (node_em n') = live (node_em worker1) ∧
    (∀ x, cover (free_ranges (node_em n')) x = cover (free_ranges (node_em worker1)) x) ∧
    node_a n' = node_a worker1 ∧ node_b n' = node_b worker1 ∧ t_files (u_mem (sn_vbbm n')) = t_files (u_mem (sn_vbbm worker1)).
Proof.
  assert (live (node_em worker1) = sample_extents) as Hl by (vm_compute; reflexivity).
  apply (worker_restart true 8192 worker1 worker0).
  - lia.
  - exact worker1_inv.
  - split; [apply worker1_inv|vm_compute; reflexivity|vm_compute; reflexivity|vm_compute; reflexivity|..];
      apply forallb_Forall; vm_compute; reflexivity.
  - split; [apply worker1_inv|vm_compute; reflexivity|]. apply forallb_Forall. vm_compute. reflexivity.
  - by rewrite Hl.
  - rewrite Hl. vm_compute. reflexivity.
  - rewrite Hl. repeat constructor; cbn; try done; lia.
  - exact worker0_inv.
Defined.
