(* ===== verification/JournalTheorems.v ===== *)
(** * The journal of the first worker

    What the journal holds after any run of commands, and what a restart makes of
    it. *)

From S2P Require Import Prelude BinFile ByteStream Undo Table Vbbm VbbmProofs Vss VssProofs VssWrite VssUndo CopyLocks SlaveNode SlaveProofs Samples ColType ExtentMap EmCp EmCreate EmDelete EmQuery EmFile EmSpace EmInv EmKeeps EmPlace EmLayout EmHwm EmRollback EmLoad EmTheorems NodeEm Wire SlaveComm SlaveServe DbrmClient ClientWorker ClientProofs ServeProofs NodeEmProofs WorkerTheorems.

Section Journal.
Variable W : World.
Variable processExists : Z → list Z → bool.
Variable junk : nat → Z.

Abbreviation process := (processCommand W true processExists).
Abbreviation serve_ := (serve W true processExists).

(** Requests carried out and confirmed, one after the other. *)
Inductive carried : Node → list Request → Node → Prop :=
  | carried_none n : carried n [] n
  | carried_one n q a n1 n2 qs n3 :
      request_fits q → zlength (message q) < 2 ^ 32 → op W q n = (Ret a, n1) → sn_confirmChanges n1 = (Ret tt, n2) →
      carried n2 qs n3 → carried n (q :: qs) n3.

Lemma carried_snoc n qs n1 q a n2 n3 :
  carried n qs n1 → request_fits q → zlength (message q) < 2 ^ 32 → op W q n1 = (Ret a, n2) →
  sn_confirmChanges n2 = (Ret tt, n3) → carried n (qs ++ [q]) n3.
Proof. induction 1; intros; econstructor; eauto using carried. Qed.

Definition journal_of (qs : list Request) : list Z := qs ≫= fun q => record (message q).

(** The life of the first worker from a snapshot on: commands that are confirmed,
    after some of which it takes a snapshot, and commands that are undone, whatever
    node the undo leaves.  [base] is the node of the last snapshot, [qs] the commands
    confirmed since, and [exact] says that every undo since gave back the node its
    command had found. *)
Inductive history : Node → list Request → Prop → SlaveComm → Prop :=
  | h_start n c : ready n c → firstSlave c = true → journal c = [] → journalCount c = 0 → history n [] True c
  | h_confirmed base qs (exact : Prop) c q a n1 n2 img c1 c2 :
      history base qs exact c → request_fits q → zlength (message q) < 2 ^ 32 →
      op W q (slave c) = (Ret a, n1) → sn_confirmChanges n1 = (Ret tt, n2) → saveState n2 = (Ret img, n2) →
      serve_ (message q) c = (Ret tt, c1) → serve_ (put8 CONFIRM) c1 = (Ret tt, c2) →
      history (if snaps c1 then n2 else base) (if snaps c1 then [] else qs ++ [q]) (if snaps c1 then True else exact) c2
  | h_undone base qs (exact : Prop) c q a n1 n2 c1 c2 :
      history base qs exact c → request_fits q → op W q (slave c) = (Ret a, n1) → sn_undoChanges n1 = (Ret tt, n2) →
      serve_ (message q) c = (Ret tt, c1) → serve_ (put8 BRM_UNDO) c1 = (Ret tt, c2) →
      history base qs (exact ∧ n2 = slave c) c2.

(** The journal holds the confirmed commands since the snapshot. *)
Definition kept (base : Node) (qs : list Request) (exact : Prop) (c : SlaveComm) : Prop :=
  ready (slave c) c ∧ firstSlave c = true ∧
  journal c = journal_of qs ∧ journalCount c = zlength qs ∧ (exact → carried base qs (slave c)).

Lemma awaits_busy q a n c c' : awaits q a n c c' → busy n c'.
Proof. by intros (H1 & H2 & H3 & _). Qed.

Lemma serve_message q a n1 c c1 :
  request_fits q → ready (slave c) c → op W q (slave c) = (Ret a, n1) → serve_ (message q) c = (Ret tt, c1) → awaits q a n1 c c1.
Proof.
  intros Hq Hr Hop Hs. destruct (process_command W true processExists q _ a n1 c Hq Hr Hop) as (c' & Hp & Hw).
  rewrite (serve_ret _ _ _ _ _ _ (proj1 (proj2 (proj2 Hr))) (message_cons q) Hp) in Hs. by injection Hs as <-.
Qed.

Lemma history_kept base qs exact c : history base qs exact c → kept base qs exact c.
Proof.
  induction 1 as [n c Hr Hf Hj Hc|base qs exact c q a n1 n2 img c1 c2 _ (Hr & Hf & Hj & Hc & Hca) Hq Hm Hop Hco Hi Hs1 Hs2|
    base qs exact c q a n1 n2 c1 c2 _ (Hr & Hf & Hj & Hc & Hca) Hq Hop Hu Hs1 Hs2].
  - destruct Hr as (Hs & Hr). split; [by split|]. split; [done|]. split; [done|]. split; [done|]. rewrite Hs. constructor.
  - pose proof (serve_message q a n1 c c1 Hq Hr Hop Hs1) as Hw.
    destruct (process_confirm W true processExists n1 n2 img c1 eq_refl (awaits_busy _ _ _ _ _ Hw) Hco Hi)
      as (c' & Hs & Hr' & _ & Hf' & Hiv & Hj' & Hc'). rewrite Hs in Hs2. injection Hs2 as <-.
    destruct Hw as (_ & _ & _ & _ & Hf1 & Hfl & Hj1 & Hc1 & Hi1). destruct (Hfl Hf) as (Hts & Hsd & Hd).
    pose proof (proj1 Hr') as Hn. split; [by rewrite Hn|]. split; [by rewrite Hf', Hf1|]. rewrite Hn.
    destruct (snaps c1) eqn:Hsn.
    { split; [done|]. split; [done|]. constructor. }
    assert (journals c1 = true) as Hjs.
    { destruct (journals c1) eqn:Hjs; [done|]. unfold snaps, counted in Hsn. rewrite Hjs in Hsn. unfold journals in Hjs.
      rewrite Hf1, Hf, Hts in Hsn. rewrite Hf1, Hf, Hsd in Hjs. destruct (saved q); [|done].
      change (bool_decide (SaveDelta = SaveDelta)) with true in Hjs. cbn [andb] in Hjs. cbn [orb andb] in Hsn. 
      change (bool_decide (SaveDelta = Snapshot)) with false in Hsn. cbn [orb] in Hsn. lia. }
    rewrite Hj', Hc', Hjs, Hd. unfold counted. rewrite Hjs, Hc1, Hj1, Hj, Hc.
    split; [unfold journal_of; rewrite bind_app; cbn [mbind list_bind]; by rewrite app_nil_r|].
    split; [rewrite zlength_app; done|]. intros He. specialize (Hca He). by eapply carried_snoc.
  - pose proof (serve_message q a n1 c c1 Hq Hr Hop Hs1) as Hw.
    destruct (process_undo W true processExists n1 n2 c1 (awaits_busy _ _ _ _ _ Hw) Hu)
      as (c' & Hs & Hr' & _ & Hj' & Hc' & Hf' & Hiv). rewrite Hs in Hs2. injection Hs2 as <-.
    destruct Hw as (_ & _ & _ & _ & Hf1 & _ & Hj1 & Hc1 & Hi1). pose proof (proj1 Hr') as Hn.
    split; [by rewrite Hn|]. split; [congruence|]. rewrite Hn.
    split; [congruence|]. split; [congruence|]. intros [He ->]. by apply Hca.
Qed.

(** ** Replaying *)

Definition replaying (n : Node) (c : SlaveComm) : Prop := slave c = n ∧ standalone c = true ∧ firstSlave c = false.

Lemma replay_command q a n n1 c :
  request_fits q → replaying n c → op W q n = (Ret a, n1) → ∃ c', process (message q) c = (Ret tt, c') ∧ replaying n1 c'.
Proof.
  intros Hq (Hs & Hst & Hf) Hop. destruct (worker_reads W q n Hq) as (f & Hn & Hrun).
  unfold processCommand. erewrite (bind_ret _ _ _ c); [|reflexivity]. unfold id. rewrite Hf. erewrite bind_ret; [|reflexivity].
  unfold message. rewrite get8_put, (proj1 (command_byte q)), Hn. unfold do_node. erewrite bind_ret; cycle 1.
  { apply on_slave_ret. rewrite Hs, Hrun. erewrite bind_ret; [reflexivity|exact Hop]. }
  cbv beta iota. erewrite bind_ret; cycle 1.
  { unfold answer, modify. cbn [standalone with_slave]. rewrite Hst. reflexivity. }
  eexists. split; [reflexivity|]. unfold replaying. by destruct (saved q).
Qed.

Lemma read_record d tl :
  zlength d < 2 ^ 32 → get32 (record d ++ tl) = (Ret (zlength d), d ++ tl).
Proof.
  intros Hd. pose proof (zlength_nonneg d). unfold record. rewrite <- app_assoc, get32_put. by rewrite u_of_u by lia.
Qed.

Lemma replay_carried qs n n' c fuel ret :
  carried n qs n' → replaying n c → (length (journal_of qs) < fuel)%nat →
  ∃ c', replay W true processExists junk fuel (journal_of qs) ret c = (Ret (ret + zlength qs), c') ∧ replaying n' c'.
Proof.
  intros Hca. revert c fuel ret. induction Hca as [n|n q a n1 n2 qs n3 Hq Hm Hop Hco Hca IH]; intros c fuel ret Hr Hl;
    (destruct fuel as [|fuel]; [lia|]); cbn [replay].
  - exists c. split; [|done]. cbn. by rewrite Z.add_0_r.
  - destruct (replay_command q a n n1 c Hq Hr Hop) as (c1 & Hp & Hr1).
    change (journal_of (q :: qs)) with (record (message q) ++ journal_of qs) in *. rewrite read_record by done.
    assert (Z.to_nat (zlength (message q)) = length (message q)) as E by (unfold zlength; lia).
    cbv zeta. rewrite !E, take_app_length, drop_app_length, Nat.sub_diag.
    cbn [seq fmap list_fmap]. rewrite app_nil_r.
    erewrite bind_ret; [|unfold catch; rewrite (bind_ret _ _ _ _ _ Hp); reflexivity]. cbn iota.
    destruct Hr1 as (Hs1 & Hst1 & Hf1). erewrite bind_ret; [|apply on_slave_ret; rewrite Hs1; exact Hco].
    destruct (IH (with_slave n2 c1) fuel (ret + 1)) as (c' & Hc & Hr'); [done| |].
    { rewrite length_app in Hl. unfold record in Hl. rewrite length_app in Hl. unfold put32 in Hl. rewrite length_put in Hl. lia. }
    exists c'. split; [|done]. rewrite Hc, zlength_cons. do 2 f_equal. lia.
Qed.
End Journal.

(** C12 The journal of the first worker: it holds exactly the commands confirmed since
    the last snapshot, in their order, whatever was undone in between, and replaying
    it on the node of that snapshot, as it was in memory, carries out exactly these
    commands.  If every undo since the snapshot gave back the node its command had
    found, this is the node the worker has. *)
Theorem journal_replayed W processExists junk base qs exact c :
  history W processExists base qs exact c →
  journal c = journal_of qs ∧ journalCount c = zlength qs ∧
  (∀ n', carried W base qs n' →
     ∃ c', replayJournal W true processExists junk (journal c) (standalone_worker base) = (Ret (journalCount c), c') ∧
           slave c' = n') ∧
  (exact → carried W base qs (slave c)).
Proof.
  intros Hh. apply history_kept in Hh as (_ & _ & Hj & Hc & Hca). split; [done|]. split; [done|]. split; [|done].
  intros n' Hn. rewrite Hj, Hc.
  destruct (replay_carried W processExists junk qs base n' (standalone_worker base) (S (length (journal_of qs))) 0 Hn)
    as (c' & Hr & Hs); [done|lia|]. exists c'. by split; [|apply Hs].
Qed.

(** ** A small worker *)

Definition world0 : World := mkWorld cfg1 (Some 1000) (fun _ n => n) (fun _ l => l) (fun _ _ _ => []) 0.

(** Transaction 4 writes block 6. *)
Definition worker3 : Node := (sn_confirmChanges (writeVBEntry 4 6 1 8 worker2).2).2.

(** The write is confirmed, and one that a newer version forbids is undone. *)
Definition write0 : Request := WriteVBEntry 4 6 1 8.
Definition write1 : Request := WriteVBEntry 3 6 1 9.
Abbreviation serve0 := (serve world0 true (fun _ _ => false)).
Definition first0 : SlaveComm := first_worker worker2 [] None None None None.
Definition first1 : SlaveComm := (serve0 (message write0) first0).2.
Definition first2 : SlaveComm := (serve0 (put8 CONFIRM) first1).2.
Definition first3 : SlaveComm := (serve0 (message write1) first2).2.
Definition first4 : SlaveComm := (serve0 (put8 BRM_UNDO) first3).2.

Lemma first4_history : history world0 (fun _ _ => false) worker2 [write0] (True ∧ worker3 = slave first2) first4.
Proof.
  assert (history world0 (fun _ _ => false) worker2 [write0] True first2) as H2.
  { assert (snaps first1 = false) as Hs by (vm_compute; reflexivity).
    enough (history world0 (fun _ _ => false) (if snaps first1 then worker3 else worker2)
              (if snaps first1 then [] else [] ++ [write0]) (if snaps first1 then True else True) first2) as H by (by rewrite Hs in H).
    eapply (h_confirmed world0 (fun _ _ => false) worker2 [] True first0 write0 (ACode 0) (writeVBEntry 4 6 1 8 worker2).2 worker3
              (match saveState worker3 with (Ret i, _) => i | _ => None end) first1 first2).
    - apply h_start; [|reflexivity|reflexivity|reflexivity]. repeat split.
    - cbn. unfold is_s, is_u. lia.
    - vm_compute. reflexivity.
    - vm_compute. reflexivity.
    - vm_compute. reflexivity.
    - vm_compute. reflexivity.
    - vm_compute. reflexivity.
    - vm_compute. reflexivity. }
  eapply (h_undone world0 (fun _ _ => false) worker2 [write0] True first2 write1 (ACode 17) (writeVBEntry 3 6 1 9 worker3).2 worker3 first3 first4).
  - exact H2.
  - cbn. unfold is_s, is_u. lia.
  - vm_compute. reflexivity.
  - vm_compute. reflexivity.
  - vm_compute. reflexivity.
  - vm_compute. reflexivity.
Qed.

Lemma journal_replayed_witness :
  ∃ c', replayJournal world0 true (fun _ _ => false) (fun _ => 0) (journal first4) (standalone_worker worker2) = (Ret (journalCount first4), c') ∧
        slave c' = slave first4.
Proof.
  destruct (journal_replayed world0 (fun _ _ => false) (fun _ => 0) worker2 [write0] _ first4 first4_history) as (_ & _ & H1 & H2).
  apply H1, H2. split; [exact I|vm_compute; reflexivity].
Defined.

(** ** What a restart loses *)

(** The code of [saveState] is not looked at: when it fails, the files are as they
    were, and the journal is empty all the same. *)
Lemma snapshot_unchecked n c :
  slave c = n → saveState n = (Ret None, n) →
  ∃ c', snapshot true c = (Ret tt, c') ∧ journal c' = [] ∧ savefileA c' = savefileA c ∧ savefileB c' = savefileB c.
Proof.
  intros Hs Hi. unfold snapshot. erewrite bind_ret; [|apply on_slave_ret; rewrite Hs; exact Hi].
  eexists. split; [reflexivity|]. cbn. by destruct (saveFileToggle c).
Qed.

(** Extents whose first LBID is given, of an object. *)
Definition starts (oid : Z) (n : Node) : list Z := (fun e => ir_start (range e)) <$> List.filter (fun e => fileID e =? oid) (live (node_em n)).

(** A partition of column 3000 has been deleted; its LBIDs 0 to 4095 are free. *)
Definition worker_hole : Node := (sn_confirmChanges (sn_deletePartition {[3000]} {[ (1, 0, 0) ]} worker2).2).2.
Definition hole_files : image := match (saveState worker_hole).1 with Ret (Some i) => i | _ => ([], [], []) end.
Definition worker_loaded : Node := (loadState (Some 1000) hole_files (mkNode em_boot vbbm0 vss0 cl0 false false false)).2.
Definition create0 : Request := CreateColumn 3002 4 1 0 0 INT.

(** Loading a snapshot puts the free list in another order.  The extent that was
    created after the snapshot got LBID 16384; when the journal is replayed on the
    loaded node it gets LBID 0, where the data of the column is not. *)
Lemma replay_other_lbids :
  starts 3002 (sn_confirmChanges (op world0 create0 worker_hole).2).2 = [16384] ∧
  (replayJournal world0 true (fun _ _ => false) (fun _ => 0) (journal_of [create0]) (standalone_worker worker_loaded)).1 = Ret 1 ∧
  starts 3002 (slave (replayJournal world0 true (fun _ _ => false) (fun _ => 0) (journal_of [create0]) (standalone_worker worker_loaded)).2) = [0].
Proof. split; [vm_compute; reflexivity|]. split; vm_compute; reflexivity. Qed.

(** The last record of a journal may be cut short by a crash: it is carried out with
    what the buffer holds in place of the missing bytes.  Here the offset in the
    version buffer file, 8, is missing, and block 6 is looked for elsewhere. *)
Definition torn : list Z := take 21 (journal_of [write0]).
Lemma torn_record_runs :
  let r := replayJournal world0 true (fun _ _ => false) (fun _ => 1) torn (standalone_worker worker2) in
  r.1 = Ret 1 ∧ node_b worker3 !! (6, 0) = Some (1, 8) ∧ node_b (slave r.2) !! (6, 0) = Some (1, 0x1010101).
Proof. vm_compute. split; [reflexivity|]. split; reflexivity. Qed.
