(* ===== verification/ReadTheorems.v ===== *)
(** * The client's reads of shared memory: theorems

    A read takes its locks, reads the tables and gives the locks back; looking many
    blocks up at once gives what each snapshot read gives; the extents a transaction
    has touched are found exactly; a range locked for reading ahead belongs to one
    reader.  At the end the reads that do not do what they mean to. *)

From stdpp Require Import sorting.
From S2P Require Import Prelude BinFile Hasher HashChain Undo Table Vbbm VbbmProofs Vss VssProofs VssUndo CopyLocks SlaveNode SlaveProofs Samples ColType ExtentMap EmCp EmCreate EmDelete EmQuery EmFile EmSpace EmFree EmInv EmKeeps EmPlace EmLayout EmRollback EmTheorems NodeEm Wire DbrmReads.

#[local] Opaque Hasher.

(** ** Locks *)

Definition reader_em (r : Reader) : ExtentMap := sn_em (r_node r).
Definition vss_of (r : Reader) : VSSMem := u_mem (sn_vss (r_node r)).
Definition vbbm_of (r : Reader) : VBMem := u_mem (sn_vbbm (r_node r)).
Definition cl_of (r : Reader) : CLMem := u_mem (sn_copylocks (r_node r)).

(** Taking a lock and giving it back. *)
Class ReadLock (lock : Z → M Reader unit) (shift : Z → Reader → Reader) := {
  rl_run d r : lock d r = (Ret tt, shift d r);
  rl_back r : shift (-1) (shift 1 r) = r;
}.

#[export] Instance vss_read_lock : ReadLock vss_reads
  (fun d r => mkReader (r_node r) (r_vbbm r) (r_vss r + d) (r_cl r) (r_clw r)).
Proof. split; [done|]. intros []. cbn. f_equal. lia. Qed.
#[export] Instance vbbm_read_lock : ReadLock vbbm_reads
  (fun d r => mkReader (r_node r) (r_vbbm r + d) (r_vss r) (r_cl r) (r_clw r)).
Proof. split; [done|]. intros []. cbn. f_equal. lia. Qed.
#[export] Instance cl_read_lock : ReadLock cl_reads
  (fun d r => mkReader (r_node r) (r_vbbm r) (r_vss r) (r_cl r + d) (r_clw r)).
Proof. split; [done|]. intros []. cbn. f_equal. lia. Qed.

(** A read under a lock that leaves the reader alone gives the lock back, whether it
    returns or throws. *)
Lemma under_run {A} lock shift `{ReadLock lock shift} (op : M Reader A) r o :
  op (shift 1 r) = (o, shift 1 r) → (∀ e, o = Exn e → is_exception e = true) →
  under lock op r = (o, r).
Proof.
  intros Ho He. unfold under. erewrite bind_ret by apply rl_run. unfold mbind at 1, M_bind, catch. rewrite Ho.
  destruct o as [a|e].
  - unfold mbind, M_bind. rewrite rl_run. by rewrite rl_back.
  - rewrite (He e eq_refl). unfold mbind, M_bind. rewrite rl_run. cbn. by rewrite rl_back.
Qed.

Lemma under_vss_run {A} (f : VSSMem → outcome A) r a :
  f (vss_of r) = Ret a → under vss_reads (at_vss f) r = (Ret a, r).
Proof. intros Hf. eapply under_run; [apply _|unfold at_vss; by f_equal|done]. Qed.

Lemma under_vbbm_run {A} (f : VBMem → outcome A) r a :
  f (vbbm_of r) = Ret a → under vbbm_reads (at_vbbm f) r = (Ret a, r).
Proof. intros Hf. eapply under_run; [apply _|unfold at_vbbm; by f_equal|done]. Qed.

Lemma at_em_run {A} (op : M ExtentMap A) r o :
  op (reader_em r) = (o, reader_em r) → at_em op r = (o, r).
Proof.
  intros Ho. unfold at_em, at_node, on_em, zoom. unfold reader_em in Ho. rewrite Ho.
  destruct r as [[] ? ? ? ?]. done.
Qed.

(** ** Looking many blocks up *)

Lemma each_run {A} (f : Z → VSSMem → outcome A) (P : Z → A → Prop) lbids m :
  (∀ l, ∃ a, f l m = Ret a ∧ P l a) → ∃ out, each f lbids m = Ret out ∧ Forall2 P lbids out.
Proof.
  intros Hf. induction lbids as [|l lbids IH]; cbn; [by exists []|].
  destruct (Hf l) as (a & -> & Ha), IH as (out & -> & Ho). exists (a :: out). by split; [|constructor].
Qed.

Lemma empty_no_entry m e : vss_inv m → vss_isEmpty m = true → ¬ in_table m e.
Proof.
  intros [_ Hs _] He (i & Hi & Hu). unfold vss_isEmpty in He. zbool. rewrite He in Hs.
  assert (node_body e ∈ entries (t_stor m)) as Hin by (apply elem_of_entries; eauto).
  destruct (entries (t_stor m)); [by apply elem_of_nil in Hin|]. rewrite zlength_cons in Hs.
  pose proof (zlength_nonneg l). lia.
Qed.

(** The shortcut for an empty table. *)
Lemma empty_lookup m l q t :
  vss_inv m → vss_isEmpty m = true → lookup_result m l q t false (-1, 0, false).
Proof. intros Hi He. right. right. split; [done|]. intros e Hin. by destruct (empty_no_entry m e Hi He). Qed.

(** C24 [DBRM::bulkVSSLookup] is the snapshot read of every block of the list: on any
    table that keeps its invariant, empty or not, it succeeds, the entry for each
    block is the version the snapshot of the query contains with its flag and its
    code, and the read lock is given back. *)
Theorem bulk_lookup_snapshot lbids q t r :
  vss_inv (vss_of r) → vers_nonneg (vss_of r) → 0 ≤ currentScn q →
  ∃ out, dbrm_bulkVSSLookup lbids q t r = (Ret (0, out), r) ∧
    Forall2 (fun l vd => lookup_result (vss_of r) l q t false (vd_returnCode vd, vd_verID vd, vd_vbFlag vd))
      lbids out.
Proof.
  intros Hi Hv Hq. unfold dbrm_bulkVSSLookup, catch.
  destruct (each_run (fun l => vss_lookup l q t false)
    (fun l res => lookup_result (vss_of r) l q t false res) lbids (vss_of r)) as (out & He & Ho).
  { intros l. destruct (vss_lookup_spec (vss_of r) l q t false (si_struct _ Hi) Hv Hq) as (res & ? & ?). eauto. }
  destruct (vss_isEmpty (vss_of r)) eqn:Hem.
  - eexists. erewrite bind_ret by (apply under_vss_run; rewrite Hem; reflexivity). split; [done|].
    apply Forall2_fmap_r, Forall_Forall2_diag, Forall_true. intros l. by apply empty_lookup.
  - eexists. erewrite bind_ret by (apply under_vss_run; rewrite Hem, He; reflexivity). split; [done|].
    apply Forall2_fmap_r. eapply Forall2_impl; [exact Ho|]. by intros l [[rc v] f].
Qed.

(** ** The extents a transaction has touched *)

Section Extents.
Context (r : Reader) (Hi : em_inv (u_mem (reader_em r))).
Abbreviation exts := (EmInv.live (u_mem (reader_em r))).

Definition owns (e : EMEntry) (l : Z) : Prop := ir_start (range e) ≤ l < ir_end (range e).

Lemma em_lookup_found e l :
  e ∈ exts → owns e l → at_em (EM_lookup l) r = (Ret (Some (ir_start (range e), ir_end (range e) - 1)), r).
Proof using Hi.
  intros He Ho. apply at_em_run. unfold EM_lookup.
  rewrite (reading_run (fun l0 => Ret match find_index (has_lbid l) l0 with
    | Some (_, e) => Some (ir_start (range e), lastBlock e) | None => None end)) by apply Hi.
  destruct (find_unique (has_lbid l) (u_mem (reader_em r)) e Hi He) as [i ->].
  - apply has_lbid_iff. split; [by eapply elem_live|done].
  - intros x Hx. by apply has_lbid_iff in Hx as [? _].
  - intros x Hx Hl. apply (lbid_unique (u_mem (reader_em r)) x e l); try done.
    apply has_lbid_iff. split; [by eapply elem_live|done].
  - done.
Qed.

Lemma em_lookup_missing l :
  (∀ e, e ∈ exts → ¬ owns e l) → at_em (EM_lookup l) r = (Ret None, r).
Proof using Hi.
  intros Hn. apply at_em_run. unfold EM_lookup.
  rewrite (reading_run (fun l0 => Ret match find_index (has_lbid l) l0 with
    | Some (_, e) => Some (ir_start (range e), lastBlock e) | None => None end)) by apply Hi.
  destruct (find_index (has_lbid l) (extents (u_mem (reader_em r)))) as [[i e]|] eqn:Hf; [|done].
  apply find_from_Some in Hf as (_ & He & Hl). rewrite (proj1 (extents_all _ _ Hi)) in He.
  apply has_lbid_iff in Hl as [Hu Ho]. destruct (Hn e); [|done]. by eapply used_elem.
Qed.

Lemma extent_size e : e ∈ exts → ir_start (range e) < ir_end (range e).
Proof using Hi.
  intros He. pose proof (elem_live _ _ He) as Hu. apply list_elem_of_In, filter_In in He as [He%list_elem_of_In _].
  apply zget_elem_of in He as [i He]. pose proof (em_aligned _ _ _ _ Hi He) as [_ Hn].
  pose proof (proj1 (em_used_size e) Hu). unfold ir_end. lia.
Qed.

Lemma owner_unique e e' l : e ∈ exts → e' ∈ exts → owns e l → owns e' l → e = e'.
Proof using Hi.
  intros He He' Ho Ho'. apply (lbid_unique _ e e' l Hi He He'); apply has_lbid_iff; split; try done; by eapply elem_live.
Qed.

(** The extent of a later block starts after the end of the one before it. *)
Lemma owner_later e e' l : e ∈ exts → e' ∈ exts → owns e' l → ir_end (range e) ≤ l → ir_end (range e) ≤ ir_start (range e').
Proof using Hi.
  intros He He' Ho Hl. destruct (decide (ir_end (range e) ≤ ir_start (range e'))) as [|Hlt]; [done|].
  pose proof (extent_size e He). destruct (decide (ir_start (range e') ≤ ir_start (range e))) as [Hs|Hs].
  - assert (e = e') as ->; [|unfold owns in *; lia].
    apply (owner_unique e e' (ir_start (range e))); unfold owns in *; [done|done|lia|lia].
  - assert (e = e') as ->; [|lia].
    apply (owner_unique e e' (ir_start (range e'))); unfold owns in *; [done|done|lia|lia].
Qed.

Definition owned (l : Z) : Prop := ∃ e, e ∈ exts ∧ owns e l.

Lemma owned_dec l : owned l ∨ ∀ e, e ∈ exts → ¬ owns e l.
Proof.
  destruct (decide (Exists (fun e => ir_start (range e) ≤ l ∧ l < ir_end (range e)) exts)) as [Hx|Hx].
  - left. apply Exists_exists in Hx as (e & He & Ho). by exists e.
  - right. intros e He Ho. apply Hx, Exists_exists. by exists e.
Qed.

(** What the loop finds after the block of extent [e], in a sorted list. *)
Lemma extent_starts_run rest e :
  e ∈ exts → Forall (fun l => ir_start (range e) ≤ l) rest → StronglySorted Z.le rest →
  (Forall owned rest →
   ∃ starts, extent_starts rest (ir_end (range e) - 1) r = (Ret (Some starts), r) ∧
     StronglySorted Z.lt (ir_start (range e) :: starts) ∧
     ∀ x, x ∈ starts ↔ ∃ e' l, e' ∈ exts ∧ x = ir_start (range e') ∧ l ∈ rest ∧ owns e' l ∧ e' ≠ e)
  ∧ (¬ Forall owned rest → extent_starts rest (ir_end (range e) - 1) r = (Ret None, r)).
Proof using Hi.
  revert e. induction rest as [|l rest IH]; intros e He Hge Hs; cbn [extent_starts].
  { split; [|intros []; constructor]. intros _. exists []. split; [done|]. split; [repeat constructor|].
    intros x. split; [by intros ?%elem_of_nil|]. intros (? & ? & _ & _ & ?%elem_of_nil & _). done. }
  apply Forall_cons in Hge as [Hge1 Hge]. apply StronglySorted_inv in Hs as [Hs Hl].
  destruct (ir_end (range e) - 1 <? l) eqn:Hlt; zbool.
  - destruct (owned_dec l) as [(e' & He' & Ho)|Hno].
    + erewrite !bind_ret by by apply em_lookup_found. cbn beta iota.
      pose proof (owner_later e e' l He He' Ho ltac:(lia)) as Hlater. pose proof (extent_size e He).
      assert (Forall (fun l => ir_start (range e') ≤ l) rest) as Hge'.
      { eapply Forall_impl; [exact Hl|]. unfold owns in Ho. cbn. lia. }
      destruct (IH e' He' Hge' Hs) as [IH1 IH2]. split.
      * intros [_ Hall]%Forall_cons. destruct (IH1 Hall) as (starts & Hr & Hso & Hx).
        exists (ir_start (range e') :: starts). erewrite bind_ret by exact Hr. split; [done|]. split.
        { constructor; [done|]. constructor; [lia|]. apply StronglySorted_inv in Hso as [_ Hf].
          eapply Forall_impl; [exact Hf|]. cbn. lia. }
        intros x. rewrite elem_of_cons, Hx. rewrite Forall_forall in Hl. split.
        { intros [->|(e2 & l2 & ? & -> & Hl2 & Ho2 & Hne)].
          - exists e', l. split_and!; [done|done|by left|done|]. intros ->. lia.
          - exists e2, l2. split_and!; [done|done|by right|done|]. intros ->.
            pose proof (Hl _ Hl2). unfold owns in Ho2. lia. }
        intros (e2 & l2 & He2 & -> & Hl2 & Ho2 & Hne). destruct (decide (ir_start (range e2) = ir_start (range e'))) as [|Hd]; [by left|].
        right. exists e2, l2. assert (e2 ≠ e') by congruence. split_and!; try done.
        apply elem_of_cons in Hl2 as [->|]; [|done]. by destruct (owner_unique e2 e' l).
      * intros Hn. erewrite bind_ret; [|apply IH2]; [done|]. intros Hall. apply Hn. constructor; [by exists e'|done].
    + split; [intros [(e' & He' & Ho) _]%Forall_cons; by destruct (Hno e')|]. intros _.
      erewrite bind_ret by by apply em_lookup_missing. done.
  - assert (owns e l) as Ho by (unfold owns; lia). destruct (IH e He Hge Hs) as [IH1 IH2]. split.
    + intros [_ Hall]%Forall_cons. destruct (IH1 Hall) as (starts & Hr & Hso & Hx). exists starts.
      split; [done|]. split; [done|]. intros x. rewrite Hx. split.
      * intros (e2 & l2 & ? & ? & ? & ? & ?). exists e2, l2. split_and!; try done. by right.
      * intros (e2 & l2 & ? & ? & Hl2 & Ho2 & Hne). exists e2, l2. split_and!; try done.
        apply elem_of_cons in Hl2 as [->|]; [|done]. by destruct (owner_unique e2 e l).
    + intros Hn. apply IH2. intros Hall. apply Hn. constructor; [by exists e|done].
Qed.
End Extents.

Lemma merge_sort_sorted l : StronglySorted Z.le (merge_sort Z.le l).
Proof. apply StronglySorted_merge_sort; [intros x y z; lia|apply _]. Qed.

(** C25 [DBRM::getUncommittedExtentLBIDs] returns the first block of every extent the
    transaction has written to, each once and in ascending order; it fails exactly
    when a block of the transaction is in no extent.  It gives its locks back. *)
Theorem uncommitted_extents_exact t r :
  em_inv (u_mem (reader_em r)) →
  let blocks := getUncommittedLBIDs t (vss_of r) in
  (Forall (owned r) blocks →
   ∃ starts, dbrm_getUncommittedExtentLBIDs t r = (Ret (0, starts), r) ∧ StronglySorted Z.lt starts ∧
     ∀ x, x ∈ starts ↔ ∃ e l, e ∈ EmInv.live (u_mem (reader_em r)) ∧ x = ir_start (range e) ∧ l ∈ blocks ∧ owns e l)
  ∧ (¬ Forall (owned r) blocks → ∃ out, dbrm_getUncommittedExtentLBIDs t r = (Ret (-1, out), r)).
Proof.
  intros Hi blocks. pose proof (merge_sort_sorted blocks) as Hs. pose proof (merge_sort_Permutation Z.le blocks) as Hp.
  assert (Forall (owned r) blocks ↔ Forall (owned r) (merge_sort Z.le blocks)) as HF by by rewrite Hp.
  assert (∀ l, l ∈ blocks ↔ l ∈ merge_sort Z.le blocks) as HE by (intros l; by rewrite Hp).
  unfold dbrm_getUncommittedExtentLBIDs. erewrite !bind_ret by by apply under_vss_run. fold blocks.
  rewrite !HF. setoid_rewrite HE. clear HF HE Hp. destruct (merge_sort Z.le blocks) as [|l rest].
  { split; [|intros []; constructor]. intros _. exists []. split; [done|]. split; [constructor|].
    intros x. split; [by intros ?%elem_of_nil|]. intros (? & ? & _ & _ & ?%elem_of_nil & _). done. }
  apply StronglySorted_inv in Hs as [Hs Hl]. unfold catch. destruct (owned_dec r l) as [(e & He & Ho)|Hno].
  - erewrite !bind_ret by by apply em_lookup_found.
    assert (Forall (fun l => ir_start (range e) ≤ l) rest) as Hge.
    { eapply Forall_impl; [exact Hl|]. unfold owns in Ho. cbn. lia. }
    destruct (extent_starts_run r Hi rest e He Hge Hs) as [H1 H2]. split.
    + intros [_ Hall]%Forall_cons. destruct (H1 Hall) as (starts & Hr & Hso & Hx).
      erewrite bind_ret by exact Hr. exists (ir_start (range e) :: starts). split; [done|]. split; [done|].
      intros x. rewrite elem_of_cons, Hx. split.
      * intros [->|(e2 & l2 & ? & ? & ? & ? & _)]; [exists e, l|exists e2, l2]; split_and!; try done; by constructor.
      * intros (e2 & l2 & He2 & -> & Hl2 & Ho2).
        destruct (decide (ir_start (range e2) = ir_start (range e))) as [|Hd]; [by left|]. right.
        exists e2, l2. assert (e2 ≠ e) by congruence. split_and!; try done.
        apply elem_of_cons in Hl2 as [->|]; [|done]. by destruct (owner_unique r Hi e2 e l).
    + intros Hn. erewrite bind_ret; [|apply H2]; [eauto|]. intros Hall. apply Hn. constructor; [by exists e|done].
  - split; [intros [(e & He & Ho) _]%Forall_cons; by destruct (Hno e)|]. intros _.
    erewrite bind_ret by by apply em_lookup_missing. eauto.
Qed.

(** ** Instances *)

Definition reader_of (v : VSS) : Reader :=
  mkReader (mkNode em_sample vbbm1 v cl1 false false false) 0 0 0 false.

Lemma bulk_lookup_snapshot_witness :
  (∃ out, dbrm_bulkVSSLookup [7; 9] (mkQC 5 {[3]}) 4 (reader_of vss2) = (Ret (0, out), reader_of vss2) ∧
     Forall2 (fun l vd => lookup_result (u_mem vss2) l (mkQC 5 {[3]}) 4 false
                            (vd_returnCode vd, vd_verID vd, vd_vbFlag vd)) [7; 9] out) ∧
  (dbrm_bulkVSSLookup [7; 9] (mkQC 5 {[3]}) 4 (reader_of vss2)).1 = Ret (0, [mkVD 0 true 0; mkVD 0 false (-1)]) ∧
  (dbrm_bulkVSSLookup [7] (mkQC 5 {[3]}) 4 (reader_of vss0)).1 = Ret (0, [mkVD 0 false (-1)]).
Proof.
  split; [|split; vm_compute; reflexivity].
  apply (bulk_lookup_snapshot [7; 9] (mkQC 5 {[3]}) 4 (reader_of vss2)); [apply vss2_inv| |cbn; lia].
  intros e He. destruct vss2_inv as [Hi Ha]. apply (in_table_abs _ _ Hi) in He. rewrite Ha in He.
  apply lookup_insert_Some in He as [[[= _ <-] _]|[_ He]]; [lia|].
  apply lookup_singleton_Some in He as [[= _ <-] _]. lia.
Defined.

(** Transaction 3 has written blocks 7, 5000 and 5001. *)
Definition vss_touched : VSS :=
  (vss_insert 5001 3 false true false (vss_insert 5000 3 false true false vss2).2).2.

Lemma uncommitted_extents_exact_witness :
  let r := reader_of vss_touched in
  getUncommittedLBIDs 3 (vss_of r) = [7; 5000; 5001] ∧
  ∃ starts, dbrm_getUncommittedExtentLBIDs 3 r = (Ret (0, starts), r) ∧ StronglySorted Z.lt starts ∧
    ∀ x, x ∈ starts ↔ ∃ e l, e ∈ EmInv.live (u_mem (reader_em r)) ∧ x = ir_start (range e)
                             ∧ l ∈ getUncommittedLBIDs 3 (vss_of r) ∧ owns e l.
Proof.
  intros r. assert (getUncommittedLBIDs 3 (vss_of r) = [7; 5000; 5001]) as Hb by (vm_compute; reflexivity).
  split; [exact Hb|]. apply (uncommitted_extents_exact 3 r em_sample_inv). rewrite Hb.
  assert (∀ l e, e ∈ sample_extents → owns e l → owned (reader_of vss_touched) l) as Ho.
  { intros l e He Hl. exists e. split; [|exact Hl]. unfold reader_em, reader_of. cbn [r_node sn_em].
    rewrite em_sample_live. exact He. }
  repeat constructor.
  - apply (Ho 7 (mkEM (mkIR 0 4) 3000 0 0 0 0 1 4 1 (no_cp INT 2))); [by left|unfold owns, ir_end; cbn; lia].
  - apply (Ho 5000 (mkEM (mkIR 4096 4) 3000 0 0 0 1 1 4 1 (no_cp INT 0))); [right; by left|unfold owns, ir_end; cbn; lia].
  - apply (Ho 5001 (mkEM (mkIR 4096 4) 3000 0 0 0 1 1 4 1 (no_cp INT 0))); [right; by left|unfold owns, ir_end; cbn; lia].
Defined.

(** ** Locks for reading ahead *)

Lemma at_copylocks_run {A} (op : M CopyLocks A) r a c :
  op (sn_copylocks (r_node r)) = (Ret a, c) →
  ∃ r', at_copylocks op r = (Ret a, r') ∧ sn_copylocks (r_node r') = c ∧ r_clw r' = r_clw r.
Proof.
  intros Ho. unfold at_copylocks, at_node, on_cl, zoom. rewrite Ho. eexists. split; [reflexivity|]. done.
Qed.

Lemma confirm_cl_run c : @confirmChanges cl_delta CLMem c = (Ret tt, mkUndoable (u_mem c) []).
Proof. by destruct c. Qed.

(** Other processes keep the copy locks in order. *)
Definition orderly (env : nat → Node → Node) : Prop :=
  ∀ k n, cl_inv (u_mem (sn_copylocks n)) → cl_inv (u_mem (sn_copylocks (env k n))).

Lemma wait_unlocked_run env retries range r :
  orderly env → cl_inv (cl_of r) → r_clw r = true →
  ∃ out r', wait_unlocked env retries range r = (Ret out, r') ∧ cl_inv (cl_of r') ∧ r_clw r' = true ∧
    (out = false → cl_isLocked range (cl_of r') = false).
Proof.
  intros He. revert r. induction retries as [|k IH]; intros r Hi Hw; cbn [wait_unlocked].
  { exists true, r. done. }
  unfold at_cl, gets. unfold mbind at 1, M_bind. fold (cl_of r).
  destruct (cl_isLocked range (cl_of r)) eqn:Hl; [|by exists false, r].
  unfold cl_write, modify, mbind, M_bind. cbn. apply IH; [|done]. apply He. exact Hi.
Qed.

Lemma filter_disjoint range l :
  Forall (fun e => intersects range e = false) (List.filter (fun e => negb (intersects range e)) l).
Proof. apply Forall_forall. intros e He%list_elem_of_In%filter_In. apply negb_true_iff, (proj2 He). Qed.

(** The range is free when it is locked: the wait found it so, or it was freed. *)
Lemma range_freed env range r :
  orderly env → cl_inv (cl_of r) → r_clw r = true →
  ∃ r', (out ← wait_unlocked env lock_maxRetries range;
         if out : bool then at_copylocks (forceRelease range) else mret tt) r = (Ret tt, r') ∧
    cl_inv (cl_of r') ∧ r_clw r' = true ∧ Forall (fun e => intersects range e = false) (locks (cl_of r')).
Proof.
  intros He Hi Hw. destruct (wait_unlocked_run env lock_maxRetries range r He Hi Hw) as ([|] & r1 & Hr & Hi1 & Hw1 & Ho).
  - destruct (releaseRange_spec range _ Hi1) as (c & Hc & Hic & Hl).
    destruct (at_copylocks_run (forceRelease range) r1 tt c Hc) as (r2 & Hr2 & Hc2 & Hw2).
    exists r2. erewrite bind_ret by exact Hr. split; [done|]. unfold cl_of. rewrite Hc2, Hl, Hw2.
    split; [done|]. split; [done|]. apply filter_disjoint.
  - exists r1. erewrite bind_ret by exact Hr. split; [done|]. split; [done|]. split; [done|].
    specialize (Ho eq_refl). rewrite cl_isLocked_spec in Ho by done. apply Forall_forall. intros e Hin.
    destruct (intersects range e) eqn:Hx; [|done]. rewrite <- Ho. symmetry. apply existsb_exists.
    exists e. split; [by apply list_elem_of_In|done].
Qed.

Lemma release_run start count r :
  cl_inv (cl_of r) →
  ∃ r', dbrm_releaseLBIDRange start count r = (Ret tt, r') ∧ cl_inv (cl_of r') ∧ r_clw r' = false ∧
    locks (cl_of r') = List.filter (fun e => negb (intersects (mkRange start count) e)) (locks (cl_of r)).
Proof.
  intros Hi. set (r0 := mkReader (r_node r) (r_vbbm r) (r_vss r) (r_cl r) true).
  destruct (releaseRange_spec (mkRange start count) (sn_copylocks (r_node r0)) Hi) as (c1 & Hc1 & Hi1 & Hl1).
  destruct (at_copylocks_run _ r0 tt c1 Hc1) as (r1 & H1 & Hr1 & Hw1).
  destruct (at_copylocks_run _ r1 tt _ (confirm_cl_run _)) as (r2 & H2 & Hr2 & Hw2).
  exists (mkReader (r_node r2) (r_vbbm r2) (r_vss r2) (r_cl r2) false).
  unfold dbrm_releaseLBIDRange. erewrite bind_ret by reflexivity. fold r0. unfold catch.
  erewrite bind_ret by exact H1. erewrite bind_ret by exact H2. unfold cl_of. cbn [r_node].
  rewrite Hr2, Hr1. done.
Qed.

Lemma filter_disjoint_id range l :
  Forall (fun e => intersects range e = false) l → List.filter (fun e => negb (intersects range e)) l = l.
Proof. induction 1 as [|e l He _ IH]; [done|]. cbn. by rewrite He, IH. Qed.

(** C26 [DBRM::lockLBIDRange] always returns with the range locked for reading ahead
    and by nobody else, whatever other processes do with the copy locks while it
    waits (after thirty seconds it takes the range by force), with the lock of the
    table released and nothing left to undo; [releaseLBIDRange] then takes exactly
    that lock away. *)
Theorem read_ahead_lock_exclusive env start count r :
  orderly env → cl_inv (cl_of r) → 0 < count →
  ∃ r' r'' others,
    dbrm_lockLBIDRange env start count r = (Ret tt, r') ∧ cl_inv (cl_of r') ∧ r_clw r' = false ∧
    undoRecords (sn_copylocks (r_node r')) = [] ∧
    locks (cl_of r') ≡ₚ mkCL start count (-1) :: others ∧
    Forall (fun e => intersects (mkRange start count) e = false) others ∧
    dbrm_releaseLBIDRange start count r' = (Ret tt, r'') ∧ cl_inv (cl_of r'') ∧ r_clw r'' = false ∧
    locks (cl_of r'') ≡ₚ others.
Proof.
  intros He Hi Hc. set (range := mkRange start count).
  set (r0 := mkReader (r_node r) (r_vbbm r) (r_vss r) (r_cl r) true).
  destruct (range_freed env range r0 He Hi eq_refl) as (r1 & H1 & Hi1 & Hw1 & Hf).
  destruct (lockRange_spec range (-1) _ Hi1 Hc) as (c2 & Hc2 & Hi2 & Hl2).
  destruct (at_copylocks_run _ r1 tt c2 Hc2) as (r2 & H2 & Hr2 & Hw2).
  destruct (at_copylocks_run _ r2 tt _ (confirm_cl_run _)) as (r3 & H3 & Hr3 & Hw3).
  set (r4 := mkReader (r_node r3) (r_vbbm r3) (r_vss r3) (r_cl r3) false).
  assert (cl_of r4 = u_mem c2) as H4 by (unfold cl_of; cbn [r4 r_node]; by rewrite Hr3, <- Hr2).
  assert (dbrm_lockLBIDRange env start count r = (Ret tt, r4)) as Hlock.
  { unfold dbrm_lockLBIDRange. erewrite bind_ret by reflexivity. unfold catch. fold range r0.
    rewrite <- assoc_run. erewrite bind_ret by exact H1. erewrite bind_ret by exact H2.
    erewrite (bind_ret _ _ r2) by exact H3. done. }
  destruct (release_run start count r4) as (r5 & H5 & Hi5 & Hw5 & Hl5); [by rewrite H4|].
  exists r4, r5, (locks (cl_of r1)). split; [done|]. rewrite H4. split_and!; try done.
  - cbn [r4 r_node]. by rewrite Hr3.
  - assert (intersects range (mkCL start count (-1)) = true) as Hx.
    { unfold intersects. cbn. rewrite (proj2 (Z.eqb_neq _ _)), !(proj2 (Z.leb_le _ _)) by lia. done. }
    rewrite Hl5, H4, (filter_perm _ _ _ Hl2). fold range. cbn [List.filter]. change (range_start range) with start. change (range_size range) with count. rewrite Hx. cbn [negb].
    fold (cl_of r1). by rewrite (filter_disjoint_id _ _ Hf).
Qed.

Definition reader0 : Reader := reader_of vss0.

(** The range is held by transaction 3, which never releases it. *)
Lemma read_ahead_lock_exclusive_witness :
  (∃ r' r'' others,
    dbrm_lockLBIDRange (fun _ n => n) 104 4 reader0 = (Ret tt, r') ∧ cl_inv (cl_of r') ∧ r_clw r' = false ∧
    undoRecords (sn_copylocks (r_node r')) = [] ∧
    locks (cl_of r') ≡ₚ mkCL 104 4 (-1) :: others ∧
    Forall (fun e => intersects (mkRange 104 4) e = false) others ∧
    dbrm_releaseLBIDRange 104 4 r' = (Ret tt, r'') ∧ cl_inv (cl_of r'') ∧ r_clw r'' = false ∧
    locks (cl_of r'') ≡ₚ others) ∧
  cl_isLocked (mkRange 104 4) (cl_of reader0) = true.
Proof.
  split; [|vm_compute; reflexivity].
  apply (read_ahead_lock_exclusive (fun _ n => n) 104 4 reader0); [by intros k n|exact cl1_inv|lia].
Defined.

(** ** What a query reads after a write

    The two calls a query makes for a block, on the memory of a node on which another
    transaction has just versioned it: it is told the version before the write, and
    led to the place in the version buffer that the write copied it to. *)
Lemma client_reads_old_version t l oid fbo (n n' : Node) c q t' rc r :
  node_inv n → 0 ≤ l → c < t → current_version (node_a n) l c false →
  writeVBEntry t l oid fbo n = (Ret rc, n') →
  t' ≠ t → t ∈ txns q ∨ currentScn q < t → 0 ≤ currentScn q → c ≤ currentScn q → c ∉ txns q →
  r_node r = n' →
  dbrm_vssLookup l q t' false r = (Ret (0, Some (mkVD c true 0)), r) ∧
  dbrm_lookupLocal l c true r = (Ret (0, Some (InVB oid fbo)), r).
Proof.
  intros Hn Hl Hct Hc Hrun Ht Hq Hq0 Hscn Hcq Hr.
  destruct (write_isolation t l oid fbo n n' c q t' rc) as [Hv Hb]; try done.
  destruct (writeVBEntry_unlocked _ _ _ _ _ _ _ Hrun) as [Hk0 Hk1].
  destruct (writeVBEntry_spec t l oid fbo n c false Hn Hk0 Hk1 Hl Hc) as (n1 & Hrun1 & _ & _ & _ & _ & Hn1 & _). specialize (Hn1 ltac:(done)).
  rewrite Hrun in Hrun1. injection Hrun1 as _ <-.
  assert (vss_of r = u_mem (sn_vss n')) as Hvs by (unfold vss_of; by rewrite Hr).
  assert (vss_isEmpty (vss_of r) = false) as Hne.
  { destruct (vss_isEmpty (vss_of r)) eqn:Hem; [|done]. rewrite Hvs in Hem.
    pose proof (ni_vss _ Hn1) as Hi. pose proof (abs_nonneg _ _ Hi (ni_versions _ Hn1)) as Hp.
    destruct (vss_lookup_spec _ l q t' false (si_struct _ Hi) Hp Hq0) as (res & Hres & Hlr).
    rewrite Hv in Hres. injection Hres as <-.
    destruct Hlr as [(e & _ & He & _)|[[? _]|[? _]]]; [|done..]. by destruct (empty_no_entry _ e Hi Hem). }
  rewrite <- Hvs in Hv. split.
  - unfold dbrm_vssLookup.
    assert ((vss_reads 1 ≫= fun _ => rc ← at_vss (fun m => Ret (vss_isEmpty m));
             vss_reads (-1) ≫= fun _ => mret rc) r = (Ret false, r)) as He.
    { unfold vss_reads, modify, at_vss, mbind, M_bind. cbn. unfold vss_of in Hne. rewrite Hne.
      destruct r. cbn. do 2 f_equal. lia. }
    erewrite bind_ret by exact He. unfold or_code, catch. erewrite bind_ret by (apply under_vss_run; exact Hv). done.
  - unfold dbrm_lookupLocal, or_code, catch. cbn [negb].
    erewrite bind_ret; [|apply under_vbbm_run; unfold vbbm_of; rewrite Hr; exact Hb]. done.
Qed.

(** ** Reads that do not do what they mean to *)

(** [saveState] does not look at what [saveExtentMap] returns: with an extent map that
    cannot be saved it writes the other two files and reports success. *)
Lemma saveState_ignores_extent_map r :
  (∃ e, EM_save (reader_em r) = (Exn e, reader_em r) ∧ is_exception e = true) →
  dbrm_saveState r = (Ret (0, (None, vb_save (vbbm_of r), vss_save (vss_of r))), r).
Proof.
  intros (e & He & Hx). unfold dbrm_saveState.
  assert (∀ r', r_node r' = r_node r → dbrm_saveExtentMap r' = (Ret (-1, None), r')) as Hs.
  { intros r' Hr. unfold dbrm_saveExtentMap, em_call, or_code, catch.
    assert (at_em EM_save r' = (Exn e, r')) as Ha by (apply at_em_run; unfold reader_em in *; by rewrite Hr).
    erewrite bind_exn by exact Ha. by rewrite Hx. }
  erewrite bind_ret; [done|].
  do 3 (eapply under_run; [apply _| |done]). cbn beta. unfold mbind at 1, M_bind.
  rewrite Hs by done. unfold at_vbbm, at_vss, mbind, M_bind. done.
Qed.

(** The number of a DBRoot is taken for an error code, and the two read locks are kept. *)
Lemma rollback_roots_keeps_locks {S} (getRoot : Z → M S Z) t r s oids oid rest root s' :
  vb_oids t (lbidPruner (getUncommittedLBIDs t (vss_of r))) (vbbm_of r) = Ret oids →
  sorted_set oids = oid :: rest → getRoot oid s = (Ret root, s') → root ≠ 0 →
  dbrm_getDBRootsForRollback getRoot t (r, s) =
    (Ret (ERR_FAILURE, None), (mkReader (r_node r) (r_vbbm r + 1) (r_vss r + 1) (r_cl r) (r_clw r), s')).
Proof.
  intros Ho Hs Hg Hr. unfold dbrm_getDBRootsForRollback, catch, on_fst, on_snd, zoom, at_vss, at_vbbm,
    vbbm_reads, vss_reads, modify, mbind, M_bind, mret, M_ret. cbn.
  unfold vss_of, vbbm_of in Ho. rewrite Ho. cbn. rewrite Hs. cbn. unfold mbind, M_bind. rewrite Hg.
  rewrite (proj2 (Z.eqb_neq _ _) Hr). done.
Qed.

Lemma prune_elem l acc x : x ∈ foldl prune acc l → x ∈ acc ∨ x ∈ l.
Proof.
  revert acc. induction l as [|y l IH]; intros acc; cbn; [by left|]. intros [Hx|Hx]%IH; [|right; by right].
  unfold prune in Hx. destruct (existsb _ acc); [by left|].
  apply elem_of_app in Hx as [Hx|Hx]; [by left|]. right. apply list_elem_of_singleton in Hx as ->. by left.
Qed.

Lemma vb_oids_none t ls m : (∀ l, l ∈ ls → lookup l t m = Ret None) → vb_oids t ls m = Ret [].
Proof.
  induction ls as [|l ls IH]; intros H; [done|]. cbn. rewrite (H l) by by left. cbn.
  rewrite IH; [done|]. intros x Hx. apply H. by right.
Qed.

Lemma uncommitted_abs t m l : vss_inv m → l ∈ getUncommittedLBIDs t m → ∃ f, vss_abs m !! (l, t) = Some f.
Proof.
  intros Hi. unfold getUncommittedLBIDs. rewrite storage_of_all by done. intros (e & -> & He)%list_elem_of_fmap.
  apply list_elem_of_In, filter_In in He as [He Ht]. apply filter_In in He as [He Hu]. zbool.
  apply list_elem_of_In, zget_elem_of in He as [i He].
  exists (vbFlag e, locked e). subst t. apply (in_table_abs _ _ Hi). exists i. split; [done|]. by apply usedb_true.
Qed.

(** It also looks for the wrong version: what a transaction that has not ended has
    written is not in the version buffer, and the list comes out empty. *)
Lemma rollback_roots_empty {S} (getRoot : Z → M S Z) t r s :
  node_inv (r_node r) → 0 ≤ t →
  (∀ l f, node_a (r_node r) !! (l, t) = Some f → f = (false, true)) →
  dbrm_getDBRootsForRollback getRoot t (r, s) = (Ret (0, Some []), (r, s)).
Proof.
  intros Hn Ht Ha.
  assert (vb_oids t (lbidPruner (getUncommittedLBIDs t (vss_of r))) (vbbm_of r) = Ret []) as Ho.
  { apply vb_oids_none. intros l Hl. unfold lbidPruner in Hl. rewrite merge_sort_Permutation in Hl.
    apply prune_elem in Hl as [?%elem_of_nil|Hl]; [done|].
    destruct (uncommitted_abs t (vss_of r) l (ni_vss _ Hn) Hl) as [f Hf].
    rewrite lookup_spec; [|apply Hn|apply (vo_nonneg _ _ (ni_versions _ Hn) _ _ _ Hf)|done]. f_equal.
    apply eq_None_not_Some. intros (lck & Hv)%(vo_vb _ _ (ni_versions _ Hn)).
    pose proof (Ha l f Hf). pose proof (Ha l _ Hv). done. }
  unfold dbrm_getDBRootsForRollback, catch, on_fst, on_snd, zoom, at_vss, at_vbbm,
    vbbm_reads, vss_reads, modify, mbind, M_bind, mret, M_ret. cbn.
  unfold vss_of, vbbm_of in Ho. rewrite Ho. cbn. destruct r. cbn. do 3 f_equal; lia.
Qed.
