(* ===== verification/ClusterTheorems.v ===== *)
(** * Calls of the client on the whole system

    The client, the controller and its workers together. *)

From S2P Require Import Prelude BinFile ByteStream Undo Table Vbbm VbbmProofs Vss VssProofs VssWrite VssUndo CopyLocks SlaveNode SlaveProofs Samples ColType ExtentMap EmCp EmCreate EmDelete EmQuery EmFile EmSpace EmInv EmKeeps EmPlace EmLayout EmHwm EmRollback EmLoad EmTheorems NodeEm Wire SlaveComm SlaveServe DbrmClient ClientWorker ClientProofs ServeProofs ResourceGraph Session OidServer TableLock AutoInc MasterNode MasterProofs MasterServers DbrmServers ServerCalls ServerProofs NodeEmProofs WorkerTheorems JournalTheorems.

(** C3 A call of the client on the whole system, over a network that works and with
    workers that have the same node: the call returns what the operation of the node
    returns, with its numbers at their width, and all workers have the same node
    again.  They have confirmed the operation if it succeeded and undone it if it
    failed; but a call that deletes, disables or restores partitions and fails is
    confirmed, undone before only if its code is not one of the five that mean that
    nothing was to be done ([settle]).  [beginVBCopy] uses the version buffer file of the dbroot.  Of the
    controller's own state, only the sequences of deleted columns have gone. *)
Theorem call_carried_out E fuel q a n n1 n' img m :
  network_up E → x_open E = true → request_fits q → vboid_known (oids m) q → cluster n m →
  op (x_world E) (on_vboid (oids m) q) n = (Ret a, n1) → answer_fits a →
  settle (on_vboid (oids m) q) a n1 = (Ret tt, n') → saveState n' = (Ret img, n') →
  ∃ m', client (ask E (S fuel)) q m = (Ret (seen a), m') ∧ cluster n' m' ∧
        servers m' = (sm m, oids m, tableLocks m, tableLockFile m, sequences_after q (aiManager m)).
Proof.
  intros [Hnet Hhalt] Ho Hq Hv Hcl Hop Hf Hs Hi.
  destruct (worker_command_run (x_world E) (x_open E) (x_order E) _ _ (x_resumes E) Hnet Hhalt fuel q a n n1 n' img m)
    as (m' & Hr & Hc & Hsv); [done..|].
  exists (set_ai (sequences_after q (aiManager m')) m'). split; [|split; [exact Hc|]].
  - eapply client_sends; [exact Hq|by apply ask_worker|]. apply client_reads; [|exact Hf|apply drops_run].
    apply op_answers in Hop. by destruct q.
  - injection Hsv as H1 H2 H3 H4 H5. unfold servers. cbn. by rewrite H1, H2, H3, H4, H5.
Qed.

(** ** A small system *)

(** Two workers, the first of which keeps a journal. *)
Definition oids0 : OIDServer := mkOID (mkOFile 0 (fun _ => 0)) [] [1].
Definition system (n : Node) : MasterDBRMNode :=
  mkMaster [mkLink (first_worker n [] None None None None) (fun _ _ => false) []; mkLink (other_worker n) (fun _ _ => false) []] 2 false false false
    (mkSM 0 0 0 0 0 0 [] 0 false None) oids0 [] None [] (mkRG ∅ ∅ ∅ 0) 0.

Lemma idle_first n : idle n (mkLink (first_worker n [] None None None None) (fun _ _ => false) []).
Proof. by repeat split. Qed.
Lemma idle_other n : idle n (mkLink (other_worker n) (fun _ _ => false) []).
Proof. by repeat split. Qed.

Lemma system_cluster n : cluster n (system n).
Proof. split; [done|]. split; [|done]. by apply Forall_cons_2; [apply idle_first|apply Forall_singleton, idle_other]. Qed.

(** Nothing outside goes wrong. *)
Definition calm : Outside :=
  mkOutside world0 true (fun _ => []) (fun _ => false) (fun _ => false) (fun _ => false) (fun _ => IoOk) (fun _ => true) (fun _ => 0) None.
Abbreviation ask0 := (ask calm).

Lemma calm_up : network_up calm.
Proof. by split. Qed.

Lemma call_carried_out_witness :
  ∃ m', client (ask0 1) (WriteVBEntry 4 6 1 8) (system worker2) = (Ret (ACode 0), m') ∧ cluster worker3 m' ∧
        servers m' = servers (system worker2).
Proof.
  apply (call_carried_out calm 0
           (WriteVBEntry 4 6 1 8) (ACode 0) worker2 (writeVBEntry 4 6 1 8 worker2).2 worker3
           (match saveState worker3 with (Ret i, _) => i | _ => None end) (system worker2)).
  - apply calm_up.
  - reflexivity.
  - cbn. unfold is_s, is_u. lia.
  - exact I.
  - apply system_cluster.
  - vm_compute. reflexivity.
  - intros He. lia.
  - vm_compute. reflexivity.
  - vm_compute. reflexivity.
Defined.

(** ** Workers that do not agree *)

(** C13 Over a network that works, when two workers answer differently to a command
    that does not delete, disable or restore partitions, the client is told that the
    workers are inconsistent, every worker undoes the command, and from then on every
    command is refused and reaches no worker.  For the other three commands the
    difference goes unreported ([partition_divergence_unreported]). *)
Theorem divergence_stops E fuel q xs m :
  network_up E → request_fits q → vboid_known (oids m) q →
  partition_error (command_of q) ERR_SLAVE_INCONSISTENCY = false →
  Forall (works (x_world E) (on_vboid (oids m) q)) xs → Forall2 (fun x l => idle (wk_node x) l) xs (slaves m) →
  open_for_commands m → disagree xs →
  ∃ m', client (ask E (S fuel)) q m = (Ret (ACode ERR_SLAVE_INCONSISTENCY), m') ∧
        Forall2 (fun x l => idle (wk_undone x) l) xs (slaves m') ∧
        ∀ q', ∃ m'', ask E (S fuel) (message q') m' = (Ret (ERR_OK, put8 ERR_READONLY), m'') ∧ slaves m'' = slaves m'.
Proof.
  intros [Hnet Hhalt] Hq Hv Hp Hw Hid Ho Hd.
  destruct (divergence_run (x_world E) (x_open E) (x_order E) _ _ (x_resumes E) Hnet Hhalt fuel q xs m Hq Hv Hp Hw Hid Ho Hd)
    as (m' & Hr & Hro & Hh & Hlk & Hu). exists (set_ai (sequences_after q (aiManager m')) m'). split; [|split; [exact Hu|]].
  - eapply client_sends; [exact Hq|by apply ask_worker|].
    apply (client_reads _ q (ACode ERR_SLAVE_INCONSISTENCY)); [|done|apply drops_run]. by destruct q.
  - intros q'. destruct (read_only_run (x_world E) (x_open E) (x_order E) (x_refused E) _ (x_resumes E) Hhalt fuel (message q')
      (set_ai (sequences_after q (aiManager m')) m') Hro Hh Hlk (message_cons q')) as (k & Hk).
    eexists. split; [by apply ask_worker|done].
Qed.

(** One worker has missed the write of transaction 4. *)
Definition split_system : MasterDBRMNode :=
  set_slaves [mkLink (first_worker worker3 [] None None None None) (fun _ _ => false) []; mkLink (other_worker worker2) (fun _ _ => false) []] (system worker3).
Definition split_works : list Work :=
  [mkWork worker3 (ACode 17) (writeVBEntry 3 6 1 9 worker3).2 (sn_undoChanges (writeVBEntry 3 6 1 9 worker3).2).2;
   mkWork worker2 (ACode 0) (writeVBEntry 3 6 1 9 worker2).2 (sn_undoChanges (writeVBEntry 3 6 1 9 worker2).2).2].

Lemma divergence_stops_witness :
  ∃ m', client (ask0 1) write1 split_system = (Ret (ACode ERR_SLAVE_INCONSISTENCY), m') ∧
        Forall2 (fun x l => idle (wk_undone x) l) split_works (slaves m') ∧
        ∀ q', ∃ m'', ask0 1 (message q') m' = (Ret (ERR_OK, put8 ERR_READONLY), m'') ∧ slaves m'' = slaves m'.
Proof.
  apply (divergence_stops calm 0 write1 split_works split_system).
  - apply calm_up.
  - cbn. unfold is_s, is_u. lia.
  - exact I.
  - reflexivity.
  - constructor; [split; vm_compute; reflexivity|]. constructor; [split; vm_compute; reflexivity|constructor].
  - constructor; [apply idle_first|]. constructor; [apply idle_other|constructor].
  - repeat split.
  - eexists _, _. split; [apply list_elem_of_here|]. split; [apply list_elem_of_further, list_elem_of_here|]. vm_compute. discriminate.
Defined.

(** ** Where the controller and the client do something else than they mean to *)

(** When no version buffer OID can be allocated, the client gets the code -1 and the
    lock is kept: the next command waits for it forever. *)
Lemma begin_copy_keeps_lock :
  let m := set_oids (mkOID (mkOFile 0 (fun _ => 0)) (replicate 10 Failed) [1]) (system worker2) in
  let r := client (ask0 1) (BeginVBCopy 4 2 []) m in
  r.1 = Ret (ACode 255) ∧ slaveLock r.2 = true ∧ (client (ask0 1) write0 r.2).1 = Exn OutOfFuel.
Proof. vm_compute. repeat split. Qed.

(** A command that is tried again after a lost answer has its dbroot translated
    twice: here the version buffer file of dbroot 1 has OID 0, and the second attempt
    allocates a file for dbroot 0. *)
Lemma begin_copy_retried_translates_twice :
  let ask_again := ask (mkOutside world0 true (fun _ => []) (fun t => (t =? 6)%nat) (fun _ => false) (fun _ => true)
                           (fun _ => IoOk) (fun _ => true) (fun _ => 0) None) in
  let r := client (ask_again 2%nat) (BeginVBCopy 4 1 []) (system worker2) in
  vbOidDBRootMap (oids (system worker2)) = [1] ∧ vbOidDBRootMap (oids r.2) = [1; 0].
Proof. vm_compute. repeat split. Qed.

(** A partition command the workers do not agree on is undone and makes the
    controller read-only, and the client is told that it has succeeded. *)
Lemma partition_divergence_unreported :
  let m := set_slaves [mkLink (first_worker worker2 [] None None None None) (fun _ _ => false) []; mkLink (other_worker worker_hole) (fun _ _ => false) []] (system worker2) in
  let r := client (ask0 1) (MarkPartition [3000] [(1, 0, 0)]) m in
  r.1 = Ret (ACode 0) ∧ readOnly r.2 = true ∧
  (status <$> live (node_em (slave (l_worker (default (mkLink (other_worker worker2) (fun _ _ => false) []) (slaves r.2 !! 0%nat)))))) =
    (status <$> live (node_em worker2)).
Proof. split; [vm_compute; reflexivity|]. split; vm_compute; reflexivity. Qed.

(** The partition calls look for a text behind every error: the one-byte answer of a
    controller that is read-only ends the client. *)
Lemma partition_call_read_only :
  (client (ask0 1) (MarkPartition [3000] [(1, 0, 0)]) (set_readOnly true (system worker2))).1 = Exn Segfault.
Proof. vm_compute. reflexivity. Qed.

(** The worker reads the partition of [createStripeColumnExtents] as 16 bits. *)
Lemma stripe_partition_truncated : (get_stripe (body (CreateStripe [] 1 65537))).1 = Ret ([], 1, 1).
Proof. vm_compute. reflexivity. Qed.
