(* ===== verification/ServerTheorems.v ===== *)
(** * Calls of the controller's servers, on the whole system

    The client, the controller with its own servers, and the workers it asks for the
    owners of table locks. *)

From S2P Require Import Prelude BinFile ByteStream StdMap Undo Table Vbbm Vss CopyLocks SlaveNode ColType ExtentMap EmFile NodeEm Wire SlaveComm SlaveServe ResourceGraph Session OidServer TableLock AutoInc MasterNode MasterProofs MasterServers DbrmClient ClientWorker ClientProofs ServeProofs DbrmServers ServerCalls ServerProofs Samples WorkerTheorems JournalTheorems ClusterTheorems.

(** ** The workers are asked for the owner of a lock *)

Definition owner_msg (name : list Z) (pid : Z) : list Z := put8 OWNER_CHECK ++ put_string name ++ put32 pid.

Lemma process_owner W can_open procs n name pid c :
  ready n c → is_string name → is_u 32 pid →
  ∃ c', serve W can_open procs (owner_msg name pid) c = (Ret tt, c') ∧ ready n c' ∧
        sent c' = sent c ++ [put8 (put_bool (procs pid name))].
Proof.
  intros (Hs & Hst & Ho & Hfl) Hn Hp. set (c0 := if firstSlave c then with_delta (owner_msg name pid) c else c).
  assert (processCommand W can_open procs (owner_msg name pid) c = answer (put8 (put_bool (procs pid name))) c0) as Hpr.
  { unfold processCommand. erewrite (bind_ret _ _ _ c); [|reflexivity]. unfold id.
    assert ((if firstSlave c
             then cmd ← lift (peek8 (owner_msg name pid)); modify (fun c => if cmd =? CONFIRM then c else with_delta (owner_msg name pid) c)
             else mret tt) c = (Ret tt, c0)) as Hd.
    { unfold c0, owner_msg, peek8. rewrite get8_put. by destruct (firstSlave c). }
    rewrite (bind_ret _ _ _ _ _ Hd). unfold owner_msg at 1. rewrite get8_put. change (u8 OWNER_CHECK) with OWNER_CHECK. cbn iota.
    change (node_command W OWNER_CHECK) with (@None (list Z → M Node (list Z * save))). cbn iota.
    change (OWNER_CHECK =? BRM_UNDO) with false. change (OWNER_CHECK =? CONFIRM) with false. change (OWNER_CHECK =? FLUSH_INODE_CACHES) with false. change (OWNER_CHECK =? BRM_CLEAR) with false. change (OWNER_CHECK =? TAKE_SNAPSHOT) with false. change (OWNER_CHECK =? OWNER_CHECK) with true. cbn iota.
    unfold do_ownerCheck. assert (get_owner (put_string name ++ put32 pid) = (Ret (name, pid), [])) as ->.
    { rewrite <- (app_nil_r (put32 pid)). unfold get_owner. rewrite (get_bind _ _ _ _ _ (get_string_put name _ Hn)).
      by rewrite (get_bind _ _ _ _ _ (get32_u pid [] Hp)). }
    cbn. erewrite (bind_ret _ _ _ c0); [|reflexivity]. unfold id.
    assert (standalone c0 = false) as -> by (unfold c0; by destruct (firstSlave c)). done. }
  assert (standalone c0 = false) as Hst0 by (unfold c0; by destruct (firstSlave c)).
  eexists. split; [apply serve_ret; [done|done|]; rewrite Hpr; unfold answer, modify; rewrite Hst0; reflexivity|].
  unfold ready, c0. destruct (firstSlave c) eqn:Hf; cbn; rewrite ?Hf; repeat split; try done; by apply Hfl.
Qed.

(** A worker with no command under way, whatever its node. *)
Definition free (l : Link) : Prop := ∃ n, idle n l.
Definition runs (t : TableLockInfo) (l : Link) : bool := l_procs l (ownerPID t) (process_name (ownerName t)).
Definition same_node (l l' : Link) : Prop := slave (l_worker l') = slave (l_worker l).

Lemma process_name_short name : is_string name → is_string (process_name name).
Proof.
  unfold is_string. intros Hn. assert (zlength (process_name name) ≤ zlength name); [|lia]. clear Hn.
  induction name as [|c name IH]; [done|]. cbn [process_name]. rewrite zlength_cons. pose proof (zlength_nonneg name).
  case_match; [change (zlength []) with 0; lia|]. rewrite zlength_cons. lia.
Qed.

Lemma deliver_owner W can_open t l :
  free l → is_string (ownerName t) → is_u 32 (ownerPID t) →
  let l' := deliver W can_open (owner_msg (process_name (ownerName t)) (ownerPID t)) l in
  has_answer l' (put8 (put_bool (runs t l))) ∧ free (heard l') ∧ same_node l (heard l').
Proof.
  intros [n [Hr Hu]] Hn Hp l'. destruct (process_owner W can_open (l_procs l) n _ _ _ Hr (process_name_short _ Hn) Hp) as (c' & Hs & Hr' & Hsent).
  unfold l'. rewrite (deliver_ret _ _ _ _ _ Hs). split; [|split].
  - split; [|done]. cbn [l_unread]. by rewrite Hsent, Hu, drop_app_length.
  - by exists n.
  - unfold same_node, heard. cbn. by rewrite (proj1 Hr), (proj1 Hr').
Qed.

Lemma any_exists_run (bs : list bool) found : any_exists ((fun b => put8 (put_bool b)) <$> bs) found = Ret (found || existsb id bs).
Proof.
  revert found. induction bs as [|b bs IH]; intros found; cbn [fmap list_fmap any_exists existsb]; [by rewrite orb_false_r|].
  change (zlength (put8 (put_bool b)) =? 1) with true. cbn iota. rewrite peek8_put. cbn. rewrite IH, orb_assoc. by destruct b.
Qed.

Lemma existsb_id {A} (f : A → bool) l : existsb id (f <$> l) = existsb f l.
Proof. induction l as [|x l IH]; [done|]. cbn. by rewrite IH. Qed.

Lemma ask_owner_run E t m :
  network_up E → halting m = false → slaveLock m = false → Forall free (slaves m) →
  is_string (ownerName t) → is_u 32 (ownerPID t) →
  ∃ m', ask_owner (x_world E) (x_open E) (x_refused E) (x_halts E) t m = (Ret (Some (existsb (runs t) (slaves m))), m') ∧
        servers m' = servers m ∧ Forall free (slaves m') ∧ Forall2 same_node (slaves m) (slaves m') ∧
        readOnly m' = readOnly m ∧ halting m' = false ∧ slaveLock m' = false.
Proof.
  intros [Hnet Hhalt] Hh Hlk Hfree Hn Hp. set (msg := owner_msg (process_name (ownerName t)) (ownerPID t)).
  destruct (distribute_run (x_world E) (x_open E) _ _ Hnet Hhalt msg (set_lock true m) Hh) as (k & Hd).
  set (m1 := moved _ _ _ _) in Hd. change (slaves (set_lock true m)) with (slaves m) in *.
  assert (Forall2 has_answer (slaves m1) ((fun l => put8 (put_bool (runs t l))) <$> slaves m) ∧
          Forall free (heard <$> slaves m1) ∧ Forall2 same_node (slaves m) (heard <$> slaves m1)) as (Ha & Hf & Hsn).
  { cbn. clear Hd m1. induction Hfree as [|l ls Hl Hfree IH]; [by repeat constructor|]. destruct IH as (H1 & H2 & H3).
    destruct (deliver_owner (x_world E) (x_open E) t l Hl Hn Hp) as (K1 & K2 & K3). cbn [fmap list_fmap].
    split; [|split]; by constructor. }
  destruct (gather_run _ _ Hnet Hhalt _ m1 Hh Ha) as (k2 & Hg).
  eexists. split.
  - unfold ask_owner. erewrite bind_ret; cycle 1.
    { unfold with_slaves. erewrite bind_ret; [|unfold lock; rewrite Hlk; reflexivity]. unfold then_unlock.
      rewrite (bind_ret _ _ _ _ _ Hd), Hg. reflexivity. }
    cbn iota. rewrite (list_fmap_compose (runs t) (fun b => put8 (put_bool b))), any_exists_run. rewrite existsb_id.
    reflexivity.
  - by repeat split.
Qed.

(** ** Calls *)

(** C4 A call of the client for the controller's own servers (sessions, the state of
    the system, OIDs, table locks, sequences): whatever the state, the client gets the
    result of the server's operation and the controller is left in the state the
    operation leaves; when the server throws, the client gets what the call promises
    for an error, and the state is again that of the server. *)
Theorem server_call_carried_out E fuel uninit A (q : Call A) m r m' :
  call_fits q → server_on E q m = (r, m') → returns r → (∀ a, r = Ret a → result_fits q a) →
  client_of (ask E fuel) uninit q m = (match r with Ret a => Ret a | Exn _ => failure_of q end, m').
Proof. apply server_call_run. Qed.

Definition lock0 : TableLockInfo := mkTLI 7 3000 [68; 77; 76; 32; 49] 4242 9 5 LOADING 0 [1; 2].
Definition controller0 (workers : list Link) : MasterDBRMNode :=
  mkMaster workers (length workers) false false false
    (mkSM 0 7 2 10 3 0 [] 2 false (Some [])) (mkOID (mkOFile 0 (fun _ => 0)) [] [1])
    [(7, lock0)] (Some (tl_bytes [(7, lock0)])) [] (mkRG ∅ ∅ ∅ 0) 0.

Lemma server_call_carried_out_witness :
  client_of (ask calm 0) 0 (NewTxnID 9 true false) (controller0 []) =
    (Ret (mkTxn 11 true), (server_on calm (NewTxnID 9 true false) (controller0 [])).2).
Proof.
  refine (server_call_carried_out calm 0 0 _ (NewTxnID 9 true false) (controller0 []) (Ret (mkTxn 11 true)) _ _ _ I _).
  - cbn. unfold is_u. lia.
  - vm_compute. reflexivity.
  - intros a [= <-]. cbn. unfold is_s. lia.
Defined.

(** ** The owner of a table lock *)

Lemma changeOwner_ok id name pid session txn t s :
  smap_find id (tl_locks s) = Some t →
  changeOwner IoOk id name pid session txn s =
    (Ret true, let locks := smap_set id (with_owner name pid session txn t) (tl_locks s) in
               mkTLS locks (Some (tl_bytes locks)) (tl_sms s)).
Proof.
  intros Ht. unfold changeOwner. erewrite (bind_ret _ _ s); [|reflexivity]. unfold Datatypes.id. rewrite Ht.
  unfold change_lock. erewrite (bind_ret _ _ s); [|reflexivity]. unfold Datatypes.id. rewrite Ht. reflexivity.
Qed.

Lemma owner_lives_run E id t m :
  network_up E → halting m = false → slaveLock m = false → Forall free (slaves m) →
  getLockInfo id (tableLockServer m) = Some t → is_string (ownerName t) → is_u 32 (ownerPID t) →
  ∃ m', owner_lives (x_world E) (x_open E) (x_refused E) (x_halts E) id m = (Ret (Some (existsb (runs t) (slaves m))), m') ∧
        servers m' = servers m ∧ Forall free (slaves m') ∧ Forall2 same_node (slaves m) (slaves m') ∧
        readOnly m' = readOnly m ∧ halting m' = false ∧ slaveLock m' = false.
Proof.
  intros Hup Hh Hlk Hf Ht Hn Hp. destruct (ask_owner_run E t m Hup Hh Hlk Hf Hn Hp) as (m' & Hr & Hm). exists m'. split; [|exact Hm].
  unfold owner_lives. erewrite (bind_ret _ _ m); [|reflexivity]. unfold Datatypes.id. rewrite Ht. by rewrite (bind_ret _ _ _ _ _ Hr).
Qed.

(** C5 A table lock changes hands only when its owner is gone: with a network that
    works, a controller that is not halting and whose workers can be reached, and a
    disk that can be written, the client's [changeOwner] asks every worker for the
    process of the current owner, and changes the owner, in memory and in the file, if
    no worker's machine runs it; if one does, the call returns false and the locks and
    their file stay.  No worker's node changes.  After a failure of the network the
    owner is not asked for ([owner_not_asked]). *)
Theorem owner_change_guarded E fuel uninit id name pid session txn t m :
  network_up E → (∀ k, x_disk E k = IoOk) →
  call_fits (ChangeOwner id name pid session txn) → halting m = false → slaveLock m = false → Forall free (slaves m) →
  getLockInfo id (tableLockServer m) = Some t → is_string (ownerName t) → is_u 32 (ownerPID t) →
  let lives := existsb (runs t) (slaves m) in
  let locks := if lives then tableLocks m else smap_set id (with_owner name pid session txn t) (tableLocks m) in
  let file := if lives then tableLockFile m else Some (tl_bytes locks) in
  ∃ m', client_of (ask E fuel) uninit (ChangeOwner id name pid session txn) m = (Ret (negb lives), m') ∧
        servers m' = (sm m, oids m, locks, file, aiManager m) ∧ Forall2 same_node (slaves m) (slaves m').
Proof.
  intros Hup Hdisk Hq Hh Hlk Hf Ht Hn Hp lives locks file.
  destruct (owner_lives_run E id t m Hup Hh Hlk Hf Ht Hn Hp) as (m1 & Hr & Hsv & _ & Hsn & _). fold lives in Hr.
  injection Hsv as S1 S2 S3 S4 S5.
  assert (∃ m', server_on E (ChangeOwner id name pid session txn) m = (Ret (negb lives), m') ∧
                servers m' = (sm m, oids m, locks, file, aiManager m) ∧ slaves m' = slaves m1) as (m' & Hs & Hm & Hl).
  { unfold server_on. cbn [server_of]. rewrite (bind_ret _ _ _ _ _ Hr). unfold locks, file. destruct lives; cbn [negb].
    - eexists. split; [reflexivity|]. split; [|done]. unfold servers. by rewrite S1, S2, S3, S4, S5.
    - erewrite bind_ret; [|reflexivity]. rewrite Hdisk. unfold on_locks, zoom. erewrite changeOwner_ok; cycle 1.
      { cbn. rewrite S3. exact Ht. }
      eexists. split; [reflexivity|]. split; [|done]. unfold servers. cbn. by rewrite S1, S2, S3, S5. }
  exists m'. rewrite Hl. split; [|by split].
  rewrite (server_call_run E fuel uninit _ _ m (Ret (negb lives)) m'); [done|exact Hq|exact Hs|done|done].
Qed.

(** Two machines, neither of which runs the owner of [lock0]. *)
Definition controller1 : MasterDBRMNode :=
  controller0 [mkLink (first_worker worker2 [] None None None None) (fun _ _ => false) [];
               mkLink (other_worker worker2) (fun pid name => (pid =? 4242) && bool_decide (name = [88])) []].

Lemma owner_change_guarded_witness :
  ∃ m', client_of (ask calm 0) 0 (ChangeOwner 7 [99] 17 3 12) controller1 = (Ret true, m') ∧
        servers m' = (sm controller1, oids controller1, [(7, with_owner [99] 17 3 12 lock0)],
                      Some (tl_bytes [(7, with_owner [99] 17 3 12 lock0)]), aiManager controller1) ∧
        Forall2 same_node (slaves controller1) (slaves m').
Proof.
  apply (owner_change_guarded calm 0 0 7 [99] 17 3 12 lock0 controller1).
  - apply calm_up.
  - intros k. reflexivity.
  - unfold call_fits, is_u, is_s, is_string. change (zlength [99]) with 1. lia.
  - reflexivity.
  - reflexivity.
  - constructor; [exists worker2; apply idle_first|]. constructor; [|constructor]. exists worker2. by repeat split.
  - reflexivity.
  - unfold is_string. change (zlength (ownerName lock0)) with 5. lia.
  - cbn. unfold is_u. lia.
Defined.

(** ** Where the controller and the client do something else than they mean to *)

(** After an answer that could not be read, the workers are not asked any more until
    a command for them has waited for a new configuration: the first attempt to take
    the lock of a process that lives fails, the second succeeds. *)
Lemma owner_not_asked :
  let E := mkOutside world0 true (fun _ => []) (fun t => (t =? 3)%nat) (fun _ => false) (fun _ => false) (fun _ => IoOk)
             (fun _ => true) (fun _ => 0) None in
  let m := controller0 [mkLink (other_worker worker2) (fun pid _ => pid =? 4242) []] in
  let take := client_of (ask E 0) 0 (ChangeOwner 7 [99] 17 3 12) in
  existsb (runs lock0) (slaves m) = true ∧
  (take m).1 = Exn RuntimeError ∧ (take (take m).2).1 = Ret true ∧
  tableLocks (take (take m).2).2 = [(7, with_owner [99] 17 3 12 lock0)].
Proof. vm_compute. repeat split. Qed.

(** [getSystemReady] does not see that [getSystemState] has failed: it returns a bit of
    a variable that nothing was assigned to. *)
Lemma getSystemReady_unchecked {S} (sr : list Z → M S (Z * list Z)) uninit s s' r :
  sr (put8 GET_SYSTEM_STATE) s = (Ret (ERR_NETWORK, r), s') →
  dbrm_getSystemReady sr uninit s = (Ret (Z.land uninit SS_READY), s').
Proof.
  intros Hs. unfold dbrm_getSystemReady, dbrm_getSystemState, catch, exchange_msg, mbind, M_bind. rewrite Hs. reflexivity.
Qed.
