(* ===== verification/ColumnScan.v ===== *)
(** * Scanning a block of a column ([primitives/linux-port/column.cpp])

    The primitive [p_Col] goes over the rows of a block, or over the rows it is
    given, compares each value with the filters of the message and writes the rows
    that pass.  On a scan it also computes the least and the greatest value of the
    block, from which the ranges of the extent map are made.

    Memory is the list of its bytes and a read outside of it a fault.  The index that
    [nextColValue] advances is represented by the list of the rows that are left.
    [regexec] is the C library's, given the text of the pattern.  Writing past the end
    of the output buffer, which only the debug build looks for, is left out. *)

From stdpp Require Import gmap sorting.
From S2P Require Import Prelude BinFile ByteStream ColType ExtentMap.

(** ** Constants *)

(** [primitivemsg.h] *)
Definition COMPARE_NIL : Z := 0x00.
Definition COMPARE_LT : Z := 0x01.
Definition COMPARE_EQ : Z := 0x02.
Definition COMPARE_LE : Z := 0x03.
Definition COMPARE_GT : Z := 0x04.
Definition COMPARE_NE : Z := 0x05.
Definition COMPARE_GE : Z := 0x06.
Definition COMPARE_NOT : Z := 0x08.
Definition COMPARE_NLT : Z := 0x09.
Definition COMPARE_NLE : Z := 0x0b.
Definition COMPARE_NGT : Z := 0x0c.
Definition COMPARE_NGE : Z := 0x0e.
Definition COMPARE_LIKE : Z := 0x10.
Definition COMPARE_NLIKE : Z := 0x18.

Definition BOP_NONE : Z := 0.
Definition BOP_AND : Z := 1.
Definition BOP_OR : Z := 2.
Definition BOP_XOR : Z := 3.

Definition OT_RID : Z := 1.
Definition OT_TOKEN : Z := 2.
Definition OT_BOTH : Z := 3.
Definition OT_DATAVALUE : Z := 4.

Definition ROUND_POS : Z := 0x01.
Definition ROUND_NEG : Z := 0x80.

Definition DATA_BLOCK_SIZE : Z := 8192.

(** [joblisttypes.h]: the values of a NULL and of a row that is not there. *)
Definition BIGINTNULL : Z := 0x8000000000000000.
Definition BIGINTEMPTYROW : Z := 0x8000000000000001.
Definition INTNULL : Z := 0x80000000.
Definition INTEMPTYROW : Z := 0x80000001.
Definition SMALLINTNULL : Z := 0x8000.
Definition SMALLINTEMPTYROW : Z := 0x8001.
Definition TINYINTNULL : Z := 0x80.
Definition TINYINTEMPTYROW : Z := 0x81.
Definition UBIGINTNULL : Z := 0xFFFFFFFFFFFFFFFE.
Definition UBIGINTEMPTYROW : Z := 0xFFFFFFFFFFFFFFFF.
Definition UINTNULL : Z := 0xFFFFFFFE.
Definition UINTEMPTYROW : Z := 0xFFFFFFFF.
Definition USMALLINTNULL : Z := 0xFFFE.
Definition USMALLINTEMPTYROW : Z := 0xFFFF.
Definition UTINYINTNULL : Z := 0xFE.
Definition UTINYINTEMPTYROW : Z := 0xFF.
Definition FLOATNULL : Z := 0xFFAAAAAA.
Definition FLOATEMPTYROW : Z := 0xFFAAAAAB.
Definition DOUBLENULL : Z := 0xFFFAAAAAAAAAAAAA.
Definition DOUBLEEMPTYROW : Z := 0xFFFAAAAAAAAAAAAB.
Definition DATENULL : Z := 0xFFFFFFFE.
Definition DATETIMENULL : Z := 0xFFFFFFFFFFFFFFFE.
Definition CHAR1NULL : Z := 0xFE.
Definition CHAR1EMPTYROW : Z := 0xFF.
Definition CHAR2NULL : Z := 0xFEFF.
Definition CHAR2EMPTYROW : Z := 0xFFFF.
Definition CHAR4NULL : Z := 0xFEFFFFFF.
Definition CHAR4EMPTYROW : Z := 0xFFFFFFFF.
Definition CHAR8NULL : Z := 0xFEFFFFFFFFFFFFFF.
Definition CHAR8EMPTYROW : Z := 0xFFFFFFFFFFFFFFFF.

(** ** Values *)

#[global] Instance ColDataType_eq_dec : EqDecision ColDataType.
Proof. solve_decision. Defined.

Abbreviation nonzero b := (negb (b =? 0)).

(** Reading [n] bytes at an address. *)
Definition mem_at (n : nat) (mem : list Z) (off : Z) : outcome (list Z) :=
  let bs := take n (drop (Z.to_nat off) mem) in
  if (0 <=? off) && bool_decide (length bs = n) then Ret bs else Exn Segfault.

(** [order_swap]: the bytes of a 64-bit number in the other order. *)
Definition order_swap (x : Z) : Z :=
  let x := u64 x in
  Z.lor (Z.shiftr x 56)
  (Z.lor (Z.land (u64 (Z.shiftl x 40)) 0x00FF000000000000)
  (Z.lor (Z.land (u64 (Z.shiftl x 24)) 0x0000FF0000000000)
  (Z.lor (Z.land (u64 (Z.shiftl x 8)) 0x000000FF00000000)
  (Z.lor (Z.land (Z.shiftr x 8) 0x00000000FF000000)
  (Z.lor (Z.land (Z.shiftr x 24) 0x0000000000FF0000)
  (Z.lor (Z.land (Z.shiftr x 40) 0x000000000000FF00)
         (u64 (Z.shiftl x 56)))))))).

(** The order of IEEE numbers with [ew] bits of exponent and [mw] of mantissa:
    [None] is not a number, and the two zeros are equal. *)
Definition float_value (ew mw : Z) (bits : Z) : option Z :=
  let m := bits mod 2 ^ (ew + mw) in
  if (2 ^ ew - 1) * 2 ^ mw <? m then None
  else Some (if Z.testbit bits (ew + mw) then - m else m).
Definition float_lt (a b : option Z) : bool :=
  match a, b with Some a, Some b => a <? b | _, _ => false end.
Definition float_eq (a b : option Z) : bool :=
  match a, b with Some a, Some b => a =? b | _, _ => false end.

(** [isEmptyVal<W>]; [v] is the unsigned value of the [W] bytes. *)
Definition isEmptyVal (W : Z) (type : ColDataType) (v : Z) : bool :=
  if W =? 8 then
    match type with
    | DOUBLE | UDOUBLE => v =? DOUBLEEMPTYROW
    | CHAR | VARCHAR | DATE | DATETIME | VARBINARY => v =? CHAR8EMPTYROW
    | UBIGINT => v =? UBIGINTEMPTYROW
    | _ => v =? BIGINTEMPTYROW
    end
  else if W =? 4 then
    match type with
    | FLOAT | UFLOAT => v =? FLOATEMPTYROW
    | CHAR | VARCHAR | DATE | DATETIME => v =? CHAR4EMPTYROW
    | UINT => v =? UINTEMPTYROW
    | _ => v =? INTEMPTYROW
    end
  else if W =? 2 then
    match type with
    | CHAR | VARCHAR | DATE | DATETIME => v =? CHAR2EMPTYROW
    | USMALLINT => v =? USMALLINTEMPTYROW
    | _ => v =? SMALLINTEMPTYROW
    end
  else
    match type with
    | CHAR | VARCHAR | DATE | DATETIME => v =? CHAR1EMPTYROW
    | UTINYINT => v =? UTINYINTEMPTYROW
    | _ => v =? TINYINTEMPTYROW
    end.

(** [isNullVal<W>] and the [isNullVal] that chooses it by the width. *)
Definition isNullVal_8 (type : ColDataType) (v : Z) : bool :=
  match type with
  | DOUBLE | UDOUBLE => v =? DOUBLENULL
  | CHAR | VARCHAR | DATE | DATETIME | VARBINARY => (v =? CHAR8NULL) || (v =? 0xFFFFFFFFFFFFFFFE)
  | UBIGINT => v =? UBIGINTNULL
  | _ => v =? BIGINTNULL
  end.
Definition isNullVal_4 (type : ColDataType) (v : Z) : bool :=
  match type with
  | FLOAT | UFLOAT => v =? FLOATNULL
  | CHAR | VARCHAR => v =? CHAR4NULL
  | DATE | DATETIME => v =? DATENULL
  | UINT => v =? UINTNULL
  | _ => v =? INTNULL
  end.
Definition isNullVal_2 (type : ColDataType) (v : Z) : bool :=
  match type with
  | CHAR | VARCHAR | DATE | DATETIME => v =? CHAR2NULL
  | USMALLINT => v =? USMALLINTNULL
  | _ => v =? SMALLINTNULL
  end.
Definition isNullVal_1 (type : ColDataType) (v : Z) : bool :=
  match type with
  | CHAR | VARCHAR | DATE | DATETIME => v =? CHAR1NULL
  | UTINYINT => v =? UTINYINTNULL
  | _ => v =? TINYINTNULL
  end.
Definition isNullVal (W : Z) (type : ColDataType) (v : Z) : bool :=
  if W =? 8 then isNullVal_8 type v
  else if W =? 4 then isNullVal_4 type v
  else if W =? 2 then isNullVal_2 type v
  else if W =? 1 then isNullVal_1 type v
  else false.

(** ** Comparisons *)

(** [colCompare_(val1, val2, COP)]; the type of the values gives [<] and [==]. *)
Definition colCompare_ {T} (lt eq : T → T → bool) (val1 val2 : T) (COP : Z) : bool :=
  if COP =? COMPARE_NIL then false
  else if COP =? COMPARE_LT then lt val1 val2
  else if COP =? COMPARE_EQ then eq val1 val2
  else if COP =? COMPARE_LE then lt val1 val2 || eq val1 val2
  else if COP =? COMPARE_GT then lt val2 val1
  else if COP =? COMPARE_NE then negb (eq val1 val2)
  else if COP =? COMPARE_GE then lt val2 val1 || eq val1 val2
  else false.

(** [colCompare_(val1, val2, COP, rf)] on integers *)
Definition colCompare_rf (val1 val2 COP rf : Z) : bool :=
  if COP =? COMPARE_NIL then false
  else if COP =? COMPARE_LT then (val1 <? val2) || ((val1 =? val2) && nonzero (Z.land rf 0x01))
  else if COP =? COMPARE_LE then (val1 <? val2) || ((val1 =? val2) && nonzero (Z.lxor rf 0x80))
  else if COP =? COMPARE_EQ then (val1 =? val2) && (rf =? 0)
  else if COP =? COMPARE_NE then negb (val1 =? val2) || nonzero rf
  else if COP =? COMPARE_GE then (val2 <? val1) || ((val1 =? val2) && nonzero (Z.lxor rf 0x01))
  else if COP =? COMPARE_GT then (val2 <? val1) || ((val1 =? val2) && nonzero (Z.land rf 0x80))
  else false.

(** [struct idb_regex_t]: the text the pattern is compiled from, and [used]. *)
Record idb_regex_t := mkRegex { rx_text : list Z; rx_used : bool }.
Definition placeholderRegex : idb_regex_t := mkRegex [] false.

(** A C string: the bytes before the first NUL. *)
Fixpoint c_str (bs : list Z) : list Z :=
  match bs with
  | [] => []
  | b :: bs' => if b =? 0 then [] else b :: c_str bs'
  end.

(** [PrimitiveProcessor::isEscapedChar], [PrimitiveProcessor::convertToRegexp]:
    the pattern of LIKE as the text of a regular expression, between anchors. *)
Definition isEscapedChar (c : Z) : bool := (c =? 37) || (c =? 95).

(** [. * ^ $ ? + | [ ] { } ( )] *)
Definition special : list Z := [46; 42; 94; 36; 63; 43; 124; 91; 93; 123; 125; 40; 41].

Fixpoint regexp_chars (str : list Z) : list Z :=
  match str with
  | [] => []
  | c :: str' =>
      if c =? 37 then 46 :: 42 :: regexp_chars str'
      else if c =? 95 then 46 :: regexp_chars str'
      else if bool_decide (c ∈ special) then 92 :: c :: regexp_chars str'
      else if c =? 92 then
        match str' with
        | d :: str'' =>
            if isEscapedChar d then d :: regexp_chars str''
            else if d =? 92 then c :: d :: regexp_chars str''
            else 92 :: c :: regexp_chars str'
        | [] => 92 :: c :: regexp_chars str'
        end
      else c :: regexp_chars str'
  end.

Definition convertToRegexp (str : list Z) : idb_regex_t := mkRegex (94 :: regexp_chars str ++ [36]) true.

(** [convertToPDataValue]: the length of the text of a value.  A text of a narrow
    column is read up to a NUL, which need not be one of the eight bytes. *)
Definition convertToPDataValue (val W : Z) : outcome (list Z) :=
  let bs := le_bytes 8 val in
  if W =? 8 then Ret (c_str bs)
  else if bool_decide (0 ∈ bs) then Ret (c_str bs)
  else Exn Segfault.

(** ** The messages *)

(** One [ColArgs] of a filter, its value as an [int64_t], with its regular
    expression: a row of the arrays [argVals], [cops], [rfs] and [regex]. *)
Record ColArg := mkArg { a_COP : Z; a_rf : Z; a_val : Z; a_regex : idb_regex_t }.

(** [ParsedColumnFilter], in its two modes. *)
Inductive ParsedColumnFilter :=
  | TWO_ARRAYS (args : list ColArg)
  | UNORDERED_SET (prestored_set : gset Z).

(** [NewColRequestHeader], with the bytes that follow it. *)
Record NewColRequestHeader := mkReq {
  q_LBID : Z;
  q_DataSize : Z;
  q_DataType : ColDataType;
  q_OutputType : Z;
  q_BOP : Z;
  q_NOPS : Z;
  q_NVALS : Z;
  q_sort : Z;
  q_data : list Z;
}.

(** [NewColResultHeader], with the bytes that follow it. *)
Record NewColResultHeader := mkRes {
  o_LBID : Z;
  o_RidFlags : Z;
  o_NVALS : Z;
  o_ValidMinMax : bool;
  o_OutputType : Z;
  o_Min : Z;
  o_Max : Z;
  o_data : list Z;
}.

(** [isMinMaxValid] *)
Definition isMinMaxValid (q : NewColRequestHeader) : bool :=
  if nonzero (q_NVALS q) then false
  else match q_DataType q with
       | CHAR => q_DataSize q <? 9
       | VARCHAR => q_DataSize q <? 8
       | TINYINT | SMALLINT | INT | DATE | BIGINT | DATETIME | UTINYINT | USMALLINT | UINT | UBIGINT => true
       | DECIMAL | UDECIMAL => q_DataSize q <=? 8
       | _ => false
       end.

(** [store] *)
Definition store (q : NewColRequestHeader) (block : list Z) (rid : Z) (o : NewColResultHeader) :
    outcome NewColResultHeader :=
  let o := if nonzero (Z.land (q_OutputType q) OT_RID) then
             mkRes (o_LBID o) (Z.lor (o_RidFlags o) (u8 (Z.shiftl 1 (Z.shiftr rid 10)))) (o_NVALS o)
               (o_ValidMinMax o) (o_OutputType o) (o_Min o) (o_Max o) (o_data o ++ le_bytes 2 rid)
           else o in
  bs ← if nonzero (Z.land (q_OutputType q) OT_TOKEN) || nonzero (Z.land (q_OutputType q) OT_DATAVALUE) then
         let W := if bool_decide (q_DataSize q ∈ [1; 2; 4]) then q_DataSize q else 8 in
         mem_at (Z.to_nat W) block (rid * W)
       else Ret [];
  Ret (mkRes (o_LBID o) (o_RidFlags o) (u16 (o_NVALS o + 1)) (o_ValidMinMax o) (o_OutputType o)
         (o_Min o) (o_Max o) (o_data o ++ bs)).

(** One row of the block. *)
Record ColRow := mkRow { w_rid : Z; w_val : Z; w_null : bool; w_empty : bool }.

(** ** Going over the rows *)

Section Rows.
Context (W : Z) (type : ColDataType) (block : list Z).

Definition row_bytes (rid : Z) : outcome (list Z) := mem_at (Z.to_nat W) block (rid * W).

(** The loop at the start of [nextColValue]: rows that are not there are passed
    over, unless a scan does not return rids.  [todo] is the rows that are left. *)
Fixpoint next_row (scan : bool) (OutputType : Z) (todo : list Z) : outcome (option (Z * list Z * list Z)) :=
  match todo with
  | [] => Ret None
  | rid :: todo' =>
      bs ← row_bytes rid;
      if isEmptyVal W type (le_value bs) && (negb scan || nonzero (Z.land OutputType OT_RID))
      then next_row scan OutputType todo'
      else Ret (Some (rid, bs, todo'))
  end.

(** [nextColValue<W>] and [nextUnsignedColValue<W>] *)
Definition nextValue (decode : list Z → Z) (scan : bool) (OutputType : Z) (todo : list Z) :
    outcome (option (ColRow * list Z)) :=
  r ← next_row scan OutputType todo;
  match r with
  | None => Ret None
  | Some (rid, bs, todo') =>
      Ret (Some (mkRow rid (decode bs) (isNullVal W type (le_value bs)) (isEmptyVal W type (le_value bs)), todo'))
  end.
Definition nextColValue := nextValue get_s.
Definition nextUnsignedColValue := nextValue get_u.
End Rows.

(** ** Filters *)

Section Filters.
Context (regexec : list Z → list Z → bool).

(** [isLike] *)
Definition isLike (val : list Z) (regex : idb_regex_t) : bool := regexec (rx_text regex) val.

(** [colStrCompare_]: the order of the bytes is changed back for LIKE. *)
Definition colStrCompare_ (val1 val2 COP rf : Z) (regex : idb_regex_t) : bool :=
  if COP =? COMPARE_NIL then false
  else if COP =? COMPARE_LT then (val1 <? val2) || ((val1 =? val2) && nonzero rf)
  else if COP =? COMPARE_LE then val1 <=? val2
  else if COP =? COMPARE_EQ then (val1 =? val2) && (rf =? 0)
  else if COP =? COMPARE_NE then negb (val1 =? val2) || nonzero rf
  else if COP =? COMPARE_GE then (val2 <? val1) || ((val1 =? val2) && (rf =? 0))
  else if COP =? COMPARE_GT then val2 <? val1
  else if (COP =? COMPARE_LIKE) || (COP =? COMPARE_NLIKE) then
    let tmp := c_str (le_bytes 8 (order_swap val1)) in
    if nonzero (Z.land COP COMPARE_NOT) then negb (isLike tmp regex) else isLike tmp regex
  else false.

(** [colCompare] *)
Definition colCompare (val1 val2 COP rf : Z) (type : ColDataType) (width : Z) (regex : idb_regex_t)
    (isNull : bool) : bool :=
  if COP =? COMPARE_NIL then false
  else if negb isNull && bool_decide (type = FLOAT) then
    colCompare_ float_lt float_eq (float_value 8 23 val1) (float_value 8 23 val2) COP
  else if negb isNull && bool_decide (type = DOUBLE) then
    colCompare_ float_lt float_eq (float_value 11 52 val1) (float_value 11 52 val2) COP
  else if isCharType type && negb isNull then
    if negb (rx_used regex) && negb (nonzero rf)
    then colCompare_ Z.ltb Z.eqb (order_swap val1) (order_swap val2) COP
    else colStrCompare_ (order_swap val1) (order_swap val2) COP rf regex
  else
    let val2Null := isNullVal width type (wrap_u (8 * width) val2) in
    if eqb isNull val2Null || (val2Null && (COP =? COMPARE_NE)) then colCompare_rf val1 val2 COP rf
    else false.

(** [colCompareUnsigned] *)
Definition colCompareUnsigned (val1 val2 COP rf : Z) (type : ColDataType) (width : Z) (isNull : bool) : bool :=
  if COP =? COMPARE_NIL then false
  else
    let val2Null := isNullVal width type (wrap_u (8 * width) val2) in
    if eqb isNull val2Null || (val2Null && (COP =? COMPARE_NE)) then colCompare_rf val1 val2 COP rf
    else false.

(** Reading the [i]th [ColArgs] at the start of the filter. *)
Definition arg_at (W : Z) (filter : list Z) (i : Z) : outcome (Z * Z * list Z) :=
  bs ← mem_at (Z.to_nat (W + 2)) filter (i * (W + 2));
  match bs with
  | cop :: rf :: v => Ret (cop, rf, v)
  | _ => Exn Segfault
  end.

(** One turn of the loop of [parseColumnFilter], and of that of [p_Col_ridArray],
    which does not look for LIKE in the filters of unsigned columns. *)
Definition parse_arg (like : bool) (W : Z) (type : ColDataType) (filter : list Z) (i : Z) : outcome ColArg :=
  '(cop, rf, bs) ← arg_at W filter i;
  let v := if isUnsigned type then i64 (get_u bs) else get_s bs in
  regex ← if like && nonzero (Z.land COMPARE_LIKE cop)
          then text ← convertToPDataValue v W; Ret (convertToRegexp text)
          else Ret placeholderRegex;
  Ret (mkArg cop rf v regex).

Fixpoint parse_loop (like : bool) (W : Z) (type : ColDataType) (filter : list Z) (indices : list Z) :
    outcome (list ColArg) :=
  match indices with
  | [] => Ret []
  | i :: indices' =>
      a ← parse_arg like W type filter i;
      l ← parse_loop like W type filter indices';
      Ret (a :: l)
  end.

(** Whether a filter rules out the set. *)
Definition not_in_set (BOP : Z) (a : ColArg) : bool :=
  ((BOP =? BOP_OR) && negb (a_COP a =? COMPARE_EQ)) || ((BOP =? BOP_AND) && negb (a_COP a =? COMPARE_NE)) ||
  (a_COP a =? COMPARE_NIL).

(** [parseColumnFilter] *)
Definition parseColumnFilter (filter : list Z) (colWidth : Z) (colType : ColDataType) (filterCount BOP : Z) :
    outcome (option ParsedColumnFilter) :=
  if filterCount =? 0 then Ret None
  else
    args ← parse_loop true colWidth colType filter (zseq 0 filterCount);
    let convertToSet := negb (filterCount =? 1) && forallb (fun a => negb (not_in_set BOP a)) args in
    Ret (Some (if convertToSet
               then UNORDERED_SET (list_to_set (a_val <$> List.filter (fun a => a_rf a =? 0) args))
               else TWO_ARRAYS args)).

(** ** The primitive *)

Section Col.
Context (W : Z) (q : NewColRequestHeader) (block : list Z).
Let type := q_DataType q.

(** The comparison of a row with one filter. *)
Definition compare_row (w : ColRow) (a : ColArg) : bool :=
  if isUnsigned type
  then colCompareUnsigned (w_val w) (u64 (a_val a)) (a_COP a) (a_rf a) type W (w_null w)
  else colCompare (w_val w) (a_val a) (a_COP a) (a_rf a) type W (a_regex a) (w_null w).

(** The loop over the filters: whether it stores the row, and [argIndex] when it
    is left. *)
Fixpoint try_args (args : list ColArg) (w : ColRow) (n : nat) (argIndex : Z) : outcome (bool * Z) :=
  match n with
  | O => Ret (false, argIndex)
  | S n' =>
      a ← deref (args.[argIndex]);
      let cmp := compare_row w a in
      if q_NOPS q =? 1 then Ret (cmp, argIndex)
      else if (q_BOP q =? BOP_AND) && negb cmp then Ret (false, argIndex)
      else if (q_BOP q =? BOP_OR) && cmp then Ret (true, argIndex)
      else try_args args w n' (argIndex + 1)
  end.

(** The two ways to look at a row. *)
Definition do_set (set : gset Z) (w : ColRow) (o : NewColResultHeader) : outcome NewColResultHeader :=
  if w_null w && (q_BOP q =? BOP_AND) then Ret o
  else
    let found := bool_decide ((if isUnsigned type then i64 (w_val w) else w_val w) ∈ set) in
    if q_BOP q =? BOP_OR then (if found then store q block (w_rid w) o else Ret o)
    else if q_BOP q =? BOP_AND then (if found then Ret o else store q block (w_rid w) o)
    else Ret o.
Definition do_args (args : list ColArg) (w : ColRow) (o : NewColResultHeader) : outcome NewColResultHeader :=
  r ← try_args args w (Z.to_nat (q_NOPS q)) 0;
  let '(stored, argIndex) := (r : bool * Z) in
  o ← (if stored then store q block (w_rid w) o else Ret o);
  if ((argIndex =? q_NOPS q) && (q_BOP q =? BOP_AND)) || (q_NOPS q =? 0)
  then store q block (w_rid w) o else Ret o.
Definition do_row (f : ParsedColumnFilter) (w : ColRow) (o : NewColResultHeader) : outcome NewColResultHeader :=
  match f with
  | UNORDERED_SET set => do_set set w o
  | TWO_ARRAYS args => do_args args w o
  end.

(** Set the min and max if necessary; NULLs are ignored. *)
Definition set_minmax (w : ColRow) (o : NewColResultHeader) : NewColResultHeader :=
  if o_ValidMinMax o && negb (w_null w) && negb (w_empty w) then
    let v := w_val w in
    let '(mn, mx) :=
      if isCharType type && (1 <? W) then
        (if colCompare (o_Min o) v COMPARE_GT 0 type W placeholderRegex false then v else o_Min o,
         if colCompare (o_Max o) v COMPARE_LT 0 type W placeholderRegex false then v else o_Max o)
      else if isUnsigned type then
        (if v <? u64 (o_Min o) then i64 v else o_Min o, if u64 (o_Max o) <? v then i64 v else o_Max o)
      else
        (if v <? o_Min o then v else o_Min o, if o_Max o <? v then v else o_Max o) in
    mkRes (o_LBID o) (o_RidFlags o) (o_NVALS o) (o_ValidMinMax o) (o_OutputType o) mn mx (o_data o)
  else o.

Definition next (scan : bool) (todo : list Z) : outcome (option (ColRow * list Z)) :=
  if isUnsigned type then nextUnsignedColValue W type block scan (q_OutputType q) todo
  else nextColValue W type block scan (q_OutputType q) todo.

(** [while (!done)] *)
Fixpoint col_loop (fuel : nat) (scan : bool) (f : ParsedColumnFilter) (todo : list Z)
    (o : NewColResultHeader) : outcome NewColResultHeader :=
  match fuel with
  | O => Exn OutOfFuel
  | S fuel' =>
      r ← next scan todo;
      match r with
      | None => Ret o
      | Some (w, todo') =>
          o ← do_row f w o;
          col_loop fuel' scan f todo' (set_minmax w o)
      end
  end.

(** The rids of the message. *)
Fixpoint read_rids (n : nat) (mem : list Z) (off : Z) : outcome (list Z) :=
  match n with
  | O => Ret []
  | S n' => bs ← mem_at 2 mem off; l ← read_rids n' mem (off + 2); Ret (le_value bs :: l)
  end.

(** [p_Col_ridArray<W>]: [itemsPerBlk] rows, or those of the message, sorted if it
    says so. *)
Definition p_Col_ridArray (itemsPerBlk : Z) (parsedColumnFilter : option ParsedColumnFilter)
    (o : NewColResultHeader) : outcome NewColResultHeader :=
  let scan := negb (0 <? q_NVALS q) in
  rids ← if scan then Ret (zseq 0 itemsPerBlk)
         else read_rids (Z.to_nat (q_NVALS q)) (q_data q) (q_NOPS q * (W + 2));
  let rids := if negb scan && (q_sort q =? 1) then merge_sort (≤)%Z rids else rids in
  let valid := isMinMaxValid q in
  let '(mn, mx) := if valid then
                     if isUnsigned type then (i64 max_u64, 0) else (max_i64, min_i64)
                   else (0, 0) in
  let o := mkRes (o_LBID o) (o_RidFlags o) (o_NVALS o) valid (o_OutputType o) mn mx (o_data o) in
  f ← match parsedColumnFilter with
      | Some f => Ret f
      | None =>
          args ← parse_loop (negb (isUnsigned type)) W type (q_data q) (zseq 0 (q_NOPS q));
          Ret (TWO_ARRAYS args)
      end;
  col_loop (S (length rids)) scan f rids o.
End Col.

(** [PrimitiveProcessor::p_Col]; [idbassert(0)] for another width. *)
Definition p_Col (logicalBlockMode : bool) (block : list Z) (parsedColumnFilter : option ParsedColumnFilter)
    (q : NewColRequestHeader) : outcome NewColResultHeader :=
  let o := mkRes (q_LBID q) 0 0 false (q_OutputType q) 0 0 [] in
  let itemsPerBlk := if logicalBlockMode then DATA_BLOCK_SIZE else DATA_BLOCK_SIZE / q_DataSize q in
  if bool_decide (q_DataSize q ∈ [1; 2; 4; 8])
  then p_Col_ridArray (q_DataSize q) q block itemsPerBlk parsedColumnFilter o
  else Exn AssertFailure.
End Filters.

(** ** The command that runs the primitive ([primproc/columncommand.cpp])

    [BPP] is the part of the batch primitive processor that a column command works
    on: the rows that are selected so far, the values of the column, the loaded
    blocks, and the range of values it reports.  [loadBlock] gives the 8192 bytes of
    a block in the version the query reads. *)

Inductive FilterFeeder := NOT_FEEDER | LEFT_FEEDER | RIGHT_FEEDER.

(** What a command leaves for a filter command: [fFiltRidCount], [fFiltCmdRids] and
    [fFiltCmdValues] of one side. *)
Record Feed := mkFeed { fd_count : Z; fd_rids : list Z; fd_values : list Z }.

Record BPP := mkBPP {
  b_ridCount : Z;
  b_relRids : list Z;
  b_absRids : list Z;
  b_baseRid : Z;
  b_ridMap : Z;
  b_values : list Z;
  b_left : Feed;
  b_right : Feed;
  b_blockData : list Z;
  b_validCPData : bool;
  b_lbidForCP : Z;
  b_minVal : Z;
  b_maxVal : Z;
  b_dbRoot : Z;
}.

Record ColumnCommand := mkCC {
  cc_isScan : bool;
  cc_type : ColDataType;
  cc_width : Z;
  cc_OutputType : Z;
  cc_BOP : Z;
  cc_filterString : list Z;
  cc_filterCount : Z;
  cc_parsed : option ParsedColumnFilter;
  cc_suppressFilter : bool;
  cc_lbid : Z;
  cc_lastLbid : list Z;
  cc_makeAbsRids : bool;
  cc_feeder : FilterFeeder;
}.

(** The message: what [prep] sets, and what [makeScanMsg] and [makeStepMsg] add.  The
    space of the filters is there and not filled in. *)
Definition base_msg (cc : ColumnCommand) (NVALS : Z) (rids : list Z) : NewColRequestHeader :=
  mkReq (cc_lbid cc) (cc_width cc) (cc_type cc) (cc_OutputType cc) (cc_BOP cc)
    (if cc_suppressFilter cc then 0 else cc_filterCount cc) NVALS 0
    ((if cc_suppressFilter cc then [] else repeat 0 (length (cc_filterString cc))) ++ (rids ≫= le_bytes 2)).
Definition makeScanMsg (cc : ColumnCommand) : NewColRequestHeader * Z := (base_msg cc 0 [], 0xFF).
Definition makeStepMsg (cc : ColumnCommand) (b : BPP) : NewColRequestHeader * Z :=
  (base_msg cc (b_ridCount b) (take (Z.to_nat (b_ridCount b)) (b_relRids b)), b_ridMap b).

(** [getEmptyRowValue] *)
Definition getEmptyRowValue (dataType : ColDataType) (width : Z) : Z :=
  let offset := if bool_decide (dataType = VARCHAR) then -1 else 0 in
  match dataType with
  | TINYINT => TINYINTEMPTYROW
  | SMALLINT => SMALLINTEMPTYROW
  | MEDINT | INT => INTEMPTYROW
  | BIGINT => BIGINTEMPTYROW
  | UTINYINT => UTINYINTEMPTYROW
  | USMALLINT => USMALLINTEMPTYROW
  | UMEDINT | UINT => UINTEMPTYROW
  | UBIGINT => UBIGINTEMPTYROW
  | FLOAT | UFLOAT => FLOATEMPTYROW
  | DOUBLE | UDOUBLE => DOUBLEEMPTYROW
  | DECIMAL | UDECIMAL =>
      if width <=? 1 then TINYINTEMPTYROW
      else if width <=? 2 then SMALLINTEMPTYROW
      else if width <=? 4 then INTEMPTYROW
      else BIGINTEMPTYROW
  | _ =>
      if width =? 2 + offset then CHAR2EMPTYROW
      else if (3 + offset <=? width) && (width <=? 4 + offset) then CHAR4EMPTYROW
      else if 5 + offset <=? width then CHAR8EMPTYROW
      else CHAR1EMPTYROW
  end.

(** A block of rows that are not there. *)
Definition empty_block (cc : ColumnCommand) : list Z :=
  concat (repeat (le_bytes (Z.to_nat (cc_width cc)) (getEmptyRowValue (cc_type cc) (cc_width cc)))
            (Z.to_nat (DATA_BLOCK_SIZE / cc_width cc))).

(** [mask] and [shift], which [prep] sets by the width. *)
Definition mask_shift (W : Z) : outcome (Z * Z) :=
  if W =? 1 then Ret (0xFF, 8)
  else if W =? 2 then Ret (0x0F, 4)
  else if W =? 4 then Ret (0x03, 2)
  else if W =? 8 then Ret (0x01, 1)
  else Exn LogicError.

(** [getLastLbid] *)
Definition getLastLbid (cc : ColumnCommand) (b : BPP) : outcome Z :=
  if cc_isScan cc then deref ((cc_lastLbid cc).[b_dbRoot b - 1]) else Ret 0.

(** [loadData]: the blocks of the logical block.  A scan loads those up to the last
    one of the column and fills the others with empty rows; a step loads those that
    have rows in [RidFlags]. *)
Fixpoint load_blocks (loadBlock : Z → list Z) (cc : ColumnCommand) (ridFlags last shift : Z)
    (old : list Z) (n : nat) (i mask : Z) (lastBlockReached : bool) : list Z :=
  match n with
  | O => []
  | S n' =>
      let seg :=
        if (negb lastBlockReached && cc_isScan cc) || (negb (cc_isScan cc) && nonzero (Z.land ridFlags mask))
        then loadBlock (cc_lbid cc + i)
        else if lastBlockReached && cc_isScan cc then empty_block cc
        else take (Z.to_nat DATA_BLOCK_SIZE) (drop (Z.to_nat (i * DATA_BLOCK_SIZE)) old) in
      seg ++ load_blocks loadBlock cc ridFlags last shift old n' (i + 1) (u8 (Z.shiftl mask shift))
               (lastBlockReached || (cc_lbid cc + i =? last))
  end.
Definition loadData (loadBlock : Z → list Z) (cc : ColumnCommand) (ridFlags : Z) (b : BPP) : outcome (list Z) :=
  last ← getLastLbid cc b;
  '(mask, shift) ← mask_shift (cc_width cc);
  Ret (load_blocks loadBlock cc ridFlags last shift (b_blockData b) (Z.to_nat (cc_width cc)) 0 mask false).

Section Command.
Context (regexec : list Z → list Z → bool) (loadBlock : Z → list Z) (wasVersioned : bool).

Definition set_data (d : list Z) (b : BPP) : BPP :=
  mkBPP (b_ridCount b) (b_relRids b) (b_absRids b) (b_baseRid b) (b_ridMap b) (b_values b) (b_left b)
    (b_right b) d (b_validCPData b) (b_lbidForCP b) (b_minVal b) (b_maxVal b) (b_dbRoot b).
Definition set_cp_data (valid : bool) (lbid mn mx : Z) (b : BPP) : BPP :=
  mkBPP (b_ridCount b) (b_relRids b) (b_absRids b) (b_baseRid b) (b_ridMap b) (b_values b) (b_left b)
    (b_right b) (b_blockData b) valid lbid mn mx (b_dbRoot b).

(** [issuePrimitive]; the primitives of a batch work on logical blocks. *)
Definition issuePrimitive (cc : ColumnCommand) (msg : NewColRequestHeader * Z) : M BPP NewColResultHeader :=
  b ← gets id;
  data ← lift (loadData loadBlock cc msg.2 b);
  modify (set_data data) ≫= fun _ =>
  o ← lift (p_Col regexec true data (if cc_suppressFilter cc then None else cc_parsed cc) msg.1);
  (if cc_isScan cc
   then modify (set_cp_data (o_ValidMinMax o && negb wasVersioned) (cc_lbid cc) (o_Min o) (o_Max o))
   else mret tt) ≫= fun _ =>
  mret o.

(** Writing the first elements of an array. *)
Definition over (new old : list Z) : list Z := new ++ drop (length new) old.

(** The array [values] of [execute]. *)
Definition set_values (f : FilterFeeder) (vs : list Z) (b : BPP) : BPP :=
  let '(v, l, r) :=
    match f with
    | NOT_FEEDER => (over vs (b_values b), b_left b, b_right b)
    | LEFT_FEEDER => (b_values b, mkFeed (fd_count (b_left b)) (fd_rids (b_left b)) (over vs (fd_values (b_left b))), b_right b)
    | RIGHT_FEEDER => (b_values b, b_left b, mkFeed (fd_count (b_right b)) (fd_rids (b_right b)) (over vs (fd_values (b_right b))))
    end in
  mkBPP (b_ridCount b) (b_relRids b) (b_absRids b) (b_baseRid b) (b_ridMap b) v l r (b_blockData b)
    (b_validCPData b) (b_lbidForCP b) (b_minVal b) (b_maxVal b) (b_dbRoot b).
Definition set_rids (count : Z) (rids abs : list Z) (ridMap : Z) (b : BPP) : BPP :=
  mkBPP count (over rids (b_relRids b)) (over abs (b_absRids b)) (b_baseRid b) ridMap (b_values b) (b_left b)
    (b_right b) (b_blockData b) (b_validCPData b) (b_lbidForCP b) (b_minVal b) (b_maxVal b) (b_dbRoot b).

(** [n] entries of [size] bytes, each a rid (if there is one) and a value (if there
    is one). *)
Fixpoint read_rows (has_rid has_val : bool) (W : Z) (n : nat) (pos : Z) (mem : list Z) : outcome (list (Z * Z)) :=
  match n with
  | O => Ret []
  | S n' =>
      rid ← if has_rid then bs ← mem_at 2 mem pos; Ret (le_value bs) else Ret 0;
      let pos := if has_rid then pos + 2 else pos in
      v ← if has_val then bs ← mem_at (Z.to_nat W) mem pos; Ret (get_s bs) else Ret 0;
      let pos := if has_val then pos + W else pos in
      l ← read_rows has_rid has_val W n' pos mem;
      Ret ((rid, v) :: l)
  end.

(** [process_OT_BOTH], [process_OT_RID], [process_OT_DATAVALUE] *)
Definition process_OT_BOTH (cc : ColumnCommand) (o : NewColResultHeader) : M BPP unit :=
  rows ← lift (read_rows true true (cc_width cc) (Z.to_nat (o_NVALS o)) 0 (o_data o));
  b ← gets id;
  let abs := if cc_makeAbsRids cc then (fun r : Z * Z => u64 (r.1 + b_baseRid b)) <$> rows else [] in
  modify (set_rids (o_NVALS o) rows.*1 abs (o_RidFlags o)) ≫= fun _ =>
  modify (set_values (cc_feeder cc) rows.*2).
Definition process_OT_RID (cc : ColumnCommand) (o : NewColResultHeader) : M BPP unit :=
  rows ← lift (read_rows true false (cc_width cc) (Z.to_nat (o_NVALS o)) 0 (o_data o));
  modify (set_rids (o_NVALS o) rows.*1 [] (o_RidFlags o)).
Definition process_OT_DATAVALUE (cc : ColumnCommand) (o : NewColResultHeader) : M BPP unit :=
  rows ← lift (read_rows false true (cc_width cc) (Z.to_nat (o_NVALS o)) 0 (o_data o));
  b ← gets id;
  modify (set_rids (o_NVALS o) [] [] (b_ridMap b)) ≫= fun _ =>
  modify (set_values (cc_feeder cc) rows.*2).

(** [copyRidsForFilterCmd], and the same lines at the end of [processResult]. *)
Definition feed_rids (f : FilterFeeder) (b : BPP) : BPP :=
  let feed x := mkFeed (b_ridCount b) (over (take (Z.to_nat (b_ridCount b)) (b_relRids b)) (fd_rids x)) (fd_values x) in
  mkBPP (b_ridCount b) (b_relRids b) (b_absRids b) (b_baseRid b) (b_ridMap b) (b_values b)
    (match f with LEFT_FEEDER => feed (b_left b) | _ => b_left b end)
    (match f with RIGHT_FEEDER => feed (b_right b) | _ => b_right b end)
    (b_blockData b) (b_validCPData b) (b_lbidForCP b) (b_minVal b) (b_maxVal b) (b_dbRoot b).

(** [processResult] *)
Definition processResult (cc : ColumnCommand) (o : NewColResultHeader) : M BPP unit :=
  (if o_OutputType o =? OT_BOTH then process_OT_BOTH cc o
   else if o_OutputType o =? OT_RID then process_OT_RID cc o
   else if o_OutputType o =? OT_DATAVALUE then process_OT_DATAVALUE cc o
   else throw LogicError) ≫= fun _ =>
  modify (feed_rids (cc_feeder cc)).

(** [execute]: a step with no rows does nothing. *)
Definition cc_execute (cc : ColumnCommand) : M BPP unit :=
  b ← gets id;
  if negb (cc_isScan cc) && (b_ridCount b =? 0) then mret tt
  else
    o ← issuePrimitive cc (if cc_isScan cc then makeScanMsg cc else makeStepMsg cc b);
    processResult cc o ≫= fun _ =>
    match cc_feeder cc with NOT_FEEDER => mret tt | f => modify (feed_rids f) end.

(** [project] with [projectResult]: the bytes added to the answer. *)
Definition project (cc : ColumnCommand) : M BPP (list Z) :=
  b ← gets id;
  if b_ridCount b =? 0 then mret (put32 0)
  else
    o ← issuePrimitive cc (makeStepMsg cc b);
    if negb (b_ridCount b =? o_NVALS o) then throw RuntimeError
    else
      let n := o_NVALS o * cc_width cc in
      bs ← lift (mem_at (Z.to_nat n) (o_data o) 0);
      mret (put32 n ++ bs).
End Command.

(** [nextLBID] *)
Definition nextLBID (cc : ColumnCommand) : ColumnCommand :=
  mkCC (cc_isScan cc) (cc_type cc) (cc_width cc) (cc_OutputType cc) (cc_BOP cc) (cc_filterString cc)
    (cc_filterCount cc) (cc_parsed cc) (cc_suppressFilter cc) (cc_lbid cc + cc_width cc) (cc_lastLbid cc)
    (cc_makeAbsRids cc) (cc_feeder cc).

(** [disableFilters], [enableFilters] *)
Definition suppress (s : bool) (cc : ColumnCommand) : ColumnCommand :=
  mkCC (cc_isScan cc) (cc_type cc) (cc_width cc) (cc_OutputType cc) (cc_BOP cc) (cc_filterString cc)
    (cc_filterCount cc) (cc_parsed cc) s (cc_lbid cc) (cc_lastLbid cc) (cc_makeAbsRids cc) (cc_feeder cc).
