(* ===== verification/LbidList.v ===== *)
(** * Partition elimination ([dbcon/joblist/lbidlist.cpp])

    Before it scans a column the job list asks, for each extent, whether the range of
    values the extent map has for it can satisfy the filters; and while it scans an
    extent without a range it collects the ranges of the blocks and sends them to the
    extent map at the end.  Also here: the places in [pcolstep.cpp] and
    [tuple-bps.cpp] that write the filters, call these functions and keep the flags
    of the extents to scan, and [isNull] of [calpontsystemcatalog.h]. *)

From stdpp Require Import gmap.
From S2P Require Import Prelude BinFile ByteStream ColType Vss ExtentMap EmCp SlaveNode NodeEm DbrmReads ColumnScan.

(** ** The NULL of a column ([calpontsystemcatalog.h]) *)

Record ColType := mkCT { colDataType : ColDataType; colWidth : Z }.

(** [isNull]: a decimal is also compared with the NULL of a [DOUBLE]. *)
Definition isNull (val : Z) (ct : ColType) : outcome bool :=
  let W := colWidth ct in
  match colDataType ct with
  | TINYINT => Ret (wrap_s 8 TINYINTNULL =? val)
  | CHAR =>
      if W <=? 8 then
        Ret (((W =? 1) && (wrap_s 8 CHAR1NULL =? val)) || ((W =? 2) && (wrap_s 16 CHAR2NULL =? val)) ||
             ((W <? 5) && (i32 CHAR4NULL =? val)) || (i64 CHAR8NULL =? val))
      else Exn LogicError
  | SMALLINT => Ret (wrap_s 16 SMALLINTNULL =? val)
  | DECIMAL | UDECIMAL =>
      Ret ((if W =? 1 then wrap_s 8 TINYINTNULL =? val
            else if W =? 2 then wrap_s 16 SMALLINTNULL =? val
            else if W =? 4 then i32 INTNULL =? val
            else i64 BIGINTNULL =? val) || (i64 DOUBLENULL =? val))
  | DOUBLE | UDOUBLE => Ret (i64 DOUBLENULL =? val)
  | MEDINT | INT => Ret (i32 INTNULL =? val)
  | FLOAT | UFLOAT => Ret (i32 FLOATNULL =? val)
  | DATE => Ret (i32 DATENULL =? val)
  | BIGINT => Ret (i64 BIGINTNULL =? val)
  | DATETIME => Ret (i64 DATETIMENULL =? val)
  | VARCHAR =>
      if W <=? 8 then
        Ret (((W <? 3) && (wrap_s 16 CHAR2NULL =? val)) || ((W <? 5) && (i32 CHAR4NULL =? val)) ||
             (i64 CHAR8NULL =? val))
      else Exn LogicError
  | UTINYINT => Ret (UTINYINTNULL =? u8 val)
  | USMALLINT => Ret (USMALLINTNULL =? u16 val)
  | UMEDINT | UINT => Ret (UINTNULL =? u32 val)
  | UBIGINT => Ret (UBIGINTNULL =? u64 val)
  | _ => Ret false
  end.

(** ** Filters *)

(** [pColStep::addFilter(COP, value, roundFlag)]: the bytes added to the filter
    string. *)
Definition addFilter (ct : ColType) (COP value roundFlag : Z) : outcome (list Z) :=
  if bool_decide (colWidth ct ∈ [1; 2; 4; 8])
  then Ret (put8 COP ++ put8 roundFlag ++ le_bytes (Z.to_nat (colWidth ct)) value)
  else Exn RuntimeError.

(** [LBIDList::CasualPartitionDataType] *)
Definition CasualPartitionDataType (type : ColDataType) (size : Z) : bool :=
  match type with
  | CHAR => size <? 9
  | VARCHAR => size <? 8
  | TINYINT | SMALLINT | MEDINT | INT | BIGINT | DECIMAL | DATE | DATETIME
  | UTINYINT | USMALLINT | UDECIMAL | UMEDINT | UINT | UBIGINT => true
  | _ => false
  end.

(** [LBIDList::compareVal] *)
Definition compareVal (Min Max value op lcf : Z) : bool :=
  if (op =? COMPARE_LT) || (op =? COMPARE_NGE) then negb (value <=? Min)
  else if (op =? COMPARE_LE) || (op =? COMPARE_NGT) then negb (value <? Min)
  else if (op =? COMPARE_GT) || (op =? COMPARE_NLE) then negb (Max <=? value)
  else if (op =? COMPARE_GE) || (op =? COMPARE_NLT) then negb (Max <? value)
  else if op =? COMPARE_EQ then negb ((value <? Min) || (Max <? value) || (0 <? lcf))
  else if op =? COMPARE_NE then negb ((value =? Min) && (value =? Max) && (lcf =? 0))
  else true.

(** The comparison of [CasualPartitionPredicate]: the order is that of the type. *)
Definition cp_scan (ct : ColType) (Min Max value op lcf : Z) : bool :=
  if isCharType (colDataType ct) && (1 <? colWidth ct)
  then compareVal (order_swap Min) (order_swap Max) (order_swap value) op lcf
  else if isUnsigned (colDataType ct)
  then compareVal (u64 Min) (u64 Max) (u64 value) op lcf
  else compareVal Min Max value op lcf.

(** The value at [ptr], or the value of the filter before for another width. *)
Definition cp_value (ct : ColType) (bs : list Z) (ptr value : Z) : outcome Z :=
  let W := colWidth ct in
  if bool_decide (W ∈ [1; 2; 4; 8]) then
    v ← mem_at (Z.to_nat W) bs ptr;
    Ret (if isUnsigned (colDataType ct) then i64 (get_u v) else get_s v)
  else Ret value.

(** The loop of [CasualPartitionPredicate]: [pos] and [ptr] are the two positions in
    the filter string.  A NULL is passed over with the pointer before its value. *)
Fixpoint cp_loop (ct : ColType) (Min Max BOP : Z) (bs : list Z) (n : nat) (pos ptr value : Z) (scan : bool) :
    outcome bool :=
  match n with
  | O => Ret scan
  | S n' =>
      let pos := pos + colWidth ct + 2 in
      if zlength bs <? pos then Ret true
      else
        op ← mem_at 1 bs ptr;
        lcf ← mem_at 1 bs (ptr + 1);
        let ptr := ptr + 2 in
        value ← cp_value ct bs ptr value;
        null ← isNull value ct;
        if (null : bool) then cp_loop ct Min Max BOP bs n' pos ptr value true
        else
          let scan := cp_scan ct Min Max value (wrap_s 8 (le_value op)) (le_value lcf) in
          if (BOP =? BOP_AND) && negb scan then Ret scan
          else if (BOP =? BOP_OR) && scan then Ret scan
          else cp_loop ct Min Max BOP bs n' pos (ptr + colWidth ct) value scan
  end.

(** [LBIDList::CasualPartitionPredicate] *)
Definition CasualPartitionPredicate (Min Max : Z) (bs : list Z) (NOPS : Z) (ct : ColType) (BOP : Z) : outcome bool :=
  cp_loop ct Min Max BOP bs (Z.to_nat NOPS) 0 0 0 true.

(** [LBIDList::checkSingleValue], [LBIDList::checkRangeOverlap] *)
Definition checkSingleValue (min max value : Z) (type : ColDataType) : bool :=
  if isCharType type then
    (order_swap min <=? order_swap value) && (order_swap value <=? order_swap max)
  else if isUnsigned type then (u64 min <=? u64 value) && (u64 value <=? u64 max)
  else (min <=? value) && (value <=? max).
Definition checkRangeOverlap (min max tmin tmax : Z) (type : ColDataType) : bool :=
  if isCharType type then
    (order_swap tmin <=? order_swap max) && (order_swap min <=? order_swap tmax)
  else if isUnsigned type then (u64 tmin <=? u64 max) && (u64 min <=? u64 tmax)
  else (tmin <=? max) && (min <=? tmax).

(** ** Ranges collected during a scan *)

Record MinMaxPartition := mkMMP {
  mp_lbid : Z;
  mp_lbidmax : Z;
  mp_min : Z;
  mp_max : Z;
  mp_seq : Z;
  mp_isValid : Z;
  mp_blksScanned : Z;
}.

(** The object: whether it has a [DBRM], [lbidPartitionVector] and [LBIDRanges]. *)
Record LBIDList := mkLL {
  ll_em : bool;
  lbidPartitionVector : list MinMaxPartition;
  LBIDRanges : list LBIDRange;
}.

(** [LBIDList(debug)], and [init] of [LBIDList(oid, debug)]. *)
Definition LBIDList_new : LBIDList := mkLL false [] [].
Definition LBIDList_init (oid : Z) : M Reader LBIDList :=
  '(err, r) ← dbrm_lookup oid;
  if nonzero err then throw RuntimeError
  else mret (mkLL true [] (match r with Some l => l | None => [] end)).

(** An entry for an extent without a range. *)
Definition new_partition (lbid lbidmax seq valid : Z) (t : ColDataType) : MinMaxPartition :=
  let '(mx, mn) := no_values t in mkMMP lbid lbidmax mn mx seq valid 0.

(** [LBIDList::getMinMaxFromEntries]: the state of the extent and, if there is one,
    its minimum, maximum and sequence number. *)
Definition getMinMaxFromEntries (lbid : Z) (entries : list EMEntry) : Z * option (Z * Z * Z) :=
  match List.find (fun e => (ir_start (range e) <=? lbid) && (lbid <=? lastBlock e)) entries with
  | Some e => (isValid (cprange e), Some (lo_val (cprange e), hi_val (cprange e), sequenceNum (cprange e)))
  | None => (CP_INVALID, None)
  end.

Definition add_partition (p : MinMaxPartition) (l : LBIDList) : LBIDList :=
  mkLL (ll_em l) (lbidPartitionVector l ++ [p]) (LBIDRanges l).

(** [LBIDList::GetMinMax] on a list of extents: the result, the minimum and maximum
    when they are set, and the sequence number.  Without a list the extent map is
    asked. *)
Definition GetMinMax (lbid : Z) (entries : list EMEntry) (t : ColDataType) :
    M (LBIDList * Reader) (bool * option (option (Z * Z) * Z)) :=
  l ← gets fst;
  match List.find (fun r => lbid =? range_start r) (LBIDRanges l) with
  | None => mret (false, None)
  | Some r =>
      '(retVal, mm) ←
        match entries with
        | _ :: _ => mret (getMinMaxFromEntries lbid entries)
        | [] =>
            if ll_em l then
              '(v, m) ← zoom snd (fun r x => (x.1, r)) (dbrm_getExtentMaxMin lbid);
              mret (v, (fun '(mx, mn, seq) => (mn, mx, seq)) <$> (m : option (Z * Z * Z)))
            else mret (-1, None)
        end;
      let seq := match (mm : option (Z * Z * Z)) with Some (_, _, s) => s | None => 0 end in
      let got := Some (fst <$> mm, seq) in
      if retVal =? CP_VALID then mret (true, got)
      else
        modify (fun x => (add_partition (new_partition lbid (lbid + range_size r) seq retVal t) x.1, x.2)) ≫= fun _ =>
        mret (false, got)
  end.

(** [LBIDList::GetMinMax] on a map of extents *)
Definition GetMinMax_map (lbid : Z) (entries : gmap Z EMEntry) (t : ColDataType) :
    M LBIDList (option (Z * Z * Z)) :=
  match entries !! lbid with
  | None => mret None
  | Some e =>
      let c := cprange e in
      if isValid c =? CP_VALID then mret (Some (lo_val c, hi_val c, sequenceNum c))
      else
        modify (add_partition (new_partition lbid (lbid + ir_size (range e) * 1024) (sequenceNum c) (isValid c) t))
          ≫= fun _ => mret None
  end.

(** What [LBIDList::UpdateMinMax] makes of the entry of the extent. *)
Definition update_partition (min max : Z) (type : ColDataType) (validData : bool) (p : MinMaxPartition) :
    MinMaxPartition :=
  let scanned := u32 (mp_blksScanned p + 1) in
  if negb validData then
    mkMMP (mp_lbid p) (mp_lbidmax p) (mp_min p) (mp_max p) (mp_seq p) CP_UPDATING scanned
  else if mp_isValid p =? CP_INVALID then
    let '(mn, mx) :=
      if isCharType type then
        (if (order_swap min <? order_swap (mp_min p)) || (mp_min p =? max_i64) then min else mp_min p,
         if (order_swap (mp_max p) <? order_swap max) || (mp_max p =? min_i64) then max else mp_max p)
      else if isUnsigned type then
        (if u64 min <? u64 (mp_min p) then min else mp_min p,
         if u64 (mp_max p) <? u64 max then max else mp_max p)
      else
        (if min <? mp_min p then min else mp_min p,
         if mp_max p <? max then max else mp_max p) in
    mkMMP (mp_lbid p) (mp_lbidmax p) mn mx (mp_seq p) (mp_isValid p) scanned
  else mkMMP (mp_lbid p) (mp_lbidmax p) (mp_min p) (mp_max p) (mp_seq p) (mp_isValid p) scanned.

(** The loop of [UpdateMinMax]: the first entry that has the LBID. *)
Fixpoint update_loop (min max lbid : Z) (type : ColDataType) (validData : bool) (v : list MinMaxPartition) :
    list MinMaxPartition :=
  match v with
  | [] => []
  | p :: v' =>
      if (mp_lbid p <=? lbid) && (lbid <? mp_lbidmax p)
      then update_partition min max type validData p :: v'
      else p :: update_loop min max lbid type validData v'
  end.
Definition UpdateMinMax (min max lbid : Z) (type : ColDataType) (validData : bool) (l : LBIDList) : LBIDList :=
  mkLL (ll_em l) (update_loop min max lbid type validData (lbidPartitionVector l)) (LBIDRanges l).

(** [LBIDList::UpdateAllPartitionInfo]; [setMaxMin] is the call [setExtentsMaxMin]
    of the [DBRM].  [v] is the entries, [i] the index. *)
Definition cpUpdateInterval : Z := 25000.
Definition sendable (p : MinMaxPartition) : bool := (mp_isValid p =? CP_INVALID) && (0 <? mp_blksScanned p).
Definition info_of (p : MinMaxPartition) : CPInfo := mkCPInfo (mp_lbid p) (mp_max p) (mp_min p) (i32 (mp_seq p)).
Definition mark_valid (p : MinMaxPartition) : MinMaxPartition :=
  mkMMP (mp_lbid p) (mp_lbidmax p) (mp_min p) (mp_max p) (mp_seq p) CP_VALID (mp_blksScanned p).

Section Update.
Context {S : Type} (setMaxMin : list CPInfo → M S unit).

Fixpoint send_partitions (size : Z) (v : list MinMaxPartition) (i : Z) (vCpInfo : list CPInfo) :
    M S (list MinMaxPartition) :=
  match v with
  | [] => (match vCpInfo with [] => mret tt | _ => setMaxMin vCpInfo end) ≫= fun _ => mret []
  | p :: v' =>
      if sendable p then
        let vCpInfo := vCpInfo ++ [info_of p] in
        if ((i + 1) mod cpUpdateInterval =? 0) || (i + 1 =? size) then
          setMaxMin vCpInfo ≫= fun _ =>
          l ← send_partitions size v' (i + 1) [];
          mret (mark_valid p :: l)
        else
          l ← send_partitions size v' (i + 1) vCpInfo;
          mret (mark_valid p :: l)
      else
        l ← send_partitions size v' (i + 1) vCpInfo;
        mret (p :: l)
  end.
Definition UpdateAllPartitionInfo : M (LBIDList * S) unit :=
  l ← gets fst;
  (if existsb sendable (lbidPartitionVector l) && negb (ll_em l) then throw Segfault else mret tt) ≫= fun _ =>
  v ← zoom snd (fun s x => (x.1, s)) (send_partitions (zlength (lbidPartitionVector l)) (lbidPartitionVector l) 0 []);
  modify (fun x => (mkLL (ll_em x.1) v (LBIDRanges x.1), x.2)).
End Update.

(** [LBIDList::IsRangeBoundary] *)
Definition IsRangeBoundary (lbid : Z) (l : LBIDList) : bool :=
  existsb (fun r => lbid =? u64 (range_start r)) (LBIDRanges l).

(** ** The job step ([tuple-bps.cpp]) *)

(** [ColumnCommandJL]: a column of the query with its filters and its extents. *)
Record ColumnCommandJL := mkJL {
  jl_ct : ColType;
  jl_filterString : list Z;
  jl_filterCount : Z;
  jl_BOP : Z;
  jl_extents : list EMEntry;
}.

(** The flag of the extent [idx] in [storeCasualPartitionInfo]: a column that
    eliminates it ends the loop. *)
Fixpoint scan_flag (ignoreCP : bool) (cols : list ColumnCommandJL) (idx : Z) : outcome bool :=
  match cols with
  | [] => Ret true
  | c :: cols' =>
      e ← deref ((jl_extents c).[idx]);
      flag ← if ignoreCP || negb (isValid (cprange e) =? CP_VALID) then Ret true
             else CasualPartitionPredicate (lo_val (cprange e)) (hi_val (cprange e)) (jl_filterString c)
                    (jl_filterCount c) (jl_ct c) (jl_BOP c);
      if (flag : bool) then scan_flag ignoreCP cols' idx else Ret false
  end.

Fixpoint flags_loop (ignoreCP : bool) (cols : list ColumnCommandJL) (idxs : list Z) : outcome (list bool) :=
  match idxs with
  | [] => Ret []
  | idx :: idxs' =>
      f ← scan_flag ignoreCP cols idx;
      l ← flags_loop ignoreCP cols idxs';
      Ret (f :: l)
  end.

(** [TupleBPS::storeCasualPartitionInfo]: [scanFlags].  Estimating the number of rows
    is left out. *)
Definition storeCasualPartitionInfo (ignoreCP : bool) (cmds : list ColumnCommandJL) (numExtents : Z)
    (scanFlags : list bool) : outcome (list bool) :=
  let cols := List.filter (fun c => CasualPartitionDataType (colDataType (jl_ct c)) (u8 (colWidth (jl_ct c)))) cmds in
  match cols with
  | [] => Ret scanFlags
  | _ => l ← flags_loop ignoreCP cols (zseq 0 numExtents); Ret (l ++ drop (length l) scanFlags)
  end.

(** [TupleBPS::prepCasualPartitioning], the extent [e] with its two flags. *)
Definition prep_extent (fOid : Z) (ct : ColType) (scanned : list EMEntry) (e : EMEntry) (scan runtime : bool) :
    M (LBIDList * Reader) bool :=
  if 3000 <=? fOid then
    let scan := scan && runtime in
    (if scan && CasualPartitionDataType (colDataType ct) (u8 (colWidth ct))
     then GetMinMax (ir_start (range e)) scanned (colDataType ct) ≫= fun _ => mret tt
     else mret tt) ≫= fun _ =>
    mret scan
  else mret true.

(** The flag of one extent in [TupleBPS::addCPPredicates]: [vals] are the bounds of
    the join column, or its values. *)
Definition runtime_flag (t : ColDataType) (vals : list Z) (isRange : bool) (lbid : Z)
    (entries : gmap Z EMEntry) (flag : bool) : M LBIDList bool :=
  r ← GetMinMax_map lbid entries t;
  match r with
  | None => mret flag
  | Some (mn, mx, _) =>
      if isRange then
        lo ← lift (deref (vals.[0]));
        hi ← lift (deref (vals.[1]));
        mret (checkRangeOverlap mn mx lo hi t && flag)
      else mret (existsb (fun v => checkSingleValue mn mx v t) vals && flag)
  end.

(** [_CPInfo] and the loop that hands the ranges of the scanned blocks in. *)
Record BlockCP := mkBCP { bc_min : Z; bc_max : Z; bc_LBID : Z; bc_valid : bool }.
Definition update_ranges (type : ColDataType) (cpv : list BlockCP) (l : LBIDList) : LBIDList :=
  foldl (fun l c => UpdateMinMax (bc_min c) (bc_max c) (bc_LBID c) type (bc_valid c) l) l cpv.
