(* ===== verification/ScanProofs.v ===== *)
(** * Scanning a block: proofs

    The loop of [p_Col] as a fold over the rows it visits, the rows the filters
    select, filters as a set, the range a scan computes, and the predicate of
    partition elimination on parsed filters. *)

From stdpp Require Import gmap sorting.
From S2P Require Import Prelude BinFile ByteStream ColType Vss ExtentMap EmCp SlaveNode NodeEm DbrmReads ColumnScan LbidList.

(** ** Reading memory *)

Definition width (W : Z) : Prop := W = 1 ∨ W = 2 ∨ W = 4 ∨ W = 8.

#[global] Instance width_dec W : Decision (width W).
Proof. unfold width. apply _. Defined.

Lemma mem_at_ok n mem off :
  0 ≤ off → off + Z.of_nat n ≤ zlength mem → mem_at n mem off = Ret (take n (drop (Z.to_nat off) mem)).
Proof.
  intros Ho Hn. unfold mem_at, zlength in *. rewrite (proj2 (Z.leb_le 0 off)) by lia.
  rewrite bool_decide_eq_true_2; [done|]. rewrite length_take, length_drop. lia.
Qed.

Lemma mem_at_inv n mem off bs :
  mem_at n mem off = Ret bs → bs = take n (drop (Z.to_nat off) mem) ∧ length bs = n.
Proof.
  unfold mem_at. intros H. destruct (_ && _) eqn:E in H; [|done]. injection H as <-.
  apply andb_true_iff in E as [_ E%bool_decide_eq_true_1]. done.
Qed.

Lemma mem_at_bytes n mem off bs : Forall is_byte mem → mem_at n mem off = Ret bs → Forall is_byte bs ∧ length bs = n.
Proof. intros Hm [-> Hl]%mem_at_inv. split; [|done]. by apply Forall_take, Forall_drop. Qed.

Lemma outcome_bind_inv {A B} (m : outcome A) (k : A → outcome B) b :
  (m ≫= k) = Ret b → ∃ a, m = Ret a ∧ k a = Ret b.
Proof. destruct m; [eauto|done]. Qed.

Lemma filter_no_row {A} (f : A → bool) l : (∀ x, x ∈ l → f x = false) → List.filter f l = [].
Proof.
  induction l as [|x l IH]; intros H; [done|]. cbn. rewrite H by apply list_elem_of_here. apply IH.
  intros y Hy. apply H. by apply list_elem_of_further.
Qed.

(** ** The order of strings *)

Lemma u64_bit x n : 0 ≤ n → Z.testbit (u64 x) n = (n <? 64) && Z.testbit x n.
Proof.
  intros Hn. unfold wrap_u. destruct (Z.ltb_spec n 64).
  - by rewrite Z.mod_pow2_bits_low by lia.
  - by rewrite Z.mod_pow2_bits_high by lia.
Qed.

Lemma shr_bit x k n : 0 ≤ n → 0 ≤ k → Z.testbit (Z.shiftr (u64 x) k) n = (n + k <? 64) && Z.testbit x (n + k).
Proof. intros Hn Hk. by rewrite Z.shiftr_spec, u64_bit by lia. Qed.

Lemma shl_bit x k n :
  0 ≤ n < 64 → 0 ≤ k → Z.testbit (u64 (Z.shiftl (u64 x) k)) n = (k <=? n) && Z.testbit x (n - k).
Proof.
  intros Hn Hk. rewrite u64_bit, Z.shiftl_spec by lia. rewrite (proj2 (Z.ltb_lt n 64)) by lia.
  destruct (Z.leb_spec k n); simpl; [|by rewrite Z.testbit_neg_r by lia].
  rewrite u64_bit by lia. by rewrite (proj2 (Z.ltb_lt (n - k) 64)) by lia.
Qed.

(** [order_swap] moves each bit to the same place of the mirrored byte. *)
Definition mirror (n : Z) : Z := 8 * (7 - n / 8) + n mod 8.

Lemma order_swap_bit x n : 0 ≤ n < 64 → Z.testbit (order_swap x) n = Z.testbit x (mirror n).
Proof.
  intros Hn. assert (In n (zseq 0 64)) as Hin by (apply list_elem_of_In, zseq_elem; lia).
  unfold order_swap. rewrite !Z.lor_spec, !Z.land_spec, !shr_bit, !shl_bit by lia.
  vm_compute in Hin. repeat destruct Hin as [<-|Hin]; [..|done];
    (cbn -[Z.testbit]; rewrite ?andb_true_r, ?andb_false_r, ?orb_false_r; try done).
Qed.

Lemma mirror_range n : 0 ≤ n < 64 → 0 ≤ mirror n < 64.
Proof. unfold mirror. intros. pose proof (Z.mod_pos_bound n 8). assert (0 ≤ n / 8 < 8) by (split; [apply Z.div_pos|apply Z.div_lt_upper_bound]; lia). lia. Qed.

Lemma mirror_mirror n : 0 ≤ n < 64 → mirror (mirror n) = n.
Proof.
  intros Hn. unfold mirror at 1. pose proof (Z.mod_pos_bound n 8 ltac:(lia)).
  replace (mirror n) with (n mod 8 + (7 - n / 8) * 8) by (unfold mirror; lia).
  rewrite Z.div_add, Z.mod_add, (Z.div_small (n mod 8)), Z.mod_mod by lia. pose proof (Z.div_mod n 8). lia.
Qed.

Lemma order_swap_range x : 0 ≤ order_swap x < 2 ^ 64.
Proof.
  assert (∀ y, 0 ≤ u64 y < 2 ^ 64) as Hu by (intros; apply wrap_u_bound; lia).
  assert (∀ y m, 0 ≤ y < 2 ^ 64 → 0 ≤ Z.land y m < 2 ^ 64) as Hl.
  { intros y m Hy. assert (0 ≤ Z.land y m) by (apply Z.land_nonneg; lia). split; [done|].
    apply bits_bound; [lia|done|]. intros i Hi. rewrite Z.land_spec, (testbit_above 64 y i) by lia. done. }
  unfold order_swap. repeat first [apply lor_bound; [lia|..] | apply Hl | apply shiftr_bound; [lia|] | apply Hu].
Qed.

Lemma order_swap_inj x y : order_swap x = order_swap y → u64 x = u64 y.
Proof.
  intros H. apply Z.bits_inj'. intros n Hn. rewrite !u64_bit by done. destruct (Z.ltb_spec n 64); [|done].
  rewrite <- (mirror_mirror n), <- !order_swap_bit by (auto using mirror_range with lia). by rewrite H.
Qed.

(** ** The rows a scan visits *)

Definition row_at (W : Z) (type : ColDataType) (block : list Z) (rid : Z) : ColRow :=
  let bs := take (Z.to_nat W) (drop (Z.to_nat (rid * W)) block) in
  mkRow rid (if isUnsigned type then get_u bs else get_s bs) (isNullVal W type (le_value bs))
    (isEmptyVal W type (le_value bs)).

(** Rows that are not there are visited only by a scan that does not return rids. *)
Definition visited (q : NewColRequestHeader) (scan : bool) (w : ColRow) : bool :=
  negb (w_empty w && (negb scan || nonzero (Z.land (q_OutputType q) OT_RID))).

Definition visited_rows (W : Z) (q : NewColRequestHeader) (block : list Z) (scan : bool) (todo : list Z) : list ColRow :=
  List.filter (visited q scan) (row_at W (q_DataType q) block <$> todo).

Definition row_in_block (W : Z) (block : list Z) (rid : Z) : Prop := 0 ≤ rid ∧ (rid + 1) * W ≤ zlength block.

Section Loop.
Context (regexec : list Z → list Z → bool) (W : Z) (q : NewColRequestHeader) (block : list Z).
Context (HW : width W).

Lemma row_bytes_ok rid :
  row_in_block W block rid → row_bytes W block rid = Ret (take (Z.to_nat W) (drop (Z.to_nat (rid * W)) block)).
Proof. intros [H1 H2]. apply mem_at_ok; unfold width in HW; nia. Qed.

Lemma next_nil scan : next W q block scan [] = Ret None.
Proof. unfold next, nextColValue, nextUnsignedColValue, nextValue. by destruct (isUnsigned _). Qed.

Lemma next_cons scan rid todo :
  row_in_block W block rid →
  next W q block scan (rid :: todo) =
    if visited q scan (row_at W (q_DataType q) block rid) then Ret (Some (row_at W (q_DataType q) block rid, todo))
    else next W q block scan todo.
Proof.
  intros Hr. unfold next, nextColValue, nextUnsignedColValue, nextValue. cbn [next_row].
  rewrite row_bytes_ok by done. cbn [mbind outcome_bind]. unfold visited, row_at. cbn [w_empty].
  by destruct (isUnsigned _), (_ && _).
Qed.

(** The body of the loop, on the rows that are visited. *)
Fixpoint fold_rows (f : ParsedColumnFilter) (rows : list ColRow) (o : NewColResultHeader) :
    outcome NewColResultHeader :=
  match rows with
  | [] => Ret o
  | w :: rows' =>
      o ← do_row regexec W q block f w o;
      fold_rows f rows' (set_minmax regexec W q w o)
  end.

Lemma col_loop_rows f scan todo fuel o :
  Forall (row_in_block W block) todo → (length todo < fuel)%nat →
  col_loop regexec W q block fuel scan f todo o = fold_rows f (visited_rows W q block scan todo) o.
Proof.
  intros Hin. revert fuel o. induction Hin as [|rid todo Hr Hin IH]; intros fuel o Hf;
    (destruct fuel as [|fuel]; [cbn in Hf; lia|]); cbn in Hf.
  - cbn [col_loop]. by rewrite next_nil.
  - cbn [col_loop]. rewrite next_cons by done. unfold visited_rows. cbn [fmap list_fmap List.filter].
    destruct (visited q scan _) eqn:E.
    + cbn [mbind outcome_bind fold_rows]. destruct (do_row _ _ _ _ _ _ _) as [o'|]; [|done].
      cbn [mbind outcome_bind]. apply IH. lia.
    + rewrite <- (IH (S fuel)) by lia. done.
Qed.

(** Whether the loop over the filters stores a row. *)
Definition selected (args : list ColArg) (w : ColRow) : bool :=
  if q_NOPS q =? 0 then true
  else if q_NOPS q =? 1 then forallb (compare_row regexec W q w) args
  else if q_BOP q =? BOP_AND then forallb (compare_row regexec W q w) args
  else if q_BOP q =? BOP_OR then existsb (compare_row regexec W q w) args
  else false.

Lemma try_args_end w l pre :
  q_NOPS q ≠ 1 → q_NOPS q = zlength (pre ++ l) →
  ∃ i, try_args regexec W q (pre ++ l) w (length l) (zlength pre)
         = Ret ((q_BOP q =? BOP_OR) && existsb (compare_row regexec W q w) l, i) ∧
       (i =? q_NOPS q) && (q_BOP q =? BOP_AND) = (q_BOP q =? BOP_AND) && forallb (compare_row regexec W q w) l.
Proof.
  intros H1. revert pre. induction l as [|a l IH]; intros pre Hn; cbn [length try_args existsb forallb].
  - exists (zlength pre). rewrite andb_false_r, andb_true_r, Hn, app_nil_r, Z.eqb_refl. done.
  - rewrite zget_middle. cbn [deref mbind outcome_bind]. rewrite (proj2 (Z.eqb_neq _ _) H1).
    assert (q_NOPS q ≠ zlength pre) as Hne.
    { rewrite Hn, zlength_app, zlength_cons. pose proof (zlength_nonneg l). lia. }
    destruct (IH (pre ++ [a])) as (i & E & Ei); [by rewrite <- app_assoc|].
    rewrite <- app_assoc in E. cbn in E. rewrite zlength_app in E. change (zlength [a]) with 1 in E.
    destruct (compare_row regexec W q w a) eqn:Ec; cbn [negb andb orb].
    + rewrite andb_false_r. destruct (Z.eqb_spec (q_BOP q) BOP_OR) as [Hb|Hb]; cbn [andb].
      * exists (zlength pre). split; [done|]. rewrite Hb. cbn. by rewrite andb_false_r.
      * exists i. cbn [andb] in E. by rewrite E, Ei.
    + rewrite andb_true_r, andb_false_r. destruct (Z.eqb_spec (q_BOP q) BOP_AND) as [Hb|Hb]; cbn [andb].
      * exists (zlength pre). rewrite Hb. cbn [andb]. split; [done|].
        rewrite (proj2 (Z.eqb_neq _ _)) by done. done.
      * exists i. split; [done|]. by rewrite ?andb_false_r.
Qed.

Lemma do_args_selected args w o :
  q_NOPS q = zlength args →
  do_args regexec W q block args w o = if selected args w then store q block (w_rid w) o else Ret o.
Proof.
  intros Hn. unfold do_args, selected. destruct (Z.eqb_spec (q_NOPS q) 0) as [E0|E0].
  { rewrite E0. cbn. by destruct (q_BOP q =? BOP_AND). }
  destruct (Z.eqb_spec (q_NOPS q) 1) as [E1|E1].
  { destruct args as [|a [|a' args]]; [done| |rewrite Hn, !zlength_cons in E1; pose proof (zlength_nonneg args); lia].
    rewrite E1. change (Z.to_nat 1) with 1%nat. cbn [try_args]. change ([a].[0]) with (Some a).
    cbn [deref mbind outcome_bind forallb]. rewrite E1, andb_true_r. cbn. destruct (compare_row _ _ _ _ _); [|done].
    destruct (store _ _ _ _); done. }
  destruct (try_args_end w args [] E1 Hn) as (i & E & Ei). cbn in E.
  rewrite Hn. unfold zlength. rewrite Nat2Z.id. fold (zlength args). change (zlength []) with 0 in E. rewrite E, <- Hn.
  cbn [mbind outcome_bind]. rewrite Ei, orb_false_r.
  destruct (Z.eqb_spec (q_BOP q) BOP_AND) as [Hb|Hb]; [rewrite Hb; by destruct (forallb _ _)|]. cbn [andb].
  destruct (_ =? BOP_OR); cbn [andb]; [|done]. destruct (existsb _ _); [|done]. by destruct (store _ _ _ _).
Qed.
End Loop.

(** ** Values of rows and of filters *)

(** The number made of [W] bytes of a column. *)
Definition decode (type : ColDataType) (bs : list Z) : Z := if isUnsigned type then get_u bs else get_s bs.

Definition col_bytes (W : Z) (bs : list Z) : Prop := Forall is_byte bs ∧ zlength bs = W.

(** A row and a filter of the column, with their bytes. *)
Definition row_ok (W : Z) (type : ColDataType) (w : ColRow) (bs : list Z) : Prop :=
  col_bytes W bs ∧ w_val w = decode type bs ∧ w_null w = isNullVal W type (le_value bs) ∧
  w_empty w = isEmptyVal W type (le_value bs).
Definition arg_ok (W : Z) (type : ColDataType) (a : ColArg) (bs : list Z) : Prop :=
  col_bytes W bs ∧ a_val a = (if isUnsigned type then i64 (get_u bs) else get_s bs) ∧
  (Z.land COMPARE_LIKE (a_COP a) = 0 → a_regex a = placeholderRegex).

(** The constant of a filter as the comparison reads it. *)
Definition arg_val (type : ColDataType) (a : ColArg) : Z := if isUnsigned type then u64 (a_val a) else a_val a.

Lemma width_pow W : width W → 0 < W ≤ 8 ∧ 2 ^ (8 * W) ≤ 2 ^ 64.
Proof. intros [->|[->|[->| ->]]]; vm_compute; intuition discriminate. Qed.

Lemma wrap_u_s w x : 0 < w → wrap_u w (wrap_s w x) = wrap_u w x.
Proof.
  intros Hw. unfold wrap_u, wrap_s. pose proof (Z.pow_pos_nonneg 2 w ltac:(lia) ltac:(lia)).
  destruct (_ <? _); [by rewrite Z.mod_mod by lia|].
  replace (x mod 2 ^ w - 2 ^ w) with (x mod 2 ^ w + (-1) * 2 ^ w) by lia. by rewrite Z.mod_add, Z.mod_mod by lia.
Qed.

Lemma wrap_s_range w x : 0 < w → - 2 ^ (w - 1) ≤ wrap_s w x < 2 ^ (w - 1).
Proof.
  intros Hw. unfold wrap_s. assert (2 ^ w = 2 * 2 ^ (w - 1)) by (rewrite <- Z.pow_succ_r by lia; f_equal; lia).
  pose proof (Z.mod_pos_bound x (2 ^ w) ltac:(lia)). destruct (Z.ltb_spec (x mod 2 ^ w) (2 ^ (w - 1))); lia.
Qed.

Section Values.
Context (W : Z) (type : ColDataType) (HW : width W).

Lemma value_bound bs : col_bytes W bs → 0 ≤ le_value bs < 2 ^ (8 * W).
Proof. intros [Hb <-]. by apply le_value_bound. Qed.

(** The low bytes of a value are the bytes of the row. *)
Lemma decode_low bs : col_bytes W bs → wrap_u (8 * W) (decode type bs) = le_value bs.
Proof.
  intros Hb. pose proof (value_bound _ Hb). destruct Hb as [_ Hl]. pose proof (width_pow W HW). unfold decode, get_u, get_s.
  destruct (isUnsigned type); [|rewrite Hl, wrap_u_s by lia]; by apply wrap_u_small.
Qed.

Lemma decode_inj bs bs' : col_bytes W bs → col_bytes W bs' → decode type bs = decode type bs' → le_value bs = le_value bs'.
Proof. intros H1 H2 E. rewrite <- (decode_low bs), <- (decode_low bs') by done. by rewrite E. Qed.

Lemma decode_range bs :
  col_bytes W bs → if isUnsigned type then 0 ≤ decode type bs < 2 ^ 64 else - 2 ^ 63 ≤ decode type bs < 2 ^ 63.
Proof.
  intros Hb. pose proof (value_bound _ Hb). destruct Hb as [_ Hl]. pose proof (width_pow W HW) as [HW8 Hp]. unfold decode, get_u, get_s.
  destruct (isUnsigned type); [lia|]. rewrite Hl. pose proof (wrap_s_range (8 * W) (le_value bs) ltac:(lia)).
  pose proof (Z.pow_le_mono_r 2 (8 * W - 1) 63 ltac:(lia) ltac:(lia)). lia.
Qed.

Lemma arg_val_decode a bs : arg_ok W type a bs → arg_val type a = decode type bs.
Proof.
  intros (Hb & Ha & _). pose proof (decode_range bs Hb) as Hr. unfold arg_val, decode in *. rewrite Ha.
  destruct (isUnsigned type); [|done]. rewrite wrap_u_s by lia. by apply wrap_u_small.
Qed.

(** A row and a filter of the same value are NULL together. *)
Lemma same_null w bs a bs' :
  row_ok W type w bs → arg_ok W type a bs' → w_val w = arg_val type a →
  isNullVal W type (wrap_u (8 * W) (arg_val type a)) = w_null w.
Proof.
  intros (Hb & Hv & Hn & _) Ha E. rewrite Hn, <- E, Hv. by rewrite decode_low.
Qed.
End Values.

(** ** Filters as a set *)

Definition not_float (type : ColDataType) : Prop := type ≠ FLOAT ∧ type ≠ DOUBLE.

Section Compare.
Context (regexec : list Z → list Z → bool) (W : Z) (q : NewColRequestHeader).
Context (HW : width W) (Hf : not_float (q_DataType q)).

Lemma order_swap_eqb x y :
  - 2 ^ 63 ≤ x < 2 ^ 63 → - 2 ^ 63 ≤ y < 2 ^ 63 → (order_swap x =? order_swap y) = (x =? y).
Proof.
  intros Hx Hy. destruct (Z.eqb_spec x y) as [->|E]; [by apply Z.eqb_refl|]. apply Z.eqb_neq.
  intros H%order_swap_inj. apply E.
  rewrite <- (s_of_u 64 x), <- (s_of_u 64 y) by lia. by rewrite H.
Qed.

(** Comparing for equality is comparing the values. *)
Lemma compare_EQ w bs a bs' :
  row_ok W (q_DataType q) w bs → arg_ok W (q_DataType q) a bs' → a_COP a = COMPARE_EQ →
  compare_row regexec W q w a = (w_val w =? arg_val (q_DataType q) a) && (a_rf a =? 0).
Proof.
  intros Hw Ha Hc. destruct Hf as [Hf1 Hf2]. pose proof (same_null W _ HW _ _ _ _ Hw Ha) as Hnull.
  assert (a_regex a = placeholderRegex) as Hr by (apply Ha; by rewrite Hc).
  unfold compare_row, colCompareUnsigned, colCompare. rewrite Hc, Hr. cbn [Z.eqb COMPARE_EQ COMPARE_NIL Z.compare].
  rewrite !bool_decide_eq_false_2 by done. rewrite !andb_false_r. unfold arg_val in *.
  destruct (isUnsigned (q_DataType q)) eqn:Eu.
  - destruct (Z.eqb_spec (w_val w) (u64 (a_val a))) as [E|E].
    + rewrite Hnull by done. rewrite eqb_reflx. cbn. by rewrite E, Z.eqb_refl.
    + destruct (_ || _); [|done]. cbn. by rewrite (proj2 (Z.eqb_neq _ _) E).
  - destruct (isCharType (q_DataType q) && negb (w_null w)) eqn:Ech.
    + pose proof (decode_range W (q_DataType q) HW bs (proj1 Hw)) as R1. pose proof (arg_val_decode W _ HW _ _ Ha) as E2.
      pose proof (decode_range W (q_DataType q) HW bs' (proj1 Ha)) as R2. unfold arg_val in E2.
      destruct Hw as (_ & Hv & _). rewrite Eu in *. rewrite <- Hv in R1. rewrite <- E2 in R2.
      destruct (Z.eqb_spec (a_rf a) 0) as [->|Er]; cbn.
      * rewrite andb_true_r. by apply order_swap_eqb.
      * rewrite (proj2 (Z.eqb_neq _ _) Er), !andb_false_r. done.
    + destruct (Z.eqb_spec (w_val w) (a_val a)) as [E|E].
      * rewrite Hnull by done. rewrite eqb_reflx. cbn. by rewrite E, Z.eqb_refl.
      * destruct (_ || _); [|done]. cbn. by rewrite (proj2 (Z.eqb_neq _ _) E).
Qed.

(** So is comparing a value that is not NULL for being different. *)
Lemma compare_NE w bs a bs' :
  row_ok W (q_DataType q) w bs → arg_ok W (q_DataType q) a bs' → a_COP a = COMPARE_NE → w_null w = false →
  compare_row regexec W q w a = negb (w_val w =? arg_val (q_DataType q) a) || nonzero (a_rf a).
Proof.
  intros Hw Ha Hc Hnn. destruct Hf as [Hf1 Hf2].
  assert (a_regex a = placeholderRegex) as Hr by (apply Ha; by rewrite Hc).
  unfold compare_row, colCompareUnsigned, colCompare. rewrite Hc, Hr, Hnn. cbn [Z.eqb COMPARE_NE COMPARE_NIL Z.compare].
  rewrite !bool_decide_eq_false_2 by done. rewrite !andb_false_r, !andb_true_r. unfold arg_val in *.
  destruct (isUnsigned (q_DataType q)) eqn:Eu; [by destruct (isNullVal _ _ _)|].
  destruct (isCharType (q_DataType q)) eqn:Ech; [|by destruct (isNullVal _ _ _)].
  pose proof (decode_range W (q_DataType q) HW bs (proj1 Hw)) as R1. pose proof (arg_val_decode W _ HW _ _ Ha) as E2.
  pose proof (decode_range W (q_DataType q) HW bs' (proj1 Ha)) as R2. unfold arg_val in E2.
  destruct Hw as (_ & Hv & _). rewrite Eu in *. rewrite <- Hv in R1. rewrite <- E2 in R2.
  cbn [negb andb rx_used placeholderRegex]. rewrite negb_involutive.
  destruct (Z.eqb_spec (a_rf a) 0) as [Er|Er]; cbn; rewrite order_swap_eqb by done; [by rewrite orb_false_r|].
  by rewrite (proj2 (Z.eqb_neq _ _) Er).
Qed.

(** A NULL row is different from no constant that is not NULL. *)
Lemma compare_null_row w a :
  w_null w = true → isNullVal W (q_DataType q) (wrap_u (8 * W) (arg_val (q_DataType q) a)) = false →
  compare_row regexec W q w a = false.
Proof.
  intros Hn Ha. unfold compare_row, colCompareUnsigned, colCompare, arg_val in *. rewrite Hn. cbn [negb andb].
  rewrite andb_false_r. destruct (_ =? COMPARE_NIL); [by destruct (isUnsigned _)|].
  destruct (isUnsigned _); by rewrite Ha.
Qed.
End Compare.

(** The bytes of the constant of a filter, and whether it is a NULL. *)
Definition constant (W : Z) (filter : list Z) (i : Z) : list Z :=
  take (Z.to_nat W) (drop (Z.to_nat (i * (W + 2) + 2)) filter).
Definition null_constant (W : Z) (type : ColDataType) (filter : list Z) (i : Z) : bool :=
  isNullVal W type (le_value (constant W filter i)).

Section Parse.
Context (W : Z) (type : ColDataType) (filter : list Z).
Context (HW : width W) (Hb : Forall is_byte filter).

Lemma arg_at_ok i cop rf v :
  0 ≤ i → arg_at W filter i = Ret (cop, rf, v) → col_bytes W v ∧ is_byte cop ∧ is_byte rf ∧ v = constant W filter i.
Proof.
  intros Hi H. unfold arg_at in H. apply outcome_bind_inv in H as (bs & Hm & H).
  destruct (mem_at_bytes _ _ _ _ Hb Hm) as [Hbs Hl]. apply mem_at_inv in Hm as [Hm _].
  destruct bs as [|c [|r v']]; [done..|]. injection H as -> -> ->. cbn in Hl. unfold width in HW.
  inversion Hbs as [|? ? ? H2]; subst. inversion H2; subst. split; [|split; [done|split; [done|]]].
  { split; [done|]. unfold zlength. lia. }
  unfold constant. replace (Z.to_nat (i * (W + 2) + 2)) with (Z.to_nat (i * (W + 2)) + 2)%nat by lia.
  rewrite <- drop_drop. replace (Z.to_nat W) with (Z.to_nat (W + 2) - 2)%nat by lia. rewrite <- skipn_firstn_comm.
  by rewrite <- Hm.
Qed.

Lemma parse_arg_ok like i a :
  0 ≤ i → parse_arg like W type filter i = Ret a →
  arg_ok W type a (constant W filter i) ∧ is_byte (a_COP a) ∧ is_byte (a_rf a).
Proof.
  intros Hi H. unfold parse_arg in H. apply outcome_bind_inv in H as ([[cop rf] v] & Ha & H).
  destruct (arg_at_ok _ _ _ _ Hi Ha) as (Hv & Hc & Hr & ->). apply outcome_bind_inv in H as (rx & Hx & [= <-]). cbn.
  split; [|done]. split; [done|]. split; [done|]. cbn. intros E. rewrite E in Hx. cbn in Hx. rewrite andb_false_r in Hx. by injection Hx.
Qed.

Lemma parse_loop_args like is' args :
  Forall (Z.le 0) is' → parse_loop like W type filter is' = Ret args →
  Forall2 (fun i a => arg_ok W type a (constant W filter i) ∧ is_byte (a_COP a) ∧ is_byte (a_rf a)) is' args.
Proof.
  intros Hi. revert args. induction Hi as [|i is' Hi His IH]; intros args H; cbn in H; [by injection H as <-|].
  apply outcome_bind_inv in H as (a & Ha & H). apply outcome_bind_inv in H as (l & Hl & [= <-]).
  constructor; [by eapply parse_arg_ok|auto].
Qed.
End Parse.

Lemma Forall_zseq n : Forall (Z.le 0) (zseq 0 n).
Proof. apply Forall_forall. intros x Hx%zseq_elem. lia. Qed.

Section SetMode.
Context (regexec : list Z → list Z → bool) (W : Z) (q : NewColRequestHeader) (block : list Z).
Context (HW : width W) (Hf : not_float (q_DataType q)).

Definition the_set (args : list ColArg) : gset Z := list_to_set (a_val <$> List.filter (fun a => a_rf a =? 0) args).

(** A value is in the set if an exact filter has it. *)
Lemma in_the_set args w bs :
  row_ok W (q_DataType q) w bs → Forall (fun a => ∃ bs', arg_ok W (q_DataType q) a bs') args →
  bool_decide ((if isUnsigned (q_DataType q) then i64 (w_val w) else w_val w) ∈ the_set args) =
  existsb (fun a => (w_val w =? arg_val (q_DataType q) a) && (a_rf a =? 0)) args.
Proof.
  intros Hw Ha. pose proof (decode_range W (q_DataType q) HW bs (proj1 Hw)) as Hr.
  rewrite <- (proj1 (proj2 Hw)) in Hr.
  assert (∀ a, a ∈ args → ((if isUnsigned (q_DataType q) then i64 (w_val w) else w_val w) = a_val a ↔
                           w_val w = arg_val (q_DataType q) a)) as Hiff.
  { intros a (bs' & Hb' & Hv & _)%(proj1 (Forall_forall _ _) Ha).
    pose proof (decode_range W (q_DataType q) HW bs' Hb') as R2. unfold arg_val, decode in *. rewrite Hv.
    destruct (isUnsigned _); [|done]. rewrite wrap_u_s by lia. rewrite (u_of_u 64 (get_u bs')) by lia.
    split; [|by intros ->]. intros E. rewrite <- (u_of_u 64 (w_val w)), <- (u_of_u 64 (get_u bs')) by lia.
    rewrite <- (wrap_u_s 64 (w_val w)), <- (wrap_u_s 64 (get_u bs')) by lia. by rewrite E. }
  apply eq_true_iff_eq. rewrite bool_decide_eq_true, existsb_exists. unfold the_set.
  rewrite elem_of_list_to_set, list_elem_of_fmap. split.
  - intros (a & E & Hin). apply list_elem_of_In, filter_In in Hin as [Hin Hrf]. exists a. split; [done|].
    apply list_elem_of_In in Hin. rewrite Hrf, andb_true_r. by apply Z.eqb_eq, Hiff.
  - intros (a & Hin & [E%Z.eqb_eq Hrf]%andb_true_iff). exists a. apply list_elem_of_In in Hin as Hin'.
    split; [by apply Hiff|]. apply list_elem_of_In, filter_In. done.
Qed.

Lemma set_is_args args w bs o :
  q_NOPS q = zlength args → 2 ≤ q_NOPS q → row_ok W (q_DataType q) w bs →
  Forall (fun a => ∃ bs', arg_ok W (q_DataType q) a bs') args →
  Forall (fun a => not_in_set (q_BOP q) a = false) args →
  (q_BOP q = BOP_AND →
     Exists (fun a => isNullVal W (q_DataType q) (wrap_u (8 * W) (arg_val (q_DataType q) a)) = false) args) →
  do_row regexec W q block (UNORDERED_SET (the_set args)) w o = do_row regexec W q block (TWO_ARRAYS args) w o.
Proof.
  intros Hn H2 Hw Ha Hs Hex. cbn [do_row]. rewrite do_args_selected by done. unfold do_set, selected.
  rewrite (in_the_set _ _ bs) by done.
  rewrite (proj2 (Z.eqb_neq (q_NOPS q) 0)), (proj2 (Z.eqb_neq (q_NOPS q) 1)) by lia.
  destruct (Z.eqb_spec (q_BOP q) BOP_AND) as [Eb|Eb].
  - rewrite Eb. cbn [Z.eqb BOP_AND BOP_OR Z.compare Pos.compare Pos.compare_cont]. rewrite andb_true_r.
    assert (Forall (fun a => a_COP a = COMPARE_NE) args) as Hne.
    { eapply Forall_impl; [exact Hs|]. intros a. unfold not_in_set. rewrite Eb. cbn. destruct (Z.eqb_spec (a_COP a) COMPARE_NE); done. }
    destruct (w_null w) eqn:En.
    + assert (forallb (compare_row regexec W q w) args = false) as ->; [|done].
      apply not_true_iff_false. rewrite forallb_forall. intros Hall.
      destruct (proj1 (Exists_exists _ _) (Hex Eb)) as (a & Hin%list_elem_of_In & Hnn).
      specialize (Hall a Hin). rewrite compare_null_row in Hall; done.
    + assert (forallb (compare_row regexec W q w) args =
              negb (existsb (fun a => (w_val w =? arg_val (q_DataType q) a) && (a_rf a =? 0)) args)) as ->.
      { clear -Hf HW Hw Ha Hne En. induction args as [|a args IH]; [done|]. cbn [forallb existsb].
        inversion Ha as [|? ? [bs' Ha1] Ha2]; inversion Hne; subst. rewrite IH by done.
        rewrite (compare_NE _ _ _ HW Hf w bs a bs') by done. by rewrite negb_orb, negb_andb. }
      by destruct (existsb _ _).
  - rewrite andb_false_r. destruct (Z.eqb_spec (q_BOP q) BOP_OR) as [Eo|Eo]; [|done].
    assert (existsb (compare_row regexec W q w) args =
            existsb (fun a => (w_val w =? arg_val (q_DataType q) a) && (a_rf a =? 0)) args) as ->; [|done].
    clear Hn Hex. induction args as [|a args IH]; [done|]. cbn [existsb].
    inversion Ha as [|? ? [bs' Ha1] Ha2]; inversion Hs as [|? ? Hs1 Hs2]; subst. rewrite IH by done.
    rewrite (compare_EQ _ _ _ HW Hf w bs a bs'); [done..|]. unfold not_in_set in Hs1. rewrite Eo in Hs1. cbn in Hs1.
    by destruct (Z.eqb_spec (a_COP a) COMPARE_EQ).
Qed.
End SetMode.

Section Congruence.
Context (regexec : list Z → list Z → bool) (W : Z) (q : NewColRequestHeader) (block : list Z).
Context (HW : width W) (Hb : Forall is_byte block).

Lemma next_row_bytes scan OT todo rid bs todo' :
  next_row W (q_DataType q) block scan OT todo = Ret (Some (rid, bs, todo')) → col_bytes W bs.
Proof.
  induction todo as [|r todo IH]; cbn; [done|]. intros H. apply outcome_bind_inv in H as (bs' & Hm & H).
  destruct (_ && _) in H; [auto|]. injection H as -> -> ->. destruct (mem_at_bytes _ _ _ _ Hb Hm) as [H1 H2].
  split; [done|]. unfold zlength, width in *. lia.
Qed.

Lemma next_row_ok scan todo w todo' : next W q block scan todo = Ret (Some (w, todo')) → ∃ bs, row_ok W (q_DataType q) w bs.
Proof.
  unfold next, nextColValue, nextUnsignedColValue, nextValue, row_ok, decode. intros H.
  destruct (isUnsigned _); apply outcome_bind_inv in H as ([[[rid bs] todo1]|] & Hr & [= <- <-]);
    exists bs; (split; [by eapply next_row_bytes|done]).
Qed.

Lemma col_loop_ext f1 f2 fuel scan todo o :
  (∀ w bs o, row_ok W (q_DataType q) w bs → do_row regexec W q block f1 w o = do_row regexec W q block f2 w o) →
  col_loop regexec W q block fuel scan f1 todo o = col_loop regexec W q block fuel scan f2 todo o.
Proof.
  intros Hf. revert todo o. induction fuel as [|fuel IH]; intros todo o; [done|]. cbn [col_loop].
  destruct (next W q block scan todo) as [[[w todo']|]|] eqn:E; [|done..]. cbn [mbind outcome_bind].
  destruct (next_row_ok _ _ _ _ E) as [bs Hw]. rewrite (Hf w bs o Hw).
  destruct (do_row _ _ _ _ f2 w o); [|done]. apply IH.
Qed.
End Congruence.

Lemma mem_at_app n mem rest off bs : mem_at n mem off = Ret bs → mem_at n (mem ++ rest) off = Ret bs.
Proof.
  unfold mem_at. intros H. destruct (0 <=? off); [|done]. cbn [andb] in *.
  destruct (bool_decide (length (take n (drop (Z.to_nat off) mem)) = n)) eqn:Hl; [|done]. apply bool_decide_eq_true_1 in Hl.
  injection H as Hbs. rewrite length_take, length_drop in Hl.
  destruct (decide (n = 0%nat)) as [->|Hn]; [by subst|].
  assert (take n (drop (Z.to_nat off) (mem ++ rest)) = bs) as ->.
  { rewrite drop_app_le, take_app_le by (rewrite ?length_drop; lia). done. }
  rewrite bool_decide_eq_true_2; [done|]. rewrite <- Hbs, length_take, length_drop. lia.
Qed.

(** Two filters that differ in their regular expression only. *)
Definition same_but_regex (a b : ColArg) : Prop := a_COP a = a_COP b ∧ a_rf a = a_rf b ∧ a_val a = a_val b.

(** Parsing the filters again, from the message. *)
Lemma parse_again W type filter rest is' args :
  parse_loop true W type filter is' = Ret args →
  ∃ args', parse_loop (negb (isUnsigned type)) W type (filter ++ rest) is' = Ret args' ∧
    if isUnsigned type then Forall2 same_but_regex args args' else args' = args.
Proof.
  revert args. induction is' as [|i is' IH]; intros args H; cbn in H.
  { injection H as <-. exists []. by destruct (isUnsigned type). }
  apply outcome_bind_inv in H as (a & Ha & H). apply outcome_bind_inv in H as (l & Hl & [= <-]).
  destruct (IH l Hl) as (l' & El' & Hl'). cbn [parse_loop]. rewrite El'.
  unfold parse_arg in *. apply outcome_bind_inv in Ha as ([[cop rf] v] & Hat & Ha).
  assert (arg_at W (filter ++ rest) i = Ret (cop, rf, v)) as ->.
  { unfold arg_at in *. apply outcome_bind_inv in Hat as (bs & Hm & Hat). by rewrite (mem_at_app _ _ rest _ _ Hm). }
  cbn [mbind outcome_bind] in *. apply outcome_bind_inv in Ha as (rx & Hx & [= <-]).
  destruct (isUnsigned type); cbn [negb andb].
  - eexists. split; [done|]. by constructor.
  - cbn [andb] in Hx. rewrite Hx. cbn. eexists. split; [done|]. by subst.
Qed.

Lemma unsigned_ignores_regex regexec W q w a b :
  isUnsigned (q_DataType q) = true → same_but_regex a b → compare_row regexec W q w a = compare_row regexec W q w b.
Proof. intros Hu (H1 & H2 & H3). unfold compare_row. by rewrite Hu, H1, H2, H3. Qed.

Lemma args_same regexec W q block w o args args' :
  isUnsigned (q_DataType q) = true → q_NOPS q = zlength args → Forall2 same_but_regex args args' →
  do_row regexec W q block (TWO_ARRAYS args) w o = do_row regexec W q block (TWO_ARRAYS args') w o.
Proof.
  intros Hu Hn H. cbn. rewrite !do_args_selected; [|rewrite Hn; unfold zlength; by rewrite (Forall2_length _ _ _ H)|done].
  assert (forallb (compare_row regexec W q w) args = forallb (compare_row regexec W q w) args' ∧
          existsb (compare_row regexec W q w) args = existsb (compare_row regexec W q w) args') as [E1 E2].
  { clear Hn. induction H as [|a b l l' Hab Hl [IH1 IH2]]; [done|]. cbn.
    by rewrite (unsigned_ignores_regex _ _ _ _ _ _ Hu Hab), IH1, IH2. }
  unfold selected. by rewrite E1, E2.
Qed.

(** What [parseColumnFilter] returns for one filter or more. *)
Lemma parse_filter_args W type filter n BOP pf :
  width W → Forall is_byte filter → 0 < n → parseColumnFilter filter W type n BOP = Ret pf →
  ∃ args, parse_loop true W type filter (zseq 0 n) = Ret args ∧ zlength args = n ∧
    Forall2 (fun i a => arg_ok W type a (constant W filter i) ∧ is_byte (a_COP a) ∧ is_byte (a_rf a)) (zseq 0 n) args ∧
    (pf = Some (TWO_ARRAYS args) ∨
     2 ≤ n ∧ Forall (fun a => not_in_set BOP a = false) args ∧ pf = Some (UNORDERED_SET (the_set args))).
Proof.
  intros HW Hb Hn H. unfold parseColumnFilter in H. rewrite (proj2 (Z.eqb_neq n 0)) in H by lia.
  apply outcome_bind_inv in H as (args & Hp & [= <-]).
  pose proof (parse_loop_args W type filter HW Hb true _ _ (Forall_zseq n) Hp) as H2. exists args. split; [done|].
  split; [apply Forall2_length in H2; rewrite length_zseq in H2; unfold zlength; lia|]. split; [done|].
  destruct (Z.eqb_spec n 1); cbn [negb andb]; [by left|].
  destruct (forallb _ args) eqn:E; [|by left]. right. split; [lia|]. split; [|done].
  apply Forall_forall. intros a Ha%list_elem_of_In. rewrite forallb_forall in E. specialize (E a Ha).
  by destruct (not_in_set BOP a).
Qed.

Lemma constant_args W type filter n args i :
  width W →
  Forall2 (fun i a => arg_ok W type a (constant W filter i) ∧ is_byte (a_COP a) ∧ is_byte (a_rf a)) (zseq 0 n) args →
  0 ≤ i < n → null_constant W type filter i = false →
  Exists (fun a => isNullVal W type (wrap_u (8 * W) (arg_val type a)) = false) args.
Proof.
  intros HW H2 Hi Hc. assert (i ∈ zseq 0 n) as [k Hk]%list_elem_of_lookup by (apply zseq_elem; lia).
  destruct (Forall2_lookup_l _ _ _ _ _ H2 Hk) as (a & Ha & Hok & _). apply Exists_exists. exists a.
  split; [by eapply list_elem_of_lookup_2|]. rewrite (arg_val_decode W type HW a _ Hok), (decode_low W type HW) by apply Hok.
  done.
Qed.

(** ** The order of the values of a column *)

(** The columns for which elimination is sound: those with ranges, apart from the
    strings of one byte. *)
Definition cp_column (ct : ColType) : bool :=
  bool_decide (width (colWidth ct)) && CasualPartitionDataType (colDataType ct) (colWidth ct) &&
  negb (isCharType (colDataType ct) && (colWidth ct =? 1)).

Definition cp_ord (ct : ColType) (v : Z) : Z :=
  if isCharType (colDataType ct) then order_swap v else if isUnsigned (colDataType ct) then u64 v else v.

Definition within (ct : ColType) (mn mx v : Z) : Prop := cp_ord ct mn ≤ cp_ord ct v ≤ cp_ord ct mx.

Lemma cp_column_spec ct :
  cp_column ct = true →
  width (colWidth ct) ∧ not_float (colDataType ct) ∧ (isCharType (colDataType ct) = true → 1 < colWidth ct).
Proof.
  unfold cp_column. intros [[HW%bool_decide_eq_true Hc]%andb_true_iff Hn]%andb_true_iff. split; [done|]. split.
  - split; intros E; rewrite E in Hc; done.
  - intros Hch. rewrite Hch in Hn. unfold width in HW. destruct (Z.eqb_spec (colWidth ct) 1); [done|lia].
Qed.

Section Exclude.
Context (ct : ColType) (Hct : cp_column ct = true).
Let W := colWidth ct.
Let type := colDataType ct.

Lemma cp_scan_ord mn mx v op lcf :
  cp_scan ct mn mx v op lcf = compareVal (cp_ord ct mn) (cp_ord ct mx) (cp_ord ct v) op lcf.
Proof.
  destruct (cp_column_spec ct Hct) as (_ & _ & Hc). unfold cp_scan, cp_ord.
  destruct (isCharType (colDataType ct)); cbn [andb]; [|by destruct (isUnsigned _)].
  by rewrite (proj2 (Z.ltb_lt 1 _)) by auto.
Qed.

(** The strict comparisons are with a constant that was not rounded. *)
Definition exact (cop rf : Z) : bool := negb ((cop =? COMPARE_LT) || (cop =? COMPARE_GT)) || (rf =? 0).

(** A constant that is not NULL, for either of the two tests. *)
Definition plain_arg (a : ColArg) : bool :=
  bool_decide (isNull (a_val a) ct = Ret false) && negb (isNullVal W type (wrap_u (8 * W) (arg_val type a))) &&
  exact (a_COP a) (a_rf a).

(** The filters that eliminate an extent, and why. *)
Lemma compareVal_false mn mx v op lcf :
  compareVal mn mx v op lcf = false →
  (op = COMPARE_LT ∧ v ≤ mn) ∨ (op = COMPARE_LE ∧ v < mn) ∨ (op = COMPARE_GT ∧ mx ≤ v) ∨ (op = COMPARE_GE ∧ mx < v) ∨
  (op = COMPARE_EQ ∧ (v < mn ∨ mx < v ∨ 0 < lcf)) ∨ (op = COMPARE_NE ∧ v = mn ∧ v = mx ∧ lcf = 0) ∨
  op = COMPARE_NGE ∨ op = COMPARE_NGT ∨ op = COMPARE_NLE ∨ op = COMPARE_NLT.
Proof.
  unfold compareVal. intros H.
  destruct ((op =? COMPARE_LT) || (op =? COMPARE_NGE)) eqn:E1; [apply orb_true_iff in E1 as [E|E]; zbool; tauto|].
  destruct ((op =? COMPARE_LE) || (op =? COMPARE_NGT)) eqn:E2; [apply orb_true_iff in E2 as [E|E]; zbool; tauto|].
  destruct ((op =? COMPARE_GT) || (op =? COMPARE_NLE)) eqn:E3; [apply orb_true_iff in E3 as [E|E]; zbool; tauto|].
  destruct ((op =? COMPARE_GE) || (op =? COMPARE_NLT)) eqn:E4; [apply orb_true_iff in E4 as [E|E]; zbool; tauto|].
  destruct (op =? COMPARE_EQ) eqn:E5.
  { zbool. rewrite !orb_true_iff, !Z.ltb_lt in H. tauto. }
  destruct (op =? COMPARE_NE) eqn:E6; [zbool; tauto|done].
Qed.

Lemma exclude_rf mn mx v k cop rf :
  exact cop rf = true → mn ≤ k ≤ mx → compareVal mn mx v cop rf = false → colCompare_rf k v cop rf = false.
Proof.
  intros He Hk Hc%compareVal_false. unfold exact in He.
  destruct Hc as [[-> H]|[[-> H]|[[-> H]|[[-> H]|[[-> H]|[[-> H]|[->|[->|[->| ->]]]]]]]]]; cbn in *; try done.
  all: try (rewrite (proj1 (Z.eqb_eq _ _) He); cbn; rewrite andb_false_r, orb_false_r).
  all: try (apply orb_false_iff; split; [|apply andb_false_iff; left]).
  all: try apply Z.ltb_ge; try apply Z.eqb_neq; try lia.
Qed.

Lemma exclude_str regexec regex mn mx v k cop rf :
  exact cop rf = true → mn ≤ k ≤ mx → compareVal mn mx v cop rf = false →
  colStrCompare_ regexec k v cop rf regex = false.
Proof.
  intros He Hk Hc%compareVal_false. unfold exact in He.
  destruct Hc as [[-> H]|[[-> H]|[[-> H]|[[-> H]|[[-> H]|[[-> H]|[->|[->|[->| ->]]]]]]]]]; cbn in *; try done.
  all: try (rewrite (proj1 (Z.eqb_eq _ _) He); cbn; rewrite andb_false_r, orb_false_r).
  all: try (apply orb_false_iff; split; [|apply andb_false_iff; left]).
  all: try apply Z.ltb_ge; try apply Z.leb_gt; try apply Z.eqb_neq; try lia.
Qed.

Lemma exclude_plain mn mx v k cop :
  mn ≤ k ≤ mx → compareVal mn mx v cop 0 = false → colCompare_ Z.ltb Z.eqb k v cop = false.
Proof.
  intros Hk Hc%compareVal_false.
  destruct Hc as [[-> H]|[[-> H]|[[-> H]|[[-> H]|[[-> H]|[[-> H]|[->|[->|[->| ->]]]]]]]]]; cbn in *; try done.
  all: try (apply orb_false_iff; split).
  all: try apply Z.ltb_ge; try apply Z.leb_gt; try apply negb_false_iff, Z.eqb_eq; try apply Z.eqb_neq; try lia.
Qed.

(** A filter whose range test fails selects no row of the range. *)
Lemma row_excluded regexec q w bs a bs' mn mx :
  q_DataType q = type → row_ok W type w bs → arg_ok W type a bs' → plain_arg a = true → is_byte (a_COP a) →
  (w_null w = false → within ct mn mx (w_val w)) →
  cp_scan ct mn mx (a_val a) (wrap_s 8 (a_COP a)) (a_rf a) = false → compare_row regexec W q w a = false.
Proof.
  intros Hq Hw Ha [[_ Hn%negb_true_iff]%andb_true_iff He]%andb_true_iff Hby Hin Hc.
  destruct (cp_column_spec ct Hct) as (HW & [Hf1 Hf2] & Hch). rewrite cp_scan_ord in Hc.
  destruct (w_null w) eqn:En; [apply compare_null_row; [done|by rewrite Hq]|]. specialize (Hin eq_refl).
  assert (wrap_s 8 (a_COP a) = a_COP a) as Hop.
  { assert (0 ≤ wrap_s 8 (a_COP a)) as Hp.
    { apply compareVal_false in Hc. destruct Hc as [[-> _]|[[-> _]|[[-> _]|[[-> _]|[[-> _]|[[-> _]|[->|[->|[->| ->]]]]]]]]]; done. }
    unfold wrap_s, is_byte in *. rewrite (Z.mod_small (a_COP a) (2 ^ 8)) in * by lia. destruct (_ <? _); lia. }
  rewrite Hop in Hc. clear Hop. unfold within, cp_ord in Hin, Hc. fold type in Hin, Hc.
  unfold compare_row, colCompareUnsigned, colCompare. rewrite Hq, En. fold W. unfold arg_val in Hn.
  destruct (a_COP a =? COMPARE_NIL); [by destruct (isUnsigned type)|].
  rewrite !bool_decide_eq_false_2, !andb_false_r, !andb_true_r by done.
  destruct (isUnsigned type) eqn:Eu.
  - rewrite Hn. cbn. assert (isCharType type = false) as Ech by (by destruct type). rewrite Ech in *.
    eapply exclude_rf; [done| |exact Hc].
    assert (u64 (w_val w) = w_val w) as <-; [|done]. apply wrap_u_small.
    pose proof (decode_range W type HW bs (proj1 Hw)) as Hr. rewrite Eu in Hr. by rewrite (proj1 (proj2 Hw)).
  - destruct (isCharType type) eqn:Ech.
    + destruct (negb (rx_used (a_regex a)) && negb (nonzero (a_rf a))) eqn:Er.
      * apply andb_true_iff in Er as [_ Er]. rewrite negb_involutive in Er. apply Z.eqb_eq in Er. rewrite Er in Hc.
        by eapply exclude_plain.
      * by eapply exclude_str.
    + rewrite Hn. cbn. by eapply exclude_rf.
Qed.
End Exclude.

(** ** The predicate on the filters of a column *)

Section Predicate.
Context (ct : ColType) (Hct : cp_column ct = true) (filter : list Z) (Hb : Forall is_byte filter).
Let W := colWidth ct.
Let type := colDataType ct.

(** The result of [CasualPartitionPredicate] on parsed filters. *)
Fixpoint cp_args (mn mx BOP : Z) (args : list ColArg) (scan : bool) : bool :=
  match args with
  | [] => scan
  | a :: args' =>
      let scan := cp_scan ct mn mx (a_val a) (wrap_s 8 (a_COP a)) (a_rf a) in
      if (BOP =? BOP_AND) && negb scan then scan
      else if (BOP =? BOP_OR) && scan then scan
      else cp_args mn mx BOP args' scan
  end.

Lemma mem_at_split n mem off b bs :
  0 ≤ off → mem_at (S n) mem off = Ret (b :: bs) → mem_at 1 mem off = Ret [b] ∧ mem_at n mem (off + 1) = Ret bs.
Proof.
  intros Ho [H Hl]%mem_at_inv. cbn in Hl. assert (length bs = n) as Hl' by lia.
  destruct (drop (Z.to_nat off) mem) as [|b' tl] eqn:E; [done|]. cbn in H. injection H as <- Hbs.
  assert (drop (Z.to_nat (off + 1)) mem = tl) as E'.
  { replace (Z.to_nat (off + 1)) with (Z.to_nat off + 1)%nat by lia. by rewrite <- drop_drop, E. }
  unfold mem_at. rewrite (proj2 (Z.leb_le 0 off)), (proj2 (Z.leb_le 0 (off + 1))) by lia. rewrite E, E', <- Hbs. cbn [andb].
  split; [done|]. by rewrite bool_decide_eq_true_2.
Qed.

(** The fields of a filter where the loop of the predicate reads them. *)
Lemma arg_at_fields i cop rf v :
  0 ≤ i → arg_at W filter i = Ret (cop, rf, v) →
  i * (W + 2) + W + 2 ≤ zlength filter ∧ mem_at 1 filter (i * (W + 2)) = Ret [cop] ∧
  mem_at 1 filter (i * (W + 2) + 1) = Ret [rf] ∧ mem_at (Z.to_nat W) filter (i * (W + 2) + 2) = Ret v.
Proof.
  intros Hi H. destruct (cp_column_spec ct Hct) as (HW & _). pose proof (width_pow _ HW) as [HW8 _]. fold W in HW8.
  unfold arg_at in H. apply outcome_bind_inv in H as (bs & Hm & H).
  destruct bs as [|c [|r v']]; [done..|]. injection H as -> -> ->.
  assert (i * (W + 2) + W + 2 ≤ zlength filter) as Hl.
  { apply mem_at_inv in Hm as [Hm Hl]. rewrite Hm, length_take, length_drop in Hl. unfold zlength. lia. }
  replace (Z.to_nat (W + 2)) with (S (S (Z.to_nat W))) in Hm by lia.
  assert (0 ≤ i * (W + 2)) as Ho by nia. assert (0 ≤ i * (W + 2) + 1) as Ho' by lia.
  destruct (mem_at_split _ _ _ _ _ Ho Hm) as [H1 Hm2]. destruct (mem_at_split _ _ _ _ _ Ho' Hm2) as [H2 H3].
  replace (i * (W + 2) + 2) with (i * (W + 2) + 1 + 1) by lia. done.
Qed.

Lemma cp_loop_args mn mx BOP n i args value scan :
  0 ≤ i → parse_loop true W type filter (zseq i (Z.of_nat n)) = Ret args →
  forallb (plain_arg ct) args = true →
  cp_loop ct mn mx BOP filter n (i * (W + 2)) (i * (W + 2)) value scan = Ret (cp_args mn mx BOP args scan).
Proof.
  destruct (cp_column_spec ct Hct) as (HW & _). revert i args value scan.
  induction n as [|n IH]; intros i args value scan Hi Hp Hpl; [by injection Hp as <-|].
  rewrite Nat2Z.inj_succ, <- Z.add_1_r, zseq_cons in Hp by lia. cbn [parse_loop] in Hp.
  apply outcome_bind_inv in Hp as (a & Ha & Hp). apply outcome_bind_inv in Hp as (l & Hl & [= <-]).
  cbn in Hpl. apply andb_true_iff in Hpl as [Hpa Hpl]. unfold plain_arg in Hpa.
  apply andb_true_iff in Hpa as [[Hnull%bool_decide_eq_true _]%andb_true_iff _].
  unfold parse_arg in Ha. apply outcome_bind_inv in Ha as ([[cop rf] v] & Hat & Ha).
  destruct (arg_at_fields _ _ _ _ Hi Hat) as (Hlen & H1 & H2 & H3).
  apply outcome_bind_inv in Ha as (rx & _ & [= <-]). cbn [cp_loop cp_args a_val a_COP a_rf] in *. fold W.
  rewrite (proj2 (Z.ltb_ge (zlength filter) _)) by lia. rewrite H1, H2. cbn [mbind outcome_bind].
  unfold cp_value. fold W. rewrite bool_decide_eq_true_2 by (unfold width in HW; fold W in HW; set_solver).
  rewrite H3. cbn [mbind outcome_bind]. fold type. rewrite Hnull. cbn [mbind outcome_bind].
  replace (le_value [cop]) with cop by (cbn; lia). replace (le_value [rf]) with rf by (cbn; lia).
  destruct (_ && negb _); [done|]. destruct (_ && cp_scan _ _ _ _ _ _); [done|].
  replace (i * (W + 2) + W + 2) with ((i + 1) * (W + 2)) by lia.
  replace (i * (W + 2) + 2 + W) with ((i + 1) * (W + 2)) by lia.
  apply IH; [lia|done|done].
Qed.

(** No filter, or not all of them, can be satisfied in the range. *)
Lemma cp_args_false mn mx BOP args scan :
  cp_args mn mx BOP args scan = false → args ≠ [] →
  let out a := cp_scan ct mn mx (a_val a) (wrap_s 8 (a_COP a)) (a_rf a) = false in
  (BOP = BOP_AND → Exists out args) ∧ (BOP = BOP_OR → Forall out args) ∧ (length args = 1%nat → Forall out args).
Proof.
  intros H Hne out. revert scan H. induction args as [|a args IH]; intros scan H; [done|]. cbn in H.
  destruct (cp_scan _ _ _ _ _ _) eqn:E in H; cbn [negb] in H.
  - rewrite andb_false_r, andb_true_r in H. destruct (Z.eqb_spec BOP BOP_OR); [done|].
    destruct args as [|b args]; [done|]. destruct (IH ltac:(done) _ H) as (H1 & H2 & H3).
    split; [intros; apply Exists_cons; auto|]. split; [done|done].
  - rewrite andb_false_r, andb_true_r in H. split; [|split].
    + intros _. apply Exists_cons. by left.
    + intros ->. change (BOP_OR =? BOP_AND) with false in H. cbn iota in H.
      destruct args as [|b args]; [by repeat constructor|]. constructor; [done|].
      destruct (IH ltac:(done) _ H) as (_ & H2 & _). by apply H2.
    + destruct args; [|done]. by repeat constructor.
Qed.
End Predicate.

(** ** The answer of a scan *)

Section Answer.
Context (regexec : list Z → list Z → bool) (q : NewColRequestHeader) (block : list Z).
Context (HW : width (q_DataSize q)).
Let W := q_DataSize q.

(** The bytes a row adds to the answer. *)
Definition row_out (rid : Z) : list Z :=
  (if nonzero (Z.land (q_OutputType q) OT_RID) then le_bytes 2 rid else []) ++
  (if nonzero (Z.land (q_OutputType q) OT_TOKEN) || nonzero (Z.land (q_OutputType q) OT_DATAVALUE)
   then take (Z.to_nat W) (drop (Z.to_nat (rid * W)) block) else []).

Definition stored (rid : Z) (o : NewColResultHeader) : NewColResultHeader :=
  mkRes (o_LBID o)
    (if nonzero (Z.land (q_OutputType q) OT_RID) then Z.lor (o_RidFlags o) (u8 (Z.shiftl 1 (Z.shiftr rid 10))) else o_RidFlags o)
    (u16 (o_NVALS o + 1)) (o_ValidMinMax o) (o_OutputType o) (o_Min o) (o_Max o) (o_data o ++ row_out rid).

Lemma store_stored rid o : row_in_block W block rid → store q block rid o = Ret (stored rid o).
Proof.
  intros Hr. unfold store, stored, row_out.
  assert ((if bool_decide (q_DataSize q ∈ [1; 2; 4]) then q_DataSize q else 8) = W) as HWs.
  { case_bool_decide as E; [done|]. unfold W, width in *. set_solver. }
  rewrite HWs. pose proof (row_bytes_ok W block HW rid Hr) as Hb. unfold row_bytes in Hb. rewrite Hb.
  destruct (nonzero (Z.land (q_OutputType q) OT_RID)); destruct (_ || _); cbn [mbind outcome_bind]; cbn; by rewrite ?app_nil_r, <- ?app_assoc.
Qed.

Definition step_row (sel : ColRow → bool) (o : NewColResultHeader) (w : ColRow) : NewColResultHeader :=
  set_minmax regexec W q w (if sel w then stored (w_rid w) o else o).

Lemma fold_rows_step args rows o :
  q_NOPS q = zlength args → Forall (fun w => row_in_block W block (w_rid w)) rows →
  fold_rows regexec W q block (TWO_ARRAYS args) rows o = Ret (foldl (step_row (selected regexec W q args)) o rows).
Proof.
  intros Hn Hr. revert o. induction Hr as [|w rows Hw Hr IH]; intros o; [done|]. cbn [fold_rows foldl do_row].
  rewrite do_args_selected by done. unfold step_row at 2. destruct (selected _ _ _ _ _).
  - rewrite store_stored by done. apply IH.
  - apply IH.
Qed.

Lemma minmax_keeps w o :
  let o' := set_minmax regexec W q w o in
  o_LBID o' = o_LBID o ∧ o_RidFlags o' = o_RidFlags o ∧ o_NVALS o' = o_NVALS o ∧
  o_ValidMinMax o' = o_ValidMinMax o ∧ o_OutputType o' = o_OutputType o ∧ o_data o' = o_data o.
Proof.
  unfold set_minmax. destruct (_ && _ && _); [|done].
  destruct (isCharType _ && _); [done|]. by destruct (isUnsigned _).
Qed.

(** The rows that are selected, in order. *)
Lemma fold_selected sel rows o :
  let o' := foldl (step_row sel) o rows in
  o_data o' = o_data o ++ (List.filter sel rows ≫= fun w => row_out (w_rid w)) ∧
  (0 ≤ o_NVALS o → o_NVALS o + zlength rows < 2 ^ 16 → o_NVALS o' = o_NVALS o + zlength (List.filter sel rows)) ∧
  o_OutputType o' = o_OutputType o ∧ o_ValidMinMax o' = o_ValidMinMax o.
Proof.
  revert o. induction rows as [|w rows IH]; intros o; cbn [foldl List.filter].
  { cbn. rewrite app_nil_r. unfold zlength. cbn. repeat split; try done. lia. }
  destruct (IH (step_row sel o w)) as (H1 & H2 & H3 & H4). unfold step_row in H1, H2, H3, H4.
  set (o1 := if sel w then stored (w_rid w) o else o) in *.
  destruct (minmax_keeps w o1) as (_ & _ & K1 & K2 & K3 & K4). rewrite K1 in H2. rewrite K2 in H4. rewrite K3 in H3. rewrite K4 in H1.
  unfold step_row. rewrite zlength_cons. pose proof (zlength_nonneg rows). unfold o1 in *. destruct (sel w).
  - cbn [mbind list_bind]. rewrite H1. cbn [stored o_data]. split; [by rewrite <- app_assoc|]. split; [|done].
    cbn in H2. intros Hp Hs. assert (u16 (o_NVALS o + 1) = o_NVALS o + 1) as E by (apply wrap_u_small; lia).
    rewrite E in H2. rewrite zlength_cons, H2 by lia. lia.
  - split; [done|]. split; [|done]. intros Hp Hs. apply H2; lia.
Qed.
End Answer.

Section Bounds.
Context (regexec : list Z → list Z → bool) (ct : ColType) (Hct : cp_column ct = true).
Context (q : NewColRequestHeader) (block : list Z).
Context (Hq1 : q_DataType q = colDataType ct) (Hq2 : q_DataSize q = colWidth ct).

Lemma minmax_step w bs o :
  row_ok (colWidth ct) (colDataType ct) w bs → o_ValidMinMax o = true →
  let o' := set_minmax regexec (q_DataSize q) q w o in
  cp_ord ct (o_Min o') ≤ cp_ord ct (o_Min o) ∧ cp_ord ct (o_Max o) ≤ cp_ord ct (o_Max o') ∧
  (w_null w = false → w_empty w = false → within ct (o_Min o') (o_Max o') (w_val w)).
Proof.
  intros Hw Hv. destruct (cp_column_spec ct Hct) as (HW & [Hf1 Hf2] & Hch). unfold set_minmax. rewrite Hv, Hq1, Hq2.
  destruct (w_null w) eqn:En; cbn [negb andb]; [split; [lia|split; [lia|done]]|].
  destruct (w_empty w) eqn:Ee; cbn [negb andb]; [split; [lia|split; [lia|done]]|]. unfold within, cp_ord.
  destruct (isCharType (colDataType ct)) eqn:Ec.
  - rewrite (proj2 (Z.ltb_lt 1 _)) by auto. cbn [andb]. unfold colCompare. cbn [COMPARE_GT COMPARE_LT COMPARE_NIL Z.eqb].
    rewrite !bool_decide_eq_false_2 by done. rewrite Ec. cbn.
    destruct (Z.ltb_spec (order_swap (w_val w)) (order_swap (o_Min o))), (Z.ltb_spec (order_swap (o_Max o)) (order_swap (w_val w))); lia.
  - cbn [andb]. destruct (isUnsigned (colDataType ct)) eqn:Eu.
    + pose proof (decode_range _ (colDataType ct) HW bs (proj1 Hw)) as Hr. rewrite Eu, <- (proj1 (proj2 Hw)) in Hr.
      assert (u64 (w_val w) = w_val w) as E1 by (by apply wrap_u_small).
      assert (u64 (i64 (w_val w)) = w_val w) as E2 by (rewrite wrap_u_s by lia; done).
      destruct (Z.ltb_spec (w_val w) (u64 (o_Min o))), (Z.ltb_spec (u64 (o_Max o)) (w_val w)); cbn [o_Min o_Max]; rewrite ?E1, ?E2; lia.
    + destruct (Z.ltb_spec (w_val w) (o_Min o)), (Z.ltb_spec (o_Max o) (w_val w)); cbn [o_Min o_Max]; lia.
Qed.

(** Storing a row leaves the range alone. *)
Definition same_range (o o' : NewColResultHeader) : Prop :=
  o_ValidMinMax o' = o_ValidMinMax o ∧ o_Min o' = o_Min o ∧ o_Max o' = o_Max o.

Lemma store_range rid o o' : store q block rid o = Ret o' → same_range o o'.
Proof.
  unfold store. intros H. apply outcome_bind_inv in H as (bs & _ & [= <-]). by destruct (nonzero (Z.land _ OT_RID)).
Qed.

Lemma do_row_range f w o o' : do_row regexec (q_DataSize q) q block f w o = Ret o' → same_range o o'.
Proof.
  assert (∀ o1, Ret o1 = Ret o' → same_range o1 o') as Hr by (by intros ? [= ->]).
  destruct f as [args|set]; cbn [do_row].
  - unfold do_args. intros H. apply outcome_bind_inv in H as ([b i] & _ & H). apply outcome_bind_inv in H as (o1 & H1 & H2).
    assert (same_range o o1) as K1. { destruct b; [by eapply store_range|]. by injection H1 as <-. }
    assert (same_range o1 o') as K2. { destruct (_ || _); [by eapply store_range|]. by apply Hr. }
    unfold same_range in *. intuition congruence.
  - unfold do_set. repeat case_match; eauto using store_range.
Qed.

Lemma fold_rows_bounds f rows o o' :
  Forall (fun w => ∃ bs, row_ok (colWidth ct) (colDataType ct) w bs) rows → o_ValidMinMax o = true →
  fold_rows regexec (q_DataSize q) q block f rows o = Ret o' →
  o_ValidMinMax o' = true ∧ cp_ord ct (o_Min o') ≤ cp_ord ct (o_Min o) ∧ cp_ord ct (o_Max o) ≤ cp_ord ct (o_Max o') ∧
  Forall (fun w => w_null w = false → w_empty w = false → within ct (o_Min o') (o_Max o') (w_val w)) rows.
Proof.
  intros Hr. revert o. induction Hr as [|w rows [bs Hw] Hr IH]; intros o Hv H; cbn [fold_rows] in H.
  { injection H as <-. split; [done|]. split; [lia|]. split; [lia|done]. }
  apply outcome_bind_inv in H as (o1 & H1 & H). apply do_row_range in H1 as (Hv1 & Hm1 & Hm2). rewrite Hv in Hv1.
  destruct (minmax_step w bs o1 Hw Hv1) as (S1 & S2 & S3). rewrite Hm1 in S1. rewrite Hm2 in S2.
  destruct (IH _ (eq_trans (proj1 (proj2 (proj2 (proj2 (minmax_keeps regexec q w o1))))) Hv1) H) as (I0 & I1 & I2 & I3).
  split; [done|]. split; [lia|]. split; [lia|]. constructor; [|done]. intros Hn He. specialize (S3 Hn He). unfold within in *. lia.
Qed.
End Bounds.

(** ** Scans of a whole block *)

Definition items (logical : bool) (q : NewColRequestHeader) : Z :=
  if logical then DATA_BLOCK_SIZE else DATA_BLOCK_SIZE / q_DataSize q.

(** A block with all its bytes. *)
Definition full_block (logical : bool) (q : NewColRequestHeader) (block : list Z) : Prop :=
  Forall is_byte block ∧ items logical q * q_DataSize q ≤ zlength block.

(** The header when the scan starts. *)
Definition scan_start (q : NewColRequestHeader) : NewColResultHeader :=
  let '(mx, mn) := if isMinMaxValid q then no_values (q_DataType q) else (0, 0) in
  mkRes (q_LBID q) 0 0 (isMinMaxValid q) (q_OutputType q) mn mx [].

Section Scan.
Context (regexec : list Z → list Z → bool) (logical : bool) (q : NewColRequestHeader) (block : list Z).
Context (HW : width (q_DataSize q)) (Hscan : q_NVALS q = 0) (Hfull : full_block logical q block).
Let W := q_DataSize q.

Lemma rids_in_block : Forall (row_in_block W block) (zseq 0 (items logical q)).
Proof.
  destruct Hfull as [_ Hl]. pose proof (width_pow _ HW) as [HW8 _]. apply Forall_forall. intros rid Hr%zseq_elem.
  unfold row_in_block, W. nia.
Qed.

Lemma p_Col_scan f : p_Col regexec logical block (Some f) q =
  fold_rows regexec W q block f (visited_rows W q block true (zseq 0 (items logical q))) (scan_start q).
Proof.
  unfold p_Col. rewrite bool_decide_eq_true_2 by (unfold width in HW; set_solver). unfold p_Col_ridArray, scan_start.
  rewrite Hscan. cbn [Z.ltb Z.compare negb]. cbn [mbind outcome_bind andb].
  rewrite <- (col_loop_rows regexec W q block HW f true _ (S (length (zseq 0 (items logical q)))))
    by first [apply rids_in_block | lia].
  unfold no_values. destruct (isMinMaxValid q); [|done]. by destruct (isUnsigned _).
Qed.

Lemma p_Col_none_scan : ∀ o, p_Col regexec logical block None q = Ret o → ∃ f, p_Col regexec logical block (Some f) q = Ret o.
Proof.
  intros o. unfold p_Col. destruct (bool_decide _); [|done]. unfold p_Col_ridArray.
  destruct (if negb (0 <? q_NVALS q) then _ else _) as [rids|]; [|done]. cbn [mbind outcome_bind].
  destruct (if isMinMaxValid q then _ else _) as [mn mx]. destruct (parse_loop _ _ _ _ _) as [args|] eqn:E; [|done].
  cbn [mbind outcome_bind]. intros H. by exists (TWO_ARRAYS args).
Qed.

Lemma row_at_ok rid :
  row_in_block W block rid →
  row_ok W (q_DataType q) (row_at W (q_DataType q) block rid) (take (Z.to_nat W) (drop (Z.to_nat (rid * W)) block)).
Proof.
  intros [H1 H2]. destruct Hfull as [Hb _]. pose proof (width_pow _ HW) as [HW8 _]. fold W in HW8.
  split; [|done]. split; [by apply Forall_take, Forall_drop|].
  unfold zlength in *. rewrite length_take, length_drop. nia.
Qed.

Lemma visited_row w :
  w ∈ visited_rows W q block true (zseq 0 (items logical q)) →
  row_in_block W block (w_rid w) ∧ (∃ rid, 0 ≤ rid < items logical q ∧ w = row_at W (q_DataType q) block rid) ∧
  (∃ bs, row_ok W (q_DataType q) w bs) ∧ (nonzero (Z.land (q_OutputType q) OT_RID) = true → w_empty w = false).
Proof.
  intros Hin. unfold visited_rows in Hin. apply list_elem_of_In, filter_In in Hin as [Hin Hv].
  apply list_elem_of_In, list_elem_of_fmap in Hin as (rid & -> & Hrid).
  pose proof (proj1 (Forall_forall _ _) rids_in_block rid Hrid) as Hb. split; [done|].
  split; [exists rid; apply zseq_elem in Hrid; split; [lia|done]|]. split; [eexists; by apply row_at_ok|].
  intros Ho. unfold visited in Hv. rewrite Ho in Hv. cbn [negb orb] in Hv. rewrite andb_true_r in Hv. by apply negb_true_iff in Hv.
Qed.
End Scan.

(** ** The order of strings is that of their bytes *)

(** The bytes of a string as one number, the first byte first. *)
Definition be_value (bs : list Z) : Z := le_value (rev bs).

Lemma le_value_cons_bit b l n :
  is_byte b → 0 ≤ n → Z.testbit (le_value (b :: l)) n = if n <? 8 then Z.testbit b n else Z.testbit (le_value l) (n - 8).
Proof.
  intros Hb Hn. cbn [le_value]. unfold is_byte in Hb. destruct (Z.ltb_spec n 8).
  - rewrite <- (Z.mod_pow2_bits_low (b + 256 * le_value l) 8), <- (Z.mod_pow2_bits_low b 8) by lia. f_equal.
    change (2 ^ 8) with 256. rewrite (Z.mul_comm 256), Z.mod_add by lia. done.
  - replace n with ((n - 8) + 8) at 1 by lia. rewrite <- Z.div_pow2_bits by lia. f_equal. change (2 ^ 8) with 256.
    rewrite (Z.mul_comm 256), Z.div_add, Z.div_small by lia. lia.
Qed.

Lemma le_value_bit l n :
  Forall is_byte l → 0 ≤ n → Z.testbit (le_value l) n = Z.testbit (nth (Z.to_nat (n / 8)) l 0) (n mod 8).
Proof.
  intros Hl. revert n. induction Hl as [|b l Hb Hl IH]; intros n Hn.
  { cbn [le_value]. rewrite Z.testbit_0_l. destruct (Z.to_nat (n / 8)); cbn; by rewrite Z.testbit_0_l. }
  rewrite le_value_cons_bit by done. destruct (Z.ltb_spec n 8).
  - rewrite Z.div_small, Z.mod_small by lia. done.
  - rewrite IH by lia. replace n with ((n - 8) + 1 * 8) at 3 4 by lia. rewrite Z.div_add, Z.mod_add by lia.
    assert (0 ≤ (n - 8) / 8) by (apply Z.div_pos; lia). replace (Z.to_nat ((n - 8) / 8 + 1)) with (S (Z.to_nat ((n - 8) / 8))) by lia. done.
Qed.

Lemma get_s_bit W bs m : width W → col_bytes W bs → 0 ≤ m < 8 * W → Z.testbit (get_s bs) m = Z.testbit (le_value bs) m.
Proof.
  intros HW Hb Hm. pose proof (value_bound W HW bs Hb) as Hv. destruct Hb as [_ Hl]. unfold get_s. rewrite Hl.
  rewrite <- (Z.mod_pow2_bits_low (wrap_s _ _) (8 * W)) by lia. fold (wrap_u (8 * W) (wrap_s (8 * W) (le_value bs))).
  rewrite wrap_u_s by lia. unfold wrap_u. by rewrite Z.mod_small.
Qed.

(** The leading bytes of the key of a string are the bytes of the string. *)
Lemma order_swap_bytes W bs : width W → col_bytes W bs → order_swap (get_s bs) / 2 ^ (64 - 8 * W) = be_value bs.
Proof.
  intros HW Hb. pose proof (width_pow W HW) as [HW8 _]. pose proof (order_swap_range (get_s bs)) as Hr. pose proof Hb as [Hby Hl].
  assert (Forall is_byte (rev bs)) as Hrev by (rewrite Forall_forall in *; intros x Hx; apply Hby; by apply list_elem_of_In, in_rev, list_elem_of_In).
  assert (length bs = Z.to_nat W) as Hlen by (unfold zlength in Hl; lia).
  apply Z.bits_inj'. intros n Hn. rewrite Z.div_pow2_bits by lia. unfold be_value. rewrite le_value_bit by done.
  pose proof (Z.mod_pos_bound n 8 ltac:(lia)) as Hmod. pose proof (Z.div_mod n 8 ltac:(lia)) as Hdm. assert (0 ≤ n / 8) by (apply Z.div_pos; lia).
  destruct (Z.lt_ge_cases n (8 * W)) as [Hlt|Hge].
  - rewrite order_swap_bit by lia. assert (n / 8 < W) by (apply Z.div_lt_upper_bound; lia).
    assert (mirror (n + (64 - 8 * W)) = 8 * (W - 1 - n / 8) + n mod 8) as ->.
    { unfold mirror. replace (n + (64 - 8 * W)) with (n + (8 - W) * 8) by lia. rewrite Z.div_add, Z.mod_add by lia. lia. }
    rewrite (get_s_bit W) by (done || lia). rewrite le_value_bit by (done || lia).
    replace (8 * (W - 1 - n / 8) + n mod 8) with (n mod 8 + (W - 1 - n / 8) * 8) by lia.
    rewrite Z.div_add, Z.mod_add, (Z.div_small (n mod 8)), Z.mod_mod by lia. f_equal.
    rewrite rev_nth by (rewrite Hlen; lia). f_equal. rewrite Hlen. lia.
  - rewrite (testbit_above 64) by lia. assert (W ≤ n / 8) by (apply Z.div_le_lower_bound; lia).
    rewrite nth_overflow, Z.testbit_0_l; [done|]. rewrite length_rev, Hlen. lia.
Qed.

Lemma be_value_inj bs bs' : Forall is_byte bs → Forall is_byte bs' → length bs = length bs' → be_value bs = be_value bs' → bs = bs'.
Proof.
  intros H1 H2 Hl E. unfold be_value in E.
  assert (∀ l, Forall is_byte l → Forall is_byte (rev l)) as Hrev by (intros l; rewrite !Forall_forall; intros H x Hx; apply H; by apply list_elem_of_In, in_rev, list_elem_of_In).
  rewrite <- (rev_involutive bs), <- (rev_involutive bs'). f_equal.
  rewrite <- (le_bytes_value (rev bs)), <- (le_bytes_value (rev bs')) by auto. rewrite !length_rev, Hl, E. done.
Qed.

Lemma order_swap_compare W bs bs' :
  width W → col_bytes W bs → col_bytes W bs' →
  (order_swap (get_s bs) <? order_swap (get_s bs')) = (be_value bs <? be_value bs') ∧
  (order_swap (get_s bs) =? order_swap (get_s bs')) = (be_value bs =? be_value bs').
Proof.
  intros HW Hb Hb'. pose proof (order_swap_bytes W bs HW Hb) as E. pose proof (order_swap_bytes W bs' HW Hb') as E'.
  pose proof (width_pow W HW) as [HW8 _]. pose proof (Z.pow_pos_nonneg 2 (64 - 8 * W) ltac:(lia) ltac:(lia)) as Hp.
  assert (∀ x y, x / 2 ^ (64 - 8 * W) < y / 2 ^ (64 - 8 * W) → x < y) as Hmono.
  { intros x y H. destruct (Z.lt_ge_cases x y); [done|]. pose proof (Z.div_le_mono y x _ Hp ltac:(lia)). lia. }
  destruct (Z.lt_total (be_value bs) (be_value bs')) as [H|[H|H]].
  - assert (order_swap (get_s bs) < order_swap (get_s bs')) by (apply Hmono; lia).
    split; [transitivity true; [|symmetry]; apply Z.ltb_lt; lia|transitivity false; [|symmetry]; apply Z.eqb_neq; lia].
  - assert (bs = bs') as <-; [|by rewrite !Z.ltb_irrefl, !Z.eqb_refl].
    destruct Hb, Hb'. apply be_value_inj; try done. unfold zlength in *. lia.
  - assert (order_swap (get_s bs') < order_swap (get_s bs)) by (apply Hmono; lia).
    split; [transitivity false; [|symmetry]; apply Z.ltb_ge; lia|transitivity false; [|symmetry]; apply Z.eqb_neq; lia].
Qed.
