(* ===== verification/PartitionTheorems.v ===== *)
(** * Scans and partition elimination: theorems

    A column scan returns the rows that satisfy the filters; the filters parsed into
    a set select the same rows as the list they come from; the ranges that scans
    collect bound every value, and an extent that is passed over because of its range
    has no row that the scan would have returned.  At the end the filters for which
    this fails. *)

From stdpp Require Import gmap sorting.
From S2P Require Import Prelude BinFile ByteStream ColType Vss ExtentMap EmCp SlaveNode NodeEm DbrmReads ColumnScan LbidList ScanProofs.

(** ** Parsed filters *)

(** A parsed filter gives the answer of the list of its filters. *)
Lemma p_Col_parsed regexec logical block q filter pf :
  width (q_DataSize q) → not_float (q_DataType q) → Forall is_byte block → Forall is_byte filter → 0 ≤ q_NOPS q →
  parseColumnFilter filter (q_DataSize q) (q_DataType q) (q_NOPS q) (q_BOP q) = Ret pf →
  (q_BOP q = BOP_AND → 2 ≤ q_NOPS q →
     ∃ i, 0 ≤ i < q_NOPS q ∧ null_constant (q_DataSize q) (q_DataType q) filter i = false) →
  ∃ args, parse_loop true (q_DataSize q) (q_DataType q) filter (zseq 0 (q_NOPS q)) = Ret args ∧ zlength args = q_NOPS q ∧
    p_Col regexec logical block pf q = p_Col regexec logical block (Some (TWO_ARRAYS args)) q.
Proof.
  intros HW Hf Hb Hbf Hn Hp Hex. destruct (Z.eq_dec (q_NOPS q) 0) as [E0|E0].
  { unfold parseColumnFilter in Hp. rewrite E0 in *. injection Hp as <-. exists []. split; [done|]. split; [done|].
    unfold p_Col, p_Col_ridArray. rewrite E0. done. }
  assert (0 < q_NOPS q) as Hpos by lia.
  destruct (parse_filter_args _ _ _ _ _ _ HW Hbf Hpos Hp) as (args & Hl & Hlen & H2 & Hpf).
  exists args. split; [done|]. split; [done|]. destruct Hpf as [-> | (H2n & Hset & ->)]; [done|].
  unfold p_Col. destruct (bool_decide _); [|done]. unfold p_Col_ridArray.
  destruct (if negb (0 <? q_NVALS q) then _ else _) as [rids|]; [|done]. cbn [mbind outcome_bind].
  destruct (if isMinMaxValid q then _ else _) as [mn mx]. apply col_loop_ext; [done..|]. intros w bs o Hw.
  apply (set_is_args _ _ _ _ HW Hf args w bs); try done.
  - apply Forall_forall. intros a [k Hk]%list_elem_of_lookup.
    destruct (Forall2_lookup_r _ _ _ _ _ H2 Hk) as (i & _ & Hok & _). eauto.
  - intros Ea. destruct (Hex Ea H2n) as (i & Hi & Hc). by eapply constant_args.
Qed.

(** C10 The filters a column command parses once, into arrays or into a set, select
    the same rows and give the same answer as the filters in the message parsed for
    each block: whatever the block, the rows asked for, the operators and the
    rounding flags, for every column that is not a FLOAT or DOUBLE; the filters of a
    conjunction are not all NULL. *)
Theorem parsed_filter_equivalent regexec logical block q filter rest pf :
  not_float (q_DataType q) → Forall is_byte block → Forall is_byte filter → 0 ≤ q_NOPS q →
  q_data q = filter ++ rest →
  parseColumnFilter filter (q_DataSize q) (q_DataType q) (q_NOPS q) (q_BOP q) = Ret pf →
  (q_BOP q = BOP_AND → 2 ≤ q_NOPS q →
     ∃ i, 0 ≤ i < q_NOPS q ∧ null_constant (q_DataSize q) (q_DataType q) filter i = false) →
  p_Col regexec logical block pf q = p_Col regexec logical block None q.
Proof.
  intros Hf Hb Hbf Hn Hd Hp Hex.
  destruct (decide (q_DataSize q ∈ [1; 2; 4; 8])) as [HW|HW]; [|unfold p_Col; by rewrite bool_decide_eq_false_2].
  assert (width (q_DataSize q)) as HW' by (unfold width; set_solver). clear HW.
  destruct (p_Col_parsed regexec logical block q filter pf HW' Hf Hb Hbf Hn Hp Hex) as (args & Hl & Hlen & ->).
  destruct (parse_again _ _ _ rest _ _ Hl) as (args' & Hl' & Hsame).
  unfold p_Col. destruct (bool_decide _); [|done]. unfold p_Col_ridArray.
  destruct (if negb (0 <? q_NVALS q) then _ else _) as [rids|]; [|done]. cbn [mbind outcome_bind].
  destruct (if isMinMaxValid q then _ else _) as [mn mx]. rewrite Hd, Hl'. cbn [mbind outcome_bind].
  apply col_loop_ext; [done..|]. intros w bs o Hw.
  destruct (isUnsigned (q_DataType q)) eqn:Eu; [|by subst]. by apply args_same.
Qed.

(** ** Ranges of blocks and of extents *)

(** A scan of a block of a column. *)
Definition scan_of (logical : bool) (ct : ColType) (q : NewColRequestHeader) : Prop :=
  q_DataType q = colDataType ct ∧ q_DataSize q = colWidth ct ∧ q_NVALS q = 0.

(** Every value of a block that is not NULL is in the range. *)
Definition covers (logical : bool) (ct : ColType) (block : list Z) (mn mx : Z) : Prop :=
  ∀ q rid, scan_of logical ct q → 0 ≤ rid < items logical q →
  let w := row_at (colWidth ct) (colDataType ct) block rid in
  w_null w = false → w_empty w = false → within ct mn mx (w_val w).

Section Elimination.
Context (regexec : list Z → list Z → bool) (logical : bool) (ct : ColType) (Hct : cp_column ct = true).
Let W := colWidth ct.
Let type := colDataType ct.

(** The range a scan reports covers the block, whatever its filters. *)
Lemma scan_reports q block pf o :
  scan_of logical ct q → full_block logical q block →
  p_Col regexec logical block pf q = Ret o → o_ValidMinMax o = true →
  covers logical ct block (o_Min o) (o_Max o) ∧
  cp_ord ct (o_Min o) ≤ cp_ord ct (no_values type).2 ∧ cp_ord ct (no_values type).1 ≤ cp_ord ct (o_Max o).
Proof.
  intros (H1 & H2 & H3) Hfull Hp Hv. destruct (cp_column_spec ct Hct) as (HW & _).
  assert (width (q_DataSize q)) as HW' by (by rewrite H2).
  assert (∃ f, p_Col regexec logical block (Some f) q = Ret o) as (f & Hp').
  { destruct pf; [eauto|by apply p_Col_none_scan]. }
  rewrite p_Col_scan in Hp' by done. set (rows := visited_rows _ _ _ _ _) in Hp'.
  assert (Forall (fun w => ∃ bs, row_ok W type w bs) rows) as Hok.
  { apply Forall_forall. intros w Hw. pose proof (visited_row logical q block HW' Hfull w Hw) as (_ & _ & K & _).
    unfold W, type. by rewrite <- H1, <- H2. }
  assert (isMinMaxValid q = true) as Hvalid.
  { destruct (isMinMaxValid q) eqn:E; [done|]. exfalso.
    assert (o_ValidMinMax (scan_start q) = false) as Hs by (unfold scan_start; by rewrite E).
    clear -Hs Hp' Hv HW'. revert Hs Hp'. generalize (scan_start q). induction rows as [|w rows IH]; intros o0 Hs Hp; cbn [fold_rows] in Hp.
    - injection Hp as ->. congruence.
    - apply outcome_bind_inv in Hp as (o1 & Hr & Hp). apply do_row_range in Hr as (Hr & _).
      apply (IH (set_minmax regexec (q_DataSize q) q w o1)); [|done].
      rewrite (proj1 (proj2 (proj2 (proj2 (minmax_keeps regexec q w o1))))). congruence. }
  destruct (fold_rows_bounds regexec ct Hct q block H1 H2 f rows (scan_start q) o) as (_ & B1 & B2 & B3); [done| |done|].
  { unfold scan_start. rewrite Hvalid. by destruct (no_values _). }
  unfold scan_start in B1, B2. rewrite Hvalid, H1 in B1, B2. unfold type. destruct (no_values (colDataType ct)) as [mx mn].
  split; [|done]. intros q' rid (H1' & H2' & H3') Hrid w Hn He.
  apply (proj1 (Forall_forall _ _) B3 w); [|done|done]. unfold rows, visited_rows. apply list_elem_of_In, filter_In. split.
  - apply list_elem_of_In, list_elem_of_fmap. exists rid. split; [unfold w; by rewrite H1, H2|]. apply zseq_elem.
    unfold items in *. rewrite H2 in *. rewrite H2' in Hrid. lia.
  - unfold visited. by rewrite He.
Qed.

(** The filters of a column are parsed into exact comparisons with constants that
    are not NULL. *)
Definition plain_filter (filter : list Z) (n : Z) : bool :=
  match parse_loop true W type filter (zseq 0 n) with
  | Ret args => forallb (plain_arg ct) args
  | Exn _ => false
  end.

(** If the predicate is false on a range, no filter or not all of them can be
    satisfied by a row of the range. *)
Lemma none_selected q n BOP filter args mn mx w bs :
  scan_of logical ct q → q_NOPS q = n → q_BOP q = BOP → 0 < n → Forall is_byte filter →
  parse_loop true W type filter (zseq 0 n) = Ret args → forallb (plain_arg ct) args = true →
  CasualPartitionPredicate mn mx filter n ct BOP = Ret false →
  row_ok W type w bs → (w_null w = false → within ct mn mx (w_val w)) →
  selected regexec W q args w = false.
Proof.
  intros (H1 & H2 & H3) Hn HB Hpos Hby Hp Hpl Hcp Hw Hin. destruct (cp_column_spec ct Hct) as (HW & _).
  pose proof (parse_loop_args W type filter HW Hby true _ _ (Forall_zseq n) Hp) as F2.
  pose proof (Forall2_length _ _ _ F2) as Hlen. rewrite length_zseq in Hlen.
  unfold CasualPartitionPredicate in Hcp.
  pose proof (cp_loop_args ct Hct filter Hby mn mx BOP (Z.to_nat n) 0 args 0 true ltac:(lia)) as Hloop.
  rewrite Z2Nat.id in Hloop by lia. specialize (Hloop Hp Hpl). rewrite Z.mul_0_l, Hcp in Hloop. injection Hloop as Hf.
  destruct (cp_args_false ct mn mx BOP args true (eq_sym Hf)) as (K1 & K2 & K3); [by destruct args; [cbn in Hlen; lia|]|].
  assert (∀ a, a ∈ args → cp_scan ct mn mx (a_val a) (wrap_s 8 (a_COP a)) (a_rf a) = false → compare_row regexec W q w a = false) as Hrow.
  { intros a Ha Hc. pose proof Ha as Ha'. apply list_elem_of_lookup in Ha' as [k Hk].
    destruct (Forall2_lookup_r _ _ _ _ _ F2 Hk) as (i & _ & Hok & Hcb & _).
    eapply (row_excluded ct Hct regexec q w bs a); eauto.
    rewrite forallb_forall in Hpl. apply Hpl. by apply list_elem_of_In. }
  assert (∀ P : ColArg → Prop, Forall P args → Exists P args) as Hsome.
  { intros P HP. destruct HP; [cbn in Hlen; lia|]. by constructor. }
  assert (Exists (fun a => cp_scan ct mn mx (a_val a) (wrap_s 8 (a_COP a)) (a_rf a) = false) args →
            forallb (compare_row regexec W q w) args = false) as Hall.
  { intros (a & Ha & Hc)%Exists_exists. apply not_true_iff_false. rewrite forallb_forall. intros Hx.
    apply list_elem_of_In in Ha as Ha'. specialize (Hx a Ha'). by rewrite Hrow in Hx. }
  unfold selected. rewrite Hn, HB, (proj2 (Z.eqb_neq n 0)) by lia. destruct (Z.eqb_spec n 1).
  { apply Hall, Hsome, K3. lia. }
  destruct (Z.eqb_spec BOP BOP_AND) as [E|E]; [auto|].
  destruct (Z.eqb_spec BOP BOP_OR) as [E'|E']; [|done].
  apply not_true_iff_false. rewrite existsb_exists. intros (a & Ha & Hx). apply list_elem_of_In in Ha.
  rewrite Hrow in Hx; [done..|]. by apply (proj1 (Forall_forall _ _) (K2 E') a Ha).
Qed.

(** The scan that elimination passes over returns no row. *)
Lemma scan_returns_nothing q block filter pf mn mx :
  scan_of logical ct q → full_block logical q block → nonzero (Z.land (q_OutputType q) OT_RID) = true →
  0 < q_NOPS q → Forall is_byte filter →
  parseColumnFilter filter W type (q_NOPS q) (q_BOP q) = Ret pf → plain_filter filter (q_NOPS q) = true →
  covers logical ct block mn mx → CasualPartitionPredicate mn mx filter (q_NOPS q) ct (q_BOP q) = Ret false →
  ∃ o, p_Col regexec logical block pf q = Ret o ∧ o_NVALS o = 0 ∧ o_data o = [].
Proof.
  unfold plain_filter, W, type in *. intros Hs Hfull Hrid Hpos Hby Hparse Hplain Hcov Hcp. destruct (cp_column_spec ct Hct) as (HW & Hnf & _).
  pose proof Hs as (H1 & H2 & H3). assert (width (q_DataSize q)) as HW' by (by rewrite H2).
  destruct (p_Col_parsed regexec logical block q filter pf HW') as (args & Hl & Hlen & ->);
    [by rewrite H1|apply Hfull|done|lia|by rewrite H1, H2| |].
  { intros _ _. exists 0. split; [lia|]. rewrite H1, H2.
    destruct (parse_loop true _ _ filter _) as [args|] eqn:Hl; [|done].
    pose proof (parse_loop_args _ _ filter HW Hby true _ _ (Forall_zseq (q_NOPS q)) Hl) as F2.
    destruct (Forall2_lookup_l _ _ _ 0%nat 0 F2) as (a & Ha & Hok & _).
    { unfold zseq. rewrite list_lookup_fmap, lookup_seq_lt by lia. done. }
    rewrite forallb_forall in Hplain. specialize (Hplain a ltac:(by eapply list_elem_of_In, list_elem_of_lookup_2)).
    unfold plain_arg in Hplain. apply andb_true_iff in Hplain as [[_ Hx%negb_true_iff]%andb_true_iff _].
    by rewrite (arg_val_decode _ _ HW a _ Hok), (decode_low _ _ HW) in Hx by apply Hok. }
  rewrite H1, H2 in Hl. rewrite Hl in Hplain. symmetry in Hlen.
  rewrite p_Col_scan by done. set (rows := visited_rows _ _ _ _ _).
  assert (∀ w, w ∈ rows → row_in_block (q_DataSize q) block (w_rid w) ∧ selected regexec (q_DataSize q) q args w = false) as Hrows.
  { intros w Hw. destruct (visited_row logical q block HW' Hfull w Hw) as (K1 & (rid & Hr & Ew) & (bs & Hok) & Hne). split; [done|].
    rewrite H1, H2 in *. apply (none_selected q (q_NOPS q) (q_BOP q) filter args mn mx w bs); try done. intros Hn. rewrite Ew in Hn |- *. apply (Hcov q rid Hs Hr Hn).
    rewrite <- Ew. by apply Hne. }
  eexists. rewrite fold_rows_step; [split; [done|]|done|done|apply Forall_forall; intros w Hw; by apply Hrows].
  assert (List.filter (selected regexec (q_DataSize q) q args) rows = []) as Hnil.
  { apply filter_no_row. intros w Hw. by apply Hrows. }
  destruct (fold_selected regexec q block (selected regexec (q_DataSize q) q args) rows (scan_start q)) as (D1 & D2 & _).
  rewrite Hnil in D1, D2. cbn zeta in *.
  assert (o_data (scan_start q) = [] ∧ o_NVALS (scan_start q) = 0) as [S1 S2].
  { unfold scan_start. by destruct (if isMinMaxValid q then _ else _). }
  rewrite D1, S1. split; [|done]. rewrite D2, S2; [done|lia|].
  unfold rows, visited_rows.
  pose proof (filter_length (visited q true) (row_at (q_DataSize q) (q_DataType q) block <$> zseq 0 (items logical q))) as Hfl.
  unfold zlength. rewrite S2. rewrite length_fmap, length_zseq in Hfl.
  assert (items logical q ≤ 8192). { unfold items. destruct logical; [done|]. unfold width in HW'.
    destruct HW' as [->|[->|[->| ->]]]; vm_compute; discriminate. }
  lia.
Qed.
End Elimination.

(** ** Collecting the ranges of an extent *)

Definition in_extent (p : MinMaxPartition) (lbid : Z) : bool := (mp_lbid p <=? lbid) && (lbid <? mp_lbidmax p).

(** The entries are of different extents. *)
Definition extents_disjoint (v : list MinMaxPartition) : Prop :=
  NoDup (mp_lbid <$> v) ∧
  ∀ i j p p' lbid, v !! i = Some p → v !! j = Some p' → in_extent p lbid = true → in_extent p' lbid = true → i = j.

(** What one report makes of an entry. *)
Definition report (type : ColDataType) (p : MinMaxPartition) (c : BlockCP) : MinMaxPartition :=
  if in_extent p (bc_LBID c) then update_partition (bc_min c) (bc_max c) type (bc_valid c) p else p.

Lemma update_partition_place mn mx t b p :
  mp_lbid (update_partition mn mx t b p) = mp_lbid p ∧ mp_lbidmax (update_partition mn mx t b p) = mp_lbidmax p.
Proof. unfold update_partition. destruct (negb b); [done|]. destruct (_ =? _); [|done]. by destruct (if isCharType t then _ else _). Qed.

Lemma report_place t p c : mp_lbid (report t p c) = mp_lbid p ∧ mp_lbidmax (report t p c) = mp_lbidmax p.
Proof. unfold report. destruct (in_extent _ _); [apply update_partition_place|done]. Qed.

Lemma update_loop_report t c v :
  (∀ i j p p', v !! i = Some p → v !! j = Some p' → in_extent p (bc_LBID c) = true → in_extent p' (bc_LBID c) = true → i = j) →
  update_loop (bc_min c) (bc_max c) (bc_LBID c) t (bc_valid c) v = (fun p => report t p c) <$> v.
Proof.
  induction v as [|p v IH]; intros Hd; [done|]. cbn [update_loop fmap list_fmap]. unfold report at 1. fold (in_extent p (bc_LBID c)).
  destruct (in_extent p (bc_LBID c)) eqn:E.
  - f_equal. assert (∀ p', p' ∈ v → in_extent p' (bc_LBID c) = false) as Hno.
    { intros p' [j Hj]%list_elem_of_lookup. apply not_true_iff_false. intros E'. by specialize (Hd 0%nat (S j) p p' eq_refl Hj E E'). }
    clear -Hno. induction v as [|p' v IH]; [done|]. cbn. unfold report at 1. rewrite (Hno p') by apply list_elem_of_here.
    f_equal. apply IH. intros x Hx. apply Hno. by apply list_elem_of_further.
  - f_equal. apply IH. intros i j p1 p2 H1 H2 E1 E2. by injection (Hd (S i) (S j) p1 p2 H1 H2 E1 E2).
Qed.

Lemma disjoint_report t c v : extents_disjoint v → extents_disjoint ((fun p => report t p c) <$> v).
Proof.
  intros [Hn Hd]. split.
  - rewrite <- list_fmap_compose. erewrite list_fmap_ext; [exact Hn|]. intros i p _. cbn. apply report_place.
  - intros i j p p' lbid Hi Hj. rewrite list_lookup_fmap in Hi, Hj.
    apply fmap_Some in Hi as (p1 & Hi & ->). apply fmap_Some in Hj as (p2 & Hj & ->).
    unfold in_extent. destruct (report_place t p1 c) as [-> ->], (report_place t p2 c) as [-> ->]. by apply (Hd i j).
Qed.

Lemma update_ranges_report t cpv l :
  extents_disjoint (lbidPartitionVector l) →
  lbidPartitionVector (update_ranges t cpv l) = (fun p => foldl (report t) p cpv) <$> lbidPartitionVector l.
Proof.
  revert l. induction cpv as [|c cpv IH]; intros l Hd; unfold update_ranges in *; cbn [foldl]; [by rewrite list_fmap_id|].
  rewrite IH; cbn [UpdateMinMax lbidPartitionVector]; rewrite update_loop_report by (intros i j p p' H1 H2; by apply (proj2 Hd i j p p' (bc_LBID c))).
  - by rewrite <- list_fmap_compose.
  - by apply disjoint_report.
Qed.

(** The recorder of the ranges that are sent. *)
Definition record_infos (infos : list CPInfo) : M (list CPInfo) unit := modify (fun s => s ++ infos).

Lemma send_recorded size v i acc s :
  send_partitions record_infos size v i acc s =
    (Ret ((fun p => if sendable p then mark_valid p else p) <$> v), s ++ acc ++ (info_of <$> List.filter sendable v)).
Proof.
  revert i acc s. induction v as [|p v IH]; intros i acc s; cbn [send_partitions fmap list_fmap List.filter].
  { destruct acc; cbn; by rewrite ?app_nil_r. }
  unfold mbind, M_bind, record_infos, modify. destruct (sendable p).
  - destruct (_ || _); rewrite IH; cbn; by rewrite <- ?app_assoc.
  - by rewrite IH.
Qed.

Lemma sent_infos l l' infos :
  UpdateAllPartitionInfo record_infos (l, []) = (Ret tt, (l', infos)) →
  infos = info_of <$> List.filter sendable (lbidPartitionVector l).
Proof.
  unfold UpdateAllPartitionInfo, mbind, M_bind, gets, zoom. cbn [fst snd]. destruct (_ && _); [done|]. cbn [mret M_ret].
  cbn. rewrite send_recorded. cbn. by intros [= _ <-].
Qed.

Section Ranges.
Context (ct : ColType) (Hct : cp_column ct = true).
Let type := colDataType ct.

(** A report is within the range a scan starts with. *)
Definition sane (c : BlockCP) : Prop :=
  bc_valid c = true → cp_ord ct (bc_min c) ≤ cp_ord ct (no_values type).2 ∧ cp_ord ct (no_values type).1 ≤ cp_ord ct (bc_max c).

Lemma update_partition_range c p :
  bc_valid c = true → sane c → mp_isValid p = CP_INVALID →
  let p' := update_partition (bc_min c) (bc_max c) type true p in
  cp_ord ct (mp_min p') ≤ cp_ord ct (mp_min p) ∧ cp_ord ct (mp_min p') ≤ cp_ord ct (bc_min c) ∧
  cp_ord ct (mp_max p) ≤ cp_ord ct (mp_max p') ∧ cp_ord ct (bc_max c) ≤ cp_ord ct (mp_max p').
Proof.
  intros Hv Hs Hi. destruct (Hs Hv) as [S1 S2]. unfold update_partition. cbn [negb]. rewrite Hi. cbn [Z.eqb CP_INVALID].
  unfold cp_ord, no_values in *. fold type in S1, S2 |- *. destruct (isCharType type) eqn:Ec.
  - assert (isUnsigned type = false) as Eu by (by destruct type). rewrite Eu in S1, S2. cbn [fst snd] in S1, S2.
    cbn [mp_min mp_max].
    destruct (Z.ltb_spec (order_swap (bc_min c)) (order_swap (mp_min p))); cbn [orb];
      destruct (Z.ltb_spec (order_swap (mp_max p)) (order_swap (bc_max c))); cbn [orb];
      destruct (Z.eqb_spec (mp_min p) max_i64) as [E1|E1]; destruct (Z.eqb_spec (mp_max p) min_i64) as [E2|E2];
      try rewrite <- E1 in S1; try rewrite <- E2 in S2; lia.
  - destruct (isUnsigned type).
    + cbn [mp_min mp_max]. destruct (Z.ltb_spec (u64 (bc_min c)) (u64 (mp_min p))), (Z.ltb_spec (u64 (mp_max p)) (u64 (bc_max c))); lia.
    + cbn [mp_min mp_max]. destruct (Z.ltb_spec (bc_min c) (mp_min p)), (Z.ltb_spec (mp_max p) (bc_max c)); lia.
Qed.

Lemma reports_range cpv p :
  Forall sane cpv → let p' := foldl (report type) p cpv in
  mp_isValid p' = CP_INVALID →
  mp_isValid p = CP_INVALID ∧ cp_ord ct (mp_min p') ≤ cp_ord ct (mp_min p) ∧ cp_ord ct (mp_max p) ≤ cp_ord ct (mp_max p') ∧
  ∀ c, c ∈ cpv → in_extent p (bc_LBID c) = true →
    bc_valid c = true ∧ cp_ord ct (mp_min p') ≤ cp_ord ct (bc_min c) ∧ cp_ord ct (bc_max c) ≤ cp_ord ct (mp_max p').
Proof.
  intros Hs. revert p. induction Hs as [|c cpv Hc Hs IH]; intros p p' Hi; cbn [foldl] in p'.
  { subst p'. split; [done|]. split; [lia|]. split; [lia|]. intros c Hc. by apply not_elem_of_nil in Hc. }
  destruct (IH (report type p c) Hi) as (I1 & I2 & I3 & I4). fold p' in I2, I3, I4.
  assert (∀ lbid, in_extent (report type p c) lbid = in_extent p lbid) as Hext.
  { intros lbid. unfold in_extent. by destruct (report_place type p c) as [-> ->]. }
  unfold report in I1, I2, I3. destruct (in_extent p (bc_LBID c)) eqn:E.
  - destruct (bc_valid c) eqn:Ev.
    2: { unfold update_partition in I1. done. }
    assert (mp_isValid p = CP_INVALID) as Hp.
    { unfold update_partition in I1. cbn [negb] in I1. destruct (mp_isValid p =? CP_INVALID) eqn:Ep; [by apply Z.eqb_eq in Ep|].
      by apply Z.eqb_neq in Ep. }
    destruct (update_partition_range c p Ev Hc Hp) as (R1 & R2 & R3 & R4). split; [done|]. split; [lia|]. split; [lia|].
    intros c' [->|Hin]%elem_of_cons Hx; [split; [done|lia]|]. apply I4; [done|]. by rewrite Hext.
  - split; [done|]. split; [done|]. split; [done|]. intros c' [->|Hin]%elem_of_cons Hx; [congruence|]. apply I4; [done|]. by rewrite Hext.
Qed.
End Ranges.

(** ** Elimination is sound *)

(** A report of a scan: of the block with this LBID, with any filters, for any
    version of it. *)
Definition reported (regexec : list Z → list Z → bool) (logical : bool) (ct : ColType) (data : Z → list Z) (c : BlockCP) : Prop :=
  ∃ q pf o versioned,
    scan_of logical ct q ∧ full_block logical q (data (bc_LBID c)) ∧
    p_Col regexec logical (data (bc_LBID c)) pf q = Ret o ∧
    c = mkBCP (o_Min o) (o_Max o) (bc_LBID c) (o_ValidMinMax o && negb versioned).

Lemma covers_wider logical ct block mn mx mn' mx' :
  covers logical ct block mn mx → cp_ord ct mn' ≤ cp_ord ct mn → cp_ord ct mx ≤ cp_ord ct mx' →
  covers logical ct block mn' mx'.
Proof. intros H H1 H2 q rid Hq Hr w Hn He. specialize (H q rid Hq Hr Hn He). unfold within in *. fold w in H. lia. Qed.

Lemma set_cp_valid x c c' : set_cp x c = Some c' → isValid c' = CP_VALID → hi_val c' = cp_max x ∧ lo_val c' = cp_min x.
Proof. unfold set_cp. intros H Hv. destruct (_ && _); [by simplify_eq|]. destruct (_ =? -1); [by simplify_eq|]. destruct (_ =? -2); by simplify_eq. Qed.

(** C8 An extent that is passed over has no row the query would get: scans of the
    blocks of some extents report ranges, [UpdateMinMax] collects them and
    [UpdateAllPartitionInfo] sends them; if the extent map accepts the range of an
    extent and [CasualPartitionPredicate] then rules the extent out for some filters,
    [p_Col] with these filters returns no row for any block of the extent that was
    scanned.  Columns of every type with ranges but strings of one byte; the filters
    have no NULL and no rounded constant in a strict comparison. *)
Theorem extent_elimination_sound regexec logical ct data l cpv l' infos info p c c' b q filter pf :
  cp_column ct = true → extents_disjoint (lbidPartitionVector l) →
  Forall (reported regexec logical ct data) cpv →
  UpdateAllPartitionInfo record_infos (update_ranges (colDataType ct) cpv l, []) = (Ret tt, (l', infos)) →
  info ∈ infos → p ∈ lbidPartitionVector l → mp_lbid p = ci_firstLbid info →
  set_cp (mkMaxMin (ci_max info) (ci_min info) (ci_seqNum info)) c = Some c' → isValid c' = CP_VALID →
  b ∈ cpv → in_extent p (bc_LBID b) = true →
  scan_of logical ct q → nonzero (Z.land (q_OutputType q) OT_RID) = true → 0 < q_NOPS q → Forall is_byte filter →
  parseColumnFilter filter (colWidth ct) (colDataType ct) (q_NOPS q) (q_BOP q) = Ret pf →
  plain_filter ct filter (q_NOPS q) = true →
  CasualPartitionPredicate (lo_val c') (hi_val c') filter (q_NOPS q) ct (q_BOP q) = Ret false →
  ∃ o, p_Col regexec logical (data (bc_LBID b)) pf q = Ret o ∧ o_NVALS o = 0 ∧ o_data o = [].
Proof.
  intros Hct Hd Hrep Hsend Hinfo Hp Hlbid Hset Hvalid Hb Hin Hq Hrid Hpos Hby Hparse Hplain Hcp.
  apply sent_infos in Hsend as ->. apply list_elem_of_fmap in Hinfo as (p' & -> & Hp').
  apply list_elem_of_In, filter_In in Hp' as [Hp' Hsendable]. apply list_elem_of_In in Hp'.
  rewrite update_ranges_report in Hp' by done. apply list_elem_of_fmap in Hp' as (p0 & -> & Hp0).
  destruct (set_cp_valid _ _ _ Hset Hvalid) as [Hhi Hlo]. cbn [cp_max cp_min info_of ci_max ci_min ci_firstLbid] in *.
  assert (∀ t cs x, mp_lbid (foldl (report t) x cs) = mp_lbid x) as Hplace.
  { intros t cs. induction cs as [|c1 cs IH]; intros x; [done|]. cbn. rewrite IH. apply report_place. }
  assert (p = p0) as <-.
  { rewrite Hplace in Hlbid. destruct Hd as [Hnd _]. apply list_elem_of_lookup in Hp as [i Hi]. apply list_elem_of_lookup in Hp0 as [j Hj].
    assert (i = j) as <-; [|congruence]. eapply NoDup_lookup; [exact Hnd|rewrite list_lookup_fmap, Hi; done|].
    rewrite list_lookup_fmap, Hj. cbn. by rewrite Hlbid. }
  assert (Forall (sane ct) cpv) as Hsane.
  { eapply Forall_impl; [exact Hrep|]. intros c1 (q1 & pf1 & o1 & ver & K1 & K2 & K3 & ->). intros Hv. cbn [bc_valid bc_min bc_max bc_LBID] in *.
    apply andb_true_iff in Hv as [Hv _]. by apply (scan_reports regexec logical ct Hct q1 _ pf1 o1 K1 K2 K3 Hv). }
  unfold sendable in Hsendable. apply andb_true_iff in Hsendable as [Hinv%Z.eqb_eq _].
  destruct (reports_range ct cpv p Hsane Hinv) as (_ & _ & _ & Hall).
  destruct (Hall b Hb Hin) as (Hbv & Hmin & Hmax).
  pose proof (proj1 (Forall_forall _ _) Hrep b Hb) as (q1 & pf1 & o1 & ver & K1 & K2 & K3 & Eb).
  rewrite Eb in Hbv, Hmin, Hmax. cbn [bc_valid bc_min bc_max] in Hbv, Hmin, Hmax. apply andb_true_iff in Hbv as [Hv1 _].
  destruct (scan_reports regexec logical ct Hct q1 _ pf1 o1 K1 K2 K3 Hv1) as [Hcov _].
  apply (scan_returns_nothing regexec logical ct Hct q _ filter pf (lo_val c') (hi_val c')); try done.
  - destruct K2 as [K2a K2b]. split; [done|]. destruct K1 as (_ & E1 & _), Hq as (_ & E2 & _).
    unfold items in *. rewrite E1 in K2b. by rewrite E2.
  - rewrite Hlo, Hhi. by eapply covers_wider.
Qed.

(** ** What a scan selects *)











Section Select.
Context (regexec : list Z → list Z → bool) (W : Z) (q : NewColRequestHeader).
Context (HW : width W) (Hcp : CasualPartitionDataType (q_DataType q) W = true).
Let type := q_DataType q.






End Select.

(** ** A column command *)








Lemma umedint_empty_rows_seen : isEmptyVal 4 UMEDINT (getEmptyRowValue UMEDINT 4 mod 2 ^ 32) = false.
Proof. reflexivity. Qed.





(** Reading back the rows of an answer. *)
Lemma mem_at_middle n pre l tl : length l = n → mem_at n (pre ++ l ++ tl) (zlength pre) = Ret l.
Proof.
  intros Hl. unfold mem_at. pose proof (zlength_nonneg pre). rewrite (proj2 (Z.leb_le 0 _)) by lia.
  unfold zlength. rewrite Nat2Z.id, drop_app_length, take_app_length'; [|done]. by rewrite bool_decide_eq_true_2.
Qed.
















(** ** The calls that set and use the flags of extents *)

(** What [addFilter] writes is what is parsed. *)
Lemma added_filter_parsed ct COP value rf pre bs tl i :
  is_byte COP → is_byte rf → addFilter ct COP value rf = Ret bs → 0 ≤ i → zlength pre = i * (colWidth ct + 2) →
  arg_at (colWidth ct) (pre ++ bs ++ tl) i = Ret (COP, rf, le_bytes (Z.to_nat (colWidth ct)) value).
Proof.
  unfold addFilter, is_byte. intros Hc Hr H Hi Hl. case_bool_decide as HW; [|done]. injection H as <-.
  assert (0 ≤ colWidth ct) as H0 by set_solver by lia.
  assert (length (put8 COP ++ put8 rf ++ le_bytes (Z.to_nat (colWidth ct)) value) = Z.to_nat (colWidth ct + 2)) as Hlen.
  { rewrite !length_app. unfold put8. rewrite !length_le_bytes. lia. }
  unfold arg_at. rewrite <- Hl, (mem_at_middle _ _ _ _ Hlen). unfold put8. cbn. by rewrite !Z.mod_small by lia.
Qed.

(** An extent is ruled out by a column that has a valid range in it. *)
Lemma scan_flag_false ignoreCP cols idx :
  scan_flag ignoreCP cols idx = Ret false →
  ∃ c e, c ∈ cols ∧ (jl_extents c).[idx] = Some e ∧ ignoreCP = false ∧ isValid (cprange e) = CP_VALID ∧
    CasualPartitionPredicate (lo_val (cprange e)) (hi_val (cprange e)) (jl_filterString c) (jl_filterCount c) (jl_ct c) (jl_BOP c) = Ret false.
Proof.
  induction cols as [|c cols IH]; [done|]. cbn [scan_flag]. intros H. apply outcome_bind_inv in H as (e & He & H).
  apply outcome_bind_inv in H as (f & Hf & H).
  assert (c ∈ c :: cols) as Hin by apply list_elem_of_here.
  destruct f.
  - destruct (IH H) as (c' & e' & Hc & Hrest). exists c', e'. split; [by apply list_elem_of_further|done].
  - destruct ((jl_extents c).[idx]) as [e'|] eqn:E; [|done]. injection He as ->. exists c, e. split; [done|]. split; [done|].
    destruct ignoreCP; [done|]. cbn [orb] in Hf. destruct (Z.eqb_spec (isValid (cprange e)) CP_VALID); [done|]. done.
Qed.

(** An extent that the values of a join column rule out has none of them. *)
Lemma runtime_flag_sound logical ct vals isRange lbid entries e l l' block :
  entries !! lbid = Some e → isValid (cprange e) = CP_VALID →
  covers logical ct block (lo_val (cprange e)) (hi_val (cprange e)) →
  runtime_flag (colDataType ct) vals isRange lbid entries true l = (Ret false, l') →
  ∀ q rid, scan_of logical ct q → 0 ≤ rid < items logical q →
  let w := row_at (colWidth ct) (colDataType ct) block rid in
  w_null w = false → w_empty w = false →
  if isRange then ∀ lo hi, vals.[0] = Some lo → vals.[1] = Some hi → ¬ (cp_ord ct lo ≤ cp_ord ct (w_val w) ≤ cp_ord ct hi)
  else Forall (fun v => cp_ord ct v ≠ cp_ord ct (w_val w)) vals.
Proof.
  intros He Hv Hcov Hf q rid Hq Hr w Hn Hem. specialize (Hcov q rid Hq Hr Hn Hem). fold w in Hcov. unfold within in Hcov.
  unfold runtime_flag, GetMinMax_map, mbind, M_bind, mret, M_ret, lift in Hf. rewrite He, Hv in Hf.
  change (CP_VALID =? CP_VALID) with true in Hf. cbn iota beta in Hf. destruct isRange.
  - intros lo hi E0 E1 Hx. rewrite E0, E1 in Hf. cbn [deref] in Hf. injection Hf as Hf _. rewrite andb_true_r in Hf. revert Hf.
    unfold checkRangeOverlap, cp_ord in *. destruct (isCharType _); [|destruct (isUnsigned _)]; intros [Hf|Hf]%andb_false_iff; zbool; lia.
  - injection Hf as Hf _. rewrite andb_true_r in Hf. apply Forall_forall. intros v Hin E. apply not_true_iff_false in Hf. apply Hf.
    apply existsb_exists. exists v. split; [by apply list_elem_of_In|]. unfold checkSingleValue, cp_ord in *.
    destruct (isCharType _); [|destruct (isUnsigned _)]; rewrite E; apply andb_true_iff; split; apply Z.leb_le; lia.
Qed.

(** ** Samples *)

Definition no_regexec (text val : list Z) : bool := false.

(** A column of [BIGINT], and a block of it in which every row is 5. *)
Definition bigint : ColType := mkCT BIGINT 8.
Definition block_of_5 : list Z := concat (repeat (le_bytes 8 5) 1024).

Lemma block_of_5_bytes : Forall is_byte block_of_5 ∧ zlength block_of_5 = DATA_BLOCK_SIZE.
Proof.
  split; [|done]. apply Forall_concat, Forall_forall. intros x Hx. apply list_elem_of_In, repeat_spec in Hx as ->. apply le_bytes_byte.
Qed.

Definition is_byteb (b : Z) : bool := (0 <=? b) && (b <? 256).
Lemma bytes_check l : forallb is_byteb l = true → Forall is_byte l.
Proof.
  rewrite forallb_forall. intros H. apply Forall_forall. intros x Hx%list_elem_of_In. specialize (H x Hx). unfold is_byteb, is_byte in *. zbool. lia.
Qed.

(** [c IN (4, 9)] on an INT column, on two rows that are given. *)
Definition in_filter : list Z := [COMPARE_EQ; 0] ++ le_bytes 4 4 ++ [COMPARE_EQ; 0] ++ le_bytes 4 9.
Definition in_request : NewColRequestHeader := mkReq 100 4 INT OT_BOTH BOP_OR 2 2 0 (in_filter ++ le_bytes 2 1 ++ le_bytes 2 0).

Lemma parsed_filter_equivalent_witness :
  ∃ s, parseColumnFilter in_filter 4 INT 2 BOP_OR = Ret (Some (UNORDERED_SET s)) ∧
  p_Col no_regexec true (le_bytes 4 9 ++ le_bytes 4 7) (Some (UNORDERED_SET s)) in_request
    = p_Col no_regexec true (le_bytes 4 9 ++ le_bytes 4 7) None in_request ∧
  (p_Col no_regexec true (le_bytes 4 9 ++ le_bytes 4 7) None in_request ≫= fun o => Ret (o_data o)) = Ret (le_bytes 2 0 ++ le_bytes 4 9).
Proof.
  eexists. split; [reflexivity|]. split; [|vm_compute; reflexivity].
  apply (parsed_filter_equivalent no_regexec true _ in_request in_filter (le_bytes 2 1 ++ le_bytes 2 0)).
  - split; discriminate.
  - apply bytes_check. reflexivity.
  - apply bytes_check. reflexivity.
  - discriminate.
  - reflexivity.
  - reflexivity.
  - discriminate.
Defined.

(** The scan of one block of an extent, and a later query [c > 7]. *)
Definition scan_request : NewColRequestHeader := mkReq 1000 8 BIGINT OT_BOTH BOP_AND 1 0 0 ([COMPARE_LT; 0] ++ le_bytes 8 0).
Definition scan_result : NewColResultHeader := mkRes 1000 0 0 true OT_BOTH 5 5 [].
Definition gt_filter : list Z := [COMPARE_GT; 0] ++ le_bytes 8 7.
Definition gt_request : NewColRequestHeader := mkReq 1000 8 BIGINT OT_BOTH BOP_AND 1 0 0 gt_filter.
Definition one_extent : LBIDList := mkLL true [new_partition 1000 9192 3 CP_INVALID BIGINT] [].

Lemma extent_elimination_sound_witness :
  ∃ pf o, parseColumnFilter gt_filter 8 BIGINT 1 BOP_AND = Ret pf ∧
  p_Col no_regexec false block_of_5 pf gt_request = Ret o ∧ o_NVALS o = 0 ∧ o_data o = [].
Proof.
  eexists. pose (b := mkBCP 5 5 1000 true).
  assert (p_Col no_regexec false block_of_5 None scan_request = Ret scan_result) as Ho by (vm_compute; reflexivity).
  destruct (extent_elimination_sound no_regexec false bigint (fun _ => block_of_5) one_extent [b]
    (mkLL true [mkMMP 1000 9192 5 5 3 CP_VALID 1] []) [mkCPInfo 1000 5 5 3] (mkCPInfo 1000 5 5 3)
    (new_partition 1000 9192 3 CP_INVALID BIGINT) (mkCP 0 0 3 CP_INVALID) (mkCP 5 5 4 CP_VALID) b gt_request gt_filter
    (Some (TWO_ARRAYS [mkArg COMPARE_GT 0 7 placeholderRegex]))) as (o' & H).
  - reflexivity.
  - split; [apply NoDup_singleton|]. intros [|i] [|j] p p' lbid Hi Hj _ _; by rewrite ?lookup_nil in *.
  - constructor; [|constructor]. exists scan_request, None, scan_result, false. split; [repeat split|]. split; [split; [apply block_of_5_bytes|]|].
    + rewrite (proj2 block_of_5_bytes). vm_compute. discriminate.
    + split; [exact Ho|]. reflexivity.
  - reflexivity.
  - apply list_elem_of_here.
  - apply list_elem_of_here.
  - reflexivity.
  - reflexivity.
  - reflexivity.
  - apply list_elem_of_here.
  - reflexivity.
  - repeat split.
  - reflexivity.
  - reflexivity.
  - apply bytes_check. reflexivity.
  - reflexivity.
  - reflexivity.
  - reflexivity.
  - exists o'. split; [reflexivity|exact H].
Defined.



(** ** Where elimination and scanning differ from what they mean *)

(** The request of a scan with the filters of the message. *)
Definition filter_request (ct : ColType) (BOP n : Z) (filter : list Z) : NewColRequestHeader :=
  mkReq 100 (colWidth ct) (colDataType ct) OT_BOTH BOP n 1 0 (filter ++ le_bytes 2 0).
(** Whether the first row of a block is returned. *)
Definition returned (ct : ColType) (BOP n : Z) (filter block : list Z) : outcome bool :=
  o ← p_Col no_regexec true block None (filter_request ct BOP n filter);
  Ret (o_NVALS o =? 1).

(** After a NULL in the filters the value is not passed over, and what follows is read
    at the wrong place: [c IS NOT NULL AND c >= 4 AND c <= 9] rules an extent out in
    which every row is 5. *)
Lemma null_filter_eliminates :
  let ct := mkCT INT 4 in
  let filter := [COMPARE_NE; 0] ++ le_bytes 4 INTNULL ++ [COMPARE_GE; 0] ++ le_bytes 4 4 ++ [COMPARE_LE; 0] ++ le_bytes 4 9 in
  CasualPartitionPredicate 5 5 filter 3 ct BOP_AND = Ret false ∧ returned ct BOP_AND 3 filter (le_bytes 4 5) = Ret true.
Proof. split; reflexivity. Qed.

(** A constant that was rounded down is compared as if it were exact: ['abcd'] is less
    than ['abcdx'], of which a column of four bytes keeps ['abcd'] and a flag; and so
    with numbers. *)
Lemma rounded_filter_eliminates :
  let ct := mkCT INT 4 in let filter := [COMPARE_LT; ROUND_POS] ++ le_bytes 4 5 in
  CasualPartitionPredicate 5 5 filter 1 ct BOP_AND = Ret false ∧ returned ct BOP_AND 1 filter (le_bytes 4 5) = Ret true ∧
  let ct := mkCT CHAR 4 in let filter := [COMPARE_LT; ROUND_POS; 97; 98; 99; 100] in
  CasualPartitionPredicate 0x64636261 0x64636261 filter 1 ct BOP_AND = Ret false ∧
  returned ct BOP_AND 1 filter [97; 98; 99; 100] = Ret true.
Proof. repeat split; reflexivity. Qed.

(** The ranges of a column [CHAR(1)] are compared as signed numbers by the scan and
    the predicate and as bytes when they are collected: with a row ['a'] in one block
    and a row 0xC3 in the other, [c = 0xC3] rules the extent out. *)
Lemma char1_range_wrong :
  let ct := mkCT CHAR 1 in
  let l := update_ranges CHAR [mkBCP 97 97 1000 true; mkBCP (-61) (-61) 1001 true]
             (mkLL true [new_partition 1000 9192 3 CP_INVALID CHAR] []) in
  lbidPartitionVector l = [mkMMP 1000 9192 97 (-61) 3 CP_INVALID 2] ∧
  CasualPartitionPredicate 97 (-61) [COMPARE_EQ; 0; 0xC3] 1 ct BOP_AND = Ret false ∧
  returned ct BOP_AND 1 [COMPARE_EQ; 0; 0xC3] [0xC3] = Ret true.
Proof. repeat split; reflexivity. Qed.

(** [f IN (0.0, 1.0)] does not find -0.0 when the filters are a set, and does when they
    are a list. *)
Lemma float_set_misses_zero :
  let filter := [COMPARE_EQ; 0] ++ le_bytes 4 0 ++ [COMPARE_EQ; 0] ++ le_bytes 4 0x3F800000 in
  let q := filter_request (mkCT FLOAT 4) BOP_OR 2 filter in
  let block := le_bytes 4 0x80000000 in
  ∃ s, parseColumnFilter filter 4 FLOAT 2 BOP_OR = Ret (Some (UNORDERED_SET s)) ∧
  (p_Col no_regexec true block (Some (UNORDERED_SET s)) q ≫= fun o => Ret (o_NVALS o)) = Ret 0 ∧
  (p_Col no_regexec true block None q ≫= fun o => Ret (o_NVALS o)) = Ret 1.
Proof. eexists. split; [reflexivity|]. split; vm_compute; reflexivity. Qed.

(** The pattern of LIKE on a column of two bytes whose second byte is above 0x7F is
    read past the eight bytes of its value. *)
Lemma like_reads_past :
  parseColumnFilter ([COMPARE_LIKE; 0] ++ [0xC3; 0xA9]) 2 CHAR 1 BOP_AND = Exn Segfault.
Proof. reflexivity. Qed.

(** The NULL of an unsigned [MEDINT] is one value for the predicate and another for
    the scan. *)
Lemma umedint_null_differs :
  isNull UINTNULL (mkCT UMEDINT 4) = Ret true ∧ isNullVal 4 UMEDINT UINTNULL = false ∧
  isNull INTNULL (mkCT UMEDINT 4) = Ret false ∧ isNullVal 4 UMEDINT INTNULL = true.
Proof. repeat split; reflexivity. Qed.
